(* ===== verification/_CoqProject ===== *)
-Q . S2P
Prelude.v
GoString.v
Sha256.v
GoStringFacts.v
Protocol.v
Auth.v
Redact.v
RedactFacts.v
RedactHides.v
Records.v
Json.v
Policy.v
Redis.v
RedisLogic.v
MemRedis.v
LocalStore.v
ApprovalStore.v
Binding.v
BindingFacts.v
ReceiverStores.v
MutationStore.v
Artifact.v
Sandbox.v
SandboxProofs.v
Prog.v
Service.v
Pool.v
SafeLogic.v
PoolSound.v
ServiceRules.v
ServiceSafe.v
ServiceRuns.v
ReceiverSafety.v
ReceiverProgress.v
ReceiverWitness.v
NoticeBounds.v
ApprovalScope.v
ApprovalProofs.v
ApprovalSafety.v
ApprovalWitness.v
CollabStore.v
CollabMachine.v
CollabLifecycle.v
CollabProofs.v
CollabAccess.v
CollabCreate.v
RelayAgreement.v
CollabDirectory.v
CollabScenario.v
CollabWitness.v
ArtifactAgreement.v
Hub.v
Eviction.v
AdminStore.v
AdminProofs.v
AdminWitness.v
Http.v
AdminHttp.v
CollabHttp.v
Relay.v
RelayAccess.v
StreamReplay.v
Sse.v
SseProofs.v
Client.v
ClientProofs.v
HttpWitness.v
Adapters.v
AdapterLogic.v
AdapterProofs.v
AdapterContract.v
Address.v
AdminCli.v
AdminRelay.v
AdminRecovery.v
Setup.v
Control.v
Mcp.v
McpProofs.v
McpAgreement.v
