(* ===== verification/Prelude.v ===== *)
(** * Team Relay: verification library (root)

    Team Relay lets a teammate's coding agent send a request to another
    teammate's agent.  A relay server keeps requests in Redis; a receiver
    daemon on the recipient's machine asks the recipient, runs a local agent
    for an approved request, and returns the result.  This library models the
    relay, from its routes to its stores, its client and the tools that the
    requesting agent calls, the receiver's configuration, policy, execution
    engine and control endpoint, and the adapters that start the local agents,
    and proves the theorems that make them correct.

    ** Parts, and how they interact

    - The relay ([src/internal/collaboration], [src/internal/store]) is
      stateless but for Redis and the notification hub.  Its handlers are
      functions over a Redis interface on which other replicas interfere.
    - The receiver ([src/internal/receiver]) keeps four private files (journal
      of decisions, pending inbox, standing approvals, sessions) and runs
      goroutines over them.  It talks to the relay, to a runtime and to an
      artifact manager, all arbitrary in its model.  Its owner talks to it over
      a local HTTP endpoint, whose calls are the service's.
    - The requesting side ([src/internal/mcpserver]) is six tools that an agent
      calls.  Its relay is a class, which the client of [Client] implements;
      the operating system under its workspaces is arbitrary.
    - The administrator's command ([src/cmd/team-relay-admin]) calls the relay
      and keeps the credentials it makes in files.  What it relies on is the
      class [Rotates], which the relay process implements.
    - A runtime ([src/internal/runtime/claude], [codex], [external]) turns an
      approved request into one child process and its output into an answer.  It
      is modelled on its own, over an arbitrary machine and child; what it
      promises the receiver is the contract of [AdapterContract].
    - The artifact manager ([src/internal/artifact]) keeps one private directory
      per approved request: it verifies the attachments on the way in and the
      deliverables on the way out.  It is modelled on its own, over a file
      system that may fail at every operation.
    - The relay and the receiver meet in the views of a stored request (notice,
      proposal, execution payload): [RelayAgreement] proves that the receiver
      accepts what an honest relay serves, [ArtifactAgreement] that the relay
      accepts the files an artifact manager collects, and the manager the
      attachments the relay serves, [McpAgreement] that the relay accepts the
      requests the tools send.

    ** Files

    Foundations.
    - [Prelude]: the Go effect monad, boolean reflection, list lemmas.
    - [GoString], [GoStringFacts]: Go strings, UTF-8, trimming, case folding,
      hexadecimal, base64, MIME and path functions of Go's library.
    - [Sha256], [Json]: [crypto/sha256] and the [encoding/json] text that is
      digested, both executable.
    - [Protocol] ([internal/protocol]), [Auth] ([internal/auth],
      [internal/keyspace]), [Records] (records stored in Redis).

    - [Redact], [RedactFacts], [RedactHides] ([runtime/helpers.go]): the
      redaction of texts that leave the recipient's machine.

    Relay.
    - [Redis], [RedisLogic], [MemRedis]: Redis as an interface with laws (the
      class [RedisLaws]), a rely/guarantee logic for handlers, and an
      implementation that discharges the laws and runs the witnesses.
    - [CollabStore] ([collaboration/store.go]): every operation.
      [CollabMachine] (the abstract life of a request), [CollabLifecycle],
      [CollabProofs] (refinement, uniqueness of decision, claim and result),
      [CollabAccess] (who may see what), [CollabCreate], [CollabDirectory];
      [CollabScenario], [CollabWitness] (concrete inputs).
    - [Hub] ([collaboration/hub.go]), [Eviction] ([collaboration/eviction.go]).
    - [AdminStore] ([store/redis.go], [store/models.go]), [AdminProofs],
      [AdminWitness].
    - [Http]: requests, responses, [http.ServeMux], and the state of a relay
      process.  [AdminHttp] ([server/server.go]), [CollabHttp]
      ([collaboration/handler.go]): every handler and the event stream.
      [Relay] ([cmd/team-relay-server/main.go]): both on one multiplexer.
    - [RelayAccess] (who may do what, and a revocation from the request to the
      closed stream), [StreamReplay] (a stream misses nothing).
    - [Sse], [SseProofs]: the text of a stream, as the relay writes it and the
      client reads it.  [Client], [ClientProofs] ([client/client.go]): the
      client, and its composition with the relay.  [HttpWitness].
    - [Address] ([transportpolicy/http.go], the address of [control.go], [New]
      of [client.go]): what may be reached without encryption.

    Requesting side.
    - [Mcp] ([mcpserver/server.go], [attachments.go], [downloads.go]): the tools.
      [McpProofs]: the files they read and write.  [McpAgreement].

    Administration.
    - [AdminCli] ([team-relay-admin/main.go], [recovery.go]): every command.
      [AdminRelay]: what the relay does with a rotation.  [AdminRecovery]: the
      rotation of the credential, whatever fails and wherever it stops.

    Receiver.
    - [Policy] ([runtime/policy.go], [capabilities.go]): policies, narrowing,
      fingerprints, enforcement; what a runtime is given ([runtime/types.go],
      [helpers.go], [contract.go]).
    - [LocalStore] ([privatefs.go] as used): a value in memory and in one file.
    - [ApprovalStore] ([approval_store.go]); [ApprovalScope],
      [ApprovalProofs], [ApprovalSafety], [ApprovalWitness].
    - [Binding], [BindingFacts]: what an approval is bound to ([service.go],
      [mutation_store.go]).  [ReceiverStores] ([pending_store.go],
      [session_store.go]); [MutationStore] ([mutation_store.go]).
    - [Prog]: programs of atomic operations.  [Service] ([service.go],
      [controller.go]): one program per method.  [Pool]: interleaving, arriving
      calls, crash and restart.
    - [SafeLogic], [PoolSound], [ServiceRules], [ServiceSafe], [ServiceRuns]: a
      logic for these programs, its soundness, and the proof of every method
      in it.
    - [ReceiverSafety], [ReceiverProgress], [ReceiverWitness], [NoticeBounds].
    - [Control] ([control.go]): the routes and handlers of the local endpoint,
      and its token file.
    - [Setup] ([config/config.go], [factory.go]): the configuration, and the
      controller that is built from it.
    - [Artifact] ([artifact/manager.go]): checks of attachments
      and deliverables, collection of results.  [Sandbox], [SandboxProofs]: a
      tree of files, and sandboxes in it.  [ArtifactAgreement].

    Runtimes.
    - [Adapters] ([runtime/process.go], [approval_fingerprint.go],
      [claude/adapter.go], [codex/adapter.go], [external/adapter.go]): child
      processes, and the three adapters as instances of one class.
      [AdapterLogic]: environments, command lines, what a run starts.
      [AdapterProofs]: Claude Code and Codex are confined.  [AdapterContract]:
      external runners, and the contract of all three.

    ** What the theorems show

    - C1-C6, the receiver under any interleaving, write fault, crash and
      restart: a runtime is only run on approved content, under the authority
      and policy of the approval, at most once for an approval; whatever is
      sent to the relay is in the journal's file first, every retry is exact,
      and what is journaled or sent shows no secret that redaction knows; no
      deadlock; once its context is done, everything comes to rest.  C7: a local request does the call of the service that it
      names, and only with the token.
    - C8-C12, the relay's collaboration store: refinement of the life of a
      request by any sequence of calls, one execution, prompts only after
      consent, creation.
    - C13-C17, administration: authentication; a credential is never lost by a
      rotation, which completes when it is repeated; revocation of a device
      and its agent, from the HTTP request to the closed stream; who may do what over HTTP.
    - C18-C22, streams and calls: the hub never panics; a stream replays what
      is pending and then misses nothing; its text is received as it was
      written, wherever it is cut; a call of the client is a call of the store;
      what may go in the clear.
    - C23-C25, the tools: only checked files of configured workspaces leave the
      machine; a download leaves what the request returned, or nothing; what is
      sent is taken.
    - C26-C28, standing approvals: atomic operations, sound matches, durable
      revocation.
    - C29-C30, the bridge: what the relay serves is accepted; which notices may
      be approved, and that the attachment sums do not overflow.
    - C31-C32, configuration and policy: what a configuration makes is well
      formed; narrowing is conjunction.
    - C33-C36, runtimes: what each adapter may start, with which command line,
      environment and files; the contract all three honour.
    - C37-C40, redaction and artifacts: redaction hides every match of its
      expressions whole, and nothing else; collected files are bounded,
      truthful and read through the handles that were checked, whatever the
      system answers; a sandbox is all or nothing; the relay takes what the
      receiver collects.
    - Theorems beside these: a recipient's decision, single use of invites,
      rotation in the store, well-formed approvals under any history,
      permanence of revocation, uniqueness of results, access to artifacts, the
      directory, scope inclusion, the grant an approval stores, reload of the
      approval file, what the payload check decides, the token file under other
      processes.

    ** Modelling choices

    - Fallible Go code is [M St E A] (Prelude): an error keeps the effects
      already made.  Errors are inductive types; texts of messages are left out.
    - Go strings are byte strings.  The Unicode tables of the installed Go are
      the class [UnicodeTables], with an ASCII instance for the witnesses.
    - A JSON document that a program wrote and reads back is its value; a file
      or a key that does not parse is a case of its own.  JSON text appears
      where it is digested.  A body of the client and the answer to it are
      repaired to UTF-8 as [encoding/json] does; the bodies of the
      administration command are taken to be UTF-8.
    - The length of an answer in JSON is a parameter; one that is longer than
      the client reads does not decode.  Those to the administration command
      are taken to be within its 2 MiB.
    - Times are nanoseconds in [Z]; 64-bit sums wrap as in Go ([NoticeBounds]
      shows they do not).
    - Redis: one step of an arbitrary environment before every command; a
      command may fail, or succeed and lose its reply; [WATCH]/[EXEC] commits
      only on unmodified keys.  Retry loops have the code's bound of five.
    - An HTTP request arrives as decoded path segments, header values and the
      value of its first JSON document (net/http and encoding/json decode it);
      a body that is too long or followed by more is refused.  Paths are clean:
      the multiplexer redirects others.  A panic closes the connection.
    - Before each hub call of a handler the other goroutines do any sequence of
      hub actions.  Which channel of a [select] is ready, and whether a write
      to a client succeeds, is given from outside.
    - Receiver: a goroutine is a finite tree of atomic operations that ends in
      the next round of its loop, or in nothing when it returns, so there is no
      fuel: the loop of the reconnections is a round per connection attempt,
      per event of a stream and per wait, and the loop of the heartbeat a round
      per beat.  Each store operation is atomic because the code holds the
      store's mutex throughout.  Answers from outside (relay, runtime, sandbox,
      random source, whether a context is done) are an arbitrary function of
      the number of the operation; random identifiers are only assumed to
      differ.  Cancelling a context therefore needs no model of its own: a
      cancelled call may fail, and every call may.  What a stream brings, when a
      timer fires and whether the context is done is answered from outside; C6
      takes the context to be done from some moment on.  Events and beats may
      also arrive as calls of their own, which is more than the code does.  The
      waits for background goroutines at the end of [Run] are left out.
    - Go's regular expressions of the redaction filter match in at most one way
      at a position; they are scanners over the runes of a text.
    - The file system under a sandbox is a tree; every operation may be refused
      or take effect and report failure.  The return directory belongs to the
      runtime: what the system answers about it is arbitrary.
      [mime.TypeByExtension] and [http.DetectContentType] are parameters.
    - A child process is a function of what it is started with: executable,
      arguments, directory, input, environment, private files.  Its lines arrive
      decoded; a line that is no event is one that is skipped.  Entries of MCP
      servers are JSON values whose numbers are integers; a cost is the bit
      pattern of its float64; events carry no time.  Loops over the ancestors
      of a path have the length of the path as fuel, which reaches the root.
    - A URL of [Address] arrives as [url.Parse] leaves it.  A configuration
      arrives as the YAML decoder leaves it.  Of a map that Go visits in any
      order, any of several errors may be the one given ([Setup]).
    - Under the tools, every answer of the operating system is a function of
      the log of all that happened before.  The token file of [Control] is
      shared with other processes, which may act before every operation.
    - An operation of the system that the administration command makes may be
      refused, reach a part of its effect, or be the last the process does; a
      request or its answer may be lost.  The two files of a credential have no
      other writer, and one command runs at a time.
    - The log of [Prog] and the marks of a goroutine are ghost state: no
      program reads them.  [EPut] in it means that a decision was handed to
      the journal; [EJournaled], made only by a write that succeeded, a reload
      or a restart, that the journal's file holds a record.

    ** Not modelled

    - Listeners, signals and shutdown of the relay process and of the control
      endpoint; the registration of the tools with the MCP library; the YAML
      decoder.
    - Command lines but for the administration command; installation and start
      of the daemon; the desktop integration: they parse arguments, print, and
      call the operating system around what is modelled.
    - The file system and the operating system: directory privacy, permissions,
      process locks, the agent programs themselves. *)

From stdpp Require Export base tactics option list strings gmap sets sorting.
From Stdlib Require Export ZArith Lia.

#[export] Set Default Goal Selector "!".

(** ** The Go effect monad

    A Go function of the program is a computation that threads a state [St]
    (the world it talks to) and ends in a value or an error.  An error does
    not roll the state back: the effects made before [return err] stay. *)

Definition M (St E A : Type) : Type := St → St * (E + A).

#[export] Instance M_ret {St E} : MRet (M St E) := λ A a s, (s, inr a).
#[export] Instance M_bind {St E} : MBind (M St E) :=
  λ A B f m s, match m s with (s', inl e) => (s', inl e) | (s', inr a) => f a s' end.

(** [return zero, err] *)
Definition throw {St E A} (e : E) : M St E A := λ s, (s, inl e).
(** The Go idiom [v, err := f()] followed by an inspection of [err]. *)
Definition attempt {St E A} (m : M St E A) : M St E (E + A) :=
  λ s, let (s', r) := m s in (s', inr r).
(** [if err := v; err != nil { return err }] for a value already computed. *)
Definition lift {St E A} (r : E + A) : M St E A := λ s, (s, r).
Definition gets {St E A} (f : St → A) : M St E A := λ s, (s, inr (f s)).
Definition modify {St E} (f : St → St) : M St E unit := λ s, (f s, inr tt).
(** [if cond { return zero, err }] *)
Definition reject_if {St E} (b : bool) (e : E) : M St E unit :=
  if b then throw e else mret tt.

Fixpoint mapM_ {St E A} (f : A → M St E unit) (l : list A) : M St E unit :=
  match l with
  | [] => mret tt
  | x :: l' => f x ≫= λ _, mapM_ f l'
  end.

(** Collecting loop: [for _, x := range l { ... continue ... append }]. *)
Fixpoint collectM {St E A B} (f : A → M St E (option B)) (l : list A) : M St E (list B) :=
  match l with
  | [] => mret []
  | x :: l' => f x ≫= λ o, collectM f l' ≫= λ r,
                 mret (match o with Some b => b :: r | None => r end)
  end.

(** The same sum as an error monad for the pure validators. *)
#[export] Instance sum_ret {E} : MRet (sum E) := λ A a, inr a.
#[export] Instance sum_bind {E} : MBind (sum E) :=
  λ A B f m, match m with inl e => inl e | inr a => f a end.
Definition fail_if {E} (b : bool) (e : E) : E + unit := if b then inl e else inr tt.

Definition is_ok {E A} (r : E + A) : bool := match r with inr _ => true | inl _ => false end.

(** ** Step relations preserved by a computation

    [guar R m]: every run of [m], successful or not, relates the state it
    starts in to the state it leaves by [R].  For a preorder [R] the predicate
    is compositional, which is how the handlers are shown to respect the
    lifecycle relations of their stores. *)

Definition guar {St E A} (R : relation St) (m : M St E A) : Prop := ∀ s, R s (fst (m s)).

Section guar.
Context {St E : Type} (R : relation St) `{!PreOrder R}.

Lemma guar_ret {A} (a : A) : guar R (mret a : M St E A).
Proof. intros s. reflexivity. Qed.

Lemma guar_throw {A} (e : E) : guar R (throw e : M St E A).
Proof. intros s. reflexivity. Qed.

Lemma guar_lift {A} (r : E + A) : guar R (lift r).
Proof. intros s. reflexivity. Qed.

Lemma guar_gets {A} (f : St → A) : guar R (gets f : M St E A).
Proof. intros s. reflexivity. Qed.

Lemma guar_reject_if b (e : E) : guar R (reject_if b e).
Proof. destruct b; intros s; reflexivity. Qed.

Lemma guar_bind {A B} (m : M St E A) (f : A → M St E B) :
  guar R m → (∀ a, guar R (f a)) → guar R (m ≫= f).
Proof.
  intros Hm Hf s. unfold mbind, M_bind. specialize (Hm s).
  destruct (m s) as [s' [e|a]]; simpl in *; [done|].
  etrans; [exact Hm | apply Hf].
Qed.

(** What a successful run says of its result is known in what follows it. *)
Lemma guar_bind_run {A B} (m : M St E A) (f : A → M St E B) :
  guar R m → (∀ s s' a, m s = (s', inr a) → guar R (f a)) → guar R (m ≫= f).
Proof.
  intros Hm Hf s. unfold mbind, M_bind. specialize (Hm s). specialize (Hf s).
  destruct (m s) as [s' [e|a]]; simpl in *; [done|].
  etrans; [exact Hm | by eapply Hf].
Qed.

(** A guard is known to have passed in what follows it. *)
Lemma guar_reject_bind {A} b (e : E) (m : M St E A) :
  (b = false → guar R m) → guar R (reject_if b e ≫= λ _, m).
Proof. intros Hm. destruct b; [intros s; reflexivity|]. by apply Hm. Qed.
Lemma guar_lift_bind {A B} (r : E + A) (f : A → M St E B) :
  (∀ a, r = inr a → guar R (f a)) → guar R (lift r ≫= f).
Proof. intros Hf. destruct r; [intros s; reflexivity|]. by apply Hf. Qed.

Lemma guar_attempt {A} (m : M St E A) : guar R m → guar R (attempt m).
Proof. intros Hm s. unfold attempt. specialize (Hm s). by destruct (m s). Qed.

Lemma guar_mapM_ {A} (f : A → M St E unit) l : (∀ a, guar R (f a)) → guar R (mapM_ f l).
Proof. intros Hf. induction l; simpl; [apply guar_ret|]. by apply guar_bind. Qed.

Lemma guar_collectM {A B} (f : A → M St E (option B)) l :
  (∀ a, guar R (f a)) → guar R (collectM f l).
Proof.
  intros Hf. induction l; simpl; [apply guar_ret|].
  apply guar_bind; [done|]. intros o. apply guar_bind; [done|]. intros r. apply guar_ret.
Qed.
End guar.

Create HintDb guar.
#[export] Hint Resolve guar_ret guar_throw guar_lift guar_gets guar_reject_if : guar.
#[export] Hint Resolve guar_attempt guar_mapM_ guar_collectM : guar.
#[export] Hint Extern 5 (PreOrder _) => typeclasses eauto : guar.

(** Walks the structure of a handler, leaving the state-changing leaves that
    the database [guar] has no lemma for. *)
Ltac guar_step :=
  match goal with
  | |- guar _ (mbind _ _) => apply guar_bind; [try exact _| |intros ?]
  | |- guar _ (collectM _ _) => apply guar_collectM; [try exact _|intros ?]
  | |- guar _ (mapM_ _ _) => apply guar_mapM_; [try exact _|intros ?]
  | |- guar _ (attempt _) => apply guar_attempt
  | |- guar _ (match ?x with _ => _ end) => destruct x
  | |- guar _ (let (_, _) := ?x in _) => destruct x
  | |- guar _ _ => solve [eauto with guar]
  end.
Ltac guar_auto := repeat guar_step.

(** ** Inversion of monadic runs *)

Lemma bind_inr {St E A B} (m : M St E A) (f : A → M St E B) s s' b :
  (m ≫= f) s = (s', inr b) → ∃ s1 a, m s = (s1, inr a) ∧ f a s1 = (s', inr b).
Proof.
  unfold mbind, M_bind. destruct (m s) as [s1 [e|a]]; [done|]. eauto.
Qed.

Lemma bind_run {St E A B} (m : M St E A) (k : A → M St E B) s s1 a : m s = (s1, inr a) → (m ≫= k) s = k a s1.
Proof. unfold mbind, M_bind. by intros ->. Qed.

Lemma reject_if_inr {St E} b (e : E) (s s' : St) u :
  reject_if b e s = (s', inr u) → b = false ∧ s' = s.
Proof. destruct b; unfold reject_if, throw, mret, M_ret; intros ?; by simplify_eq. Qed.

Lemma lift_inr {St E A} (r : E + A) (s s' : St) a :
  lift r s = (s', inr a) → r = inr a ∧ s' = s.
Proof. unfold lift. intros ?. by simplify_eq. Qed.

Lemma fail_if_inr {E} b (e : E) u : fail_if b e = inr u → b = false.
Proof. by destruct b. Qed.

(** Linear arithmetic with division and remainder by constants. *)
Ltac div_lia := Z.to_euclidean_division_equations; lia.

(** Splits hypotheses [run = (s', inr _)] of a composed computation. *)
Ltac run_inv :=
  repeat match goal with
  | H : (mbind _ _) _ = (_, inr _) |- _ =>
      apply bind_inr in H as (? & ? & ? & H); cbn beta iota zeta in H
  | H : reject_if _ _ _ = (_, inr _) |- _ => apply reject_if_inr in H as [? ->]
  | H : lift _ _ = (_, inr _) |- _ => apply lift_inr in H as [? ->]
  | H : mret _ _ = (_, inr _) |- _ => unfold mret, M_ret in H
  | H : throw _ _ = (_, inr _) |- _ => discriminate H
  | H : (_, inr _) = (_, inr _) |- _ => injection H; clear H; intros; subst
  | H : (_, inl _) = (_, inr _) |- _ => discriminate H
  | H : inl _ = inr _ |- _ => discriminate H
  end.

Ltac orb_split :=
  repeat match goal with
  | H : _ || _ = false |- _ => apply orb_false_iff in H as [? ?]
  | H : _ && _ = true |- _ => apply andb_true_iff in H as [? ?]
  | H : negb _ = false |- _ => apply negb_false_iff in H
  | H : negb _ = true |- _ => apply negb_true_iff in H
  | H : bool_decide _ = true |- _ => apply bool_decide_eq_true in H
  | H : bool_decide _ = false |- _ => apply bool_decide_eq_false in H
  end.

(** Generic pieces of handlers. *)
Definition ignore {St E A} (m : M St E A) : M St E unit := attempt m ≫= λ _, mret tt.

Lemma guar_ignore {St E A} (R : relation St) `{!PreOrder R} (m : M St E A) :
  guar R m → guar R (ignore m).
Proof.
  intros Hm. apply guar_bind; [done|by apply guar_attempt|]. intros ?. by apply guar_ret.
Qed.
#[export] Hint Resolve guar_ignore : guar.

(** ** Weakest preconditions

    For the stores that only one process touches, a computation is a function
    of the state: [wp m Q X s] says that [m] run from [s] ends in [Q] when it
    succeeds and in [X] when it fails. *)

Definition wp {St E A} (m : M St E A) (Q : A → St → Prop) (X : E → St → Prop) (s : St) : Prop :=
  match m s with (s', inr a) => Q a s' | (s', inl e) => X e s' end.

Section wp.
Context {St E : Type}.
Implicit Types (s : St) (X : E → St → Prop).

Lemma wp_mono {A} (m : M St E A) (Q Q' : A → St → Prop) X X' s :
  wp m Q X s → (∀ a s', Q a s' → Q' a s') → (∀ e s', X e s' → X' e s') → wp m Q' X' s.
Proof. unfold wp. destruct (m s) as [s' [e|a]]; auto. Qed.
Lemma wp_ret {A} (a : A) (Q : A → St → Prop) X s : Q a s → wp (mret a) Q X s.
Proof. done. Qed.
Lemma wp_throw {A} (e : E) (Q : A → St → Prop) X s : X e s → wp (throw e) Q X s.
Proof. done. Qed.
Lemma wp_lift {A} (r : E + A) (Q : A → St → Prop) X s :
  (∀ a, r = inr a → Q a s) → (∀ e, r = inl e → X e s) → wp (lift r) Q X s.
Proof. unfold wp, lift. destruct r; auto. Qed.
Lemma wp_reject_if b (e : E) (Q : () → St → Prop) X s :
  (b = false → Q () s) → (b = true → X e s) → wp (reject_if b e) Q X s.
Proof. destruct b; unfold wp; simpl; auto. Qed.
Lemma wp_gets {A} (f : St → A) (Q : A → St → Prop) X s : Q (f s) s → wp (gets f) Q X s.
Proof. done. Qed.
Lemma wp_modify (f : St → St) (Q : () → St → Prop) X s : Q () (f s) → wp (modify f) Q X s.
Proof. done. Qed.
Lemma wp_bind {A B} (m : M St E A) (f : A → M St E B) (Q : B → St → Prop) X s :
  wp m (λ a s', wp (f a) Q X s') X s → wp (m ≫= f) Q X s.
Proof. unfold wp, mbind, M_bind. by destruct (m s) as [s' [e|a]]. Qed.
Lemma wp_attempt {A} (m : M St E A) (Q : E + A → St → Prop) X s :
  wp m (λ a s', Q (inr a) s') (λ e s', Q (inl e) s') s → wp (attempt m) Q X s.
Proof. unfold wp, attempt. by destruct (m s) as [s' [e|a]]. Qed.
Lemma wp_run {A} (m : M St E A) (Q : A → St → Prop) X s s' a : wp m Q X s → m s = (s', inr a) → Q a s'.
Proof. unfold wp. intros H Hr. by rewrite Hr in H. Qed.
Lemma wp_run_error {A} (m : M St E A) (Q : A → St → Prop) X s s' e : wp m Q X s → m s = (s', inl e) → X e s'.
Proof. unfold wp. intros H Hr. by rewrite Hr in H. Qed.
Lemma wp_intro {A} (m : M St E A) s : wp m (λ a s', m s = (s', inr a)) (λ e s', m s = (s', inl e)) s.
Proof. unfold wp. by destruct (m s) as [s' [e|a]]. Qed.
End wp.

Create HintDb wp.
#[export] Hint Resolve wp_ret wp_throw wp_gets wp_modify : wp.
(** One step of a computation; what the guards decide is introduced. *)
Ltac wp_step :=
  match goal with
  | |- wp (mbind _ _) _ _ _ => apply wp_bind
  | |- wp (mret _) _ _ _ => apply wp_ret
  | |- wp (throw _) _ _ _ => apply wp_throw
  | |- wp (lift _) _ _ _ => apply wp_lift; intros ? ?
  | |- wp (reject_if _ _) _ _ _ => apply wp_reject_if; intros ?
  | |- wp (gets _) _ _ _ => apply wp_gets
  | |- wp (attempt _) _ _ _ => apply wp_attempt
  | |- wp (let (_, _) := ?x in _) _ _ _ => destruct x
  | |- wp (match ?x with _ => _ end) _ _ _ => destruct x eqn:?
  end.

(** ** Concrete runs *)

(** Runs whose success has been computed. *)
Lemma run_pair {St E A} (m : M St E A) s r : (m s).2 = inr r → m s = ((m s).1, inr r).
Proof. destruct (m s). simpl. by intros ->. Qed.
Definition result_of {St E A} (d : A) (m : M St E A) (s : St) : A :=
  match (m s).2 with inr a => a | inl _ => d end.
(** Proves that a run evaluates to its stated result. *)
Ltac by_run := match goal with |- ?run = (_, inr _) =>
  match run with ?m ?w => apply (run_pair m w); vm_compute; reflexivity end end.
