(* ===== verification/GoString.v ===== *)
(** * Go strings

    The part of Go's [strings], [unicode], [unicode/utf8], [encoding/hex],
    [encoding/base64], [mime], [io/fs] and [sort] packages that the relay
    uses.  A Go string is a sequence of bytes, here [String.string] whose
    characters are bytes; ranging over a string decodes UTF-8 runes. *)

From S2P Require Import Prelude.
From Stdlib Require Import Ascii String.

Local Open Scope Z_scope.

Definition byte_val (c : ascii) : Z := Z.of_N (N_of_ascii c).
Definition byte_of (z : Z) : ascii := ascii_of_N (Z.to_N z).
Definition len (s : string) : Z := Z.of_nat (String.length s).

(** ** UTF-8 *)

Definition RuneError : Z := 65533.
Definition is_cont (b : Z) : bool := (128 <=? b) && (b <? 192).
Definition in_range (lo hi b : Z) : bool := (lo <=? b) && (b <=? hi).

(** [utf8.DecodeRuneInString]: the rune at the start and its width. *)
Definition decode_rune (s : string) : Z * nat :=
  match s with
  | EmptyString => (RuneError, 0%nat)
  | String c0 s1 =>
    let b0 := byte_val c0 in
    if b0 <? 128 then (b0, 1%nat) else
    if b0 <? 194 then (RuneError, 1%nat) else
    match s1 with
    | EmptyString => (RuneError, 1%nat)
    | String c1 s2 =>
      let b1 := byte_val c1 in
      if b0 <? 224 then
        if is_cont b1 then (Z.land b0 31 * 64 + Z.land b1 63, 2%nat) else (RuneError, 1%nat)
      else match s2 with
      | EmptyString => (RuneError, 1%nat)
      | String c2 s3 =>
        let b2 := byte_val c2 in
        if b0 <? 240 then
          let lo := if b0 =? 224 then 160 else 128 in
          let hi := if b0 =? 237 then 159 else 191 in
          if in_range lo hi b1 && is_cont b2
          then (Z.land b0 15 * 4096 + Z.land b1 63 * 64 + Z.land b2 63, 3%nat)
          else (RuneError, 1%nat)
        else match s3 with
        | EmptyString => (RuneError, 1%nat)
        | String c3 _ =>
          let b3 := byte_val c3 in
          let lo := if b0 =? 240 then 144 else 128 in
          let hi := if b0 =? 244 then 143 else 191 in
          if (b0 <? 245) && in_range lo hi b1 && is_cont b2 && is_cont b3
          then (Z.land b0 7 * 262144 + Z.land b1 63 * 4096 + Z.land b2 63 * 64 + Z.land b3 63, 4%nat)
          else (RuneError, 1%nat)
        end
      end
    end
  end.

Fixpoint take_bytes (n : nat) (s : string) : string :=
  match n, s with
  | S n', String c s' => String c (take_bytes n' s')
  | _, _ => EmptyString
  end.

Fixpoint drop_bytes (n : nat) (s : string) : string :=
  match n, s with
  | S n', String _ s' => drop_bytes n' s'
  | _, _ => s
  end.

(** [for _, r := range s]: the runes of [s], each with the bytes it occupies. *)
Fixpoint segments_skip (skip : nat) (s : string) : list (Z * string) :=
  match s with
  | EmptyString => []
  | String _ s' =>
    match skip with
    | S k => segments_skip k s'
    | O => let (r, w) := decode_rune s in
           (r, take_bytes w s) :: segments_skip (pred w) s'
    end
  end.
Definition segments (s : string) : list (Z * string) := segments_skip 0 s.
Definition runes (s : string) : list Z := (segments s).*1.

Definition concat_strings (l : list string) : string := foldr String.append EmptyString l.

Definition valid_utf8 (s : string) : bool :=
  forallb (λ p, negb ((p.1 =? RuneError) && (String.length p.2 =? 1)%nat)) (segments s).

(** [string(rune)] *)
Definition encode_rune (r : Z) : string :=
  let b z := byte_of z in
  if (0 <=? r) && (r <? 128) then String (b r) EmptyString else
  if (128 <=? r) && (r <? 2048) then
    String (b (192 + r / 64)) (String (b (128 + r mod 64)) EmptyString) else
  if (2048 <=? r) && (r <? 65536) && negb (in_range 55296 57343 r) then
    String (b (224 + r / 4096)) (String (b (128 + (r / 64) mod 64))
      (String (b (128 + r mod 64)) EmptyString)) else
  if (65536 <=? r) && (r <=? 1114111) then
    String (b (240 + r / 262144)) (String (b (128 + (r / 4096) mod 64))
      (String (b (128 + (r / 64) mod 64)) (String (b (128 + r mod 64)) EmptyString)))
  else String (b 239) (String (b 191) (String (b 189) EmptyString)).

Definition string_of_runes (l : list Z) : string := concat_strings (encode_rune <$> l).

(** ** Character classes *)

(** [unicode.IsControl]: category Cc. *)
Definition is_control (r : Z) : bool := in_range 0 31 r || in_range 127 159 r.

(** [unicode.IsSpace]: the White_Space property. *)
Definition is_space (r : Z) : bool :=
  in_range 9 13 r || (r =? 32) || (r =? 133) || (r =? 160) || (r =? 5760) ||
  in_range 8192 8202 r || (r =? 8232) || (r =? 8233) || (r =? 8239) || (r =? 8287) || (r =? 12288).

(** The case tables of package [unicode] beyond ASCII.  The relay relies on
    nothing about them: every theorem holds for all tables. *)
Class UnicodeTables := {
  uni_lower : Z → Z;
  uni_upper : Z → Z;
  uni_fold : Z → Z;
}.

(** ASCII-only tables, for evaluating concrete inputs. *)
Definition ascii_tables : UnicodeTables :=
  {| uni_lower := λ r, r; uni_upper := λ r, r; uni_fold := λ r, r |}.

Section case.
Context `{UT : UnicodeTables}.

Definition rune_lower (r : Z) : Z :=
  if r <? 128 then (if in_range 65 90 r then r + 32 else r) else uni_lower r.
Definition rune_upper (r : Z) : Z :=
  if r <? 128 then (if in_range 97 122 r then r - 32 else r) else uni_upper r.
(** Canonical representative of a simple-folding orbit. *)
Definition rune_fold (r : Z) : Z :=
  if r <? 128 then (if in_range 65 90 r then r + 32 else r) else uni_fold r.

Definition to_lower (s : string) : string := string_of_runes (rune_lower <$> runes s).
Definition to_upper (s : string) : string := string_of_runes (rune_upper <$> runes s).
(** [strings.EqualFold] *)
Definition equal_fold (s t : string) : bool :=
  bool_decide (rune_fold <$> runes s = rune_fold <$> runes t).
End case.

(** ** Trimming and searching *)

Fixpoint drop_while {A} (p : A → bool) (l : list A) : list A :=
  match l with
  | [] => []
  | x :: l' => if p x then drop_while p l' else l
  end.
Definition drop_while_end {A} (p : A → bool) (l : list A) : list A :=
  reverse (drop_while p (reverse l)).

(** [strings.TrimSpace] *)
Definition trim_space (s : string) : string :=
  concat_strings (drop_while_end (λ p, is_space p.1) (drop_while (λ p, is_space p.1) (segments s))).*2.

Definition has_prefix (s prefix : string) : bool := String.prefix prefix s.
Definition has_suffix (s suffix : string) : bool :=
  (String.length suffix <=? String.length s)%nat &&
  bool_decide (drop_bytes (String.length s - String.length suffix) s = suffix).

(** [strings.TrimSuffix] *)
Definition trim_suffix (s suffix : string) : string :=
  if has_suffix s suffix then take_bytes (String.length s - String.length suffix) s else s.

Fixpoint contains (s sub : string) : bool :=
  String.prefix sub s || match s with EmptyString => false | String _ s' => contains s' sub end.

Definition bytes (s : string) : list ascii := list_ascii_of_string s.
(** [strings.ContainsAny] for an ASCII character set. *)
Definition contains_any (s : string) (chars : string) : bool :=
  existsb (λ c, existsb (Ascii.eqb c) (bytes chars)) (bytes s).

(** [strings.Split s sep] for a one-byte separator. *)
Fixpoint split_byte (sep : ascii) (s : string) : list string :=
  match s with
  | EmptyString => [EmptyString]
  | String c s' =>
    if Ascii.eqb c sep then EmptyString :: split_byte sep s'
    else match split_byte sep s' with
         | [] => [String c EmptyString]
         | p :: ps => String c p :: ps
         end
  end.

(** The part before the first [sep], all of [s] when there is none. *)
Definition before_byte (sep : ascii) (s : string) : string := default EmptyString (head (split_byte sep s)).

(** [strings.Join] *)
Fixpoint join (sep : string) (l : list string) : string :=
  match l with
  | [] => EmptyString
  | [x] => x
  | x :: l' => (x +:+ sep +:+ join sep l')
  end.

(** ** Hexadecimal *)

Definition hex_digit (z : Z) : ascii := byte_of (if z <? 10 then 48 + z else 87 + z).
Fixpoint hex_encode (s : string) : string :=
  match s with
  | EmptyString => EmptyString
  | String c s' =>
    String (hex_digit (byte_val c / 16)) (String (hex_digit (byte_val c mod 16)) (hex_encode s'))
  end.
Definition hex_val (c : ascii) : option Z :=
  let b := byte_val c in
  if in_range 48 57 b then Some (b - 48) else
  if in_range 97 102 b then Some (b - 87) else
  if in_range 65 70 b then Some (b - 55) else None.
(** [hex.DecodeString]: [None] is any decoding error. *)
Fixpoint hex_decode (s : string) : option string :=
  match s with
  | EmptyString => Some EmptyString
  | String _ EmptyString => None
  | String a (String b s') =>
    match hex_val a, hex_val b, hex_decode s' with
    | Some x, Some y, Some r => Some (String (byte_of (16 * x + y)) r)
    | _, _, _ => None
    end
  end.

(** ** Base64 ([base64.StdEncoding]) *)

Definition b64_val (c : ascii) : option Z :=
  let b := byte_val c in
  if in_range 65 90 b then Some (b - 65) else
  if in_range 97 122 b then Some (b - 71) else
  if in_range 48 57 b then Some (b + 4) else
  if b =? 43 then Some 62 else if b =? 47 then Some 63 else None.

Definition is_newline (c : ascii) : bool := (byte_val c =? 10) || (byte_val c =? 13).

(** Quantums of four characters; padding only in the last one. *)
Fixpoint b64_quads (l : list ascii) : option (list ascii) :=
  match l with
  | [] => Some []
  | a :: b :: c :: d :: l' =>
    match b64_val a, b64_val b with
    | Some x, Some y =>
      let eq_sign := "="%char in
      if Ascii.eqb d eq_sign then
        match l' with
        | [] =>
          if Ascii.eqb c eq_sign then Some [byte_of ((x * 4 + y / 16) mod 256)]
          else match b64_val c with
               | Some z => Some [byte_of ((x * 4 + y / 16) mod 256); byte_of ((y * 16 + z / 4) mod 256)]
               | None => None
               end
        | _ => None
        end
      else match b64_val c, b64_val d, b64_quads l' with
           | Some z, Some w, Some r =>
             Some (byte_of ((x * 4 + y / 16) mod 256) :: byte_of ((y * 16 + z / 4) mod 256)
                     :: byte_of ((z * 64 + w) mod 256) :: r)
           | _, _, _ => None
           end
    | _, _ => None
    end
  | _ => None
  end.
(** [base64.StdEncoding.DecodeString]; newlines are skipped. *)
Definition b64_decode (s : string) : option string :=
  string_of_list_ascii <$> b64_quads (List.filter (λ c, negb (is_newline c)) (bytes s)).

Definition b64_digit (z : Z) : ascii :=
  byte_of (if z <? 26 then z + 65 else if z <? 52 then z + 71 else if z <? 62 then z - 4 else if z =? 62 then 43 else 47).
(** [base64.StdEncoding.EncodeToString] *)
Fixpoint b64_encode_bytes (l : list ascii) : list ascii :=
  match l with
  | [] => []
  | [a] => let x := byte_val a in [b64_digit (x / 4); b64_digit (x mod 4 * 16); "="%char; "="%char]
  | [a; b] =>
    let x := byte_val a in let y := byte_val b in
    [b64_digit (x / 4); b64_digit (x mod 4 * 16 + y / 16); b64_digit (y mod 16 * 4); "="%char]
  | a :: b :: c :: l' =>
    let x := byte_val a in let y := byte_val b in let z := byte_val c in
    b64_digit (x / 4) :: b64_digit (x mod 4 * 16 + y / 16) :: b64_digit (y mod 16 * 4 + z / 64) :: b64_digit (z mod 64)
      :: b64_encode_bytes l'
  end.
Definition b64_encode (s : string) : string := string_of_list_ascii (b64_encode_bytes (bytes s)).

(** ** [io/fs.ValidPath] *)
Definition fs_valid_path (name : string) : bool :=
  valid_utf8 name &&
  ((name =? ".")%string ||
   forallb (λ e, negb (e =? "")%string && negb (e =? ".")%string && negb (e =? "..")%string)
     (split_byte "/"%char name)).

(** ** Sorting *)

(** Byte-wise lexicographic order of Go strings. *)
Fixpoint str_leb (s t : string) : bool :=
  match s, t with
  | EmptyString, _ => true
  | String _ _, EmptyString => false
  | String a s', String b t' =>
    if byte_val a <? byte_val b then true
    else if byte_val a =? byte_val b then str_leb s' t' else false
  end.
Definition str_le (s t : string) : Prop := str_leb s t = true.
#[export] Instance str_le_dec s t : Decision (str_le s t).
Proof. unfold str_le. apply _. Defined.

Definition sort_strings (l : list string) : list string := merge_sort str_le l.

(** ** [mime.ParseMediaType] *)

(** [isTokenChar]: RFC 2045 tokens. *)
Definition is_tspecial (c : ascii) : bool := existsb (Ascii.eqb c) (bytes "()<>@,;:\/[]?=" ++ [byte_of 34]).
Definition is_token_char (c : ascii) : bool := in_range 33 126 (byte_val c) && negb (is_tspecial c).

Fixpoint consume_token (s : string) : string * string :=
  match s with
  | EmptyString => (EmptyString, EmptyString)
  | String c s' =>
    if is_token_char c then let (t, r) := consume_token s' in (String c t, r) else (EmptyString, s)
  end.

(** The quoted-string scanner of [consumeValue], started after the opening
    quote; [None] when no closing quote is found or a line break occurs. *)
Fixpoint consume_quoted (s : string) : option (string * string) :=
  match s with
  | EmptyString => None
  | String c s1 =>
    if (byte_val c =? 34) then Some (EmptyString, s1) else
    let plain := if is_newline c then None
                 else (λ p, (String c p.1, p.2)) <$> consume_quoted s1 in
    match s1 with
    | String d s2 =>
      if (byte_val c =? 92) && is_tspecial d
      then (λ p, (String d p.1, p.2)) <$> consume_quoted s2
      else plain
    | EmptyString => plain
    end
  end.

Definition consume_value (v : string) : string * string :=
  match v with
  | EmptyString => (EmptyString, EmptyString)
  | String c v' =>
    if byte_val c =? 34
    then match consume_quoted v' with Some p => p | None => (EmptyString, v) end
    else consume_token v
  end.

Definition trim_left (s : string) : string :=
  concat_strings (drop_while (λ p, is_space p.1) (segments s)).*2.

Definition media_type_ok (s : string) : bool :=
  let (typ, rest) := consume_token s in
  negb (typ =? "")%string &&
  match rest with
  | EmptyString => true
  | String c rest' =>
    (byte_val c =? 47) && (let (sub, rest2) := consume_token rest' in
      negb (sub =? "")%string && (rest2 =? "")%string)
  end.

Section mime.
Context `{UT : UnicodeTables}.

(** [consumeMediaParam]; an empty parameter name reports a failure. *)
Definition consume_media_param (v : string) : string * string * string :=
  let bad := (EmptyString, EmptyString, v) in
  let rest := trim_left v in
  if negb (has_prefix rest ";") then bad else
  let (param0, rest) := consume_token (trim_left (drop_bytes 1 rest)) in
  let param := to_lower param0 in
  if (param =? "")%string then bad else
  let rest := trim_left rest in
  if negb (has_prefix rest "=") then bad else
  let rest := trim_left (drop_bytes 1 rest) in
  let (value, rest2) := consume_value rest in
  if (value =? "")%string && (rest2 =? rest)%string then bad else (param, value, rest2).

(** The parameter loop: [true] when every parameter parses and no name is
    given two different values (continuations [name*n] count as their own
    name, as the per-base maps of the source do). *)
Fixpoint params_ok (fuel : nat) (seen : gmap string string) (v : string) : bool :=
  match fuel with
  | O => true
  | S fuel' =>
    let v := trim_left v in
    if (v =? "")%string then true else
    match consume_media_param v with
    | (key, value, rest) =>
      if (key =? "")%string then (trim_space rest =? ";")%string else
      match seen !! key with
      | Some v' => (v' =? value)%string && params_ok fuel' seen rest
      | None => params_ok fuel' (<[key := value]> seen) rest
      end
    end
  end.

(** [mediaType, _, err := mime.ParseMediaType(value)], as the relay uses it:
    [None] on an error, otherwise the media type.  Every parameter consumes
    at least three bytes, so the length of [v] is enough fuel. *)
Definition parse_media_type (v : string) : option string :=
  let base := before_byte ";"%char v in
  let media := trim_space (to_lower base) in
  if media_type_ok media && params_ok (S (String.length v)) ∅ (drop_bytes (String.length base) v)
  then Some media else None.
End mime.
