(* ===== verification/Sha256.v ===== *)
(** * SHA-256 (FIPS 180-4), Go's [crypto/sha256]

    The digests that bind prompts, tokens, idempotency keys and grant
    identities are computed, not assumed.  No theorem relies on the absence
    of collisions: the statements compare digests, as the code does. *)

From S2P Require Import Prelude GoString.
From Stdlib Require Import Ascii.

Local Open Scope Z_scope.

Definition w32 (z : Z) : Z := Z.land z 4294967295.
Definition rotr (n x : Z) : Z := Z.lor (Z.shiftr x n) (w32 (Z.shiftl x (32 - n))).
Definition not32 (x : Z) : Z := Z.lxor x 4294967295.
Definition big_sigma0 (x : Z) : Z := Z.lxor (rotr 2 x) (Z.lxor (rotr 13 x) (rotr 22 x)).
Definition big_sigma1 (x : Z) : Z := Z.lxor (rotr 6 x) (Z.lxor (rotr 11 x) (rotr 25 x)).
Definition small_sigma0 (x : Z) : Z := Z.lxor (rotr 7 x) (Z.lxor (rotr 18 x) (Z.shiftr x 3)).
Definition small_sigma1 (x : Z) : Z := Z.lxor (rotr 17 x) (Z.lxor (rotr 19 x) (Z.shiftr x 10)).
Definition choose (e f g : Z) : Z := Z.lxor (Z.land e f) (Z.land (not32 e) g).
Definition majority (a b c : Z) : Z := Z.lxor (Z.land a b) (Z.lxor (Z.land a c) (Z.land b c)).

Definition round_constants : list Z :=
  [1116352408; 1899447441; 3049323471; 3921009573; 961987163; 1508970993; 2453635748; 2870763221;
   3624381080; 310598401; 607225278; 1426881987; 1925078388; 2162078206; 2614888103; 3248222580;
   3835390401; 4022224774; 264347078; 604807628; 770255983; 1249150122; 1555081692; 1996064986;
   2554220882; 2821834349; 2952996808; 3210313671; 3336571891; 3584528711; 113926993; 338241895;
   666307205; 773529912; 1294757372; 1396182291; 1695183700; 1986661051; 2177026350; 2456956037;
   2730485921; 2820302411; 3259730800; 3345764771; 3516065817; 3600352804; 4094571909; 275423344;
   430227734; 506948616; 659060556; 883997877; 958139571; 1322822218; 1537002063; 1747873779;
   1955562222; 2024104815; 2227730452; 2361852424; 2428436474; 2756734187; 3204031479; 3329325298].

Definition initial_hash : list Z :=
  [1779033703; 3144134277; 1013904242; 2773480762; 1359893119; 2600822924; 528734635; 1541459225].

(** Message padding to whole 64-byte blocks. *)
Definition be_bytes (n : nat) (z : Z) : list Z :=
  (λ i, Z.land (Z.shiftr z (8 * Z.of_nat i)) 255) <$> reverse (seq 0 n).
Definition pad (msg : list Z) : list Z :=
  let l := Z.of_nat (length msg) in
  let zeros := Z.to_nat ((55 - l) mod 64) in
  msg ++ [128] ++ replicate zeros 0 ++ be_bytes 8 (8 * l).

Fixpoint words_of (bs : list Z) : list Z :=
  match bs with
  | a :: b :: c :: d :: r => (a * 16777216 + b * 65536 + c * 256 + d) :: words_of r
  | _ => []
  end.

(** The schedule is kept newest-first: [w t-1 :: w t-2 :: ...]. *)
Fixpoint extend (n : nat) (w : list Z) : list Z :=
  match n with
  | O => w
  | S n' =>
    let at_ i := nth i w 0 in
    extend n' (w32 (small_sigma1 (at_ 1%nat) + at_ 6%nat + small_sigma0 (at_ 14%nat) + at_ 15%nat) :: w)
  end.

Fixpoint compress (st : list Z) (kw : list (Z * Z)) : list Z :=
  match kw with
  | [] => st
  | (k, w) :: kw' =>
    match st with
    | [a; b; c; d; e; f; g; h] =>
      let t1 := h + big_sigma1 e + choose e f g + k + w in
      let t2 := big_sigma0 a + majority a b c in
      compress [w32 (t1 + t2); a; b; c; w32 (d + t1); e; f; g] kw'
    | _ => st
    end
  end.

Definition process_block (h : list Z) (block : list Z) : list Z :=
  let schedule := reverse (extend 48 (reverse (words_of block))) in
  zip_with (λ x y, w32 (x + y)) h (compress h (zip round_constants schedule)).

Fixpoint blocks (n : nat) (bs : list Z) : list (list Z) :=
  match n with
  | O => []
  | S n' => take 64 bs :: blocks n' (drop 64 bs)
  end.

Definition sha256_bytes (msg : list Z) : list Z :=
  let p := pad msg in
  let h := foldl process_block initial_hash (blocks (length p / 64)%nat p) in
  concat ((λ x, be_bytes 4 x) <$> h).

Definition sha256 (s : string) : string :=
  String.string_of_list_ascii (byte_of <$> sha256_bytes (byte_val <$> bytes s)).

(** [hex.EncodeToString(sha256.Sum256(s))] *)
Definition sha256_hex (s : string) : string := hex_encode (sha256 s).

(** The test vectors of the standard. *)
Example sha256_abc :
  sha256_hex "abc" = "ba7816bf8f01cfea414140de5dae2223b00361a396177a9cb410ff61f20015ad"%string.
Proof. vm_compute. reflexivity. Qed.

Example sha256_two_blocks :
  sha256_hex "abcdbcdecdefdefgefghfghighijhijkijkljklmklmnlmnomnopnopq" =
  "248d6a61d20638b8e5c026930c3e6039a33ce45964ff2167f6ecedd419db06c1"%string.
Proof. vm_compute. reflexivity. Qed.

#[global] Arguments sha256 : simpl never.
#[global] Arguments sha256_hex : simpl never.

(** The digest always has 32 bytes, its hexadecimal form 64 characters. *)
Lemma length_be_bytes n z : length (be_bytes n z) = n.
Proof. unfold be_bytes. by rewrite length_fmap, length_reverse, length_seq. Qed.

Lemma length_compress kw st : length st = 8%nat → length (compress st kw) = 8%nat.
Proof.
  revert st. induction kw as [|[k w] kw IH]; intros st Hst; [done|].
  do 9 (destruct st as [|? st]; try discriminate Hst). by apply IH.
Qed.

Lemma length_process_block h b : length h = 8%nat → length (process_block h b) = 8%nat.
Proof.
  intros Hh. unfold process_block.
  rewrite length_zip_with, (length_compress _ h Hh), Hh. reflexivity.
Qed.

Lemma length_sha256_fold l h :
  length h = 8%nat → length (foldl process_block h l) = 8%nat.
Proof. revert h. induction l; intros h Hh; [done|]. by apply IHl, length_process_block. Qed.

Lemma length_concat_be4 h : length (concat ((λ x, be_bytes 4 x) <$> h)) = (4 * length h)%nat.
Proof.
  induction h as [|x h IH]; [done|]. rewrite fmap_cons. cbn [concat].
  rewrite length_app, length_be_bytes. cbn [length]. rewrite IH. lia.
Qed.

Lemma length_string_of_list l : String.length (String.string_of_list_ascii l) = length l.
Proof. induction l; simpl; congruence. Qed.

Lemma length_sha256 s : String.length (sha256 s) = 32%nat.
Proof.
  unfold sha256, sha256_bytes.
  rewrite length_string_of_list, length_fmap, length_concat_be4, length_sha256_fold; done.
Qed.

Lemma length_hex_encode s : String.length (hex_encode s) = (2 * String.length s)%nat.
Proof. induction s as [|c s IH]; simpl; lia. Qed.

Lemma length_sha256_hex s : String.length (sha256_hex s) = 64%nat.
Proof. unfold sha256_hex. by rewrite length_hex_encode, length_sha256. Qed.

(** ** Hexadecimal round trip *)

Lemma hex_val_digit z : 0 <= z < 16 → hex_val (hex_digit z) = Some z.
Proof.
  intros Hz. assert (z ∈ (Z.of_nat <$> seq 0 16)) as Hin.
  { apply list_elem_of_fmap. exists (Z.to_nat z). rewrite elem_of_seq. lia. }
  repeat (apply elem_of_cons in Hin as [->|Hin]; [reflexivity|]). by apply elem_of_nil in Hin.
Qed.

Lemma byte_val_of z : 0 <= z < 256 → byte_val (byte_of z) = z.
Proof. intros Hz. unfold byte_val, byte_of. rewrite N_ascii_embedding; lia. Qed.
Lemma byte_val_range c : 0 <= byte_val c < 256.
Proof.
  unfold byte_val. pose proof (N_ascii_bounded c). lia.
Qed.

Lemma byte_of_val c : byte_of (byte_val c) = c.
Proof. unfold byte_of, byte_val. by rewrite N2Z.id, ascii_N_embedding. Qed.

Lemma hex_decode_encode s : hex_decode (hex_encode s) = Some s.
Proof.
  induction s as [|c s IH]; [done|]. cbn [hex_encode hex_decode].
  pose proof (byte_val_range c).
  rewrite (hex_val_digit (byte_val c / 16))
    by (split; [apply Z.div_pos | apply Z.div_lt_upper_bound]; lia).
  rewrite (hex_val_digit (byte_val c mod 16)) by (apply Z.mod_pos_bound; lia).
  rewrite IH. replace (16 * (byte_val c / 16) + byte_val c mod 16) with (byte_val c)
    by (pose proof (Z.div_mod (byte_val c) 16); lia).
  by rewrite byte_of_val.
Qed.

Lemma hex_encode_inj s t : hex_encode s = hex_encode t → s = t.
Proof. intros H. apply (f_equal hex_decode) in H. rewrite !hex_decode_encode in H. by simplify_eq. Qed.
