(* ===== verification/GoStringFacts.v ===== *)
(** * Facts about the Go string functions

    The rune segmentation of a string is stable under taking whole segments
    off its ends, hence trimming is idempotent: a normalised value that is
    stored and read back normalises to itself. *)

From S2P Require Import Prelude GoString Sha256.
From Stdlib Require Import Ascii.

Local Open Scope Z_scope.

Lemma string_app_assoc (a b c : string) : (a +:+ b) +:+ c = a +:+ (b +:+ c).
Proof. induction a as [|x a IH]; [done|]. change (String x ((a +:+ b) +:+ c) = String x (a +:+ (b +:+ c))). by rewrite IH. Qed.

Lemma string_cons_app c (a b : string) : String c a +:+ b = String c (a +:+ b).
Proof. done. Qed.
Lemma string_nil_app (b : string) : "" +:+ b = b.
Proof. done. Qed.
Lemma concat_strings_app l1 l2 : concat_strings (l1 ++ l2) = concat_strings l1 +:+ concat_strings l2.
Proof.
  induction l1 as [|a l1 IH]; [done|].
  change (a +:+ concat_strings (l1 ++ l2) = (a +:+ concat_strings l1) +:+ concat_strings l2).
  by rewrite IH, string_app_assoc.
Qed.

Lemma take_drop_bytes n s : take_bytes n s +:+ drop_bytes n s = s.
Proof. revert s. induction n as [|n IH]; intros [|c s]; try done.
  change (String c (take_bytes n s +:+ drop_bytes n s) = String c s). by rewrite IH.
Qed.

(** A decoded rune has a width that its string can pay. *)
Lemma decode_width s : s ≠ EmptyString → (1 ≤ (decode_rune s).2 ≤ String.length s)%nat.
Proof.
  intros Hs. destruct s as [|c0 s1]; [done|]. unfold decode_rune.
  destruct s1 as [|c1 [|c2 [|c3 s4]]]; repeat case_match; simpl; lia.
Qed.

Lemma segments_skip_drop k s : segments_skip k s = segments_skip 0 (drop_bytes k s).
Proof. revert s. induction k as [|k IH]; intros [|c s]; try done. simpl. apply IH. Qed.

Lemma segments_cons s : s ≠ EmptyString →
  segments s = ((decode_rune s).1, take_bytes (decode_rune s).2 s) :: segments (drop_bytes (decode_rune s).2 s).
Proof.
  intros Hs. pose proof (decode_width s Hs) as Hw. destruct s as [|c s]; [done|].
  unfold segments. cbn [segments_skip]. destruct (decode_rune (String c s)) as [r w]. simpl in Hw |- *.
  destruct w as [|w]; [lia|]. cbn [drop_bytes pred]. by rewrite segments_skip_drop.
Qed.

Lemma length_drop_bytes n s : String.length (drop_bytes n s) = (String.length s - n)%nat.
Proof. revert s. induction n as [|n IH]; intros [|c s]; simpl; auto. Qed.

(** Induction along the segments of a string. *)
Lemma segments_ind (P : string → Prop) :
  P EmptyString → (∀ s, s ≠ EmptyString → P (drop_bytes (decode_rune s).2 s) → P s) → ∀ s, P s.
Proof.
  intros H0 Hstep s. remember (String.length s) as n eqn:Hn. revert s Hn.
  induction (lt_wf n) as [n _ IH]. intros s ->. destruct (decide (s = EmptyString)) as [->|Hs]; [done|].
  apply Hstep; [done|]. apply (IH (String.length (drop_bytes (decode_rune s).2 s))); [|done].
  rewrite length_drop_bytes. pose proof (decode_width s Hs). lia.
Qed.

Lemma concat_segments s : concat_strings (segments s).*2 = s.
Proof.
  induction s as [|s Hs IH] using segments_ind; [done|]. rewrite segments_cons by done.
  rewrite fmap_cons. change (take_bytes (decode_rune s).2 s +:+ concat_strings (segments (drop_bytes (decode_rune s).2 s)).*2 = s).
  rewrite IH. apply take_drop_bytes.
Qed.

(** Decoding looks at nothing beyond a longer prefix than the rune it finds. *)
Lemma decode_take k s : ((decode_rune s).2 ≤ k)%nat → decode_rune (take_bytes k s) = decode_rune s.
Proof.
  destruct s as [|c0 [|c1 [|c2 [|c3 s4]]]]; destruct k as [|[|[|[|k]]]]; try done;
    unfold decode_rune; cbn [take_bytes]; repeat case_match; simpl; intros; try done; lia.
Qed.

Lemma take_bytes_ge n s : (String.length s ≤ n)%nat → take_bytes n s = s.
Proof. revert s. induction n as [|n IH]; intros [|c s] H; simpl in *; try done; [lia|]. rewrite IH by lia. done. Qed.
Lemma take_take_bytes m n s : take_bytes m (take_bytes n s) = take_bytes (m `min` n) s.
Proof. revert n s. induction m as [|m IH]; intros [|n] [|c s]; try done. simpl. by rewrite IH. Qed.
Lemma drop_take_bytes m n s : drop_bytes m (take_bytes n s) = take_bytes (n - m) (drop_bytes m s).
Proof. revert n s. induction m as [|m IH]; intros [|n] [|c s]; try done; simpl; [by destruct (n - m)%nat|apply IH]. Qed.
Lemma length_take_bytes n s : String.length (take_bytes n s) = (n `min` String.length s)%nat.
Proof. revert s. induction n as [|n IH]; intros [|c s]; simpl; try done. by rewrite IH. Qed.
Lemma take_app_bytes a b : take_bytes (String.length a) (a +:+ b) = a.
Proof.
  induction a as [|c a IH]; [by destruct b|].
  change (String c (take_bytes (String.length a) (a +:+ b)) = String c a). by rewrite IH.
Qed.

Lemma length_string_app (a b : string) : String.length (a +:+ b) = (String.length a + String.length b)%nat.
Proof.
  induction a as [|c a IH]; [done|].
  change (S (String.length (a +:+ b)) = S (String.length a + String.length b)). by rewrite IH.
Qed.

(** A prefix made of whole segments is segmented as it was. *)
Lemma segments_prefix l1 l2 s : segments s = l1 ++ l2 → segments (concat_strings l1.*2) = l1.
Proof.
  revert s. induction l1 as [|[r b] l1 IH]; intros s Hs; [done|].
  destruct (decide (s = EmptyString)) as [->|Hne]; [done|].
  pose proof (decode_width s Hne) as Hw. pose proof Hs as Hcons. rewrite segments_cons in Hcons by done.
  injection Hcons as Hr Hb Hrest. pose proof (IH _ Hrest) as IH1.
  set (rest := concat_strings l1.*2) in *. assert (concat_strings ((r, b) :: l1).*2 = b +:+ rest) as -> by done.
  assert (String.length b = (decode_rune s).2) as Hlen by (rewrite <- Hb, length_take_bytes; lia).
  assert (take_bytes (String.length (b +:+ rest)) s = b +:+ rest) as Htake.
  { assert (s = (b +:+ rest) +:+ concat_strings l2.*2) as ->; [|apply take_app_bytes].
    rewrite <- (concat_segments s) at 1. rewrite Hs, fmap_app. apply concat_strings_app. }
  assert (decode_rune (b +:+ rest) = decode_rune s) as Hdec.
  { rewrite <- Htake. apply decode_take. rewrite length_string_app. lia. }
  assert (b +:+ rest ≠ EmptyString) as Hbne by (destruct b; [simpl in Hlen; lia|done]).
  rewrite segments_cons, Hdec by done.
  assert (take_bytes (decode_rune s).2 (b +:+ rest) = b) as -> by (rewrite <- Hlen; apply take_app_bytes).
  assert (drop_bytes (decode_rune s).2 (b +:+ rest) = rest) as ->.
  { rewrite <- Hlen. clear. induction b as [|c b IHb]; [by destruct rest|apply IHb]. }
  by rewrite IH1, Hr.
Qed.

Lemma segments_suffix l1 l2 s : segments s = l1 ++ l2 → segments (concat_strings l2.*2) = l2.
Proof.
  revert s. induction l1 as [|x l1 IH]; intros s Hs.
  - rewrite <- Hs at 2. f_equal. rewrite <- (concat_segments s). by rewrite Hs.
  - destruct (decide (s = EmptyString)) as [->|Hne]; [done|]. rewrite segments_cons in Hs by done.
    injection Hs as _ Hrest. by eapply IH.
Qed.

(** ** Trimming *)

Section drop_while.
Context {A : Type} (p : A → bool).

Lemma drop_while_app l : ∃ l0, l = l0 ++ drop_while p l.
Proof.
  induction l as [|x l [l0 IH]]; [by exists []|]. simpl. destruct (p x); [|by exists []].
  exists (x :: l0). by rewrite IH at 1.
Qed.
Lemma drop_while_head l : drop_while p l = [] ∨ ∃ x l', drop_while p l = x :: l' ∧ p x = false.
Proof. induction l as [|x l IH]; [by left|]. simpl. destruct (p x) eqn:Hx; [done|]. right. by exists x, l. Qed.
Lemma drop_while_id x l : p x = false → drop_while p (x :: l) = x :: l.
Proof. simpl. by intros ->. Qed.
Lemma drop_while_end_snoc l x : drop_while_end p (l ++ [x]) = if p x then drop_while_end p l else l ++ [x].
Proof.
  unfold drop_while_end. rewrite reverse_app. simpl. destruct (p x); [done|].
  by rewrite reverse_cons, reverse_involutive.
Qed.
Lemma drop_while_end_app l : ∃ l2, l = drop_while_end p l ++ l2.
Proof.
  unfold drop_while_end. destruct (drop_while_app (reverse l)) as [l0 Hl0]. exists (reverse l0).
  rewrite <- (reverse_involutive l) at 1. rewrite Hl0 at 1. apply reverse_app.
Qed.
Lemma drop_while_end_cons x l : p x = false → ∃ l', drop_while_end p (x :: l) = x :: l'.
Proof.
  intros Hx. induction l as [|y l [l' IH]] using rev_ind.
  - exists []. change [x] with ([] ++ [x]). by rewrite drop_while_end_snoc, Hx.
  - rewrite app_comm_cons, drop_while_end_snoc. destruct (p y); [by exists l'|by exists (l ++ [y])].
Qed.
Lemma drop_while_end_idem l : drop_while_end p (drop_while_end p l) = drop_while_end p l.
Proof.
  induction l as [|x l IH] using rev_ind; [done|]. rewrite drop_while_end_snoc.
  destruct (p x) eqn:Hx; [done|]. by rewrite drop_while_end_snoc, Hx.
Qed.
Lemma drop_both_idem l (m := drop_while_end p (drop_while p l)) : drop_while_end p (drop_while p m) = m.
Proof.
  unfold m. destruct (drop_while_head l) as [->|(x & l' & -> & Hx)]; [done|].
  destruct (drop_while_end_cons x l' Hx) as [l'' Hl'']. rewrite Hl'', drop_while_id by done.
  rewrite <- Hl''. apply drop_while_end_idem.
Qed.
Lemma drop_while_none l : Forall (λ x, p x = false) l → drop_while_end p (drop_while p l) = l.
Proof.
  intros Hl. assert (drop_while p l = l) as -> by (destruct Hl as [|x l Hx]; [done|by apply drop_while_id]).
  destruct l as [|x l _] using rev_ind; [done|]. apply Forall_app in Hl as [_ Hx%Forall_inv].
  by rewrite drop_while_end_snoc, Hx.
Qed.
End drop_while.

Lemma segments_trim s :
  segments (trim_space s) = drop_while_end (λ q, is_space q.1) (drop_while (λ q, is_space q.1) (segments s)).
Proof.
  set (p := λ q : Z * string, is_space q.1).
  destruct (drop_while_app p (segments s)) as [l0 H0].
  destruct (drop_while_end_app p (drop_while p (segments s))) as [l2 H2].
  pose proof (segments_suffix l0 (drop_while p (segments s)) s H0) as H1. rewrite H2 in H1.
  exact (segments_prefix _ _ _ H1).
Qed.

Lemma trim_space_idem s : trim_space (trim_space s) = trim_space s.
Proof. unfold trim_space at 1. rewrite segments_trim. unfold trim_space. f_equal. f_equal. apply drop_both_idem. Qed.

(** A string without space characters is its own trimming. *)
Lemma trim_space_plain s : forallb (λ r, negb (is_space r)) (runes s) = true → trim_space s = s.
Proof.
  intros Hs. unfold trim_space. rewrite drop_while_none; [apply concat_segments|].
  unfold runes in Hs. induction (segments s) as [|[r b] l IH]; [done|]. simpl in Hs.
  apply andb_true_iff in Hs as [Hr Hl]. constructor; [by apply negb_true_iff in Hr|by apply IH].
Qed.

(** ** The order of strings *)

Lemma str_leb_refl s : str_leb s s = true.
Proof. induction s as [|c s IH]; simpl; [done|]. by rewrite Z.ltb_irrefl, Z.eqb_refl. Qed.

Lemma str_leb_total s t : str_leb s t = true ∨ str_leb t s = true.
Proof.
  revert t. induction s as [|a s IH]; intros [|b t]; simpl; auto.
  destruct (Z.ltb_spec (byte_val a) (byte_val b)); [by left|].
  destruct (Z.ltb_spec (byte_val b) (byte_val a)); [by right|].
  rewrite !(proj2 (Z.eqb_eq _ _)) by lia. apply IH.
Qed.

Lemma str_leb_antisym s t : str_leb s t = true → str_leb t s = true → s = t.
Proof.
  revert t. induction s as [|a s IH]; intros [|b t]; simpl; try done.
  destruct (Z.ltb_spec (byte_val a) (byte_val b)), (Z.ltb_spec (byte_val b) (byte_val a)); try lia;
    try (rewrite (proj2 (Z.eqb_neq _ _)) by lia; done);
    try (intros _; rewrite (proj2 (Z.eqb_neq _ _)) by lia; done).
  assert (byte_val a = byte_val b) as Hab by lia. rewrite Hab, Z.eqb_refl. intros H1 H2.
  f_equal; [|by apply IH]. by rewrite <- (byte_of_val a), <- (byte_of_val b), Hab.
Qed.

Lemma str_leb_trans s t u : str_leb s t = true → str_leb t u = true → str_leb s u = true.
Proof.
  revert t u. induction s as [|a s IH]; intros [|b t] [|c u]; simpl; try done.
  destruct (Z.ltb_spec (byte_val a) (byte_val b)), (Z.ltb_spec (byte_val b) (byte_val c)),
    (Z.ltb_spec (byte_val a) (byte_val c)); try done; try lia;
    repeat match goal with |- context [?x =? ?y] => destruct (Z.eqb_spec x y) end; try done; try lia.
  apply IH.
Qed.

#[export] Instance str_le_preorder : PreOrder str_le.
Proof. split; [intros s; apply str_leb_refl|intros s t u; apply str_leb_trans]. Qed.
#[export] Instance str_le_antisym : AntiSymm (=) str_le.
Proof. intros s t. apply str_leb_antisym. Qed.
#[export] Instance str_le_total : Total str_le.
Proof. intros s t. apply str_leb_total. Qed.

(** ** Joining with a separator byte *)

Lemma split_byte_free sep s : Forall (λ c, c ≠ sep) (bytes s) → split_byte sep s = [s].
Proof.
  induction s as [|c s IH]; [done|]. intros [Hc Hs]%Forall_cons. cbn [split_byte].
  rewrite (proj2 (Ascii.eqb_neq c sep)) by done. by rewrite IH.
Qed.

Lemma split_byte_app sep s t :
  Forall (λ c, c ≠ sep) (bytes s) → split_byte sep (s +:+ String sep t) = s :: split_byte sep t.
Proof.
  induction s as [|c s IH].
  - intros _. change ("" +:+ String sep t) with (String sep t). cbn [split_byte]. by rewrite Ascii.eqb_refl.
  - intros [Hc Hs]%Forall_cons. change (String c s +:+ String sep t) with (String c (s +:+ String sep t)).
    cbn [split_byte]. rewrite (proj2 (Ascii.eqb_neq c sep)) by done. by rewrite IH.
Qed.

Lemma split_join sep l :
  l ≠ [] → Forall (λ s, Forall (λ c, c ≠ sep) (bytes s)) l → split_byte sep (join (String sep "") l) = l.
Proof.
  intros Hne Hl. induction Hl as [|x l Hx Hl IH]; [done|]. destruct l as [|y l].
  - by apply split_byte_free.
  - change (split_byte sep (x +:+ String sep (join (String sep "") (y :: l))) = x :: y :: l).
    rewrite split_byte_app by done. by rewrite IH.
Qed.

Lemma split_byte_ne sep s : split_byte sep s ≠ [].
Proof. destruct s as [|c s]; [done|]. cbn [split_byte]. case_match; [done|]. by destruct (split_byte sep s). Qed.
Lemma split_byte_snoc sep s t : split_byte sep (s +:+ String sep t) = split_byte sep s ++ split_byte sep t.
Proof.
  induction s as [|c s IH].
  { rewrite string_nil_app. cbn [split_byte]. by rewrite Ascii.eqb_refl. }
  rewrite string_cons_app. cbn [split_byte]. rewrite IH. case_match; [done|].
  pose proof (split_byte_ne sep s). by destruct (split_byte sep s).
Qed.
Lemma segments_ascii c s : byte_val c < 128 → segments (String c s) = (byte_val c, String c "") :: segments s.
Proof. intros Hc. unfold segments. cbn [segments_skip decode_rune]. rewrite (proj2 (Z.ltb_lt _ _) Hc). done. Qed.

(** A byte below 128 of a string is one of its runes. *)
Lemma ascii_byte_rune s c : c ∈ bytes s → byte_val c < 128 → byte_val c ∈ runes s.
Proof.
  intros Hc Hlow. induction s as [|s Hs IH] using segments_ind; [by apply elem_of_nil in Hc|].
  unfold runes. rewrite segments_cons, fmap_cons by done. apply elem_of_cons.
  fold (runes (drop_bytes (decode_rune s).2 s)). simpl fst.
  assert (c ∈ bytes (take_bytes (decode_rune s).2 s) ∨ c ∈ bytes (drop_bytes (decode_rune s).2 s)) as [Hin|Hin].
  { clear IH. generalize (decode_rune s).2 as n. intros n. revert n. clear Hs. induction s as [|a s IHs]; [by apply elem_of_nil in Hc|].
    intros [|n]; [by right|]. simpl. apply elem_of_cons in Hc as [->|Hc]; [left; left|].
    destruct (IHs Hc n); [left; by right|by right]. }
  - left. clear IH Hc. destruct s as [|c0 [|c1 [|c2 [|c3 s4]]]]; [done|..]; unfold decode_rune, is_cont, in_range in Hin |- *;
      repeat case_match; simpl in Hin |- *; rewrite ?elem_of_cons, ?elem_of_nil in Hin; orb_split;
      rewrite ?Z.leb_le, ?Z.ltb_lt, ?Z.ltb_ge, ?Z.leb_gt in *; naive_solver lia.
  - right. by apply IH.
Qed.

(** ** Runes below 128 *)

Lemma land_mask x n : 0 <= n → Z.land x (2 ^ n - 1) = x mod 2 ^ n.
Proof. intros. rewrite <- Z.land_ones by done. by rewrite Z.ones_equiv, Z.sub_1_r. Qed.
(** A rune below 128 is a byte of the string. *)
Lemma decode_low s : s ≠ "" → (decode_rune s).1 < 128 → ∃ c s', s = String c s' ∧ (decode_rune s).1 = byte_val c.
Proof.
  intros Hs. destruct s as [|c s']; [done|]. intros Hl. exists c, s'. split; [done|]. revert Hl. unfold decode_rune, RuneError, is_cont, in_range.
  change 31 with (2 ^ 5 - 1); change 63 with (2 ^ 6 - 1); change 15 with (2 ^ 4 - 1); change 7 with (2 ^ 3 - 1).
  rewrite !land_mask by lia. pose proof (byte_val_range c).
  destruct (byte_val c <? 128) eqn:?; [done|]. destruct (byte_val c <? 194) eqn:?; [cbn; lia|]. 
  destruct s' as [|c1 s2]; [cbn; lia|]. pose proof (byte_val_range c1). rewrite !land_mask by lia.
  destruct (byte_val c <? 224) eqn:?.
  { destruct (_ && _); cbn [fst]; [|lia]. change (2 ^ 5) with 32; change (2 ^ 6) with 64. orb_split. div_lia. }
  destruct s2 as [|c2 s3]; [cbn; lia|]. pose proof (byte_val_range c2). rewrite !land_mask by lia.
  destruct (byte_val c <? 240) eqn:?.
  { match goal with |- context [if ?b then _ else _] => destruct b eqn:Hb end; cbn [fst]; [|lia]. change (2 ^ 4) with 16; change (2 ^ 6) with 64. orb_split. destruct (byte_val c =? 224) eqn:?, (byte_val c =? 237) eqn:?; div_lia. }
  destruct s3 as [|c3 s4]; [cbn; lia|]. pose proof (byte_val_range c3). rewrite !land_mask by lia.
  match goal with |- context [if ?b then _ else _] => destruct b eqn:Hb end; cbn [fst]; [|lia]. change (2 ^ 3) with 8; change (2 ^ 6) with 64. orb_split. destruct (byte_val c =? 240) eqn:?, (byte_val c =? 244) eqn:?; div_lia.
Qed.
Lemma drop_bytes_in c n s : c ∈ bytes (drop_bytes n s) → c ∈ bytes s.
Proof. revert n. induction s as [|a s IH]; intros [|n]; cbn; try done. intros H. right. by eapply IH. Qed.
Lemma low_rune_byte s r : r ∈ runes s → r < 128 → ∃ c, c ∈ bytes s ∧ byte_val c = r.
Proof.
  induction s as [|s Hs IH] using segments_ind; intros Hr Hlow; [by apply elem_of_nil in Hr|].
  unfold runes in Hr. rewrite segments_cons, fmap_cons in Hr by done. apply elem_of_cons in Hr as [->|Hr].
  - destruct (decode_low s Hs Hlow) as (c & s' & -> & Hv). exists c. split; [left|done].
  - destruct (IH Hr Hlow) as (c & Hc & Hv). exists c. split; [|done]. by eapply drop_bytes_in.
Qed.
Lemma encode_rune_bytes r c : c ∈ bytes (encode_rune r) → byte_val c < 128 → byte_val c = r.
Proof.
  assert (∀ z, 128 <= z < 256 → byte_val (byte_of z) = z) as Hbig by (intros; apply byte_val_of; lia).
  unfold encode_rune.
  repeat match goal with |- context [if ?b then _ else _] => destruct b eqn:? end;
    unfold bytes; cbn [String.list_ascii_of_string]; rewrite ?elem_of_cons, ?elem_of_nil; intros Hc Hlow; orb_split.
  { destruct Hc as [->|[]]. rewrite byte_val_of in * by lia. done. }
  all: repeat (destruct Hc as [->|Hc]; [rewrite Hbig in Hlow by div_lia; exfalso; div_lia|]); by destruct Hc.
Qed.
