(* ===== verification/Protocol.v ===== *)
(** * Wire protocol ([internal/protocol])

    The provider-neutral messages shared by the relay, the receiver and the
    requester, and the portable filename and path rules.  String-typed Go
    enumerations become inductive types with one extra constructor for a value
    outside the declared constants (JSON input can hold any string). *)

From S2P Require Import Prelude GoString.
From Stdlib Require Import Ascii.

Local Open Scope Z_scope.

(** [time.Time] as nanoseconds since the Unix epoch, in UTC.  The zero value
    is the instant 0001-01-01, recognised by [IsZero]. *)
Definition time : Type := Z.
Definition zero_time : time := -62135596800000000000.
Definition second : Z := 1000000000.
Definition is_zero_time (t : time) : bool := t =? zero_time.
#[export] Instance time_eq_dec : EqDecision time := Z.eq_dec.

Definition MaxAttachments : Z := 5.
Definition MaxAttachmentBytes : Z := 2 * 1024 * 1024.
Definition MaxRequestPayloadBytes : Z := 2 * 1024 * 1024.
Definition MaxPromptBytes : Z := 32 * 1024.
Definition MaxTitleBytes : Z := 200.
Definition APIVersion : string := "v1".

Inductive PermissionMode :=
  | PermissionReadOnly | PermissionGuardedWrite | PermissionCustom
  | PermissionOther (raw : string).
#[export] Instance PermissionMode_eq_dec : EqDecision PermissionMode.
Proof. solve_decision. Defined.

(** [string(mode)] and the decoding of a JSON string. *)
Definition mode_string (m : PermissionMode) : string :=
  match m with
  | PermissionReadOnly => "read_only"
  | PermissionGuardedWrite => "guarded_write"
  | PermissionCustom => "custom"
  | PermissionOther raw => raw
  end.

(** [PermissionMode.Valid] *)
Definition mode_valid (m : PermissionMode) : bool :=
  match m with
  | PermissionReadOnly | PermissionGuardedWrite | PermissionCustom => true
  | PermissionOther _ => false
  end.

Inductive Availability :=
  | AvailabilityAvailable | AvailabilityBusy | AvailabilityAway | AvailabilityOffline
  | AvailabilityOther (raw : string).
#[export] Instance Availability_eq_dec : EqDecision Availability.
Proof. solve_decision. Defined.

Record RuntimeCapabilities := mkRuntimeCapabilities {
  rc_Resume : bool; rc_StructuredEvents : bool; rc_Skills : bool; rc_MCP : bool;
  rc_ReadOnly : bool; rc_GuardedWrite : bool; rc_ReturnedFiles : bool }.
#[export] Instance RuntimeCapabilities_eq_dec : EqDecision RuntimeCapabilities.
Proof. solve_decision. Defined.

Record RuntimeDescriptor := mkRuntimeDescriptor {
  rd_ID : string; rd_DisplayName : string; rd_Version : string;
  rd_Capabilities : RuntimeCapabilities }.
#[export] Instance RuntimeDescriptor_eq_dec : EqDecision RuntimeDescriptor.
Proof. solve_decision. Defined.

Record AgentCard := mkAgentCard {
  card_AgentID : string; card_MemberID : string; card_DisplayName : string;
  card_DeviceName : string; card_Availability : Availability;
  card_AcceptingRequests : bool; card_Runtime : RuntimeDescriptor;
  card_PermissionMode : PermissionMode; card_Capabilities : list string;
  card_WorkspaceAliases : list string; card_Online : bool; card_LastSeen : time }.
#[export] Instance AgentCard_eq_dec : EqDecision AgentCard.
Proof. solve_decision. Defined.

Record AgentHeartbeat := mkAgentHeartbeat {
  hb_DisplayName : string; hb_DeviceName : string; hb_Availability : Availability;
  hb_AcceptingRequests : bool; hb_Runtime : RuntimeDescriptor;
  hb_PermissionMode : PermissionMode; hb_Capabilities : list string;
  hb_WorkspaceAliases : list string }.

Record AgentDirectoryResponse := mkAgentDirectoryResponse {
  dir_Agents : list AgentCard; dir_ObservedAt : time }.

Record RequestedAccess := mkRequestedAccess {
  ra_WorkspaceAlias : string; ra_Mode : PermissionMode }.
#[export] Instance RequestedAccess_eq_dec : EqDecision RequestedAccess.
Proof. solve_decision. Defined.

Record AttachmentInput := mkAttachmentInput {
  ai_Name : string; ai_MIMEType : string; ai_Encoding : string; ai_SizeBytes : Z;
  ai_SHA256 : string; ai_ContentBase64 : string }.
#[export] Instance AttachmentInput_eq_dec : EqDecision AttachmentInput.
Proof. solve_decision. Defined.

Record ArtifactDescriptor := mkArtifactDescriptor {
  ad_ArtifactID : string; ad_Name : string; ad_MIMEType : string; ad_SizeBytes : Z;
  ad_SHA256 : string }.
#[export] Instance ArtifactDescriptor_eq_dec : EqDecision ArtifactDescriptor.
Proof. solve_decision. Defined.

Record ArtifactContent := mkArtifactContent {
  ac_Descriptor : ArtifactDescriptor; ac_Encoding : string; ac_ContentBase64 : string }.

Inductive RequestStatus :=
  | StatusPreparing | StatusAwaitingApproval | StatusAccepted | StatusRunning
  | StatusCompleted | StatusRejected | StatusExpired | StatusCancelled | StatusFailed
  | StatusOther (raw : string).
#[export] Instance RequestStatus_eq_dec : EqDecision RequestStatus.
Proof. solve_decision. Defined.

(** [RequestStatus.Terminal] *)
Definition Terminal (s : RequestStatus) : bool :=
  match s with
  | StatusCompleted | StatusRejected | StatusExpired | StatusCancelled | StatusFailed => true
  | _ => false
  end.

Record CreateRequest := mkCreateRequest {
  cr_TargetAgentID : string; cr_ConversationID : string; cr_Title : string;
  cr_Prompt : string; cr_RequestedAccess : list RequestedAccess;
  cr_Attachments : list AttachmentInput; cr_ExpiresInSeconds : Z;
  cr_IdempotencyKey : string }.

Record Request := mkRequest {
  rq_APIVersion : string; rq_RequestID : string; rq_ConversationID : string;
  rq_RequesterAgentID : string; rq_RequesterMemberID : string;
  rq_RequesterDisplayName : string; rq_TargetAgentID : string; rq_Title : string;
  rq_Prompt : string; rq_PromptPreview : string; rq_PromptBytes : Z;
  rq_PromptSHA256 : string; rq_RequestedAccess : list RequestedAccess;
  rq_Attachments : list ArtifactDescriptor; rq_ResultFiles : list ArtifactDescriptor;
  rq_Status : RequestStatus; rq_Answer : string; rq_Error : string;
  rq_CreatedAt : time; rq_UpdatedAt : time; rq_ExpiresAt : time; rq_Version : Z }.
#[export] Instance Request_eq_dec : EqDecision Request.
Proof. solve_decision. Defined.

Record RequestNotice := mkRequestNotice {
  nt_RequestID : string; nt_ConversationID : string; nt_Status : RequestStatus;
  nt_RequesterAgentID : string; nt_RequesterMemberID : string;
  nt_RequesterDisplayName : string; nt_Title : string; nt_PromptPreview : string;
  nt_PromptBytes : Z; nt_PromptSHA256 : string;
  nt_RequestedAccess : list RequestedAccess; nt_Attachments : list ArtifactDescriptor;
  nt_CreatedAt : time; nt_ExpiresAt : time; nt_ResumesSession : bool }.
#[export] Instance RequestNotice_eq_dec : EqDecision RequestNotice.
Proof. solve_decision. Defined.

Record ExecutionPayload := mkExecutionPayload {
  ep_RequestID : string; ep_ConversationID : string; ep_RequesterAgentID : string;
  ep_RequesterMemberID : string; ep_RequesterDisplayName : string; ep_Title : string;
  ep_Prompt : string; ep_RequestedAccess : list RequestedAccess;
  ep_Attachments : list ArtifactDescriptor; ep_ExpiresAt : time }.

(** The approval-time view has the same fields. *)
Record ProposalPayload := mkProposalPayload {
  pp_RequestID : string; pp_ConversationID : string; pp_RequesterAgentID : string;
  pp_RequesterMemberID : string; pp_RequesterDisplayName : string; pp_Title : string;
  pp_Prompt : string; pp_RequestedAccess : list RequestedAccess;
  pp_Attachments : list ArtifactDescriptor; pp_ExpiresAt : time }.

(** [protocol.Decision]; [DecisionNone] is Go's zero value "". *)
Inductive Decision_ := DecisionNone | DecisionAllowOnce | DecisionDeny | DecisionOther (raw : string).
#[export] Instance Decision_eq_dec : EqDecision Decision_.
Proof. solve_decision. Defined.

Record DecisionPayload := mkDecisionPayload { dp_Decision : Decision_; dp_DecisionID : string }.

Record ResultPayload := mkResultPayload {
  rp_ExecutionClaimID : string; rp_State : RequestStatus; rp_Answer : string;
  rp_Error : string; rp_ResultFiles : list AttachmentInput }.
#[export] Instance ResultPayload_eq_dec : EqDecision ResultPayload.
Proof. solve_decision. Defined.

Record MutationResponse := mkMutationResponse {
  mr_RequestID : string; mr_ConversationID : string; mr_Status : RequestStatus }.
#[export] Instance MutationResponse_eq_dec : EqDecision MutationResponse.
Proof. solve_decision. Defined.

(** ** Portable filenames ([path.go]) *)

Section path.
Context `{UT : UnicodeTables}.

Definition device_names : list string :=
  ["CON"; "PRN"; "AUX"; "NUL"; "CLOCK$"; "CONIN$"; "CONOUT$";
   "COM1"; "COM2"; "COM3"; "COM4"; "COM5"; "COM6"; "COM7"; "COM8"; "COM9";
   "COM¹"; "COM²"; "COM³";
   "LPT1"; "LPT2"; "LPT3"; "LPT4"; "LPT5"; "LPT6"; "LPT7"; "LPT8"; "LPT9";
   "LPT¹"; "LPT²"; "LPT³"].

(** Which of the function's checks refuses the name. *)
Inductive filename_error :=
  | NotDirectChild | NotUtf8OrTooLong | ReservedCharacter | TrailingDotOrSpace
  | ControlCharacter | DeviceName.

(** The reserved characters: < > : (double quote) / \ | ? *)
Definition reserved_characters : string := "<>:/\|?*" +:+ String.String (byte_of 34) "".

Definition ValidatePortableFilename (name : string) : filename_error + unit :=
  if bool_decide (name = "") || negb (bool_decide (name = trim_space name)) ||
     bool_decide (name = ".") || bool_decide (name = "..") then inl NotDirectChild else
  if negb (valid_utf8 name) || (255 <? len name) then inl NotUtf8OrTooLong else
  if contains_any name reserved_characters then inl ReservedCharacter else
  if has_suffix name "." || has_suffix name " " then inl TrailingDotOrSpace else
  if existsb is_control (runes name) then inl ControlCharacter else
  let stem := before_byte "."%char name in
  if bool_decide (to_upper stem ∈ device_names) then inl DeviceName else
  inr ().

Inductive path_error := NotRelativePath | BadComponent (e : filename_error).

(** The component loop of [ValidatePortableRelativePath]. *)
Fixpoint validate_components (l : list string) : path_error + unit :=
  match l with
  | [] => inr ()
  | c :: l' => match ValidatePortableFilename c with
               | inl e => inl (BadComponent e)
               | inr _ => validate_components l'
               end
  end.

Definition ValidatePortableRelativePath (value : string) : path_error + unit :=
  if bool_decide (value = "") || negb (bool_decide (value = trim_space value)) ||
     bool_decide (value = ".") || negb (fs_valid_path value) then inl NotRelativePath
  else validate_components (split_byte "/"%char value).
End path.
