(* ===== verification/Auth.v ===== *)
(** * Principals and opaque tokens ([internal/auth], [internal/keyspace])

    Credentials are random tokens whose prefix names their authority; the
    relay stores only their hash. *)

From S2P Require Import Prelude GoString Sha256 Protocol.

Local Open Scope Z_scope.

Inductive Role := RoleAdmin | RoleMember | RoleOther (raw : string).
#[export] Instance Role_eq_dec : EqDecision Role.
Proof. solve_decision. Defined.

Inductive TokenKind := TokenBootstrap | TokenAdmin | TokenInvite | TokenDevice | TokenNone.
#[export] Instance TokenKind_eq_dec : EqDecision TokenKind.
Proof. solve_decision. Defined.

Record Principal := mkPrincipal {
  p_OrganizationID : string; p_MemberID : string; p_DeviceID : string; p_AgentID : string;
  p_DisplayName : string; p_DeviceName : string; p_Runtime : string;
  p_PermissionMode : string; p_CredentialHash : string; p_Role : Role;
  p_TokenKind : TokenKind; p_IssuedAt : time }.
#[export] Instance Principal_eq_dec : EqDecision Principal.
Proof. solve_decision. Defined.

Definition IsAdmin (p : Principal) : bool :=
  bool_decide (p_Role p = RoleAdmin) && bool_decide (p_TokenKind p = TokenAdmin).

(** [tokenPrefixes] *)
Definition token_prefix (kind : TokenKind) : option string :=
  match kind with
  | TokenBootstrap => Some "tr_boot_"
  | TokenAdmin => Some "tr_admin_"
  | TokenInvite => Some "tr_inv_"
  | TokenDevice => Some "tr_dev_"
  | TokenNone => None
  end.

(** [NewToken], given the 32 random bytes it draws. *)
Definition NewToken (random : string) (kind : TokenKind) : option string :=
  (λ prefix, prefix +:+ hex_encode random) <$> token_prefix kind.

(** The test of one map entry in [Kind]. *)
Definition kind_matches (token : string) (kind : TokenKind) : bool :=
  match token_prefix kind with
  | None => false
  | Some prefix =>
    has_prefix token prefix && bool_decide (len token = len prefix + 64) &&
    bool_decide (is_Some (hex_decode (drop_bytes (String.length prefix) token)))
  end.

(** [Kind]: [None] is [ErrInvalidToken].  The iteration order of the Go map is
    unspecified; [kind_matches_unique] shows that it cannot matter. *)
Definition Kind (token : string) : option TokenKind :=
  List.find (kind_matches (trim_space token)) [TokenBootstrap; TokenAdmin; TokenInvite; TokenDevice].

Definition Hash (token : string) : string := sha256_hex (trim_space token).

(** [Equal]: constant-time comparison of the two digests. *)
Definition Equal (left right : string) : bool :=
  bool_decide (sha256 (trim_space left) = sha256 (trim_space right)).

Definition collaborationPrefix : string := "team-relay:v1:collab:".

(** [keyspace.CollaborationRevokedAgents] *)
Definition CollaborationRevokedAgents (organizationID : string) : string :=
  collaborationPrefix +:+ hex_encode organizationID +:+ ":revoked-agents".

(** ** Properties *)

(** Two prefixes of one string are prefixes of each other. *)
Lemma prefix_comparable p q s :
  has_prefix s p = true → has_prefix s q = true → has_prefix p q || has_prefix q p = true.
Proof.
  unfold has_prefix. revert q s. induction p as [|a p IH]; intros [|b q] [|c s] Hp Hq;
    simpl in *; try done.
  repeat case_match; simplify_eq; try done; by eapply IH.
Qed.

Lemma kind_matches_prefix token kind :
  kind_matches token kind = true → ∃ p, token_prefix kind = Some p ∧ has_prefix token p = true.
Proof. unfold kind_matches. destruct (token_prefix kind); [|done]. intros H. orb_split. eauto. Qed.

Lemma kind_matches_unique token k1 k2 :
  kind_matches token k1 = true → kind_matches token k2 = true → k1 = k2.
Proof.
  intros (p & Hp & Hpt)%kind_matches_prefix (q & Hq & Hqt)%kind_matches_prefix.
  pose proof (prefix_comparable p q token Hpt Hqt) as H.
  destruct k1, k2; simplify_eq/=; reflexivity || (vm_compute in H; done).
Qed.

Lemma drop_bytes_app p s : drop_bytes (String.length p) (p +:+ s) = s.
Proof. induction p; [by destruct s|]. done. Qed.

Lemma prefix_app p s : has_prefix (p +:+ s) p = true.
Proof.
  unfold has_prefix. induction p as [|c p IH]; simpl; [by destruct s|].
  by destruct (Ascii.ascii_dec c c).
Qed.

Lemma length_append p s : String.length (p +:+ s) = (String.length p + String.length s)%nat.
Proof. induction p as [|c p IH]; [done|]. simpl. by rewrite IH. Qed.

(** A minted token is recognised with exactly the kind it was minted for. *)
Lemma NewToken_kind_matches random kind token :
  String.length random = 32%nat → NewToken random kind = Some token →
  kind_matches token kind = true.
Proof.
  unfold NewToken, kind_matches. intros Hlen H.
  destruct (token_prefix kind) as [p|]; simplify_eq/=.
  rewrite prefix_app, drop_bytes_app, hex_decode_encode. unfold len.
  rewrite length_append, length_hex_encode, Hlen. simpl.
  rewrite !bool_decide_true by (eauto || lia). done.
Qed.
