(* ===== verification/Redact.v ===== *)
(** * Redaction of texts that leave the machine ([internal/runtime/helpers.go])

    The two regular expressions of the redaction filter, as scanners over the
    runes of a text, and the one-line summaries built on it.  Go's regexp
    package replaces the leftmost matches, none overlapping; both expressions
    match in at most one way at a position, so a scanner that answers the
    length of the match is all of it. *)

From S2P Require Import Prelude GoString Sha256 GoStringFacts.
From Stdlib Require Import Ascii.

Local Open Scope Z_scope.

Definition MaxFinalTextBytes : Z := 128 * 1024.
Definition MaxDiagnosticBytes : Z := 64 * 1024.
Definition MaxSummaryRunes : nat := 320.

(** A rune and the bytes it was read from. *)
Abbreviation seg := (Z * string)%type.
Definition rune_at (c : ascii) : Z := byte_val c.
Definition seg_of (c : ascii) : seg := (byte_val c, String c "").

Fixpoint span {A} (p : A → bool) (l : list A) : list A * list A :=
  match l with
  | [] => ([], [])
  | x :: l' => if p x then let (a, b) := span p l' in (x :: a, b) else ([], l)
  end.
Definition seg_text (l : list seg) : string := concat_strings l.*2.

(** [\s], [[^\s,;]] and [[A-Za-z0-9_-]] of RE2 *)
Definition re_space (x : seg) : bool := in_range 9 10 x.1 || in_range 12 13 x.1 || (x.1 =? 32).
Definition re_value (x : seg) : bool := negb (re_space x || (x.1 =? 44) || (x.1 =? 59)).
Definition re_word (r : Z) : bool := in_range 48 57 r || in_range 65 90 r || in_range 97 122 r || (r =? 95).
Definition re_token (x : seg) : bool := re_word x.1 || (x.1 =? 45).

(** A literal at the head of a text, compared by [eqb]. *)
Fixpoint strip (eqb : Z → Z → bool) (literal : list ascii) (l : list seg) : option (list seg * list seg) :=
  match literal, l with
  | [], _ => Some ([], l)
  | c :: cs, x :: l' => if eqb (rune_at c) x.1 then '(a, b) ← strip eqb cs l'; Some (x :: a, b) else None
  | _ :: _, [] => None
  end.
(** The first alternative that matches. *)
Fixpoint first_some {A B} (f : A → option B) (l : list A) : option B :=
  match l with [] => None | x :: l' => match f x with Some y => Some y | None => first_some f l' end end.

(** [ReplaceAllString]: what is matched at a position (the rune before it is
    given) is its number of runes and the replacement. *)
Fixpoint replace_matches (m : option Z → list seg → option (nat * string)) (prev : option Z) (skip : nat) (l : list seg) : string :=
  match l with
  | [] => ""
  | x :: l' =>
    match skip with
    | S k => replace_matches m (Some x.1) k l'
    | O =>
      match m prev l with
      | Some (S k, text) => text +:+ replace_matches m (Some x.1) k l'
      | _ => x.2 +:+ replace_matches m (Some x.1) 0 l'
      end
    end
  end.

Definition redacted : string := "[REDACTED]".

Section redact.
Context `{UT : UnicodeTables}.

(** [sensitiveValue]: a word in any case ([api key] with space, [_], [-] or
    nothing), [:] or [=] between spaces, and a value. *)
Definition sensitive_words : list string :=
  ["authorization"; "api key"; "api_key"; "api-key"; "apikey"; "password"; "secret"; "token"].
Definition fold_eqb (c r : Z) : bool := rune_fold c =? rune_fold r.
Definition sensitive_word (l : list seg) (w : string) : option (nat * string) :=
  '(word, l1) ← strip fold_eqb (bytes w) l;
  let (sp1, l2) := span re_space l1 in
  match l2 with
  | c :: l3 =>
    if (c.1 =? 58) || (c.1 =? 61) then
      let (sp2, l4) := span re_space l3 in
      match (span re_value l4).1 with
      | [] => None
      | value => let kept := word ++ sp1 ++ c :: sp2 in Some ((length kept + length value)%nat, seg_text kept +:+ redacted)
      end
    else None
  | [] => None
  end.
Definition sensitive_at (prev : option Z) (l : list seg) : option (nat * string) := first_some (sensitive_word l) sensitive_words.

(** [credentialValue]: a prefix of a known credential at a word boundary, and
    at least one more character of it. *)
Definition credential_words : list string :=
  ["tr_boot_"; "tr_admin_"; "tr_inv_"; "tr_dev_"; "trl_"; "cbr_"; "ghp_"; "github_pat_"; "sk-"].
Definition at_boundary (prev : option Z) : bool := match prev with Some r => negb (re_word r) | None => true end.
Definition credential_word (l : list seg) (w : string) : option (nat * string) :=
  '(word, l1) ← strip Z.eqb (bytes w) l;
  match (span re_token l1).1 with
  | [] => None
  | value => Some ((length word + length value)%nat, redacted)
  end.
Definition credential_at (prev : option Z) (l : list seg) : option (nat * string) :=
  if at_boundary prev then first_some (credential_word l) credential_words else None.

Definition RedactSensitiveText (value : string) : string :=
  let value := replace_matches sensitive_at None 0 (segments value) in
  replace_matches credential_at None 0 (segments value).

(** [strings.Fields] *)
Fixpoint fields_of (word : string) (l : list seg) : list string :=
  match l with
  | [] => if bool_decide (word = "") then [] else [word]
  | x :: l' =>
    if is_space x.1 then (if bool_decide (word = "") then fields_of "" l' else word :: fields_of "" l')
    else fields_of (word +:+ x.2) l'
  end.
Definition fields (value : string) : list string := fields_of "" (segments value).

Definition blank_controls (value : string) : string :=
  string_of_runes ((λ r, if is_control r || is_space r then 32 else r) <$> runes value).
Definition ellipsis : string := encode_rune 8230.
Definition SafeSummary (value : string) : string :=
  let value := RedactSensitiveText (join " " (fields (blank_controls value))) in
  let rs := runes value in
  if (MaxSummaryRunes <? length rs)%nat then string_of_runes (take MaxSummaryRunes rs) +:+ ellipsis else value.

(** The last line of a program's output that says something. *)
Definition Diagnostic (data : string) : string :=
  let data := if MaxDiagnosticBytes <? len data then drop_bytes (Z.to_nat (len data - MaxDiagnosticBytes)) data else data in
  let lines := split_byte (byte_of 10) (trim_space data) in
  default "" (first_some (λ line, let summary := SafeSummary line in if bool_decide (summary = "") then None else Some summary) (reverse lines)).
End redact.

Example redact_samples : let _ := ascii_tables in
  RedactSensitiveText <$> ["my Token : abc, x"; "API-key=k;"; "use tr_dev_Ab-1 now"; "xtr_dev_a sk-"; "secret= "] =
  ["my Token : [REDACTED], x"; "API-key=[REDACTED];"; "use [REDACTED] now"; "xtr_dev_a sk-"; "secret= "].
Proof. vm_compute. reflexivity. Qed.
Example safe_summary_sample : let _ := ascii_tables in
  SafeSummary ("failed" +:+ String (byte_of 10) "  token=abc ") = "failed token=[REDACTED]".
Proof. vm_compute. reflexivity. Qed.
Example diagnostic_sample : let _ := ascii_tables in
  Diagnostic (join (String (byte_of 10) "") ["usage"; "error:  password=x"; " "; ""]) = "error: password=[REDACTED]".
Proof. vm_compute. reflexivity. Qed.
(** Redaction can make a text longer. *)
Lemma redaction_lengthens : let _ := ascii_tables in len (RedactSensitiveText "token=a") = len "token=a" + 9.
Proof. vm_compute. reflexivity. Qed.
