(* ===== verification/RedactFacts.v ===== *)
(** * What redaction and summaries guarantee

    A redacted text contains no credential, and a summary is one short line. *)

From S2P Require Import Prelude GoString Sha256 GoStringFacts Redact.
From Stdlib Require Import Ascii ZifyBool.

Local Open Scope Z_scope.

(** ** Segments around ASCII *)

Definition starts_ascii (s : string) : Prop := match s with EmptyString => True | String c _ => byte_val c < 128 end.

Lemma decode_before_ascii a b : a ≠ EmptyString → starts_ascii b → decode_rune (a +:+ b) = decode_rune a.
Proof.
  intros Ha Hb. destruct a as [|c0 a]; [done|]. unfold starts_ascii in Hb.
  destruct a as [|c1 [|c2 [|c3 a]]]; destruct b as [|d0 b]; try done;
    [destruct b as [|d1 [|d2 b]]|destruct b as [|d1 b]|];
    rewrite ?string_cons_app, ?string_nil_app; unfold decode_rune, is_cont, in_range;
    repeat case_match; try done; lia.
Qed.
Lemma drop_app_bytes n a b : (n ≤ String.length a)%nat → drop_bytes n (a +:+ b) = drop_bytes n a +:+ b.
Proof. revert a. induction n as [|n IH]; intros [|c a] H; simpl in *; try done; [lia|]. apply IH. lia. Qed.
Lemma take_app_le_bytes n a b : (n ≤ String.length a)%nat → take_bytes n (a +:+ b) = take_bytes n a.
Proof. revert a. induction n as [|n IH]; intros [|c a] H; simpl in *; [by destruct b|done|lia|]. f_equal. apply IH. lia. Qed.

Lemma segments_app a b : starts_ascii b → segments (a +:+ b) = segments a ++ segments b.
Proof.
  intros Hb. induction a as [|a Ha IH] using segments_ind; [done|].
  pose proof (decode_width a Ha) as Hw. rewrite (segments_cons a) by done.
  rewrite segments_cons by (by destruct a). rewrite decode_before_ascii by done.
  rewrite take_app_le_bytes, drop_app_bytes, IH by lia. done.
Qed.
Lemma segments_ascii_app a b : Forall (λ c, byte_val c < 128) (bytes a) → segments (a +:+ b) = segments a ++ segments b.
Proof.
  induction a as [|c a IH]; [done|]. intros [Hc Ha]%Forall_cons. change (String c a +:+ b) with (String c (a +:+ b)).
  rewrite !segments_ascii by done. by rewrite IH.
Qed.
Lemma seg_text_app l r : seg_text (l ++ r) = seg_text l +:+ seg_text r.
Proof. unfold seg_text. by rewrite fmap_app, concat_strings_app. Qed.

(** ** The scanners *)

Lemma span_app {A} (p : A → bool) l : l = (span p l).1 ++ (span p l).2.
Proof. induction l as [|x l IH]; [done|]. simpl. destruct (p x); [|done]. destruct (span p l). simpl in *. by f_equal. Qed.
Lemma span_true {A} (p : A → bool) l : Forall (λ x, p x = true) (span p l).1.
Proof. induction l as [|x l IH]; [constructor|]. simpl. destruct (p x) eqn:Hp; [|constructor]. destruct (span p l). by constructor. Qed.
Lemma span_stops {A} (p : A → bool) l x r : (span p l).2 = x :: r → p x = false.
Proof.
  induction l as [|y l IH]; [done|]. simpl. destruct (p y) eqn:Hp; [|by intros [= -> ->]].
  destruct (span p l). simpl in *. apply IH.
Qed.
Lemma strip_spec eqb cs l a b : strip eqb cs l = Some (a, b) ↔ l = a ++ b ∧ Forall2 (λ c x, eqb (rune_at c) x.1 = true) cs a.
Proof.
  revert l a b. induction cs as [|c cs IH]; intros l a b; simpl.
  - split; [intros [= <- <-]; by split|]. intros [-> Ha%Forall2_nil_inv_l]. by subst.
  - destruct l as [|x l]; [split; [done|]; intros [Heq H2]; apply Forall2_cons_inv_l in H2 as (? & ? & _ & _ & ->); done|].
    destruct (eqb (rune_at c) x.1) eqn:He.
    + split.
      * intros ([a' b'] & Hs & [= <- <-])%bind_Some. apply IH in Hs as [-> ?]. split; [done|]. by constructor.
      * intros [Heq H2]. apply Forall2_cons_inv_l in H2 as (y & a' & Hy & H2 & ->). injection Heq as -> ->.
        apply bind_Some. exists (a', b). split; [by apply IH|done].
    + split; [done|]. intros [Heq H2]. apply Forall2_cons_inv_l in H2 as (y & a' & Hy & H2 & ->). injection Heq as -> ->. congruence.
Qed.
Lemma first_some_spec {A B} (f : A → option B) l y : first_some f l = Some y → ∃ x, x ∈ l ∧ f x = Some y.
Proof.
  induction l as [|x l IH]; [done|]. simpl. destruct (f x) eqn:Hf; [intros [= ->]; exists x; by split; [left|]|].
  intros (z & ? & ?)%IH. exists z. by split; [right|].
Qed.
Lemma first_some_none {A B} (f : A → option B) l : first_some f l = None ↔ ∀ x, x ∈ l → f x = None.
Proof.
  induction l as [|x l IH]; simpl; [split; [intros _ x Hx; by apply elem_of_nil in Hx|done]|].
  destruct (f x) eqn:Hf; [split; [done|]; intros H; rewrite (H x) in Hf by left; done|].
  rewrite IH. split; [intros H y [->|Hy]%elem_of_cons; auto|intros H y Hy; apply H; by right].
Qed.

(** ** Credentials *)

Section redact.
Context `{UT : UnicodeTables}.

(** A credential at the head of a text, as the expression describes it. *)
Definition credential_here (l : list seg) : Prop :=
  ∃ w a x b, w ∈ credential_words ∧ l = a ++ x :: b ∧ Forall2 (λ c y, (rune_at c =? y.1) = true) (bytes w) a ∧ re_token x = true.
(** The rune before a position. *)
Definition before (prev : option Z) (l : list seg) : option Z := match last l with Some x => Some x.1 | None => prev end.
(** A text shows a credential: somewhere, at a word boundary. *)
Definition shows_credential (s : string) : Prop :=
  ∃ a b, segments s = a ++ b ∧ at_boundary (before None a) = true ∧ credential_here b.

Lemma words_are_tokens w a : w ∈ credential_words → Forall2 (λ c y, (rune_at c =? y.1) = true) (bytes w) a →
  Forall (λ y, re_token y = true) a ∧ ∃ y a', a = y :: a' ∧ y.1 ∈ [116; 99; 103; 115].
Proof.
  intros Hw H2. assert (Forall (λ w, forallb (λ c, re_token (seg_of c)) (bytes w) = true ∧
    ∃ c cs, bytes w = c :: cs ∧ rune_at c ∈ [116; 99; 103; 115]) credential_words) as Hall.
  { repeat constructor; eexists _, _; (split; [reflexivity|]); vm_compute;
      repeat first [by left|right]. }
  rewrite Forall_forall in Hall. destruct (Hall w Hw) as (Ht & c & cs & Hc & Hin). split.
  - clear -Ht H2. induction H2 as [|c y cs a Hy _ IH]; [constructor|]. simpl in Ht. apply andb_true_iff in Ht as [Hc Hcs].
    constructor; [|by apply IH]. apply Z.eqb_eq in Hy. unfold re_token, seg_of, rune_at in *. simpl in *. by rewrite <- Hy.
  - rewrite Hc in H2. apply Forall2_cons_inv_l in H2 as (y & a' & Hy & _ & ->). exists y, a'. split; [done|].
    apply Z.eqb_eq in Hy. by rewrite <- Hy.
Qed.

Lemma credential_word_match l w n t : credential_word l w = Some (n, t) →
  ∃ m rest, l = m ++ rest ∧ n = length m ∧ (0 < n)%nat ∧ t = redacted ∧
    (∃ x, last m = Some x ∧ re_token x = true) ∧ (∀ x r, rest = x :: r → re_token x = false) ∧
    ∃ a x b, l = a ++ x :: b ∧ Forall2 (λ c y, (rune_at c =? y.1) = true) (bytes w) a ∧ re_token x = true.
Proof.
  intros ([a b] & [-> Ha]%strip_spec & Hm)%bind_Some. pose proof (span_app re_token b) as Hb. pose proof (span_true re_token b) as Ht.
  pose proof (span_stops re_token b) as Hs. destruct (span re_token b) as [v rest]. simpl in *.
  destruct v as [|x v]; [done|]. injection Hm as <- <-. exists (a ++ x :: v), rest. subst b. split_and!; try done.
  - by rewrite <- app_assoc.
  - by rewrite length_app.
  - simpl. lia.
  - rewrite last_app. destruct (last (x :: v)) as [z|] eqn:Hz; [|by apply last_None in Hz]. exists z. split; [done|].
    rewrite Forall_forall in Ht. apply Ht. by apply last_Some_elem_of.
  - exists a, x, (v ++ rest). by apply Forall_cons in Ht as [? _].
Qed.
Lemma credential_at_match prev l n t : credential_at prev l = Some (n, t) →
  ∃ m rest, l = m ++ rest ∧ n = length m ∧ (0 < n)%nat ∧ t = redacted ∧
    (∃ x, last m = Some x ∧ re_token x = true) ∧ (∀ x r, rest = x :: r → re_token x = false).
Proof.
  unfold credential_at. destruct (at_boundary prev); [|done]. intros (w & _ & Hm)%first_some_spec.
  apply credential_word_match in Hm as (m & rest & ? & ? & ? & ? & ? & ? & _). eauto 10.
Qed.
Lemma credential_at_spec prev l : credential_at prev l = None ↔ ¬ (at_boundary prev = true ∧ credential_here l).
Proof.
  unfold credential_at. destruct (at_boundary prev); [|naive_solver]. rewrite first_some_none. split.
  - intros H [_ (w & a & x & b & Hw & -> & Ha & Hx)]. specialize (H w Hw). unfold credential_word in H.
    rewrite (proj2 (strip_spec Z.eqb (bytes w) _ a (x :: b))) in H by done. simpl in H. rewrite Hx in H. by destruct (span re_token b).
  - intros H w Hw. destruct (credential_word l w) as [[n t]|] eqn:Hm; [|done]. exfalso. apply H. split; [done|].
    apply credential_word_match in Hm as (_ & _ & _ & _ & _ & _ & _ & _ & a & x & b & -> & ? & ?). by exists w, a, x, b.
Qed.

(** A credential lies within the characters of a token. *)
Lemma credential_here_app l r : credential_here l → credential_here (l ++ r).
Proof. intros (w & a & x & b & ? & -> & ? & ?). exists w, a, x, (b ++ r). by rewrite <- app_assoc. Qed.
Lemma prefix_before {A} (P : A → bool) p b l y r : Forall (λ x, P x = true) p → P y = false → p ++ b = l ++ y :: r → ∃ k, l = p ++ k.
Proof.
  intros Hp Hy. revert l. induction Hp as [|x p Hx _ IH]; intros l Heq; [by exists l|].
  destruct l as [|z l]; simpl in Heq; injection Heq as -> Heq; [congruence|]. destruct (IH l Heq) as [k ->]. by exists k.
Qed.
Lemma credential_here_cut l y r : re_token y = false → credential_here (l ++ y :: r) → credential_here l.
Proof.
  intros Hy (w & a & x & b & Hw & Heq & Ha & Hx). destruct (words_are_tokens w a Hw Ha) as [Ht _].
  destruct (prefix_before re_token (a ++ [x]) b l y r) as [k ->]; [apply Forall_app; by split; [|constructor]|done|by rewrite <- app_assoc|].
  exists w, a, x, k. by rewrite <- app_assoc.
Qed.
Lemma credential_here_head y l : credential_here (y :: l) → re_token y = true ∧ y.1 ∈ [116; 99; 103; 115].
Proof.
  intros (w & a & x & b & Hw & Heq & Ha & _). destruct (words_are_tokens w a Hw Ha) as [Ht (z & a' & -> & Hz)].
  injection Heq as -> _. apply Forall_cons in Ht as [Ht _]. done.
Qed.
Lemma credential_here_nil : ¬ credential_here [].
Proof. intros (w & [|] & x & b & _ & Heq & _ & _); done. Qed.

(** ** Replacement *)

Lemma before_cons prev x l : before prev (x :: l) = before (Some x.1) l.
Proof. unfold before. rewrite last_cons. by destruct (last l). Qed.
Lemma before_app prev l r : before prev (l ++ r) = before (before prev l) r.
Proof. unfold before. rewrite last_app. by destruct (last r). Qed.

Lemma replace_skip m prev k l : (k ≤ length l)%nat →
  replace_matches m prev k l = replace_matches m (before prev (take k l)) 0 (drop k l).
Proof.
  revert prev l. induction k as [|k IH]; intros prev l Hk; [done|]. destruct l as [|x l]; simpl in Hk; [lia|].
  cbn [replace_matches take drop]. rewrite IH by lia. by rewrite before_cons.
Qed.
Lemma replace_none m prev l : (∀ a b, l = a ++ b → m (before prev a) b = None) → replace_matches m prev 0 l = seg_text l.
Proof.
  revert prev. induction l as [|x l IH]; intros prev H; [done|]. cbn [replace_matches].
  rewrite (H [] (x :: l) eq_refl : m prev (x :: l) = None). change (seg_text (x :: l)) with (x.2 +:+ seg_text l). f_equal.
  apply IH. intros a b ->. rewrite <- (before_cons prev). by apply (H (x :: a)).
Qed.

(** A text up to the first match of a scanner that consumes what it matches. *)
Definition consuming (m : option Z → list seg → option (nat * string)) : Prop :=
  ∀ prev l n t, m prev l = Some (n, t) → ∃ k rest, l = k ++ rest ∧ n = length k ∧ k ≠ [].
Lemma first_match m l prev : consuming m → (∀ p, m p [] = None) →
  (∀ a b, l = a ++ b → m (before prev a) b = None) ∨
  ∃ r k rest t, l = r ++ k ++ rest ∧ k ≠ [] ∧ m (before prev r) (k ++ rest) = Some (length k, t) ∧
    (∀ a b, l = a ++ b → (length a < length r)%nat → m (before prev a) b = None) ∧
    replace_matches m prev 0 l = seg_text r +:+ t +:+ replace_matches m (before prev (r ++ k)) 0 rest.
Proof.
  intros Hc Hnil. revert prev. induction l as [|x l IH]; intros prev.
  { left. intros a b [-> ->]%eq_sym%app_nil. apply Hnil. }
  destruct (m prev (x :: l)) as [[n t]|] eqn:Hm.
  - right. destruct (Hc _ _ _ _ Hm) as (k & rest & Heq & -> & Hne). exists [], k, rest, t.
    split_and!; try done; [change (before prev []) with prev; by rewrite <- Heq|intros a b _ Ha; simpl in Ha; lia|].
    destruct k as [|y k]; [done|]. injection Heq as <- ->. cbn [replace_matches]. rewrite Hm. simpl length. cbv iota.
    rewrite replace_skip by (rewrite length_app; lia). by rewrite take_app_length, drop_app_length, app_nil_l, before_cons.
  - destruct (IH (Some x.1)) as [Hnone|(r & k & rest & t & -> & Hne & Hat & Hbefore & Hb)].
    + left. intros [|y a] b Heq; [by simpl in Heq; subst b|]. injection Heq as <- Heq. rewrite before_cons. by apply Hnone.
    + right. exists (x :: r), k, rest, t. split_and!; try done; [by rewrite before_cons| |].
      * intros [|y a] b Heq Hlen; [by simpl in Heq; subst b|]. injection Heq as <- Heq. rewrite before_cons. apply Hbefore; [done|simpl in Hlen; lia].
      * cbn [replace_matches]. rewrite Hm, Hb. change (seg_text (x :: r)) with (x.2 +:+ seg_text r). by rewrite string_app_assoc, <- app_comm_cons, before_cons.
Qed.

Abbreviation blot := (replace_matches credential_at).
Lemma credential_consuming : consuming credential_at.
Proof.
  intros prev l n t (k & rest & -> & -> & Hpos & _)%credential_at_match. exists k, rest. split_and!; try done. intros ->. simpl in Hpos. lia.
Qed.
Lemma credential_nil prev : credential_at prev [] = None.
Proof. apply credential_at_spec. intros [_ []%credential_here_nil]. Qed.

(** A text up to its first credential. *)
Lemma first_credential l prev :
  (∀ a b, l = a ++ b → credential_at (before prev a) b = None) ∨
  ∃ r m rest, l = r ++ m ++ rest ∧ m ≠ [] ∧ (∀ x k, rest = x :: k → re_token x = false) ∧
    (∀ a b, l = a ++ b → (length a < length r)%nat → credential_at (before prev a) b = None) ∧
    credential_at (before prev r) (m ++ rest) ≠ None ∧
    blot prev 0 l = seg_text r +:+ redacted +:+ blot (before prev (r ++ m)) 0 rest.
Proof.
  destruct (first_match credential_at l prev credential_consuming credential_nil) as [?|(r & m & rest & t & -> & Hne & Hm & Hbefore & Hb)]; [by left|right].
  exists r, m, rest. destruct (credential_at_match _ _ _ _ Hm) as (m' & rest' & Heq & Hlen & _ & -> & _ & Hrest).
  apply app_inj_1 in Heq as [-> ->]; [|done]. split_and!; try done. by rewrite Hm.
Qed.

Lemma redacted_ascii : Forall (λ c, byte_val c < 128) (bytes redacted).
Proof. repeat constructor. Qed.
Lemma redacted_plain : Forall (λ y : seg, y.1 ∉ [116; 99; 103; 115]) (segments redacted).
Proof. apply Forall_forall. intros y Hy. apply (bool_decide_unpack _). revert y Hy. apply Forall_forall. vm_compute. repeat constructor. Qed.

Lemma app_shorter {A} (r d a b : list A) : r ++ d = a ++ b → (length a < length r)%nat → ∃ r2, r = a ++ r2 ∧ r2 ≠ [] ∧ b = r2 ++ d.
Proof.
  intros [(k & -> & ->)|(k & -> & ->)]%app_eq_inv Hlen; rewrite length_app in Hlen; [|lia].
  exists k. split_and!; try done. intros ->. simpl in Hlen. lia.
Qed.
Lemma app_longer {A} (r d a b : list A) : r ++ d = a ++ b → (length r ≤ length a)%nat → ∃ a2, a = r ++ a2 ∧ d = a2 ++ b.
Proof.
  intros [(k & -> & ->)|(k & -> & ->)]%app_eq_inv Hlen; [|by exists k]. rewrite length_app in Hlen.
  destruct k; [|simpl in Hlen; lia]. exists []. by rewrite !app_nil_r.
Qed.

(** What a scan that starts after [prev] leaves shows no credential. *)
Definition clean_after (prev : option Z) (out : list seg) : Prop := ∀ a b, out = a ++ b → credential_at (before prev a) b = None.

Lemma clean_blot r d out prev p' :
  (∀ a b, r ++ d = a ++ b → (length a < length r)%nat → ¬ (at_boundary (before prev a) = true ∧ credential_here b)) →
  (∀ y, y ∈ d → y.1 ∉ [116; 99; 103; 115]) → (∃ y d', d = y :: d' ∧ re_token y = false) →
  clean_after p' out → (∀ y out', out = y :: out' → re_token y = false) → clean_after prev (r ++ d ++ out).
Proof.
  intros Hr Hd (y0 & d' & Hd0 & Hy0) Hout Hhead a b Heq. apply credential_at_spec. intros [Hb Hc].
  destruct (decide (length a < length r)%nat) as [Hlt|Hge].
  - destruct (app_shorter _ _ _ _ Heq Hlt) as (r2 & -> & _ & ->). rewrite Hd0 in Hc. apply credential_here_cut in Hc; [|done].
    apply (Hr a (r2 ++ d)); [by rewrite <- app_assoc|done|]. split; [done|]. by apply credential_here_app.
  - destruct (app_longer _ _ _ _ Heq) as (a1 & -> & Hd1); [lia|]. clear Heq. rename Hd1 into Heq.
    apply app_eq_inv in Heq as [(d2 & -> & Heq)|(a2 & -> & Heq)].
    + destruct d2 as [|y d2]; simpl in Heq.
      * rewrite app_nil_r in *. subst b. destruct out as [|y out]; [by apply credential_here_nil in Hc|].
        apply credential_here_head in Hc as [Hc _]. by rewrite (Hhead y out) in Hc.
      * subst b. apply credential_here_head in Hc as [_ Hc]. apply (Hd y); [|done]. apply elem_of_app. right. by left.
    + rewrite !before_app in Hb. destruct a2 as [|y a2].
      { simpl in Heq. subst b. destruct out as [|y out]; [by apply credential_here_nil in Hc|].
        apply credential_here_head in Hc as [Hc _]. by rewrite (Hhead y out) in Hc. }
      specialize (Hout (y :: a2) b Heq). apply credential_at_spec in Hout. apply Hout. split; [|done].
      unfold before in Hb |- *. destruct (last (y :: a2)) eqn:Hl; [done|]. by apply last_None in Hl.
Qed.

Lemma blot_clean n l prev : (length l ≤ n)%nat → segments (seg_text l) = l →
  let out := segments (blot prev 0 l) in
  clean_after prev out ∧ (∀ y l', l = y :: l' → credential_at prev l = None → ∃ out', out = y :: out').
Proof.
  revert l prev. induction n as [|n IH]; intros l prev Hn Hseg.
  { destruct l; [|simpl in Hn; lia]. split; [|done]. intros a b [-> ->]%eq_sym%app_nil. apply credential_at_spec.
    intros [_ []%credential_here_nil]. }
  destruct (first_credential l prev) as [Hnone|(r & m & rest & Hl & Hne & Hrest & Hbefore & Hat & Hb)].
  { rewrite replace_none, Hseg by done. split; [done|]. intros y l' -> _. by exists l'. }
  assert (segments (seg_text r) = r) as Hr by (eapply segments_prefix; by rewrite Hseg).
  assert (segments (seg_text rest) = rest) as Hrest' by (eapply (segments_suffix (r ++ m)); rewrite Hseg, Hl; by rewrite app_assoc).
  destruct (IH rest (before prev (r ++ m))) as [Hclean Hhead]; [|done|].
  { apply (f_equal length) in Hl. rewrite !length_app in Hl. destruct m; [done|]. simpl in Hl. lia. }
  rewrite Hb, segments_app, Hr, segments_ascii_app by (done || exact redacted_ascii).
  set (out := segments (blot (before prev (r ++ m)) 0 rest)) in *. split.
  - apply (clean_blot r (segments redacted) out prev (before prev (r ++ m))).
    + intros a b Heq Hlen [Hbd Hc].
      destruct (app_shorter _ _ _ _ Heq Hlen) as (r2 & -> & _ & ->).
      specialize (Hbefore a (r2 ++ m ++ rest)). rewrite credential_at_spec in Hbefore. apply Hbefore; [by rewrite Hl, <- app_assoc|done|].
      split; [done|]. apply credential_here_app. apply (credential_here_cut r2 (91, "[") (segments "REDACTED]")); [done|exact Hc].
    + apply Forall_forall, redacted_plain.
    + by exists (91, "["), (segments "REDACTED]").
    + done.
    + intros y out' Hout. destruct rest as [|x rest].
      { unfold out in Hout. by simpl in Hout. }
      specialize (Hrest x rest eq_refl). destruct (Hhead x rest eq_refl) as [out2 Ho].
      { apply credential_at_spec. intros [_ [Hc _]%credential_here_head]. congruence. }
      rewrite Ho in Hout. by injection Hout as -> _.
  - intros y l' Hyl Hno. destruct r as [|x r].
    + exfalso. apply Hat. change (before prev []) with prev. rewrite Hl in Hno. exact Hno.
    + rewrite Hl in Hyl. injection Hyl as -> _. by eexists.
Qed.

(** A redacted text shows no credential. *)
Lemma redacted_credentials value : ¬ shows_credential (RedactSensitiveText value).
Proof.
  intros (a & b & Heq & Hb & Hc). unfold RedactSensitiveText in Heq. set (v := replace_matches sensitive_at None 0 (segments value)) in *.
  destruct (blot_clean (length (segments v)) (segments v) None) as [Hclean _]; [done|unfold seg_text; by rewrite concat_segments|].
  specialize (Hclean a b Heq). apply credential_at_spec in Hclean. by apply Hclean.
Qed.

(** ** Summaries *)

(** No byte of a line is a control character of ASCII. *)
Definition printable (c : ascii) : Prop := 32 <= byte_val c ∧ byte_val c ≠ 127.
Definition one_line (s : string) : Prop := Forall printable (bytes s).

Lemma bytes_app a b : bytes (a +:+ b) = bytes a ++ bytes b.
Proof. induction a as [|c a IH]; [done|]. change (bytes (String c a +:+ b)) with (c :: bytes (a +:+ b)). by rewrite IH. Qed.

(** ** Visible ASCII characters *)

Definition visible (c : ascii) : Prop := 33 <= byte_val c <= 126.
Lemma ascii_segments s : Forall (λ c, byte_val c < 128) (bytes s) → segments s = (λ c, (byte_val c, String c "")) <$> bytes s.
Proof.
  induction s as [|c s IH]; intros H; [done|]. change (bytes (String c s)) with (c :: bytes s) in *. apply Forall_cons in H as [Hc Hs].
  rewrite segments_ascii by done. by rewrite IH.
Qed.
Lemma visible_not_space c : visible c → is_space (byte_val c) = false.
Proof. unfold visible, is_space, in_range. intros H. repeat (apply orb_false_iff; split); lia. Qed.
Lemma trim_line s : Forall visible (bytes s) → trim_space (s +:+ String (byte_of 10) "") = s.
Proof.
  intros Hs. assert (Forall (λ c, byte_val c < 128) (bytes s)) as Hlow by (eapply Forall_impl; [exact Hs|]; unfold visible; lia).
  unfold trim_space. rewrite (ascii_segments (s +:+ String (byte_of 10) "")).
  2: { rewrite bytes_app. apply Forall_app. split; [done|]. by repeat constructor. }
  rewrite bytes_app, fmap_app. change (bytes (String (byte_of 10) "")) with [byte_of 10]. cbn [fmap list_fmap].
  rewrite <- (concat_segments s) at 2. rewrite (ascii_segments s) by done.
  set (l := (λ c, (byte_val c, String c "")) <$> bytes s).
  assert (Forall (λ q : Z * string, is_space q.1 = false) l) as Hl.
  { unfold l. apply Forall_fmap. eapply Forall_impl; [exact Hs|]. intros c Hc. by apply visible_not_space. }
  do 2 f_equal. destruct l as [|x l]; [done|]. apply Forall_cons in Hl as [Hx Hl]. cbn [app]. rewrite drop_while_id by done.
  change (x :: l ++ [(byte_val (byte_of 10), String (byte_of 10) "")]) with ((x :: l) ++ [(byte_val (byte_of 10), String (byte_of 10) "")]).
  rewrite drop_while_end_snoc. match goal with |- (if ?b then _ else _) = _ => change b with true end. cbn iota. pose proof (drop_while_none (λ q : Z * string, is_space q.1) (x :: l)) as Hn.
  rewrite drop_while_id in Hn by done. apply Hn. by constructor.
Qed.
Lemma has_prefix_split s p : has_prefix s p = true ↔ ∃ x, s = p +:+ x ∧ drop_bytes (String.length p) s = x.
Proof.
  unfold has_prefix. revert s. induction p as [|c p IH]; intros s.
  - split; [|by destruct s]. intros _. exists s. by destruct s.
  - destruct s as [|a s]; cbn [String.prefix]; [split; [done|by intros (x & ? & _)]|]. destruct (ascii_dec c a) as [->|Hne].
    + rewrite IH. cbn [String.length drop_bytes]. split; intros (x & H1 & H2); exists x; (split; [|done]); rewrite string_cons_app in *; [by rewrite H1|by injection H1].
    + split; [done|]. intros (x & [= -> _] & _). done.
Qed.
Lemma one_line_app a b : one_line (a +:+ b) ↔ one_line a ∧ one_line b.
Proof. unfold one_line. rewrite bytes_app. apply Forall_app. Qed.
Lemma one_line_concat l : one_line (concat_strings l) ↔ Forall one_line l.
Proof.
  induction l as [|s l IH]; [split; constructor|]. change (concat_strings (s :: l)) with (s +:+ concat_strings l).
  by rewrite one_line_app, IH, Forall_cons.
Qed.
Lemma one_line_segments s : one_line s → Forall one_line (segments s).*2.
Proof. intros H. apply one_line_concat. by rewrite concat_segments. Qed.
Lemma one_line_join l : Forall one_line l → one_line (join " " l).
Proof.
  induction 1 as [|x l Hx Hl IH]; [constructor|]. destruct l as [|y l]; [done|].
  change (join " " (x :: y :: l)) with (x +:+ " " +:+ join " " (y :: l)). rewrite !one_line_app. split_and!; try done.
  repeat constructor; done.
Qed.
Lemma one_line_redacted : one_line redacted.
Proof. repeat constructor; done. Qed.

(** Replacing keeps a line a line, when the replacements are lines. *)
Lemma one_line_replace m : (∀ prev l n t, Forall one_line l.*2 → m prev l = Some (n, t) → one_line t) →
  ∀ l prev skip, Forall one_line l.*2 → one_line (replace_matches m prev skip l).
Proof.
  intros Hm l. induction l as [|x l IH]; intros prev skip Hl; [constructor|]. pose proof Hl as [Hx Hl']%Forall_cons.
  destruct skip as [|k]; cbn [replace_matches]; [|by apply IH].
  destruct (m prev (x :: l)) as [[[|k] t]|] eqn:Hmx; rewrite one_line_app; (split; [|by apply IH]); try done. exact (Hm _ _ _ _ Hl Hmx).
Qed.
Lemma sensitive_line prev l n t : Forall one_line l.*2 → sensitive_at prev l = Some (n, t) → one_line t.
Proof.
  intros Hl (w & _ & ([word l1] & [-> _]%strip_spec & Hm)%bind_Some)%first_some_spec.
  pose proof (span_app re_space l1) as H1. destruct (span re_space l1) as [sp1 l2]. simpl in H1. subst l1.
  destruct l2 as [|c l3]; [done|]. destruct ((c.1 =? 58) || (c.1 =? 61)); [|done].
  pose proof (span_app re_space l3) as H3. destruct (span re_space l3) as [sp2 l4]. simpl in H3. subst l3.
  destruct ((span re_value l4).1) as [|y value]; [done|]. injection Hm as _ <-. apply one_line_app. split; [|exact one_line_redacted].
  apply one_line_concat. revert Hl. rewrite !fmap_app, !fmap_cons, !fmap_app, !Forall_app, !Forall_cons, !Forall_app. tauto.
Qed.
Lemma one_line_redact v : one_line v → one_line (RedactSensitiveText v).
Proof.
  intros Hv. unfold RedactSensitiveText. apply one_line_replace.
  - intros prev l n t _ Ht. apply credential_at_match in Ht as (_ & _ & _ & _ & _ & -> & _). exact one_line_redacted.
  - apply one_line_segments, one_line_replace; [apply sensitive_line|by apply one_line_segments].
Qed.

(** A rune whose encoding is printable. *)
Definition plain_rune (r : Z) : Prop := in_range 0 31 r = false ∧ r ≠ 127.
Lemma encode_line r : plain_rune r → one_line (encode_rune r).
Proof.
  intros [Hr Hd]. unfold in_range in Hr. unfold encode_rune, in_range, one_line. repeat case_match;
    cbn [bytes String.list_ascii_of_string]; rewrite !Forall_cons, Forall_nil; unfold printable;
    rewrite ?byte_val_of by div_lia; div_lia.
Qed.
Lemma encode_length r : (String.length (encode_rune r) ≤ 4)%nat.
Proof. unfold encode_rune. repeat case_match; simpl; lia. Qed.
Lemma decode_plain s : one_line s → s ≠ EmptyString → plain_rune (decode_rune s).1.
Proof.
  intros Hs Hne. destruct s as [|c0 s]; [done|]. apply Forall_cons in Hs as [[Hc Hc'] _]. unfold plain_rune, in_range.
  assert (∀ b, 128 <= b -> (in_range 0 31 b = false ∧ b ≠ 127)) as Hbig by (intros b Hb; unfold in_range; lia).
  assert (∀ b, Z.land b 31 = b mod 32) as H31 by (intros b; exact (Z.land_ones b 5 ltac:(lia))).
  assert (∀ b, Z.land b 15 = b mod 16) as H15 by (intros b; exact (Z.land_ones b 4 ltac:(lia))).
  assert (∀ b, Z.land b 7 = b mod 8) as H7 by (intros b; exact (Z.land_ones b 3 ltac:(lia))).
  assert (∀ b, Z.land b 63 = b mod 64) as H63 by (intros b; exact (Z.land_ones b 6 ltac:(lia))).
  unfold decode_rune. pose proof (byte_val_range c0) as Hr0.
  destruct s as [|c1 [|c2 [|c3 s]]]; repeat case_match; cbn [fst]; try (unfold RuneError; lia);
    try (apply Hbig; rewrite ?H31, ?H15, ?H7, ?H63; unfold in_range, is_cont in *; div_lia); unfold in_range, is_cont in *; lia.
Qed.

Lemma runes_plain s : one_line s → Forall plain_rune (runes s).
Proof.
  unfold runes. induction s as [|s Hs IH] using segments_ind; intros Hl; [constructor|].
  rewrite segments_cons by done. constructor; [by apply decode_plain|]. apply IH.
  rewrite <- (take_drop_bytes (decode_rune s).2 s) in Hl. apply one_line_app in Hl as [_ Hl]; exact Hl.
Qed.
Lemma decode_width_4 s : ((decode_rune s).2 ≤ 4)%nat.
Proof. destruct s as [|c0 s1]; [simpl; lia|]. unfold decode_rune. destruct s1 as [|c1 [|c2 [|c3 s4]]]; repeat case_match; simpl; lia. Qed.
Lemma length_runes s : (String.length s ≤ 4 * length (runes s))%nat.
Proof.
  unfold runes. rewrite length_fmap. induction s as [|s Hs IH] using segments_ind; [done|]. rewrite segments_cons by done.
  rewrite length_drop_bytes in IH. pose proof (decode_width_4 s). simpl length. lia.
Qed.
Lemma string_of_runes_line l : Forall plain_rune l → one_line (string_of_runes l).
Proof. intros H. apply one_line_concat, Forall_fmap. eapply Forall_impl; [exact H|]. apply encode_line. Qed.
Lemma length_string_of_runes l : (String.length (string_of_runes l) ≤ 4 * length l)%nat.
Proof.
  induction l as [|r l IH]; [done|]. change (string_of_runes (r :: l)) with (encode_rune r +:+ string_of_runes l).
  rewrite length_string_app. pose proof (encode_length r). simpl length. lia.
Qed.
Lemma blank_controls_line value : one_line (blank_controls value).
Proof.
  apply string_of_runes_line, Forall_fmap, Forall_forall. intros r _. unfold plain_rune, compose, is_control, in_range.
  destruct (((0 <=? r) && (r <=? 31) || (127 <=? r) && (r <=? 159)) || is_space r) eqn:He; lia.
Qed.
Lemma fields_line word l : one_line word → Forall one_line l.*2 → Forall one_line (fields_of word l).
Proof.
  revert word. induction l as [|x l IH]; intros word Hw Hl; simpl.
  - case_bool_decide; repeat constructor; done.
  - apply Forall_cons in Hl as [Hx Hl]. destruct (is_space x.1); [case_bool_decide; [|constructor; [done|]]; (apply IH; [constructor|done])|].
    apply IH; [|done]. by apply one_line_app.
Qed.

(** A summary is one short line.  Whatever the text (an error, a tool's
    output), its summary holds no control character of ASCII and at most
    1283 bytes: 320 runes of at most four bytes and an ellipsis. *)
Theorem safe_summary_bounded value : len (SafeSummary value) <= 1283 ∧ one_line (SafeSummary value).
Proof.
  unfold SafeSummary. set (v := RedactSensitiveText _). assert (one_line v) as Hv.
  { apply one_line_redact, one_line_join, fields_line; [constructor|]. apply one_line_segments, blank_controls_line. }
  unfold len. destruct (MaxSummaryRunes <? length (runes v))%nat eqn:Hlt.
  - rewrite length_string_app, one_line_app. pose proof (length_string_of_runes (take MaxSummaryRunes (runes v))) as Hlen.
    rewrite length_take in Hlen. unfold MaxSummaryRunes in *. split; [change (String.length ellipsis) with 3%nat; lia|]. split.
    + by apply string_of_runes_line, Forall_take, runes_plain.
    + apply encode_line. split; [done|lia].
  - split; [|done]. apply Nat.ltb_ge in Hlt. pose proof (length_runes v). unfold MaxSummaryRunes in *. lia.
Qed.

(** So is the diagnostic of a failed program: the summary of its last line
    whose summary is not empty, or nothing when no line has one. *)
Theorem diagnostic_bounded data : len (Diagnostic data) <= 1283 ∧ one_line (Diagnostic data).
Proof.
  unfold Diagnostic. destruct (first_some _ _) as [s|] eqn:Hs; [|split; [done|constructor]].
  apply first_some_spec in Hs as (line & _ & Hs). case_bool_decide; [done|]. injection Hs as <-. apply safe_summary_bounded.
Qed.
End redact.
