(* ===== verification/RedactHides.v ===== *)
(** * Redaction hides what it is meant to hide

    In a redacted text every value that follows a sensitive word is the
    redaction mark and no more, and no credential is left.  Each pass is the
    replacement of the leftmost matches of its expression, each as long as it
    can be, and nothing else is changed. *)

From S2P Require Import Prelude GoString Sha256 GoStringFacts Redact RedactFacts.
From Stdlib Require Import Ascii ZifyBool.

Local Open Scope Z_scope.

Section hides.
Context `{UT : UnicodeTables}.

Abbreviation red := (segments redacted).
Definition is_sign (c : seg) : Prop := c.1 = 58 ∨ c.1 = 61.

(** [l] starts with a sensitive word, spaces, [:] or [=] and spaces, and [v]
    is the value that follows. *)
Definition sensitive_here (l v : list seg) : Prop :=
  ∃ w word sp1 c sp2 x v', w ∈ sensitive_words ∧ l = (word ++ sp1 ++ c :: sp2) ++ v ∧ v = x :: v' ∧ re_value x = true ∧
    Forall2 (λ c y, fold_eqb (rune_at c) y.1 = true) (bytes w) word ∧
    Forall (λ y, re_space y = true) sp1 ∧ is_sign c ∧ Forall (λ y, re_space y = true) sp2.
(** No character of a value is next. *)
Definition value_over (l : list seg) : Prop := ∀ y l', l = y :: l' → re_value y = false.
(** Every sensitive value in [l] is the mark and no more. *)
Definition hides (l : list seg) : Prop := ∀ a b v, l = a ++ b → sensitive_here b v → ∃ rest, v = red ++ rest ∧ value_over rest.
(** So it is in a text that goes on after [r]. *)
Definition hides_on (r : list seg) : Prop :=
  ∀ a b v, r = a ++ b → sensitive_here b v → ∃ y rest, v = red ++ y :: rest ∧ re_value y = false.

Definition not_sign (y : seg) : Prop := y.1 ≠ 58 ∧ y.1 ≠ 61.
Lemma words_plain w word : w ∈ sensitive_words → Forall2 (λ c y, fold_eqb (rune_at c) y.1 = true) (bytes w) word →
  Forall (λ y : seg, not_sign y ∧ y.1 ≠ 91) word.
Proof.
  intros Hw H2. assert (Forall (λ w, Forall (λ c, rune_fold (rune_at c) ∉ [58; 61; 91]) (bytes w)) sensitive_words) as Hall.
  { apply (bool_decide_unpack _). by vm_compute. }
  rewrite Forall_forall in Hall. specialize (Hall w Hw). clear Hw. induction H2 as [|c y cs word Hy _ IH]; [constructor|].
  apply Forall_cons in Hall as [Hc Hcs]. constructor; [|by apply IH]. apply Z.eqb_eq in Hy. unfold not_sign.
  assert (∀ k, k ∈ [58; 61; 91] → rune_fold k = k) as Hfix by (intros k; rewrite !elem_of_cons, elem_of_nil; by intros [->|[->|[->|[]]]]).
  split_and!; intros Hk; apply Hc; rewrite Hy, Hk, Hfix by (rewrite !elem_of_cons; auto); rewrite !elem_of_cons; auto.
Qed.
Lemma space_plain (y : seg) : re_space y = true → not_sign y ∧ y.1 ≠ 91 ∧ re_value y = false.
Proof. unfold re_value, re_space, not_sign, in_range. lia. Qed.

(** What stands before a value: no bracket, and a sign followed by spaces. *)
Lemma here_shape l v : sensitive_here l v → ∃ u c sp, l = (u ++ c :: sp) ++ v ∧ is_sign c ∧ Forall (λ y, re_space y = true) sp ∧
  Forall (λ y : seg, y.1 ≠ 91) (u ++ c :: sp) ∧ ∃ x v', v = x :: v' ∧ re_value x = true.
Proof.
  intros (w & word & sp1 & c & sp2 & x & v' & Hw & -> & -> & Hx & H2 & Hs1 & Hc & Hs2). exists (word ++ sp1), c, sp2.
  rewrite <- (app_assoc word sp1). split_and!; try done; [|by eexists _, _].
  assert (∀ sp, Forall (λ y, re_space y = true) sp → Forall (λ y : seg, y.1 ≠ 91) sp) as Hsp.
  { intros sp H. eapply Forall_impl; [exact H|]. by intros y (_ & ? & _)%space_plain. }
  rewrite !Forall_app, Forall_cons. split_and!; [|by apply Hsp|unfold is_sign in Hc; lia|by apply Hsp].
  eapply Forall_impl; [exact (words_plain w word Hw H2)|]. by intros y [_ ?].
Qed.
Lemma here_extend b v k : sensitive_here b v → sensitive_here (b ++ k) (v ++ k).
Proof.
  intros (w & word & sp1 & c & sp2 & x & v' & Hw & -> & -> & H). exists w, word, sp1, c, sp2, x, (v' ++ k).
  split_and!; try done; [by rewrite <- !app_assoc|apply H..].
Qed.
(** Where the value of a match starts, in a text cut in two. *)
Lemma here_split b k v : sensitive_here (b ++ k) v →
  (∃ v', v = v' ++ k ∧ sensitive_here b v') ∨ v = k ∨ ∃ y k', k = y :: k' ∧ y.1 ≠ 91.
Proof.
  intros H. pose proof (here_shape _ _ H) as (u & c & sp & Heq & _ & _ & H91 & _).
  destruct H as (w & word & sp1 & c' & sp2 & x & v' & Hw & Hl & Hv & H). rewrite Hl in Heq. apply app_inv_tail in Heq. rewrite <- Heq in H91.
  apply app_eq_inv in Hl as [(b2 & -> & Hk)|(k1 & Hp & ->)].
  - destruct b2 as [|y b2]; [right; by left|]. left. exists (y :: b2). split; [done|]. simpl in Hk. rewrite Hv in Hk. injection Hk as -> ->.
    by exists w, word, sp1, c', sp2, y, b2.
  - destruct k1 as [|y k1]; [right; by left|]. right. right. exists y, (k1 ++ v). split; [done|].
    rewrite Hp in H91. apply Forall_app in H91 as [_ [? _]%Forall_cons]. done.
Qed.

(** A word needs two runes, and no suffix of the mark has its first two. *)
Definition starts_word (y z : seg) : bool :=
  existsb (λ w, match bytes w with c :: d :: _ => fold_eqb (rune_at c) y.1 && fold_eqb (rune_at d) z.1 | _ => false end) sensitive_words.
Lemma here_starts l v : sensitive_here l v → ∃ y z l', l = y :: z :: l' ∧ starts_word y z = true.
Proof.
  intros (w & word & sp1 & c & sp2 & x & v' & Hw & -> & _ & _ & H2 & _).
  assert (Forall (λ w, ∃ c d cs, bytes w = c :: d :: cs) sensitive_words) as Hall by (repeat constructor; by eexists _, _, _).
  rewrite Forall_forall in Hall. destruct (Hall w Hw) as (c1 & c2 & cs & Hcs). rewrite Hcs in H2.
  apply Forall2_cons_inv_l in H2 as (y & word1 & Hy & H2 & ->). apply Forall2_cons_inv_l in H2 as (z & word2 & Hz & _ & ->).
  eexists y, z, _. split; [reflexivity|]. apply existsb_exists. exists w. split; [by apply list_elem_of_In|]. by rewrite Hcs, Hy, Hz.
Qed.
Lemma mark_starts a1 d2 out v : red = a1 ++ d2 → d2 ≠ [] → ¬ sensitive_here (d2 ++ out) v.
Proof.
  intros Heq Hd (y & z & l' & Hl & Hw)%here_starts. vm_compute in Heq.
  assert (∀ z', starts_word (93, "]") z' = false) as Hlast by (intros z'; by vm_compute).
  do 9 (destruct a1 as [|? a1]; [simpl in Heq; subst d2; simpl in Hl; injection Hl as <- <- _; by vm_compute in Hw|]; injection Heq as <- Heq).
  destruct a1 as [|? a1]; [|injection Heq as <- Heq; by destruct a1, d2].
  simpl in Heq. subst d2. simpl in Hl. injection Hl as <- _. by rewrite Hlast in Hw.
Qed.

(** The mark joins two texts that hide their values, when nothing is left of
    the value it hides. *)
Lemma hides_join r out : hides_on r → hides out →
  (∀ a b, r = a ++ b → sensitive_here (b ++ red ++ out) (red ++ out) → value_over out) → hides (r ++ red ++ out).
Proof.
  intros Hr Hout Hover a b v Heq Hh. apply app_eq_inv in Heq as [(r2 & -> & ->)|(a1 & -> & Heq)].
  - apply here_split in Hh as Hcase. destruct Hcase as [(v' & -> & Hh')|[->|(y & k' & Hy & H91)]]; [|exists out; by split; [|eapply Hover]|injection Hy as <- _; done].
    destruct (Hr a r2 v' eq_refl Hh') as (y & rest & -> & Hy). exists (y :: rest ++ red ++ out). split; [by rewrite <- app_assoc|].
    by intros z l' [= <- _].
  - apply app_eq_inv in Heq as [(d2 & Hd & ->)|(a2 & -> & Heq)]; [|by eapply Hout].
    destruct d2 as [|y d2]; [by apply (Hout [] out v eq_refl)|]. by apply (mark_starts a1 (y :: d2)) in Hh.
Qed.

(** ** What a pass does *)

(** A match of [sensitiveValue]: what it keeps, and the value it hides, which
    goes on as long as it can. *)
Definition sensitive_match (prev : option Z) (l kept secret rest : list seg) : Prop :=
  ∃ w word sp1 c sp2, w ∈ sensitive_words ∧ kept = word ++ sp1 ++ c :: sp2 ∧ l = kept ++ secret ++ rest ∧
    Forall2 (λ c y, fold_eqb (rune_at c) y.1 = true) (bytes w) word ∧
    Forall (λ y, re_space y = true) sp1 ∧ is_sign c ∧ Forall (λ y, re_space y = true) sp2 ∧
    secret ≠ [] ∧ Forall (λ y, re_value y = true) secret ∧ value_over rest.
(** A match of [credentialValue], at a word boundary; it keeps nothing. *)
Definition credential_match (prev : option Z) (l kept secret rest : list seg) : Prop :=
  at_boundary prev = true ∧ kept = [] ∧ l = secret ++ rest ∧
  ∃ w word value, w ∈ credential_words ∧ secret = word ++ value ∧ Forall2 (λ c y, (rune_at c =? y.1) = true) (bytes w) word ∧
    value ≠ [] ∧ Forall (λ y, re_token y = true) value ∧ ∀ y l', rest = y :: l' → re_token y = false.

(** The text [out] is the text of [l] with the leftmost matches hidden, one
    after the other, and all the rest unchanged. *)
Inductive hidden (matches : option Z → list seg → list seg → list seg → list seg → Prop) : option Z → list seg → string → Prop :=
  | hidden_none prev l : (∀ a b kept secret rest, l = a ++ b → ¬ matches (before prev a) b kept secret rest) →
      hidden matches prev l (seg_text l)
  | hidden_some prev l r kept secret rest out : l = r ++ kept ++ secret ++ rest →
      matches (before prev r) (kept ++ secret ++ rest) kept secret rest →
      (∀ a b k s t, l = a ++ b → (length a < length r)%nat → ¬ matches (before prev a) b k s t) →
      hidden matches (before prev (r ++ kept ++ secret)) rest out →
      hidden matches prev l (seg_text r +:+ seg_text kept +:+ redacted +:+ out).

(** A scanner that finds exactly the matches. *)
Record scans (m : option Z → list seg → option (nat * string)) (matches : option Z → list seg → list seg → list seg → list seg → Prop) : Prop := mkScans {
  sc_found : ∀ prev l n t, m prev l = Some (n, t) → ∃ kept secret rest, matches prev l kept secret rest ∧ l = kept ++ secret ++ rest ∧
    n = length (kept ++ secret) ∧ secret ≠ [] ∧ t = seg_text kept +:+ redacted;
  sc_none : ∀ prev l kept secret rest, m prev l = None → ¬ matches prev l kept secret rest }.
Lemma scans_consuming m matches : scans m matches → consuming m ∧ ∀ p, m p [] = None.
Proof.
  intros [Hf _]. split.
  - intros prev l n t (kept & secret & rest & _ & -> & -> & Hne & _)%Hf. exists (kept ++ secret), rest. rewrite <- app_assoc.
    split_and!; [done|done|]. by intros [_ ?]%app_nil.
  - intros p. destruct (m p []) as [[n t]|] eqn:Hm; [|done]. apply Hf in Hm as (kept & secret & rest & _ & Hl & _ & Hne & _).
    symmetry in Hl. apply app_nil in Hl as [_ [? _]%app_nil]. done.
Qed.
Lemma scans_hidden m matches n l prev : scans m matches → (length l ≤ n)%nat → hidden matches prev l (replace_matches m prev 0 l).
Proof.
  intros Hs. destruct (scans_consuming _ _ Hs) as [Hc Hnil]. revert l prev. induction n as [|n IH]; intros l prev Hn;
    (destruct (first_match m l prev Hc (λ p, Hnil p)) as [Hnone|(r & k & rest & t & Hl & Hne & Hm & Hbefore & Hb)];
      [rewrite replace_none by done; apply hidden_none; intros a b kept secret rest ->; eapply (sc_none _ _ Hs), Hnone; done|]).
  { destruct l; [|simpl in Hn; lia]. symmetry in Hl. by apply app_nil in Hl as [_ [? _]%app_nil]. }
  destruct (sc_found _ _ Hs _ _ _ _ Hm) as (kept & secret & rest' & Hmatch & Heq & Hlen & Hne' & ->).
  rewrite (app_assoc kept) in Heq. apply app_inj_1 in Heq as [-> <-]; [|done]. rewrite Hb, (string_app_assoc (seg_text kept)).
  rewrite <- (app_assoc kept) in Hl, Hmatch. eapply (hidden_some _ _ _ r kept secret rest); [done|done| |].
  - intros a b k s t Hab Hlt. eapply (sc_none _ _ Hs), Hbefore; done.
  - apply IH. apply (f_equal length) in Hl. rewrite !length_app in Hl. destruct secret; [done|]. simpl in Hl. lia.
Qed.

(** ** The first pass *)

Lemma span_exact {A} (p : A → bool) a b : Forall (λ x, p x = true) a → (∀ x r, b = x :: r → p x = false) → span p (a ++ b) = (a, b).
Proof.
  intros Ha Hb. induction Ha as [|x a Hx _ IH]; simpl; [|by rewrite Hx, IH].
  destruct b as [|y b]; [done|]. simpl. by rewrite (Hb y b).
Qed.
Lemma here_match l v prev : sensitive_here l v → sensitive_at prev l ≠ None.
Proof.
  intros (w & word & sp1 & c & sp2 & x & v' & Hw & -> & -> & Hx & H2 & Hs1 & Hc & Hs2) Hnone.
  unfold sensitive_at in Hnone. rewrite first_some_none in Hnone. specialize (Hnone w Hw). unfold sensitive_word in Hnone.
  rewrite (proj2 (strip_spec fold_eqb (bytes w) _ word (sp1 ++ c :: sp2 ++ x :: v'))) in Hnone by (by rewrite <- !app_assoc).
  cbn [mbind option_bind] in Hnone. rewrite span_exact in Hnone; [|done|intros y r [= <- _]; unfold is_sign, re_space, in_range in *; lia].
  assert ((c.1 =? 58) || (c.1 =? 61) = true) as Hcb by (unfold is_sign in Hc; lia). rewrite Hcb in Hnone.
  rewrite span_exact in Hnone; [|done|intros y r [= <- _]; destruct (re_space x) eqn:He; [by apply space_plain in He as (_ & _ & ?); congruence|done]].
  simpl in Hnone. rewrite Hx in Hnone. by destruct (span re_value v').
Qed.
Lemma sensitive_scans : scans sensitive_at sensitive_match.
Proof.
  split.
  2: { intros prev l kept secret rest Hnone (w & word & sp1 & c & sp2 & Hw & -> & -> & H2 & Hs1 & Hc & Hs2 & Hne & Hv & _).
       destruct secret as [|x secret]; [done|]. apply Forall_cons in Hv as [Hx _]. eapply (here_match _ ((x :: secret) ++ rest)); [|exact Hnone].
       by exists w, word, sp1, c, sp2, x, (secret ++ rest). }
  intros prev l n t (w & Hw & ([word l1] & [-> H2]%strip_spec & Hm)%bind_Some)%first_some_spec.
  pose proof (span_app re_space l1) as H1. pose proof (span_true re_space l1) as Hs1. destruct (span re_space l1) as [sp1 l2]. simpl in H1, Hs1. subst l1.
  destruct l2 as [|c l3]; [done|]. destruct ((c.1 =? 58) || (c.1 =? 61)) eqn:Hc; [|done].
  pose proof (span_app re_space l3) as H3. pose proof (span_true re_space l3) as Hs3. destruct (span re_space l3) as [sp2 l4]. simpl in H3, Hs3. subst l3.
  pose proof (span_app re_value l4) as H4. pose proof (span_true re_value l4) as Hv. pose proof (span_stops re_value l4) as Hover.
  destruct (span re_value l4) as [value rest]. simpl in H4, Hm, Hv, Hover. subst l4. destruct value as [|y value]; [done|].
  injection Hm as <- <-. exists (word ++ sp1 ++ c :: sp2), (y :: value), rest. split_and!; try done.
  - exists w, word, sp1, c, sp2. split_and!; try done; [by rewrite <- !app_assoc|unfold is_sign; lia].
  - by rewrite <- !app_assoc.
  - rewrite !length_app. simpl. rewrite ?length_app. simpl. lia.
Qed.
Lemma sensitive_match_here prev l kept secret rest : sensitive_match prev l kept secret rest → sensitive_here l (secret ++ rest).
Proof.
  intros (w & word & sp1 & c & sp2 & Hw & -> & -> & H2 & Hs1 & Hc & Hs2 & Hne & Hv & _). destruct secret as [|x secret]; [done|].
  apply Forall_cons in Hv as [Hx _]. by exists w, word, sp1, c, sp2, x, (secret ++ rest).
Qed.
Lemma credential_scans : scans credential_at credential_match.
Proof.
  split.
  2: { intros prev l kept secret rest Hnone (Hb & -> & -> & w & word & value & Hw & -> & H2 & Hne & Hv & _).
       apply credential_at_spec in Hnone. apply Hnone. split; [done|]. destruct value as [|x value]; [done|].
       apply Forall_cons in Hv as [Hx _]. exists w, word, x, (value ++ rest). split_and!; try done. by rewrite <- app_assoc. }
  intros prev l n t Hm. unfold credential_at in Hm. destruct (at_boundary prev) eqn:Hb; [|done].
  apply first_some_spec in Hm as (w & Hw & ([word l1] & [-> H2]%strip_spec & Hm)%bind_Some).
  pose proof (span_app re_token l1) as H1. pose proof (span_true re_token l1) as Hv. pose proof (span_stops re_token l1) as Hover.
  destruct (span re_token l1) as [value rest]. simpl in H1, Hm, Hv, Hover. subst l1. destruct value as [|y value]; [done|].
  injection Hm as <- <-. exists [], (word ++ y :: value), rest. split_and!; try done.
  - split; [done|]. split; [done|]. split; [by rewrite <- app_assoc|]. by exists w, word, (y :: value).
  - simpl. by rewrite <- app_assoc.
  - simpl. by rewrite length_app.
  - by intros [_ ?]%app_nil.
Qed.

(** What a match keeps (word, sign and spaces) has no value of its own. *)
Lemma kept_hides u c sp a b v : Forall not_sign u → Forall (λ y, re_space y = true) sp → u ++ c :: sp = a ++ b → ¬ sensitive_here b v.
Proof.
  intros Hu Hsp Heq (u' & c' & sp' & -> & Hc & _ & _ & x & v' & -> & Hx)%here_shape.
  rewrite <- (app_assoc u'), (app_assoc a u') in Heq. simpl in Heq.
  assert (x ∈ sp) as Hin.
  { apply app_eq_inv in Heq as [(k & -> & Hk)|(k & Hk & Heq)].
    - destruct k as [|y k]; injection Hk as <- Hk; [rewrite <- Hk; set_solver|]. apply Forall_app in Hu as [_ [Hns _]%Forall_cons].
      by destruct Hns, Hc.
    - destruct k as [|y k]; injection Heq as -> Hsp'; rewrite Hsp'; set_solver. }
  rewrite Forall_forall in Hsp. apply Hsp, space_plain in Hin as (_ & _ & ?). congruence.
Qed.

Lemma here_matches prev l v : sensitive_here l v → ∃ kept secret rest, sensitive_match prev l kept secret rest.
Proof.
  intros Hh%(here_match l v prev). destruct (sensitive_at prev l) as [[n t]|] eqn:Hm; [|done].
  apply (sc_found _ _ sensitive_scans) in Hm as (kept & secret & rest & ? & _). eauto.
Qed.
(** What is kept: runes that are no sign, a sign and spaces. *)
Lemma match_kept prev l kept secret rest : sensitive_match prev l kept secret rest →
  ∃ u c sp, kept = u ++ c :: sp ∧ Forall not_sign u ∧ Forall (λ y, re_space y = true) sp.
Proof.
  intros (w & word & sp1 & c & sp2 & Hw & -> & _ & H2 & Hs1 & _ & Hs2 & _). exists (word ++ sp1), c, sp2. split_and!; [by rewrite <- app_assoc| |done].
  apply Forall_app. split; [eapply Forall_impl; [exact (words_plain w word Hw H2)|naive_solver]|].
  eapply Forall_impl; [exact Hs1|]. by intros z [? _]%space_plain.
Qed.
(** A sensitive word starts with a character of a value. *)
Lemma here_head y l v : sensitive_here (y :: l) v → re_value y = true.
Proof.
  intros (y' & z & l' & [= <- ->] & Hw)%here_starts. destruct (re_value y) eqn:Hy; [done|]. exfalso.
  assert (∀ k z, k ∈ [9; 10; 12; 13; 32; 44; 59] → starts_word (k, "") z = false) as Hno.
  { intros k z' Hk. repeat (apply elem_of_cons in Hk as [->|Hk]; [by vm_compute|]). by apply elem_of_nil in Hk. }
  assert (y.1 ∈ [9; 10; 12; 13; 32; 44; 59]) as Hin.
  { unfold re_value, re_space, in_range in Hy. assert (y.1 = 9 ∨ y.1 = 10 ∨ y.1 = 12 ∨ y.1 = 13 ∨ y.1 = 32 ∨ y.1 = 44 ∨ y.1 = 59) as H by lia.
    rewrite !elem_of_cons. tauto. }
  specialize (Hno _ z Hin). unfold starts_word in Hw, Hno. cbn [fst] in Hno. congruence.
Qed.
Lemma hidden_segments l r kept secret rest : l = r ++ kept ++ secret ++ rest → segments (seg_text l) = l →
  segments (seg_text (r ++ kept)) = r ++ kept ∧ segments (seg_text rest) = rest.
Proof.
  intros -> Hseg. split; [eapply (segments_prefix _ (secret ++ rest))|eapply (segments_suffix (r ++ kept ++ secret))]; rewrite <- !app_assoc; exact Hseg.
Qed.
Lemma segments_marked r kept out : segments (seg_text (r ++ kept)) = r ++ kept →
  segments (seg_text r +:+ seg_text kept +:+ redacted +:+ out) = (r ++ kept) ++ red ++ segments out.
Proof.
  intros Hr. by rewrite <- (string_app_assoc (seg_text r)), <- seg_text_app, segments_app, Hr, segments_ascii_app by (done || exact redacted_ascii).
Qed.

Lemma first_pass prev l out : hidden sensitive_match prev l out → segments (seg_text l) = l →
  hides (segments out) ∧ (value_over l → value_over (segments out)).
Proof.
  induction 1 as [prev l Hnone|prev l r kept secret rest out Hl Hm Hbefore _ IH]; intros Hseg.
  { rewrite Hseg. split; [|done]. intros a b v Heq Hh. exfalso.
    destruct (here_matches (before prev a) _ _ Hh) as (kept & secret & rest & Hm). by eapply Hnone. }
  destruct (hidden_segments _ _ _ _ _ Hl Hseg) as [Hr Hrest]. destruct (IH Hrest) as [Hout Hover]. rewrite segments_marked by done.
  destruct (match_kept _ _ _ _ _ Hm) as (u & c & sp & Hk & Hu & Hsp). split.
  - apply hides_join; [|done|]. 2: { intros _ _ _ _. apply Hover. by destruct Hm as (w & word & sp1 & c' & sp2 & _ & _ & _ & _ & _ & _ & _ & _ & _ & ?). }
    intros a b v Hab Hh. exfalso. apply app_eq_inv in Hab as [(k & -> & ->)|(a1 & -> & Hab)].
    + destruct k as [|y k]; [by apply (kept_hides u c sp [] kept v Hu Hsp) in Hh|].
      apply (here_extend _ _ (secret ++ rest)), (here_matches (before prev a)) in Hh as (k1 & s1 & r1 & Hm1).
      eapply (Hbefore a); [|rewrite length_app; simpl; lia|exact Hm1]. rewrite Hl. by rewrite <- !app_assoc.
    + subst kept. by apply (kept_hides u c sp a1 b v Hu Hsp) in Hh.
  - intros Hfirst y l' Hy. apply (Hfirst y (match r ++ kept with [] => [] | _ :: k => k ++ secret ++ rest end)). rewrite Hl, (app_assoc r).
    destruct (r ++ kept) as [|x k] eqn:Hrk; [|by injection Hy as -> _].
    apply app_nil in Hrk as [_ ->]. by destruct u.
Qed.

(** ** The second pass *)

Lemma credential_head prev b kept secret rest : credential_match prev b kept secret rest →
  kept = [] ∧ ∃ y s, secret = y :: s ∧ re_value y = true ∧ y.1 ∈ [116; 99; 103; 115].
Proof.
  intros (_ & -> & _ & w & word & value & Hw & -> & H2 & _). split; [done|].
  destruct (words_are_tokens w word Hw H2) as [Ht (y & a' & -> & Hy)]. exists y, (a' ++ value). split_and!; [done| |done].
  rewrite !elem_of_cons, elem_of_nil in Hy. unfold re_value, re_space, in_range. lia.
Qed.
Lemma second_pass prev l out : hidden credential_match prev l out → segments (seg_text l) = l → hides l → hides (segments out).
Proof.
  induction 1 as [prev l Hnone|prev l r kept secret rest out Hl Hm Hbefore _ IH]; intros Hseg Hh; [by rewrite Hseg|].
  destruct (hidden_segments _ _ _ _ _ Hl Hseg) as [Hr Hrest]. destruct (credential_head _ _ _ _ _ Hm) as (-> & y & s & -> & Hyv & Hy).
  rewrite segments_marked, app_nil_r by done. cbn [app] in Hl. apply hides_join.
  - intros a b v -> Hv. destruct (Hh a (b ++ (y :: s) ++ rest) (v ++ (y :: s) ++ rest)) as (k & Hk & Hover); [by rewrite Hl, <- app_assoc|by apply here_extend|].
    apply app_eq_inv in Hk as [(k1 & -> & Hk)|(k1 & Hk1 & Hk)].
    + destruct k1 as [|z k1]; [|exists z, k1; split; [done|]; by eapply Hover]. exfalso. simpl in Hk. assert (re_value y = false) by (by eapply Hover). congruence.
    + destruct k1 as [|z k1]; [exfalso; assert (re_value y = false) by (by eapply Hover); congruence|]. exfalso. injection Hk as <- _.
      pose proof redacted_plain as Hp. rewrite Hk1, Forall_app, Forall_cons in Hp. by apply Hp.
  - apply IH; [done|]. intros a b v -> Hv. apply (Hh (r ++ (y :: s) ++ a) b); [|done]. by rewrite Hl, <- !app_assoc.
  - intros a b -> Hv. exfalso.
    assert (sensitive_here (b ++ (y :: s) ++ rest) ((y :: s) ++ rest)) as Hv'.
    { destruct Hv as (w & word & sp1 & c & sp2 & x & v' & Hw & Heq & _ & _ & H). apply app_inv_tail in Heq as ->.
      exists w, word, sp1, c, sp2, y, (s ++ rest). split_and!; try done; apply H. }
    destruct (Hh a _ _ ltac:(by rewrite Hl, <- app_assoc) Hv') as (k & Hk & _). injection Hk as -> _. by vm_compute in Hy; set_solver.
Qed.

(** A text that shows no sensitive value and no credential. *)
Definition clean_text (s : string) : Prop := hides (segments s) ∧ ¬ shows_credential s.
Lemma segments_text s : segments (seg_text (segments s)) = segments s.
Proof. unfold seg_text. by rewrite concat_segments. Qed.
Lemma sensitive_pass l : hidden sensitive_match None l (replace_matches sensitive_at None 0 l).
Proof. by eapply scans_hidden; [apply sensitive_scans|]. Qed.
Lemma credential_pass l : hidden credential_match None l (replace_matches credential_at None 0 l).
Proof. by eapply scans_hidden; [apply credential_scans|]. Qed.
Lemma redacted_clean value : clean_text (RedactSensitiveText value).
Proof.
  split; [|apply redacted_credentials]. eapply second_pass; [apply credential_pass|apply segments_text|].
  eapply first_pass; [apply sensitive_pass|apply segments_text].
Qed.

(** C37. Redaction is complete and touches nothing else.  The filter is two
    passes, each of which hides the leftmost matches of its expression one
    after the other, each as long as it can be, and leaves all the rest as it
    is: the first hides the value after a sensitive word in any case, spaces,
    [:] or [=] and spaces, up to a space, a comma, a semicolon or the end; the
    second hides, at a word boundary, a prefix of relay or provider tokens with
    all the characters of a token that follow it.  So in a redacted text every
    value after a sensitive word is exactly the mark, with nothing of a value
    behind it, and no credential is left; and a text in which neither
    expression matches is returned as it is. *)
Theorem redaction_complete value :
  (∃ marked, hidden sensitive_match None (segments value) marked ∧
     hidden credential_match None (segments marked) (RedactSensitiveText value)) ∧
  clean_text (RedactSensitiveText value) ∧
  (¬ shows_credential value → (∀ a b v, segments value = a ++ b → ¬ sensitive_here b v) → RedactSensitiveText value = value).
Proof.
  split; [eexists; split; [apply sensitive_pass|apply credential_pass]|]. split; [apply redacted_clean|].
  intros Hno Hs. unfold RedactSensitiveText. rewrite (replace_none sensitive_at).
  - unfold seg_text at 1. rewrite concat_segments, replace_none; [unfold seg_text; apply concat_segments|].
    intros a b Heq. apply credential_at_spec. intros [Hb Hc]. apply Hno. by exists a, b.
  - intros a b Heq. destruct (sensitive_at (before None a) b) as [[n t]|] eqn:Hm; [|done]. exfalso.
    apply (sc_found _ _ sensitive_scans) in Hm as (kept & secret & rest & Hm & _). apply sensitive_match_here in Hm. by apply (Hs a b _ Heq) in Hm.
Qed.
End hides.
