(* ===== verification/Records.v ===== *)
(** * Persisted records

    Every record the relay keeps in Redis: the administration models
    ([internal/store/models.go] and the private records of [redis.go]) and the
    collaboration records of [internal/collaboration/store.go].  A stored JSON
    document is represented by the record it encodes, one constructor of [doc]
    per Go type. *)

From S2P Require Import Prelude GoString Protocol Auth.

Local Open Scope Z_scope.

(** ** Administration *)

Inductive Status :=
  | StatusActive | StatusPending | StatusExpiredInvite | StatusUsed | StatusRevoked
  | StatusUnknown (raw : string).
#[export] Instance Status_eq_dec : EqDecision Status.
Proof. solve_decision. Defined.

Record Organization := mkOrganization { org_ID : string; org_Name : string; org_CreatedAt : time }.
#[export] Instance Organization_eq_dec : EqDecision Organization.
Proof. solve_decision. Defined.

Record Member := mkMember {
  mem_ID : string; mem_OrganizationID : string; mem_DisplayName : string; mem_Email : string;
  mem_Role : Role; mem_Status : Status; mem_CreatedAt : time; mem_RevokedAt : option time }.
#[export] Instance Member_eq_dec : EqDecision Member.
Proof. solve_decision. Defined.

Record Device := mkDevice {
  dev_ID : string; dev_OrganizationID : string; dev_MemberID : string; dev_AgentID : string;
  dev_Name : string; dev_Runtime : string; dev_PermissionProfile : string;
  dev_Status : Status; dev_CreatedAt : time; dev_LastSeenAt : option time;
  dev_RevokedAt : option time }.
#[export] Instance Device_eq_dec : EqDecision Device.
Proof. solve_decision. Defined.

Record Invite := mkInvite {
  inv_ID : string; inv_OrganizationID : string; inv_CreatedBy : string; inv_MemberID : string;
  inv_DisplayName : string; inv_Email : string; inv_Status : Status; inv_CreatedAt : time;
  inv_ExpiresAt : time; inv_UsedAt : option time; inv_UsedByMemberID : string;
  inv_RevokedAt : option time }.
#[export] Instance Invite_eq_dec : EqDecision Invite.
Proof. solve_decision. Defined.

(** Values of the audit [Metadata] map the code writes. *)
Inductive AuditValue := AuditTime (t : time) | AuditText (s : string).
#[export] Instance AuditValue_eq_dec : EqDecision AuditValue.
Proof. solve_decision. Defined.

Record AuditEvent := mkAuditEvent {
  aud_ID : string; aud_OrganizationID : string; aud_ActorMemberID : string;
  aud_ActorDeviceID : string; aud_Action : string; aud_TargetType : string;
  aud_TargetID : string; aud_OccurredAt : time; aud_Metadata : list (string * AuditValue) }.
#[export] Instance AuditEvent_eq_dec : EqDecision AuditEvent.
Proof. solve_decision. Defined.

Record BootstrapInput := mkBootstrapInput {
  bi_OrganizationName : string; bi_AdminDisplayName : string; bi_AdminEmail : string;
  bi_AdminTokenHash : string; bi_IdempotencyHash : string; bi_Now : time }.
Record BootstrapResult := mkBootstrapResult { br_Organization : Organization; br_Admin : Member }.
#[export] Instance BootstrapResult_eq_dec : EqDecision BootstrapResult.
Proof. solve_decision. Defined.

Record RotateAdminCredentialInput := mkRotateInput {
  ri_NewTokenHash : string; ri_IdempotencyHash : string; ri_Now : time }.
Record RotateAdminCredentialResult := mkRotateResult { rr_RotatedAt : time; rr_Replayed : bool }.

Record RevocationResult := mkRevocationResult {
  rv_OrganizationID : string; rv_AgentIDs : list string }.

Record CreateInviteInput := mkCreateInviteInput {
  ci_DisplayName : string; ci_Email : string; ci_ExistingMemberID : string;
  ci_ExpiresAt : time; ci_InviteTokenHash : string; ci_Now : time }.

Record EnrollInput := mkEnrollInput {
  ei_DisplayName : string; ei_DeviceName : string; ei_Runtime : string;
  ei_PermissionProfile : string; ei_DeviceTokenHash : string;
  ei_IdempotencyKeyHash : string; ei_Now : time }.
Record EnrollResult := mkEnrollResult {
  er_Organization : Organization; er_Member : Member; er_Device : Device }.
#[export] Instance EnrollResult_eq_dec : EqDecision EnrollResult.
Proof. solve_decision. Defined.

Record credential := mkCredential {
  cred_Kind : TokenKind; cred_OrganizationID : string; cred_MemberID : string;
  cred_DeviceID : string; cred_IssuedAt : time }.
#[export] Instance credential_eq_dec : EqDecision credential.
Proof. solve_decision. Defined.

Record inviteReference := mkInviteReference { ref_OrganizationID : string; ref_InviteID : string }.
#[export] Instance inviteReference_eq_dec : EqDecision inviteReference.
Proof. solve_decision. Defined.

Record enrollmentRecord := mkEnrollmentRecord {
  en_InviteTokenHash : string; en_RequestHash : string; en_DeviceTokenHash : string;
  en_Result : EnrollResult }.
#[export] Instance enrollmentRecord_eq_dec : EqDecision enrollmentRecord.
Proof. solve_decision. Defined.

Record bootstrapRecord := mkBootstrapRecord {
  bo_IdempotencyHash : string; bo_RequestHash : string; bo_AdminTokenHash : string;
  bo_Result : BootstrapResult }.
#[export] Instance bootstrapRecord_eq_dec : EqDecision bootstrapRecord.
Proof. solve_decision. Defined.

Record adminRotationRecord := mkAdminRotationRecord {
  ro_OrganizationID : string; ro_MemberID : string; ro_IdempotencyHash : string;
  ro_RequestHash : string; ro_OldTokenHash : string; ro_NewTokenHash : string;
  ro_RotatedAt : time }.
#[export] Instance adminRotationRecord_eq_dec : EqDecision adminRotationRecord.
Proof. solve_decision. Defined.

(** ** Collaboration *)

Record storedRequest := mkStoredRequest {
  sr_Request : Request; sr_Prompt : string; sr_IdempotencyRedisKey : string;
  sr_DecisionID : string; sr_Decision : Decision_; sr_ExecutionClaimID : string;
  sr_ResultDigest : string }.
#[export] Instance storedRequest_eq_dec : EqDecision storedRequest.
Proof. solve_decision. Defined.

Record conversation := mkConversation {
  cv_ID : string; cv_OrganizationID : string; cv_RequesterAgentID : string;
  cv_TargetAgentID : string }.
#[export] Instance conversation_eq_dec : EqDecision conversation.
Proof. solve_decision. Defined.

Record storedArtifact := mkStoredArtifact {
  sa_Descriptor : ArtifactDescriptor; sa_Encoding : string; sa_ContentBase64 : string;
  sa_RequestID : string; sa_RequesterAgentID : string; sa_TargetAgentID : string;
  sa_Direction : string }.
#[export] Instance storedArtifact_eq_dec : EqDecision storedArtifact.
Proof. solve_decision. Defined.

Record idempotencyRecord := mkIdempotencyRecord { id_RequestID : string; id_Digest : string }.
#[export] Instance idempotencyRecord_eq_dec : EqDecision idempotencyRecord.
Proof. solve_decision. Defined.

(** ** Stored documents *)

Inductive doc :=
  | DText (s : string)
  | DOrganization (v : Organization) | DMember (v : Member) | DDevice (v : Device)
  | DInvite (v : Invite) | DAudit (v : AuditEvent) | DCredential (v : credential)
  | DInviteReference (v : inviteReference) | DEnrollment (v : enrollmentRecord)
  | DBootstrap (v : bootstrapRecord) | DRotation (v : adminRotationRecord)
  | DCard (v : AgentCard) | DStored (v : storedRequest) | DConversation (v : conversation)
  | DArtifact (v : storedArtifact) | DIdempotency (v : idempotencyRecord).
#[export] Instance doc_eq_dec : EqDecision doc.
Proof. solve_decision. Defined.

(** [json.Marshal] and [json.Unmarshal] at one Go type.  [unmarshal] fails on
    a document that was not written from that type. *)
Class Json (A : Type) := {
  marshal : A → doc;
  unmarshal : doc → option A;
  unmarshal_marshal v : unmarshal (marshal v) = Some v;
  unmarshal_Some d v : unmarshal d = Some v → d = marshal v;
}.

(** One constructor of [doc] per type makes both laws immediate. *)
Ltac json_record enc dec :=
  refine {| marshal := enc; unmarshal := dec |};
  [done | by intros [] ?; simpl; intros; simplify_eq].

#[export] Instance json_Organization : Json Organization.
Proof. json_record DOrganization (λ d, match d with DOrganization v => Some v | _ => None end). Defined.
#[export] Instance json_Member : Json Member.
Proof. json_record DMember (λ d, match d with DMember v => Some v | _ => None end). Defined.
#[export] Instance json_Device : Json Device.
Proof. json_record DDevice (λ d, match d with DDevice v => Some v | _ => None end). Defined.
#[export] Instance json_Invite : Json Invite.
Proof. json_record DInvite (λ d, match d with DInvite v => Some v | _ => None end). Defined.
#[export] Instance json_AuditEvent : Json AuditEvent.
Proof. json_record DAudit (λ d, match d with DAudit v => Some v | _ => None end). Defined.
#[export] Instance json_credential : Json credential.
Proof. json_record DCredential (λ d, match d with DCredential v => Some v | _ => None end). Defined.
#[export] Instance json_inviteReference : Json inviteReference.
Proof. json_record DInviteReference (λ d, match d with DInviteReference v => Some v | _ => None end). Defined.
#[export] Instance json_enrollmentRecord : Json enrollmentRecord.
Proof. json_record DEnrollment (λ d, match d with DEnrollment v => Some v | _ => None end). Defined.
#[export] Instance json_bootstrapRecord : Json bootstrapRecord.
Proof. json_record DBootstrap (λ d, match d with DBootstrap v => Some v | _ => None end). Defined.
#[export] Instance json_adminRotationRecord : Json adminRotationRecord.
Proof. json_record DRotation (λ d, match d with DRotation v => Some v | _ => None end). Defined.
#[export] Instance json_AgentCard : Json AgentCard.
Proof. json_record DCard (λ d, match d with DCard v => Some v | _ => None end). Defined.
#[export] Instance json_storedRequest : Json storedRequest.
Proof. json_record DStored (λ d, match d with DStored v => Some v | _ => None end). Defined.
#[export] Instance json_conversation : Json conversation.
Proof. json_record DConversation (λ d, match d with DConversation v => Some v | _ => None end). Defined.
#[export] Instance json_storedArtifact : Json storedArtifact.
Proof. json_record DArtifact (λ d, match d with DArtifact v => Some v | _ => None end). Defined.
#[export] Instance json_idempotencyRecord : Json idempotencyRecord.
Proof. json_record DIdempotency (λ d, match d with DIdempotency v => Some v | _ => None end). Defined.
