(* ===== verification/Json.v ===== *)
(** * JSON text ([encoding/json])

    Idempotency digests are SHA-256 sums of the JSON text of a request, so the
    text itself is modelled: the encoder with Go's escaping rules, and the
    encodings of the structures that are digested. *)

From S2P Require Import Prelude GoString Sha256 Protocol.
From stdpp Require Import pretty.
From Stdlib Require Import Ascii.

Local Open Scope Z_scope.
Local Set Warnings "-register-all".

Inductive json :=
  | JBool (b : bool)
  | JNum (z : Z)
  | JStr (s : string)
  | JNull
  | JArr (l : list json)
  | JObj (fields : list (string * json)).

Definition dquote : string := String.String (byte_of 34) "".
Definition backslash : string := String.String (byte_of 92) "".

(** [appendString] with [escapeHTML]: the text of one rune of the source. *)
Definition escape_u (r : Z) : string :=
  let h z := String.String (hex_digit (Z.land z 15)) "" in
  backslash +:+ "u" +:+ h (Z.shiftr r 12) +:+ h (Z.shiftr r 8) +:+ h (Z.shiftr r 4) +:+ h r.
Definition escape_rune (p : Z * string) : string :=
  let (r, raw) := p in
  if r =? 34 then backslash +:+ dquote else
  if r =? 92 then backslash +:+ backslash else
  if r =? 8 then backslash +:+ "b" else
  if r =? 12 then backslash +:+ "f" else
  if r =? 10 then backslash +:+ "n" else
  if r =? 13 then backslash +:+ "r" else
  if r =? 9 then backslash +:+ "t" else
  if (r <? 32) || (r =? 60) || (r =? 62) || (r =? 38) || (r =? 8232) || (r =? 8233)
  then escape_u r else
  if (r =? RuneError) && bool_decide (String.length raw = 1%nat) then escape_u RuneError
  else raw.
Definition json_string (s : string) : string :=
  dquote +:+ concat_strings (escape_rune <$> segments s) +:+ dquote.

Fixpoint json_text (j : json) : string :=
  match j with
  | JBool b => if b then "true" else "false"
  | JNum z => pretty z
  | JStr s => json_string s
  | JNull => "null"
  | JArr l => "[" +:+ GoString.join "," (map json_text l) +:+ "]"
  | JObj fs => "{" +:+ GoString.join "," (map (λ f, json_string f.1 +:+ ":" +:+ json_text f.2) fs) +:+ "}"
  end.

(** [omitempty] *)
Definition opt_str (k s : string) : list (string * json) :=
  if bool_decide (s = "") then [] else [(k, JStr s)].
Definition opt_arr (k : string) (l : list json) : list (string * json) :=
  match l with [] => [] | _ => [(k, JArr l)] end.
Definition opt_num (k : string) (z : Z) : list (string * json) :=
  if z =? 0 then [] else [(k, JNum z)].

(** ** Digested structures *)

Definition status_string (s : RequestStatus) : string :=
  match s with
  | StatusPreparing => "preparing"
  | StatusAwaitingApproval => "awaiting_approval"
  | StatusAccepted => "accepted"
  | StatusRunning => "running"
  | StatusCompleted => "completed"
  | StatusRejected => "rejected"
  | StatusExpired => "expired"
  | StatusCancelled => "cancelled"
  | StatusFailed => "failed"
  | StatusOther raw => raw
  end.

Definition json_access (a : RequestedAccess) : json :=
  JObj [("workspace_alias", JStr (ra_WorkspaceAlias a)); ("mode", JStr (mode_string (ra_Mode a)))].

Definition json_attachment (a : AttachmentInput) : json :=
  JObj [("name", JStr (ai_Name a)); ("mime_type", JStr (ai_MIMEType a));
        ("encoding", JStr (ai_Encoding a)); ("size_bytes", JNum (ai_SizeBytes a));
        ("sha256", JStr (ai_SHA256 a)); ("content_base64", JStr (ai_ContentBase64 a))].

Definition json_create (r : CreateRequest) : json :=
  JObj (opt_str "target_agent_id" (cr_TargetAgentID r)
        ++ opt_str "conversation_id" (cr_ConversationID r)
        ++ [("title", JStr (cr_Title r)); ("prompt", JStr (cr_Prompt r))]
        ++ opt_arr "requested_access" (json_access <$> cr_RequestedAccess r)
        ++ opt_arr "attachments" (json_attachment <$> cr_Attachments r)
        ++ opt_num "expires_in_seconds" (cr_ExpiresInSeconds r)
        ++ [("idempotency_key", JStr (cr_IdempotencyKey r))]).

Definition json_result (r : ResultPayload) : json :=
  JObj ([("execution_claim_id", JStr (rp_ExecutionClaimID r));
         ("state", JStr (status_string (rp_State r)))]
        ++ opt_str "answer" (rp_Answer r)
        ++ opt_str "error" (rp_Error r)
        ++ opt_arr "result_files" (json_attachment <$> rp_ResultFiles r)).

(** A digest of a JSON text. *)
Definition json_digest (j : json) : string := sha256_hex (json_text j).

Example json_text_sample :
  json_text (JObj [("a<", JNum (-5)); ("b", JArr [JBool true; JStr "é"])]) =
  "{" +:+ dquote +:+ "a" +:+ backslash +:+ "u003c" +:+ dquote +:+ ":-5," +:+ dquote +:+ "b"
      +:+ dquote +:+ ":[true," +:+ dquote +:+ "é" +:+ dquote +:+ "]}".
Proof. vm_compute. reflexivity. Qed.
