(* ===== verification/Redis.v ===== *)
(** * The Redis service seen by the relay

    Redis and its client library are not part of the repository.  They appear
    here as an interface: [RedisServer] lists the commands the relay issues,
    [RedisLaws] the documented behaviour it relies on.  The stores are written
    and verified against the interface; [MemRedis] is one implementation of it,
    on which the witnesses run.

    Other clients act between any two commands of a handler.  Every command
    takes one step of an arbitrary environment, which may change the database,
    make the command fail before it runs, or lose the reply after it ran.
    [WATCH]/[MULTI]/[EXEC] is optimistic concurrency: the commit succeeds only
    if no environment step since [WATCH] modified a watched key. *)

From S2P Require Import Prelude GoString Protocol Auth Records.

Local Open Scope Z_scope.

(** ** Commands and the server interface *)

Inductive cmd :=
  | CSet (k : string) (v : doc) (ttl : Z)      (** [ttl = 0]: no expiry *)
  | CDel (k : string)
  | CExpire (k : string) (ttl : Z)
  | CSAdd (k m : string)
  | CSRem (k m : string)
  | CLPush (k : string) (v : doc)
  | CLTrim (k : string) (start stop : Z).

Definition cmd_key (c : cmd) : string :=
  match c with
  | CSet k _ _ | CDel k | CExpire k _ | CSAdd k _ | CSRem k _ | CLPush k _ | CLTrim k _ _ => k
  end.

Class RedisServer (DB : Type) := {
  r_get : DB → string → option doc;
  r_smembers : DB → string → list string;
  r_lrange : DB → string → Z → Z → list doc;
  r_exec : cmd → DB → DB;
  (** Did a step from one database to the next leave the keys untouched? *)
  r_unmodified : list string → DB → DB → bool;
}.

Definition r_sismember {DB} `{RedisServer DB} (d : DB) (k m : string) : bool :=
  bool_decide (m ∈ r_smembers d k).
Definition r_exists {DB} `{RedisServer DB} (d : DB) (k : string) : bool :=
  bool_decide (is_Some (r_get d k)).
Definition r_exec_all {DB} `{RedisServer DB} (cs : list cmd) (d : DB) : DB :=
  foldl (λ d c, r_exec c d) d cs.

(** Documented behaviour.  Every key of the relay holds one type of value for
    its whole life, so the string, set and list views do not interact. *)
Class RedisLaws (DB : Type) `{RedisServer DB} : Prop := {
  get_set d k v ttl : r_get (r_exec (CSet k v ttl) d) k = Some v;
  get_del d k : r_get (r_exec (CDel k) d) k = None;
  get_expire d k ttl : 0 < ttl → r_get (r_exec (CExpire k ttl) d) k = r_get d k;
  get_other d c k : cmd_key c ≠ k → r_get (r_exec c d) k = r_get d k;
  smembers_add d k m x : x ∈ r_smembers (r_exec (CSAdd k m) d) k ↔ x = m ∨ x ∈ r_smembers d k;
  smembers_rem d k m x : x ∈ r_smembers (r_exec (CSRem k m) d) k ↔ x ≠ m ∧ x ∈ r_smembers d k;
  smembers_expire d k ttl x : 0 < ttl →
    x ∈ r_smembers (r_exec (CExpire k ttl) d) k ↔ x ∈ r_smembers d k;
  smembers_del d k x : x ∉ r_smembers (r_exec (CDel k) d) k;
  smembers_other d c k x :
    cmd_key c ≠ k → x ∈ r_smembers (r_exec c d) k ↔ x ∈ r_smembers d k;
  unmodified_refl ks d : r_unmodified ks d d = true;
  unmodified_get ks d d' k :
    r_unmodified ks d d' = true → k ∈ ks → r_get d' k = r_get d k;
  unmodified_smembers ks d d' k x :
    r_unmodified ks d d' = true → k ∈ ks → x ∈ r_smembers d' k ↔ x ∈ r_smembers d k;
}.

(** ** The world of a relay handler *)

(** What happens around one command: other clients run [f] first; then the
    command runs ([EnvOk]), never reaches the server ([EnvFail]) or runs while
    its reply is lost ([EnvLost]). *)
Inductive env_step (DB : Type) :=
  | EnvOk (f : DB → DB) | EnvFail (f : DB → DB) | EnvLost (f : DB → DB).
Arguments EnvOk {_}. Arguments EnvFail {_}. Arguments EnvLost {_}.

Definition env_fun {DB} (e : env_step DB) : DB → DB :=
  match e with EnvOk f | EnvFail f | EnvLost f => f end.

Record world (DB : Type) := mkWorld {
  w_db : DB;
  w_env : list (env_step DB);          (** exhausted: a quiet, reliable server *)
  w_watch : option (list string * bool); (** watched keys; modified since? *)
  w_clock : nat → time; w_ticks : nat;
  w_rand : nat → string; w_draws : nat (** the 16-byte strings of [rand.Read] *) }.
Arguments mkWorld {_}. Arguments w_db {_}. Arguments w_env {_}. Arguments w_watch {_}.
Arguments w_clock {_}. Arguments w_ticks {_}. Arguments w_rand {_}. Arguments w_draws {_}.

(** Errors of a package with sentinel errors [E]; texts are not modelled. *)
Inductive rerror (E : Type) := Sentinel (e : E) | RedisTxFailed | RedisFailure.
Arguments Sentinel {_}. Arguments RedisTxFailed {_}. Arguments RedisFailure {_}.

Definition quiet_world {DB} (d : DB) (clock : nat → time) (rand : nat → string) : world DB :=
  mkWorld d [] None clock 0 rand 0.

Section commands.
Context {DB : Type} `{RS : RedisServer DB} {E : Type}.
Abbreviation RM := (M (world DB) (rerror E)).

Definition set_db (d : DB) (w : world DB) : world DB :=
  mkWorld d (w_env w) (w_watch w) (w_clock w) (w_ticks w) (w_rand w) (w_draws w).
Definition set_watch (x : option (list string * bool)) (w : world DB) : world DB :=
  mkWorld (w_db w) (w_env w) x (w_clock w) (w_ticks w) (w_rand w) (w_draws w).

(** Other clients move the database to [d']. *)
Definition env_move (d' : DB) (env' : list (env_step DB)) (w : world DB) : world DB :=
  mkWorld d' env'
    (match w_watch w with
     | Some (ks, dirty) => Some (ks, dirty || negb (r_unmodified ks (w_db w) d'))
     | None => None
     end)
    (w_clock w) (w_ticks w) (w_rand w) (w_draws w).

Definition next_env (w : world DB) : env_step DB * world DB :=
  match w_env w with
  | [] => (EnvOk id, w)
  | e :: env' => (e, env_move (env_fun e (w_db w)) env' w)
  end.

(** One command: [run] is its effect on the world once it reaches the server. *)
Definition redis_call {A} (run : world DB → world DB * (rerror E + A)) : RM A := λ w,
  let (e, w1) := next_env w in
  match e with
  | EnvOk _ => run w1
  | EnvFail _ => (w1, inl RedisFailure)
  | EnvLost _ => ((run w1).1, inl RedisFailure)
  end.

Definition redis_read {A} (f : DB → A) : RM A := redis_call (λ w, (w, inr (f (w_db w)))).
Definition redis_get (k : string) : RM (option doc) := redis_read (λ d, r_get d k).
Definition redis_smembers (k : string) : RM (list string) := redis_read (λ d, r_smembers d k).
Definition redis_sismember (k m : string) : RM bool := redis_read (λ d, r_sismember d k m).
Definition redis_exists (k : string) : RM bool := redis_read (λ d, r_exists d k).
Definition redis_lrange (k : string) (start stop : Z) : RM (list doc) :=
  redis_read (λ d, r_lrange d k start stop).
(** A write outside a transaction. *)
Definition redis_write (c : cmd) : RM () :=
  redis_call (λ w, (set_db (r_exec c (w_db w)) w, inr ())).

(** [MULTI] cs [EXEC], inside a [WATCH] or not; an empty pipeline is not sent. *)
Definition exec_step (cs : list cmd) (w : world DB) : world DB * (rerror E + ()) :=
  match w_watch w with
  | Some (_, true) => (set_watch None w, inl RedisTxFailed)
  | _ => (set_watch None (set_db (r_exec_all cs (w_db w)) w), inr ())
  end.
Definition tx_pipelined (cs : list cmd) : RM () :=
  match cs with [] => mret () | _ => redis_call (exec_step cs) end.

(** The connection goes back to the pool, dropping its watched keys. *)
Definition unwatch_after {A} (body : RM A) : RM A := λ w,
  let (w', r) := body w in (set_watch None w', r).
Definition watch_command (keys : list string) : RM () :=
  redis_call (λ w, (set_watch (Some (keys, false)) w, inr ())).
(** [rdb.Watch(ctx, body, keys...)] *)
Definition redis_watch {A} (keys : list string) (body : RM A) : RM A :=
  watch_command keys ≫= λ _, unwatch_after body.

(** [for attempt := 0; attempt < n; attempt++ { err := body(); if errors.Is(err,
    redis.TxFailedErr) { continue }; return ... }; return TxFailedErr] *)
Fixpoint retrying {A} (n : nat) (body : RM A) : RM A :=
  match n with
  | O => throw RedisTxFailed
  | S n' => attempt body ≫= λ r,
    match r with
    | inl RedisTxFailed => retrying n' body
    | _ => lift r
    end
  end.

(** [s.now().UTC()] and [randomID(prefix)] *)
Definition now : RM time := λ w,
  (mkWorld (w_db w) (w_env w) (w_watch w) (w_clock w) (S (w_ticks w)) (w_rand w) (w_draws w),
   inr (w_clock w (w_ticks w))).
Definition randomID (prefix : string) : RM string := λ w,
  (mkWorld (w_db w) (w_env w) (w_watch w) (w_clock w) (w_ticks w) (w_rand w) (S (w_draws w)),
   inr (prefix +:+ hex_encode (w_rand w (w_draws w)))).
End commands.

Notation "'reject!' e" := (throw (Sentinel e)) (at level 10, e at level 9).
