(* ===== verification/RedisLogic.v ===== *)
(** * Reasoning about handlers under interference

    A rely/guarantee logic for the computations of [Redis].  [R] is a preorder
    on databases that every step of the environment respects (the rely) and
    that the handler itself respects (the guarantee).  [spec R o P m Q]
    says that from a database and watch state satisfying [P] every run of [m]
    stays within [R] and, when it succeeds, ends in [Q]; [o] is the clock and
    the random source of the run.  [Sees ks φ] is the knowledge a
    [WATCH] gives: unless the commit is already doomed, [φ] holds now. *)

From S2P Require Import Prelude GoString Protocol Auth Records Redis.

(** Commands on other keys change nothing at [k]. *)
Section exec_all.
Context {DB : Type} `{RL : RedisLaws DB}.
Lemma r_exec_all_cons c cs (d : DB) : r_exec_all (c :: cs) d = r_exec_all cs (r_exec c d).
Proof. done. Qed.
Lemma r_exec_all_app cs cs' (d : DB) : r_exec_all (cs ++ cs') d = r_exec_all cs' (r_exec_all cs d).
Proof. apply foldl_app. Qed.
Lemma get_other_all k cs (d : DB) : Forall (λ c, cmd_key c ≠ k) cs → r_get (r_exec_all cs d) k = r_get d k.
Proof.
  intros Hcs. revert d. induction Hcs as [|c cs Hc _ IH]; intros d; [done|].
  rewrite r_exec_all_cons, IH. by apply get_other.
Qed.
Lemma smembers_other_all k cs (d : DB) x :
  Forall (λ c, cmd_key c ≠ k) cs → x ∈ r_smembers (r_exec_all cs d) k ↔ x ∈ r_smembers d k.
Proof.
  intros Hcs. revert d. induction Hcs as [|c cs Hc _ IH]; intros d; [done|].
  rewrite r_exec_all_cons, IH. by apply smembers_other.
Qed.
Lemma sismember_other_all k cs (d : DB) x :
  Forall (λ c, cmd_key c ≠ k) cs → r_sismember (r_exec_all cs d) k x = r_sismember d k x.
Proof. intros Hcs. apply bool_decide_ext. by apply smembers_other_all. Qed.
End exec_all.

(** The rely without content. *)
Definition anything {DB} : relation DB := λ _ _, True.
#[export] Instance anything_preorder {DB} : PreOrder (anything (DB := DB)).
Proof. by split. Qed.

(** What a triple is relative to: the clock, the random source, and the number
    of clock readings made before the handler started. *)
Record oracle := mkOracle { o_clock : nat → time; o_rand : nat → string; o_now : nat }.
Definition oracle_of {DB} (w : world DB) : oracle := mkOracle (w_clock w) (w_rand w) (w_ticks w).

Section logic.
Context {DB : Type} `{RL : RedisLaws DB} {E : Type}.
Context (R : relation DB) `{!PreOrder R}.
Abbreviation RM := (M (world DB) (rerror E)).
Abbreviation watch_state := (option (list string * bool)).

Definition env_ok (w : world DB) : Prop := Forall (λ e, ∀ d, R d (env_fun e d)) (w_env w).

(** What a run may do to the world. *)
Record within (w w' : world DB) : Prop := mkWithin {
  within_env : env_ok w';
  within_R : R (w_db w) (w_db w');
  within_clock : w_clock w' = w_clock w;
  within_rand : w_rand w' = w_rand w;
  within_ticks : (w_ticks w ≤ w_ticks w')%nat }.
Definition WR (w w' : world DB) : Prop := env_ok w → within w w'.

#[export] Instance WR_preorder : PreOrder WR.
Proof.
  split.
  - intros w Hw. by split.
  - intros w1 w2 w3 H12 H23 H1. destruct (H12 H1) as [He HR Hc Hr Ht].
    destruct (H23 He) as [He' HR' Hc' Hr' Ht']. split; [done|by etrans|congruence|congruence|lia].
Qed.

(** The watch state after other clients moved the database. *)
Definition bump (d d' : DB) (wt : watch_state) : watch_state :=
  match wt with
  | Some (ks, dirty) => Some (ks, dirty || negb (r_unmodified ks d d'))
  | None => None
  end.
Definition stable (P : DB → watch_state → Prop) : Prop :=
  ∀ d d' wt, R d d' → P d wt → P d' (bump d d' wt).

Lemma bump_refl d wt : bump d d wt = wt.
Proof. destruct wt as [[ks b]|]; simpl; [|done]. by rewrite unmodified_refl, orb_false_r. Qed.

Lemma next_env_within w e w1 :
  env_ok w → next_env w = (e, w1) →
  within w w1 ∧ w_watch w1 = bump (w_db w) (w_db w1) (w_watch w).
Proof.
  intros Hw. unfold next_env. destruct (w_env w) as [|e' env'] eqn:Henv; intros Heq; injection Heq as <- <-.
  - split; [by split|by rewrite bump_refl].
  - assert (Hw' := Hw). unfold env_ok in Hw'. rewrite Henv in Hw'. apply Forall_cons in Hw' as [He Henv'].
    split; [by split|done].
Qed.

(** ** Triples *)

Section triples.
Context (o : oracle).

Definition clock_reading (t : time) : Prop := ∃ n, (o_now o ≤ n)%nat ∧ t = o_clock o n.
Definition random_draw (r : string) : Prop := ∃ n, r = o_rand o n.

Definition holds (P : DB → watch_state → Prop) (w : world DB) : Prop :=
  env_ok w ∧ (w_clock w = o_clock o ∧ w_rand w = o_rand o) ∧ (o_now o ≤ w_ticks w)%nat ∧
  P (w_db w) (w_watch w).
Definition spec {A} (P : DB → watch_state → Prop) (m : RM A)
    (Q : A → DB → watch_state → Prop) : Prop :=
  ∀ w, holds P w →
    within w (m w).1 ∧ ∀ a, (m w).2 = inr a → Q a (w_db (m w).1) (w_watch (m w).1).

Lemma within_holds P Q w w' : holds P w → within w w' → Q (w_db w') (w_watch w') → holds Q w'.
Proof. intros (He & [Hc Hr] & Ht & _) [] ?. repeat split; [done|congruence|congruence|lia|done]. Qed.

Lemma spec_conseq {A} (P P' : DB → watch_state → Prop) (m : RM A) Q Q' :
  spec P' m Q' → (∀ d wt, P d wt → P' d wt) → (∀ a d wt, Q' a d wt → Q a d wt) → spec P m Q.
Proof.
  intros Hm HP HQ w (He & Hc & Ht & Hp). destruct (Hm w) as [? Hq]; [do 3 (split; [done|]); auto|].
  split; [done|]. intros a Ha. apply HQ, Hq, Ha.
Qed.
Lemma spec_post {A} P (m : RM A) (Q Q' : A → DB → watch_state → Prop) :
  spec P m Q' → (∀ a d wt, Q' a d wt → Q a d wt) → spec P m Q.
Proof. intros Hm HQ. by eapply spec_conseq. Qed.
Lemma spec_pre {A} (P P' : DB → watch_state → Prop) (m : RM A) Q :
  spec P' m Q → (∀ d wt, P d wt → P' d wt) → spec P m Q.
Proof. intros Hm HQ. by eapply spec_conseq. Qed.
(** A fact that does not mention the state moves to the context. *)
Lemma spec_pure {A} (φ : Prop) (P P' : DB → watch_state → Prop) (m : RM A) Q :
  (∀ d wt, P d wt → φ ∧ P' d wt) → (φ → spec P' m Q) → spec P m Q.
Proof.
  intros HP Hm w Hw. pose proof Hw as (He & Hc & Ht & Hp). apply HP in Hp as [Hφ Hp].
  apply (Hm Hφ). done.
Qed.

Lemma spec_ret {A} (a : A) P Q : (∀ d wt, P d wt → Q a d wt) → spec P (mret a) Q.
Proof. intros HQ w (He & _ & _ & Hp). split; [by apply WR_preorder|]. simpl. intros ? [= ->]. auto. Qed.
Lemma spec_throw {A} (e : rerror E) P (Q : A → DB → watch_state → Prop) : spec P (throw e) Q.
Proof. intros w (He & _). split; [by apply WR_preorder|]. done. Qed.
Lemma spec_lift {A} (r : rerror E + A) P Q :
  (∀ a d wt, r = inr a → P d wt → Q a d wt) → spec P (lift r) Q.
Proof. intros HQ w (He & _ & _ & Hp). split; [by apply WR_preorder|]. simpl. auto. Qed.
Lemma spec_reject_if b (e : rerror E) P :
  spec P (reject_if b e) (λ _ d wt, b = false ∧ P d wt).
Proof. destruct b; simpl; [apply spec_throw|by apply spec_ret]. Qed.

Lemma spec_bind {A B} (m : RM A) (f : A → RM B) P Q T :
  spec P m Q → (∀ a, spec (Q a) (f a) T) → spec P (m ≫= f) T.
Proof.
  intros Hm Hf w Hw. unfold mbind, M_bind. destruct (Hm w Hw) as [Hin HQ].
  destruct (m w) as [w' [e|a]] eqn:Hrun; simpl in *; [done|].
  assert (holds (Q a) w') as Hw' by (eapply within_holds; eauto).
  destruct (Hf a w' Hw') as [Hin' HT]. split; [|done].
  by apply (WR_preorder.(PreOrder_Transitive) w w' _); [intros _|intros _|apply Hw].
Qed.

Lemma spec_reject_bind {A} b (e : rerror E) (m : RM A) P Q :
  (b = false → spec P m Q) → spec P (reject_if b e ≫= λ _, m) Q.
Proof.
  intros Hm. eapply spec_bind; [apply spec_reject_if|]. intros a.
  eapply spec_pure with (φ := b = false) (P' := P); eauto.
Qed.
Lemma spec_lift_bind {A B} (r : rerror E + A) (f : A → RM B) P Q :
  (∀ a, r = inr a → spec P (f a) Q) → spec P (lift r ≫= f) Q.
Proof.
  intros Hf. destruct r as [e|a]; [apply spec_throw|].
  eapply spec_bind with (Q := λ a' d wt, a' = a ∧ P d wt); [apply spec_lift; naive_solver|].
  intros a'. eapply spec_pure with (φ := a' = a) (P' := P); [done|]. intros ->. by apply Hf.
Qed.

Lemma spec_attempt {A} (m : RM A) P Q :
  spec P m Q → spec P (attempt m) (λ r d wt, ∀ a, r = inr a → Q a d wt).
Proof.
  intros Hm w Hw. destruct (Hm w Hw) as [Hin HQ]. unfold attempt.
  destruct (m w) as [w' r]. simpl in *. split; [done|]. by intros ? [= ->].
Qed.

Lemma spec_now P : spec P now (λ t d wt, clock_reading t ∧ P d wt).
Proof.
  intros w (He & Hc & Ht & Hp). split; [split; simpl; try done; lia|].
  simpl. intros a [= <-]. split; [|done]. exists (w_ticks w). by rewrite (proj1 Hc).
Qed.
Lemma spec_randomID pre P :
  spec P (randomID pre) (λ id d wt, (∃ r, random_draw r ∧ id = pre +:+ hex_encode r) ∧ P d wt).
Proof.
  intros w (He & Hc & Ht & Hp). split; [by split|]. simpl. intros a [= <-]. split; [|done].
  eexists; split; [|done]. exists (w_draws w). by rewrite (proj2 Hc).
Qed.

Lemma spec_call {A} (run : world DB → world DB * (rerror E + A)) P Q :
  stable P → spec P run Q → spec P (redis_call run) Q.
Proof.
  intros HP Hrun w Hw. unfold redis_call. destruct (next_env w) as [e w1] eqn:Hne.
  destruct (next_env_within w e w1 (proj1 Hw) Hne) as [Hin Hwt].
  assert (holds P w1) as Hw1.
  { eapply within_holds; [done..|]. rewrite Hwt. apply HP; [apply Hin|apply Hw]. }
  destruct (Hrun w1 Hw1) as [Hin' HQ].
  assert (within w (run w1).1) as Htr
    by (by apply (WR_preorder.(PreOrder_Transitive) w w1 _); [intros _|intros _|apply Hw]).
  destruct e; simpl; split; done.
Qed.

Lemma spec_read {A} (f : DB → A) P Q :
  stable P → (∀ d wt, P d wt → Q (f d) d wt) → spec P (redis_read f) Q.
Proof.
  intros HP HQ. apply spec_call; [done|]. intros w (He & _ & _ & Hp).
  split; [by apply WR_preorder|]. simpl. intros ? [= <-]. auto.
Qed.
Lemma spec_write c P Q :
  stable P → (∀ d wt, P d wt → R d (r_exec c d)) →
  (∀ d wt, P d wt → Q (r_exec c d) wt) → spec P (redis_write c) (λ _, Q).
Proof.
  intros HP HR HQ. apply spec_call; [done|]. intros w (He & _ & _ & Hp).
  split; [|simpl; eauto]. split; simpl; eauto.
Qed.

(** ** Watched knowledge *)

Definition Sees (ks : list string) (φ : DB → Prop) (d : DB) (wt : watch_state) : Prop :=
  ∃ b, wt = Some (ks, b) ∧ (b = false → φ d).
(** [φ] cannot be broken without touching a watched key. *)
Definition guarded (ks : list string) (φ : DB → Prop) : Prop :=
  ∀ d d', r_unmodified ks d d' = true → φ d → φ d'.

Lemma stable_Sees ks φ : guarded ks φ → stable (Sees ks φ).
Proof.
  intros Hg d d' wt _ (b & -> & Hb). simpl. eexists; split; [done|].
  intros [? Hu]%orb_false_iff. apply negb_false_iff in Hu. eauto.
Qed.
Lemma stable_and P Q : stable P → stable Q → stable (λ d wt, P d wt ∧ Q d wt).
Proof. intros HP HQ d d' wt ? []. eauto. Qed.
Lemma stable_const (φ : Prop) : stable (λ _ _, φ).
Proof. by intros d d' wt _ ?. Qed.
Lemma stable_closed (φ : DB → Prop) : (∀ d d', R d d' → φ d → φ d') → stable (λ d _, φ d).
Proof. intros Hφ d d' wt ? ?. eauto. Qed.

Lemma guarded_and ks φ ψ : guarded ks φ → guarded ks ψ → guarded ks (λ d, φ d ∧ ψ d).
Proof. intros Hφ Hψ d d' ? []. eauto. Qed.
Lemma guarded_const ks (φ : Prop) : guarded ks (λ _, φ).
Proof. by intros d d' _ ?. Qed.
Lemma guarded_get ks k (F : option doc → Prop) : k ∈ ks → guarded ks (λ d, F (r_get d k)).
Proof. intros Hk d d' Hu. by rewrite (unmodified_get ks d d' k Hu Hk). Qed.
Lemma guarded_sismember ks k m b : k ∈ ks → guarded ks (λ d, r_sismember d k m = b).
Proof.
  intros Hk d d' Hu <-. unfold r_sismember. apply bool_decide_ext.
  by apply (unmodified_smembers ks d d' k m).
Qed.

(** A read under [WATCH]: what was read is known to hold at the commit. *)
Lemma spec_read_sees {A} ks (f : DB → A) (P : DB → watch_state → Prop) φ :
  stable P → guarded ks φ → (∀ a, guarded ks (λ d, f d = a)) →
  spec (λ d wt, P d wt ∧ Sees ks φ d wt) (redis_read f)
       (λ a d wt, P d wt ∧ Sees ks (λ d, φ d ∧ f d = a) d wt).
Proof.
  intros HP Hφ Hf. apply spec_read.
  - apply stable_and; [done|by apply stable_Sees].
  - intros d wt [Hp (b & -> & Hb)]. split; [done|]. eexists; split; [done|]. eauto.
Qed.

(** [EXEC] after a [WATCH]: on success the commands ran atomically on a
    database on which the watched knowledge held. *)
Lemma spec_tx_sees ks cs (P : DB → watch_state → Prop) φ :
  cs ≠ [] → stable P → guarded ks φ →
  (∀ d wt, P d wt → φ d → R d (r_exec_all cs d)) →
  spec (λ d wt, P d wt ∧ Sees ks φ d wt) (tx_pipelined cs)
       (λ _ d' wt', wt' = None ∧ ∃ d wt, P d wt ∧ φ d ∧ d' = r_exec_all cs d).
Proof.
  intros Hne HP Hφ HR. destruct cs as [|c cs]; [done|]. apply spec_call.
  { apply stable_and; [done|by apply stable_Sees]. }
  intros w (He & _ & _ & Hp & b & Hb & Himp). unfold exec_step. rewrite Hb.
  destruct b; simpl.
  - split; [|done]. by split.
  - split; [split; simpl; eauto|]. intros a _. eauto 10.
Qed.

(** [EXEC] without a [WATCH]. *)
Lemma spec_tx cs (P : DB → watch_state → Prop) (Q : DB → Prop) :
  stable P → (∀ d wt, P d wt → R d (r_exec_all cs d)) →
  (∀ d wt, P d wt → Q (r_exec_all cs d)) → spec P (tx_pipelined cs) (λ _ d _, Q d).
Proof.
  intros HP HR HQ. destruct cs as [|c cs]; [by apply spec_ret|]. apply spec_call; [done|].
  intros w (He & _ & _ & Hp). unfold exec_step.
  destruct (w_watch w) as [[ks []]|] eqn:Hw; simpl; (split; [|try done; intros a _; by eapply HQ]);
    split; simpl; try done; by eapply HR.
Qed.

Lemma spec_watch {A} ks (body : RM A) (P : DB → watch_state → Prop) (Q : A → DB → Prop) :
  (∀ d d' wt wt', R d d' → P d wt → P d' wt') →
  spec (λ d wt, P d wt ∧ Sees ks (λ _, True) d wt) body (λ a d _, Q a d) →
  spec P (redis_watch ks body) (λ a d wt, Q a d ∧ wt = None).
Proof.
  intros HP Hbody. eapply spec_bind with (Q := λ _ d wt, P d wt ∧ Sees ks (λ _, True) d wt).
  - apply spec_call; [intros d d' wt ? ?; eauto|]. intros w (He & _ & _ & Hp).
    split; [by split|]. intros a _. simpl. split; [by eapply HP|]. by exists false.
  - intros _ w Hw. destruct (Hbody w Hw) as [Hin HQ]. unfold unwatch_after.
    destruct (body w) as [w' r]; simpl in *. split; [by destruct Hin; split|]. eauto.
Qed.

Lemma spec_retrying {A} n (body : RM A) (P : DB → watch_state → Prop) Q :
  (∀ d d' wt wt', R d d' → P d wt → P d' wt') → spec P body Q → spec P (retrying n body) Q.
Proof.
  intros HP Hbody. induction n as [|n IH]; [apply spec_throw|].
  intros w Hw. cbn [retrying]. unfold mbind, M_bind, attempt. destruct (Hbody w Hw) as [Hin HQ].
  destruct (body w) as [w' r] eqn:Hrun. simpl in *.
  destruct r as [e|a]; [|by split; [|intros ? [= <-]; apply HQ]].
  destruct e; simpl; try (split; [done|discriminate]).
  assert (holds P w') as Hw'.
  { eapply within_holds; [done..|]. eapply HP; [apply Hin|apply Hw]. }
  destruct (IH w' Hw') as [Hin' HQ']. split; [|done].
  by apply (WR_preorder.(PreOrder_Transitive) w w' _); [intros _|intros _|apply Hw].
Qed.
End triples.

(** Facts that hold of the results of [m] whatever the state. *)
Lemma spec_fact {A} o P (m : RM A) Q (φ : A → Prop) :
  spec o P m Q → (∀ w w' a, m w = (w', inr a) → φ a) → spec o P m (λ a d wt, φ a ∧ Q a d wt).
Proof.
  intros Hm Hφ w Hw. destruct (Hm w Hw) as [Hin HQ]. split; [done|]. intros a Ha.
  split; [|by apply HQ]. apply (Hφ w (m w).1). by rewrite <- Ha, <- surjective_pairing.
Qed.
(** What the interference preserves survives a computation that respects it. *)
Lemma spec_keep {A} o (P : DB → Prop) (m : RM A) :
  guar WR m → (∀ d d', R d d' → P d → P d') → spec o (λ d _, P d) m (λ _ d _, P d).
Proof. intros Hm HP w Hw. split; [apply Hm, Hw|]. intros a _. eapply HP; [apply Hm, Hw|apply Hw]. Qed.

(** Frame rule for facts the interference preserves. *)
Lemma spec_frame {A} o (P : DB → watch_state → Prop) (m : RM A) Q (F : DB → Prop) :
  (∀ d d', R d d' → F d → F d') → spec o P m Q →
  spec o (λ d wt, P d wt ∧ F d) m (λ a d wt, Q a d wt ∧ F d).
Proof.
  intros HF Hm w (He & Hc & Ht & Hp & Hf). destruct (Hm w) as [Hin HQ]; [done|].
  split; [done|]. intros a Ha. split; [by apply HQ|]. eapply HF; [apply Hin|done].
Qed.

Lemma spec_attempt_closed {A} o (P : DB → Prop) (m : RM A) Q :
  (∀ d d', R d d' → P d → P d') → spec o (λ d _, P d) m Q →
  spec o (λ d _, P d) (attempt m) (λ r d wt, (∀ a, r = inr a → Q a d wt) ∧ P d).
Proof.
  intros HP Hm w Hw. destruct (Hm w Hw) as [Hin HQ]. unfold attempt.
  destruct (m w) as [w' r]. simpl in *. split; [done|]. intros a [= <-]. split; [done|].
  eapply HP; [apply Hin|apply Hw].
Qed.

(** The collecting loop: every collected value has the property of the body. *)
Lemma spec_collectM {A B} o (f : A → RM (option B)) (P : DB → Prop) (ψ : B → DB → Prop) l :
  (∀ d d', R d d' → P d → P d') → (∀ b d d', R d d' → ψ b d → ψ b d') →
  (∀ a, spec o (λ d _, P d) (f a) (λ r d _, (∀ b, r = Some b → ψ b d) ∧ P d)) →
  spec o (λ d _, P d) (collectM f l) (λ bs d _, (∀ b, b ∈ bs → ψ b d) ∧ P d).
Proof.
  intros HP Hψ Hf. induction l as [|a l IH]; cbn [collectM].
  { apply spec_ret. intros d wt Hp. split; [|done]. intros b Hb. by apply elem_of_nil in Hb. }
  eapply spec_bind; [apply Hf|]. intros r.
  eapply spec_bind with (Q := λ bs d _, ((∀ b, b ∈ bs → ψ b d) ∧ P d) ∧ (∀ b, r = Some b → ψ b d)).
  { eapply spec_pre; [apply spec_frame; [|exact IH]|]; cbn beta.
    - intros d d' Hd Hr b Hb. eauto.
    - by intros d wt [? ?]. }
  intros bs. apply spec_ret. intros d wt [[Hbs Hp] Hr]. split; [|done].
  intros b Hb. destruct r as [b'|]; [|by apply Hbs]. apply elem_of_cons in Hb as [->|Hb]; auto.
Qed.

(** A triple applied to a successful run. *)
Lemma spec_run {A} P (m : RM A) Q w w' a :
  spec (oracle_of w) P m Q → env_ok w → P (w_db w) (w_watch w) → m w = (w', inr a) →
  within w w' ∧ Q a (w_db w') (w_watch w').
Proof.
  intros Hm He Hp Hrun. destruct (Hm w) as [Hin HQ]; [done|]. rewrite Hrun in Hin, HQ. eauto.
Qed.

(** A triple without knowledge is a guarantee. *)
Lemma guar_spec {A} (m : RM A) :
  (∀ o, spec o (λ _ _, True) m (λ _ _ _, True)) → guar WR m.
Proof. intros Hm w He. by apply (Hm (oracle_of w) w). Qed.
Lemma spec_guar {A} o (P : DB → watch_state → Prop) (m : RM A) :
  guar WR m → spec o P m (λ _ _ _, True).
Proof. intros Hm w Hw. split; [|done]. apply Hm, Hw. Qed.

Lemma guar_read {A} (f : DB → A) : guar WR (redis_read f : RM A).
Proof. apply guar_spec. intros o. by apply spec_read. Qed.
Lemma guar_now : guar WR (now : RM time).
Proof. apply guar_spec. intros o. eapply spec_post; [apply spec_now|done]. Qed.
Lemma guar_randomID pre : guar WR (randomID pre : RM string).
Proof. apply guar_spec. intros o. eapply spec_post; [apply spec_randomID|done]. Qed.
Lemma guar_write c : (∀ d, R d (r_exec c d)) → guar WR (redis_write c : RM ()).
Proof. intros HR. apply guar_spec. intros o. apply spec_write; eauto. by intros d d'. Qed.
Lemma guar_tx cs : (∀ d, R d (r_exec_all cs d)) → guar WR (tx_pipelined cs : RM ()).
Proof. intros HR. apply guar_spec. intros o. eapply spec_tx with (Q := λ _, True); eauto. by intros d d'. Qed.
Lemma guar_retry_watch {A} n ks (body : RM A) :
  (∀ o, spec o (λ d wt, True ∧ Sees ks (λ _, True) d wt) body (λ _ _ _, True)) →
  guar WR (retrying n (redis_watch ks body)).
Proof.
  intros Hb. apply guar_spec. intros o. apply spec_retrying; [done|].
  eapply spec_post; [eapply spec_watch with (Q := λ _ _, True); [done|apply Hb]|done].
Qed.
End logic.

(** ** Documents seen during a run *)

Section held.
Context {DB : Type} `{RL : RedisLaws DB} {E : Type}.
Context (R : relation DB) `{!PreOrder R}.
Abbreviation CM := (M (world DB) (rerror E)).

(** [k] held [v] at some moment of a run from [d0] to [d]. *)
Definition held {A} `{Json A} (d0 d : DB) (k : string) (v : A) : Prop :=
  ∃ d1, R d0 d1 ∧ R d1 d ∧ r_get d1 k = Some (marshal v).

Lemma held_weaken {A} `{Json A} d0 d d' k (v : A) : R d d' → held d0 d k v → held d0 d' k v.
Proof. intros Hd (d1 & ? & ? & ?). exists d1. split_and!; [done|by etrans|done]. Qed.
Lemma from_closed d0 (d d' : DB) : R d d' → R d0 d → R d0 d'.
Proof. intros ? ?. by etrans. Qed.

(** A read of one document, kept as [held]. *)
Lemma spec_get_held o k d0 (P : DB → Prop) :
  (∀ d d', R d d' → P d → P d') → (∀ d, P d → R d0 d) →
  spec R o (λ d _, P d) (redis_get k : CM _) (λ raw d _,
    (∃ d1, R d0 d1 ∧ R d1 d ∧ r_get d1 k = raw) ∧ P d).
Proof.
  intros HP Hd0. apply (spec_read R); [by apply stable_closed|].
  intros d wt Hp. split; [|done]. exists d. split_and!; eauto. reflexivity.
Qed.

(** A read of a typed document, whatever the handler makes of a missing one. *)
Lemma held_typed {A} `{Json A} k d0 (P : DB → Prop) (raw : option doc) (v : A) (d : DB) :
  raw ≫= unmarshal = Some v → (∃ d1, R d0 d1 ∧ R d1 d ∧ r_get d1 k = raw) ∧ P d → held d0 d k v ∧ P d.
Proof.
  intros Hraw [(d1 & ? & ? & Hget) ?]. apply bind_Some in Hraw as (doc & -> & ->%unmarshal_Some).
  split; [by exists d1|done].
Qed.
End held.

Lemma env_ok_anything {DB} (w : world DB) : env_ok anything w.
Proof. by apply Forall_forall. Qed.

#[export] Hint Resolve guar_read guar_now guar_randomID : guar.
#[export] Hint Extern 1 (guar _ (redis_get _)) => unfold redis_get : guar.
#[export] Hint Extern 1 (guar _ (redis_smembers _)) => unfold redis_smembers : guar.
#[export] Hint Extern 1 (guar _ (redis_sismember _ _)) => unfold redis_sismember : guar.
#[export] Hint Extern 1 (guar _ (redis_exists _)) => unfold redis_exists : guar.
#[export] Hint Extern 1 (guar _ (redis_lrange _ _ _)) => unfold redis_lrange : guar.
(** An exhausted environment: a quiet server. *)
Lemma env_ok_quiet {DB} (R : relation DB) (w : world DB) : w_env w = [] → env_ok R w.
Proof. unfold env_ok. intros ->. apply Forall_nil_2. Qed.
