(* ===== verification/MemRedis.v ===== *)
(** * An in-memory implementation of the Redis interface

    Strings, sets and lists as finite maps, without expiry.  It discharges the
    laws of [RedisLaws], so they are consistent, and it runs the witnesses. *)

From S2P Require Import Prelude GoString Protocol Auth Records Redis RedisLogic.

Local Open Scope Z_scope.

Record memdb := mkMem {
  m_str : gmap string doc; m_set : gmap string (gset string); m_list : gmap string (list doc) }.

Definition mem_empty : memdb := mkMem ∅ ∅ ∅.
Definition mem_members (d : memdb) (k : string) : gset string := default ∅ (m_set d !! k).
Definition mem_items (d : memdb) (k : string) : list doc := default [] (m_list d !! k).

(** Redis index ranges: inclusive, negative from the end. *)
Definition range_index (n i : Z) : Z := if i <? 0 then Z.max 0 (n + i) else i.
Definition list_range {A} (l : list A) (start stop : Z) : list A :=
  let n := Z.of_nat (length l) in
  let a := range_index n start in
  let b := if stop <? 0 then n + stop else stop in
  if b <? a then [] else take (Z.to_nat (b - a + 1)) (drop (Z.to_nat a) l).

Definition mem_exec (c : cmd) (d : memdb) : memdb :=
  match c with
  | CSet k v _ => mkMem (<[k:=v]> (m_str d)) (m_set d) (m_list d)
  | CDel k => mkMem (delete k (m_str d)) (delete k (m_set d)) (delete k (m_list d))
  | CExpire k ttl => if 0 <? ttl then d
      else mkMem (delete k (m_str d)) (delete k (m_set d)) (delete k (m_list d))
  | CSAdd k m => mkMem (m_str d) (<[k := {[m]} ∪ mem_members d k]> (m_set d)) (m_list d)
  | CSRem k m => mkMem (m_str d) (<[k := mem_members d k ∖ {[m]}]> (m_set d)) (m_list d)
  | CLPush k v => mkMem (m_str d) (m_set d) (<[k := v :: mem_items d k]> (m_list d))
  | CLTrim k a b => mkMem (m_str d) (m_set d) (<[k := list_range (mem_items d k) a b]> (m_list d))
  end.

Definition same_at (d d' : memdb) (k : string) : bool :=
  bool_decide (m_str d !! k = m_str d' !! k) && bool_decide (mem_members d k = mem_members d' k) &&
  bool_decide (mem_items d k = mem_items d' k).

#[export] Instance mem_redis : RedisServer memdb := {
  r_get d k := m_str d !! k;
  r_smembers d k := elements (mem_members d k);
  r_lrange d k a b := list_range (mem_items d k) a b;
  r_exec := mem_exec;
  r_unmodified ks d d' := forallb (same_at d d') ks;
}.

Lemma mem_get_other d c k : cmd_key c ≠ k → m_str (mem_exec c d) !! k = m_str d !! k.
Proof.
  destruct c; simpl; intros Hk; try done.
  - by rewrite lookup_insert_ne.
  - by rewrite lookup_delete_ne.
  - case_match; [done|]. simpl. by rewrite lookup_delete_ne.
Qed.

Lemma mem_members_other d c k : cmd_key c ≠ k → mem_members (mem_exec c d) k = mem_members d k.
Proof.
  unfold mem_members. destruct c; simpl; intros Hk; try done.
  - by rewrite lookup_delete_ne.
  - case_match; [done|]. simpl. by rewrite lookup_delete_ne.
  - by rewrite lookup_insert_ne.
  - by rewrite lookup_insert_ne.
Qed.

Lemma same_at_spec d d' k :
  same_at d d' k = true →
  m_str d !! k = m_str d' !! k ∧ mem_members d k = mem_members d' k ∧ mem_items d k = mem_items d' k.
Proof. unfold same_at. intros ?. orb_split. done. Qed.

#[export] Instance mem_redis_laws : RedisLaws memdb.
Proof.
  split.
  - intros. simpl. by rewrite lookup_insert_eq.
  - intros. simpl. by rewrite lookup_delete_eq.
  - intros d k ttl Ht. simpl. by rewrite (proj2 (Z.ltb_lt 0 ttl) Ht).
  - intros. by apply mem_get_other.
  - intros. simpl. rewrite !elem_of_elements. unfold mem_members at 1. simpl. rewrite lookup_insert_eq.
    simpl. set_solver.
  - intros. simpl. rewrite !elem_of_elements. unfold mem_members at 1. simpl. rewrite lookup_insert_eq.
    simpl. set_solver.
  - intros d k ttl x Ht. simpl. by rewrite (proj2 (Z.ltb_lt 0 ttl) Ht).
  - intros. simpl. rewrite !elem_of_elements. unfold mem_members. simpl. by rewrite lookup_delete_eq.
  - intros. simpl. by rewrite !elem_of_elements, mem_members_other.
  - intros ks d. simpl. apply forallb_forall. intros k _. unfold same_at. by rewrite !bool_decide_true.
  - intros ks d d' k Hu Hk. simpl in *. rewrite forallb_forall in Hu.
    apply list_elem_of_In, Hu in Hk. by apply same_at_spec in Hk as (-> & _).
  - intros ks d d' k x Hu Hk. simpl in *. rewrite forallb_forall in Hu.
    apply list_elem_of_In, Hu in Hk. apply same_at_spec in Hk as (_ & Hm & _). by rewrite Hm.
Qed.

(** A world of the witnesses: a clock that advances one second per reading and
    a random source of distinct 16-byte strings. *)
Definition test_clock (n : nat) : time := (1700000000 + Z.of_nat n) * second.
Definition test_rand (n : nat) : string :=
  String.string_of_list_ascii (repeat (byte_of 0) 15) +:+ String.String (byte_of (Z.of_nat n)) "".
Definition test_world (d : memdb) : world memdb := quiet_world d test_clock test_rand.

(** The contents of a database as plain lists, the form in which the sample
    histories keep their intermediate states. *)
Record snapshot := mkSnapshot {
  s_str : list (string * doc); s_set : list (string * list string); s_list : list (string * list doc) }.
Definition take_snapshot (d : memdb) : snapshot :=
  mkSnapshot (map_to_list (m_str d)) (prod_map id elements <$> map_to_list (m_set d))
    (map_to_list (m_list d)).
Definition restore (s : snapshot) : memdb :=
  mkMem (list_to_map (s_str s)) (list_to_map (prod_map id list_to_set <$> s_set s))
    (list_to_map (s_list s)).

(** The world of a sample history that has read its clock [ticks] times and
    drawn [draws] random strings. *)
Definition sample_world (s : snapshot) (ticks draws : nat) : world memdb :=
  mkWorld (restore s) [] None test_clock ticks test_rand draws.
Definition snapshot_of (w : world memdb) : snapshot := take_snapshot (w_db w).

(** The side condition of the witnesses: a server without interference. *)
Ltac quiet := apply env_ok_quiet; vm_compute; reflexivity.
