(* ===== verification/LocalStore.v ===== *)
(** * Private files of the receiver ([internal/privatefs], as used)

    The receiver's stores keep a value in memory and its JSON in one private
    file.  [privatefs.AtomicWriteFile] replaces the file as a whole; it can
    fail before the replacement or after it (when the directory cannot be
    synced), and its caller cannot tell which.  The faults a run meets are an
    input of the model. *)

From S2P Require Import Prelude GoString.

(** What [privatefs.ReadFile] finds. *)
Inductive file_content (F : Type) := FileAbsent | FileUnreadable | FileGarbage | FileDoc (f : F).
Arguments FileAbsent {_}. Arguments FileUnreadable {_}. Arguments FileGarbage {_}. Arguments FileDoc {_}.

Inductive write_outcome := WriteDone | WriteRefused | WriteUnsynced.

Record local (S F : Type) := mkLocal {
  l_mem : S; l_file : file_content F;
  l_writes : list write_outcome;   (** exhausted: every write succeeds *)
  l_clock : nat → Z; l_ticks : nat }.
Arguments mkLocal {_ _}. Arguments l_mem {_ _}. Arguments l_file {_ _}. Arguments l_writes {_ _}.
Arguments l_clock {_ _}. Arguments l_ticks {_ _}.

Section local.
Context {S F E : Type}.
Abbreviation L := (M (local S F) E).

Definition with_mem (m : S) (w : local S F) : local S F :=
  mkLocal m (l_file w) (l_writes w) (l_clock w) (l_ticks w).
Definition with_file (f : file_content F) (ws : list write_outcome) (w : local S F) : local S F :=
  mkLocal (l_mem w) f ws (l_clock w) (l_ticks w).

Definition local_now : L Z := λ w,
  (mkLocal (l_mem w) (l_file w) (l_writes w) (l_clock w) (Datatypes.S (l_ticks w)), inr (l_clock w (l_ticks w))).
Definition get_mem : L S := gets l_mem.
Definition set_mem (m : S) : L () := modify (with_mem m).
Definition read_file : L (file_content F) := gets l_file.

(** [privatefs.AtomicWriteFile], its error reported as [e]. *)
Definition write_file (e : E) (f : F) : L () := λ w,
  match l_writes w with
  | [] => (with_file (FileDoc f) [] w, inr tt)
  | WriteDone :: ws => (with_file (FileDoc f) ws w, inr tt)
  | WriteRefused :: ws => (with_file (l_file w) ws w, inl e)
  | WriteUnsynced :: ws => (with_file (FileDoc f) ws w, inl e)
  end.

(** ** Rules *)

Lemma wp_local_now (Q : Z → local S F → Prop) X w :
  (∀ t, t = l_clock w (l_ticks w) →
     Q t (mkLocal (l_mem w) (l_file w) (l_writes w) (l_clock w) (Datatypes.S (l_ticks w)))) →
  wp local_now Q X w.
Proof. unfold wp, local_now. eauto. Qed.
Lemma wp_get_mem (Q : S → local S F → Prop) X w : Q (l_mem w) w → wp get_mem Q X w.
Proof. done. Qed.
Lemma wp_set_mem m (Q : () → local S F → Prop) X w : Q () (with_mem m w) → wp (set_mem m) Q X w.
Proof. done. Qed.
Lemma wp_read_file (Q : file_content F → local S F → Prop) X w : Q (l_file w) w → wp read_file Q X w.
Proof. done. Qed.

(** A write either publishes the value, or fails with the old file or the new
    one in place. *)
Lemma wp_write_file e f (Q : () → local S F → Prop) X w :
  (∀ ws, Q () (with_file (FileDoc f) ws w)) →
  (∀ ws f', f' = l_file w ∨ f' = FileDoc f → X e (with_file f' ws w)) →
  wp (write_file e f) Q X w.
Proof. intros HQ HX. unfold wp, write_file. repeat case_match; simplify_eq; auto. Qed.
End local.
