(* ===== verification/ApprovalStore.v ===== *)
(** * Standing approvals ([internal/receiver/approval_store.go])

    The recipient's local policy: which requests may be approved without
    asking, for how long and with how much access.  Definitions only; the
    theorems are in [ApprovalProofs]. *)

From S2P Require Import Prelude GoString Sha256 Protocol LocalStore.

Local Open Scope Z_scope.

Definition approvalStoreVersion : Z := 3.
Definition scopedApprovalStoreVersion : Z := 2.
Definition legacyApprovalStoreVersion : Z := 1.
Definition ApprovalConversationWindow : Z := 30 * 60 * second.

Inductive ApprovalLevel :=
  | ApprovalLevelAskAlways | ApprovalLevelConversation30m | ApprovalLevelTeammateAlways
  | ApprovalLevelAllAlways | ApprovalLevelOther (raw : string).
#[export] Instance ApprovalLevel_eq_dec : EqDecision ApprovalLevel.
Proof. solve_decision. Defined.
Definition level_string (l : ApprovalLevel) : string :=
  match l with
  | ApprovalLevelAskAlways => "ask_always" | ApprovalLevelConversation30m => "conversation_30m"
  | ApprovalLevelTeammateAlways => "teammate_always" | ApprovalLevelAllAlways => "all_always"
  | ApprovalLevelOther raw => raw
  end.

(** [ApprovalLevel.Valid] and [ApprovalLevel.standing] *)
Definition level_valid (l : ApprovalLevel) : bool :=
  match l with ApprovalLevelOther _ => false | _ => true end.
Definition standing (l : ApprovalLevel) : bool :=
  level_valid l && negb (bool_decide (l = ApprovalLevelAskAlways)).

Record ApprovalAuthority := mkAuthority { au_Fingerprint : string; au_RecipientAgentID : string }.
#[export] Instance ApprovalAuthority_eq_dec : EqDecision ApprovalAuthority.
Proof. solve_decision. Defined.

Record ApprovalAccessScope := mkScope {
  as_RequestedAccess : list RequestedAccess; as_MaxAttachmentCount : Z; as_MaxAttachmentBytes : Z }.
#[export] Instance ApprovalAccessScope_eq_dec : EqDecision ApprovalAccessScope.
Proof. solve_decision. Defined.

Record ApprovalCandidate := mkCandidate {
  ca_RequesterMemberID : string; ca_RequesterDisplayName : string; ca_ConversationID : string;
  ca_AccessScope : ApprovalAccessScope }.

Record ApprovalGrant := mkGrant {
  gr_GrantID : string; gr_Level : ApprovalLevel; gr_AuthorityFingerprint : string;
  gr_RecipientAgentID : string; gr_RequesterMemberID : string; gr_RequesterDisplayName : string;
  gr_ConversationID : string; gr_AccessCeiling : ApprovalAccessScope; gr_CreatedAt : time;
  gr_ExpiresAt : option time }.
#[export] Instance ApprovalGrant_eq_dec : EqDecision ApprovalGrant.
Proof. solve_decision. Defined.

Record ApprovalRevocation := mkRevocation {
  re_AuthorityFingerprint : string; re_RecipientAgentID : string; re_RevokedAt : time }.
#[export] Instance ApprovalRevocation_eq_dec : EqDecision ApprovalRevocation.
Proof. solve_decision. Defined.

Record approvalSnapshot := mkApprovalSnapshot {
  sn_Version : Z; sn_UpdatedAt : time; sn_Grants : gmap string ApprovalGrant;
  sn_Revocations : gmap string ApprovalRevocation }.

(** The fields of [ApprovalStore] that change. *)
Record approvals := mkApprovals {
  ap_grants : gmap string ApprovalGrant; ap_revocations : gmap string ApprovalRevocation }.

Inductive approval_error :=
  | PathRequired | DirectoryUnavailable | AuthorityInvalid | LevelInvalid | NotStanding | CandidateInvalid | ScopeInvalid
  | ConversationRequired | PreparedTimeRequired | ErrApprovalGrantRevoked
  | ErrApprovalGrantWindowExpired | GrantIDInvalid | PersistFailed | ReadFailed | ParseFailed
  | UnsupportedVersion | GrantIdentityInvalid | GrantInvalid | RevocationInvalid | GrantAndRevocation.
#[export] Instance approval_error_eq_dec : EqDecision approval_error.
Proof. solve_decision. Defined.

(** ** Normalisation and scope *)

(** [validApprovalValue] *)
Definition validApprovalValue (value : string) (maximum : Z) (allowSpaces : bool) : bool :=
  if bool_decide (value = "") || (maximum <? len value) then false
  else forallb (λ r, negb (is_control r || (negb allowSpaces && is_space r))) (runes value).

Definition normalizeApprovalAuthority (a : ApprovalAuthority) : approval_error + ApprovalAuthority :=
  let a := mkAuthority (trim_space (au_Fingerprint a)) (trim_space (au_RecipientAgentID a)) in
  if negb (validApprovalValue (au_Fingerprint a) 256 false) then inl AuthorityInvalid else
  if negb (validApprovalValue (au_RecipientAgentID a) 200 false) then inl AuthorityInvalid else inr a.

(** The loop of [normalizeApprovalAccessScope] over the requested access. *)
Fixpoint normalize_access (seen : gset string) (l : list RequestedAccess)
    : approval_error + list RequestedAccess :=
  match l with
  | [] => inr []
  | a :: l' =>
    let alias := trim_space (ra_WorkspaceAlias a) in
    if negb (validApprovalValue alias 200 false) || contains_any alias "/\\" then inl ScopeInvalid else
    if negb (bool_decide (ra_Mode a = PermissionReadOnly)) &&
       negb (bool_decide (ra_Mode a = PermissionGuardedWrite)) then inl ScopeInvalid else
    if bool_decide (alias ∈ seen) then inl ScopeInvalid else
    match normalize_access ({[alias]} ∪ seen) l' with
    | inl e => inl e
    | inr r => inr (mkRequestedAccess alias (ra_Mode a) :: r)
    end
  end.

Definition alias_le (a b : RequestedAccess) : Prop := str_leb (ra_WorkspaceAlias a) (ra_WorkspaceAlias b) = true.
#[export] Instance alias_le_dec a b : Decision (alias_le a b).
Proof. unfold alias_le. apply _. Defined.

Definition normalizeApprovalAccessScope (s : ApprovalAccessScope) : approval_error + ApprovalAccessScope :=
  if (as_MaxAttachmentCount s <? 0) || (MaxAttachments <? as_MaxAttachmentCount s) then inl ScopeInvalid else
  if (as_MaxAttachmentBytes s <? 0) || (MaxRequestPayloadBytes <? as_MaxAttachmentBytes s) then inl ScopeInvalid else
  if (as_MaxAttachmentCount s =? 0) && negb (as_MaxAttachmentBytes s =? 0) then inl ScopeInvalid else
  match normalize_access ∅ (as_RequestedAccess s) with
  | inl e => inl e
  | inr l => inr (mkScope (merge_sort alias_le l) (as_MaxAttachmentCount s) (as_MaxAttachmentBytes s))
  end.

Definition approvalPermissionRank (mode : PermissionMode) : Z :=
  if bool_decide (mode = PermissionGuardedWrite) then 1 else 0.

(** [allowed[access.WorkspaceAlias] = access.Mode], later entries overwriting. *)
Definition allowed_modes (l : list RequestedAccess) : gmap string PermissionMode :=
  foldl (λ m a, <[ra_WorkspaceAlias a := ra_Mode a]> m) ∅ l.

Definition approvalScopeCovers (ceiling requested : ApprovalAccessScope) : bool :=
  match normalizeApprovalAccessScope ceiling, normalizeApprovalAccessScope requested with
  | inr ceiling, inr requested =>
    if (as_MaxAttachmentCount ceiling <? as_MaxAttachmentCount requested) ||
       (as_MaxAttachmentBytes ceiling <? as_MaxAttachmentBytes requested) then false else
    let allowed := allowed_modes (as_RequestedAccess ceiling) in
    forallb (λ a,
      match allowed !! ra_WorkspaceAlias a with
      | None => false
      | Some mode => approvalPermissionRank (ra_Mode a) <=? approvalPermissionRank mode
      end) (as_RequestedAccess requested)
  | _, _ => false
  end.

Definition sameApprovalAccessScope (left right : ApprovalAccessScope) : bool :=
  (as_MaxAttachmentCount left =? as_MaxAttachmentCount right) &&
  (as_MaxAttachmentBytes left =? as_MaxAttachmentBytes right) &&
  bool_decide (as_RequestedAccess left = as_RequestedAccess right).

Definition normalizeApprovalCandidate (c : ApprovalCandidate) (requireMember : bool)
    : approval_error + ApprovalCandidate :=
  let member := trim_space (ca_RequesterMemberID c) in
  let display := trim_space (ca_RequesterDisplayName c) in
  let conv := trim_space (ca_ConversationID c) in
  if requireMember && negb (validApprovalValue member 200 false) then inl CandidateInvalid else
  if negb (bool_decide (member = "")) && negb (validApprovalValue member 200 false) then inl CandidateInvalid else
  if negb (bool_decide (conv = "")) && negb (validApprovalValue conv 200 false) then inl CandidateInvalid else
  if negb (bool_decide (display = "")) && negb (validApprovalValue display 200 true) then inl CandidateInvalid else
  match normalizeApprovalAccessScope (ca_AccessScope c) with
  | inl e => inl e
  | inr scope => inr (mkCandidate member display conv scope)
  end.

(** ** Grants *)

Definition validApprovalGrantID (value : string) : bool :=
  has_prefix value "grant_" && (len value =? 6 + 64) && bool_decide (is_Some (hex_decode (drop_bytes 6 value))).

Definition nul : string := String.String (byte_of 0) "".

(** The payload whose digest names a grant. *)
Definition grant_payload (a : ApprovalAuthority) (level : ApprovalLevel) (member conv : string) : string :=
  join nul ["team-relay-approval-grant/v2"; au_Fingerprint a; au_RecipientAgentID a; level_string level; member; conv].
(** The part of the candidate a level is about. *)
Definition grant_member (level : ApprovalLevel) (c : ApprovalCandidate) : string :=
  match level with
  | ApprovalLevelConversation30m | ApprovalLevelTeammateAlways => ca_RequesterMemberID c
  | _ => ""
  end.
Definition grant_conversation (level : ApprovalLevel) (c : ApprovalCandidate) : string :=
  match level with ApprovalLevelConversation30m => ca_ConversationID c | _ => "" end.
Definition stableApprovalGrantID (a : ApprovalAuthority) (level : ApprovalLevel) (c : ApprovalCandidate) : string :=
  "grant_" +:+ sha256_hex (grant_payload a level (grant_member level c) (grant_conversation level c)).

Definition newApprovalGrant (a : ApprovalAuthority) (level : ApprovalLevel) (c : ApprovalCandidate) (now : time)
    : ApprovalGrant :=
  let grant member display conv expires :=
    mkGrant (stableApprovalGrantID a level c) level (au_Fingerprint a) (au_RecipientAgentID a) member display conv
      (ca_AccessScope c) now expires in
  match level with
  | ApprovalLevelConversation30m =>
    grant (ca_RequesterMemberID c) (ca_RequesterDisplayName c) (ca_ConversationID c)
      (Some (now + ApprovalConversationWindow))
  | ApprovalLevelTeammateAlways => grant (ca_RequesterMemberID c) (ca_RequesterDisplayName c) "" None
  | _ => grant "" "" "" None
  end.

Definition approvalGrantExpired (g : ApprovalGrant) (now : time) : bool :=
  match gr_ExpiresAt g with Some t => negb (now <? t) | None => false end.

Definition gr_authority (g : ApprovalGrant) : ApprovalAuthority :=
  mkAuthority (gr_AuthorityFingerprint g) (gr_RecipientAgentID g).
Definition gr_candidate (g : ApprovalGrant) : ApprovalCandidate :=
  mkCandidate (gr_RequesterMemberID g) (gr_RequesterDisplayName g) (gr_ConversationID g) (gr_AccessCeiling g).

(** The level's own condition on subject and expiry. *)
Definition grant_shape (g : ApprovalGrant) (c : ApprovalCandidate) : bool :=
  match gr_Level g with
  | ApprovalLevelConversation30m =>
    negb (bool_decide (ca_RequesterMemberID c = "")) && negb (bool_decide (ca_ConversationID c = "")) &&
    bool_decide (gr_ExpiresAt g = Some (gr_CreatedAt g + ApprovalConversationWindow))
  | ApprovalLevelTeammateAlways =>
    negb (bool_decide (ca_RequesterMemberID c = "")) && bool_decide (ca_ConversationID c = "") &&
    bool_decide (gr_ExpiresAt g = None)
  | ApprovalLevelAllAlways =>
    bool_decide (ca_RequesterMemberID c = "") && bool_decide (ca_RequesterDisplayName c = "") &&
    bool_decide (ca_ConversationID c = "") && bool_decide (gr_ExpiresAt g = None)
  | _ => true
  end.

(** [validateApprovalGrant(grant) == nil] *)
Definition validateApprovalGrant (g : ApprovalGrant) : bool :=
  match normalizeApprovalAuthority (gr_authority g) with
  | inl _ => false
  | inr authority =>
    bool_decide (authority = gr_authority g) && standing (gr_Level g) && negb (is_zero_time (gr_CreatedAt g)) &&
    match normalizeApprovalCandidate (gr_candidate g) (negb (bool_decide (gr_Level g = ApprovalLevelAllAlways))) with
    | inl _ => false
    | inr c =>
      bool_decide (ca_RequesterMemberID c = gr_RequesterMemberID g) &&
      bool_decide (ca_RequesterDisplayName c = gr_RequesterDisplayName g) &&
      bool_decide (ca_ConversationID c = gr_ConversationID g) &&
      sameApprovalAccessScope (ca_AccessScope c) (gr_AccessCeiling g) && grant_shape g c &&
      bool_decide (gr_GrantID g = stableApprovalGrantID authority (gr_Level g) c) && validApprovalGrantID (gr_GrantID g)
    end
  end.

Definition approvalPrecedence (l : ApprovalLevel) : Z :=
  match l with
  | ApprovalLevelConversation30m => 0 | ApprovalLevelTeammateAlways => 1 | ApprovalLevelAllAlways => 2 | _ => 3
  end.

(** ** Operations *)

Abbreviation approval_world := (local approvals approvalSnapshot).
Abbreviation AP := (M approval_world approval_error).

Definition snapshot_of (m : approvals) (t : time) : approvalSnapshot :=
  mkApprovalSnapshot approvalStoreVersion t (ap_grants m) (ap_revocations m).
Definition writeLocked : AP () :=
  t ← local_now;
  m ← get_mem;
  write_file PersistFailed (snapshot_of m t).

(** [if err := s.writeLocked(); err != nil { s.grants = before; ...; return err }] *)
Definition persist (before : approvals) : AP () :=
  r ← attempt writeLocked;
  match r with
  | inl e => set_mem before ≫= λ _, throw e
  | inr _ => mret ()
  end.
Definition persist_if (changed : bool) (before : approvals) : AP () :=
  if changed then persist before else mret ().

Definition prune_keeps (a : ApprovalAuthority) (now : time) (g : ApprovalGrant) : bool :=
  negb (negb (bool_decide (gr_AuthorityFingerprint g = au_Fingerprint a)) ||
        negb (bool_decide (gr_RecipientAgentID g = au_RecipientAgentID a)) || approvalGrantExpired g now).
Definition pruned (a : ApprovalAuthority) (now : time) (m : approvals) : approvals :=
  mkApprovals (filter (λ kv, prune_keeps a now kv.2 = true) (ap_grants m)) (ap_revocations m).
(** [pruneLocked]: how many grants were removed. *)
Definition pruneLocked (a : ApprovalAuthority) (now : time) : AP Z :=
  m ← get_mem;
  let m' := pruned a now m in
  set_mem m' ≫= λ _,
  mret (Z.of_nat (size (ap_grants m)) - Z.of_nat (size (ap_grants m'))).
Definition pruneAndPersistLocked (a : ApprovalAuthority) (now : time) : AP Z :=
  before ← get_mem;
  removed ← pruneLocked a now;
  if removed =? 0 then mret 0 else
  persist before ≫= λ _, mret removed.

Definition grant_before (x y : ApprovalGrant) : bool :=
  let px := approvalPrecedence (gr_Level x) in
  let py := approvalPrecedence (gr_Level y) in
  if negb (px =? py) then px <? py else
  if negb (gr_CreatedAt x =? gr_CreatedAt y) then gr_CreatedAt x <? gr_CreatedAt y else
  str_leb (gr_GrantID x) (gr_GrantID y).
Definition grant_order (x y : ApprovalGrant) : Prop := grant_before x y = true.
#[export] Instance grant_order_dec x y : Decision (grant_order x y).
Proof. unfold grant_order. apply _. Defined.

Definition List_ (a0 : ApprovalAuthority) : AP (list ApprovalGrant) :=
  a ← lift (normalizeApprovalAuthority a0);
  t ← local_now;
  pruneAndPersistLocked a t ≫= λ _,
  m ← get_mem;
  mret (merge_sort grant_order (map_to_list (ap_grants m)).*2).

Definition zero_grant : ApprovalGrant :=
  mkGrant "" (ApprovalLevelOther "") "" "" "" "" "" (mkScope [] 0 0) zero_time None.
Definition set_ceiling (g : ApprovalGrant) (scope : ApprovalAccessScope) (display : string) : ApprovalGrant :=
  mkGrant (gr_GrantID g) (gr_Level g) (gr_AuthorityFingerprint g) (gr_RecipientAgentID g)
    (gr_RequesterMemberID g) display (gr_ConversationID g) scope (gr_CreatedAt g) (gr_ExpiresAt g).

(** The end shared by [Upsert] and [RestorePrepared]: keep, widen or insert. *)
Definition install_grant (grant : ApprovalGrant) (candidate : ApprovalCandidate) (changed : bool)
    (before : approvals) : AP ApprovalGrant :=
  m ← get_mem;
  match ap_grants m !! gr_GrantID grant with
  | Some existing =>
    if negb (approvalScopeCovers (gr_AccessCeiling existing) (ca_AccessScope candidate)) then
      let existing := set_ceiling existing (ca_AccessScope candidate) (gr_RequesterDisplayName grant) in
      set_mem (mkApprovals (<[gr_GrantID grant := existing]> (ap_grants m)) (ap_revocations m)) ≫= λ _,
      persist before ≫= λ _, mret existing
    else
      persist_if changed before ≫= λ _, mret existing
  | None =>
    set_mem (mkApprovals (<[gr_GrantID grant := grant]> (ap_grants m)) (ap_revocations m)) ≫= λ _,
    persist before ≫= λ _, mret grant
  end.

Definition Upsert (a0 : ApprovalAuthority) (level : ApprovalLevel) (candidate0 : ApprovalCandidate) : AP ApprovalGrant :=
  a ← lift (normalizeApprovalAuthority a0);
  reject_if (negb (level_valid level)) LevelInvalid ≫= λ _,
  candidate ← (if standing level then
    candidate ← lift (normalizeApprovalCandidate candidate0 true);
    reject_if (bool_decide (level = ApprovalLevelConversation30m) && bool_decide (ca_ConversationID candidate = ""))
      ConversationRequired ≫= λ _,
    mret candidate
  else mret candidate0);
  before ← get_mem;
  t ← local_now;
  removed ← pruneLocked a t;
  let changed := 0 <? removed in
  if bool_decide (level = ApprovalLevelAskAlways) then
    persist_if changed before ≫= λ _, mret zero_grant
  else
  let grant := newApprovalGrant a level candidate t in
  m ← get_mem;
  let revoked := bool_decide (is_Some (ap_revocations m !! gr_GrantID grant)) in
  (if revoked then set_mem (mkApprovals (ap_grants m) (delete (gr_GrantID grant) (ap_revocations m))) else mret ()) ≫= λ _,
  install_grant grant candidate (changed || revoked) before.

Definition RestorePrepared (a0 : ApprovalAuthority) (level : ApprovalLevel) (candidate0 : ApprovalCandidate)
    (grantedAt : time) : AP ApprovalGrant :=
  a ← lift (normalizeApprovalAuthority a0);
  reject_if (negb (standing level)) NotStanding ≫= λ _,
  candidate ← lift (normalizeApprovalCandidate candidate0 true);
  reject_if (bool_decide (level = ApprovalLevelConversation30m) && bool_decide (ca_ConversationID candidate = ""))
    ConversationRequired ≫= λ _,
  reject_if (is_zero_time grantedAt) PreparedTimeRequired ≫= λ _,
  before ← get_mem;
  t ← local_now;
  let grantedAt := if t <? grantedAt then t else grantedAt in
  removed ← pruneLocked a t;
  let changed := 0 <? removed in
  let grant := newApprovalGrant a level candidate grantedAt in
  m ← get_mem;
  if bool_decide (is_Some (ap_revocations m !! gr_GrantID grant)) then
    persist_if changed before ≫= λ _, throw ErrApprovalGrantRevoked
  else if approvalGrantExpired grant t then
    persist_if changed before ≫= λ _, throw ErrApprovalGrantWindowExpired
  else install_grant grant candidate changed before.

Definition Revoke (a0 : ApprovalAuthority) (grantID0 : string) : AP bool :=
  a ← lift (normalizeApprovalAuthority a0);
  let grantID := trim_space grantID0 in
  reject_if (negb (validApprovalGrantID grantID)) GrantIDInvalid ≫= λ _,
  before ← get_mem;
  t ← local_now;
  removed ← pruneLocked a t;
  m ← get_mem;
  let existed := bool_decide (is_Some (ap_grants m !! grantID)) in
  (if existed then
     t' ← local_now;
     set_mem (mkApprovals (delete grantID (ap_grants m))
       (<[grantID := mkRevocation (au_Fingerprint a) (au_RecipientAgentID a) t']> (ap_revocations m)))
   else mret ()) ≫= λ _,
  persist_if ((0 <? removed) || existed) before ≫= λ _,
  mret existed.

Definition Prune (a0 : ApprovalAuthority) : AP Z :=
  a ← lift (normalizeApprovalAuthority a0);
  t ← local_now;
  pruneAndPersistLocked a t.

(** The level loop of [Match]. *)
Fixpoint match_levels (a : ApprovalAuthority) (c : ApprovalCandidate) (grants : gmap string ApprovalGrant)
    (levels : list ApprovalLevel) : option ApprovalGrant :=
  match levels with
  | [] => None
  | level :: levels' =>
    if bool_decide (level = ApprovalLevelConversation30m) && bool_decide (ca_ConversationID c = "")
    then match_levels a c grants levels' else
    match grants !! stableApprovalGrantID a level c with
    | Some grant =>
      if approvalScopeCovers (gr_AccessCeiling grant) (ca_AccessScope c) then Some grant
      else match_levels a c grants levels'
    | None => match_levels a c grants levels'
    end
  end.
Definition Match (a0 : ApprovalAuthority) (c0 : ApprovalCandidate) : AP (option ApprovalGrant) :=
  a ← lift (normalizeApprovalAuthority a0);
  c ← lift (normalizeApprovalCandidate c0 false);
  t ← local_now;
  pruneAndPersistLocked a t ≫= λ _,
  if bool_decide (ca_RequesterMemberID c = "") then mret None else
  m ← get_mem;
  mret (match_levels a c (ap_grants m)
    [ApprovalLevelConversation30m; ApprovalLevelTeammateAlways; ApprovalLevelAllAlways]).

(** ** Loading *)

(** The grants loop of [load]; each validated grant costs a clock reading. *)
Fixpoint load_grants (l : list (string * ApprovalGrant)) (kept : gmap string ApprovalGrant)
    : AP (gmap string ApprovalGrant) :=
  match l with
  | [] => mret kept
  | (id, g) :: l' =>
    reject_if (bool_decide (id = "") || negb (bool_decide (id = gr_GrantID g))) GrantIdentityInvalid ≫= λ _,
    reject_if (negb (validateApprovalGrant g)) GrantInvalid ≫= λ _,
    t ← local_now;
    if approvalGrantExpired g t then load_grants l' kept else load_grants l' (<[id := g]> kept)
  end.

Definition revocation_valid (id : string) (r : ApprovalRevocation) : bool :=
  validApprovalGrantID id && negb (is_zero_time (re_RevokedAt r)) &&
  bool_decide (normalizeApprovalAuthority (mkAuthority (re_AuthorityFingerprint r) (re_RecipientAgentID r)) =
    inr (mkAuthority (re_AuthorityFingerprint r) (re_RecipientAgentID r))).
Fixpoint load_revocations (grants : gmap string ApprovalGrant) (l : list (string * ApprovalRevocation))
    (kept : gmap string ApprovalRevocation) : AP (gmap string ApprovalRevocation) :=
  match l with
  | [] => mret kept
  | (id, r) :: l' =>
    reject_if (negb (revocation_valid id r)) RevocationInvalid ≫= λ _,
    reject_if (bool_decide (is_Some (grants !! id))) GrantAndRevocation ≫= λ _,
    load_revocations grants l' (<[id := r]> kept)
  end.

Definition load : AP () :=
  f ← read_file;
  match f with
  | FileAbsent => writeLocked
  | FileUnreadable => throw ReadFailed
  | FileGarbage => throw ParseFailed
  | FileDoc s =>
    if sn_Version s =? legacyApprovalStoreVersion then
      set_mem (mkApprovals ∅ ∅) ≫= λ _, writeLocked
    else if negb (sn_Version s =? approvalStoreVersion) && negb (sn_Version s =? scopedApprovalStoreVersion)
    then throw UnsupportedVersion
    else
      grants ← load_grants (map_to_list (sn_Grants s)) ∅;
      revocations ← load_revocations grants (map_to_list (sn_Revocations s)) ∅;
      set_mem (mkApprovals grants revocations) ≫= λ _,
      if negb (bool_decide (size grants = size (sn_Grants s))) || (sn_Version s =? scopedApprovalStoreVersion)
      then writeLocked else mret ()
  end.
Definition Reload : AP () := load.

(** [NewApprovalStore]: a store of its own, loaded from the file; the directory
    is resolved and prepared by the file system. *)
Definition NewApprovalStore (path : string) (directory_ready : bool) : AP () :=
  reject_if (bool_decide (trim_space path = "")) PathRequired ≫= λ _,
  reject_if (negb directory_ready) DirectoryUnavailable ≫= λ _,
  set_mem (mkApprovals ∅ ∅) ≫= λ _, load.
