(* ===== verification/Binding.v ===== *)
(** * What an approval is bound to ([internal/receiver], pure parts)

    The immutable approval metadata kept beside a durable decision
    ([approvedNoticeBinding] of [mutation_store.go]) and the comparisons of
    [service.go] that tie a notice, a proposal and an execution payload to it. *)

From S2P Require Import Prelude GoString Sha256 Protocol LocalStore ApprovalStore.

Local Open Scope Z_scope.

Definition approvedNoticeBindingVersion : Z := 1.

Record approvedNoticeBinding := mkBinding {
  bd_Version : Z; bd_RequestID : string; bd_ConversationID : string; bd_RequesterAgentID : string;
  bd_RequesterMemberID : string; bd_RequesterDisplayName : string; bd_Title : string; bd_ExpiresAt : time;
  bd_RequestedAccess : list RequestedAccess; bd_Attachments : list ArtifactDescriptor;
  bd_PromptBytes : Z; bd_PromptSHA256 : string }.
#[export] Instance approvedNoticeBinding_eq_dec : EqDecision approvedNoticeBinding.
Proof. solve_decision. Defined.

(** The signed 64-bit sum of Go. *)
Definition wrap64 (z : Z) : Z := (z + 2 ^ 63) mod 2 ^ 64 - 2 ^ 63.
Definition attachment_bytes (l : list ArtifactDescriptor) : Z :=
  foldl (λ total d, wrap64 (total + ad_SizeBytes d)) 0 l.

(** [len(decoded) == sha256.Size] of a hexadecimal digest. *)
Definition valid_digest (digest : string) : bool :=
  match hex_decode digest with Some d => len d =? 32 | None => false end.

Inductive binding_error := BindingVersion | BindingRequestID | BindingPromptBytes | BindingDigest.
Definition validateApprovedNoticeBinding (b : approvedNoticeBinding) (requestID : string) : binding_error + () :=
  fail_if (negb (bd_Version b =? approvedNoticeBindingVersion)) BindingVersion ≫= λ _,
  fail_if (bool_decide (bd_RequestID b = "") || negb (bool_decide (bd_RequestID b = requestID))) BindingRequestID ≫= λ _,
  fail_if (bd_PromptBytes b <? 0) BindingPromptBytes ≫= λ _,
  let digest := trim_space (bd_PromptSHA256 b) in
  fail_if (negb (bool_decide (digest = "")) && negb (valid_digest digest)) BindingDigest.

Definition sameRequestedAccess (l r : list RequestedAccess) : bool := bool_decide (l = r).
Definition sameArtifactDescriptors (l r : list ArtifactDescriptor) : bool := bool_decide (l = r).

(** [validLocalOpaqueID] *)
Definition validLocalOpaqueID (value prefix : string) : bool :=
  (len value =? len prefix + 64) && bool_decide (take_bytes (String.length prefix) value = prefix) &&
  bool_decide (is_Some (hex_decode (drop_bytes (String.length prefix) value))).

(** The candidate a standing approval is derived from or matched with. *)
Inductive candidate_error := MemberRequired | ConversationIDRequired.
Definition approvalCandidateForNotice (n : RequestNotice) : candidate_error + ApprovalCandidate :=
  let c := mkCandidate (trim_space (nt_RequesterMemberID n)) (trim_space (nt_RequesterDisplayName n))
    (trim_space (nt_ConversationID n))
    (mkScope (nt_RequestedAccess n) (Z.of_nat (length (nt_Attachments n))) (attachment_bytes (nt_Attachments n))) in
  fail_if (bool_decide (ca_RequesterMemberID c = "")) MemberRequired ≫= λ _,
  fail_if (bool_decide (ca_ConversationID c = "")) ConversationIDRequired ≫= λ _,
  mret c.

Section binding.
Context `{UT : UnicodeTables}.

Definition approvedNoticeBindingFor (n : RequestNotice) : binding_error + approvedNoticeBinding :=
  let b := mkBinding approvedNoticeBindingVersion (nt_RequestID n) (nt_ConversationID n) (nt_RequesterAgentID n)
    (nt_RequesterMemberID n) (nt_RequesterDisplayName n) (nt_Title n) (nt_ExpiresAt n) (nt_RequestedAccess n)
    (nt_Attachments n) (nt_PromptBytes n) (to_lower (trim_space (nt_PromptSHA256 n))) in
  validateApprovedNoticeBinding b (nt_RequestID n) ≫= λ _, mret b.

Definition sameApprovedNoticeBinding (l r : approvedNoticeBinding) : bool :=
  (bd_Version l =? bd_Version r) && bool_decide (bd_RequestID l = bd_RequestID r) &&
  bool_decide (bd_ConversationID l = bd_ConversationID r) && bool_decide (bd_RequesterAgentID l = bd_RequesterAgentID r) &&
  bool_decide (bd_RequesterMemberID l = bd_RequesterMemberID r) &&
  bool_decide (bd_RequesterDisplayName l = bd_RequesterDisplayName r) && bool_decide (bd_Title l = bd_Title r) &&
  (bd_ExpiresAt l =? bd_ExpiresAt r) && sameRequestedAccess (bd_RequestedAccess l) (bd_RequestedAccess r) &&
  sameArtifactDescriptors (bd_Attachments l) (bd_Attachments r) && (bd_PromptBytes l =? bd_PromptBytes r) &&
  equal_fold (trim_space (bd_PromptSHA256 l)) (trim_space (bd_PromptSHA256 r)).

Inductive notice_error := NoticeInvalid (e : binding_error) | NoticeChanged.
Definition validateNoticeAgainstApprovedBinding (n : RequestNotice) (b : approvedNoticeBinding) : notice_error + () :=
  match approvedNoticeBindingFor n with
  | inl e => inl (NoticeInvalid e)
  | inr candidate => fail_if (negb (sameApprovedNoticeBinding b candidate)) NoticeChanged
  end.

(** Which field of the payload differs. *)
Inductive payload_error :=
  | RequestIDChanged | ConversationIDChanged | RequesterAgentChanged | RequesterMemberChanged | RequesterNameChanged
  | TitleChanged | ExpiryChanged | AccessChanged | AttachmentsChanged | PromptBytesChanged | DigestMissing | PromptDigestChanged.

Definition validateExecutionPayloadAgainstApprovedBinding (b : approvedNoticeBinding) (p : ExecutionPayload)
    : payload_error + () :=
  fail_if (negb (bool_decide (ep_RequestID p = bd_RequestID b))) RequestIDChanged ≫= λ _,
  fail_if (negb (bool_decide (ep_ConversationID p = bd_ConversationID b))) ConversationIDChanged ≫= λ _,
  fail_if (negb (bool_decide (ep_RequesterAgentID p = bd_RequesterAgentID b))) RequesterAgentChanged ≫= λ _,
  fail_if (negb (bool_decide (ep_RequesterMemberID p = bd_RequesterMemberID b))) RequesterMemberChanged ≫= λ _,
  fail_if (negb (bool_decide (ep_RequesterDisplayName p = bd_RequesterDisplayName b))) RequesterNameChanged ≫= λ _,
  fail_if (negb (bool_decide (ep_Title p = bd_Title b))) TitleChanged ≫= λ _,
  fail_if (negb (ep_ExpiresAt p =? bd_ExpiresAt b)) ExpiryChanged ≫= λ _,
  fail_if (negb (sameRequestedAccess (ep_RequestedAccess p) (bd_RequestedAccess b))) AccessChanged ≫= λ _,
  fail_if (negb (sameArtifactDescriptors (ep_Attachments p) (bd_Attachments b))) AttachmentsChanged ≫= λ _,
  fail_if ((bd_PromptBytes b <? 0) || negb (len (ep_Prompt p) =? bd_PromptBytes b)) PromptBytesChanged ≫= λ _,
  let wantDigest := trim_space (bd_PromptSHA256 b) in
  fail_if (negb (valid_digest wantDigest)) DigestMissing ≫= λ _,
  fail_if (negb (equal_fold (sha256_hex (ep_Prompt p)) wantDigest)) PromptDigestChanged.

Definition validateExecutionPayload (n : RequestNotice) (p : ExecutionPayload) : (binding_error + payload_error) + () :=
  match approvedNoticeBindingFor n with
  | inl e => inl (inl e)
  | inr b => match validateExecutionPayloadAgainstApprovedBinding b p with inl e => inl (inr e) | inr _ => inr () end
  end.

(** [validateProposal(notice, proposal) == nil] *)
Definition validateProposal (n : RequestNotice) (p : ProposalPayload) : bool :=
  bool_decide (pp_RequestID p = nt_RequestID n) && bool_decide (pp_ConversationID p = nt_ConversationID n) &&
  bool_decide (pp_RequesterAgentID p = nt_RequesterAgentID n) && bool_decide (pp_RequesterMemberID p = nt_RequesterMemberID n) &&
  bool_decide (pp_RequesterDisplayName p = nt_RequesterDisplayName n) && bool_decide (pp_Title p = nt_Title n) &&
  (pp_ExpiresAt p =? nt_ExpiresAt n) && sameRequestedAccess (pp_RequestedAccess p) (nt_RequestedAccess n) &&
  sameArtifactDescriptors (pp_Attachments p) (nt_Attachments n) &&
  (if negb (nt_PromptBytes n =? 0) || negb (bool_decide (nt_PromptSHA256 n = "")) then
     (len (pp_Prompt p) =? nt_PromptBytes n) &&
     (if negb (bool_decide (nt_PromptSHA256 n = "")) then equal_fold (sha256_hex (pp_Prompt p)) (nt_PromptSHA256 n) else true)
   else true).
End binding.
