(* ===== verification/BindingFacts.v ===== *)
(** * The payload check decides equality with what was approved

    ASCII and hexadecimal facts about Go's case folding, and the meaning of
    [validateExecutionPayloadAgainstApprovedBinding]. *)

From S2P Require Import Prelude GoString Sha256 GoStringFacts Protocol LocalStore ApprovalStore Binding.
From Stdlib Require Import Ascii.

Local Open Scope Z_scope.

(** ** ASCII strings *)

Definition is_ascii (s : string) : bool := forallb (λ c, byte_val c <? 128) (bytes s).

Lemma runes_ascii_cons c s : byte_val c < 128 → runes (String c s) = byte_val c :: runes s.
Proof.
  intros Hc. unfold runes. rewrite segments_cons by done. cbn [decode_rune].
  apply Z.ltb_lt in Hc. by rewrite Hc.
Qed.
Lemma runes_ascii s : is_ascii s = true → runes s = byte_val <$> bytes s.
Proof.
  induction s as [|c s IH]; [done|]. unfold is_ascii. cbn [bytes String.list_ascii_of_string forallb].
  intros [Hc Hs]%andb_true_iff. rewrite runes_ascii_cons by (by apply Z.ltb_lt). by rewrite IH.
Qed.

Lemma byte_val_inj c d : byte_val c = byte_val d → c = d.
Proof. intros H. rewrite <- (byte_of_val c), H. apply byte_of_val. Qed.
Lemma bytes_inj s t : bytes s = bytes t → s = t.
Proof. intros H. rewrite <- (String.string_of_list_ascii_of_string s), <- (String.string_of_list_ascii_of_string t). by f_equal. Qed.

Lemma string_of_ascii_runes s : is_ascii s = true → string_of_runes (byte_val <$> bytes s) = s.
Proof.
  induction s as [|c s IH]; [done|]. unfold is_ascii. cbn [bytes String.list_ascii_of_string forallb]. intros [Hc Hs]%andb_true_iff.
  unfold string_of_runes in *. cbn [fmap list_fmap concat_strings foldr].
  assert (encode_rune (byte_val c) = String c EmptyString) as ->.
  { unfold encode_rune. apply Z.ltb_lt in Hc as Hlt. pose proof (byte_val_range c).
    assert ((0 <=? byte_val c) = true) as -> by (apply Z.leb_le; lia). rewrite Hc. simpl. by rewrite byte_of_val. }
  cbn [String.append]. f_equal. by apply IH.
Qed.

(** ** Hexadecimal digits *)

Definition lower_hex (c : ascii) : bool := bool_decide (is_Some (hex_val c)) && negb (in_range 65 70 (byte_val c)).
Lemma hex_val_range c v : hex_val c = Some v → 0 <= v < 16 ∧ byte_val c < 128.
Proof. unfold hex_val, in_range. repeat case_match; intros [= <-]; orb_split; rewrite ?Z.leb_le in *; lia. Qed.

(** Folding a digit gives the lower-case digit of its value. *)
Lemma fold_hex `{UT : UnicodeTables} c v : hex_val c = Some v → rune_fold (byte_val c) = byte_val (hex_digit v).
Proof.
  intros Hv. destruct (hex_val_range c v Hv) as [Hr Hlow]. unfold hex_digit.
  rewrite byte_val_of by (case_match; lia). unfold rune_fold. apply Z.ltb_lt in Hlow. rewrite Hlow.
  unfold hex_val, in_range in *. repeat case_match; simplify_eq; orb_split; rewrite ?Z.leb_le, ?Z.ltb_lt, ?Z.ltb_ge in *;
    rewrite ?andb_false_iff, ?Z.leb_gt in *; lia.
Qed.

Lemma hex_decode_cons a b s x : hex_decode (String a (String b s)) = Some x →
  ∃ u v r, hex_val a = Some u ∧ hex_val b = Some v ∧ hex_decode s = Some r ∧ x = String (byte_of (16 * u + v)) r.
Proof. cbn [hex_decode]. destruct (hex_val a), (hex_val b), (hex_decode s); try done. intros [= <-]. eauto 10. Qed.

Lemma hex_pair_ind (P : string → string → Prop) :
  P EmptyString EmptyString →
  (∀ a b u v s r, hex_val a = Some u → hex_val b = Some v → hex_decode s = Some r → P s r →
     P (String a (String b s)) (String (byte_of (16 * u + v)) r)) →
  ∀ s x, hex_decode s = Some x → P s x.
Proof.
  intros H0 Hstep. fix IH 1. intros [|a [|b s]] x Hx; [by injection Hx as <-|done|].
  apply hex_decode_cons in Hx as (u & v & r & Hu & Hv & Hr & ->). by apply Hstep; [..|apply IH].
Qed.

Lemma hex_digits_val u v : 0 <= u < 16 → 0 <= v < 16 →
  byte_val (byte_of (16 * u + v)) / 16 = u ∧ byte_val (byte_of (16 * u + v)) mod 16 = v.
Proof.
  intros Hu Hv. rewrite byte_val_of by lia. split.
  - symmetry. apply (Z.div_unique _ _ _ v); lia.
  - symmetry. apply (Z.mod_unique _ _ u); lia.
Qed.

(** A decodable string folds to the lower-case encoding of its value. *)
Lemma fold_runes_hex `{UT : UnicodeTables} d x :
  hex_decode d = Some x → rune_fold <$> runes d = byte_val <$> bytes (hex_encode x).
Proof.
  revert d x. apply (hex_pair_ind (λ d x, rune_fold <$> runes d = byte_val <$> bytes (hex_encode x))); [done|].
  intros a b u v s r Ha Hb _ IH. destruct (hex_val_range a u Ha) as [Hu Hal], (hex_val_range b v Hb) as [Hv Hbl].
  rewrite !runes_ascii_cons by done. cbn [hex_encode]. destruct (hex_digits_val u v Hu Hv) as [-> ->].
  cbn [bytes String.list_ascii_of_string fmap list_fmap]. by rewrite (fold_hex a u), (fold_hex b v), IH.
Qed.

(** Digests are compared by value, not by spelling. *)
Lemma equal_fold_hex `{UT : UnicodeTables} y d x :
  hex_decode d = Some x → equal_fold (hex_encode y) d = true ↔ y = x.
Proof.
  intros Hd. unfold equal_fold. rewrite bool_decide_eq_true, (fold_runes_hex d x Hd), (fold_runes_hex _ y (hex_decode_encode y)).
  split; [|by intros ->]. intros H. apply hex_encode_inj, bytes_inj. revert H. apply list_fmap_eq_inj.
  intros c e. apply byte_val_inj.
Qed.

Lemma hex_is_ascii s x : hex_decode s = Some x → is_ascii s = true.
Proof.
  revert s x. apply (hex_pair_ind (λ s _, is_ascii s = true)); [done|]. intros a b u v s r Ha Hb _ IH.
  unfold is_ascii in *. cbn [bytes String.list_ascii_of_string forallb].
  apply hex_val_range in Ha as [_ Ha%Z.ltb_lt]. apply hex_val_range in Hb as [_ Hb%Z.ltb_lt]. by rewrite Ha, Hb.
Qed.
Lemma hex_trim s x : hex_decode s = Some x → trim_space s = s.
Proof.
  intros Hx. apply trim_space_plain. rewrite runes_ascii by (by eapply hex_is_ascii).
  revert s x Hx. apply (hex_pair_ind (λ s _, forallb (λ r, negb (is_space r)) (byte_val <$> bytes s) = true)); [done|].
  intros a b u v s r Ha Hb _ IH. cbn [bytes String.list_ascii_of_string fmap list_fmap forallb].
  assert (∀ c w, hex_val c = Some w → is_space (byte_val c) = false) as Hsp.
  { intros c w Hc. destruct (is_space (byte_val c)) eqn:Hs; [|done]. exfalso.
    assert (byte_val c ∈ (byte_val ∘ byte_of <$> [9; 10; 11; 12; 13; 32])) as Hin.
    { apply hex_val_range in Hc as [_ Hlow]. pose proof (byte_val_range c). unfold is_space, in_range in Hs.
      assert (byte_val c = 9 ∨ byte_val c = 10 ∨ byte_val c = 11 ∨ byte_val c = 12 ∨ byte_val c = 13 ∨ byte_val c = 32) as Hor.
      { rewrite !orb_true_iff, !andb_true_iff, !Z.eqb_eq, !Z.leb_le in Hs. lia. }
      vm_compute (byte_val ∘ byte_of <$> _). rewrite !elem_of_cons. tauto. }
    unfold hex_val, in_range in Hc. vm_compute (byte_val ∘ byte_of <$> _) in Hin.
    repeat (apply elem_of_cons in Hin as [Hin|Hin]; [rewrite Hin in Hc; done|]). by apply elem_of_nil in Hin. }
  by rewrite (Hsp a u), (Hsp b v).
Qed.

(** ** The check *)

Lemma fail_if_bind {E A} b (e : E) (m : E + A) x : (fail_if b e ≫= λ _, m) = inr x ↔ b = false ∧ m = inr x.
Proof. destruct b; cbn; naive_solver. Qed.
Lemma fail_if_ok {E} b (e : E) x : fail_if b e = inr x ↔ b = false.
Proof. destruct b, x; naive_solver. Qed.
Lemma not_decide_false (P : Prop) `{!Decision P} : negb (bool_decide P) = false ↔ P.
Proof. by rewrite negb_false_iff, bool_decide_eq_true. Qed.

Lemma valid_digest_inv d : valid_digest d = true ↔ ∃ x, hex_decode d = Some x ∧ len x = 32.
Proof. unfold valid_digest. destruct (hex_decode d); [rewrite Z.eqb_eq|]; naive_solver. Qed.
Lemma len_sha256 s : len (sha256 s) = 32.
Proof. unfold len. by rewrite length_sha256. Qed.

Section check.
Context `{UT : UnicodeTables}.

(** The metadata of a payload, as the binding records it. *)
Definition same_metadata (b : approvedNoticeBinding) (p : ExecutionPayload) : Prop :=
  ep_RequestID p = bd_RequestID b ∧ ep_ConversationID p = bd_ConversationID b ∧
  ep_RequesterAgentID p = bd_RequesterAgentID b ∧ ep_RequesterMemberID p = bd_RequesterMemberID b ∧
  ep_RequesterDisplayName p = bd_RequesterDisplayName b ∧ ep_Title p = bd_Title b ∧ ep_ExpiresAt p = bd_ExpiresAt b ∧
  ep_RequestedAccess p = bd_RequestedAccess b ∧ ep_Attachments p = bd_Attachments b.

(** The binding commits to this prompt. *)
Definition commits (b : approvedNoticeBinding) (prompt : string) : Prop :=
  len prompt = bd_PromptBytes b ∧ hex_decode (trim_space (bd_PromptSHA256 b)) = Some (sha256 prompt).

Lemma digest_check digest prompt :
  negb (valid_digest digest) = false ∧ negb (equal_fold (sha256_hex prompt) digest) = false ↔
  hex_decode digest = Some (sha256 prompt).
Proof.
  rewrite !negb_false_iff, valid_digest_inv. split.
  - intros [(x & Hx & _) Hf]. unfold sha256_hex in Hf. apply (equal_fold_hex _ _ x Hx) in Hf. by rewrite Hf.
  - intros H. split; [exists (sha256 prompt); split; [done|apply len_sha256]|].
    by apply (equal_fold_hex _ _ (sha256 prompt)).
Qed.

Lemma payload_check b p :
  validateExecutionPayloadAgainstApprovedBinding b p = inr () ↔ same_metadata b p ∧ commits b (ep_Prompt p).
Proof.
  unfold validateExecutionPayloadAgainstApprovedBinding, same_metadata, commits, sameRequestedAccess, sameArtifactDescriptors.
  rewrite !fail_if_bind, fail_if_ok, !not_decide_false, <- digest_check, orb_false_iff, Z.ltb_ge.
  rewrite !negb_false_iff, !Z.eqb_eq. pose proof (Zle_0_nat (String.length (ep_Prompt p))) as Hlen.
  split; [tauto|]. intros [? (Hb & ?)]. split_and!; try tauto. rewrite <- Hb. exact Hlen.
Qed.

(** What the receiver runs is what was approved.  A payload passes the
    check exactly when every field equals the approved one (access and
    attachments in the approved order) and the approved byte count and SHA-256
    are those of its prompt; the spelling of the digest does not matter, and a
    binding without a digest accepts nothing. *)
Theorem payload_matches_binding b p :
  validateExecutionPayloadAgainstApprovedBinding b p = inr () ↔ same_metadata b p ∧ commits b (ep_Prompt p).
Proof.
  apply payload_check.
Qed.
End check.
