(* ===== verification/ReceiverStores.v ===== *)
(** * Pending inbox and session affinity
    ([internal/receiver/pending_store.go], [session_store.go])

    The receiver's two small stores.  Unlike the journal they keep a change in
    memory when its write fails. *)

From S2P Require Import Prelude GoString GoStringFacts Protocol Policy LocalStore.

Local Open Scope Z_scope.

Inductive store_error :=
  | StorePathRequired | StoreDirectory | RequestIDRequired | NotInInbox | SessionIncomplete
  | StoreWrite | StoreRead | StoreParse | StoreVersion.

(** ** The pending inbox *)

Definition pendingStoreVersion : Z := 1.
Record PendingRecord := mkPending { pe_Notice : RequestNotice; pe_ReceivedAt : time }.
#[export] Instance PendingRecord_eq_dec : EqDecision PendingRecord.
Proof. solve_decision. Defined.
Record pendingSnapshot := mkPendingSnapshot {
  ps_Version : Z; ps_UpdatedAt : time; ps_Requests : gmap string PendingRecord }.
Abbreviation pending_world := (local (gmap string PendingRecord) pendingSnapshot).
Abbreviation PM := (M pending_world store_error).

Definition nt_set_status (st : RequestStatus) (n : RequestNotice) : RequestNotice :=
  mkRequestNotice (nt_RequestID n) (nt_ConversationID n) st (nt_RequesterAgentID n) (nt_RequesterMemberID n)
    (nt_RequesterDisplayName n) (nt_Title n) (nt_PromptPreview n) (nt_PromptBytes n) (nt_PromptSHA256 n)
    (nt_RequestedAccess n) (nt_Attachments n) (nt_CreatedAt n) (nt_ExpiresAt n) (nt_ResumesSession n).
Definition nt_set_resumes (b : bool) (n : RequestNotice) : RequestNotice :=
  mkRequestNotice (nt_RequestID n) (nt_ConversationID n) (nt_Status n) (nt_RequesterAgentID n) (nt_RequesterMemberID n)
    (nt_RequesterDisplayName n) (nt_Title n) (nt_PromptPreview n) (nt_PromptBytes n) (nt_PromptSHA256 n)
    (nt_RequestedAccess n) (nt_Attachments n) (nt_CreatedAt n) (nt_ExpiresAt n) b.
(** [if notice.Status == "" { notice.Status = awaiting_approval }] *)
Definition default_status (n : RequestNotice) : RequestNotice :=
  if bool_decide (nt_Status n = StatusOther "") then nt_set_status StatusAwaitingApproval n else n.

Definition pending_write : PM () :=
  t ← local_now;
  m ← get_mem;
  write_file StoreWrite (mkPendingSnapshot pendingStoreVersion t m).

Definition pending_before (a b : PendingRecord) : Prop :=
  (if nt_CreatedAt (pe_Notice a) =? nt_CreatedAt (pe_Notice b)
   then str_leb (nt_RequestID (pe_Notice a)) (nt_RequestID (pe_Notice b))
   else nt_CreatedAt (pe_Notice a) <? nt_CreatedAt (pe_Notice b)) = true.
#[export] Instance pending_before_dec a b : Decision (pending_before a b).
Proof. unfold pending_before. apply _. Defined.
Definition pending_List : PM (list PendingRecord) :=
  m ← get_mem; mret (merge_sort pending_before (map_to_list m).*2).
Definition pending_Get (requestID : string) : PM (option PendingRecord) := m ← get_mem; mret (m !! requestID).

(** The time a request first reached this inbox. *)
Definition received_at (m : gmap string PendingRecord) (t : time) (requestID : string) : time :=
  match m !! requestID with Some existing => pe_ReceivedAt existing | None => t end.

Definition pending_Upsert (n0 : RequestNotice) : PM () :=
  reject_if (bool_decide (nt_RequestID n0 = "")) RequestIDRequired ≫= λ _,
  let n := default_status n0 in
  t ← local_now;
  m ← get_mem;
  set_mem (<[nt_RequestID n := mkPending n (received_at m t (nt_RequestID n))]> m) ≫= λ _,
  pending_write.

Definition pending_UpdateStatus (requestID : string) (st : RequestStatus) : PM () :=
  m ← get_mem;
  match m !! requestID with
  | None => throw NotInInbox
  | Some r =>
    set_mem (<[requestID := mkPending (nt_set_status st (pe_Notice r)) (pe_ReceivedAt r)]> m) ≫= λ _,
    pending_write
  end.

Definition pending_Remove (requestID : string) : PM () :=
  m ← get_mem;
  match m !! requestID with
  | None => mret ()
  | Some _ => set_mem (delete requestID m) ≫= λ _, pending_write
  end.

(** The loop of [Replace]. *)
Fixpoint replace_loop (m : gmap string PendingRecord) (now : time) (next : gmap string PendingRecord) (l : list RequestNotice)
    : gmap string PendingRecord :=
  match l with
  | [] => next
  | n :: l' =>
    if bool_decide (nt_RequestID n = "") || Terminal (nt_Status n) then replace_loop m now next l' else
    let n := default_status n in
    replace_loop m now (<[nt_RequestID n := mkPending n (received_at m now (nt_RequestID n))]> next) l'
  end.
Definition pending_Replace (notices : list RequestNotice) : PM () :=
  t ← local_now;
  m ← get_mem;
  set_mem (replace_loop m t ∅ notices) ≫= λ _,
  pending_write.

Definition loadable (requestID : string) (r : PendingRecord) : bool :=
  negb (bool_decide (requestID = "")) && negb (Terminal (nt_Status (pe_Notice r))).
Definition pending_load : PM () :=
  f ← read_file;
  match f with
  | FileAbsent => pending_write
  | FileUnreadable => throw StoreRead
  | FileGarbage => throw StoreParse
  | FileDoc s =>
    if negb (ps_Version s =? pendingStoreVersion) then throw StoreVersion else
    m ← get_mem;
    set_mem (filter (λ kv, loadable kv.1 kv.2 = true) (ps_Requests s) ∪ m)
  end.
Definition NewPendingStore (path : string) (directory_ready : bool) : PM () :=
  reject_if (bool_decide (path = "")) StorePathRequired ≫= λ _,
  reject_if (negb directory_ready) StoreDirectory ≫= λ _,
  set_mem ∅ ≫= λ _, pending_load.

(** ** Sessions *)

Definition sessionStoreVersion : Z := 1.
Record sessionSnapshot := mkSessionSnapshot {
  sn_SessionVersion : Z; sn_SessionsAt : time; sn_Sessions : gmap string SessionRef }.
Abbreviation session_world := (local (gmap string SessionRef) sessionSnapshot).
Abbreviation SM := (M session_world store_error).

Definition session_write : SM () :=
  t ← local_now;
  m ← get_mem;
  write_file StoreWrite (mkSessionSnapshot sessionStoreVersion t m).
Definition session_complete (conversationID : string) (s : SessionRef) : bool :=
  negb (bool_decide (conversationID = "") || bool_decide (ss_RuntimeID s = "") || bool_decide (ss_OpaqueID s = "")).
Definition session_Get (conversationID : string) : SM (option SessionRef) :=
  reject_if (bool_decide (conversationID = "")) RequestIDRequired ≫= λ _,
  m ← get_mem; mret (m !! conversationID).
Definition session_Put (conversationID : string) (s : SessionRef) : SM () :=
  reject_if (negb (session_complete conversationID s)) SessionIncomplete ≫= λ _,
  m ← get_mem;
  set_mem (<[conversationID := s]> m) ≫= λ _, session_write.
Definition session_Delete (conversationID : string) : SM () :=
  reject_if (bool_decide (conversationID = "")) RequestIDRequired ≫= λ _,
  m ← get_mem;
  match m !! conversationID with
  | None => mret ()
  | Some _ => set_mem (delete conversationID m) ≫= λ _, session_write
  end.
Definition session_load : SM () :=
  f ← read_file;
  match f with
  | FileAbsent => session_write
  | FileUnreadable => throw StoreRead
  | FileGarbage => throw StoreParse
  | FileDoc s =>
    if negb (sn_SessionVersion s =? sessionStoreVersion) then throw StoreVersion else
    m ← get_mem;
    set_mem (filter (λ kv, session_complete kv.1 kv.2 = true) (sn_Sessions s) ∪ m)
  end.
Definition NewFileSessionStore (path : string) (directory_ready : bool) : SM () :=
  reject_if (bool_decide (path = "")) StorePathRequired ≫= λ _,
  reject_if (negb directory_ready) StoreDirectory ≫= λ _,
  set_mem ∅ ≫= λ _, session_load.
