(* ===== verification/MutationStore.v ===== *)
(** * The receiver's journal ([internal/receiver/mutation_store.go])

    The write-ahead record of every relay mutation: what was decided, for
    which approved notice and authority, with which claim, and how far it has
    come.  Definitions; the theorems are in [MutationProofs]. *)

From S2P Require Import Prelude GoString GoStringFacts Protocol LocalStore ApprovalStore Binding.

Local Open Scope Z_scope.

Definition mutationStoreVersion : Z := 3.
Definition legacyMutationStoreVersion : Z := 1.
Definition authorityBoundMutationStoreVersion : Z := 2.

Inductive mutationPhase :=
  | mutationDecisionPrepared | mutationClaimPrepared | mutationRuntimeStarted | mutationResultPrepared
  | mutationPhaseOther (raw : string).
#[export] Instance mutationPhase_eq_dec : EqDecision mutationPhase.
Proof. solve_decision. Defined.

Record mutationRecord := mkMutation {
  mt_RequestID : string; mt_ConversationID : string; mt_DecisionID : string; mt_Decision : Decision_;
  mt_ApprovalLevel : ApprovalLevel; mt_ApprovalGrantID : string; mt_ApprovalGrantPersisted : bool;
  mt_ApprovalAuthorityFingerprint : string; mt_ApprovalRecipientAgentID : string;
  mt_ApprovedNotice : option approvedNoticeBinding; mt_ExecutionClaimID : string; mt_Phase : mutationPhase;
  mt_Result : option ResultPayload; mt_UpdatedAt : time }.
#[export] Instance mutationRecord_eq_dec : EqDecision mutationRecord.
Proof. solve_decision. Defined.

Definition mt_assign (phase : mutationPhase) (persisted : bool) (result : option ResultPayload) (t : time) (r : mutationRecord)
    : mutationRecord :=
  mkMutation (mt_RequestID r) (mt_ConversationID r) (mt_DecisionID r) (mt_Decision r) (mt_ApprovalLevel r)
    (mt_ApprovalGrantID r) persisted (mt_ApprovalAuthorityFingerprint r) (mt_ApprovalRecipientAgentID r)
    (mt_ApprovedNotice r) (mt_ExecutionClaimID r) phase result t.
Definition mt_set_phase (p : mutationPhase) (r : mutationRecord) : mutationRecord :=
  mt_assign p (mt_ApprovalGrantPersisted r) (mt_Result r) (mt_UpdatedAt r) r.
Definition mt_set_persisted (r : mutationRecord) : mutationRecord :=
  mt_assign (mt_Phase r) true (mt_Result r) (mt_UpdatedAt r) r.
Definition mt_set_result (p : ResultPayload) (r : mutationRecord) : mutationRecord :=
  mt_assign mutationResultPrepared (mt_ApprovalGrantPersisted r) (Some p) (mt_UpdatedAt r) r.
Definition mt_touch (t : time) (r : mutationRecord) : mutationRecord :=
  mt_assign (mt_Phase r) (mt_ApprovalGrantPersisted r) (mt_Result r) t r.

Record mutationSnapshot := mkMutationSnapshot {
  ms_Version : Z; ms_UpdatedAt : time; ms_Records : gmap string mutationRecord }.

Inductive mutation_error :=
  | MutationPath | MutationDirectory | RecordInvalid | RecordMissing | UpdateRefused | RequestIDChangedByUpdate
  | MutationWrite | MutationRead | MutationParse | MutationVersion.

(** ** Validation *)

Section validation.
Variables (allowLegacyAuthority allowLegacyNotice : bool).

Definition no_level : ApprovalLevel := ApprovalLevelOther "".
Definition valid_decision (r : mutationRecord) : bool :=
  bool_decide (mt_Decision r = DecisionAllowOnce) || bool_decide (mt_Decision r = DecisionDeny).
Definition has_authority (r : mutationRecord) : bool := negb (bool_decide (mt_ApprovalAuthorityFingerprint r = "")).
Definition mutation_authority (r : mutationRecord) : ApprovalAuthority :=
  mkAuthority (mt_ApprovalAuthorityFingerprint r) (mt_ApprovalRecipientAgentID r).

(** The checks on identities and authority. *)
Definition identity_ok (r : mutationRecord) : bool :=
  negb (bool_decide (mt_RequestID r = "") || bool_decide (mt_Phase r = mutationPhaseOther "")) &&
  negb (negb (bool_decide (mt_DecisionID r = "")) &&
        (negb (valid_decision r) || negb (validLocalOpaqueID (mt_DecisionID r) "decision_"))) &&
  negb (negb (bool_decide (mt_ExecutionClaimID r = "")) && negb (validLocalOpaqueID (mt_ExecutionClaimID r) "claim_")) &&
  Bool.eqb (has_authority r) (negb (bool_decide (mt_ApprovalRecipientAgentID r = ""))) &&
  (if has_authority r then bool_decide (normalizeApprovalAuthority (mutation_authority r) = inr (mutation_authority r)) else true).

(** The checks on decision, approved notice and grant. *)
Definition decision_ok (r : mutationRecord) : bool :=
  let deny := bool_decide (mt_Decision r = DecisionDeny) in
  let allow := bool_decide (mt_Decision r = DecisionAllowOnce) in
  let leveled := negb (bool_decide (mt_ApprovalLevel r = no_level)) in
  let granted := negb (bool_decide (mt_ApprovalGrantID r = "")) || mt_ApprovalGrantPersisted r in
  negb (deny && (leveled || granted)) && negb (deny && has_authority r) &&
  negb (deny && bool_decide (is_Some (mt_ApprovedNotice r))) &&
  negb (allow && negb (has_authority r) && negb allowLegacyAuthority) &&
  (match mt_ApprovedNotice r with
   | Some b => is_ok (validateApprovedNoticeBinding b (mt_RequestID r))
   | None => true
   end) &&
  negb (allow && bool_decide (mt_ApprovedNotice r = None) && negb allowLegacyNotice) &&
  (if allow && leveled then
     level_valid (mt_ApprovalLevel r) &&
     (if standing (mt_ApprovalLevel r) then validApprovalGrantID (mt_ApprovalGrantID r) else negb granted)
   else negb granted).

(** The checks each phase adds. *)
Definition phase_ok (r : mutationRecord) : bool :=
  let claimed := negb (bool_decide (mt_ExecutionClaimID r = "")) in
  match mt_Phase r with
  | mutationDecisionPrepared =>
    negb (bool_decide (mt_DecisionID r = "")) && valid_decision r && bool_decide (mt_Result r = None) &&
    negb (bool_decide (mt_Decision r = DecisionAllowOnce) && negb claimed) &&
    negb (bool_decide (mt_Decision r = DecisionDeny) && claimed)
  | mutationClaimPrepared | mutationRuntimeStarted =>
    claimed && bool_decide (mt_Result r = None) &&
    negb (negb (bool_decide (mt_DecisionID r = "")) && negb (bool_decide (mt_Decision r = DecisionAllowOnce)))
  | mutationResultPrepared =>
    claimed &&
    match mt_Result r with
    | None => false
    | Some p => bool_decide (rp_ExecutionClaimID p = mt_ExecutionClaimID r) &&
        (bool_decide (rp_State p = StatusCompleted) || bool_decide (rp_State p = StatusFailed) ||
         bool_decide (rp_State p = StatusCancelled))
    end
  | mutationPhaseOther _ => false
  end.

(** [validateMutationRecordWithLegacy(record, ...) == nil] *)
Definition validateMutationRecordWithLegacy (r : mutationRecord) : bool := identity_ok r && decision_ok r && phase_ok r.
End validation.
Definition validateMutationRecord : mutationRecord → bool := validateMutationRecordWithLegacy false false.
Definition validateMutationRecordForLoad : mutationRecord → bool := validateMutationRecordWithLegacy true true.

(** ** Operations *)

Abbreviation journal := (gmap string mutationRecord).
Abbreviation journal_world := (local journal mutationSnapshot).
Abbreviation JM := (M journal_world mutation_error).

Definition mutation_write : JM () :=
  t ← local_now;
  m ← get_mem;
  write_file MutationWrite (mkMutationSnapshot mutationStoreVersion t m).
(** [if err := s.writeLocked(); err != nil { <restore>; return err }] *)
Definition mutation_persist (before : journal) : JM () :=
  r ← attempt mutation_write;
  match r with
  | inl e => set_mem before ≫= λ _, throw e
  | inr _ => mret ()
  end.

Definition mutation_Get (requestID : string) : JM (option mutationRecord) := m ← get_mem; mret (m !! requestID).

Definition mutation_le (a b : mutationRecord) : Prop := str_leb (mt_RequestID a) (mt_RequestID b) = true.
#[export] Instance mutation_le_dec a b : Decision (mutation_le a b).
Proof. unfold mutation_le. apply _. Defined.
Definition mutation_List : JM (list mutationRecord) :=
  m ← get_mem; mret (merge_sort mutation_le (map_to_list m).*2).

Definition mutation_Put (r : mutationRecord) : JM () :=
  reject_if (negb (validateMutationRecord r)) RecordInvalid ≫= λ _,
  t ← local_now;
  m ← get_mem;
  set_mem (<[mt_RequestID r := mt_touch t r]> m) ≫= λ _,
  mutation_persist m.

Definition mutation_Update (requestID : string) (update : mutationRecord → option mutationRecord) : JM mutationRecord :=
  m ← get_mem;
  match m !! requestID with
  | None => throw RecordMissing
  | Some current =>
    match update current with
    | None => throw UpdateRefused
    | Some next =>
      reject_if (negb (bool_decide (mt_RequestID next = requestID))) RequestIDChangedByUpdate ≫= λ _,
      reject_if (negb (validateMutationRecord next)) RecordInvalid ≫= λ _,
      t ← local_now;
      let next := mt_touch t next in
      set_mem (<[requestID := next]> m) ≫= λ _,
      mutation_persist m ≫= λ _,
      mret next
    end
  end.

Definition mutation_Remove (requestID : string) : JM () :=
  m ← get_mem;
  match m !! requestID with
  | None => mret ()
  | Some _ => set_mem (delete requestID m) ≫= λ _, mutation_persist m
  end.

Definition record_loadable (requestID : string) (r : mutationRecord) : bool :=
  negb (bool_decide (requestID = "") || negb (bool_decide (requestID = mt_RequestID r))) && validateMutationRecordForLoad r.
Definition mutation_Reload : JM () :=
  f ← read_file;
  match f with
  | FileAbsent => set_mem ∅ ≫= λ _, mutation_write
  | FileUnreadable => throw MutationRead
  | FileGarbage => throw MutationParse
  | FileDoc s =>
    reject_if (negb (ms_Version s =? mutationStoreVersion) && negb (ms_Version s =? authorityBoundMutationStoreVersion) &&
               negb (ms_Version s =? legacyMutationStoreVersion)) MutationVersion ≫= λ _,
    reject_if (negb (forallb (λ kv, record_loadable kv.1 kv.2) (map_to_list (ms_Records s)))) RecordInvalid ≫= λ _,
    set_mem (ms_Records s)
  end.
Definition newMutationStore (path : string) (directory_ready : bool) : JM () :=
  reject_if (bool_decide (path = "")) MutationPath ≫= λ _,
  reject_if (negb directory_ready) MutationDirectory ≫= λ _,
  set_mem ∅ ≫= λ _, mutation_Reload.

(** ** What the operations keep *)

Local Open Scope Z_scope.

(** The file holds the journal [m], in the current version. *)
Definition on_disk (m : journal) (w : journal_world) : Prop :=
  ∃ t, l_file w = FileDoc (mkMutationSnapshot mutationStoreVersion t m).
(** The change to [m] was made; or it was undone in memory, and the file was
    either left or already changed. *)
Definition journaled (w : journal_world) (m : journal) (w' : journal_world) : Prop := l_mem w' = m ∧ on_disk m w'.
Definition undone (w : journal_world) (m : journal) (w' : journal_world) : Prop :=
  l_mem w' = l_mem w ∧ (l_file w' = l_file w ∨ on_disk m w').

Lemma wp_mutation_write (w : journal_world) : wp mutation_write
  (λ _ w', l_mem w' = l_mem w ∧ on_disk (l_mem w) w')
  (λ e w', e = MutationWrite ∧ undone w (l_mem w) w') w.
Proof.
  unfold mutation_write. wp_step. apply wp_local_now. intros t _. wp_step. apply wp_get_mem.
  apply wp_write_file; cbn.
  - intros ws. split; [done|]. by exists t.
  - intros ws f' [-> | ->]; (split; [done|]); (split; [done|]); [by left|right; by exists t].
Qed.

Lemma wp_mutation_persist (w0 w : journal_world) : l_file w = l_file w0 →
  wp (mutation_persist (l_mem w0)) (λ _ w', journaled w0 (l_mem w) w')
    (λ e w', e = MutationWrite ∧ undone w0 (l_mem w) w') w.
Proof.
  intros Hf. unfold mutation_persist. wp_step. apply wp_attempt. eapply wp_mono; [apply wp_mutation_write| |]; cbn beta.
  - intros _ w' [Hm Hd]. apply wp_ret. split; [done|done].
  - intros e w' (-> & Hm & Hd). wp_step. apply wp_set_mem, wp_throw. split; [done|]. split; [done|].
    destruct Hd as [Hd|(t & Hd)]; [left; by rewrite <- Hf|right; by exists t].
Qed.

(** The record an update would write. *)
Definition updates (w : journal_world) (id : string) (f : mutationRecord → option mutationRecord) (next : mutationRecord) : Prop :=
  ∃ cur n t, l_mem w !! id = Some cur ∧ f cur = Some n ∧ mt_RequestID n = id ∧ validateMutationRecord n = true ∧ next = mt_touch t n.

Lemma wp_mutation_Put r (w : journal_world) : wp (mutation_Put r)
  (λ _ w', validateMutationRecord r = true ∧ ∃ t, journaled w (<[mt_RequestID r := mt_touch t r]> (l_mem w)) w')
  (λ _ w', w' = w ∨ validateMutationRecord r = true ∧ ∃ t, undone w (<[mt_RequestID r := mt_touch t r]> (l_mem w)) w') w.
Proof.
  unfold mutation_Put. wp_step. wp_step; [|by left]. orb_split. wp_step. apply wp_local_now. intros t _. wp_step. apply wp_get_mem.
  cbn [l_mem]. wp_step. apply wp_set_mem.
  eapply wp_mono; [apply (wp_mutation_persist w)|..]; [done| |]; cbn.
  - intros _ w' Hw. split; [done|]. by exists t.
  - intros e w' [_ Hw]. right. split; [done|]. by exists t.
Qed.

Lemma wp_mutation_Update id f (w : journal_world) : wp (mutation_Update id f)
  (λ next w', updates w id f next ∧ journaled w (<[id := next]> (l_mem w)) w')
  (λ _ w', w' = w ∨ ∃ next, updates w id f next ∧ undone w (<[id := next]> (l_mem w)) w') w.
Proof.
  unfold mutation_Update. wp_step. apply wp_get_mem. destruct (l_mem w !! id) as [cur|] eqn:Hcur; [|apply wp_throw; by left].
  destruct (f cur) as [n|] eqn:Hf; [|apply wp_throw; by left].
  wp_step. wp_step; [|by left]. wp_step. wp_step; [|by left]. orb_split. wp_step. apply wp_local_now. intros t _.
  assert (updates w id f (mt_touch t n)) as Hu by (by exists cur, n, t).
  wp_step. apply wp_set_mem. wp_step. eapply wp_mono; [apply (wp_mutation_persist w)|..]; [done| |]; cbn beta.
  - intros _ w' Hw. apply wp_ret. by split.
  - intros e w' [_ Hw]. right. by exists (mt_touch t n).
Qed.

Lemma wp_mutation_Remove id (w : journal_world) : wp (mutation_Remove id)
  (λ _ w', w' = w ∧ l_mem w !! id = None ∨ journaled w (delete id (l_mem w)) w')
  (λ _ w', undone w (delete id (l_mem w)) w') w.
Proof.
  unfold mutation_Remove. wp_step. apply wp_get_mem. destruct (l_mem w !! id) as [cur|] eqn:Hcur; [|apply wp_ret; by left].
  wp_step. apply wp_set_mem. eapply wp_mono; [apply (wp_mutation_persist w)|..]; [done| |]; cbn.
  - intros _ w' Hw. by right.
  - by intros e w' [_ Hw].
Qed.

(** A reload ends with what the file holds, or changes nothing but an absent file. *)
Lemma wp_mutation_Reload (w : journal_world) : wp mutation_Reload
  (λ _ w', l_file w = FileAbsent ∧ journaled w ∅ w' ∨
     ∃ s, l_file w = FileDoc s ∧ l_file w' = l_file w ∧ l_mem w' = ms_Records s ∧
       map_Forall (λ id r, record_loadable id r = true) (ms_Records s))
  (λ _ w', w' = w ∨ l_file w = FileAbsent ∧ l_mem w' = ∅ ∧ (l_file w' = FileAbsent ∨ on_disk ∅ w')) w.
Proof.
  unfold mutation_Reload. wp_step. apply wp_read_file. destruct (l_file w) as [| | |s] eqn:Hf.
  - wp_step. apply wp_set_mem. eapply wp_mono; [apply wp_mutation_write| |]; cbn.
    + intros _ w' [Hm Hd]. left. by split.
    + intros e w' (_ & Hm & Hd). right. split_and!; [done|done|]. cbn in Hd. destruct Hd as [Hd|Hd]; [left; by rewrite Hd|by right].
  - apply wp_throw. by left.
  - apply wp_throw. by left.
  - wp_step. wp_step; [|by left]. wp_step. wp_step; [|by left]. orb_split. apply wp_set_mem. right. exists s.
    split_and!; [done..|]. intros id r Hr.
    match goal with H : forallb _ _ = true |- _ => rewrite forallb_forall in H; apply (H (id, r)) end.
    by apply list_elem_of_In, elem_of_map_to_list.
Qed.
