(* ===== verification/Artifact.v ===== *)
(** * Artifacts: checks and collection ([internal/artifact/manager.go])

    What the recipient accepts of the relay's attachments, and which files of
    a runtime it sends back.  The return directory belongs to the runtime,
    which may still be changing it: every answer of the operating system about
    it is arbitrary.  Sandboxes are created and removed in [Sandbox].  The
    theorems say what the checks decide and what is collected. *)

From S2P Require Import Prelude GoString Sha256 GoStringFacts Protocol Redact RedactHides.
From Stdlib Require Import Ascii ZifyBool.

Local Open Scope Z_scope.

Inductive artifact_error :=
  | ErrManagerUnavailable | ErrTooManyAttachments | ErrFetcherRequired | ErrDescriptor | ErrDirectory | ErrDuplicateName
  | ErrFetch | ErrContent | ErrCreateFile | ErrWriteFile | ErrSandboxOwner | ErrReturnDirectory | ErrTooManyFiles
  | ErrFilename | ErrSensitiveFile | ErrDeliverable | ErrFileKind | ErrFilePrivacy | ErrExecutable | ErrFileSize
  | ErrFileChanged | ErrFileRead | ErrTotalSize | ErrCredentialText | ErrRemove.

Section artifact.
Context `{UT : UnicodeTables}.

Definition validateFilename (name : string) : filename_error + () := ValidatePortableFilename name.

(** ** Attachments of a request *)

Fixpoint descriptors_check (ids names : gset string) (total : Z) (l : list ArtifactDescriptor) : artifact_error + () :=
  match l with
  | [] => inr ()
  | d :: l' =>
    fail_if (bool_decide (trim_space (ad_ArtifactID d) = "")) ErrDescriptor ≫= λ _,
    fail_if (negb (is_ok (validateFilename (ad_Name d)))) ErrDescriptor ≫= λ _,
    fail_if ((ad_SizeBytes d <? 0) || (MaxAttachmentBytes <? ad_SizeBytes d)) ErrDescriptor ≫= λ _,
    fail_if (negb (len (ad_SHA256 d) =? 64)) ErrDescriptor ≫= λ _,
    fail_if (negb (is_ok (match hex_decode (ad_SHA256 d) with Some p => inr p | None => inl () end))) ErrDescriptor ≫= λ _,
    let nameKey := to_lower (ad_Name d) in
    fail_if (bool_decide (ad_ArtifactID d ∈ ids)) ErrDescriptor ≫= λ _,
    fail_if (bool_decide (nameKey ∈ names)) ErrDescriptor ≫= λ _,
    let total := total + ad_SizeBytes d in
    fail_if (MaxRequestPayloadBytes <? total) ErrDescriptor ≫= λ _,
    descriptors_check ({[ad_ArtifactID d]} ∪ ids) ({[nameKey]} ∪ names) total l'
  end.
Definition validateDescriptors (l : list ArtifactDescriptor) : artifact_error + () := descriptors_check ∅ ∅ 0 l.

Definition verifyContent (expected : ArtifactDescriptor) (content : option ArtifactContent) : artifact_error + string :=
  match content with
  | None => inl ErrContent
  | Some c =>
    fail_if (negb (bool_decide (ac_Descriptor c = expected))) ErrContent ≫= λ _,
    fail_if (negb (bool_decide (ac_Encoding c = "base64"))) ErrContent ≫= λ _,
    match b64_decode (ac_ContentBase64 c) with
    | None => inl ErrContent
    | Some payload =>
      fail_if (negb (len payload =? ad_SizeBytes expected) || (MaxAttachmentBytes <? len payload)) ErrContent ≫= λ _,
      fail_if (negb (equal_fold (sha256_hex payload) (ad_SHA256 expected))) ErrContent ≫= λ _,
      inr payload
    end
  end.

(** ** Names and types of deliverables *)

Definition sensitive_names : list string :=
  [".env"; ".netrc"; ".npmrc"; ".pypirc"; ".gitconfig"; ".git-credentials";
   "credentials"; "credentials.json"; "id_rsa"; "id_ed25519"; "known_hosts"; "authorized_keys"].
Definition sensitive_suffixes : list string := [".pem"; ".key"; ".p12"; ".pfx"; ".kdbx"].
Definition sensitiveFilename (name : string) : bool :=
  let lower := to_lower name in
  bool_decide (lower ∈ sensitive_names) || has_prefix lower ".env." || existsb (has_suffix lower) sensitive_suffixes.

Definition forbidden_suffixes : list string :=
  [".exe"; ".com"; ".bat"; ".cmd"; ".ps1"; ".sh"; ".msi"; ".app"; ".zip"; ".tar"; ".tgz"; ".gz"; ".bz2"; ".xz"; ".7z"; ".rar"].
Definition forbiddenDeliverable (name : string) : bool := existsb (has_suffix (to_lower name)) forbidden_suffixes.

Definition textualMIME (value : string) : bool :=
  let mediaType := to_lower (trim_space (before_byte ";"%char value)) in
  has_prefix mediaType "text/" ||
  bool_decide (mediaType ∈ ["application/json"; "application/xml"; "application/yaml"; "application/x-yaml"; "application/javascript"]).

(** [filepath.Ext] of a name without separators *)
Definition file_ext (name : string) : string :=
  match reverse (split_byte "."%char name) with
  | e :: _ :: _ => "." +:+ e
  | _ => ""
  end.

(** ** Collecting results *)

Inductive file_kind := KindRegular | KindDirectory | KindSymlink | KindOther.
#[export] Instance file_kind_eq_dec : EqDecision file_kind.
Proof. solve_decision. Defined.
(** [os.FileInfo]; [fi_File] is what [os.SameFile] compares. *)
Record FileInfo := mkFileInfo { fi_Kind : file_kind; fi_Perm : Z; fi_Size : Z; fi_File : nat }.

(** Calls of the operating system about the return directory. *)
Inductive oscall : Type → Type :=
  | OsLstatReturn : oscall (option FileInfo)                (** [m.root.Lstat(return-files)] *)
  | OsValidateReturn : oscall bool                          (** [privatefs.ValidateDirectory] *)
  | OsOpenReturn : oscall bool                              (** [m.root.OpenRoot] *)
  | OsStatOpened : oscall (option FileInfo)                 (** [opened.Stat(.)] *)
  | OsReadDir : oscall (option (list string))
  | OsLstat (name : string) : oscall (option FileInfo)
  | OsValidateContained (name : string) : oscall bool
  | OsOpen (name : string) : oscall (option nat)            (** a handle *)
  | OsStat (handle : nat) : oscall (option FileInfo)
  | OsReadAll (handle : nat) : oscall (option string)       (** to the end of the file *)
  | OsClose (handle : nat) : oscall bool.

Section collect.
Variable answer : nat → ∀ B, oscall B → B.
Variables (TypeByExtension DetectContentType : string → string).   (** packages mime and net/http *)
Variable windows : bool.
Abbreviation CM := (M nat artifact_error).

Definition ask {B} (x : oscall B) : CM B := λ t, (S t, inr (answer t B x)).
Definition ask_some {B} (e : artifact_error) (x : oscall (option B)) : CM B :=
  r ← ask x; match r with Some b => mret b | None => throw e end.
Definition ask_ok (e : artifact_error) (x : oscall bool) : CM () := r ← ask x; reject_if (negb r) e.

(** [io.LimitReader] *)
Definition limit_read (n : Z) (s : string) : string := if len s <=? n then s else take_bytes (Z.to_nat n) s.

Definition is_dir (i : FileInfo) : bool := bool_decide (fi_Kind i = KindDirectory).
Definition is_regular (i : FileInfo) : bool := bool_decide (fi_Kind i = KindRegular).
Definition same_file (a b : FileInfo) : bool := bool_decide (fi_File a = fi_File b).

(** [returnInfo] was pinned when the sandbox was made. *)
Definition validateOwnedReturnRoot (returnInfo : option FileInfo) : CM () :=
  match returnInfo with
  | None => throw ErrReturnDirectory
  | Some pinned =>
    opened ← ask OsStatOpened;
    current ← ask OsLstatReturn;
    match opened, current with
    | Some o, Some c =>
      reject_if (negb (is_dir c) || negb (same_file pinned o) || negb (same_file pinned c)) ErrReturnDirectory
    | _, _ => throw ErrReturnDirectory
    end
  end.
Definition openOwnedReturnRoot (returnInfo : option FileInfo) : CM () :=
  match returnInfo with
  | None => throw ErrReturnDirectory
  | Some pinned =>
    current ← ask_some ErrReturnDirectory OsLstatReturn;
    reject_if (negb (is_dir current) || negb (same_file pinned current)) ErrReturnDirectory ≫= λ _,
    ask_ok ErrReturnDirectory OsValidateReturn ≫= λ _,
    ask_ok ErrReturnDirectory OsOpenReturn ≫= λ _,
    validateOwnedReturnRoot returnInfo
  end.

(** The bytes of one file, through the handle that was checked. *)
Definition read_returned (name : string) (before : FileInfo) : CM string :=
  file ← ask_some ErrFileRead (OsOpen name);
  opened ← ask (OsStat file);
  if negb (match opened with Some o => is_regular o && same_file before o | None => false end) then
    ask (OsClose file) ≫= λ _, throw ErrFileChanged
  else
    contents ← ask (OsReadAll file);
    closed ← ask (OsClose file);
    match contents with
    | Some s =>
      reject_if (negb closed) ErrFileRead ≫= λ _,
      after ← ask_some ErrFileChanged (OsLstat name);
      reject_if (bool_decide (fi_Kind after = KindSymlink) || negb (same_file before after)) ErrFileChanged ≫= λ _,
      mret (limit_read (MaxAttachmentBytes + 1) s)
    | None => throw ErrFileRead
    end.

Definition mime_of (name payload : string) : string :=
  let byExtension := TypeByExtension (to_lower (file_ext name)) in
  if bool_decide (byExtension = "") then DetectContentType payload else byExtension.

(** One entry of the directory. *)
Definition collect_file (total : Z) (name : string) : CM (Z * AttachmentInput) :=
  reject_if (negb (is_ok (validateFilename name))) ErrFilename ≫= λ _,
  reject_if (sensitiveFilename name) ErrSensitiveFile ≫= λ _,
  reject_if (forbiddenDeliverable name) ErrDeliverable ≫= λ _,
  before ← ask_some ErrFileKind (OsLstat name);
  reject_if (negb (is_regular before)) ErrFileKind ≫= λ _,
  ask_ok ErrFilePrivacy (OsValidateContained name) ≫= λ _,
  reject_if (negb windows && negb (Z.land (fi_Perm before) 73 =? 0)) ErrExecutable ≫= λ _,
  reject_if (MaxAttachmentBytes <? fi_Size before) ErrFileSize ≫= λ _,
  payload ← read_returned name before;
  reject_if (MaxAttachmentBytes <? len payload) ErrFileSize ≫= λ _,
  let total := total + len payload in
  reject_if (MaxRequestPayloadBytes <? total) ErrTotalSize ≫= λ _,
  let mimeType := mime_of name payload in
  reject_if (textualMIME mimeType && negb (bool_decide (RedactSensitiveText payload = payload))) ErrCredentialText ≫= λ _,
  mret (total, mkAttachmentInput name mimeType "base64" (len payload) (sha256_hex payload) (b64_encode payload)).
Fixpoint collect_loop (total : Z) (names : list string) : CM (list AttachmentInput) :=
  match names with
  | [] => mret []
  | name :: names' =>
    '(total, file) ← collect_file total name;
    rest ← collect_loop total names';
    mret (file :: rest)
  end.

(** [CollectResults], of a sandbox of the manager. *)
Definition CollectResults (owned : bool) (returnInfo : option FileInfo) : CM (list AttachmentInput) :=
  reject_if (negb owned) ErrSandboxOwner ≫= λ _,
  openOwnedReturnRoot returnInfo ≫= λ _,
  names ← ask_some ErrReturnDirectory OsReadDir;
  reject_if (MaxAttachments <? Z.of_nat (length names)) ErrTooManyFiles ≫= λ _,
  results ← collect_loop 0 names;
  validateOwnedReturnRoot returnInfo ≫= λ _,
  mret results.
End collect.
End artifact.

Example file_ext_samples : file_ext <$> ["a.txt"; "a.tar.GZ"; "a"; ".env"; "a."] = [".txt"; ".GZ"; ""; ".env"; "."].
Proof. vm_compute. reflexivity. Qed.
Example textual_samples : let _ := ascii_tables in textualMIME <$> ["Text/Plain; charset=utf-8"; "application/json"; "image/png"] = [true; true; false].
Proof. vm_compute. reflexivity. Qed.
Example b64_samples : b64_encode <$> [""; "f"; "fo"; "foo"; "foob"] = [""; "Zg=="; "Zm8="; "Zm9v"; "Zm9vYg=="].
Proof. vm_compute. reflexivity. Qed.

(** ** What the checks decide *)

Local Open Scope Z_scope.

(** ** Base64 *)

Lemma b64_val_digit z : 0 <= z < 64 → b64_val (b64_digit z) = Some z ∧ is_newline (b64_digit z) = false ∧ b64_digit z ≠ "="%char.
Proof.
  intros Hz. assert (forallb (λ z, bool_decide (b64_val (b64_digit z) = Some z) && negb (is_newline (b64_digit z))
    && negb (Ascii.eqb (b64_digit z) "="%char)) (seqZ 0 64) = true) as Hall by (vm_compute; reflexivity).
  rewrite forallb_forall in Hall. specialize (Hall z). rewrite <- list_elem_of_In, elem_of_seqZ in Hall. specialize (Hall ltac:(lia)).
  apply andb_true_iff in Hall as [[H1%bool_decide_eq_true H2%negb_true_iff]%andb_true_iff H3%negb_true_iff].
  split_and!; [done|done|by apply Ascii.eqb_neq].
Qed.
Lemma b64_encode_no_newline l : Forall (λ c, is_newline c = false) (b64_encode_bytes l).
Proof.
  assert (∀ z, 0 <= z < 64 → is_newline (b64_digit z) = false) as Hd by (intros z Hz; by apply b64_val_digit).
  induction l as [l IH] using (induction_ltof1 _ (@length _)). unfold ltof in IH. destruct l as [|a [|b [|c l]]]; [constructor|..];
    pose proof (byte_val_range a); try pose proof (byte_val_range b); try pose proof (byte_val_range c); cbn [b64_encode_bytes];
    repeat (constructor; [first [done|apply Hd; div_lia]|]); try constructor. apply IH. simpl. lia.
Qed.
Lemma b64_quads_encode l : b64_quads (b64_encode_bytes l) = Some l.
Proof.
  assert (∀ z, 0 <= z < 64 → b64_val (b64_digit z) = Some z) as Hv by (intros z Hz; by apply b64_val_digit).
  assert (∀ z, 0 <= z < 64 → Ascii.eqb (b64_digit z) "="%char = false) as Hd by (intros z Hz; apply Ascii.eqb_neq; by apply b64_val_digit).
  assert (∀ z c, z = byte_val c → byte_of z = c) as Hb by (intros z c ->; apply byte_of_val).
  induction l as [l IH] using (induction_ltof1 _ (@length _)). unfold ltof in IH. destruct l as [|a [|b [|c l]]]; [done|..];
    pose proof (byte_val_range a); try pose proof (byte_val_range b); try pose proof (byte_val_range c);
    cbn [b64_encode_bytes b64_quads]; rewrite ?Hv, ?Hd by div_lia; rewrite ?Ascii.eqb_refl.
  - by rewrite (Hb _ a) by div_lia.
  - by rewrite (Hb _ a), (Hb _ b) by div_lia.
  - rewrite IH by (simpl; lia). by rewrite (Hb _ a), (Hb _ b), (Hb _ c) by div_lia.
Qed.
Lemma b64_decode_encode s : b64_decode (b64_encode s) = Some s.
Proof.
  unfold b64_decode, b64_encode, bytes. rewrite String.list_ascii_of_string_of_list_ascii.
  assert (List.filter (λ c, negb (is_newline c)) (b64_encode_bytes (String.list_ascii_of_string s)) = b64_encode_bytes (String.list_ascii_of_string s)) as ->.
  { induction (b64_encode_no_newline (String.list_ascii_of_string s)) as [|c l Hc _ IH]; [done|]. cbn. rewrite Hc. cbn. by rewrite IH. }
  rewrite b64_quads_encode. cbn. by rewrite String.string_of_list_ascii_of_string.
Qed.

Section artifact.
Context `{UT : UnicodeTables}.

(** ** Attachments *)

(** The bytes are those the descriptor promises. *)
Definition matches_descriptor (d : ArtifactDescriptor) (payload : string) : Prop :=
  len payload = ad_SizeBytes d ∧ len payload <= MaxAttachmentBytes ∧ equal_fold (sha256_hex payload) (ad_SHA256 d) = true.
Lemma verifyContent_spec d c payload : verifyContent d c = inr payload ↔
  ∃ x, c = Some x ∧ ac_Descriptor x = d ∧ ac_Encoding x = "base64" ∧ b64_decode (ac_ContentBase64 x) = Some payload ∧
    matches_descriptor d payload.
Proof.
  unfold verifyContent, matches_descriptor. destruct c as [x|]; [|split; [done|by intros (? & ? & _)]].
  destruct (bool_decide (ac_Descriptor x = d)) eqn:H1; cbn [negb fail_if mbind sum_bind];
    [apply bool_decide_eq_true in H1|apply bool_decide_eq_false in H1; split; [done|intros (y & [= <-] & ? & _); congruence]].
  destruct (bool_decide (ac_Encoding x = "base64")) eqn:H2; cbn [negb fail_if mbind sum_bind];
    [apply bool_decide_eq_true in H2|apply bool_decide_eq_false in H2; split; [done|intros (y & [= <-] & _ & ? & _); congruence]].
  destruct (b64_decode (ac_ContentBase64 x)) as [p|] eqn:Hd; [|split; [done|intros (y & [= <-] & _ & _ & ? & _); congruence]].
  destruct (negb (len p =? ad_SizeBytes d) || (MaxAttachmentBytes <? len p)) eqn:H3; cbn [fail_if mbind sum_bind].
  { split; [done|]. intros (y & [= <-] & _ & _ & Hp & ? & ? & _). rewrite Hd in Hp. injection Hp as ->. lia. }
  destruct (equal_fold (sha256_hex p) (ad_SHA256 d)) eqn:H4; cbn [negb fail_if mbind sum_bind]; split; try done.
  - intros [= <-]. exists x. split_and!; (done || lia).
  - intros (y & [= <-] & _ & _ & Hp & _). congruence.
  - intros (y & [= <-] & _ & _ & Hp & _ & _ & ?). congruence.
Qed.

Definition descriptor_ok (d : ArtifactDescriptor) : Prop :=
  trim_space (ad_ArtifactID d) ≠ "" ∧ is_ok (ValidatePortableFilename (ad_Name d)) = true ∧
  0 <= ad_SizeBytes d <= MaxAttachmentBytes ∧ len (ad_SHA256 d) = 64 ∧ is_Some (hex_decode (ad_SHA256 d)).
Definition sum_sizes (l : list ArtifactDescriptor) : Z := foldr (λ d n, ad_SizeBytes d + n) 0 l.

Lemma sum_sizes_nonneg l : Forall descriptor_ok l → 0 <= sum_sizes l.
Proof. induction 1 as [|d l (_ & _ & ? & _) _ IH]; [done|]. change (sum_sizes (d :: l)) with (ad_SizeBytes d + sum_sizes l). lia. Qed.
Lemma descriptors_check_spec ids names total l : total <= MaxRequestPayloadBytes →
  descriptors_check ids names total l = inr () ↔
    Forall descriptor_ok l ∧ NoDup (ad_ArtifactID <$> l) ∧ Forall (.∉ ids) (ad_ArtifactID <$> l) ∧
    NoDup (to_lower ∘ ad_Name <$> l) ∧ Forall (.∉ names) (to_lower ∘ ad_Name <$> l) ∧ total + sum_sizes l <= MaxRequestPayloadBytes.
Proof.
  revert ids names total. induction l as [|d l IH]; intros ids names total Ht.
  { cbn. split; [intros _; split_and!; try constructor; lia|done]. }
  cbn [descriptors_check]. unfold validateFilename.
  assert (∀ b (m : artifact_error + ()), (fail_if b ErrDescriptor ≫= λ _, m) = inr () ↔ b = false ∧ m = inr ()) as Hf.
  { intros [] m; cbn; [|tauto]. split; [done|by intros [? _]]. }
  rewrite !Hf, !bool_decide_eq_false, !negb_false_iff, orb_false_iff, Z.eqb_eq, !Z.ltb_ge. clear Hf.
  rewrite !fmap_cons, !NoDup_cons, !Forall_cons. unfold descriptor_ok at 1. cbn [sum_sizes foldr]. fold (sum_sizes l).
  assert (is_ok (match hex_decode (ad_SHA256 d) with Some p => inr p | None => inl () end) = true ↔ is_Some (hex_decode (ad_SHA256 d))) as ->.
  { destruct (hex_decode _); [split; [by eexists|done]|split; [done|by intros []]]. }
  split.
  - intros (H1 & H2 & [H3 H4] & H5 & H6 & H7 & H8 & H9 & Hrest). apply IH in Hrest as (R1 & R2 & R3 & R4 & R5 & R6); [|lia].
    split_and!; try done; try lia; rewrite ?Forall_forall in *; set_solver.
  - intros ((H1 & R1) & (H2 & H3) & (H4 & H5) & (H6 & H7) & (H8 & H9) & Hsum). destruct H1 as (A1 & A2 & A3 & A4 & A5).
    pose proof (sum_sizes_nonneg l R1). split_and!; try done; try lia. apply IH; [lia|].
    split_and!; try done; try lia; rewrite ?Forall_forall in *; set_solver.
Qed.
Lemma validateDescriptors_spec l : validateDescriptors l = inr () ↔
  Forall descriptor_ok l ∧ NoDup (ad_ArtifactID <$> l) ∧ NoDup (to_lower ∘ ad_Name <$> l) ∧ sum_sizes l <= MaxRequestPayloadBytes.
Proof.
  unfold validateDescriptors. rewrite descriptors_check_spec by (unfold MaxRequestPayloadBytes; lia). cbn [Z.add].
  assert (∀ k : list string, Forall (.∉ (∅ : gset string)) k ↔ True) as Ht by (intros k; rewrite Forall_forall; set_solver).
  rewrite !Ht. tauto.
Qed.

(** ** Collection *)

Section collect.
Variable answer : nat → ∀ B, oscall B → B.
Variables (TypeByExtension DetectContentType : string → string).
Variable windows : bool.

(** What a file that may be sent says of its bytes: they are bounded, described
    truthfully and, where they are text, without secrets. *)
Definition describes (i : AttachmentInput) (payload : string) : Prop :=
  ai_Encoding i = "base64" ∧ b64_decode (ai_ContentBase64 i) = Some payload ∧ ai_SizeBytes i = len payload ∧
  ai_SizeBytes i <= MaxAttachmentBytes ∧ ai_SHA256 i = sha256_hex payload ∧
  ai_MIMEType i = mime_of TypeByExtension DetectContentType (ai_Name i) payload ∧
  (textualMIME (ai_MIMEType i) = true → clean_text payload).
(** Its name. *)
Definition sendable_name (name : string) : Prop :=
  is_ok (ValidatePortableFilename name) = true ∧ sensitiveFilename name = false ∧ forbiddenDeliverable name = false.
Definition deliverable (i : AttachmentInput) : Prop := sendable_name (ai_Name i) ∧ ∃ payload, describes i payload.
Definition sum_files (l : list AttachmentInput) : Z := foldr (λ i n, ai_SizeBytes i + n) 0 l.

(** *** What the operating system answered *)

(** From the call [t] on, the entry [name] was a regular, private file, not
    executable and not too large; it was opened, and the handle was one of that
    very file; [payload] is all that was read from this handle; and the name
    still denoted that file when the handle was closed. *)
Definition read_whole (t : nat) (name payload : string) : Prop :=
  ∃ before file opened after,
    answer t _ (OsLstat name) = Some before ∧ fi_Kind before = KindRegular ∧
    answer (1 + t) _ (OsValidateContained name) = true ∧
    (windows = false → Z.land (fi_Perm before) 73 = 0) ∧ fi_Size before <= MaxAttachmentBytes ∧
    answer (2 + t) _ (OsOpen name) = Some file ∧
    answer (3 + t) _ (OsStat file) = Some opened ∧ fi_Kind opened = KindRegular ∧ fi_File opened = fi_File before ∧
    answer (4 + t) _ (OsReadAll file) = Some payload ∧ answer (5 + t) _ (OsClose file) = true ∧
    answer (6 + t) _ (OsLstat name) = Some after ∧ fi_Kind after ≠ KindSymlink ∧ fi_File after = fi_File before.
(** At the call [t], the open directory and the one in its place are both the
    directory that was made with the sandbox. *)
Definition still_owned (pinned : FileInfo) (t : nat) : Prop :=
  ∃ opened current, answer t _ OsStatOpened = Some opened ∧ fi_File opened = fi_File pinned ∧
    answer (1 + t) _ OsLstatReturn = Some current ∧ fi_Kind current = KindDirectory ∧ fi_File current = fi_File pinned.
(** The directory is opened from the call [t] on. *)
Definition opened_owned (pinned : FileInfo) (t : nat) : Prop :=
  (∃ current, answer t _ OsLstatReturn = Some current ∧ fi_Kind current = KindDirectory ∧ fi_File current = fi_File pinned) ∧
  answer (1 + t) _ OsValidateReturn = true ∧ answer (2 + t) _ OsOpenReturn = true ∧ still_owned pinned (3 + t).

Lemma ask_some_run {B} e (x : oscall (option B)) t t' b : ask_some answer e x t = (t', inr b) → t' = S t ∧ answer t _ x = Some b.
Proof. unfold ask_some, ask, mbind, M_bind. destruct (answer t _ x) as [b'|]; [|done]. by intros [= <- <-]. Qed.
Lemma ask_ok_run e (x : oscall bool) t t' u : ask_ok answer e x t = (t', inr u) → t' = S t ∧ answer t _ x = true.
Proof. unfold ask_ok, ask, mbind, M_bind. intros [Hx Ht]%reject_if_inr. by apply negb_false_iff in Hx. Qed.
Lemma ask_run {B} (x : oscall B) t t' b : ask answer x t = (t', inr b) → t' = S t ∧ answer t _ x = b.
Proof. by intros [= <- <-]. Qed.
Ltac os_inv := run_inv; repeat (match goal with
  | H : ask_some _ _ _ _ = (_, inr _) |- _ => apply ask_some_run in H as [-> ?]
  | H : ask_ok _ _ _ _ = (_, inr _) |- _ => apply ask_ok_run in H as [-> ?]
  | H : ask _ _ _ = (_, inr _) |- _ => apply ask_run in H as [-> ?]
  end; run_inv).

Lemma limit_read_all n s : len (limit_read (n + 1) s) <= n → 0 <= n → limit_read (n + 1) s = s.
Proof.
  unfold limit_read. destruct (Z.leb_spec (len s) (n + 1)); [done|]. intros Hle Hn. exfalso.
  assert (len (take_bytes (Z.to_nat (n + 1)) s) = n + 1); [|lia].
  unfold len in *. rewrite length_take_bytes. lia.
Qed.

Lemma validate_root_run returnInfo t t' u : validateOwnedReturnRoot answer returnInfo t = (t', inr u) →
  t' = (2 + t)%nat ∧ ∃ pinned, returnInfo = Some pinned ∧ still_owned pinned t.
Proof.
  unfold validateOwnedReturnRoot. destruct returnInfo as [pinned|]; [|done]. intros Hrun. os_inv.
  do 2 match goal with H : match ?x with Some _ => _ | None => _ end _ = _ |- _ => destruct x; [|done] end. run_inv. orb_split. unfold is_dir, same_file in *. orb_split.
  split; [done|]. exists pinned. split; [done|]. by do 2 eexists.
Qed.
Lemma open_root_run returnInfo t t' u : openOwnedReturnRoot answer returnInfo t = (t', inr u) →
  t' = (5 + t)%nat ∧ ∃ pinned, returnInfo = Some pinned ∧ opened_owned pinned t.
Proof.
  unfold openOwnedReturnRoot. destruct returnInfo as [pinned|]; [|done]. intros Hrun. os_inv.
  match goal with H : validateOwnedReturnRoot _ _ _ = _ |- _ => apply validate_root_run in H as (-> & ? & [= <-] & Hown) end.
  orb_split. unfold is_dir, same_file in *. orb_split. split; [done|]. exists pinned. split; [done|]. split_and!; [by eexists|done|done|done].
Qed.
Lemma collect_file_run total name t t' total' i :
  collect_file answer TypeByExtension DetectContentType windows total name t = (t', inr (total', i)) →
  t' = (7 + t)%nat ∧ ai_Name i = name ∧ sendable_name name ∧ total' = total + ai_SizeBytes i ∧ total' <= MaxRequestPayloadBytes ∧
  ∃ payload, read_whole t name payload ∧ describes i payload.
Proof.
  unfold collect_file, read_returned. intros Hrun. os_inv.
  match goal with H : (if ?b then _ else _) _ = _ |- _ => destruct b eqn:Hopened; os_inv end.
  match goal with H : match ?x with Some _ => _ | None => _ end _ = _ |- _ => destruct x eqn:Hread; os_inv end.
  match goal with H : (MaxAttachmentBytes <? len _) = false |- _ => apply Z.ltb_ge, limit_read_all in H as Hwhole; [|done] end.
  rewrite Hwhole in *. orb_split.
  match goal with H : match ?x with Some _ => _ | None => _ end = true |- _ => destruct x as [o|] eqn:Ho; [|done] end.
  unfold is_regular, same_file in *. orb_split. split_and!; try done; try lia.
  match goal with H : answer _ _ (OsReadAll _) = Some ?s |- _ => exists s end. split.
  - unfold read_whole. do 4 eexists. split_and!; done || lia.
  - unfold describes. cbn. split_and!; [done|apply b64_decode_encode|done|lia|done|done|]. intros Htext.
    match goal with H : textualMIME _ && _ = false |- _ => rewrite Htext in H; cbn in H; apply negb_false_iff, bool_decide_eq_true in H as <- end.
    apply redacted_clean.
Qed.
(** The files, one after the other, seven calls each. *)
Definition all_read (t : nat) (l : list AttachmentInput) : Prop :=
  ∀ k i, l !! k = Some i → ∃ payload, read_whole (7 * k + t) (ai_Name i) payload ∧ describes i payload.
Lemma all_read_cons t i l payload : read_whole t (ai_Name i) payload → describes i payload → all_read (7 + t) l → all_read t (i :: l).
Proof.
  intros Hr Hd Hl [|k] j; cbn [lookup list_lookup]; [intros [= <-]; by exists payload|]. intros Hj. destruct (Hl k j Hj) as (p & Hp & ?).
  exists p. split; [|done]. by replace (7 * S k + t)%nat with (7 * k + (7 + t))%nat by lia.
Qed.
Lemma collect_loop_run total names t t' l : total <= MaxRequestPayloadBytes →
  collect_loop answer TypeByExtension DetectContentType windows total names t = (t', inr l) →
  t' = (7 * length l + t)%nat ∧ ai_Name <$> l = names ∧ Forall sendable_name names ∧ total + sum_files l <= MaxRequestPayloadBytes ∧ all_read t l.
Proof.
  revert total t t' l. induction names as [|name names IH]; intros total t t' l Ht Hrun; cbn [collect_loop] in Hrun.
  { run_inv. split_and!; [done|done|constructor|change (sum_files []) with 0; lia|by intros k i]. }
  run_inv. match goal with H : collect_file _ _ _ _ _ _ _ = (_, inr ?p) |- _ =>
    destruct p as [total' i]; apply collect_file_run in H as (-> & <- & Hname & Hsum & Hmax & payload & Hread & Hdesc) end.
  run_inv. match goal with H : collect_loop _ _ _ _ _ _ _ = _ |- _ => apply IH in H as (-> & <- & Hnames & Htot & Hall); [|done] end.
  split_and!; [cbn [length]; lia|done|by constructor| |by eapply all_read_cons].
  change (sum_files (?x :: ?y)) with (ai_SizeBytes x + sum_files y). lia.
Qed.

Lemma collect_results_run owned returnInfo t t' l :
  CollectResults answer TypeByExtension DetectContentType windows owned returnInfo t = (t', inr l) →
  owned = true ∧ (∃ pinned, returnInfo = Some pinned ∧ opened_owned pinned t ∧ still_owned pinned (7 * length l + (6 + t))) ∧
  answer (5 + t) _ OsReadDir = Some (ai_Name <$> l) ∧ Forall sendable_name (ai_Name <$> l) ∧ all_read (6 + t) l ∧
  Z.of_nat (length l) <= MaxAttachments ∧ sum_files l <= MaxRequestPayloadBytes.
Proof.
  unfold CollectResults. intros Hrun. run_inv.
  match goal with H : openOwnedReturnRoot _ _ _ = _ |- _ => apply open_root_run in H as (-> & pinned & -> & Hopened) end. os_inv.
  match goal with H : collect_loop _ _ _ _ _ _ _ = _ |- _ => apply collect_loop_run in H as (-> & <- & Hnames & Hsum & Hall); [|by unfold MaxRequestPayloadBytes] end.
  match goal with H : validateOwnedReturnRoot _ _ _ = _ |- _ => apply validate_root_run in H as (-> & ? & [= <-] & Hown) end.
  rewrite length_fmap in *. split_and!; try done; try lia. by exists pinned.
Qed.
Lemma collect_results_facts owned returnInfo t t' l :
  CollectResults answer TypeByExtension DetectContentType windows owned returnInfo t = (t', inr l) →
  Z.of_nat (length l) <= MaxAttachments ∧ sum_files l <= MaxRequestPayloadBytes ∧ Forall deliverable l.
Proof.
  intros (_ & _ & _ & Hnames & Hall & ? & ?)%collect_results_run. split_and!; [done|done|]. apply Forall_lookup. intros k i Hk.
  destruct (Hall k i Hk) as (payload & _ & Hd). split; [|by exists payload]. rewrite Forall_fmap, Forall_lookup in Hnames. by apply (Hnames k).
Qed.

(** C38. Whatever the operating system answers while the runtime may still be
    changing its directory, a successful collection is of a sandbox of the
    manager, whose return directory was the one pinned, private and in its
    place when it was opened, and still in its place after the last file was
    read.  It is all of one listing of the directory, in order, nothing
    skipped.  Each file is plainly named, no secret, archive or executable by
    name; it was a regular, private, not executable file before it was opened,
    the handle was one of that very file, all of its bytes were read through
    this handle, and its name still denoted it afterwards; and what is sent is
    these bytes, described by their true size and SHA-256 and encoded
    reversibly, and, where they are text, as redaction leaves them: no
    sensitive value and no credential.  There are at most [MaxAttachments]
    files of [MaxAttachmentBytes] each and [MaxRequestPayloadBytes] together. *)
Theorem collect_results_correct owned returnInfo t t' l :
  CollectResults answer TypeByExtension DetectContentType windows owned returnInfo t = (t', inr l) →
  owned = true ∧ (∃ pinned, returnInfo = Some pinned ∧ opened_owned pinned t ∧ still_owned pinned (7 * length l + (6 + t))) ∧
  answer (5 + t) _ OsReadDir = Some (ai_Name <$> l) ∧ Forall sendable_name (ai_Name <$> l) ∧ all_read (6 + t) l ∧
  Z.of_nat (length l) <= MaxAttachments ∧ sum_files l <= MaxRequestPayloadBytes.
Proof. apply collect_results_run. Qed.
End collect.
End artifact.
