(* ===== verification/Sandbox.v ===== *)
(** * Sandboxes of approved requests ([internal/artifact/manager.go])

    The private directory a request runs in: created under a random name,
    filled with the verified attachments, and removed as a whole.  Every
    operation of the file system may be refused, or take effect and still
    fail; paths follow the Unix rules of [path/filepath]. *)

From S2P Require Import Prelude GoString Sha256 GoStringFacts Protocol Artifact.
From Stdlib Require Import Ascii.

(** ** A small file system

    Directory trees as the manager changes them: entries in the order [ReadDir]
    lists them, symbolic links that are never followed, and an operation at a
    path. *)

Inductive node :=
  | NFile (mode : Z) (payload : string)
  | NLink
  | NDir (mode : Z) (entries : list (string * node)).

Fixpoint entry_get (k : string) (l : list (string * node)) : option node :=
  match l with [] => None | (k', n) :: l' => if bool_decide (k = k') then Some n else entry_get k l' end.
Fixpoint entry_set (k : string) (n : node) (l : list (string * node)) : list (string * node) :=
  match l with
  | [] => [(k, n)]
  | (k', n') :: l' =>
    if bool_decide (k = k') then (k, n) :: l' else if str_leb k k' then (k, n) :: l else (k', n') :: entry_set k n l'
  end.
Definition entry_del (k : string) (l : list (string * node)) : list (string * node) :=
  List.filter (λ e, negb (bool_decide (k = e.1))) l.

(** What lies at a path below a node. *)
Fixpoint node_at (path : list string) (n : node) : option node :=
  match path with
  | [] => Some n
  | k :: path' => match n with NDir _ es => c ← entry_get k es; node_at path' c | _ => None end
  end.
(** A change at a path whose parents are directories. *)
Fixpoint change_at (path : list string) (f : option node → option node) (n : node) : option node :=
  match path with
  | [] => None
  | k :: path' =>
    match n with
    | NDir m es =>
      match path' with
      | [] => c ← f (entry_get k es); Some (NDir m (entry_set k c es))
      | _ => c ← entry_get k es; c' ← change_at path' f c; Some (NDir m (entry_set k c' es))
      end
    | _ => None
    end
  end.

(** [mkdir], [open(O_EXCL)], [write] and [chmod] at a path *)
Definition fs_mkdir (o : option node) : option node := match o with None => Some (NDir 448 []) | Some _ => None end.
Definition fs_create (mode : Z) (o : option node) : option node := match o with None => Some (NFile mode "") | Some _ => None end.
Definition fs_write (payload : string) (o : option node) : option node :=
  match o with Some (NFile m s) => Some (NFile m (s +:+ payload)) | _ => None end.
Definition fs_chmod (mode : Z) (o : option node) : option node :=
  match o with Some (NFile _ s) => Some (NFile mode s) | Some (NDir _ es) => Some (NDir mode es) | _ => None end.

(** ** Lookups after a change *)

Lemma entry_get_set k n l : entry_get k (entry_set k n l) = Some n.
Proof.
  induction l as [|[k' n'] l IH]; simpl; [by rewrite bool_decide_true|].
  case_bool_decide; simpl; [by rewrite bool_decide_true|]. destruct (str_leb k k'); simpl; [by rewrite bool_decide_true|].
  by rewrite bool_decide_false.
Qed.
Lemma entry_get_set_ne k k' n l : k ≠ k' → entry_get k (entry_set k' n l) = entry_get k l.
Proof.
  intros Hk. induction l as [|[k1 n1] l IH]; simpl; [by rewrite bool_decide_false|].
  case_bool_decide as H1; [subst; simpl; by rewrite !bool_decide_false|].
  destruct (str_leb k' k1); simpl; [by rewrite (bool_decide_false _ Hk)|]. case_bool_decide; [done|apply IH].
Qed.
Lemma entry_get_del k l : entry_get k (entry_del k l) = None.
Proof. induction l as [|[k' n'] l IH]; simpl; [done|]. case_bool_decide; simpl; [done|]. by rewrite bool_decide_false. Qed.
Lemma entry_get_del_ne k k' l : k ≠ k' → entry_get k (entry_del k' l) = entry_get k l.
Proof.
  intros Hk. induction l as [|[k1 n1] l IH]; simpl; [done|]. case_bool_decide as H1; simpl; [subst; by rewrite bool_decide_false|].
  by rewrite IH.
Qed.

Lemma node_at_app p q n : node_at (p ++ q) n = (c ← node_at p n; node_at q c).
Proof.
  revert n. induction p as [|k p IH]; intros n; [done|]. simpl. destruct n as [| |m es]; try done.
  destruct (entry_get k es); [|done]. apply IH.
Qed.
Lemma change_at_get p f n n' : change_at p f n = Some n' → p ≠ [] → ∃ c, f (node_at p n) = Some c ∧ node_at p n' = Some c.
Proof.
  revert n n'. induction p as [|k p IH]; intros n n' Hc Hp; [done|]. simpl in Hc. destruct n as [| |m es]; try done.
  destruct p as [|k' p].
  - apply bind_Some in Hc as (c & Hf & [= <-]). exists c. simpl. rewrite entry_get_set. split; [|done].
    by destruct (entry_get k es).
  - apply bind_Some in Hc as (c & Hk & (c' & Hc & [= <-])%bind_Some). destruct (IH c c' Hc) as (x & Hf & Hx); [done|].
    exists x. change (node_at (k :: k' :: p) (NDir m es)) with (c0 ← entry_get k es; node_at (k' :: p) c0). rewrite Hk.
    split; [exact Hf|]. change (node_at (k :: k' :: p) (NDir m (entry_set k c' es)))
      with (c0 ← entry_get k (entry_set k c' es); node_at (k' :: p) c0). by rewrite entry_get_set.
Qed.

(** Paths of which neither is above the other. *)
Fixpoint apart (p q : list string) : Prop :=
  match p, q with
  | k :: p', k' :: q' => k ≠ k' ∨ apart p' q'
  | _, _ => False
  end.
Lemma change_at_apart p q f n n' : change_at p f n = Some n' → apart p q → node_at q n' = node_at q n.
Proof.
  revert q n n'. induction p as [|k p IH]; intros q n n' Hc Hpq; [done|]. destruct q as [|k' q]; [done|].
  simpl in Hc. destruct n as [| |m es]; try done.
  assert (∃ c' , n' = NDir m (entry_set k c' es) ∧ (k = k' → apart p q → (c0 ← entry_get k es; node_at q c0) = node_at q c')) as (c' & -> & Hsame).
  { destruct p as [|k1 p].
    - apply bind_Some in Hc as (c & _ & [= <-]). by exists c.
    - apply bind_Some in Hc as (c & Hk & (c' & Hc & [= <-])%bind_Some). exists c'. split; [done|]. intros _ Ha.
      rewrite Hk. symmetry. by apply (IH q c c'). }
  simpl. destruct (decide (k = k')) as [<-|Hne].
  - rewrite entry_get_set. simpl. destruct Hpq as [|Ha]; [done|]. by rewrite <- Hsame.
  - rewrite entry_get_set_ne by congruence. done.
Qed.
(** The top entry is all that a change touches. *)
Lemma change_at_top k p f n n' k' : change_at (k :: p) f n = Some n' → k' ≠ k → node_at [k'] n' = node_at [k'] n.
Proof. intros Hc Hk. eapply change_at_apart; [exact Hc|]. left. congruence. Qed.

Local Open Scope Z_scope.

(** ** [path/filepath] *)

Fixpoint clean_loop (rooted : bool) (out l : list string) : list string :=
  match l with
  | [] => out
  | c :: l' =>
    if bool_decide (c = "") || bool_decide (c = ".") then clean_loop rooted out l' else
    if bool_decide (c = "..") then
      match out with
      | [] => clean_loop rooted (if rooted then [] else [c]) l'
      | o :: out' => clean_loop rooted (if bool_decide (o = "..") then c :: out else out') l'
      end
    else clean_loop rooted (c :: out) l'
  end.
Definition Clean (p : string) : string :=
  if bool_decide (p = "") then "." else
  let rooted := has_prefix p "/" in
  let out := reverse (clean_loop rooted [] (split_byte "/"%char p)) in
  if rooted then "/" +:+ join "/" out else match out with [] => "." | _ => join "/" out end.
Definition path_Join (l : list string) : string :=
  match List.filter (λ e, negb (bool_decide (e = ""))) l with
  | [] => ""
  | l => Clean (join "/" l)
  end.

Definition requestDirectoryPrefix : string := "request-".

(** [Sandbox] *)
Record sandbox := mkOwned {
  sx_name : string; sx_Root : string; sx_Attachments : list string; sx_ReturnDirectory : string; sx_returnInfo : FileInfo }.

Inductive fault := Fine | Refused | Halfway (n : nat).

Record disk := mkDisk {
  dk_root : node;                         (** the manager's directory *)
  dk_ticks : nat;
  dk_fault : nat → fault;
  dk_random : nat → option string;        (** [crypto/rand] *)
  dk_file : nat → nat;                    (** the identities the system gives *)
  dk_fetch : nat → string → option (option ArtifactContent) }.   (** the relay *)
Definition set_root (n : node) (w : disk) : disk :=
  mkDisk n (dk_ticks w) (dk_fault w) (dk_random w) (dk_file w) (dk_fetch w).
Definition next_tick (w : disk) : disk :=
  mkDisk (dk_root w) (S (dk_ticks w)) (dk_fault w) (dk_random w) (dk_file w) (dk_fetch w).
Definition set_ticks (n : nat) (w : disk) : disk :=
  mkDisk (dk_root w) n (dk_fault w) (dk_random w) (dk_file w) (dk_fetch w).

Abbreviation AM := (M disk artifact_error).

(** A change at a path; [fs_check] is an operation without effect. *)
Definition fs_change (e : artifact_error) (p : list string) (f : option node → option node) : AM () := λ w,
  match dk_fault w (dk_ticks w), change_at p f (dk_root w) with
  | Fine, Some r => (set_root r (next_tick w), inr ())
  | Halfway _, Some r => (set_root r (next_tick w), inl e)
  | _, _ => (next_tick w, inl e)
  end.
Definition fs_check (e : artifact_error) : AM () := λ w,
  (next_tick w, match dk_fault w (dk_ticks w) with Fine => inr () | _ => inl e end).
(** A failed write leaves a prefix. *)
Definition fs_append (e : artifact_error) (p : list string) (payload : string) : AM () := λ w,
  match dk_fault w (dk_ticks w) with
  | Fine => fs_change e p (fs_write payload) w
  | Refused => (next_tick w, inl e)
  | Halfway n => fs_change e p (fs_write (take_bytes n payload)) w
  end.

(** [rand.Read] of sixteen bytes *)
Definition random_bytes : AM (option string) := λ w, (next_tick w, inr (dk_random w (dk_ticks w))).

(** ** Creation *)

Section manager.
Context `{UT : UnicodeTables}.
Variable basePath : string.
Variable windows : bool.

(** [createRequestDirectory]: a name that exists is tried no further. *)
Fixpoint createRequestDirectory (attempts : nat) : AM string :=
  match attempts with
  | O => throw ErrDirectory
  | S attempts =>
    random ← random_bytes;
    match random with
    | None => throw ErrDirectory
    | Some bytes =>
      let name := requestDirectoryPrefix +:+ hex_encode bytes in
      taken ← gets (λ w, match dk_fault w (dk_ticks w), node_at [name] (dk_root w) with Fine, Some _ => true | _, _ => false end);
      if taken : bool then createRequestDirectory attempts
      else fs_change ErrDirectory [name] fs_mkdir ≫= λ _, mret name
    end
  end.

Definition validateSandbox (s : sandbox) : artifact_error + () :=
  fail_if (negb (has_prefix (sx_name s) requestDirectoryPrefix) || negb (fs_valid_path (sx_name s)) ||
    contains_any (sx_name s) "/\" || negb (bool_decide (Clean (sx_Root s) = path_Join [basePath; sx_name s])) ||
    negb (bool_decide (Clean (sx_ReturnDirectory s) = path_Join [basePath; sx_name s; "return-files"]))) ErrSandboxOwner.

(** ** Removal *)

Definition faulty (w : disk) (t : nat) : bool := match dk_fault w t with Fine => false | _ => true end.
Definition refused (w : disk) (t : nat) : bool := match dk_fault w t with Refused => true | _ => false end.
(** [root.Remove] *)
Definition remove (w : disk) (n : node) (t : nat) : bool * option node * nat :=
  (negb (faulty w t), if refused w t then Some n else None, S t).

(** [removeAll] of a node: success, what is left, and the time. *)
Fixpoint removeAll (w : disk) (n : node) (t : nat) : bool * option node * nat :=
  if faulty w t then (false, Some n, S t) else                                   (* Lstat *)
  match n with
  | NFile _ _ | NLink => remove w n (S t)
  | NDir m es =>
    if faulty w (1 + t) then (false, Some n, (2 + t)%nat) else                    (* Open *)
    let n' := if refused w (2 + t) then n else NDir 448 es in
    if faulty w (2 + t) then (false, Some n', (3 + t)%nat) else                   (* Chmod *)
    if faulty w (3 + t) then (false, Some n', (4 + t)%nat) else                   (* Close *)
    if faulty w (4 + t) then (false, Some n', (5 + t)%nat) else                   (* OpenRoot *)
    if faulty w (5 + t) then (false, Some n', (7 + t)%nat) else                   (* ReadDir, then Close *)
    let '(done, es', t) :=
      (fix entries (l : list (string * node)) (t : nat) : bool * list (string * node) * nat :=
        match l with
        | [] => (true, [], t)
        | (k, c) :: l' =>
          match removeAll w c t with
          | (true, _, t) => entries l' t
          | (false, Some c', t) => (false, (k, c') :: l', t)
          | (false, None, t) => (false, l', t)
          end
        end) es (6 + t)%nat in
    if negb done then (false, Some (NDir 448 es'), S t) else
    if faulty w t then (false, Some (NDir 448 es'), S t) else                     (* Close *)
    remove w (NDir 448 es') (S t)
  end.

(** [removeAll] of an entry of the manager's directory *)
Definition remove_entry (name : string) : AM () := λ w,
  match dk_root w with
  | NDir m es =>
    match entry_get name es with
    | None => (next_tick w, if faulty w (dk_ticks w) then inl ErrRemove else inr ())
    | Some n =>
      let '(done, rest, t) := removeAll w n (dk_ticks w) in
      let es' := match rest with Some n' => entry_set name n' es | None => entry_del name es end in
      (set_ticks t (set_root (NDir m es') w), if done : bool then inr () else inl ErrRemove)
    end
  | _ => (w, inl ErrRemove)
  end.
Definition Cleanup (s : sandbox) : AM () := lift (validateSandbox s) ≫= λ _, remove_entry (sx_name s).

(** ** Materialization *)

Definition fetch (id : string) : AM (option ArtifactContent) := λ w,
  (next_tick w, match dk_fetch w (dk_ticks w) id with Some c => inr c | None => inl ErrFetch end).

(** One attachment, written and made read-only. *)
Definition write_attachment (name : string) (d : ArtifactDescriptor) (payload : string) : AM () :=
  let p := [name; "attachments"; ad_Name d] in
  fs_change ErrCreateFile p (fs_create 256) ≫= λ _,
  fs_append ErrWriteFile p payload ≫= λ _,
  (if windows then mret () else fs_change ErrWriteFile p (fs_chmod 256)) ≫= λ _,
  fs_check ErrWriteFile ≫= λ _,            (* Sync *)
  fs_check ErrWriteFile ≫= λ _,            (* Close *)
  fs_check ErrFilePrivacy.
Fixpoint materialize_files (name root : string) (seen : gset string) (ds : list ArtifactDescriptor) : AM (list string) :=
  match ds with
  | [] => mret []
  | d :: ds' =>
    let key := to_lower (ad_Name d) in
    reject_if (bool_decide (key ∈ seen)) ErrDuplicateName ≫= λ _,
    content ← fetch (ad_ArtifactID d);
    payload ← lift (verifyContent d content);
    write_attachment name d payload ≫= λ _,
    rest ← materialize_files name root ({[key]} ∪ seen) ds';
    mret (path_Join [root; "attachments"; ad_Name d] :: rest)
  end.

(** From the created directory to the sandbox. *)
Definition fill_sandbox (name : string) (ds : list ArtifactDescriptor) : AM sandbox :=
  let root := path_Join [basePath; name] in
  fs_change ErrDirectory [name; "attachments"] fs_mkdir ≫= λ _,
  fs_change ErrDirectory [name; "return-files"] fs_mkdir ≫= λ _,
  fs_check ErrDirectory ≫= λ _,            (* Lstat *)
  file ← gets (λ w, dk_file w (dk_ticks w));
  paths ← materialize_files name root ∅ ds;
  fs_check ErrDirectory ≫= λ _,            (* SyncDirectory *)
  fs_check ErrDirectory ≫= λ _,            (* Open *)
  (if windows then mret () else fs_change ErrDirectory [name; "attachments"] (fs_chmod 320) ≫= λ _, fs_check ErrDirectory) ≫= λ _,
  fs_check ErrDirectory ≫= λ _,            (* Close *)
  mret (mkOwned name root paths (path_Join [basePath; name; "return-files"]) (mkFileInfo KindDirectory 448 0 file)).

Definition Materialize (ds : list ArtifactDescriptor) (fetcher : bool) : AM sandbox :=
  reject_if (MaxAttachments <? Z.of_nat (length ds)) ErrTooManyAttachments ≫= λ _,
  reject_if ((0 <? Z.of_nat (length ds)) && negb fetcher) ErrFetcherRequired ≫= λ _,
  lift (validateDescriptors ds) ≫= λ _,
  name ← createRequestDirectory 10;
  r ← attempt (fill_sandbox name ds);
  match r with
  | inr s => mret s
  | inl e =>
    let s := mkOwned name (path_Join [basePath; name]) [] (path_Join [basePath; name; "return-files"]) (mkFileInfo KindOther 0 0 0) in
    attempt (Cleanup s) ≫= λ _, throw e
  end.
End manager.

Example clean_samples :
  Clean <$> [""; "/"; "/a/./b//c/"; "/a/../../b"; "a/.."; "../a"; "/.."; "a/../../b"] = ["."; "/"; "/a/b/c"; "/b"; "."; "../a"; "/"; "../b"].
Proof. vm_compute. reflexivity. Qed.
