(* ===== verification/SandboxProofs.v ===== *)
(** * What a sandbox holds

    A sandbox is made of exactly the approved attachments, or nothing of it is
    left; nothing else in the manager's directory is ever touched. *)

From S2P Require Import Prelude GoString Sha256 GoStringFacts Protocol Artifact Sandbox.
From Stdlib Require Import Ascii ZifyBool.

Local Open Scope Z_scope.

(** ** Removal *)

Lemma node_induction (P : node → Prop) :
  (∀ m s, P (NFile m s)) → P NLink → (∀ m es, Forall (λ e, P e.2) es → P (NDir m es)) → ∀ n, P n.
Proof.
  intros Hf Hl Hd. fix IH 1. intros [m s| |m es]; [apply Hf|apply Hl|apply Hd].
  induction es as [|[k c] es IHes]; constructor; [apply IH|exact IHes].
Qed.
Lemma removeAll_done w n t : (removeAll w n t).1.1 = true → (removeAll w n t).1.2 = None.
Proof.
  assert (∀ n t, (remove w n t).1.1 = true → (remove w n t).1.2 = None) as Hr.
  { intros n' t'. cbn. unfold faulty, refused. by destruct (dk_fault w t'). }
  destruct n as [m s| |m es]; cbn [removeAll]; (destruct (faulty w t); [done|]); try apply Hr.
  repeat (case_match; try done). apply Hr.
Qed.
Lemma removeAll_fine w n t : (∀ t, dk_fault w t = Fine) → (removeAll w n t).1.1 = true.
Proof.
  intros Hfine. assert (∀ t, faulty w t = false) as Hf by (intros t'; unfold faulty; by rewrite Hfine).
  revert t. induction n as [m s| |m es IH] using node_induction; intros t; cbn [removeAll]; rewrite ?Hf;
    try (cbn; by rewrite Hf).
  match goal with |- context [(?f es (6 + t)%nat)] => set (go := f) end.
  assert (∀ l t, Forall (λ e : string * node, ∀ t, (removeAll w e.2 t).1.1 = true) l → (go l t).1.1 = true) as Hgo.
  { induction l as [|[k c] l IHl]; intros t' Hl; [done|]. apply Forall_cons in Hl as [Hc Hl]. specialize (Hc t'). cbn in Hc |- *.
    destruct (removeAll w c t') as [[[] c'] t2]; [by apply IHl|done]. }
  specialize (Hgo es (6 + t)%nat IH). destruct (go es (6 + t)%nat) as [[[] es'] t']; [|done]. cbn. rewrite !Hf. cbn. by rewrite Hf.
Qed.

(** ** Only one entry is touched *)

Section touches.
Variable name : string.
Definition touches (w w' : disk) : Prop :=
  dk_fault w' = dk_fault w ∧ dk_fetch w' = dk_fetch w ∧ ∀ k, k ≠ name → node_at [k] (dk_root w') = node_at [k] (dk_root w).
#[export] Instance touches_preorder : PreOrder touches.
Proof.
  split; [by intros w|]. intros a b c (H1 & H2 & H3) (H4 & H5 & H6). split_and!; [congruence|congruence|].
  intros k Hk. by rewrite H6, H3.
Qed.
Lemma touches_change e p f : guar touches (fs_change e (name :: p) f).
Proof.
  intros w. unfold fs_change. destruct (dk_fault w (dk_ticks w)), (change_at (name :: p) f (dk_root w)) eqn:Hc; cbn; split_and!; try done;
    intros k Hk; by eapply change_at_top.
Qed.
Lemma touches_append e p s : guar touches (fs_append e (name :: p) s).
Proof. intros w. unfold fs_append. destruct (dk_fault w (dk_ticks w)); [apply touches_change|by split_and!|apply touches_change]. Qed.
Lemma touches_check e : guar touches (fs_check e).
Proof. intros w. by split_and!. Qed.
Lemma touches_fetch id : guar touches (fetch id).
Proof. intros w. by split_and!. Qed.
Lemma touches_remove : guar touches (remove_entry name).
Proof.
  intros w. unfold remove_entry. destruct (dk_root w) as [| |m es] eqn:Hr; [reflexivity|reflexivity|].
  destruct (entry_get name es) eqn:Hg; [|by split_and!]. destruct (removeAll _ _ _) as [[done rest] t]. cbn.
  split_and!; try done. intros k Hk. rewrite Hr. destruct rest; simpl; by rewrite ?entry_get_set_ne, ?entry_get_del_ne.
Qed.
End touches.

(** ** The manager's own names *)

Definition slash_free (c : string) : Prop := Forall (λ b, b ≠ "/"%char) (bytes c).
(** Components of a clean rooted path. *)
Definition proper (c : string) : Prop := c ≠ "" ∧ c ≠ "." ∧ c ≠ ".." ∧ slash_free c.

Lemma split_byte_pieces s : Forall slash_free (split_byte "/"%char s).
Proof.
  induction s as [|c s IH]; [repeat constructor|]. cbn [split_byte]. destruct (Ascii.eqb c "/"%char) eqn:He.
  - constructor; [constructor|done].
  - apply Ascii.eqb_neq in He. destruct (split_byte "/"%char s) as [|p ps]; [repeat constructor; done|].
    apply Forall_cons in IH as [Hp Hps]. constructor; [by constructor|done].
Qed.
Lemma clean_loop_proper out l : Forall proper out → Forall slash_free l → Forall proper (clean_loop true out l).
Proof.
  intros Ho Hl. revert out Ho. induction Hl as [|c l Hc _ IH]; intros out Ho; [done|]. cbn [clean_loop].
  destruct (_ || _) eqn:Hskip; [by apply IH|]. apply orb_false_iff in Hskip as [H1%bool_decide_eq_false H2%bool_decide_eq_false].
  case_bool_decide as H3; [|apply IH; by constructor].
  destruct out as [|o out]; [by apply IH|]. apply Forall_cons in Ho as [(_ & _ & Hne & _) Ho].
  rewrite bool_decide_false by done. by apply IH.
Qed.
Lemma clean_loop_id out l : Forall proper l → clean_loop true out l = reverse l ++ out.
Proof.
  intros Hl. revert out. induction Hl as [|c l (H1 & H2 & H3 & _) _ IH]; intros out; [done|]. cbn [clean_loop].
  rewrite !bool_decide_false by done. cbn [orb]. by rewrite IH, reverse_cons, <- app_assoc.
Qed.
Lemma Clean_rooted p : has_prefix p "/" = true → ∃ l, Forall proper l ∧ Clean p = "/" +:+ join "/" l.
Proof.
  intros Hp. exists (reverse (clean_loop true [] (split_byte "/"%char p))). split.
  - apply Forall_reverse, clean_loop_proper; [constructor|apply split_byte_pieces].
  - unfold Clean. rewrite Hp. destruct (bool_decide (p = "")) eqn:He; [|done]. apply bool_decide_eq_true in He as ->. done.
Qed.
Lemma Clean_id l : Forall proper l → Clean ("/" +:+ join "/" l) = "/" +:+ join "/" l.
Proof.
  intros Hl. change ("/" +:+ join "/" l) with (String "/" (join "/" l)). unfold Clean. cbn [bool_decide].
  rewrite bool_decide_false by done. assert (has_prefix (String "/" (join "/" l)) "/" = true) as -> by (unfold has_prefix; simpl; by destruct (join "/" l)).
  cbn [split_byte]. rewrite Ascii.eqb_refl. assert (clean_loop true [] ("" :: split_byte "/"%char (join "/" l)) = reverse l) as ->; [|by rewrite reverse_involutive].
  cbn [clean_loop]. cbn. destruct l as [|c l]; [done|].
  rewrite (split_join "/"%char (c :: l)); [by rewrite clean_loop_id, app_nil_r|done|].
  eapply Forall_impl; [exact Hl|]. by intros x (_ & _ & _ & ?).
Qed.
Lemma Clean_idem p : has_prefix p "/" = true → Clean (Clean p) = Clean p.
Proof. intros Hp. destruct (Clean_rooted p Hp) as (l & Hl & ->). by apply Clean_id. Qed.
Lemma Join_clean base l : has_prefix base "/" = true → Clean (path_Join (base :: l)) = path_Join (base :: l).
Proof.
  intros Hb. unfold path_Join. cbn [List.filter]. rewrite (bool_decide_false (base = "")) by (intros ->; done). cbn [negb].
  apply Clean_idem. destruct base as [|b base]; [done|].
  assert (∀ t, has_prefix (String b t) "/" = has_prefix (String b base) "/") as Hhead; [|destruct (List.filter _ l); cbn [join]; [exact Hb|by rewrite string_cons_app, Hhead]].
  intros t. unfold has_prefix. cbn [String.prefix]. destruct (ascii_dec _ _); [|done]. by destruct t, base.
Qed.

(** ** Creation *)

Lemma hex_encode_digits s : Forall (λ c, in_range 48 57 (byte_val c) || in_range 97 102 (byte_val c) = true) (bytes (hex_encode s)).
Proof.
  induction s as [|c s IH]; [constructor|]. assert (∀ z, 0 <= z < 16 → in_range 48 57 (byte_val (hex_digit z)) || in_range 97 102 (byte_val (hex_digit z)) = true) as Hd.
  { intros z Hz. assert (forallb (λ z, in_range 48 57 (byte_val (hex_digit z)) || in_range 97 102 (byte_val (hex_digit z))) (seqZ 0 16) = true)
      as Hall by (vm_compute; reflexivity).
    rewrite forallb_forall in Hall. apply Hall. apply list_elem_of_In, elem_of_seqZ. lia. }
  pose proof (byte_val_range c). constructor; [apply Hd|constructor; [apply Hd|exact IH]]; div_lia.
Qed.

(** A byte string of small ASCII is valid UTF-8 and one path component. *)
Lemma plain_name s : Forall (λ c, in_range 48 57 (byte_val c) || in_range 97 102 (byte_val c) = true) (bytes s) →
  let name := requestDirectoryPrefix +:+ s in
  fs_valid_path name = true ∧ contains_any name "/\" = false ∧ has_prefix name requestDirectoryPrefix = true.
Proof.
  intros Hs name. assert (Forall (λ c, byte_val c < 128 ∧ c ≠ "/"%char ∧ c ≠ "\"%char) (bytes name)) as Hb.
  { unfold name. change (bytes (requestDirectoryPrefix +:+ s)) with (bytes requestDirectoryPrefix ++ bytes s).
    apply Forall_app. split; [repeat constructor; done|]. eapply Forall_impl; [exact Hs|]. intros c Hc. cbn in Hc.
    unfold in_range in Hc. split; [lia|]. split; intros ->; done. }
  assert (valid_utf8 name = true) as Hv.
  { clearbody name. unfold valid_utf8. induction name as [|c t IH]; [done|]. apply Forall_cons in Hb as [[Hc _] Hb].
    rewrite segments_ascii by done. cbn [forallb]. rewrite IH by done. cbn. pose proof (byte_val_range c). unfold RuneError. lia. }
  split_and!; [unfold fs_valid_path; rewrite Hv| |].
  - rewrite (split_byte_free "/"%char name); [by destruct s|]. eapply Forall_impl; [exact Hb|]. by intros c (_ & ? & _).
  - unfold contains_any. apply not_true_is_false. intros (c & Hc & (d & Hd & Heq)%existsb_exists)%existsb_exists.
    apply Ascii.eqb_eq in Heq as <-. rewrite Forall_forall in Hb. apply list_elem_of_In, Hb in Hc as (_ & H1 & H2).
    cbn in Hd. by destruct Hd as [<-|[<-|[]]].
  - unfold has_prefix, name, requestDirectoryPrefix. by destruct s.
Qed.

Section manager.
Context `{UT : UnicodeTables}.
Variables (basePath : string) (windows : bool).
Hypothesis Hbase : has_prefix basePath "/" = true.

(** A sandbox of the manager is recognised as its own. *)
Lemma own_sandbox bytes paths info : let name := requestDirectoryPrefix +:+ hex_encode bytes in
  validateSandbox basePath (mkOwned name (path_Join [basePath; name]) paths (path_Join [basePath; name; "return-files"]) info) = inr ().
Proof.
  intros name. destruct (plain_name (hex_encode bytes) (hex_encode_digits bytes)) as (H1 & H2 & H3). fold name in H1, H2, H3.
  unfold validateSandbox. cbn [sx_name sx_Root sx_ReturnDirectory]. rewrite H1, H2, H3, !Join_clean by done.
  by rewrite !bool_decide_true by done.
Qed.

(** ** Filling a sandbox *)

Definition request_dir (attachments : node) : node := NDir 448 [("attachments", attachments); ("return-files", NDir 448 [])].
Definition holds (name : string) (attachments : node) (w : disk) : Prop := node_at [name] (dk_root w) = Some (request_dir attachments).
Abbreviation anything := (λ _ _, True).

Lemma change_at_child k p f n n' c : change_at (k :: p) f n = Some n' → p ≠ [] → node_at [k] n = Some c →
  ∃ c', change_at p f c = Some c' ∧ node_at [k] n' = Some c'.
Proof.
  intros Hc Hp Hk. cbn in Hc, Hk. destruct n as [| |m es]; try done. destruct p as [|k' p]; [done|].
  apply bind_Some in Hc as (c0 & Hc0 & (c' & Hc & [= <-])%bind_Some). rewrite Hc0 in Hk. injection Hk as ->.
  exists c'. split; [done|]. cbn. by rewrite entry_get_set.
Qed.
Lemma wp_fs_change e p f (Q : () → disk → Prop) w :
  (∀ r, change_at p f (dk_root w) = Some r → Q () (set_root r (next_tick w))) → wp (fs_change e p f) Q anything w.
Proof. intros HQ. unfold wp, fs_change. destruct (dk_fault w (dk_ticks w)), (change_at _ _ _); auto. Qed.
Lemma wp_fs_append e p s (Q : () → disk → Prop) w :
  (∀ r, change_at p (fs_write s) (dk_root w) = Some r → Q () (set_root r (next_tick w))) → wp (fs_append e p s) Q anything w.
Proof.
  intros HQ. unfold wp, fs_append. destruct (dk_fault w (dk_ticks w)) eqn:Hf; [by apply wp_fs_change|done|].
  unfold fs_change. rewrite Hf. by destruct (change_at p (fs_write (take_bytes n s)) (dk_root w)).
Qed.
Lemma wp_fs_check e (Q : () → disk → Prop) w : Q () (next_tick w) → wp (fs_check e) Q anything w.
Proof. unfold wp, fs_check. by destruct (dk_fault w (dk_ticks w)). Qed.

(** A change below the attachments directory. *)
Lemma attachments_change name p f att w r : holds name att w → p ≠ [] →
  change_at (name :: "attachments" :: p) f (dk_root w) = Some r →
  ∃ att', change_at p f att = Some att' ∧ node_at [name] r = Some (request_dir att').
Proof.
  intros Hw Hp Hc. destruct (change_at_child _ _ _ _ _ _ Hc ltac:(done) Hw) as (c' & Hc' & ->).
  destruct p as [|k p]; [done|]. apply bind_Some in Hc' as (a & [= <-] & (att' & Hatt & [= <-])%bind_Some). by exists att'.
Qed.
Lemma file_change name k f files w r : holds name (NDir 448 files) w →
  change_at [name; "attachments"; k] f (dk_root w) = Some r →
  ∃ c, f (entry_get k files) = Some c ∧ node_at [name] r = Some (request_dir (NDir 448 (entry_set k c files))).
Proof.
  intros Hw Hc. destruct (attachments_change name [k] f _ w r Hw ltac:(done) Hc) as (att' & Hatt & Hr).
  apply bind_Some in Hatt as (c & Hf & [= <-]). by exists c.
Qed.

(** One more file. *)
Definition grows (k : string) (c : node) (files files' : list (string * node)) : Prop :=
  entry_get k files = None ∧ entry_get k files' = Some c ∧ ∀ k', k' ≠ k → entry_get k' files' = entry_get k' files.
Lemma wp_write_attachment name d payload files w : holds name (NDir 448 files) w →
  wp (write_attachment windows name d payload)
    (λ _ w', ∃ files', holds name (NDir 448 files') w' ∧ grows (ad_Name d) (NFile 256 payload) files files') anything w.
Proof.
  intros Hw. unfold write_attachment. set (k := ad_Name d). apply wp_bind, wp_fs_change. intros r1 H1.
  apply (file_change _ _ _ _ _ _ Hw) in H1 as (c1 & Hf1 & Hr1). unfold fs_create in Hf1. destruct (entry_get k files) eqn:Hnone; [done|].
  injection Hf1 as <-. apply wp_bind, wp_fs_append. intros r2 H2.
  apply (file_change name k (fs_write payload) _ (set_root r1 (next_tick w)) r2 Hr1) in H2 as (c2 & Hf2 & Hr2). rewrite entry_get_set in Hf2.
  injection Hf2 as <-. change ("" +:+ payload) with payload in Hr2.
  set (files2 := entry_set k (NFile 256 payload) (entry_set k (NFile 256 "") files)) in *.
  assert (grows k (NFile 256 payload) files files2) as Hg2.
  { split_and!; [done|by unfold files2; rewrite entry_get_set|]. intros k' Hk. unfold files2. by rewrite !entry_get_set_ne. }
  apply wp_bind. apply (wp_mono _ (λ _ w', ∃ files', holds name (NDir 448 files') w' ∧ grows k (NFile 256 payload) files files') _ anything).
  - destruct windows; [by exists files2|]. apply wp_fs_change. intros r3 H3.
    apply (file_change name k (fs_chmod 256) _ (set_root r2 (next_tick (set_root r1 (next_tick w)))) r3 Hr2) in H3 as (c3 & Hf3 & Hr3).
    destruct Hg2 as (Hg1 & Hg2 & Hg3). rewrite Hg2 in Hf3. injection Hf3 as <-.
    exists (entry_set k (NFile 256 payload) files2). split; [exact Hr3|]. split_and!; [done|by rewrite entry_get_set|].
    intros k' Hk. rewrite entry_get_set_ne by done. by apply Hg3.
  - intros [] w3 H3. do 2 apply wp_bind, wp_fs_check. apply wp_fs_check. exact H3.
  - done.
Qed.

(** All of them: each attachment is there with verified bytes, and no other. *)
Definition has_attachments (done : list ArtifactDescriptor) (files : list (string * node)) : Prop :=
  (∀ d, d ∈ done → ∃ payload, entry_get (ad_Name d) files = Some (NFile 256 payload) ∧ matches_descriptor d payload) ∧
  (∀ k, entry_get k files ≠ None → k ∈ ad_Name <$> done).
Definition attachment_path (root : string) (d : ArtifactDescriptor) : string := path_Join [root; "attachments"; ad_Name d].
Lemma has_one_more done d files files' payload : has_attachments done files → grows (ad_Name d) (NFile 256 payload) files files' →
  matches_descriptor d payload → has_attachments (done ++ [d]) files'.
Proof.
  intros [H1 H2] (G1 & G2 & G3) Hd. split.
  - intros d' [Hin|Hin]%elem_of_app; [|apply list_elem_of_singleton in Hin as ->; by exists payload]. destruct (H1 d' Hin) as (p & Hp & ?).
    exists p. rewrite G3; [done|]. intros Heq. rewrite Heq, G1 in Hp. done.
  - intros k Hk. rewrite fmap_app. apply elem_of_app. destruct (decide (k = ad_Name d)) as [->|Hne]; [right; by left|].
    left. apply H2. by rewrite <- G3.
Qed.
Lemma wp_materialize_files name root seen ds done files w : holds name (NDir 448 files) w → has_attachments done files →
  wp (materialize_files windows name root seen ds)
    (λ paths w', paths = attachment_path root <$> ds ∧
       ∃ files', holds name (NDir 448 files') w' ∧ has_attachments (done ++ ds) files') anything w.
Proof.
  revert seen done files w. induction ds as [|d ds IH]; intros seen done files w Hw Hf.
  { apply wp_ret. split; [done|]. exists files. by rewrite app_nil_r. }
  cbn [materialize_files]. apply wp_bind, wp_reject_if; [|done]. intros _. apply wp_bind.
  apply (wp_mono _ (λ _ w', holds name (NDir 448 files) w') _ anything); [unfold wp, fetch; by destruct (dk_fetch _ _ _)| |done].
  intros content w1 H1. apply wp_bind, wp_lift; [|done]. intros payload (x & _ & _ & _ & _ & Hm)%verifyContent_spec.
  apply wp_bind. eapply wp_mono; [by apply wp_write_attachment| |done]. intros [] w2 (files2 & H2 & Hg).
  apply wp_bind. eapply wp_mono; [eapply (IH _ (done ++ [d])); [exact H2|by eapply has_one_more]| |done].
  intros paths w3 (-> & files3 & H3 & Hf3). apply wp_ret. split; [done|]. exists files3. by rewrite <- app_assoc in Hf3.
Qed.

(** A complete sandbox. *)
Definition complete (name : string) (ds : list ArtifactDescriptor) (s : sandbox) (w : disk) : Prop :=
  ∃ files, holds name (NDir (if windows then 448 else 320) files) w ∧ has_attachments ds files ∧
    sx_name s = name ∧ sx_Root s = path_Join [basePath; name] ∧ sx_ReturnDirectory s = path_Join [basePath; name; "return-files"] ∧
    sx_Attachments s = attachment_path (sx_Root s) <$> ds.
Lemma wp_fill_sandbox name ds w : node_at [name] (dk_root w) = Some (NDir 448 []) →
  wp (fill_sandbox basePath windows name ds) (λ s w', complete name ds s w') anything w.
Proof.
  intros Hw. unfold fill_sandbox. apply wp_bind, wp_fs_change. intros r1 H1.
  destruct (change_at_child _ _ _ _ _ _ H1 ltac:(done) Hw) as (c1 & [= <-] & Hr1).
  apply wp_bind, wp_fs_change. intros r2 H2. destruct (change_at_child _ _ _ _ _ _ H2 ltac:(done) Hr1) as (c2 & [= <-] & Hr2).
  apply wp_bind, wp_fs_check, wp_bind, wp_gets, wp_bind. eapply wp_mono; [apply (wp_materialize_files _ _ _ _ [] [])| |done].
  { exact Hr2. } { split; [intros d Hd; by apply elem_of_nil in Hd|done]. }
  intros paths w3 (-> & files & H3 & Hf). do 2 apply wp_bind, wp_fs_check. apply wp_bind.
  apply (wp_mono _ (λ _ w', holds name (NDir (if windows then 448 else 320) files) w') _ anything); [| |done].
  - destruct windows; [done|]. apply wp_bind, wp_fs_change. intros r4 H4.
    destruct (change_at_child _ _ _ _ _ _ H4 ltac:(done) H3) as (c4 & [= <-] & Hr4). apply wp_fs_check. exact Hr4.
  - intros [] w4 H4. apply wp_bind, wp_fs_check, wp_ret. by exists files.
Qed.

(** ** The whole of [Materialize] *)

(** What a failure leaves: nothing that was there is touched, and nothing new
    stays unless the file system failed. *)
Definition undone (w w' : disk) : Prop :=
  (∀ k, node_at [k] (dk_root w) ≠ None → node_at [k] (dk_root w') = node_at [k] (dk_root w)) ∧
  ((∀ t, dk_fault w t = Fine) → ∀ k, node_at [k] (dk_root w') = node_at [k] (dk_root w)).
Definition own_name (name : string) : Prop := ∃ bytes, name = requestDirectoryPrefix +:+ hex_encode bytes.

Lemma wp_createRequestDirectory n w :
  wp (createRequestDirectory n)
    (λ name w', own_name name ∧ node_at [name] (dk_root w) = None ∧ node_at [name] (dk_root w') = Some (NDir 448 []) ∧ touches name w w')
    (λ _ w', undone w w') w.
Proof.
  revert w. induction n as [|n IH]; intros w; [by split|]. cbn [createRequestDirectory]. apply wp_bind. unfold wp at 1, random_bytes.
  destruct (dk_random w (dk_ticks w)) as [bytes|]; [|by split]. set (name := requestDirectoryPrefix +:+ hex_encode bytes).
  apply wp_bind, wp_gets. case_match; [exact (IH (next_tick w))|]. apply wp_bind.
  unfold wp at 1, fs_change. destruct (change_at [name] fs_mkdir (dk_root (next_tick w))) as [r|] eqn:Hc.
  - destruct (change_at_get _ _ _ _ Hc) as (c & Hf & Hr); [done|].
    assert (node_at [name] (dk_root w) = None) as Hnone by (cbn [next_tick dk_root] in Hf; destruct (node_at [name] (dk_root w)); done).
    assert (∀ k, k ≠ name → node_at [k] r = node_at [k] (dk_root w)) as Hother by (intros k Hk; by apply (change_at_top _ _ _ _ _ _ Hc)).
    destruct (dk_fault (next_tick w) (dk_ticks (next_tick w))) eqn:Hfault; [|by split|].
    + split; [by exists bytes|]. split; [done|]. split; [|by split_and!]. change (fs_mkdir (node_at [name] (dk_root w)) = Some c) in Hf.
      rewrite Hnone in Hf. injection Hf as <-. exact Hr.
    + split; [intros k Hk; apply Hother; intros ->; congruence|]. intros Hfine. cbn in Hfault. by rewrite Hfine in Hfault.
  - destruct (dk_fault (next_tick w) (dk_ticks (next_tick w))); by split.
Qed.

Lemma fill_touches name ds : guar (touches name) (fill_sandbox basePath windows name ds).
Proof.
  assert (∀ seen root, guar (touches name) (materialize_files windows name root seen ds)) as Hfiles.
  { induction ds as [|d l IH]; intros seen root; cbn [materialize_files]; [apply guar_ret, _|].
    unfold write_attachment. repeat (apply guar_bind; [apply _| |intros]); first [apply guar_reject_if|apply touches_fetch|apply guar_lift|
      apply touches_change|apply touches_append|apply touches_check|apply IH|apply guar_ret|idtac]; try apply _.
    destruct windows; [apply guar_ret|apply touches_change]; apply _. }
  unfold fill_sandbox. repeat (apply guar_bind; [apply _| |intros]); first [apply Hfiles|apply guar_gets|apply touches_change|apply touches_check|
    apply guar_ret|idtac]; try apply _.
  destruct windows; [apply guar_ret, _|]. apply guar_bind; [apply _|apply touches_change|intros; apply touches_check].
Qed.

Lemma cleanup_removes name bytes w : name = requestDirectoryPrefix +:+ hex_encode bytes →
  let s := mkOwned name (path_Join [basePath; name]) [] (path_Join [basePath; name; "return-files"]) (mkFileInfo KindOther 0 0 0) in
  let w' := (attempt (Cleanup basePath s) w).1 in
  touches name w w' ∧ ((∀ t, dk_fault w t = Fine) → node_at [name] (dk_root w') = None).
Proof.
  intros Hname s w'. unfold w', attempt, Cleanup. pose proof (own_sandbox bytes [] (mkFileInfo KindOther 0 0 0)) as Hown. cbn zeta in Hown.
  rewrite <- Hname in Hown. fold s in Hown. rewrite Hown. change ((lift (inr ()) ≫= λ _, remove_entry (sx_name s)) w) with (remove_entry name w).
  pose proof (touches_remove name w) as Ht. destruct (remove_entry name w) as [w2 r] eqn:Hr. split; [exact Ht|]. intros Hfine. cbn.
  unfold remove_entry in Hr. destruct (dk_root w) as [| |m es] eqn:Hroot; [injection Hr as <- _; by rewrite Hroot..|].
  destruct (entry_get name es) as [n|] eqn:Hg; [|injection Hr as <- _; cbn; rewrite Hroot; cbn; by rewrite Hg].
  pose proof (removeAll_fine w n (dk_ticks w) Hfine) as Hdone. pose proof (removeAll_done w n (dk_ticks w) Hdone) as Hrest.
  destruct (removeAll w n (dk_ticks w)) as [[done rest] t]. cbn in Hrest. subst rest. injection Hr as <- _. cbn. by rewrite entry_get_del.
Qed.

Lemma attempt_throw {A B} (m : AM A) (e : artifact_error) w : (attempt m ≫= λ _, (throw e : AM B)) w = ((attempt m w).1, inl e).
Proof. unfold attempt, mbind, M_bind. by destruct (m w). Qed.

(** C39. A sandbox is all or nothing.  When [Materialize] succeeds, the sandbox
    is a directory that did not exist before and holds exactly the approved
    attachments, each with bytes of the descriptor's size and SHA-256, beside
    an empty return directory; every attachment has a portable file name, no
    two of which agree up to case.  When it fails, for whatever
    reason and at whatever point, nothing that existed is touched, and nothing
    new is left behind unless the file system itself failed. *)
Theorem materialize_correct ds fetcher w :
  match Materialize basePath windows ds fetcher w with
  | (w', inr s) => ∃ name, own_name name ∧ node_at [name] (dk_root w) = None ∧ complete name ds s w' ∧
      (∀ k, k ≠ name → node_at [k] (dk_root w') = node_at [k] (dk_root w)) ∧
      Forall descriptor_ok ds ∧ NoDup (to_lower ∘ ad_Name <$> ds) ∧ validateSandbox basePath s = inr ()
  | (w', inl _) => undone w w'
  end.
Proof.
  enough (wp (Materialize basePath windows ds fetcher) (λ s w', ∃ name, own_name name ∧ node_at [name] (dk_root w) = None ∧ complete name ds s w' ∧
    (∀ k, k ≠ name → node_at [k] (dk_root w') = node_at [k] (dk_root w)) ∧
    Forall descriptor_ok ds ∧ NoDup (to_lower ∘ ad_Name <$> ds) ∧ validateSandbox basePath s = inr ()) (λ _ w', undone w w') w) as Hwp.
  { unfold wp in Hwp. by destruct (Materialize _ _ _ _ w) as [w' [e|s]]. }
  assert (undone w w) as Hrefl by (by split).
  unfold Materialize. do 2 (apply wp_bind, wp_reject_if; [intros _|done]). apply wp_bind, wp_lift; [|done].
  intros [] (Hok & _ & Hnames & _)%validateDescriptors_spec. apply wp_bind. eapply wp_mono; [apply wp_createRequestDirectory| |done].
  intros name w1 ((bytes & Hname) & Hnew & Hmade & (Hf1 & _ & Hsame)). apply wp_bind, wp_attempt.
  pose proof (fill_touches name ds w1) as Ht. pose proof (wp_fill_sandbox name ds w1 Hmade) as Hfill. unfold wp in Hfill |- *.
  destruct (fill_sandbox basePath windows name ds w1) as [w2 [e|s]]; destruct Ht as (Hf2 & _ & Hsame2); cbn [fst] in Hf2, Hsame2.
  - destruct (cleanup_removes name bytes w2 Hname) as [(Hf3 & _ & Hsame3) Hgone]. rewrite attempt_throw. split.
    + intros k Hk. destruct (decide (k = name)) as [->|Hne]; [done|]. by rewrite Hsame3, Hsame2, Hsame.
    + intros Hfine k. destruct (decide (k = name)) as [->|Hne]; [|by rewrite Hsame3, Hsame2, Hsame].
      rewrite Hgone; [done|]. intros t. by rewrite Hf2, Hf1.
  - exists name. split_and!; [by exists bytes|done|exact Hfill|intros k Hk; by rewrite Hsame2, Hsame|done|done|].
    destruct Hfill as (_ & _ & _ & Hs1 & Hs2 & Hs3 & _). destruct s as [sn sr sa sd si]. cbn in *. subst. apply own_sandbox.
Qed.
End manager.
