(* ===== verification/Prog.v ===== *)
(** * Concurrent programs of the receiver

    The receiver runs several goroutines over shared stores.  A goroutine is a
    program, a tree of atomic operations: operations of the stores (each under
    its own mutex), the service's locks, and calls to the outside world (relay,
    runtime, random source), whose answers are arbitrary.  [exec] is the effect
    of one operation; it also keeps a log of what mattered, which no program
    can read: what was handed to the journal, what the journal's file was then
    seen to hold, and what was sent.  A pool ([Pool]) is the set of running
    goroutines; it takes steps in any order, accepts new calls, and can be
    restarted at any moment. *)

From S2P Require Import Prelude GoString Protocol Policy LocalStore ApprovalStore Binding ReceiverStores MutationStore.

Local Open Scope Z_scope.

(** ** Operations *)

Inductive lock := LRun | LReconcile | LDecision | LMutation | LConversation (id : string) | LSlot (k : nat).
#[export] Instance lock_eq_dec : EqDecision lock.
Proof. solve_decision. Defined.

Inductive relay_error := RelayNotFound | RelayOther.
Inductive run_failure := RunCancelled | RunFailed.
Record Sandbox := mkSandbox { sb_Attachments : list string; sb_ReturnDirectory : string }.

Inductive client_event :=
  | EventReady | EventPeerRequest (payload : option RequestNotice) | EventPeerCancelled (payload : option string) | EventOther.

(** Calls out of the process. *)
Inductive ext : Type → Type :=
  | XProbe : ext (option Capabilities)
  | XHeartbeat : ext (relay_error + option AgentCard)
  | XInbox : ext (relay_error + list RequestNotice)
  | XGetRequest (id : string) : ext (relay_error + option Request)
  | XDecide (id : string) (p : DecisionPayload) : ext (relay_error + option MutationResponse)
  | XInspectProposal (id : string) : ext (relay_error + option ProposalPayload)
  | XFetchExecution (id : string) : ext (relay_error + option ExecutionPayload)
  | XMarkRunning (id claim : string) : ext (relay_error + option MutationResponse)
  | XSubmitResult (id : string) (p : ResultPayload) : ext (relay_error + option MutationResponse)
  | XNewID (prefix : string) : ext (option string)      (** [newOpaqueID] *)
  | XMaterialize (l : list ArtifactDescriptor) : ext (option Sandbox)
  | XCollectResults (s : Sandbox) : ext (option (list AttachmentInput))
  | XCleanup (s : Sandbox) : ext ()
  | XRun (r : RunRequest) : ext (run_failure + RunResult)  (** [adapter.Run] *)
  | XDone : ext bool                                    (** whether the context is done *)
  | XNextEvent : ext (option client_event)              (** the next event of the stream, or its end *)
  | XTick : ext bool                                    (** the heartbeat's [select]: whether the context is done *)
  | XWait (delay : Z) : ext ()                          (** until the delay is over or the context is done *)
  | XErrorText : ext string.                            (** the text of an error *)

Inductive start_outcome := StartStopped | StartActive | StartSpawned.

Inductive op : Type → Type :=
  | OExt {B} (x : ext B) : op B
  | OPending {B} (m : PM B) : op (store_error + B)
  | OPendingGet (id : string) : op (option PendingRecord)
  | OSession {B} (m : SM B) : op (store_error + B)
  | OApprovals {B} (m : AP B) : op (approval_error + B)
  | OMatch (a : ApprovalAuthority) (c : ApprovalCandidate) : op (approval_error + option ApprovalGrant)
  | OJournalGet (id : string) : op (option mutationRecord)
  | OJournalList : op (list mutationRecord)
  | OPut (r : mutationRecord) : op (mutation_error + ())
  | OUpdate (id : string) (f : mutationRecord → option mutationRecord) : op (mutation_error + mutationRecord)
  | ORemove (id : string) : op (mutation_error + ())
  | OReload : op (mutation_error + ())
  | OAuthority : op ApprovalAuthority
  | OSetAuthority (a : ApprovalAuthority) : op ()
  | OLock (l : lock) : op ()
  | OUnlock (l : lock) : op ()
  | OAcquireSlot : op nat
  | OActiveAny : op bool
  | OActive (id : string) : op bool
  | OStart (id : string) : op start_outcome
  | OFinish (id : string) : op ()
  | OCurrentRun : op bool             (** [currentRunContext() != nil] *)
  | ORunning : op bool
  | OSetRunning (b : bool) : op ().

Inductive prog (A : Type) : Type :=
  | Ret (a : A)
  | Do {B : Type} (o : op B) (k : B → prog A).
Arguments Ret {_}. Arguments Do {_ _}.

Fixpoint pbind {A B} (p : prog A) (f : A → prog B) : prog B :=
  match p with Ret a => f a | Do o k => Do o (λ b, pbind (k b) f) end.
#[export] Instance prog_ret : MRet prog := @Ret.
#[export] Instance prog_bind : MBind prog := λ A B f p, pbind p f.
Definition perform {B} (o : op B) : prog B := Do o Ret.

(** [defer mu.Unlock()] *)
Definition with_lock {A} (l : lock) (p : prog A) : prog A :=
  Do (OLock l) (λ _, p ≫= λ a, Do (OUnlock l) (λ _, Ret a)).

(** ** The log and the thread-local marks *)

(** What a goroutine was started for. *)
Inductive origin :=
  | CallAllowOnce (id : string) | CallApprove (id : string) (level : ApprovalLevel) | CallDeny (id : string)
  | CallInspect (id : string) | CallRevokeGrant (id : string) | CallGrants
  | CallRun | CallStop | CallEvent (e : client_event) | CallReconcile | CallHeartbeat
  | CallExecute (id : string)
  | LoopConnect (current : Z)                  (** the head of [Run]'s loop, with its backoff *)
  | LoopStream (current : Z) (ready : bool)    (** the event stream of one attempt *)
  | LoopRetry (current : Z) (ready : bool).    (** the rest of the attempt, after the stream *)

Abbreviation via := (option (ApprovalAuthority * ApprovalCandidate * ApprovalGrant)).

Inductive entry :=
  | EIssued (id : string)                                       (** a random identifier *)
  | EPut (who : origin) (v : via) (r : mutationRecord)          (** a decision was handed to the journal *)
  | EStart (claim : string)                                     (** the runtime boundary was crossed *)
  | EResult (claim : string) (p : ResultPayload)                (** a result was chosen *)
  | ERun (claim : option string) (a : option ApprovalAuthority) (r : RunRequest)  (** a runtime was called *)
  | EDecide (id : string) (p : DecisionPayload)
  | EMark (id claim : string)
  | ESubmit (id : string) (p : ResultPayload)
  | EJournaled (r : mutationRecord).                            (** the journal's file holds the record *)

(** Rights a goroutine can spend once. *)
Inductive token := TFresh (id : string) | TStart (claim : string) | TResult (claim : string).
#[export] Instance token_eq_dec : EqDecision token.
Proof. solve_decision. Defined.

Record ghost := mkGhost {
  g_origin : origin; g_tokens : list token; g_locks : list lock; g_via : via; g_authority : option ApprovalAuthority }.
Definition new_ghost (o : origin) : ghost := mkGhost o [] [] None None.
Definition set_tokens (l : list token) (g : ghost) : ghost := mkGhost (g_origin g) l (g_locks g) (g_via g) (g_authority g).
Definition set_locks (l : list lock) (g : ghost) : ghost := mkGhost (g_origin g) (g_tokens g) l (g_via g) (g_authority g).
Definition set_via (v : via) (g : ghost) : ghost := mkGhost (g_origin g) (g_tokens g) (g_locks g) v (g_authority g).
Definition set_seen (a : ApprovalAuthority) (g : ghost) : ghost := mkGhost (g_origin g) (g_tokens g) (g_locks g) (g_via g) (Some a).
Definition forget_seen (g : ghost) : ghost := mkGhost (g_origin g) (g_tokens g) (g_locks g) (g_via g) None.
(** What a goroutine knows of the authority is renewed under the decision lock. *)
Definition lock_ghost (l : lock) (g : ghost) : ghost :=
  let g := set_locks (l :: g_locks g) g in if decide (l = LDecision) then forget_seen g else g.
Definition spend (l : list token) (g : ghost) : ghost := set_tokens (list_difference (g_tokens g) l) g.
Definition gain (l : list token) (g : ghost) : ghost := set_tokens (l ++ g_tokens g) g.
Fixpoint boundary (l : list token) : option string :=
  match l with [] => None | TStart c :: _ => Some c | _ :: l' => boundary l' end.

(** ** The state *)

Record rstate := mkState {
  r_pending : pending_world; r_journal : journal_world; r_approvals : approval_world; r_sessions : session_world;
  r_authority : ApprovalAuthority; r_active : gset string; r_running : bool; r_locks : list lock;
  r_ticks : nat; r_log : list entry }.
Definition with_pending w s := mkState w (r_journal s) (r_approvals s) (r_sessions s) (r_authority s) (r_active s) (r_running s) (r_locks s) (r_ticks s) (r_log s).
Definition with_journal w s := mkState (r_pending s) w (r_approvals s) (r_sessions s) (r_authority s) (r_active s) (r_running s) (r_locks s) (r_ticks s) (r_log s).
Definition with_approvals w s := mkState (r_pending s) (r_journal s) w (r_sessions s) (r_authority s) (r_active s) (r_running s) (r_locks s) (r_ticks s) (r_log s).
Definition with_sessions w s := mkState (r_pending s) (r_journal s) (r_approvals s) w (r_authority s) (r_active s) (r_running s) (r_locks s) (r_ticks s) (r_log s).
Definition with_authority a s := mkState (r_pending s) (r_journal s) (r_approvals s) (r_sessions s) a (r_active s) (r_running s) (r_locks s) (r_ticks s) (r_log s).
Definition with_active x s := mkState (r_pending s) (r_journal s) (r_approvals s) (r_sessions s) (r_authority s) x (r_running s) (r_locks s) (r_ticks s) (r_log s).
Definition with_running b s := mkState (r_pending s) (r_journal s) (r_approvals s) (r_sessions s) (r_authority s) (r_active s) b (r_locks s) (r_ticks s) (r_log s).
Definition with_locks l s := mkState (r_pending s) (r_journal s) (r_approvals s) (r_sessions s) (r_authority s) (r_active s) (r_running s) l (r_ticks s) (r_log s).
Definition with_log l s := mkState (r_pending s) (r_journal s) (r_approvals s) (r_sessions s) (r_authority s) (r_active s) (r_running s) (r_locks s) (r_ticks s) l.
Definition tick s := mkState (r_pending s) (r_journal s) (r_approvals s) (r_sessions s) (r_authority s) (r_active s) (r_running s) (r_locks s) (S (r_ticks s)) (r_log s).
Definition add_log (l : list entry) s := with_log (l ++ r_log s) s.

(** ** One operation *)

Section exec.
Variable answer : nat → ∀ B, ext B → B.   (** the outside world *)
Variable slots : nat.                     (** [max_concurrent] *)

(** What a call out of the process records, and the rights it gives. *)
Definition ext_log {B} (x : ext B) : B → ghost → list entry :=
  match x in ext B return B → ghost → list entry with
  | XDecide id p => λ _ _, [EDecide id p]
  | XMarkRunning id c => λ _ _, [EMark id c]
  | XSubmitResult id p => λ _ _, [ESubmit id p]
  | XRun r => λ _ g, [ERun (boundary (g_tokens g)) (g_authority g) r]
  | XNewID _ => λ b _, match b with Some id => [EIssued id] | None => [] end
  | _ => λ _ _, []
  end.
Definition ext_ghost {B} (x : ext B) : B → ghost → ghost :=
  match x in ext B return B → ghost → ghost with
  | XRun _ => λ _ g, match boundary (g_tokens g) with Some c => spend [TStart c] g | None => g end
  | XNewID _ => λ b g, match b with Some id => gain [TFresh id] g | None => g end
  | _ => λ _ g, g
  end.

(** The identifiers a journaled decision uses up. *)
Definition put_tokens (r : mutationRecord) : list token :=
  TFresh (mt_DecisionID r) ::
  (if bool_decide (mt_ExecutionClaimID r = "") then [] else [TFresh (mt_ExecutionClaimID r)]).

(** The result an update tries to add, and the claim it starts when it succeeds. *)
Definition update_chooses (m : journal) (id : string) (f : mutationRecord → option mutationRecord) : option (string * ResultPayload) :=
  current ← m !! id; next ← f current;
  match mt_Result current, mt_Result next with
  | None, Some p => Some (mt_ExecutionClaimID next, p)
  | _, _ => None
  end.
Definition update_starts (m : journal) (id : string) (r : mutation_error + mutationRecord) : option string :=
  match m !! id, r with
  | Some current, inr next =>
    if bool_decide (mt_Phase current = mutationClaimPrepared) && bool_decide (mt_Phase next = mutationRuntimeStarted)
    then Some (mt_ExecutionClaimID next) else None
  | _, _ => None
  end.

(** What a journal operation that succeeded left in the file: the entry is
    made when the operation answers that its write succeeded, or that it read
    the file back, and never when it failed. *)
Definition file_records (w : journal_world) : journal :=
  match l_file w with FileDoc s => ms_Records s | _ => ∅ end.
Definition journaled_log {A} (r : mutation_error + A) (id : string) (w : journal_world) : list entry :=
  match r with
  | inr _ => match file_records w !! id with Some x => [EJournaled x] | None => [] end
  | inl _ => []
  end.
Definition reloaded_log (r : mutation_error + ()) (w : journal_world) : list entry :=
  match r with inr _ => EJournaled <$> (map_to_list (file_records w)).*2 | inl _ => [] end.

Definition update_ghost (m : journal) (id : string) (f : mutationRecord → option mutationRecord)
    (r : mutation_error + mutationRecord) (g : ghost) : ghost :=
  let g := match update_chooses m id f with Some (c, _) => spend [TResult c] g | None => g end in
  match update_starts m id r with Some c => gain [TStart c; TResult c] g | None => g end.
Definition update_log (m : journal) (id : string) (f : mutationRecord → option mutationRecord)
    (r : mutation_error + mutationRecord) (w : journal_world) : list entry :=
  (match update_starts m id r with Some c => [EStart c] | None => [] end) ++
  journaled_log r id w ++
  (match update_chooses m id f with Some (c, p) => [EResult c p] | None => [] end).

Definition free_slot (held : list lock) : option nat := list_find (λ k, LSlot k ∉ held) (seq 0 slots) ≫= λ p, Some p.2.
(** What is done under the run lock by one access waits for it. *)
Definition enabled {B} (o : op B) (s : rstate) : bool :=
  match o with
  | OLock l => bool_decide (l ∉ r_locks s)
  | OAcquireSlot => bool_decide (is_Some (free_slot (r_locks s)))
  | OActiveAny | OActive _ | OStart _ | OFinish _ | OCurrentRun => bool_decide (LRun ∉ r_locks s)
  | _ => true
  end.

Definition outcome (B : Type) : Type := B * ghost * rstate * option string.

Definition exec {B} (o : op B) (g : ghost) (s : rstate) : outcome B :=
  match o in op B return outcome B with
  | @OExt B x =>
    let b := answer (r_ticks s) B x in
    (b, ext_ghost x b g, add_log (ext_log x b g) (tick s), None)
  | OPending m => let (w, r) := m (r_pending s) in (r, g, with_pending w s, None)
  | OPendingGet id => (l_mem (r_pending s) !! id, g, s, None)
  | OSession m => let (w, r) := m (r_sessions s) in (r, g, with_sessions w s, None)
  | OApprovals m => let (w, r) := m (r_approvals s) in (r, g, with_approvals w s, None)
  | OMatch a c =>
    let (w, r) := Match a c (r_approvals s) in
    (r, match r with inr (Some grant) => set_via (Some (a, c, grant)) g | _ => g end, with_approvals w s, None)
  | OJournalGet id => (l_mem (r_journal s) !! id, g, s, None)
  | OJournalList => ((match (mutation_List (r_journal s)).2 with inr l => l | inl _ => [] end), g, s, None)
  | OPut r =>
    let (w, res) := mutation_Put r (r_journal s) in
    if validateMutationRecord r
    then (res, spend (put_tokens r) g, add_log (journaled_log res (mt_RequestID r) w ++ [EPut (g_origin g) (g_via g) r]) (with_journal w s), None)
    else (res, g, with_journal w s, None)
  | OUpdate id f =>
    let m := l_mem (r_journal s) in
    let (w, res) := mutation_Update id f (r_journal s) in
    (res, update_ghost m id f res g, add_log (update_log m id f res w) (with_journal w s), None)
  | ORemove id => let (w, r) := mutation_Remove id (r_journal s) in (r, g, with_journal w s, None)
  | OReload => let (w, r) := mutation_Reload (r_journal s) in (r, g, add_log (reloaded_log r w) (with_journal w s), None)
  | OAuthority => (r_authority s, set_seen (r_authority s) g, s, None)
  | OSetAuthority a => (tt, set_seen a g, with_authority a s, None)
  | OLock l => (tt, lock_ghost l g, with_locks (l :: r_locks s) s, None)
  | OUnlock l => (tt, set_locks (list_difference (g_locks g) [l]) g, with_locks (list_difference (r_locks s) [l]) s, None)
  | OAcquireSlot =>
    let k := default 0%nat (free_slot (r_locks s)) in
    (k, set_locks (LSlot k :: g_locks g) g, with_locks (LSlot k :: r_locks s) s, None)
  | OActiveAny => (negb (bool_decide (r_active s = ∅)), g, s, None)
  | OActive id => (bool_decide (id ∈ r_active s), g, s, None)
  | OStart id =>
    if negb (r_running s) then (StartStopped, g, s, None)
    else if bool_decide (id ∈ r_active s) then (StartActive, g, s, None)
    else (StartSpawned, g, with_active ({[id]} ∪ r_active s) s, Some id)
  | OFinish id => (tt, g, with_active (r_active s ∖ {[id]}) s, None)
  | OCurrentRun => (r_running s, g, s, None)
  | ORunning => (r_running s, g, s, None)
  | OSetRunning b => (tt, g, with_running b s, None)
  end.
End exec.
