(* ===== verification/Service.v ===== *)
(** * The receiver service ([internal/receiver/service.go], [controller.go])

    Every method of the service as a program over the stores, the locks and
    the outside world; the loops of [Run] and of the heartbeat run in rounds.
    Logging has no effect here; cancelling an execution only cancels its
    context, whose effect is that calls out may fail, which they always may. *)

From S2P Require Import Prelude GoString Sha256 Protocol Json Redact Policy LocalStore ApprovalStore Binding ReceiverStores MutationStore Prog.

Local Open Scope Z_scope.

#[export] Instance binding_error_eq_dec : EqDecision binding_error.
Proof. solve_decision. Defined.
#[export] Instance candidate_error_eq_dec : EqDecision candidate_error.
Proof. solve_decision. Defined.
#[export] Instance notice_error_eq_dec : EqDecision notice_error.
Proof. solve_decision. Defined.
#[export] Instance payload_error_eq_dec : EqDecision payload_error.
Proof. solve_decision. Defined.
#[export] Instance relay_error_eq_dec : EqDecision relay_error.
Proof. solve_decision. Defined.
#[export] Instance run_failure_eq_dec : EqDecision run_failure.
Proof. solve_decision. Defined.
#[export] Instance store_error_eq_dec : EqDecision store_error.
Proof. solve_decision. Defined.
#[export] Instance mutation_error_eq_dec : EqDecision mutation_error.
Proof. solve_decision. Defined.
#[export] Instance run_request_error_eq_dec : EqDecision run_request_error.
Proof. solve_decision. Defined.

Inductive svc_error :=
  | ErrRequestIDRequired | ErrNotPending | ErrStatus (st : RequestStatus) | ErrLevelInvalid
  | ErrAttachmentsUnsupported | ErrAttachmentCount | ErrAttachmentMetadata | ErrAttachmentBytes
  | ErrWorkspaceUnknown | ErrWorkspaceRepeated | ErrReadOnlyUnenforceable | ErrAccessInvalid
  | ErrBinding (e : binding_error) | ErrNoticeReplaced | ErrNotCovered | ErrCandidate (e : candidate_error)
  | ErrAuthorityUnavailable | ErrAuthorityUnbound | ErrAuthorityChanged
  | ErrNoticeUnbound | ErrNoticeMissing | ErrNotice (e : notice_error)
  | errReceiverBusy | ErrNoBoundApproval | ErrDifferentOperation | ErrRandom
  | ErrRelay (e : relay_error) | ErrRelayMismatch | ErrRelayEmpty | ErrProposalMismatch | ErrPayload (e : payload_error)
  | ErrNoClaim | ErrPhase (p : mutationPhase) | ErrStopped | ErrGrantChanged | ErrGrantNotFound
  | ErrResultBoundary | ErrIdentityChanged | ErrDecode | ErrProbe | ErrRuntimeUnavailable | ErrAlreadyRunning
  | ErrPending (e : store_error) | ErrSession (e : store_error) | ErrJournal (e : mutation_error) | ErrApprovals (e : approval_error)
  | ErrRunRequest (e : run_request_error) | ErrRun (e : run_failure) | ErrCancelled | ErrSessionRuntime
  | ErrMaterialize | ErrArtifactSupport | ErrCollect.
#[export] Instance svc_error_eq_dec : EqDecision svc_error.
Proof. solve_decision. Defined.

Abbreviation SP A := (prog (svc_error + A)).
(** [v, err := f(); if err != nil { return err }] *)
Definition ebind {E A B} (p : prog (E + A)) (f : A → prog (E + B)) : prog (E + B) :=
  p ≫= λ r, match r with inl e => Ret (inl e) | inr a => f a end.
Notation "x ←? p ; k" := (ebind p (λ x, k)) (at level 20, p at level 100, k at level 200, only parsing).
Notation "p ;? k" := (ebind p (λ _, k)) (at level 20, k at level 200, only parsing).
Definition ok {A} (a : A) : SP A := Ret (inr a).
Definition fail {A} (e : svc_error) : SP A := Ret (inl e).
Definition guard (b : bool) (e : svc_error) : SP () := Ret (if b then inl e else inr tt).
Definition pure {E A} (wrap : E → svc_error) (r : E + A) : SP A := Ret (match r with inl e => inl (wrap e) | inr a => inr a end).
Definition call {E A} (wrap : E → svc_error) (o : op (E + A)) : SP A :=
  perform o ≫= pure wrap.
Definition relay {A} (x : ext (relay_error + A)) : SP A := call ErrRelay (OExt x).

Record Config := mkConfig {
  cf_artifacts : bool;                     (** an artifact manager is present *)
  cf_workspaces : gmap string string; cf_policy : Policy; cf_fingerprint : string; cf_runtime : string;
  cf_slots : nat }.

(** [Controller.ResumesConversation], [Service.hasActiveExecution], ... *)
Definition ResumesConversation (conversationID : string) : SP bool :=
  s ←? call ErrSession (OSession (session_Get conversationID)); ok (bool_decide (is_Some s)).
Definition hasActiveExecution : prog bool := perform OActiveAny.
Definition hasActiveRequest (id : string) : prog bool := perform (OActive id).
Definition pending_remove (id : string) : SP () := call ErrPending (OPending (pending_Remove id)).
Definition pending_update (id : string) (st : RequestStatus) : SP () := call ErrPending (OPending (pending_UpdateStatus id st)).
Definition journal_get (id : string) : prog (option mutationRecord) := perform (OJournalGet id).
Definition journal_remove (id : string) : SP () := call ErrJournal (ORemove id).
(** [if err := s.pending.Remove(id); err != nil { return err }; return s.mutations.Remove(id)] *)
Definition forget (id : string) : SP () := pending_remove id ;? journal_remove id.

(** [newOpaqueID] *)
Definition newOpaqueID (prefix : string) : SP string :=
  perform (OExt (XNewID prefix)) ≫= λ r, match r with Some id => ok id | None => fail ErrRandom end.
Definition newExecutionClaimID : SP string := newOpaqueID "claim_".

Definition mutationStatus (r : option MutationResponse) (requestID : string) : svc_error + RequestStatus :=
  match r with
  | Some m => if bool_decide (mr_RequestID m = requestID) && negb (bool_decide (mr_Status m = StatusOther ""))
              then inr (mr_Status m) else inl ErrRelayMismatch
  | None => inl ErrRelayMismatch
  end.

(** The results are compared as JSON texts. *)
Definition samePreparedResult (l r : ResultPayload) : bool :=
  bool_decide (json_text (json_result l) = json_text (json_result r)).

(** ** Authority *)

Definition currentApprovalAuthority : SP ApprovalAuthority :=
  a ← perform OAuthority;
  if bool_decide (trim_space (au_Fingerprint a) = "") || bool_decide (trim_space (au_RecipientAgentID a) = "")
  then fail ErrAuthorityUnavailable else ok a.

Definition approvalAuthorityFromMutation (r : mutationRecord) : svc_error + ApprovalAuthority :=
  if bool_decide (trim_space (mt_ApprovalAuthorityFingerprint r) = "") ||
     bool_decide (trim_space (mt_ApprovalRecipientAgentID r) = "") then inl ErrAuthorityUnbound else
  match normalizeApprovalAuthority (mutation_authority r) with inl _ => inl ErrAuthorityUnbound | inr a => inr a end.

Definition requireCurrentApprovalAuthority (r : mutationRecord) : SP () :=
  recorded ←? Ret (approvalAuthorityFromMutation r);
  current ←? currentApprovalAuthority;
  guard (negb (bool_decide (recorded = current))) ErrAuthorityChanged.

Definition prune_call (a : ApprovalAuthority) : SP Z := call ErrApprovals (OApprovals (Prune a)).

Section service.
Context `{UT : UnicodeTables} (cf : Config).

Definition activateApprovalAuthority (card : option AgentCard) : SP () :=
  match card with
  | None => fail ErrAuthorityUnavailable
  | Some c =>
    if bool_decide (trim_space (card_AgentID c) = "") then fail ErrAuthorityUnavailable else
    with_lock LDecision (
      let authority := mkAuthority (cf_fingerprint cf) (trim_space (card_AgentID c)) in
      current ← perform OAuthority;
      if negb (bool_decide (au_RecipientAgentID current = "")) && negb (bool_decide (current = authority)) then
        perform (OSetAuthority (mkAuthority "" "")) ≫= λ _,
        prune_call authority ≫= λ _, fail ErrIdentityChanged
      else
      removed ←? prune_call authority;
      perform (OSetAuthority authority) ≫= λ _, ok ())
  end.

(** ** Notices *)

Definition requireCurrentApprovedNotice (r : mutationRecord) : SP PendingRecord :=
  match mt_ApprovedNotice r with
  | None => fail ErrNoticeUnbound
  | Some b =>
    pure ErrBinding (validateApprovedNoticeBinding b (mt_RequestID r)) ;?
    record ← perform (OPendingGet (mt_RequestID r));
    match record with
    | None => fail ErrNoticeMissing
    | Some p => pure ErrNotice (validateNoticeAgainstApprovedBinding (pe_Notice p) b) ;? ok p
    end
  end.

(** The loop of [resolveRequestedWorkspaces]. *)
Fixpoint resolve_loop (seen : gset string) (l : list RequestedAccess) : svc_error + list Workspace :=
  match l with
  | [] => inr []
  | a :: l' =>
    let alias := trim_space (ra_WorkspaceAlias a) in
    match cf_workspaces cf !! alias with
    | None => inl ErrWorkspaceUnknown
    | Some root =>
      if bool_decide (alias ∈ seen) then inl ErrWorkspaceRepeated else
      let writes := po_AllowWrites (cf_policy cf) in
      if bool_decide (ra_Mode a = PermissionReadOnly) && writes then inl ErrReadOnlyUnenforceable else
      let writable := bool_decide (ra_Mode a = PermissionGuardedWrite) && writes in
      if negb writable && negb (bool_decide (ra_Mode a = PermissionReadOnly)) && negb (bool_decide (ra_Mode a = PermissionGuardedWrite))
      then inl ErrAccessInvalid else
      rest ← resolve_loop ({[alias]} ∪ seen) l';
      inr (mkWorkspace root (if writable then WorkspaceWritable else WorkspaceReadOnly) :: rest)
    end
  end.
Definition resolveRequestedWorkspaces (l : list RequestedAccess) : svc_error + list Workspace := resolve_loop ∅ l.

(** The attachments loop of [validateNotice]. *)
Fixpoint attachments_check (total : Z) (l : list ArtifactDescriptor) : svc_error + Z :=
  match l with
  | [] => inr total
  | d :: l' =>
    if bool_decide (trim_space (ad_ArtifactID d) = "") || bool_decide (trim_space (ad_Name d) = "") ||
       (ad_SizeBytes d <? 0) || (MaxAttachmentBytes <? ad_SizeBytes d)
    then inl ErrAttachmentMetadata else attachments_check (wrap64 (total + ad_SizeBytes d)) l'
  end.
Definition validateNotice (n : RequestNotice) : svc_error + () :=
  let count := Z.of_nat (length (nt_Attachments n)) in
  if (0 <? count) && negb (cf_artifacts cf) then inl ErrAttachmentsUnsupported else
  if MaxAttachments <? count then inl ErrAttachmentCount else
  total ← attachments_check 0 (nt_Attachments n);
  if MaxRequestPayloadBytes <? total then inl ErrAttachmentBytes else
  _ ← resolveRequestedWorkspaces (nt_RequestedAccess n);
  inr ().

(** ** Journaling a decision *)

(** The comparison of [prepareDecision] with an operation already journaled. *)
Definition same_operation (existing : mutationRecord) (n : RequestNotice) (decision : Decision_) (level : ApprovalLevel)
    (grantID : string) : bool :=
  let existingLevel := if bool_decide (mt_ApprovalLevel existing = no_level) && bool_decide (mt_Decision existing = DecisionAllowOnce)
                       then ApprovalLevelAskAlways else mt_ApprovalLevel existing in
  bool_decide (mt_ConversationID existing = nt_ConversationID n) && bool_decide (mt_Decision existing = decision) &&
  negb (bool_decide (mt_DecisionID existing = "")) && bool_decide (existingLevel = level) &&
  bool_decide (mt_ApprovalGrantID existing = grantID).

(** What an allow is bound to: the authority and the notice. *)
Definition allow_binding (n : RequestNotice) (decision : Decision_) : SP (option (ApprovalAuthority * approvedNoticeBinding)) :=
  if bool_decide (decision = DecisionAllowOnce) then
    a ←? currentApprovalAuthority;
    b ←? pure ErrBinding (approvedNoticeBindingFor n);
    ok (Some (a, b))
  else ok None.

Abbreviation bound := (option (ApprovalAuthority * approvedNoticeBinding)).
(** An operation already journaled is reused only if it is the same one. *)
Definition reuse_operation (e : mutationRecord) (n : RequestNotice) (decision : Decision_) (level : ApprovalLevel)
    (grantID : string) (bound : bound) : svc_error + mutationRecord :=
  if negb (same_operation e n decision level grantID) then inl ErrDifferentOperation else
  match bound with
  | Some (a, b) =>
    if negb (bool_decide (approvalAuthorityFromMutation e = inr a)) then inl ErrAuthorityChanged else
    match mt_ApprovedNotice e with
    | Some b' => if negb (sameApprovedNoticeBinding b' b) then inl ErrNoticeReplaced else inr e
    | None => inl ErrNoticeReplaced
    end
  | None => inr e
  end.
Definition new_operation (n : RequestNotice) (decision : Decision_) (level : ApprovalLevel) (grantID : string)
    (grantPersisted : bool) (bound : bound) (decisionID claim : string) : mutationRecord :=
  let record fingerprint agent notice :=
    mkMutation (nt_RequestID n) (nt_ConversationID n) decisionID decision level grantID grantPersisted
      fingerprint agent notice claim mutationDecisionPrepared None zero_time in
  match bound with
  | Some (a, b) => record (au_Fingerprint a) (au_RecipientAgentID a) (Some b)
  | None => record "" "" None
  end.
Definition journal_decision (n : RequestNotice) (decision : Decision_) (level : ApprovalLevel) (grantID : string)
    (grantPersisted : bool) (bound : bound) : SP mutationRecord :=
  decisionID ←? newOpaqueID "decision_";
  claim ←? (match bound with Some _ => newExecutionClaimID | None => ok "" end);
  let operation := new_operation n decision level grantID grantPersisted bound decisionID claim in
  call ErrJournal (OPut operation) ;?
  ok operation.
Definition prepareDecision (n : RequestNotice) (decision : Decision_) (level : ApprovalLevel) (grantID : string)
    (grantPersisted : bool) : SP mutationRecord :=
  with_lock LMutation (
    bound ←? allow_binding n decision;
    existing ← journal_get (nt_RequestID n);
    match existing with
    | Some e => Ret (reuse_operation e n decision level grantID bound)
    | None => journal_decision n decision level grantID grantPersisted bound
    end : SP mutationRecord).

(** ** Results *)

Definition replayPreparedResult (r : mutationRecord) : SP () :=
  match mt_Result r with
  | Some p =>
    guard (negb (bool_decide (mt_Phase r = mutationResultPrepared)) || negb (bool_decide (rp_ExecutionClaimID p = mt_ExecutionClaimID r)))
      ErrResultBoundary ;?
    m ←? relay (XSubmitResult (mt_RequestID r) p);
    guard (negb (bool_decide (mutationStatus m (mt_RequestID r) = inr (rp_State p)))) ErrRelayMismatch ;?
    forget (mt_RequestID r)
  | None => fail ErrResultBoundary
  end.

Definition result_update (p : ResultPayload) (current : mutationRecord) : option mutationRecord :=
  if negb (bool_decide (mt_ExecutionClaimID current = rp_ExecutionClaimID p)) then None else
  match mt_Phase current with
  | mutationRuntimeStarted => Some (mt_set_result p current)
  | mutationResultPrepared =>
    match mt_Result current with Some q => if samePreparedResult q p then Some current else None | None => None end
  | _ => None
  end.
Definition prepareAndSubmitResult (r : mutationRecord) (p : ResultPayload) : SP () :=
  guard (negb (bool_decide (mt_Phase r = mutationRuntimeStarted)) || negb (bool_decide (mt_ExecutionClaimID r = rp_ExecutionClaimID p)))
    ErrResultBoundary ;?
  next ←? call ErrJournal (OUpdate (mt_RequestID r) (result_update p));
  replayPreparedResult next.

Definition submitFailure (requestID claim : string) : prog () :=
  text ← perform (OExt XErrorText);
  let diagnostic := SafeSummary text in
  r ← journal_get requestID;
  match r with
  | Some operation =>
    if bool_decide (mt_ExecutionClaimID operation = claim)
    then prepareAndSubmitResult operation (mkResultPayload claim StatusFailed "" diagnostic []) ≫= λ _, Ret ()
    else Ret ()
  | None => Ret ()
  end.

(** ** The controller *)

Definition release_conversation (id : string) : prog () := perform (OUnlock (LConversation id)).

(** [Controller.Execute] after its locks. *)
Definition controller_run (request : RunRequest) : SP RunResult :=
  stored ←? call ErrSession (OSession (session_Get (rr_ConversationID request)));
  let request := mkRunRequest (rr_RequestID request) (rr_ConversationID request) (rr_Title request) (rr_Requester request)
    (rr_Prompt request) (rr_Attachments request) (rr_Workspaces request) (rr_ReturnDirectory request)
    (rr_RequestedPolicy request) stored in
  result ←? call ErrRun (OExt (XRun request));
  match rs_Session result with
  | None =>
    match stored with
    | Some _ => call ErrSession (OSession (session_Delete (rr_ConversationID request))) ;? ok result
    | None => ok result
    end
  | Some s =>
    guard (negb (bool_decide (ss_RuntimeID s = cf_runtime cf))) ErrSessionRuntime ;?
    call ErrSession (OSession (session_Put (rr_ConversationID request) s)) ;?
    ok result
  end.
(** [Controller.Execute]: the conversation's gate, then one of the slots. *)
Definition controller_Execute (request : RunRequest) : SP RunResult :=
  pure ErrRunRequest (ValidateRunRequest request) ;?
  let id := rr_ConversationID request in
  done ← perform (OExt XDone);
  if done : bool then fail ErrCancelled else
  perform (OLock (LConversation id)) ≫= λ _,
  done ← perform (OExt XDone);
  if done : bool then release_conversation id ≫= λ _, fail ErrCancelled else
  done ← perform (OExt XDone);
  if done : bool then release_conversation id ≫= λ _, fail ErrCancelled else
  slot ← perform OAcquireSlot;
  result ← controller_run request;
  perform (OUnlock (LSlot slot)) ≫= λ _,
  release_conversation id ≫= λ _,
  Ret result.

(** ** Execution *)

(** [startExecution], whose goroutine the pool starts. *)
Definition startExecution (requestID : string) (st : RequestStatus) : SP () :=
  guard (negb (bool_decide (st = StatusAccepted)) && negb (bool_decide (st = StatusRunning))) (ErrStatus st) ;?
  r ← journal_get requestID;
  match r with
  | None => fail ErrNoClaim
  | Some operation =>
    if bool_decide (mt_Phase operation = mutationRuntimeStarted) then
      hasActiveRequest requestID ≫= λ _, ok ()
    else
    guard (negb (bool_decide (mt_Phase operation = mutationClaimPrepared)) &&
           negb (bool_decide (mt_Phase operation = mutationResultPrepared))) (ErrPhase (mt_Phase operation)) ;?
    guard (bool_decide (st = StatusAccepted) && negb (bool_decide (mt_Phase operation = mutationClaimPrepared)))
      (ErrPhase (mt_Phase operation)) ;?
    (if bool_decide (mt_Phase operation = mutationClaimPrepared) then
       requireCurrentApprovalAuthority operation ;?
       requireCurrentApprovedNotice operation ;? ok ()
     else ok ()) ;?
    started ← perform (OStart requestID);
    match started with StartStopped => fail ErrStopped | _ => ok () end
  end.

(** The boundary update of [execute]. *)
Definition start_update (claim : string) (current : mutationRecord) : option mutationRecord :=
  if negb (bool_decide (mt_ExecutionClaimID current = claim)) || negb (bool_decide (mt_Phase current = mutationClaimPrepared))
  then None else Some (mt_set_phase mutationRuntimeStarted current).

Definition run_request (p : ExecutionPayload) (workspaces : list Workspace) (sandbox : option Sandbox) : RunRequest :=
  mkRunRequest (ep_RequestID p) (ep_ConversationID p) (ep_Title p) (ep_RequesterDisplayName p) (ep_Prompt p)
    (match sandbox with Some s => sb_Attachments s | None => [] end) workspaces
    (match sandbox with Some s => if po_AllowWrites (cf_policy cf) then sb_ReturnDirectory s else "" | None => "" end)
    None None.

(** From the resolved workspaces to the submitted result. *)
Definition execute_runtime (requestID claim : string) (operation : mutationRecord) (p : ExecutionPayload)
    (sandbox : option Sandbox) : prog () :=
  match resolveRequestedWorkspaces (ep_RequestedAccess p) with
  | inl _ => submitFailure requestID claim
  | inr workspaces =>
    let request := run_request p workspaces sandbox in
    result ← controller_Execute request;
    match result with
    | inl ErrCancelled | inl (ErrRun RunCancelled) => Ret ()
    | inl _ => submitFailure requestID claim
    | inr result =>
      files ← (match sandbox with
        | Some s => if bool_decide (rr_ReturnDirectory request = "") then Ret (Some [])
                    else perform (OExt (XCollectResults s))
        | None => Ret (Some [])
        end);
      match files with
      | None => submitFailure requestID claim
      | Some files =>
        let answer := RedactSensitiveText (rs_FinalText result) in
        prepareAndSubmitResult operation (mkResultPayload claim StatusCompleted answer "" files) ≫= λ _, Ret ()
      end
    end
  end.

(** The artifact sandbox of the execution, and its deferred clean-up. *)
Definition execute_sandboxed (requestID claim : string) (operation : mutationRecord) (p : ExecutionPayload) : prog () :=
  if cf_artifacts cf then
    sandbox ← perform (OExt (XMaterialize (ep_Attachments p)));
    match sandbox with
    | None => submitFailure requestID claim
    | Some s =>
      execute_runtime requestID claim operation p (Some s) ≫= λ _,
      perform (OExt (XCleanup s))
    end
  else if negb (bool_decide (ep_Attachments p = [])) then submitFailure requestID claim
  else execute_runtime requestID claim operation p None.

(** [execute] from a prepared claim. *)
Definition execute_claim (requestID : string) (operation : mutationRecord) : SP () :=
  requireCurrentApprovalAuthority operation ;?
  requireCurrentApprovedNotice operation ;?
  let claim := mt_ExecutionClaimID operation in
  payload ←? relay (XFetchExecution requestID);
  match payload, mt_ApprovedNotice operation with
  | Some p, Some b =>
    pure ErrPayload (validateExecutionPayloadAgainstApprovedBinding b p) ;?
    m ←? relay (XMarkRunning requestID claim);
    guard (negb (bool_decide (mutationStatus m requestID = inr StatusRunning))) ErrRelayMismatch ;?
    started ←? call ErrJournal (OUpdate requestID (start_update claim));
    pending_update requestID StatusRunning ≫= λ _,
    execute_sandboxed requestID claim started p ≫= λ _, ok ()
  | _, _ => fail ErrRelayEmpty
  end.
Definition execute (requestID : string) : prog () :=
  r ← journal_get requestID;
  (match r with
   | None => Ret ()
   | Some operation =>
     if bool_decide (mt_Phase operation = mutationResultPrepared) then
       replayPreparedResult operation ≫= λ _, Ret ()
     else if negb (bool_decide (mt_Phase operation = mutationClaimPrepared)) || bool_decide (mt_ExecutionClaimID operation = "")
     then Ret ()
     else execute_claim requestID operation ≫= λ _, Ret ()
   end) ≫= λ _,
  perform (OFinish requestID).

(** ** Decisions *)

(** The update that makes a decided operation claimable. *)
Definition claim_update (operation current : mutationRecord) : option mutationRecord :=
  if negb (bool_decide (mt_DecisionID current = mt_DecisionID operation)) || negb (bool_decide (mt_Decision current = mt_Decision operation)) ||
     negb (bool_decide (mt_ExecutionClaimID current = mt_ExecutionClaimID operation)) then None
  else Some (if bool_decide (mt_Phase current = mutationDecisionPrepared) then mt_set_phase mutationClaimPrepared current else current).

Definition handle_accepted (requestID : string) (operation : mutationRecord) (st : RequestStatus) : SP () :=
  guard (negb (bool_decide (mt_Decision operation = DecisionAllowOnce)) || bool_decide (mt_ExecutionClaimID operation = "")) ErrNoClaim ;?
  requireCurrentApprovalAuthority operation ;?
  requireCurrentApprovedNotice operation ;?
  current ←? call ErrJournal (OUpdate requestID (claim_update operation));
  match mt_Phase current with
  | mutationClaimPrepared => pending_update requestID st ;? startExecution requestID st
  | mutationResultPrepared =>
    guard (negb (bool_decide (st = StatusRunning))) (ErrStatus st) ;?
    pending_update requestID st ;? startExecution requestID st
  | mutationRuntimeStarted => pending_update requestID st ;? (hasActiveRequest requestID ≫= λ _, ok ())
  | p => fail (ErrPhase p)
  end.
Definition handleDecisionMutation (requestID : string) (operation : mutationRecord) (st : RequestStatus) : SP () :=
  match st with
  | StatusAccepted | StatusRunning => handle_accepted requestID operation st
  | StatusCompleted | StatusFailed | StatusCancelled =>
    if bool_decide (mt_Phase operation = mutationResultPrepared) &&
       (match mt_Result operation with Some p => bool_decide (rp_State p = st) | None => false end)
    then replayPreparedResult operation else forget requestID
  | StatusExpired => forget requestID
  | _ => fail (ErrStatus st)
  end.

Definition decision_payload (r : mutationRecord) : DecisionPayload := mkDecisionPayload (mt_Decision r) (mt_DecisionID r).
(** Sends the journaled decision and acts on the relay's state. *)
Definition decide_and_handle (requestID : string) (operation : mutationRecord) : SP RequestStatus :=
  m ←? relay (XDecide requestID (decision_payload operation));
  st ←? Ret (mutationStatus m requestID);
  handleDecisionMutation requestID operation st ;? ok st.

Definition commitAllowOnce (requestID : string) (operation : mutationRecord) : SP RequestStatus :=
  requireCurrentApprovalAuthority operation ;?
  requireCurrentApprovedNotice operation ;?
  decide_and_handle requestID operation.

(** The update that confirms a saved or recovered grant. *)
Definition persisted_update (decisionID : string) (level : ApprovalLevel) (grantID : string) (current : mutationRecord)
    : option mutationRecord :=
  if negb (bool_decide (mt_DecisionID current = decisionID)) || negb (bool_decide (mt_ApprovalLevel current = level)) ||
     negb (bool_decide (mt_ApprovalGrantID current = grantID)) then None else Some (mt_set_persisted current).

Definition ensurePreparedStandingGrant (requestID : string) (operation : mutationRecord) : SP mutationRecord :=
  if negb (standing (mt_ApprovalLevel operation)) || mt_ApprovalGrantPersisted operation then ok operation else
  requireCurrentApprovalAuthority operation ;?
  record ←? requireCurrentApprovedNotice operation;
  candidate ←? pure ErrCandidate (approvalCandidateForNotice (pe_Notice record));
  authority ←? currentApprovalAuthority;
  guard (negb (bool_decide (stableApprovalGrantID authority (mt_ApprovalLevel operation) candidate = mt_ApprovalGrantID operation)))
    ErrAuthorityChanged ;?
  restored ← perform (OApprovals (RestorePrepared authority (mt_ApprovalLevel operation) candidate (mt_UpdatedAt operation)));
  match restored with
  | inl ErrApprovalGrantRevoked | inl ErrApprovalGrantWindowExpired => ok ()
  | inl e => fail (ErrApprovals e)
  | inr g => guard (negb (bool_decide (gr_GrantID g = mt_ApprovalGrantID operation))) ErrGrantChanged
  end ;?
  call ErrJournal (OUpdate requestID
    (persisted_update (mt_DecisionID operation) (mt_ApprovalLevel operation) (mt_ApprovalGrantID operation))).

(** ** Recovery *)

(** Runs [k] if the authority and the notice are still the approved ones; a
    refusal is logged and ends the recovery. *)
Definition if_still_bound (operation : mutationRecord) (refused k : SP ()) : SP () :=
  a ← requireCurrentApprovalAuthority operation;
  match a with
  | inl _ => refused
  | inr _ =>
    n ← requireCurrentApprovedNotice operation;
    match n with inl _ => refused | inr _ => k end
  end.
Definition redecide (requestID : string) (operation : mutationRecord) : SP () :=
  operation ←? ensurePreparedStandingGrant requestID operation;
  decide_and_handle requestID operation ;? ok ().

Definition recover_awaiting (requestID : string) (operation : mutationRecord) : SP () :=
  guard (negb (bool_decide (mt_Phase operation = mutationDecisionPrepared)) || bool_decide (mt_DecisionID operation = ""))
    (ErrPhase (mt_Phase operation)) ;?
  if bool_decide (mt_Decision operation = DecisionAllowOnce) then
    busy ← hasActiveExecution;
    mine ← (if busy : bool then hasActiveRequest requestID else Ret false);
    if busy && negb mine then ok () else
    if_still_bound operation (journal_remove requestID) (redecide requestID operation)
  else redecide requestID operation.

Definition recover_accepted (requestID : string) (operation : mutationRecord) : SP () :=
  match mt_Phase operation with
  | mutationDecisionPrepared => if_still_bound operation (ok ()) (redecide requestID operation)
  | mutationRuntimeStarted => hasActiveRequest requestID ≫= λ _, ok ()
  | mutationClaimPrepared => if_still_bound operation (ok ()) (startExecution requestID StatusAccepted)
  | p => fail (ErrPhase p)
  end.
Definition recover_running (requestID : string) (operation : mutationRecord) : SP () :=
  match mt_Phase operation with
  | mutationDecisionPrepared => if_still_bound operation (ok ()) (redecide requestID operation)
  | mutationClaimPrepared => if_still_bound operation (ok ()) (startExecution requestID StatusRunning)
  | mutationResultPrepared => startExecution requestID StatusRunning
  | mutationRuntimeStarted => hasActiveRequest requestID ≫= λ _, ok ()
  | p => fail (ErrPhase p)
  end.
Definition recover_terminal (requestID : string) (operation : option mutationRecord) (st : RequestStatus) : SP () :=
  match operation with
  | Some r =>
    if bool_decide (mt_Phase r = mutationResultPrepared) &&
       (match mt_Result r with Some p => bool_decide (rp_State p = st) | None => false end)
    then replayPreparedResult r else forget requestID
  | None => forget requestID
  end.

Definition recoverOperationLocked (requestID : string) (st : RequestStatus) : SP () :=
  operation ← journal_get requestID;
  match st with
  | StatusAwaitingApproval => match operation with None => ok () | Some r => recover_awaiting requestID r end
  | StatusAccepted => match operation with None => ok () | Some r => recover_accepted requestID r end
  | StatusRunning => match operation with None => ok () | Some r => recover_running requestID r end
  | StatusCompleted | StatusFailed | StatusCancelled => recover_terminal requestID operation st
  | StatusRejected | StatusExpired => forget requestID
  | _ => fail (ErrStatus st)
  end.
Definition recoverOperation (requestID : string) (st : RequestStatus) : SP () :=
  with_lock LDecision (recoverOperationLocked requestID st).

(** ** Approving *)

(** The recheck of a request that a standing grant matched. *)
Definition recheck_match (record : PendingRecord) (matched : RequestNotice) (level : ApprovalLevel) (grantID : string) : SP () :=
  matchedBinding ←? pure ErrBinding (approvedNoticeBindingFor matched);
  currentBinding ←? pure ErrBinding (approvedNoticeBindingFor (pe_Notice record));
  guard (negb (sameApprovedNoticeBinding matchedBinding currentBinding)) ErrNoticeReplaced ;?
  authority ←? currentApprovalAuthority;
  candidate ←? pure ErrCandidate (approvalCandidateForNotice (pe_Notice record));
  grant ←? call ErrApprovals (OMatch authority candidate);
  guard (match grant with
         | Some g => negb (bool_decide (gr_GrantID g = grantID)) || negb (bool_decide (gr_Level g = level))
         | None => true
         end) ErrNotCovered.

Definition approvable (st : RequestStatus) : bool :=
  bool_decide (st = StatusAwaitingApproval) || bool_decide (st = StatusAccepted) || bool_decide (st = StatusRunning).

(** A decision already committed at the relay is recovered, not made again. *)
Definition recover_committed (requestID : string) (st : RequestStatus) : SP RequestStatus :=
  r ← journal_get requestID;
  match r with
  | None => fail ErrNoBoundApproval
  | Some operation =>
    (if bool_decide (mt_Phase operation = mutationDecisionPrepared) || bool_decide (mt_Phase operation = mutationClaimPrepared)
     then requireCurrentApprovalAuthority operation else ok ()) ;?
    recoverOperationLocked requestID st ;? ok st
  end.

(** [allowOnceWithApprovalForNotice]; the status returned beside an error is
    read by no caller. *)
Definition allowOnceWithApprovalForNotice (requestID0 : string) (level : ApprovalLevel) (grantID : string) (grantPersisted : bool)
    (matched : option RequestNotice) : SP RequestStatus :=
  let requestID := trim_space requestID0 in
  guard (bool_decide (requestID = "")) ErrRequestIDRequired ;?
  r ← perform (OPendingGet requestID);
  match r with
  | None => fail ErrNotPending
  | Some record =>
    let st := nt_Status (pe_Notice record) in
    guard (negb (approvable st)) (ErrStatus st) ;?
    Ret (validateNotice (pe_Notice record)) ;?
    (match matched with Some n => recheck_match record n level grantID | None => ok () end) ;?
    if negb (bool_decide (st = StatusAwaitingApproval)) then recover_committed requestID st else
    prepared ← journal_get requestID;
    busy ← (match prepared with Some _ => Ret false | None => hasActiveExecution end);
    if busy : bool then fail errReceiverBusy else
    operation ←? prepareDecision (pe_Notice record) DecisionAllowOnce level grantID grantPersisted;
    commitAllowOnce requestID operation
  end.
Definition allowOnceWithApproval (requestID : string) (level : ApprovalLevel) (grantID : string) (grantPersisted : bool) :=
  allowOnceWithApprovalForNotice requestID level grantID grantPersisted None.
Definition AllowOnce (requestID : string) : SP () :=
  with_lock LDecision (allowOnceWithApproval requestID ApprovalLevelAskAlways "" false ;? ok ()).

Record ApprovalResult := mkApprovalResult {
  ar_RequestID : string; ar_Status : RequestStatus; ar_Level : ApprovalLevel; ar_Grant : option ApprovalGrant }.

(** The grant of a prepared operation: saved now, or saved before. *)
Definition save_grant (requestID : string) (level : ApprovalLevel) (authority : ApprovalAuthority) (candidate : ApprovalCandidate)
    (operation : mutationRecord) : SP (mutationRecord * option ApprovalGrant) :=
  if negb (mt_ApprovalGrantPersisted operation) then
    saved ←? call ErrApprovals (OApprovals (Upsert authority level candidate));
    operation ←? call ErrJournal (OUpdate requestID (persisted_update (mt_DecisionID operation) level (gr_GrantID saved)));
    ok (operation, Some saved)
  else
    grants ←? call ErrApprovals (OApprovals (List_ authority));
    ok (operation, snd <$> list_find (λ g, gr_GrantID g = mt_ApprovalGrantID operation) grants).

(** [Approve] with a standing level, under its lock. *)
Definition approve_standing (requestID : string) (level : ApprovalLevel) (record : PendingRecord)
    : prog (option ApprovalResult * (svc_error + ApprovalResult)) :=
  let result st grant := mkApprovalResult requestID st level grant in
  r ← (guard (negb (bool_decide (nt_Status (pe_Notice record) = StatusAwaitingApproval))) (ErrStatus (nt_Status (pe_Notice record))) ;?
       busy ← hasActiveExecution;
       mine ← (if busy : bool then hasActiveRequest requestID else Ret false);
       guard (busy && negb mine) errReceiverBusy ;?
       Ret (validateNotice (pe_Notice record)) ;?
       candidate ←? pure ErrCandidate (approvalCandidateForNotice (pe_Notice record));
       authority ←? currentApprovalAuthority;
       operation ←? prepareDecision (pe_Notice record) DecisionAllowOnce level
                      (stableApprovalGrantID authority level candidate) false;
       save_grant requestID level authority candidate operation);
  match r with
  | inl e => Ret (None, inl e)
  | inr (operation, grant) =>
    st ← commitAllowOnce requestID operation;
    match st with
    | inl e => Ret (Some (result StatusAccepted grant), inl e)
    | inr st => Ret (None, inr (result st grant))
    end
  end.

(** [Approve]: its result, or its error and the partial result beside it. *)
Definition Approve (requestID0 : string) (level : ApprovalLevel) : prog (option ApprovalResult * (svc_error + ApprovalResult)) :=
  let requestID := trim_space requestID0 in
  if bool_decide (requestID = "") then Ret (None, inl ErrRequestIDRequired) else
  if negb (level_valid level) then Ret (None, inl ErrLevelInvalid) else
  with_lock LDecision (
    r ← perform (OPendingGet requestID);
    match r with
    | None => Ret (None, inl ErrNotPending)
    | Some record =>
      if bool_decide (level = ApprovalLevelAskAlways) then
        st ← allowOnceWithApproval requestID ApprovalLevelAskAlways "" false;
        Ret (None, match st with inl e => inl e | inr st => inr (mkApprovalResult requestID st level None) end)
      else approve_standing requestID level record
    end).

Definition ApprovalGrants : SP (list ApprovalGrant) :=
  with_lock LDecision (authority ←? currentApprovalAuthority; call ErrApprovals (OApprovals (List_ authority))).
Definition RevokeApprovalGrant (grantID : string) : SP () :=
  with_lock LDecision (
    authority ←? currentApprovalAuthority;
    revoked ←? call ErrApprovals (OApprovals (Revoke authority grantID));
    guard (negb revoked) ErrGrantNotFound).

Definition InspectProposal (requestID0 : string) : SP ProposalPayload :=
  let requestID := trim_space requestID0 in
  guard (bool_decide (requestID = "")) ErrRequestIDRequired ;?
  r ← perform (OPendingGet requestID);
  match r with
  | None => fail ErrNotPending
  | Some record =>
    let st := nt_Status (pe_Notice record) in
    guard (negb (bool_decide (st = StatusAwaitingApproval))) (ErrStatus st) ;?
    proposal ←? relay (XInspectProposal requestID);
    match proposal with
    | None => fail ErrRelayEmpty
    | Some p => guard (negb (validateProposal (pe_Notice record) p)) ErrProposalMismatch ;? ok p
    end
  end.

Definition deny_final (st : RequestStatus) : bool :=
  bool_decide (st = StatusRejected) || bool_decide (st = StatusExpired) || bool_decide (st = StatusCancelled).
Definition Deny (requestID : string) : SP () :=
  with_lock LDecision (
    r ← perform (OPendingGet requestID);
    match r with
    | None => fail ErrNotPending
    | Some record =>
      let st := nt_Status (pe_Notice record) in
      guard (negb (bool_decide (st = StatusAwaitingApproval))) (ErrStatus st) ;?
      operation ←? prepareDecision (pe_Notice record) DecisionDeny no_level "" false;
      m ←? relay (XDecide requestID (decision_payload operation));
      st ←? Ret (mutationStatus m requestID);
      guard (negb (deny_final st)) (ErrStatus st) ;?
      forget requestID
    end).

Definition maybeAutoApprove (n : RequestNotice) : prog () :=
  if negb (bool_decide (nt_Status n = StatusAwaitingApproval)) || bool_decide (trim_space (nt_RequesterMemberID n) = "") then Ret () else
  with_lock LDecision (
    r ← (authority ←? currentApprovalAuthority;
         current ← perform (OPendingGet (nt_RequestID n));
         match current with
         | None => fail ErrNotPending
         | Some record =>
           guard (negb (bool_decide (nt_Status (pe_Notice record) = StatusAwaitingApproval))) (ErrStatus (nt_Status (pe_Notice record))) ;?
           candidate ←? pure ErrCandidate (approvalCandidateForNotice (pe_Notice record));
           grant ←? call ErrApprovals (OMatch authority candidate);
           match grant with
           | None => fail ErrNotCovered
           | Some g => allowOnceWithApprovalForNotice (nt_RequestID (pe_Notice record)) (gr_Level g) (gr_GrantID g) true
                         (Some (pe_Notice record)) ;? ok ()
           end
         end);
    Ret ()).

(** ** Events and reconciliation *)

Definition handle_notice (n0 : RequestNotice) : SP () :=
  resumes ←? ResumesConversation (nt_ConversationID n0);
  let n := nt_set_resumes resumes (default_status n0) in
  call ErrPending (OPending (pending_Upsert n)) ;?
  if bool_decide (nt_Status n = StatusAccepted) || bool_decide (nt_Status n = StatusRunning) then
    running ← perform OCurrentRun;
    if running : bool then recoverOperation (nt_RequestID n) (nt_Status n) else fail ErrStopped
  else if bool_decide (nt_Status n = StatusAwaitingApproval) then
    running ← perform OCurrentRun;
    if running : bool then maybeAutoApprove n ≫= λ _, ok () else ok ()
  else ok ().
Definition handleEvent (e : client_event) : SP () :=
  match e with
  | EventPeerRequest None | EventPeerCancelled None => fail ErrDecode
  | EventPeerRequest (Some n) => handle_notice n
  | EventPeerCancelled (Some id) => forget id
  | EventReady | EventOther => ok ()
  end.

Fixpoint each {A} (f : A → SP ()) (l : list A) : SP () :=
  match l with [] => ok () | x :: l' => f x ;? each f l' end.
Fixpoint mark_resumes (l : list RequestNotice) : SP (list RequestNotice) :=
  match l with
  | [] => ok []
  | n :: l' =>
    resumes ←? ResumesConversation (nt_ConversationID n);
    rest ←? mark_resumes l';
    ok (nt_set_resumes resumes n :: rest)
  end.
(** One notice of the inbox. *)
Definition reconcile_notice (n : RequestNotice) : SP () :=
  recoverOperation (nt_RequestID n) (nt_Status n) ;?
  r ← perform (OPendingGet (nt_RequestID n));
  match r with
  | Some record =>
    if bool_decide (nt_Status (pe_Notice record) = StatusAwaitingApproval)
    then maybeAutoApprove (pe_Notice record) ≫= λ _, ok () else ok ()
  | None => ok ()
  end.
(** One journaled operation the inbox no longer lists. *)
Definition reconcile_operation (seen : gset string) (operation : mutationRecord) : SP () :=
  let id := mt_RequestID operation in
  if bool_decide (id ∈ seen) then ok () else
  r ← perform (OExt (XGetRequest id));
  match r with
  | inl RelayNotFound => forget id
  | inl e => fail (ErrRelay e)
  | inr None => fail ErrRelayMismatch
  | inr (Some request) =>
    guard (negb (bool_decide (rq_RequestID request = id))) ErrRelayMismatch ;?
    guard (negb (bool_decide (mt_ConversationID operation = "")) &&
           negb (bool_decide (rq_ConversationID request = mt_ConversationID operation))) ErrRelayMismatch ;?
    recoverOperation id (rq_Status request)
  end.
Definition reconcile : SP () :=
  with_lock LReconcile (
    inbox ←? relay XInbox;
    notices ←? mark_resumes inbox;
    call ErrPending (OPending (pending_Replace notices)) ;?
    each reconcile_notice notices ;?
    operations ← perform OJournalList;
    each (reconcile_operation (list_to_set (nt_RequestID <$> notices))) operations).

(** A beat of [heartbeatLoop]; its errors are logged. *)
Definition heartbeat : prog () :=
  card ← perform (OExt XHeartbeat);
  (match card with inr c => activateApprovalAuthority c ≫= λ _, Ret () | inl _ => Ret () end) ≫= λ _,
  reconcile ≫= λ _, Ret ().
(** One round of [heartbeatLoop]: the end of the context, or a beat and the
    next round. *)
Definition heartbeatLoop : prog (list origin) :=
  over ← perform (OExt XTick);
  if over : bool then Ret [] else heartbeat ≫= λ _, Ret [CallHeartbeat].

(** ** [Run]

    A goroutine answers what it goes on as: nothing when it returns, and the
    next round of its loop, with the goroutines it starts there, otherwise. *)

Definition run_begin : SP () :=
  with_lock LRun (
    running ← perform ORunning;
    if running : bool then fail ErrAlreadyRunning else
    call ErrJournal OReload ;?
    call ErrApprovals (OApprovals Reload) ;?
    perform (OSetRunning true) ≫= λ _, ok ()).
Definition run_prologue : SP () :=
  capabilities ← perform (OExt XProbe);
  match capabilities with
  | None => fail ErrProbe
  | Some c =>
    guard (negb (cap_Available c)) ErrRuntimeUnavailable ;?
    guard (negb (SupportsPolicy c (cf_policy cf))) ErrProbe ;?
    card ←? relay XHeartbeat;
    activateApprovalAuthority card ;?
    reconcile
  end.
(** The deferred end of [Run]. *)
Definition stop : prog () := with_lock LRun (perform (OSetRunning false)).
Definition return_run : prog (list origin) := stop ≫= λ _, Ret [].
Definition Run : prog (list origin) :=
  r ← run_begin;
  match r with
  | inl _ => Ret []
  | inr _ =>
    r ← run_prologue;
    match r with
    | inl _ => return_run
    | inr _ => Ret [LoopConnect 0; CallHeartbeat]
    end
  end.

(** [reconnectBackoff.next]: the delay, and the next value of [current]. *)
Definition initialReconnectDelay : Z := 1000000000.
Definition maximumReconnectDelay : Z := 30 * 1000000000.
Definition next_delay (current : Z) (healthy : bool) : Z * Z :=
  let delay := if (current <=? 0) || healthy then initialReconnectDelay else current in
  (delay, if healthy then delay
          else if Z.quot maximumReconnectDelay 2 <=? delay then maximumReconnectDelay else delay * 2).

(** [for runCtx.Err() == nil] *)
Definition loop_connect (current : Z) : prog (list origin) :=
  done ← perform (OExt XDone);
  if done : bool then return_run else Ret [LoopStream current false].
(** [client.StreamEvents] and its callback: one event. *)
Definition loop_stream (current : Z) (ready : bool) : prog (list origin) :=
  event ← perform (OExt XNextEvent);
  match event with
  | None => Ret [LoopRetry current ready]
  | Some e =>
    let ready := match e with EventReady => true | _ => ready end in
    r ← handleEvent e;
    Ret [match r with inl _ => LoopRetry current ready | inr _ => LoopStream current ready end]
  end.
(** [eventStreamAttempt] after its stream, and [Run] after the attempt. *)
Definition loop_retry (current : Z) (ready : bool) : prog (list origin) :=
  done ← perform (OExt XDone);
  healthy ← (if done : bool then Ret ready else r ← reconcile; Ret (ready || is_ok r));
  done ← perform (OExt XDone);
  if done : bool then return_run else
  let (delay, current) := next_delay current healthy in
  perform (OExt (XWait delay)) ≫= λ _, Ret [LoopConnect current].

(** ** Goroutines *)

Definition discard {A} (p : prog A) : prog (list origin) := p ≫= λ _, Ret [].
Definition goroutine (o : origin) : prog (list origin) :=
  match o with
  | CallAllowOnce id => discard (AllowOnce id)
  | CallApprove id level => discard (Approve id level)
  | CallDeny id => discard (Deny id)
  | CallInspect id => discard (InspectProposal id)
  | CallRevokeGrant id => discard (RevokeApprovalGrant id)
  | CallGrants => discard ApprovalGrants
  | CallRun => Run
  | CallStop => discard stop
  | CallEvent e => discard (handleEvent e)
  | CallReconcile => discard reconcile
  | CallHeartbeat => heartbeatLoop
  | CallExecute id => discard (execute id)
  | LoopConnect current => loop_connect current
  | LoopStream current ready => loop_stream current ready
  | LoopRetry current ready => loop_retry current ready
  end.
End service.
