(* ===== verification/Pool.v ===== *)
(** * Interleaving, crashes and restarts of the receiver

    The pool of goroutines over one [rstate]: any goroutine may take the next
    step or begin the next round of its loop, any call may arrive, and the
    process may be killed and started again at any moment, keeping only its
    files. *)

From S2P Require Import Prelude GoString Protocol LocalStore ApprovalStore Binding ReceiverStores MutationStore Prog Service.

Abbreviation thread := (ghost * prog (list origin))%type.

Section pool.
Context `{UT : UnicodeTables} (cf : Config).
Variable answer : nat → ∀ B, ext B → B.

Record pool := mkPool { p_threads : list thread; p_state : rstate }.

Definition fresh (o : origin) : thread := (new_ghost o, goroutine cf o).
Definition spawn (id : option string) : list thread := match id with Some id => [fresh (CallExecute id)] | None => [] end.

(** The next operation of one goroutine, if it has one and is not blocked; at
    the end of a round, the next round of its loop and the goroutines it
    starts. *)
Definition thread_step (t : thread) (s : rstate) : option (list thread * thread * rstate) :=
  match t.2 with
  | Ret [] => None
  | Ret (o :: started) => Some (fresh <$> started, fresh o, s)
  | @Do _ B o k =>
    if enabled (cf_slots cf) o s then
      let '(b, g, s', started) := exec answer (cf_slots cf) o t.1 s in Some (spawn started, (g, k b), s')
    else None
  end.

(** A new process: memory is loaded from the files. *)
Definition restart (s : rstate) : rstate :=
  let (w, r) := newMutationStore "mutations" true (r_journal s) in
  mkState (NewPendingStore "pending" true (r_pending s)).1 w
    (NewApprovalStore "approvals" true (r_approvals s)).1 (NewFileSessionStore "sessions" true (r_sessions s)).1
    (mkAuthority "" "") ∅ false [] (r_ticks s) (reloaded_log r w ++ r_log s).

(** Calls from outside.  Executions and the rounds of [Run]'s loop are only
    started by the service; its beats, events and end, which come from [Run],
    may also come at any other moment, which only adds behaviours. *)
Definition callable (o : origin) : bool :=
  match o with CallExecute _ | LoopConnect _ | LoopStream _ _ | LoopRetry _ _ => false | _ => true end.

Inductive choice := Advance (i : nat) | Arrive (o : origin) | Restart.
Definition pool_step (c : choice) (p : pool) : option pool :=
  match c with
  | Advance i =>
    t ← p_threads p !! i;
    '(started, t', s) ← thread_step t (p_state p);
    Some (mkPool (<[i := t']> (p_threads p) ++ started) s)
  | Arrive o => if callable o then Some (mkPool (p_threads p ++ [fresh o]) (p_state p)) else None
  | Restart => Some (mkPool [] (restart (p_state p)))
  end.
Inductive pool_steps : pool → pool → Prop :=
  | steps_refl p : pool_steps p p
  | steps_next p q r c : pool_steps p q → pool_step c q = Some r → pool_steps p r.

(** Choices that are not possible are skipped. *)
Definition run_choices (l : list choice) (p : pool) : pool := foldl (λ p c, default p (pool_step c p)) p l.
Lemma run_choices_steps l p : pool_steps p (run_choices l p).
Proof.
  unfold run_choices. induction l as [|c l IH] using rev_ind; [apply steps_refl|]. rewrite foldl_app. simpl.
  destruct (pool_step c _) as [q|] eqn:Hq; [by eapply steps_next|done].
Qed.

(** A freshly installed receiver: no file yet, any clocks and write faults. *)
Definition installed (s : rstate) : Prop :=
  l_file (r_pending s) = FileAbsent ∧ l_mem (r_pending s) = ∅ ∧ l_file (r_journal s) = FileAbsent ∧ l_mem (r_journal s) = ∅ ∧
  r_locks s = [] ∧ r_log s = [].
Definition start (s : rstate) : pool := mkPool [] s.
End pool.
