(* ===== verification/SafeLogic.v ===== *)
(** * A logic for the receiver's goroutines

    [safe p Q g L] says that the program [p], run by a goroutine with the marks
    [g] when the log is at least [L], performs every operation under its
    condition [pre], whatever the other goroutines log in between, and ends
    with [Q].  What the operations tell their caller is [learn].  The log only
    grows, so what is known of it stays known. *)

From S2P Require Import Prelude GoString Sha256 Protocol Redact RedactFacts RedactHides Policy LocalStore ApprovalStore Binding BindingFacts ReceiverStores MutationStore Prog Service.

(** ** What is known of journaled operations *)

(** The part of a record that no update changes. *)
Definition identity (r : mutationRecord) : mutationRecord := mt_assign mutationDecisionPrepared false None 0%Z r.

(** The record descends from a journaled decision, and its result was chosen. *)
Definition genuine (L : list entry) (r : mutationRecord) : Prop :=
  (∃ who v r0, EPut who v r0 ∈ L ∧ identity r0 = identity r) ∧
  (∀ p, mt_Result r = Some p → EResult (mt_ExecutionClaimID r) p ∈ L).

Definition crossed (r : mutationRecord) : Prop :=
  mt_Phase r = mutationRuntimeStarted ∨ mt_Phase r = mutationResultPrepared.
Record record_ok (L : list entry) (id : string) (r : mutationRecord) : Prop := mkRecordOk {
  ro_id : mt_RequestID r = id;
  ro_genuine : genuine L r;
  ro_started : EStart (mt_ExecutionClaimID r) ∈ L → crossed r;
  ro_result : is_Some (mt_Result r) → mt_Phase r = mutationResultPrepared }.
Definition journal_ok (L : list entry) (m : journal) : Prop := map_Forall (record_ok L) m.

Lemma genuine_mono L L' r : L ⊆ L' → genuine L r → genuine L' r.
Proof. intros HL [(who & v & r0 & Hp & Hi) Hr]. split; [exists who, v, r0; eauto|eauto]. Qed.

(** The record was seen in the journal's file. *)
Definition recorded (L : list entry) (r : mutationRecord) : Prop := genuine L r ∧ ∃ t, EJournaled (mt_touch t r) ∈ L.
Lemma recorded_mono L L' r : L ⊆ L' → recorded L r → recorded L' r.
Proof. intros HL [Hg [t Ht]]. split; [by eapply genuine_mono|]. exists t. by apply HL. Qed.
Lemma recorded_genuine L r : recorded L r → genuine L r.
Proof. by intros [? _]. Qed.

(** ** Consent *)

(** The recipient asked for this very request. *)
Definition user_choice (o : origin) (requestID : string) : Prop :=
  match o with CallAllowOnce id | CallApprove id _ => trim_space id = requestID | _ => False end.

Section consent.
Context `{UT : UnicodeTables}.

(** An allow is bound to a notice, and chosen by the recipient or by a grant
    that matched the notice under the same authority. *)
Definition consented (who : origin) (v : via) (r : mutationRecord) : Prop :=
  mt_Decision r = DecisionAllowOnce →
  ∃ n b, mt_ApprovedNotice r = Some b ∧ approvedNoticeBindingFor n = inr b ∧ nt_RequestID n = mt_RequestID r ∧
    (user_choice who (mt_RequestID r) ∨
     ∃ a c gr, v = Some (a, c, gr) ∧ approvalCandidateForNotice n = inr c ∧ a = mutation_authority r ∧
       gr_GrantID gr = mt_ApprovalGrantID r ∧ gr_Level gr = mt_ApprovalLevel r).

(** A run is of what was approved, by the authority in force. *)
Definition runs_payload (cf : Config) (p : ExecutionPayload) (req : RunRequest) : Prop :=
  rr_RequestID req = ep_RequestID p ∧ rr_ConversationID req = ep_ConversationID p ∧ rr_Title req = ep_Title p ∧
  rr_Requester req = ep_RequesterDisplayName p ∧ rr_Prompt req = ep_Prompt p ∧
  resolveRequestedWorkspaces cf (ep_RequestedAccess p) = inr (rr_Workspaces req) ∧
  (po_AllowWrites (cf_policy cf) = false → rr_ReturnDirectory req = "") ∧ rr_RequestedPolicy req = None.
Definition ok_option {E A} (r : E + A) : option A := match r with inr a => Some a | inl _ => None end.
Definition run_justified (cf : Config) (L : list entry) (c : string) (a : option ApprovalAuthority) (req : RunRequest) : Prop :=
  ∃ r b p, recorded L r ∧ mt_ExecutionClaimID r = c ∧ c ≠ "" ∧ mt_ApprovedNotice r = Some b ∧
    a = ok_option (normalizeApprovalAuthority (mutation_authority r)) ∧ is_Some a ∧
    validateExecutionPayloadAgainstApprovedBinding b p = inr () ∧ runs_payload cf p req.
End consent.

(** ** Results *)

(** A result that may leave the machine: an answer without secrets, or one
    short line about a failure. *)
Definition presentable `{UT : UnicodeTables} (p : ResultPayload) : Prop :=
  (rp_State p = StatusCompleted ∧ rp_Error p = "" ∧ clean_text (rp_Answer p) ∧ ∃ text, rp_Answer p = RedactSensitiveText text) ∨
  (rp_State p = StatusFailed ∧ rp_Answer p = "" ∧ rp_ResultFiles p = [] ∧ (len (rp_Error p) <= 1283)%Z ∧ one_line (rp_Error p)).

(** ** Conditions of the operations *)

(** How an update may change a record. *)
Inductive advance : mutationRecord → mutationRecord → Prop :=
  | advance_same cur next : identity next = identity cur → mt_Phase next = mt_Phase cur → mt_Result next = mt_Result cur →
      advance cur next
  | advance_claim cur next : identity next = identity cur → mt_Phase cur = mutationDecisionPrepared →
      mt_Phase next = mutationClaimPrepared → mt_Result next = mt_Result cur → advance cur next
  | advance_start cur next : identity next = identity cur → mt_Phase cur = mutationClaimPrepared →
      mt_Phase next = mutationRuntimeStarted → mt_Result next = mt_Result cur → advance cur next
  | advance_result cur next p : identity next = identity cur → mt_Phase cur = mutationRuntimeStarted →
      mt_Phase next = mutationResultPrepared → mt_Result cur = None → mt_Result next = Some p → advance cur next.

Definition pending_ok (w : pending_world) : Prop :=
  map_Forall (λ id p, nt_RequestID (pe_Notice p) = id) (l_mem w) ∧
  match l_file w with
  | FileDoc s => map_Forall (λ id p, nt_RequestID (pe_Notice p) = id) (ps_Requests s)
  | _ => True
  end.

Definition lock_rank (l : lock) : nat :=
  match l with LRun => 6 | LReconcile => 1 | LDecision => 2 | LMutation => 3 | LConversation _ => 4 | LSlot _ => 5 end.

Section safe.
Context `{UT : UnicodeTables} (cf : Config).

Definition ext_pre {B} (x : ext B) (g : ghost) (L : list entry) : Prop :=
  match x with
  | XDecide id p => ∃ r, recorded L r ∧ id = mt_RequestID r ∧ p = decision_payload r
  | XMarkRunning id c => ∃ r, recorded L r ∧ id = mt_RequestID r ∧ c = mt_ExecutionClaimID r ∧ c ≠ ""
  | XSubmitResult id p => ∃ r, recorded L r ∧ id = mt_RequestID r ∧ mt_Result r = Some p ∧ rp_ExecutionClaimID p = mt_ExecutionClaimID r
  | XRun req => ∃ c, boundary (g_tokens g) = Some c ∧ run_justified cf L c (g_authority g) req
  | _ => True
  end.

Record put_pre (g : ghost) (r : mutationRecord) : Prop := mkPutPre {
  pp_fresh : put_tokens r ⊆+ g_tokens g;
  pp_phase : mt_Phase r = mutationDecisionPrepared;
  pp_result : mt_Result r = None;
  pp_consent : consented (g_origin g) (g_via g) r }.

Definition pre {B} (o : op B) (g : ghost) (L : list entry) : Prop :=
  match o with
  | OExt x => ext_pre x g L
  | OPending m => ∀ w, pending_ok w → pending_ok (m w).1
  | OPut r => put_pre g r
  | OUpdate id f => ∀ cur next, record_ok L id cur → f cur = Some next →
      advance cur next ∧ ∀ p, mt_Result cur = None → mt_Result next = Some p →
        TResult (mt_ExecutionClaimID next) ∈ g_tokens g ∧ presentable p
  | OSetAuthority _ => LDecision ∈ g_locks g
  | OLock l => Forall (λ h, lock_rank h < lock_rank l)%nat (g_locks g)
  | OAcquireSlot => Forall (λ h, lock_rank h < 5)%nat (g_locks g)
  | OUnlock l => l ∈ g_locks g
  | OActiveAny | OActive _ | OStart _ | OFinish _ | OCurrentRun => LRun ∉ g_locks g
  | _ => True
  end.

(** What the caller of an operation knows when it returns. *)
Definition learn {B} (o : op B) (g : ghost) (L : list entry) : B → ghost → Prop :=
  match o in op B return B → ghost → Prop with
  | OExt x => λ b g', g' = ext_ghost x b g
  | OPendingGet id => λ b g', g' = g ∧ ∀ p, b = Some p → nt_RequestID (pe_Notice p) = id
  | OMatch a c => λ b g', g' = match b with inr (Some grant) => set_via (Some (a, c, grant)) g | _ => g end
  | OJournalGet id => λ b g', g' = g ∧ ∀ r, b = Some r → mt_RequestID r = id ∧ recorded L r
  | OJournalList => λ b g', g' = g ∧ Forall (recorded L) b
  | OPut r => λ b g', g' = (if validateMutationRecord r then spend (put_tokens r) g else g) ∧
      (b = inr () → recorded L r)
  | OUpdate id f => λ b g', ∃ m, g' = update_ghost m id f b g ∧
      ∀ next, b = inr next → ∃ cur n t, m !! id = Some cur ∧ f cur = Some n ∧ next = mt_touch t n ∧
        recorded L next ∧ mt_RequestID next = id
  | OAuthority => λ b g', g' = set_seen b g ∧ (LDecision ∈ g_locks g → ∀ a, g_authority g = Some a → b = a)
  | OSetAuthority a => λ _ g', g' = set_seen a g
  | OLock l => λ _ g', g' = lock_ghost l g
  | OUnlock l => λ _ g', g' = set_locks (list_difference (g_locks g) [l]) g
  | OAcquireSlot => λ k g', g' = set_locks (LSlot k :: g_locks g) g
  | _ => λ _ g', g' = g
  end.

Fixpoint safe {A} (p : prog A) (Q : A → ghost → list entry → Prop) (g : ghost) (L : list entry) : Prop :=
  match p with
  | Ret a => ∀ L1, L ⊆ L1 → Q a g L1
  | Do o k => ∀ L1, L ⊆ L1 → pre o g L1 ∧
      ∀ b g' L2, L1 ⊆ L2 → learn o g L2 b g' → safe (k b) Q g' L2
  end.

Lemma safe_weaken {A} (p : prog A) Q g L L' : L ⊆ L' → safe p Q g L → safe p Q g L'.
Proof. destruct p; simpl; intros HL H L1 HL1; apply H; by etrans. Qed.
Lemma safe_mono {A} (p : prog A) (Q Q' : A → ghost → list entry → Prop) g L :
  safe p Q g L → (∀ a g' L', L ⊆ L' → Q a g' L' → Q' a g' L') → safe p Q' g L.
Proof.
  revert g L. induction p as [a|B o k IH]; simpl; intros g L H HQ.
  - intros L1 HL. auto.
  - intros L1 HL. destruct (H L1 HL) as [Hp Hk]. split; [done|]. intros b g' L2 HL2 Hl.
    apply IH; [by apply Hk|]. intros a g'' L3 HL3. apply HQ. by do 2 (etrans; [eassumption|]).
Qed.
Lemma safe_bind {A B} (p : prog A) (f : A → prog B) Q g L :
  safe p (λ a g' L', safe (f a) Q g' L') g L → safe (p ≫= f) Q g L.
Proof.
  revert g L. induction p as [a|C o k IH]; simpl; intros g L H.
  - by apply H.
  - intros L1 HL. destruct (H L1 HL) as [Hp Hk]. split; [done|]. intros b g' L2 HL2 Hl. apply IH. by apply Hk.
Qed.
Lemma safe_ret {A} (a : A) (Q : A → ghost → list entry → Prop) g L :
  (∀ L1, L ⊆ L1 → Q a g L1) → safe (Ret a) Q g L.
Proof. done. Qed.
Lemma safe_perform {B} (o : op B) (Q : B → ghost → list entry → Prop) g L :
  (∀ L1, L ⊆ L1 → pre o g L1) →
  (∀ b g' L2, L ⊆ L2 → learn o g L2 b g' → ∀ L3, L2 ⊆ L3 → Q b g' L3) → safe (perform o) Q g L.
Proof.
  intros Hp HQ L1 HL. split; [by apply Hp|]. intros b g' L2 HL2 Hl L3 HL3. eapply HQ; [|exact Hl|done]. by etrans.
Qed.
Lemma safe_ebind {E A B} (p : prog (E + A)) (f : A → prog (E + B)) Q g L :
  safe p (λ r g' L', match r with inl e => safe (Ret (inl e)) Q g' L' | inr a => safe (f a) Q g' L' end) g L →
  safe (ebind p f) Q g L.
Proof. intros H. apply safe_bind. eapply safe_mono; [exact H|]. by intros [e|a] g' L' _. Qed.
End safe.
