(* ===== verification/PoolSound.v ===== *)
(** * The invariant of the receiver's pool

    What holds of the stores, the log and the marks of all goroutines at every
    moment, and that every operation performed under its condition keeps it. *)

From S2P Require Import Prelude GoString Protocol Policy LocalStore ApprovalStore Binding ReceiverStores MutationStore Prog Service Pool SafeLogic.

(** ** Lists *)

Lemma NoDup_bind_unique {A B} (f : A → list B) (l : list A) x y t :
  NoDup (l ≫= f) → x ∈ l → y ∈ l → t ∈ f x → t ∈ f y → x = y.
Proof.
  induction l as [|z l IH]; [by intros ? ?%elem_of_nil|]. simpl. rewrite NoDup_app, !elem_of_cons.
  intros (_ & Hd & Hn) [-> | Hx] [-> | Hy] Htx Hty; [done|exfalso..|by apply IH].
  - apply (Hd t Htx), list_elem_of_bind. by exists y.
  - apply (Hd t Hty), list_elem_of_bind. by exists x.
Qed.
Lemma list_difference_perm {A} `{EqDecision A} (k l : list A) :
  NoDup k → NoDup l → l ⊆ k → k ≡ₚ l ++ list_difference k l.
Proof.
  intros Hk Hl Hs. apply NoDup_Permutation; [done| |].
  - apply NoDup_app. split_and!; [done| |by apply NoDup_list_difference]. intros x Hx. rewrite list_elem_of_difference. by intros [_ ?].
  - intros x. rewrite elem_of_app, list_elem_of_difference. destruct (decide (x ∈ l)); [|tauto]. split; [tauto|]. intros _. by apply Hs.
Qed.

(** ** The invariant *)

(** The rights an entry used up. *)
Definition used (e : entry) : list token :=
  match e with
  | EPut _ _ r => put_tokens r
  | ERun (Some c) _ _ => [TStart c]
  | EResult c _ => [TResult c]
  | _ => []
  end.
Definition all_tokens (gs : list ghost) (L : list entry) : list token := (gs ≫= g_tokens) ++ (L ≫= used).

Section sound.
Context `{UT : UnicodeTables} (cf : Config) (answer : nat → ∀ B, ext B → B).

(** What was known when an entry was made. *)
Definition entry_ok (L : list entry) (e : entry) : Prop :=
  match e with
  | EPut who v r => consented who v r ∧ validateMutationRecord r = true ∧ mt_Phase r = mutationDecisionPrepared ∧ mt_Result r = None
  | EStart c => c ≠ "" ∧ ∃ r, genuine L r ∧ mt_ExecutionClaimID r = c
  | ERun oc a req => ∃ c, oc = Some c ∧ run_justified cf L c a req
  | EDecide id p => ∃ r, recorded L r ∧ id = mt_RequestID r ∧ p = decision_payload r
  | EMark id c => ∃ r, recorded L r ∧ id = mt_RequestID r ∧ c = mt_ExecutionClaimID r ∧ c ≠ ""
  | ESubmit id p => ∃ r, recorded L r ∧ id = mt_RequestID r ∧ mt_Result r = Some p ∧ rp_ExecutionClaimID p = mt_ExecutionClaimID r
  | EIssued _ => True
  | EResult _ p => presentable p
  | EJournaled r => genuine L r
  end.
Fixpoint log_ok (L : list entry) : Prop :=
  match L with [] => True | e :: L' => entry_ok L' e ∧ log_ok L' end.

Record tokens_ok (T : list token) (L : list entry) : Prop := mkTokensOk {
  tk_once : NoDup T;
  tk_fresh : ∀ id, TFresh id ∈ T → EIssued id ∈ L;
  tk_started : ∀ c, TStart c ∈ T ∨ TResult c ∈ T → EStart c ∈ L }.
Definition issued_ok (n : nat) (L : list entry) : Prop :=
  ∀ id, EIssued id ∈ L → ∃ m prefix, m < n ∧ answer m _ (XNewID prefix) = Some id.
(** What memory holds was seen in the file. *)
Definition held_ok (L : list entry) (m : journal) : Prop := ∀ id r, m !! id = Some r → EJournaled r ∈ L.
Definition disk_ok (L : list entry) (w : journal_world) : Prop :=
  match l_file w with FileDoc s => journal_ok L (ms_Records s) | _ => True end.
Record locks_ok (gs : list ghost) (held : list lock) (a : ApprovalAuthority) : Prop := mkLocksOk {
  lk_held : (gs ≫= g_locks) ≡ₚ held;
  lk_once : NoDup held;
  lk_authority : ∀ g a', g ∈ gs → LDecision ∈ g_locks g → g_authority g = Some a' → a = a' }.
Record world_ok (gs : list ghost) (s : rstate) : Prop := mkWorldOk {
  w_tokens : tokens_ok (all_tokens gs (r_log s)) (r_log s);
  w_issued : issued_ok (r_ticks s) (r_log s);
  w_log : log_ok (r_log s);
  w_journal : journal_ok (r_log s) (l_mem (r_journal s)) ∧ disk_ok (r_log s) (r_journal s);
  w_pending : pending_ok (r_pending s);
  w_locks : locks_ok gs (r_locks s) (r_authority s);
  w_held : held_ok (r_log s) (l_mem (r_journal s)) }.

(** The order of goroutines does not matter. *)
#[export] Instance all_tokens_perm : Proper ((≡ₚ) ==> (=) ==> (≡ₚ)) all_tokens.
Proof. intros gs gs' Hgs L L' ->. unfold all_tokens. by rewrite Hgs. Qed.
Lemma tokens_ok_perm T T' L : T ≡ₚ T' → tokens_ok T L → tokens_ok T' L.
Proof. intros HT [H1 H2 H3]. constructor; [by rewrite <- HT|intros ?; rewrite <- HT; auto..]. Qed.
Lemma world_ok_perm gs gs' s : gs ≡ₚ gs' → world_ok gs s → world_ok gs' s.
Proof.
  intros Hg [H1 H2 H3 H4 H5 [Ha Hb Hc] H7]. constructor; [|done..| |done].
  - eapply tokens_ok_perm; [|exact H1]. by rewrite Hg.
  - constructor; [by rewrite <- Hg|done|]. intros g a' Hin. apply Hc. by rewrite Hg.
Qed.

(** ** What is known stays known *)

Lemma record_ok_grow L L' id r : L ⊆ L' → (∀ c, EStart c ∈ L' → EStart c ∈ L) → record_ok L id r → record_ok L' id r.
Proof. intros HL Hs [H1 H2 H3 H4]. constructor; [done|by eapply genuine_mono|auto|done]. Qed.
Lemma journal_ok_grow L L' m : L ⊆ L' → (∀ c, EStart c ∈ L' → EStart c ∈ L) → journal_ok L m → journal_ok L' m.
Proof. intros HL Hs Hm id r Hr. eapply record_ok_grow; [done..|]. by apply Hm. Qed.
Lemma disk_ok_grow L L' w : L ⊆ L' → (∀ c, EStart c ∈ L' → EStart c ∈ L) → disk_ok L w → disk_ok L' w.
Proof. unfold disk_ok. intros HL Hs. destruct (l_file w); [done..|]. by apply journal_ok_grow. Qed.
Lemma held_ok_grow L L' m : L ⊆ L' → held_ok L m → held_ok L' m.
Proof. intros HL Hm id r Hr. by apply HL, (Hm id). Qed.
Lemma log_ok_entry L e : log_ok L → e ∈ L → ∃ L0, entry_ok L0 e ∧ L0 ⊆ L.
Proof.
  induction L as [|x L IH]; [by intros ? ?%elem_of_nil|]. intros [He HL] [-> | Hin]%elem_of_cons.
  - exists L. split; [done|]. intros ??. by right.
  - destruct (IH HL Hin) as (L0 & H0 & Hsub). exists L0. split; [done|]. intros y Hy. right. auto.
Qed.

(** Each identifier belongs to one journaled decision. *)
Lemma put_unique L who v r who' v' r' t : NoDup (L ≫= used) → EPut who v r ∈ L → EPut who' v' r' ∈ L →
  t ∈ put_tokens r → t ∈ put_tokens r' → r = r'.
Proof.
  intros Hn H H' Ht Ht'. assert (EPut who v r = EPut who' v' r') as [= _ _ ->]; [|done].
  by eapply (NoDup_bind_unique used).
Qed.
Lemma claim_in_put_tokens r : mt_ExecutionClaimID r ≠ "" → TFresh (mt_ExecutionClaimID r) ∈ put_tokens r.
Proof. intros H. unfold put_tokens. rewrite bool_decide_false by done. right. left. Qed.
Lemma identity_fields r r' : identity r = identity r' → mt_RequestID r = mt_RequestID r' ∧
  mt_ExecutionClaimID r = mt_ExecutionClaimID r' ∧ mt_DecisionID r = mt_DecisionID r' ∧ mt_Decision r = mt_Decision r' ∧
  mt_ApprovedNotice r = mt_ApprovedNotice r' ∧ mutation_authority r = mutation_authority r'.
Proof. unfold identity, mt_assign, mutation_authority. intros [=]. repeat split; congruence. Qed.
Lemma genuine_claim L r r' : NoDup (L ≫= used) → genuine L r → genuine L r' →
  mt_ExecutionClaimID r = mt_ExecutionClaimID r' → mt_ExecutionClaimID r ≠ "" → identity r = identity r'.
Proof.
  intros Hn [(who & v & r0 & Hp & Hi) _] [(who' & v' & r0' & Hp' & Hi') _] Hc Hne.
  apply identity_fields in Hi as Hf. apply identity_fields in Hi' as Hf'. destruct Hf as (_ & Hf & _), Hf' as (_ & Hf' & _).
  rewrite <- Hi, <- Hi'. f_equal. eapply (put_unique L who v r0 who' v' r0'); [done..|apply claim_in_put_tokens; congruence|].
  rewrite Hf, Hc, <- Hf'. apply claim_in_put_tokens. congruence.
Qed.
(** A started claim was used by a decision. *)
Lemma started_used L c : log_ok L → EStart c ∈ L → c ≠ "" ∧ TFresh c ∈ (L ≫= used).
Proof.
  intros HL Hin. destruct (log_ok_entry L _ HL Hin) as (L0 & (Hne & r & [(who & v & r0 & Hp & Hi) _] & Hc) & Hsub).
  split; [done|]. apply list_elem_of_bind. exists (EPut who v r0). split; [|by apply Hsub].
  apply identity_fields in Hi as (_ & Hi & _). simpl. rewrite <- Hc, <- Hi. apply claim_in_put_tokens. congruence.
Qed.
Lemma all_tokens_log gs L : NoDup (all_tokens gs L) → NoDup (L ≫= used).
Proof. unfold all_tokens. by intros (_ & _ & ?)%NoDup_app. Qed.

(** ** Steps of the invariant *)

Lemma world_tick gs s : world_ok gs s → world_ok gs (tick s).
Proof.
  intros [H1 H2 H3 H4 H5 H6 H7]. constructor; [done| |done..]. intros id Hid. destruct (H2 id Hid) as (m & p & Hm & Ha).
  exists m, p. split; [cbn; lia|done].
Qed.
Lemma world_journal gs w s : world_ok gs s → journal_ok (r_log s) (l_mem w) → disk_ok (r_log s) w → held_ok (r_log s) (l_mem w) →
  world_ok gs (with_journal w s).
Proof. intros [H1 H2 H3 H4 H5 H6 H7] Hm Hd Hh. by constructor. Qed.
(** What is seen in the file is noted. *)
Lemma world_note gs s l : world_ok gs s → Forall (genuine (r_log s)) l → world_ok gs (add_log (EJournaled <$> l) s).
Proof.
  intros [[Hn Hf Hst] H2 H3 [H4 H4'] H5 [Ha Hb Hc] H7] Hl.
  assert (r_log s ⊆ (EJournaled <$> l) ++ r_log s) as Hsub by (intros x Hx; apply elem_of_app; by right).
  assert (∀ e, e ∈ (EJournaled <$> l) ++ r_log s → (∀ r, e ≠ EJournaled r) → e ∈ r_log s) as Hold.
  { intros e [(r & -> & _)%list_elem_of_fmap|?]%elem_of_app Hne; [by destruct (Hne r)|done]. }
  assert (((EJournaled <$> l) ++ r_log s) ≫= used = r_log s ≫= used) as Hused.
  { rewrite bind_app. clear -l. by induction l as [|r l IH]. }
  constructor; cbn.
  - unfold all_tokens in *. rewrite Hused. constructor; [done|intros id Hid; by apply Hsub, Hf|intros c Hcl; by apply Hsub, Hst].
  - intros id Hid. apply H2, Hold; [done|by intros r].
  - clear -Hl H3. induction Hl as [|r l Hr Hl IH]; [done|]. split; [|done]. eapply genuine_mono; [|exact Hr].
    intros x Hx. apply elem_of_app. by right.
  - split; [eapply journal_ok_grow|eapply disk_ok_grow]; try done; intros c Hcl; by apply Hold.
  - done.
  - by constructor.
  - by eapply held_ok_grow.
Qed.
Lemma world_pending gs w s : world_ok gs s → pending_ok w → world_ok gs (with_pending w s).
Proof. intros [H1 H2 H3 H4 H5 H6 H7] Hw. by constructor. Qed.
Lemma world_via v g gs s : world_ok (g :: gs) s → world_ok (set_via v g :: gs) s.
Proof.
  intros [H1 H2 H3 H4 H5 [Ha Hb Hc] H7]. constructor; [done..| |done]. constructor; [done|done|].
  intros g' a' [-> | Hg]%elem_of_cons; [apply (Hc g a'); by left|apply Hc; by right].
Qed.

(** An entry that moves no right but those it uses. *)
Lemma world_log g g' gs s e : world_ok (g :: gs) s → entry_ok (r_log s) e →
  g_tokens g ≡ₚ used e ++ g_tokens g' → g_locks g' = g_locks g → g_authority g' = g_authority g →
  (∀ c, e ≠ EStart c) → (∀ id, e ≠ EIssued id) → world_ok (g' :: gs) (add_log [e] s).
Proof.
  intros [H1 H2 H3 [H4 H4'] H5 [Ha Hb Hc] H7] He Ht Hl Hau Hs Hi.
  assert (r_log s ⊆ e :: r_log s) as Hsub by (intros x Hx; by right).
  assert (∀ c, EStart c ∈ e :: r_log s → EStart c ∈ r_log s) as Hback.
  { intros c [Heq|]%elem_of_cons; [|done]. by destruct (Hs c). }
  constructor; cbn.
  - eapply (tokens_ok_perm (all_tokens (g :: gs) (r_log s))).
    + unfold all_tokens. cbn. rewrite Ht. rewrite <- !app_assoc. solve_Permutation.
    + destruct H1 as [Hn Hf Hst]. constructor; [done| |]; intros; apply Hsub; auto.
  - intros id [Heq|Hin]%elem_of_cons; [by destruct (Hi id)|by apply H2].
  - done.
  - split; [by eapply journal_ok_grow|by eapply disk_ok_grow].
  - done.
  - constructor; [by rewrite <- Ha; cbn; rewrite Hl|done|].
    intros g0 a' [-> | Hg]%elem_of_cons; [rewrite Hl, Hau; apply (Hc g); by left|apply Hc; by right].
  - by eapply held_ok_grow.
Qed.
Lemma world_plain g gs s e : world_ok (g :: gs) s → entry_ok (r_log s) e → used e = [] →
  (∀ c, e ≠ EStart c) → (∀ id, e ≠ EIssued id) → world_ok (g :: gs) (add_log [e] s).
Proof. intros H He Hu. apply (world_log g); [done|done|by rewrite Hu|done|done]. Qed.

Definition all_different : Prop := ∀ n m p q id,
  answer n _ (XNewID p) = Some id → answer m _ (XNewID q) = Some id → n = m.

Lemma world_issue prefix id g gs s : all_different → world_ok (g :: gs) s → answer (r_ticks s) _ (XNewID prefix) = Some id →
  world_ok (gain [TFresh id] g :: gs) (add_log [EIssued id] (tick s)).
Proof.
  intros Hdiff [[Hn Hf Hst] H2 H3 [H4 H4'] H5 [Ha Hb Hc] H7] Hid.
  assert (r_log s ⊆ EIssued id :: r_log s) as Hsub by (intros x Hx; by right).
  assert (∀ c, EStart c ∈ EIssued id :: r_log s → EStart c ∈ r_log s) as Hback by (by intros c [?|?]%elem_of_cons).
  assert (EIssued id ∉ r_log s) as Hnew.
  { intros (m & q & Hm & Hq)%H2. specialize (Hdiff _ _ _ _ _ Hid Hq). lia. }
  constructor; cbn.
  - eapply (tokens_ok_perm (TFresh id :: all_tokens (g :: gs) (r_log s))); [done|]. constructor.
    + constructor; [|done]. by intros ?%Hf.
    + intros id' [[= ->]|Hin]%elem_of_cons; [by left|]. apply Hsub. auto.
    + intros c [[?|?]%elem_of_cons|[?|?]%elem_of_cons]; [done| |done|]; apply Hsub; auto.
  - intros id' [[= ->]|Hin]%elem_of_cons; [exists (r_ticks s), prefix; split; [lia|done]|].
    destruct (H2 id' Hin) as (m & q & Hm & Hq). exists m, q. split; [lia|done].
  - done.
  - split; [by eapply journal_ok_grow|by eapply disk_ok_grow].
  - done.
  - constructor; [done|done|]. intros g0 a' [-> | Hg]%elem_of_cons; [apply (Hc g); by left|apply Hc; by right].
  - by eapply held_ok_grow.
Qed.

(** The runtime boundary of a claim is crossed. *)
Lemma world_start c g gs w s : world_ok (g :: gs) s → c ≠ "" → EStart c ∉ r_log s →
  (∃ r, genuine (r_log s) r ∧ mt_ExecutionClaimID r = c) →
  journal_ok (EStart c :: r_log s) (l_mem w) → disk_ok (EStart c :: r_log s) w → held_ok (r_log s) (l_mem w) →
  world_ok (gain [TStart c; TResult c] g :: gs) (add_log [EStart c] (with_journal w s)).
Proof.
  intros [[Hn Hf Hst] H2 H3 _ H5 [Ha Hb Hc] _] Hne Hnew Hr Hm Hd Hh.
  assert (r_log s ⊆ EStart c :: r_log s) as Hsub by (intros x Hx; by right).
  constructor; cbn; [|intros id [?|Hin]%elem_of_cons; [done|by apply H2]|done|done|done| |by eapply held_ok_grow].
  - eapply (tokens_ok_perm (TStart c :: TResult c :: all_tokens (g :: gs) (r_log s))); [done|]. constructor.
    + constructor; [|constructor; [|done]].
      * intros [?|Hin]%elem_of_cons; [done|]. apply Hnew, Hst. by left.
      * intros Hin. apply Hnew, Hst. by right.
    + intros id [?|[?|?]%elem_of_cons]%elem_of_cons; [done..|]. apply Hsub. auto.
    + intros c' [[[= ->]|[?|?]%elem_of_cons]%elem_of_cons|[?|[[= ->]|?]%elem_of_cons]%elem_of_cons]; try done;
        [by left| |by left|]; apply Hsub; auto.
  - constructor; [done|done|]. intros g0 a' [-> | Hg]%elem_of_cons; [apply (Hc g); by left|apply Hc; by right].
Qed.
End sound.

(** ** Steps *)

(** ** Marks *)

Lemma spend_perm l g : NoDup (g_tokens g) → l ⊆+ g_tokens g → g_tokens g ≡ₚ l ++ g_tokens (spend l g).
Proof.
  intros Hn Hl. apply list_difference_perm; [done| |].
  - destruct (submseteq_Permutation _ _ Hl) as [k Hk]. rewrite Hk in Hn. by apply NoDup_app in Hn as [? _].
  - intros x Hx. by eapply elem_of_submseteq.
Qed.
Lemma boundary_token l c : boundary l = Some c → TStart c ∈ l.
Proof. induction l as [|[] l IH]; [done|..]; simpl; intros H; [right; auto|injection H as <-; by left|right; auto]. Qed.
Lemma subset_nil {A} (L : list A) l : L ⊆ l ++ L.
Proof. intros x Hx. apply elem_of_app. by right. Qed.

Section step.
Context `{UT : UnicodeTables} (cf : Config) (answer : nat → ∀ B, ext B → B).
Hypothesis Hdiff : all_different answer.
Abbreviation world_ok := (world_ok cf answer).

Lemma world_own_tokens g gs s : world_ok (g :: gs) s → NoDup (g_tokens g).
Proof. intros [[Hn _ _] _ _ _ _ _ _]. by do 2 apply NoDup_app in Hn as [Hn _]. Qed.

(** The operation does what is promised to the invariant and to its caller. *)
Definition sound_op {B} (o : op B) : Prop := ∀ g gs s b g' s' started,
  world_ok (g :: gs) s → pre cf o g (r_log s) → enabled (cf_slots cf) o s = true →
  exec answer (cf_slots cf) o g s = (b, g', s', started) →
  world_ok (g' :: gs) s' ∧ r_log s ⊆ r_log s' ∧ learn o g (r_log s') b g'.

(** ** Calls out of the process *)

Lemma sound_ext {B} (x : ext B) : sound_op (OExt x).
Proof.
  intros g gs s b g' s' st Hw Hp _ [= <- <- <- _]. split; [|split; [apply subset_nil|done]].
  apply world_tick in Hw as Ht.
  destruct x; cbn [ext_log ext_ghost ext_pre pre] in *; try exact Ht; try by apply world_plain.
  - destruct (answer _ _ _) as [id|] eqn:Hid; [|done]. by eapply world_issue.
  - destruct Hp as (c & Hb & Hj). rewrite Hb. eapply world_log; [done|by exists c| |done..].
    apply spend_perm; [by eapply world_own_tokens|]. apply singleton_submseteq_l. by apply boundary_token.
Qed.

(** ** Locks *)

Lemma sound_lock l : sound_op (OLock l).
Proof.
  intros g gs s b g' s' st [H1 H2 H3 H4 H5 [Ha Hb Hc] H7] _ Hen [= _ <- <- _]. split; [|split; [done|done]].
  cbn in Hen. apply bool_decide_eq_true in Hen.
  assert (g_tokens (lock_ghost l g) = g_tokens g ∧ g_locks (lock_ghost l g) = l :: g_locks g) as [Ht Hl]
    by (unfold lock_ghost; by case_decide).
  constructor; [|done..| |done].
  - unfold all_tokens in *. cbn. by rewrite Ht.
  - cbn in *. constructor; [by cbn; rewrite Hl, <- Ha|by constructor|].
    intros g0 a' [-> | Hg]%elem_of_cons; [|by apply Hc; right].
    rewrite Hl. unfold lock_ghost. case_decide as Hd; [done|]. intros [?|?]%elem_of_cons; [done|]. apply (Hc g); [by left|done].
Qed.
Lemma sound_slot : sound_op OAcquireSlot.
Proof.
  intros g gs s b g' s' st [H1 H2 H3 H4 H5 [Ha Hb Hc] H7] _ Hen [= <- <- <- _]. split; [|split; [done|done]].
  cbn in Hen. apply bool_decide_eq_true in Hen as [k Hk]. rewrite Hk. cbn.
  constructor; [done..| |done]. cbn in *. constructor; [by cbn; rewrite <- Ha| |].
  - constructor; [|done]. unfold free_slot in Hk. destruct (list_find _ _) as [[i k']|] eqn:Hf; [|done].
    apply list_find_Some in Hf as (_ & Hf & _). by injection Hk as <-.
  - intros g0 a' [-> | Hg]%elem_of_cons; [|by apply Hc; right]. cbn. intros [?|?]%elem_of_cons; [done|]. apply (Hc g); [by left|done].
Qed.
Lemma sound_unlock l : sound_op (OUnlock l).
Proof.
  intros g gs s b g' s' st [H1 H2 H3 H4 H5 [Ha Hb Hc] H7] Hp _ [= _ <- <- _]. split; [|split; [done|done]].
  constructor; [done..| |done]. cbn in *.
  assert (NoDup (g_locks g)) as Hn by (rewrite <- Ha in Hb; by apply NoDup_app in Hb as [? _]).
  assert (l ∈ r_locks s) as Hin by (rewrite <- Ha; apply elem_of_app; by left).
  constructor.
  - cbn. apply (inj (l ::.)).
    pose proof (list_difference_perm (g_locks g) [l] Hn (NoDup_singleton l)) as Hg.
    pose proof (list_difference_perm (r_locks s) [l] Hb (NoDup_singleton l)) as Hs.
    cbn [app] in Hg, Hs. rewrite <- Hs, <- Ha, app_comm_cons, <- Hg; [done|..]; by intros x ->%list_elem_of_singleton.
  - by apply NoDup_list_difference.
  - intros g0 a' [-> | Hg]%elem_of_cons; [|by apply Hc; right]. cbn. intros [? _]%list_elem_of_difference. apply (Hc g); [by left|done].
Qed.

(** ** The authority *)

Lemma sound_authority : sound_op OAuthority.
Proof.
  intros g gs s b g' s' st [H1 H2 H3 H4 H5 [Ha Hb Hc] H7] _ _ [= <- <- <- _]. split; [|split; [done|split; [done|]]].
  - constructor; [done..| |done]. constructor; [done|done|].
    intros g0 a' [-> | Hg]%elem_of_cons; [by intros _ [=]|by apply Hc; right].
  - intros Hd a Hg. apply (Hc g); [by left|done|done].
Qed.
(** The holder of the decision lock is the only one that knows the authority. *)
Lemma sound_set_authority a : sound_op (OSetAuthority a).
Proof.
  intros g gs s b g' s' st [H1 H2 H3 H4 H5 [Ha Hb Hc] H7] Hp _ [= _ <- <- _]. split; [|split; [done|done]].
  constructor; [done..| |done]. constructor; [done|done|]. cbn in *.
  intros g0 a' [-> | Hg]%elem_of_cons; [by intros _ [=]|]. intros Hd _. exfalso.
  rewrite <- Ha in Hb. apply NoDup_app in Hb as (_ & Hb & _). apply (Hb LDecision Hp), list_elem_of_bind. by exists g0.
Qed.

(** ** The other stores *)

Lemma sound_pending {B} (m : PM B) : sound_op (OPending m).
Proof.
  intros g gs s b g' s' st Hw Hp _ He. cbn in He, Hp. specialize (Hp (r_pending s) (w_pending _ _ _ _ Hw)).
  destruct (m (r_pending s)) as [w r]. injection He as <- <- <- _. split; [by apply world_pending|done].
Qed.
Lemma sound_match a c : sound_op (OMatch a c).
Proof.
  intros g gs s b g' s' st Hw _ _ He. cbn in He. destruct (Match a c (r_approvals s)) as [w r]. injection He as <- <- <- _.
  split; [|split; [done|done]]. assert (world_ok (g :: gs) (with_approvals w s)) as Hw' by (by destruct Hw).
  destruct r as [|[|]]; [done| |done]. by apply world_via.
Qed.

(** ** The journal *)

(** Memory and file hold what they held, or the journal [m]. *)
Definition moved (w : journal_world) (m : journal) (w' : journal_world) : Prop :=
  (l_mem w' = l_mem w ∨ l_mem w' = m) ∧ (l_file w' = l_file w ∨ on_disk m w').
Lemma moved_ok L w m w' : journal_ok L (l_mem w) ∧ disk_ok L w → journal_ok L m → moved w m w' →
  journal_ok L (l_mem w') ∧ disk_ok L w'.
Proof.
  intros [Hm Hd] Hn [Hmem Hfile]. split; [by destruct Hmem as [-> | ->]|].
  unfold disk_ok in *. destruct Hfile as [-> | [t ->]]; done.
Qed.
Lemma undone_moved w m w' : undone w m w' → moved w m w'.
Proof. intros [H1 H2]. split; [by left|done]. Qed.
Lemma journaled_moved w m w' : journaled w m w' → moved w m w'.
Proof. intros [H1 H2]. split; by right. Qed.
Lemma moved_refl w m : moved w m w.
Proof. split; by left. Qed.

(** The written record of a new decision. *)
Lemma put_record_ok g gs s r t : world_ok (g :: gs) s → put_pre g r → validateMutationRecord r = true →
  record_ok (EPut (g_origin g) (g_via g) r :: r_log s) (mt_RequestID r) (mt_touch t r).
Proof.
  intros [[Hn _ _] _ Hlog _ _ _ _] [Hfresh Hphase Hres Hcon] Hval. constructor; cbn; [done| | |].
  - split; [exists (g_origin g), (g_via g), r; split; [by left|done]|]. cbn. rewrite Hres. by intros.
  - intros [?|Hst]%elem_of_cons; [done|]. exfalso. destruct (started_used _ _ _ Hlog Hst) as [Hne Hu].
    unfold all_tokens in Hn. apply NoDup_app in Hn as (_ & Hn & _). apply (Hn (TFresh (mt_ExecutionClaimID r))); [|done].
    cbn. apply elem_of_app. left. eapply elem_of_submseteq; [|done]. by apply claim_in_put_tokens.
  - rewrite Hres. by intros [? ?].
Qed.
(** A record that was just written was seen in the file. *)
Lemma touch_touch r : mt_touch (mt_UpdatedAt r) r = r.
Proof. by destruct r. Qed.
Lemma recorded_seen L r : genuine L r → EJournaled r ∈ L → recorded L r.
Proof. intros Hg Hin. split; [done|]. exists (mt_UpdatedAt r). by rewrite touch_touch. Qed.
Lemma file_of_disk m w : on_disk m w → file_records w = m.
Proof. intros [t Ht]. unfold file_records. by rewrite Ht. Qed.
Lemma held_insert L m id r : held_ok L m → EJournaled r ∈ L → held_ok L (<[id:=r]> m).
Proof. intros Hm Hr id' x [[<- <-]|[_ Hx]]%lookup_insert_Some; [done|by apply (Hm id')]. Qed.

Lemma sound_put r : sound_op (OPut r).
Proof.
  intros g gs s b g' s' st Hw Hp _ He. cbn in He. pose proof (wp_mutation_Put r (r_journal s)) as Hwp. unfold wp in Hwp.
  destruct (mutation_Put r (r_journal s)) as [w res]. destruct (validateMutationRecord r) eqn:Hval.
  2: { assert (w = r_journal s ∧ ∃ e, res = inl e) as [-> [e ->]].
       { destruct res; [destruct Hwp as [->|[? _]]; [split; [done|eauto]|done]|by destruct Hwp]. }
       injection He as <- <- <- _. split; [|split; [done|]]; [by destruct Hw|]. cbn. by rewrite Hval. }
  injection He as <- <- <- _.
  assert (world_ok (spend (put_tokens r) g :: gs) (add_log [EPut (g_origin g) (g_via g) r] s)) as Hw1.
  { destruct Hp as [Hf Hph Hr Hc]. eapply world_log; [done|by repeat split| |done..].
    apply spend_perm; [by eapply world_own_tokens|done]. }
  assert (∀ t, journal_ok (EPut (g_origin g) (g_via g) r :: r_log s) (<[mt_RequestID r:=mt_touch t r]> (l_mem (r_journal s)))) as Hnew.
  { intros t id x [[<- <-]|[Hne Hx]]%lookup_insert_Some; [by eapply put_record_ok|by apply (proj1 (w_journal _ _ _ _ Hw1))]. }
  destruct res as [e|[]]; cbn [journaled_log].
  - split; [|split; [apply subset_nil|cbn; rewrite Hval; by split]].
    assert (∃ t, undone (r_journal s) (<[mt_RequestID r:=mt_touch t r]> (l_mem (r_journal s))) w) as [t Hundone].
    { destruct Hwp as [->|[_ Ht]]; [|done]. exists 0%Z. split; [done|by left]. }
    pose proof (moved_ok _ _ _ w (w_journal _ _ _ _ Hw1) (Hnew t) (undone_moved _ _ _ Hundone)) as Hok.
    apply (world_journal cf answer _ w) in Hw1; [done|apply Hok|apply Hok|]. cbn. rewrite (proj1 Hundone). apply (w_held _ _ _ _ Hw1).
  - destruct Hwp as [_ (t & Hmem & Hdisk)]. specialize (Hnew t). rewrite (file_of_disk _ _ Hdisk), lookup_insert_eq.
    assert (genuine (EPut (g_origin g) (g_via g) r :: r_log s) (mt_touch t r)) as Hgen
      by (eapply ro_genuine, (Hnew (mt_RequestID r)); by rewrite lookup_insert_eq).
    apply (world_note _ _ _ _ [mt_touch t r]) in Hw1; [|by apply Forall_singleton].
    assert (journal_ok (EJournaled (mt_touch t r) :: EPut (g_origin g) (g_via g) r :: r_log s) (<[mt_RequestID r:=mt_touch t r]> (l_mem (r_journal s)))) as Hnew'.
    { eapply journal_ok_grow; [..|exact Hnew]; [intros x Hx; by right|by intros c [?|?]%elem_of_cons]. }
    split; [|split; [intros x Hx; by do 2 right|cbn; rewrite Hval; split; [done|intros _]]].
    + apply (world_journal cf answer _ w) in Hw1; [done|by rewrite Hmem|destruct Hdisk as [t' Hd]; unfold disk_ok; by rewrite Hd|].
      rewrite Hmem. apply held_insert; [apply (w_held _ _ _ _ Hw1)|by left].
    + split; [|exists t; by left]. split; [exists (g_origin g), (g_via g), r; split; [by right; left|done]|].
      intros p Hres. destruct Hp as [_ _ Hnone _]. by rewrite Hnone in Hres.
Qed.

Lemma advance_identity cur next : advance cur next → identity next = identity cur.
Proof. by destruct 1. Qed.
Lemma advance_crossed cur next : advance cur next → crossed cur → crossed next.
Proof. intros Ha Hc. unfold crossed in *. destruct Ha; destruct Hc; rewrite ?H0, ?H1 in *; auto; congruence. Qed.
(** A record that advanced is right for a log that has its new result. *)
Lemma advance_record L L' id cur next t : record_ok L id cur → advance cur next → L ⊆ L' →
  (∀ c, EStart c ∈ L' → EStart c ∈ L) →
  (∀ p, mt_Result cur = None → mt_Result next = Some p → EResult (mt_ExecutionClaimID next) p ∈ L') →
  record_ok L' id (mt_touch t next).
Proof.
  intros [Hid [(who & v & r0 & Hp & Hi) Hg] Hs Hr] Ha HL Hback Hnew.
  apply advance_identity in Ha as Hident. destruct (identity_fields _ _ Hident) as (Hrid & Hclaim & _).
  constructor; cbn.
  - congruence.
  - split; [exists who, v, r0; split; [by apply HL|]; cbn; rewrite Hi; by rewrite <- Hident|]. cbn. intros p Hp'.
    destruct (mt_Result cur) as [q|] eqn:Hq; [|by apply Hnew].
    assert (q = p) as -> by (destruct Ha; congruence). rewrite Hclaim. apply HL. by apply Hg.
  - intros Hst. rewrite Hclaim in Hst. apply (advance_crossed cur next Ha), Hs, Hback. done.
  - intros [p Hp']. destruct Ha; [rewrite H0|..]; [|exfalso..|]; try done; try (rewrite H1; apply Hr); try (apply Hr; rewrite <- H1; by exists p);
      rewrite H2 in Hp'; specialize (Hr (ex_intro _ p Hp')); congruence.
Qed.

Lemma update_chooses_next m id f cur next : m !! id = Some cur → f cur = Some next →
  update_chooses m id f = match mt_Result cur, mt_Result next with None, Some p => Some (mt_ExecutionClaimID next, p) | _, _ => None end.
Proof. intros Hm Hf. unfold update_chooses. by rewrite Hm; simpl; rewrite Hf. Qed.
(** The update's marks and entries, apart from a crossed boundary. *)
Lemma world_choose id f g gs s : world_ok (g :: gs) s → pre cf (OUpdate id f) g (r_log s) →
  let m := l_mem (r_journal s) in
  let L1 := (match update_chooses m id f with Some (c, p) => [EResult c p] | None => [] end) in
  world_ok ((match update_chooses m id f with Some (c, _) => spend [TResult c] g | None => g end) :: gs) (add_log L1 s).
Proof.
  intros Hw Hp m L1. unfold L1. destruct (update_chooses m id f) as [[c p]|] eqn:Hc; [|by destruct Hw].
  unfold update_chooses in Hc. destruct (m !! id) as [cur|] eqn:Hm; [|done]. simpl in Hc. destruct (f cur) as [next|] eqn:Hf; [|done].
  simpl in Hc. destruct (mt_Result cur) eqn:Hr; [done|]. destruct (mt_Result next) as [q|] eqn:Hn; [|done]. injection Hc as <- <-.
  destruct (Hp cur next) as [_ Ht]; [by apply (w_journal _ _ _ _ Hw)|done|]. destruct (Ht q Hr Hn) as [Htok Hq].
  eapply world_log; [done|done| |done..]. apply spend_perm; [by eapply world_own_tokens|].
  by apply singleton_submseteq_l.
Qed.

(** The journal the update writes, before a crossed boundary is logged. *)
Lemma update_journal_ok id f g gs s next : world_ok (g :: gs) s → pre cf (OUpdate id f) g (r_log s) →
  updates (r_journal s) id f next →
  journal_ok ((match update_chooses (l_mem (r_journal s)) id f with Some (c, p) => [EResult c p] | None => [] end) ++ r_log s)
    (<[id:=next]> (l_mem (r_journal s))).
Proof.
  intros Hw Hp (cur & n & t & Hcur & Hf & Hid & Hval & ->). destruct (w_journal _ _ _ _ Hw) as [Hm _].
  set (L1 := match update_chooses _ _ _ with Some _ => _ | None => _ end).
  assert (∀ c, EStart c ∈ L1 ++ r_log s → EStart c ∈ r_log s) as Hback.
  { intros c [Hin|?]%elem_of_app; [|done]. unfold L1 in Hin. destruct (update_chooses _ _ _) as [[]|]; [|by apply elem_of_nil in Hin].
    by apply list_elem_of_singleton in Hin. }
  intros id' r [[<- <-]|[Hne Hr]]%lookup_insert_Some; [|eapply record_ok_grow; [apply subset_nil|done|by apply Hm]].
  specialize (Hm _ _ Hcur). destruct (Hp cur n Hm Hf) as [Ha _].
  eapply advance_record; [done|done|apply subset_nil|done|]. intros p Hcn Hnn. unfold L1.
  rewrite (update_chooses_next _ _ _ _ _ Hcur Hf), Hcn, Hnn. by left.
Qed.

(** Other records do not carry the claim that starts. *)
Lemma start_journal_ok L m id next : NoDup (L ≫= used) → journal_ok L m → m !! id = Some next → mt_ExecutionClaimID next ≠ "" →
  mt_Phase next = mutationRuntimeStarted → journal_ok (EStart (mt_ExecutionClaimID next) :: L) m.
Proof.
  intros Hn Hm Hnext Hne Hph id' r Hr. destruct (Hm _ _ Hr) as [Hid Hg Hs Hres]. constructor; [done| | |done].
  - eapply genuine_mono; [|done]. intros x Hx. by right.
  - intros [[= Heq]|Hin]%elem_of_cons; [|by apply Hs]. assert (id' = id) as ->; [|left; congruence].
    destruct (Hm _ _ Hnext) as [Hid' Hg' _ _]. rewrite <- Hid, <- Hid'.
    assert (identity next = identity r) as Hi; [by apply (genuine_claim L)|]. by apply identity_fields in Hi as (-> & _).
Qed.

(** An update that was written: its result is chosen, its record is seen, and
    the boundary it crosses is logged. *)
Lemma update_written id f g gs s w next : world_ok (g :: gs) s → pre cf (OUpdate id f) g (r_log s) →
  updates (r_journal s) id f next → journaled (r_journal s) (<[id:=next]> (l_mem (r_journal s))) w →
  let m := l_mem (r_journal s) in
  world_ok (update_ghost m id f (inr next) g :: gs) (add_log (update_log m id f (inr next) w) (with_journal w s)) ∧
  recorded (update_log m id f (inr next) w ++ r_log s) next ∧ mt_RequestID next = id.
Proof.
  intros Hw Hp Hu [Hmem Hdisk] m. pose proof (world_choose id f g gs s Hw Hp) as Hw1. cbn zeta in Hw1.
  pose proof (update_journal_ok id f g gs s next Hw Hp Hu) as Hjournal.
  unfold update_ghost, update_log, journaled_log. rewrite (file_of_disk _ _ Hdisk), lookup_insert_eq. fold m in Hmem, Hdisk, Hw1, Hjournal |- *.
  set (L1 := match update_chooses m id f with Some _ => _ | None => [] end) in *.
  set (g1 := match update_chooses m id f with Some _ => _ | None => g end) in *.
  assert (record_ok (L1 ++ r_log s) id next) as Hrec by (apply Hjournal; by rewrite lookup_insert_eq).
  apply (world_note _ _ _ _ [next]) in Hw1; [|apply Forall_singleton, Hrec].
  change (add_log _ (add_log L1 s)) with (add_log ([EJournaled next] ++ L1) s) in Hw1. set (L2 := [EJournaled next] ++ L1) in *.
  assert (L1 ++ r_log s ⊆ L2 ++ r_log s) as Hsub by (intros x Hx; by right).
  assert (journal_ok (L2 ++ r_log s) (<[id:=next]> m)) as Hj2.
  { eapply journal_ok_grow; [exact Hsub| |exact Hjournal]. by intros c [?|?]%elem_of_cons. }
  assert (held_ok (L2 ++ r_log s) (l_mem w)) as Hh2.
  { rewrite Hmem. apply held_insert; [apply (w_held _ _ _ _ Hw1)|by left]. }
  destruct Hu as (cur & n & t & Hcur & Hf & Hid & Hval & Hnext). split; [|split; [|by destruct Hrec]].
  2: { rewrite <- app_assoc. eapply recorded_mono; [apply subset_nil|].
       split; [by eapply genuine_mono, Hrec|]. exists (mt_UpdatedAt next). rewrite touch_touch. by left. }
  destruct (update_starts m id (inr next)) as [c|] eqn:Hst.
  2: { apply (world_journal cf answer _ w) in Hw1; [done|by rewrite Hmem| |done]. destruct Hdisk as [t' Hd]. unfold disk_ok. by rewrite Hd. }
  unfold update_starts in Hst. unfold m in Hst at 1. rewrite Hcur in Hst. cbn in Hst.
  destruct (_ && _) eqn:Hph in Hst; [|done]. injection Hst as <-. orb_split.
  assert (mt_ExecutionClaimID next ≠ "") as Hne.
  { subst next. cbn in *. unfold validateMutationRecord, validateMutationRecordWithLegacy, phase_ok in Hval. orb_split.
    replace (mt_Phase n) with mutationRuntimeStarted in * by done. orb_split. done. }
  assert (NoDup ((L2 ++ r_log s) ≫= used)) as Hnd by (eapply all_tokens_log; apply (w_tokens _ _ _ _ Hw1)).
  assert (journal_ok (EStart (mt_ExecutionClaimID next) :: L2 ++ r_log s) (<[id:=next]> m)) as Hm2
    by (eapply start_journal_ok; [done|exact Hj2|by rewrite lookup_insert_eq|done|done]).
  eapply (world_start _ _ _ _ _ w) in Hw1; [exact Hw1|done| | |by rewrite Hmem| |exact Hh2].
  - intros Hin. destruct (proj1 (w_journal _ _ _ _ Hw1) id cur Hcur) as [_ _ Hcr _].
    destruct (Hp cur n) as [Ha _]; [by apply (w_journal _ _ _ _ Hw)|done|].
    apply advance_identity, identity_fields in Ha as (_ & Ha & _). subst next. cbn in Hin. rewrite Ha in Hin.
    destruct (Hcr Hin); congruence.
  - exists next. split; [|done]. eapply genuine_mono, Hrec. exact Hsub.
  - unfold disk_ok. destruct Hdisk as [t' ->]. exact Hm2.
Qed.

Lemma sound_update id f : sound_op (OUpdate id f).
Proof.
  intros g gs s b g' s' st Hw Hp _ He. pose proof (wp_mutation_Update id f (r_journal s)) as Hwp. unfold wp in Hwp.
  cbn [exec] in He. destruct (mutation_Update id f (r_journal s)) as [w res]. injection He as <- <- <- _.
  destruct res as [e|next].
  - pose proof (world_choose id f g gs s Hw Hp) as Hw1. cbn zeta in Hw1.
    assert (update_starts (l_mem (r_journal s)) id (inl e) = None) as Hst by (unfold update_starts; by destruct (_ !! id)).
    split; [|split; [apply subset_nil|cbn; eexists; split; [done|by intros]]]. unfold update_ghost, update_log. rewrite Hst. cbn [app journaled_log].
    apply (world_journal cf answer _ w) in Hw1; [exact Hw1|..].
    3: { replace (l_mem w) with (l_mem (r_journal s)); [apply (w_held _ _ _ _ Hw1)|]. by destruct Hwp as [->|(next & _ & -> & _)]. }
    all: destruct Hwp as [->|(next & Hu & Ht)]; [apply (w_journal _ _ _ _ Hw1)|];
      (eapply moved_ok; [apply (w_journal _ _ _ _ Hw1)|by eapply update_journal_ok|by apply undone_moved]).
  - destruct Hwp as [Hu Hj]. destruct (update_written id f g gs s w next Hw Hp Hu Hj) as (Hw' & Hrec & Hid).
    split; [exact Hw'|split; [apply subset_nil|]]. cbn. eexists. split; [done|]. intros next' [= <-].
    destruct Hu as (cur & n & t & Hcur & Hf & _ & _ & Hnext). by exists cur, n, t.
Qed.

Lemma sound_remove id : sound_op (ORemove id).
Proof.
  intros g gs s b g' s' st Hw Hp _ He. pose proof (wp_mutation_Remove id (r_journal s)) as Hwp. unfold wp in Hwp.
  cbn [exec] in He. destruct (mutation_Remove id (r_journal s)) as [w res]. injection He as <- <- <- _. split; [|done].
  assert (held_ok (r_log s) (l_mem w)) as Hh.
  { pose proof (w_held _ _ _ _ Hw) as Hh. destruct res; [by rewrite (proj1 Hwp)|]. destruct Hwp as [[-> _]|[-> _]]; [done|].
    intros id' r [_ Hr]%lookup_delete_Some. by apply (Hh id'). }
  assert (journal_ok (r_log s) (delete id (l_mem (r_journal s)))) as Hd.
  { intros id' r [_ Hr]%lookup_delete_Some. by apply (w_journal _ _ _ _ Hw). }
  assert (journal_ok (r_log s) (l_mem w) ∧ disk_ok (r_log s) w) as [? ?]; [|by apply world_journal].
  eapply moved_ok; [apply (w_journal _ _ _ _ Hw)|exact Hd|].
  destruct res; [by apply undone_moved|]. destruct Hwp as [[-> _]|?]; [apply moved_refl|by apply journaled_moved].
Qed.
(** What a reload, or a start, puts in memory was in the file. *)
Lemma reload_ok L w : journal_ok L (l_mem w) ∧ disk_ok L w →
  journal_ok L (l_mem (mutation_Reload w).1) ∧ disk_ok L (mutation_Reload w).1.
Proof.
  intros [Hm Hd]. pose proof (wp_mutation_Reload w) as Hwp. unfold wp in Hwp. unfold disk_ok in *.
  destruct (mutation_Reload w) as [w' [e|[]]]; cbn.
  - destruct Hwp as [->|(Hf & -> & [-> | [t ->]])]; [done|split; [by intros ??|done]|split; by intros ??].
  - destruct Hwp as [(Hf & -> & [t ->])|(sn & Hf & Hf' & -> & _)]; [split; by intros ??|]. rewrite Hf', Hf in *. done.
Qed.
(** What it puts in memory is what the file then holds. *)
Lemma reload_seen L w : journal_ok L (l_mem w) ∧ disk_ok L w → held_ok L (l_mem w) →
  let (w', r) := mutation_Reload w in
  ∃ l, reloaded_log r w' = EJournaled <$> l ∧ Forall (genuine L) l ∧ held_ok (reloaded_log r w' ++ L) (l_mem w').
Proof.
  intros Hw Hh. pose proof (reload_ok L w Hw) as [Hm Hd]. pose proof (wp_mutation_Reload w) as Hwp. unfold wp in Hwp.
  destruct (mutation_Reload w) as [w' [e|[]]]; cbn [fst] in *.
  - exists []. split; [done|]. split; [constructor|]. destruct Hwp as [->|(_ & -> & _)]; [done|by intros ??].
  - exists (map_to_list (file_records w')).*2. split; [done|]. split.
    + apply Forall_forall. intros r ([id x] & -> & Hin%elem_of_map_to_list)%list_elem_of_fmap. unfold file_records, disk_ok in *.
      destruct (l_file w') as [| | |sn]; try done. by eapply ro_genuine, (Hd id).
    + assert (l_mem w' = file_records w') as ->.
      { destruct Hwp as [(_ & Hmem & Hdisk)|(sn & Hf & Hf' & -> & _)]; [by rewrite (file_of_disk _ _ Hdisk)|].
        unfold file_records. by rewrite Hf', Hf. }
      intros id r Hr%elem_of_map_to_list. apply elem_of_app. left. apply list_elem_of_fmap. exists r. split; [done|].
      apply list_elem_of_fmap. by exists (id, r).
Qed.
Lemma sound_reload : sound_op OReload.
Proof.
  intros g gs s b g' s' st Hw Hp _ He. pose proof (reload_ok _ _ (w_journal _ _ _ _ Hw)) as [Hm Hd].
  pose proof (reload_seen _ _ (w_journal _ _ _ _ Hw) (w_held _ _ _ _ Hw)) as Hseen.
  cbn [exec] in He. destruct (mutation_Reload (r_journal s)) as [w res]. injection He as <- <- <- _.
  destruct Hseen as (l & Hl & Hg & Hh). rewrite Hl in *. split; [|split; [apply subset_nil|done]].
  assert (world_ok (g :: gs) (add_log (EJournaled <$> l) s)) as Hw1 by by apply world_note.
  assert (∀ c, EStart c ∈ (EJournaled <$> l) ++ r_log s → EStart c ∈ r_log s) as Hback.
  { intros c [(r & ? & _)%list_elem_of_fmap|?]%elem_of_app; done. }
  apply (world_journal cf answer _ w) in Hw1; [done|..|exact Hh].
  - apply (journal_ok_grow (r_log s)); [apply subset_nil|exact Hback|exact Hm].
  - apply (disk_ok_grow (r_log s)); [apply subset_nil|exact Hback|exact Hd].
Qed.

(** ** Every operation *)

(** Operations on what the invariant does not mention. *)
Lemma world_other gs s s' : world_ok gs s → r_log s' = r_log s → r_ticks s' = r_ticks s → r_journal s' = r_journal s →
  r_pending s' = r_pending s → r_locks s' = r_locks s → r_authority s' = r_authority s → world_ok gs s'.
Proof. intros [H1 H2 H3 H4 H5 H6 H7] E1 E2 E3 E4 E5 E6. constructor; rewrite ?E1, ?E2, ?E3, ?E4, ?E5, ?E6; done. Qed.
Lemma sound_other {B} (o : op B) :
  match o with
  | OSession _ | OApprovals _ | OActiveAny | OActive _ | OStart _ | OFinish _ | OCurrentRun | ORunning | OSetRunning _ => True
  | _ => False
  end → sound_op o.
Proof.
  intros Ho g gs s b0 g' s' st Hw _ _ He.
  destruct o; try done; cbn in He; repeat case_match; injection He as <- <- <- _; 
    (split; [by eapply world_other|done]).
Qed.
Lemma sound_read {B} (o : op B) : match o with OPendingGet _ | OJournalGet _ | OJournalList => True | _ => False end → sound_op o.
Proof.
  intros Ho g gs s b0 g' s' st Hw _ _ He. destruct (w_journal _ _ _ _ Hw) as [Hm _].
  destruct o; try done; cbn in He; injection He as <- <- <- _; (split; [done|split; [done|split; [done|]]]).
  - intros p Hp. by apply (w_pending _ _ _ _ Hw).
  - intros r Hr. split; [by apply (Hm _ _ Hr)|]. apply recorded_seen; [by eapply ro_genuine, (Hm id)|by apply (w_held _ _ _ _ Hw id)].
  - apply Forall_forall. intros r. rewrite merge_sort_Permutation. intros ([id r'] & -> & Hin)%list_elem_of_fmap.
    apply elem_of_map_to_list in Hin. apply recorded_seen; [by eapply ro_genuine, (Hm id)|by apply (w_held _ _ _ _ Hw id)].
Qed.

Theorem exec_sound {B} (o : op B) : sound_op o.
Proof.
  destruct o; first [by apply sound_ext|by apply sound_lock|by apply sound_slot|by apply sound_unlock|by apply sound_authority
    |by apply sound_set_authority|by apply sound_pending|by apply sound_match|by apply sound_put|by apply sound_update
    |by apply sound_remove|by apply sound_reload|by apply sound_other|by apply sound_read].
Qed.
End step.
