(* ===== verification/ServiceRules.v ===== *)
(** * Rules for the service's programs

    Derived rules of [safe] for the combinators the service is written with,
    what a call leaves unchanged of a goroutine's marks ([keeps]), and the
    tactics that walk through a method. *)

From S2P Require Import Prelude GoString Protocol Policy LocalStore ApprovalStore Binding ReceiverStores MutationStore Prog Service SafeLogic.

(** ** What a call keeps *)

Record keeps (g g' : ghost) : Prop := mkKeeps {
  k_origin : g_origin g' = g_origin g;
  k_locks : g_locks g' = g_locks g;
  k_via : g_via g' = g_via g;
  k_authority : ∀ a, LDecision ∈ g_locks g → g_authority g = Some a → g_authority g' = Some a }.
#[export] Instance keeps_preorder : PreOrder keeps.
Proof.
  split; [by intros g; constructor|]. intros g1 g2 g3 [H1 H2 H3 H4] [H5 H6 H7 H8].
  constructor; try congruence. intros a Hd Ha. apply H8; [by rewrite H2|by apply H4].
Qed.
(** Its rights too. *)
Definition steady (g g' : ghost) : Prop := keeps g g' ∧ g_tokens g' = g_tokens g.
#[export] Instance steady_preorder : PreOrder steady.
Proof. split; [by intros g|]. intros g1 g2 g3 [H1 H2] [H3 H4]. split; [by etrans|congruence]. Qed.
Lemma steady_keeps g g' : steady g g' → keeps g g'.
Proof. by intros [? _]. Qed.
(** Only what it was started for and the locks it holds. *)
Definition parks (g g' : ghost) : Prop := g_origin g' = g_origin g ∧ g_locks g' = g_locks g.
#[export] Instance parks_preorder : PreOrder parks.
Proof. split; [by intros g|]. intros g1 g2 g3 [? ?] [? ?]. split; congruence. Qed.
Lemma keeps_parks g g' : keeps g g' → parks g g'.
Proof. by intros [? ? _ _]. Qed.

Lemma keeps_tokens l g : keeps g (set_tokens l g).
Proof. by constructor. Qed.
Lemma keeps_ext {B} (x : ext B) b g : keeps g (ext_ghost x b g).
Proof. destruct x; cbn; try reflexivity; case_match; try reflexivity; apply keeps_tokens. Qed.
Lemma keeps_update m id f r g : keeps g (update_ghost m id f r g).
Proof.
  unfold update_ghost. destruct (update_chooses m id f) as [[c p]|], (update_starts m id r); try reflexivity;
    try apply keeps_tokens. etrans; apply keeps_tokens.
Qed.

(** The goroutine does not hold the run lock. *)
Definition off_run (g : ghost) : Prop := LRun ∉ g_locks g.
Lemma off_run_keeps g g' : keeps g g' → off_run g → off_run g'.
Proof. intros [_ Hl _ _]. unfold off_run. by rewrite Hl. Qed.
Lemma off_run_parks g g' : parks g g' → off_run g → off_run g'.
Proof. intros [_ Hl]. unfold off_run. by rewrite Hl. Qed.
Lemma low_off_run g k : Forall (λ h, lock_rank h < k)%nat (g_locks g) → (k ≤ 6)%nat → off_run g.
Proof. intros Hr Hk Hin. rewrite Forall_forall in Hr. specialize (Hr _ Hin). cbn in Hr. lia. Qed.

(** ** Rules *)

Section rules.
Context `{UT : UnicodeTables} (cf : Config).
Abbreviation safe := (safe cf).
Abbreviation pre := (pre cf).

Lemma learn_mono {B} (o : op B) g L L' b g' : L ⊆ L' → learn o g L b g' → learn o g L' b g'.
Proof.
  intros HL. destruct o; cbn; try done.
  - intros [? Hr]. split; [done|]. intros r Hb. destruct (Hr r Hb) as [? ?]. split; [done|by eapply recorded_mono].
  - intros [? Hr]. split; [done|]. eapply Forall_impl; [done|]. intros r. by apply recorded_mono.
  - intros [? Hr]. split; [done|]. intros Hb. eapply recorded_mono; [done|by apply Hr].
  - intros (m & ? & Hr). exists m. split; [done|]. intros next Hn. destruct (Hr next Hn) as (cur & n & t & ? & ? & ? & ? & ?).
    exists cur, n, t. split_and!; try done. by eapply recorded_mono.
Qed.

Lemma safe_op {B} (o : op B) (Q : B → ghost → list entry → Prop) g L :
  (∀ L', L ⊆ L' → pre o g L') →
  (∀ b g' L', L ⊆ L' → learn o g L' b g' → Q b g' L') → safe (perform o) Q g L.
Proof.
  intros Hp HQ. apply safe_perform; [done|]. intros b g' L2 HL2 Hl L3 HL3. apply HQ; [by etrans|by eapply learn_mono].
Qed.
Lemma safe_call {E A} (wrap : E → svc_error) (o : op (E + A)) (Q : svc_error + A → ghost → list entry → Prop) g L :
  (∀ L', L ⊆ L' → pre o g L') →
  (∀ r g' L', L ⊆ L' → learn o g L' r g' → Q (match r with inl e => inl (wrap e) | inr a => inr a end) g' L') →
  safe (call wrap o) Q g L.
Proof.
  intros Hp HQ. apply safe_bind. apply safe_op; [done|]. intros b g' L' HL Hl L1 HL1. apply HQ; [by etrans|by eapply learn_mono].
Qed.
Lemma safe_value {A} (a : A) (Q : A → ghost → list entry → Prop) g L : (∀ L', L ⊆ L' → Q a g L') → safe (Ret a) Q g L.
Proof. done. Qed.

Lemma safe_guard {A} (b : bool) e (f : () → SP A) Q g L :
  (b = true → ∀ L', L ⊆ L' → Q (inl e) g L') → (b = false → safe (f tt) Q g L) → safe (ebind (guard b e) f) Q g L.
Proof. destruct b; intros H1 H2; [intros L' HL; by apply H1|by apply H2]. Qed.
Lemma safe_pure {E A B} (wrap : E → svc_error) (r : E + A) (f : A → SP B) Q g L :
  (∀ e, r = inl e → ∀ L', L ⊆ L' → Q (inl (wrap e)) g L') → (∀ a, r = inr a → safe (f a) Q g L) →
  safe (ebind (pure wrap r) f) Q g L.
Proof. destruct r; intros H1 H2; [intros L' HL; by apply H1|by apply H2]. Qed.
Lemma safe_ret_ebind {A B} (r : svc_error + A) (f : A → SP B) Q g L :
  (∀ e, r = inl e → ∀ L', L ⊆ L' → Q (inl e) g L') → (∀ a, r = inr a → safe (f a) Q g L) → safe (ebind (Ret r) f) Q g L.
Proof. destruct r; intros H1 H2; [intros L' HL; by apply H1|by apply H2]. Qed.
Lemma safe_ok_ebind {A B} (a : A) (f : A → SP B) Q g L : safe (f a) Q g L → safe (ebind (ok a) f) Q g L.
Proof. done. Qed.

(** What follows a call, given what the call does. *)
Lemma safe_then {E A B} (p : prog (E + A)) (f : A → prog (E + B)) P Q g L :
  safe p P g L →
  (∀ e g' L', L ⊆ L' → P (inl e) g' L' → ∀ L1, L' ⊆ L1 → Q (inl e) g' L1) →
  (∀ a g' L', L ⊆ L' → P (inr a) g' L' → safe (f a) Q g' L') → safe (ebind p f) Q g L.
Proof.
  intros Hp He Hf. apply safe_bind. eapply safe_mono; [exact Hp|]. intros [e|a] g' L' HL HP; [|by apply Hf]. cbn.
  intros L1 HL1. by eapply He.
Qed.
Lemma safe_seq {A B} (p : prog A) (f : A → prog B) P Q g L :
  safe p P g L → (∀ a g' L', L ⊆ L' → P a g' L' → safe (f a) Q g' L') → safe (p ≫= f) Q g L.
Proof. intros Hp Hf. apply safe_bind. by eapply safe_mono. Qed.

(** Under a lock, whose rank is above those held. *)
Lemma difference_not_in (l : lock) ls : l ∉ ls → list_difference ls [l] = ls.
Proof.
  induction ls as [|x ls IH]; [done|]. rewrite not_elem_of_cons. intros [Hx Hls]. simpl.
  case_decide as Hd; [by apply list_elem_of_singleton in Hd as ->|]. by rewrite IH.
Qed.
Lemma difference_own (l : lock) ls : l ∉ ls → list_difference (l :: ls) [l] = ls.
Proof. intros Hl. simpl. case_decide as Hd; [|destruct Hd; by left]. by apply difference_not_in. Qed.
Lemma rank_not_held l ls : Forall (λ h, lock_rank h < lock_rank l)%nat ls → l ∉ ls.
Proof. rewrite Forall_forall. intros Hl Hin. specialize (Hl l Hin). cbn in Hl. lia. Qed.
Lemma lock_ghost_locks l g : g_locks (lock_ghost l g) = l :: g_locks g ∧ g_tokens (lock_ghost l g) = g_tokens g ∧
  g_origin (lock_ghost l g) = g_origin g.
Proof. unfold lock_ghost. by case_decide. Qed.

Lemma safe_with_lock {A} l (p : prog A) (Q : A → ghost → list entry → Prop) g L :
  Forall (λ h, lock_rank h < lock_rank l)%nat (g_locks g) →
  (∀ L', L ⊆ L' → safe p (λ a g' L1, g_locks g' = l :: g_locks g ∧ ∀ L2, L1 ⊆ L2 → Q a (set_locks (g_locks g) g') L2) (lock_ghost l g) L') →
  safe (with_lock l p) Q g L.
Proof.
  intros Hl Hp L1 HL1. split; [done|]. intros _ g1 L2 HL2 ->. apply safe_bind. eapply safe_mono; [apply Hp; by etrans|].
  cbn. intros a g' L' HL' [Hg HQ] L3 HL3. split; [rewrite Hg; by left|]. intros _ g2 L4 HL4 -> L5 HL5.
  rewrite Hg, difference_own by (by apply rank_not_held). apply HQ. by do 2 (etrans; [eassumption|]).
Qed.
End rules.

(** ** Tactics *)

(** What is known of the log is known of the longer one. *)
Ltac log_grows HL :=
  match type of HL with ?L ⊆ ?L' =>
    repeat match goal with
    | H : recorded L ?r |- _ => lazymatch goal with _ : recorded L' r |- _ => fail | _ => pose proof (recorded_mono L L' r HL H) end
    end
  end.
Ltac trans_log := first [assumption|reflexivity|match goal with H : ?b ⊆ ?c |- ?a ⊆ ?c => transitivity b; [trans_log|exact H] end].
Ltac keep :=
  first
  [ assumption | reflexivity
  | match goal with
    | H : steady ?a ?b |- steady ?c ?b => transitivity a; [keep|exact H]
    | H : keeps ?a ?b |- keeps ?c ?b => transitivity a; [keep|exact H]
    | H : steady ?a ?b |- keeps ?c ?b => transitivity a; [keep|apply steady_keeps; exact H]
    | H : parks ?a ?b |- parks ?c ?b => transitivity a; [keep|exact H]
    | H : keeps ?a ?b |- parks ?c ?b => transitivity a; [keep|apply keeps_parks; exact H]
    | H : steady ?a ?b |- parks ?c ?b => transitivity a; [keep|apply keeps_parks, steady_keeps; exact H]
    | |- keeps _ (set_tokens _ _) => etrans; [|apply keeps_tokens]; keep
    end ].
(** An error, or a success of which nothing is asked, ends a method. *)
Ltac leave := intros; first [done | split; [keep|done]].

(** The run lock is still not held. *)
Ltac off :=
  match goal with
  | H : off_run ?a |- off_run ?b => first [exact H | apply (off_run_parks a b); [keep|exact H]]
  end.
Ltac off_pre := intros; match goal with |- SafeLogic.pre _ _ ?g _ => change (off_run g); off end.

(** ** The pending inbox keys every notice by its request

    Every operation of the pending store, its load included, keeps
    [pending_ok], whatever its write does. *)

Abbreviation keyed := (map_Forall (λ id p, nt_RequestID (pe_Notice p) = id)).
Definition keeps_keyed {B} (m : PM B) : Prop := ∀ w, pending_ok w → wp m (λ _, pending_ok) (λ _, pending_ok) w.
Lemma keeps_keyed_run {B} (m : PM B) w : keeps_keyed m → pending_ok w → pending_ok (m w).1.
Proof. intros Hm Hw. specialize (Hm w Hw). unfold wp in Hm. by destruct (m w) as [w' []]. Qed.

(** A change of memory followed by a write. *)
Lemma write_keyed (w : pending_world) : pending_ok w → wp pending_write (λ _, pending_ok) (λ _, pending_ok) w.
Proof.
  intros [Hm Hf]. unfold pending_write. wp_step. apply wp_local_now. intros t _. wp_step. apply wp_get_mem.
  apply wp_write_file; cbn; [by intros|]. by intros ws f' [-> | ->].
Qed.
Lemma set_write_keyed m : keyed m → keeps_keyed (set_mem m ≫= λ _, pending_write).
Proof. intros Hm w [_ Hf]. wp_step. apply wp_set_mem, write_keyed. by split. Qed.

Lemma default_status_id n : nt_RequestID (default_status n) = nt_RequestID n.
Proof. unfold default_status. by case_bool_decide. Qed.
Lemma replace_loop_keyed m t l next : keyed next → keyed (replace_loop m t next l).
Proof.
  revert next. induction l as [|n l IH]; intros next Hn; cbn; [done|]. case_match; [by apply IH|]. apply IH, map_Forall_insert_2; [done|done].
Qed.

Lemma upsert_keyed n : keeps_keyed (pending_Upsert n).
Proof.
  intros w Hw. unfold pending_Upsert. wp_step. wp_step; [|done]. wp_step. apply wp_local_now. intros t _. wp_step. apply wp_get_mem.
  apply set_write_keyed; [|done]. apply map_Forall_insert_2; [done|apply Hw].
Qed.
Lemma update_status_keyed id st : keeps_keyed (pending_UpdateStatus id st).
Proof.
  intros w Hw. unfold pending_UpdateStatus. wp_step. apply wp_get_mem. destruct (l_mem w !! id) as [r|] eqn:Hr; [|by apply wp_throw].
  apply set_write_keyed; [|done]. apply map_Forall_insert_2; [|apply Hw]. cbn. by apply (proj1 Hw).
Qed.
Lemma remove_keyed id : keeps_keyed (pending_Remove id).
Proof.
  intros w Hw. unfold pending_Remove. wp_step. apply wp_get_mem. destruct (l_mem w !! id); [|by apply wp_ret].
  apply set_write_keyed; [|done]. apply map_Forall_delete, Hw.
Qed.
Lemma replace_keyed l : keeps_keyed (pending_Replace l).
Proof.
  intros w Hw. unfold pending_Replace. wp_step. apply wp_local_now. intros t _. wp_step. apply wp_get_mem.
  apply set_write_keyed; [|done]. by apply replace_loop_keyed, map_Forall_empty.
Qed.
Lemma load_keyed : keeps_keyed pending_load.
Proof.
  intros w Hw. unfold pending_load. wp_step. apply wp_read_file. destruct (l_file w) as [| | |sn] eqn:Hf; [by apply write_keyed|by apply wp_throw..|].
  destruct (negb _); [by apply wp_throw|]. wp_step. apply wp_get_mem. apply wp_set_mem. destruct Hw as [Hm Hd]. rewrite Hf in Hd.
  split; [|by cbn; rewrite Hf]. cbn. apply map_Forall_union_2; [|done]. intros id p [Hp _]%map_lookup_filter_Some. by apply Hd.
Qed.
Lemma new_keyed path ready : keeps_keyed (NewPendingStore path ready).
Proof.
  intros w Hw. unfold NewPendingStore. wp_step. wp_step; [|done]. wp_step. wp_step; [|done]. wp_step. apply wp_set_mem, load_keyed.
  by split; [apply map_Forall_empty|apply Hw].
Qed.
