(* ===== verification/ServiceSafe.v ===== *)
(** * The service respects its conditions

    Every method of the service, run by a goroutine, performs each operation
    under its condition: it sends only what was journaled, journals only with
    consent, and runs only what was approved. *)

From S2P Require Import Prelude GoString GoStringFacts Protocol Policy LocalStore ApprovalStore Binding ReceiverStores MutationStore Prog Service SafeLogic ServiceRules.

Section safe.
Context `{UT : UnicodeTables} (cf : Config).
Abbreviation safe := (safe cf).

(** [R] of the marks in any case, and [F] of a successful result. *)
Definition after {A} (R : ghost → Prop) (F : A → ghost → list entry → Prop) : svc_error + A → ghost → list entry → Prop :=
  λ r g' L', R g' ∧ match r with inl _ => True | inr a => F a g' L' end.
Definition nothing {A} : A → ghost → list entry → Prop := λ _ _ _, True.

(** ** Calls that leave the marks alone *)

Lemma plain_call {E A} (wrap : E → svc_error) (o : op (E + A)) (Q : svc_error + A → ghost → list entry → Prop) g L :
  (∀ L', L ⊆ L' → pre cf o g L') → (∀ L' b g', learn o g L' b g' → g' = g) →
  (∀ r L', L ⊆ L' → Q r g L') → safe (call wrap o) Q g L.
Proof. intros Hp Hl HQ. apply safe_call; [done|]. intros r g' L' HL ->%Hl. by apply HQ. Qed.
Lemma plain_op {B} (o : op B) (Q : B → ghost → list entry → Prop) g L :
  (∀ L', L ⊆ L' → pre cf o g L') → (∀ L' b g', learn o g L' b g' → g' = g) →
  (∀ b L', L ⊆ L' → Q b g L') → safe (perform o) Q g L.
Proof. intros Hp Hl HQ. apply safe_op; [done|]. intros r g' L' HL ->%Hl. by apply HQ. Qed.

Lemma pending_safe {B} (m : PM B) (Q : svc_error + B → ghost → list entry → Prop) g L : keeps_keyed m →
  (∀ r L', L ⊆ L' → Q r g L') → safe (call ErrPending (OPending m)) Q g L.
Proof. intros Hm HQ. apply plain_call; [|by intros|done]. intros L' _ w Hw. by apply keeps_keyed_run. Qed.
Lemma journal_get_safe id (Q : option mutationRecord → ghost → list entry → Prop) g L :
  (∀ r L', L ⊆ L' → (∀ x, r = Some x → mt_RequestID x = id ∧ recorded L' x) → Q r g L') → safe (journal_get id) Q g L.
Proof. intros HQ. apply safe_op; [done|]. intros r g' L' HL [-> Hr]. by apply HQ. Qed.
Lemma pending_get_safe id (Q : option PendingRecord → ghost → list entry → Prop) g L :
  (∀ r L', L ⊆ L' → (∀ x, r = Some x → nt_RequestID (pe_Notice x) = id) → Q r g L') → safe (perform (OPendingGet id)) Q g L.
Proof. intros HQ. apply safe_op; [done|]. intros r g' L' HL [-> Hr]. by apply HQ. Qed.

Lemma pending_remove_safe id g L : safe (pending_remove id) (after (eq g) nothing) g L.
Proof. apply pending_safe; [apply remove_keyed|]. by intros [] L' _. Qed.
Lemma pending_update_safe id st g L : safe (pending_update id st) (after (eq g) nothing) g L.
Proof. apply pending_safe; [apply update_status_keyed|]. by intros [] L' _. Qed.
Lemma forget_safe id g L : safe (forget id) (after (eq g) nothing) g L.
Proof.
  eapply safe_then; [apply pending_remove_safe|by intros|]. intros [] g' L' _ [<- _].
  apply plain_call; [done|by intros|]. by intros [] L1 _.
Qed.

(** ** Authority and notice *)

Lemma currentApprovalAuthority_safe g L :
  safe currentApprovalAuthority (after (steady g) (λ a g' _, g_authority g' = Some a)) g L.
Proof.
  apply safe_bind, safe_op; [done|]. intros a g' L' _ [-> Ha]. assert (steady g (set_seen a g)) as Hs.
  { split; [|done]. constructor; try done. intros a' Hd Hg. cbn. by rewrite (Ha Hd a' Hg). }
  case_match; [|]; intros L1 _; by split.
Qed.
Lemma requireCurrentApprovalAuthority_safe r g L : safe (requireCurrentApprovalAuthority r)
  (after (steady g) (λ _ g' _, g_authority g' = ok_option (normalizeApprovalAuthority (mutation_authority r)) ∧ is_Some (g_authority g'))) g L.
Proof.
  unfold requireCurrentApprovalAuthority. apply safe_ret_ebind; [leave|]. intros rec Hrec.
  eapply safe_then; [apply currentApprovalAuthority_safe|by intros e g' L' _ [? _] L1 _|].
  intros a g' L' _ [Hs Hg] L1 _. cbn. destruct (negb _) eqn:Heq; [by split|]. orb_split. subst a. split; [done|].
  unfold approvalAuthorityFromMutation in Hrec. destruct (_ || _); [done|]. destruct (normalizeApprovalAuthority _) as [|x]; [done|].
  injection Hrec as ->. by rewrite Hg.
Qed.
Lemma requireCurrentApprovedNotice_safe r g L :
  safe (requireCurrentApprovedNotice r) (after (eq g) (λ _ _ _, is_Some (mt_ApprovedNotice r))) g L.
Proof.
  unfold requireCurrentApprovedNotice. destruct (mt_ApprovedNotice r) as [b|]; [|by intros].
  apply safe_pure; [by intros|]. intros _ _. apply safe_bind, pending_get_safe. intros [p|] L' _ _; [|by intros].
  apply safe_pure; [by intros|]. intros _ _ L1 _. split; [done|]. by eexists.
Qed.

(** ** Random identifiers *)

Lemma newOpaqueID_safe prefix g L :
  safe (newOpaqueID prefix) (after (keeps g) (λ id g' _, g_tokens g' = TFresh id :: g_tokens g)) g L.
Proof.
  apply safe_bind, safe_op; [done|]. intros [id|] g' L' _ ->; intros L1 _; by split.
Qed.

(** ** Updates of the journal *)

(** An update that only moves a record along. *)
Definition only_advances (f : mutationRecord → option mutationRecord) : Prop :=
  ∀ cur next, f cur = Some next → advance cur next ∧ mt_Result next = mt_Result cur.
Lemma update_safe id f g L : only_advances f → safe (call ErrJournal (OUpdate id f))
  (after (keeps g) (λ next _ L', recorded L' next ∧ mt_RequestID next = id)) g L.
Proof.
  intros Hf. apply safe_call.
  - intros L' _ cur next _ Hn. destruct (Hf cur next Hn) as [Ha Hr]. split; [done|]. intros p Hnone Heq. congruence.
  - intros r g' L' _ (m & -> & Hr). split; [destruct r; apply keeps_update|]. destruct r as [|next]; [done|].
    by destruct (Hr next eq_refl) as (_ & _ & _ & _ & _ & _ & ? & ?).
Qed.
Lemma claim_update_advances op : only_advances (claim_update op).
Proof.
  intros cur next. unfold claim_update. destruct (_ || _); [done|]. case_bool_decide as Hp; intros [= <-]; (split; [|done]).
  - by apply advance_claim.
  - by apply advance_same.
Qed.
Lemma persisted_update_advances d level grant : only_advances (persisted_update d level grant).
Proof. intros cur next. unfold persisted_update. case_match; [done|]. intros [= <-]. split; [by apply advance_same|done]. Qed.

(** ** Relay calls of journaled operations *)

Lemma relay_safe {A} (x : ext (relay_error + A)) (Q : svc_error + A → ghost → list entry → Prop) g L :
  (∀ L', L ⊆ L' → ext_pre cf x g L') → (∀ b, ext_ghost x b g = g) → (∀ r L', L ⊆ L' → Q r g L') → safe (relay x) Q g L.
Proof. intros Hp Hx HQ. apply plain_call; [done| |done]. intros L' b g' Hl. cbn in Hl. by rewrite Hl, Hx. Qed.

Lemma replayPreparedResult_safe r g L : recorded L r → safe (replayPreparedResult r) (after (eq g) nothing) g L.
Proof.
  intros Hr. unfold replayPreparedResult. destruct (mt_Result r) as [p|] eqn:Hp; [|by intros].
  apply safe_guard; [by intros|]. intros Hg. orb_split.
  eapply (safe_then _ _ _ (after (eq g) nothing)); [|by intros|].
  - apply relay_safe; [|done|by intros [] L' _]. intros L' HL. exists r. split_and!; [by eapply recorded_mono|done..].
  - intros m g' L' HL [<- _]. apply safe_guard; [by intros|]. intros _. apply forget_safe.
Qed.
Lemma decide_relay_safe r g L : recorded L r →
  safe (relay (XDecide (mt_RequestID r) (decision_payload r))) (after (eq g) nothing) g L.
Proof. intros Hr. apply relay_safe; [|done|by intros [] L' _]. intros L' HL. exists r. split_and!; [by eapply recorded_mono|done..]. Qed.

(** ** Executions are started, and decisions acted upon *)

Lemma hasActive_safe {A} id (Q : svc_error + A → ghost → list entry → Prop) v g L : off_run g →
  (∀ L', L ⊆ L' → Q v g L') → safe (hasActiveRequest id ≫= λ _, Ret v) Q g L.
Proof. intros Hoff HQ. apply safe_bind, plain_op; [done|by intros|]. intros b L' HL L1 HL1. apply HQ. by etrans. Qed.

Lemma startExecution_safe id st g L : off_run g → safe (startExecution id st) (after (steady g) nothing) g L.
Proof.
  intros Hoff. unfold startExecution. apply safe_guard; [leave|]. intros _. apply safe_bind, journal_get_safe.
  intros [r|] L' HL Hr; [|leave]. destruct (Hr r eq_refl) as [Hid Hg]. clear Hr. case_bool_decide; [apply hasActive_safe; [done|leave]|].
  apply safe_guard; [leave|]. intros _. apply safe_guard; [leave|]. intros _.
  eapply (safe_then _ _ _ (after (steady g) nothing)); [|leave|].
  - case_bool_decide; [|leave]. eapply safe_then; [apply requireCurrentApprovalAuthority_safe|by intros e g' L1 _ [Hs _]; leave|].
    intros [] g' L1 HL1 [Hs _]. eapply safe_then; [apply requireCurrentApprovedNotice_safe|intros e g2 L2 _ [<- _]; leave|].
    intros p g2 L2 _ [<- _]. leave.
  - intros [] g' L1 _ [Hs _]. apply safe_bind, plain_op; [off_pre|by intros|]. intros [] L2 _; leave.
Qed.

Lemma handle_accepted_safe id op st g L : off_run g → safe (handle_accepted id op st) (after (keeps g) nothing) g L.
Proof.
  intros Hoff. unfold handle_accepted. apply safe_guard; [leave|]. intros _.
  eapply safe_then; [apply requireCurrentApprovalAuthority_safe|intros e g' L1 _ [Hs _]; leave|]. intros [] g1 L1 _ [Hs1 _].
  eapply safe_then; [apply requireCurrentApprovedNotice_safe|intros e g' L2 _ [<- _]; leave|]. intros p g2 L2 _ [<- _].
  eapply safe_then; [apply update_safe, claim_update_advances|intros e g' L3 _ [Hs _]; leave|]. intros cur g3 L3 _ [Hs3 _].
  assert (∀ A (f : () → SP A) Q L, (∀ L', safe (f ()) Q g3 L') → (∀ e L', Q (inl e) g3 L') → safe (ebind (pending_update id st) f) Q g3 L) as Hu.
  { intros A f Q L4 Hf He. eapply safe_then; [apply pending_update_safe|intros e g' L5 _ [<- _] L6 _; apply He|]. by intros [] g' L5 _ [<- _]. }
  assert (off_run g3) as Hoff3 by off. destruct (mt_Phase cur); [leave|..|leave].
  - apply Hu; [|leave]. intros L'. eapply safe_mono; [by apply startExecution_safe|]. intros [] g' L4 _ [Hs4 _]; leave.
  - apply Hu; [|leave]. intros L'. apply hasActive_safe; [done|leave].
  - apply safe_guard; [leave|]. intros _. apply Hu; [|leave]. intros L'. eapply safe_mono; [by apply startExecution_safe|].
    intros [] g' L4 _ [Hs4 _]; leave.
Qed.
Lemma eq_keeps {A} F (p : SP A) g L : safe p (after (eq g) F) g L → safe p (after (keeps g) F) g L.
Proof. intros Hp. eapply safe_mono; [exact Hp|]. by intros r g' L' _ [<- ?]. Qed.
Lemma handleDecisionMutation_safe id op st g L : off_run g → recorded L op → safe (handleDecisionMutation id op st) (after (keeps g) nothing) g L.
Proof.
  intros Hoff Hop. unfold handleDecisionMutation. destruct st; try leave; try (by apply handle_accepted_safe); try (apply eq_keeps, forget_safe).
  all: destruct (_ && _); apply eq_keeps; [by apply replayPreparedResult_safe|apply forget_safe].
Qed.
Lemma decide_and_handle_safe op g L : off_run g → recorded L op → safe (decide_and_handle (mt_RequestID op) op) (after (keeps g) nothing) g L.
Proof.
  intros Hoff Hop. unfold decide_and_handle. eapply safe_then; [by apply decide_relay_safe|intros e g' L1 _ [<- _]; leave|].
  intros m g1 L1 HL1 [<- _]. apply safe_ret_ebind; [leave|]. intros st _.
  eapply safe_then; [apply handleDecisionMutation_safe; [done|by eapply recorded_mono]|intros e g' L2 _ [Hs _]; leave|].
  intros [] g2 L2 _ [Hs _]. leave.
Qed.
Lemma commitAllowOnce_safe op g L : off_run g → recorded L op → safe (commitAllowOnce (mt_RequestID op) op) (after (keeps g) nothing) g L.
Proof.
  intros Hoff Hop. unfold commitAllowOnce.
  eapply safe_then; [apply requireCurrentApprovalAuthority_safe|intros e g' L1 _ [Hs _]; leave|]. intros [] g1 L1 HL1 [Hs1 _].
  eapply safe_then; [apply requireCurrentApprovedNotice_safe|intros e g' L2 _ [<- _]; leave|]. intros p g2 L2 HL2 [<- _].
  eapply safe_mono; [apply decide_and_handle_safe; [off|]; eapply recorded_mono; [|done]; by etrans|].
  intros r g' L3 _ [Hs3 ?]. split; [keep|done].
Qed.

(** ** Journaling a decision *)

(** What a locked section keeps is kept. *)
Lemma keeps_locked l g g' : Forall (λ h, lock_rank h < lock_rank l)%nat (g_locks g) → keeps (lock_ghost l g) g' →
  g_locks g' = l :: g_locks g ∧ keeps g (set_locks (g_locks g) g').
Proof.
  intros Hr%rank_not_held [H1 H2 H3 H4]. destruct (lock_ghost_locks l g) as (Hl & _ & Ho). split; [congruence|].
  unfold lock_ghost in *. case_decide as Hd.
  - subst l. by constructor.
  - constructor; try done. intros a Ha Hg. apply H4; [by right|done].
Qed.
Lemma safe_locked {A} l (p : SP A) F g L : Forall (λ h, lock_rank h < lock_rank l)%nat (g_locks g) →
  (∀ a g1 g2 L1 L2, L1 ⊆ L2 → F a g1 L1 → F a g2 L2) →
  (∀ L', L ⊆ L' → safe p (after (keeps (lock_ghost l g)) F) (lock_ghost l g) L') →
  safe (with_lock l p) (after (keeps g) F) g L.
Proof.
  intros Hr HF Hp. apply safe_with_lock; [done|]. intros L' HL. eapply safe_mono; [by apply Hp|].
  intros a g' L1 _ [Hk Ha]. destruct (keeps_locked l g g' Hr Hk) as [Hl Hk']. split; [done|]. intros L2 HL2. split; [done|].
  destruct a as [|a]; [done|]. by eapply HF.
Qed.

(** The recipient asked for it, or a matched grant covers the notice. *)
Definition covered_by_grant (g : ghost) (n : RequestNotice) (level : ApprovalLevel) (grantID : string) : Prop :=
  ∃ a c gr, g_via g = Some (a, c, gr) ∧ approvalCandidateForNotice n = inr c ∧ g_authority g = Some a ∧
    gr_GrantID gr = grantID ∧ gr_Level gr = level.
Definition consent_given (g : ghost) (n : RequestNotice) (level : ApprovalLevel) (grantID : string) : Prop :=
  LDecision ∈ g_locks g ∧ (user_choice (g_origin g) (nt_RequestID n) ∨ covered_by_grant g n level grantID).
Lemma consent_keeps g g' n level grantID : keeps g g' → consent_given g n level grantID → consent_given g' n level grantID.
Proof.
  intros [H1 H2 H3 H4] [Hd Hc]. split; [by rewrite H2|]. destruct Hc as [?|(a & c & gr & ? & ? & ? & ? & ?)]; [left; by rewrite H1|right].
  exists a, c, gr. rewrite H3. split_and!; try done. by apply H4.
Qed.

Lemma allow_binding_safe n decision g L : safe (allow_binding n decision)
  (after (steady g) (λ bound g' _, if decide (decision = DecisionAllowOnce)
     then ∃ a b, bound = Some (a, b) ∧ approvedNoticeBindingFor n = inr b ∧ g_authority g' = Some a else bound = None)) g L.
Proof.
  unfold allow_binding. case_bool_decide as Hd; [|intros L1 _; split; [keep|]; by rewrite decide_False].
  eapply safe_then; [apply currentApprovalAuthority_safe|intros e g' L1 _ [Hs _]; leave|]. intros a g1 L1 _ [Hs1 Ha].
  apply safe_pure; [leave|]. intros b Hb L2 _. split; [done|]. rewrite decide_True by done. by exists a, b.
Qed.

Definition bound_of (n : RequestNotice) (decision : Decision_) (bound : option (ApprovalAuthority * approvedNoticeBinding)) (g : ghost) : Prop :=
  if decide (decision = DecisionAllowOnce)
  then ∃ a b, bound = Some (a, b) ∧ approvedNoticeBindingFor n = inr b ∧ g_authority g = Some a else bound = None.
Lemma new_operation_consented g n decision level grantID persisted bound decisionID claim :
  (decision = DecisionAllowOnce → consent_given g n level grantID) → bound_of n decision bound g →
  consented (g_origin g) (g_via g) (new_operation n decision level grantID persisted bound decisionID claim).
Proof.
  intros Hc Hb Hallow. assert (decision = DecisionAllowOnce) as Hd by (by destruct bound as [[]|]).
  unfold bound_of in Hb. rewrite decide_True in Hb by done. destruct Hb as (a & b & -> & Hb & Ha). destruct (Hc Hd) as [_ Hg].
  exists n, b. split_and!; try done. destruct Hg as [Hu|(a' & c & gr & Hv & Hcand & Ha' & Hid & Hlv)]; [by left|right].
  exists a', c, gr. split_and!; try done. assert (a = a') as -> by congruence. by destruct a'.
Qed.
Lemma journal_decision_safe n decision level grantID persisted bound g L :
  (decision = DecisionAllowOnce → consent_given g n level grantID) →
  bound_of n decision bound g → LDecision ∈ g_locks g →
  safe (journal_decision n decision level grantID persisted bound)
    (after (keeps g) (λ r _ L', recorded L' r ∧ mt_RequestID r = nt_RequestID n)) g L.
Proof.
  intros Hc Hb Hd. unfold journal_decision. eapply safe_then; [apply newOpaqueID_safe|intros e g' L1 _ [Hs _]; leave|].
  intros did g1 L1 _ [Hk1 Ht1].
  eapply (safe_then _ _ _ (after (keeps g1) (λ c g' _, put_tokens (new_operation n decision level grantID persisted bound did c) ⊆+ g_tokens g'))).
  - destruct bound as [[a b]|]; cbn [new_operation].
    + eapply safe_mono; [apply newOpaqueID_safe|]. intros r g2 L2 _ [Hk2 Ht2]. split; [done|]. destruct r as [|c]; [done|].
      rewrite Ht2, Ht1. unfold put_tokens; cbn. case_bool_decide.
      * apply submseteq_cons, submseteq_skip, submseteq_nil_l.
      * rewrite Permutation_swap. do 2 apply submseteq_skip. apply submseteq_nil_l.
    + intros L2 _. split; [done|]. rewrite Ht1. apply submseteq_skip, submseteq_nil_l.
  - intros e g2 L2 _ [Hk2 _]; leave.
  - intros c g2 L2 _ [Hk2 Ht2]. assert (keeps g g2) as Hk by keep.
    assert (bound_of n decision bound g2) as Hb2.
    { unfold bound_of in *. case_decide; [|done]. destruct Hb as (a & b & ? & ? & ?). exists a, b. split_and!; try done. by apply (k_authority g g2). }
    eapply (safe_then _ _ _ (after (keeps g2) (λ _ _ L', recorded L' (new_operation n decision level grantID persisted bound did c)))).
    + apply safe_call.
      * intros L' _. constructor; [done|by destruct bound as [[]|]..|]. apply new_operation_consented; [|done].
        intros Hd'. by eapply consent_keeps; [|apply Hc].
      * intros r g3 L3 _ [-> Hr]. split; [case_match; [apply keeps_tokens|done]|]. destruct r as [|[]]; [done|by apply Hr].
    + intros e g3 L3 _ [Hk3 _]; leave.
    + intros [] g3 L3 _ [Hk3 Hg3] L4 HL4. split; [keep|]. split; [by eapply recorded_mono|by destruct bound as [[]|]].
Qed.
Lemma prepareDecision_safe n decision level grantID persisted g L :
  Forall (λ h, lock_rank h < 3)%nat (g_locks g) → LDecision ∈ g_locks g →
  (decision = DecisionAllowOnce → consent_given g n level grantID) →
  safe (prepareDecision n decision level grantID persisted)
    (after (keeps g) (λ r _ L', recorded L' r ∧ mt_RequestID r = nt_RequestID n)) g L.
Proof.
  intros Hr Hd Hc. apply safe_locked; [done|by intros r ? ? L1 L2 HL [? ?]; split; [eapply recorded_mono|]|]. intros L' _.
  set (g1 := lock_ghost LMutation g). assert (LDecision ∈ g_locks g1) as Hd1 by (by right).
  eapply safe_then; [apply allow_binding_safe|intros e g' L1 _ [Hs _]; leave|]. intros bound g2 L1 _ [[Hk2 _] Hb].
  apply safe_bind, journal_get_safe. intros [e|] L2 HL2 He.
  - intros L3 HL3. split; [done|]. destruct (He e eq_refl) as [Hid Hg].
    assert (∀ r, reuse_operation e n decision level grantID bound = inr r → r = e) as Hsame.
    { intros r. unfold reuse_operation. repeat case_match; congruence. }
    destruct (reuse_operation e n decision level grantID bound) as [|r]; [done|]. rewrite (Hsame r eq_refl). split; [by eapply recorded_mono|done].
  - eapply safe_mono; [apply journal_decision_safe; [|exact Hb|by rewrite (k_locks _ _ Hk2)]|].
    + intros Ha. eapply consent_keeps; [exact Hk2|]. destruct (Hc Ha) as [_ Hcons]. split; [done|]. exact Hcons.
    + intros r g3 L3 _ [Hk3 Hr3]. split; [keep|done].
Qed.

(** ** Recovery *)

Abbreviation journaled_as id := (λ (r : mutationRecord) (_ : ghost) L', recorded L' r ∧ mt_RequestID r = id).

Lemma ensurePreparedStandingGrant_safe op g L : recorded L op →
  safe (ensurePreparedStandingGrant (mt_RequestID op) op) (after (keeps g) (journaled_as (mt_RequestID op))) g L.
Proof.
  intros Hop. unfold ensurePreparedStandingGrant. destruct (_ || _).
  { intros L1 HL1. split; [keep|]. split; [by eapply recorded_mono|done]. }
  eapply safe_then; [apply requireCurrentApprovalAuthority_safe|intros e g' L1 _ [Hs _]; leave|]. intros [] g1 L1 _ [Hs1 _].
  eapply safe_then; [apply requireCurrentApprovedNotice_safe|intros e g' L2 _ [<- _]; leave|]. intros p g2 L2 _ [<- _].
  apply safe_pure; [leave|]. intros c _.
  eapply safe_then; [apply currentApprovalAuthority_safe|intros e g' L3 _ [Hs3 _]; leave|]. intros a g3 L3 _ [Hs3 _].
  apply safe_guard; [leave|]. intros _. apply safe_bind, plain_op; [done|by intros|]. intros res L4 _.
  eapply (safe_then _ _ _ (after (eq g3) nothing)).
  - destruct res as [[]|gr]; intros L5 _; cbn; try done. by destruct (negb _).
  - intros e g' L5 _ [<- _]; leave.
  - intros [] g' L5 _ [<- _]. eapply safe_mono; [apply update_safe, persisted_update_advances|].
    intros r g' L6 _ [Hk6 Hr]. split; [keep|done].
Qed.
Lemma redecide_safe op g L : off_run g → recorded L op → safe (redecide (mt_RequestID op) op) (after (keeps g) nothing) g L.
Proof.
  intros Hoff Hop. unfold redecide. eapply safe_then; [by apply ensurePreparedStandingGrant_safe|intros e g' L1 _ [Hs _]; leave|].
  intros op' g1 L1 _ [Hk1 [Hg <-]]. eapply safe_then; [apply decide_and_handle_safe; [off|done]|intros e g' L2 _ [Hs _]; leave|].
  intros st g2 L2 _ [Hk2 _]; leave.
Qed.
Lemma if_still_bound_safe op (refused k : SP ()) g L :
  (∀ g' L', L ⊆ L' → keeps g g' → safe refused (after (keeps g) nothing) g' L') →
  (∀ g' L', L ⊆ L' → keeps g g' → safe k (after (keeps g) nothing) g' L') →
  safe (if_still_bound op refused k) (after (keeps g) nothing) g L.
Proof.
  intros Hr Hk. unfold if_still_bound. eapply safe_seq; [apply requireCurrentApprovalAuthority_safe|].
  intros a g1 L1 HL1 [[Hs1 _] _]. destruct a as [e|[]]; [by apply Hr|].
  eapply safe_seq; [apply requireCurrentApprovedNotice_safe|]. intros p g2 L2 HL2 [<- _].
  assert (L ⊆ L2) as HL3 by (by etrans). destruct p; [by apply Hr|by apply Hk].
Qed.
Lemma journal_remove_safe id g g0 L : keeps g0 g → safe (journal_remove id) (after (keeps g0) nothing) g L.
Proof. intros Hk. apply plain_call; [done|by intros|]. by intros [] L1 _. Qed.
(** A later goal is about the marks at the start. *)
Lemma from_start {A} (p : SP A) g0 g L : keeps g0 g → safe p (after (keeps g) nothing) g L → safe p (after (keeps g0) nothing) g L.
Proof. intros Hk Hp. eapply safe_mono; [exact Hp|]. intros r g' L' _ [Hk' ?]. split; [by etrans|done]. Qed.
Lemma steady_start {A} (p : SP A) g0 g L : keeps g0 g → safe p (after (steady g) nothing) g L → safe p (after (keeps g0) nothing) g L.
Proof. intros Hk Hp. eapply safe_mono; [exact Hp|]. intros r g' L' _ [[Hk' _] ?]. split; [by etrans|done]. Qed.

Lemma still_redecide op refused g L : off_run g → recorded L op →
  (∀ g' L', keeps g g' → safe refused (after (keeps g) nothing) g' L') →
  safe (if_still_bound op refused (redecide (mt_RequestID op) op)) (after (keeps g) nothing) g L.
Proof.
  intros Hoff Hop Hr. apply if_still_bound_safe; [by auto|]. intros g' L' HL Hk. apply from_start; [done|].
  apply redecide_safe; [off|]. by eapply recorded_mono.
Qed.
Lemma still_start op st g L : off_run g → safe (if_still_bound op (ok ()) (startExecution (mt_RequestID op) st)) (after (keeps g) nothing) g L.
Proof. intros Hoff. apply if_still_bound_safe; [leave|]. intros g' L' HL Hk. eapply steady_start; [done|]. apply startExecution_safe. off. Qed.

Lemma recover_awaiting_safe op g L : off_run g → recorded L op → safe (recover_awaiting (mt_RequestID op) op) (after (keeps g) nothing) g L.
Proof.
  intros Hoff Hop. unfold recover_awaiting. apply safe_guard; [leave|]. intros _.
  case_bool_decide; [|by apply redecide_safe].
  apply safe_bind, plain_op; [done|by intros|]. intros busy L1 HL1.
  apply (safe_seq _ _ _ (λ _ g' _, g' = g)).
  { destruct busy; [|by intros]. apply plain_op; [done|by intros|done]. }
  intros mine g' L2 HL2 ->. destruct (_ && _); [leave|]. apply still_redecide; [done|eapply recorded_mono; [|done]; by etrans|].
  intros g' L' Hk. by apply journal_remove_safe.
Qed.
Lemma recover_accepted_safe op g L : off_run g → recorded L op → safe (recover_accepted (mt_RequestID op) op) (after (keeps g) nothing) g L.
Proof.
  intros Hoff Hop. unfold recover_accepted. destruct (mt_Phase op); [apply still_redecide; [done|done|leave]|by apply still_start|apply hasActive_safe; [done|leave]|leave|leave].
Qed.
Lemma recover_running_safe op g L : off_run g → recorded L op → safe (recover_running (mt_RequestID op) op) (after (keeps g) nothing) g L.
Proof.
  intros Hoff Hop. unfold recover_running.
  destruct (mt_Phase op); [apply still_redecide; [done|done|leave]|by apply still_start|apply hasActive_safe; [done|leave]| |leave].
  eapply steady_start; [done|]. by apply startExecution_safe.
Qed.
Lemma recover_terminal_safe id op st g L : (∀ r, op = Some r → recorded L r) → safe (recover_terminal id op st) (after (keeps g) nothing) g L.
Proof.
  intros Hop. apply eq_keeps. unfold recover_terminal. destruct op as [r|]; [|apply forget_safe].
  destruct (_ && _); [apply replayPreparedResult_safe; by apply Hop|apply forget_safe].
Qed.
Lemma recoverOperationLocked_safe id st g L : off_run g → safe (recoverOperationLocked id st) (after (keeps g) nothing) g L.
Proof.
  intros Hoff. unfold recoverOperationLocked. apply safe_bind, journal_get_safe. intros r L' _ Hr.
  destruct st; try (by leave); try (by apply eq_keeps, forget_safe);
    try (by apply recover_terminal_safe; intros x Hx; apply Hr);
    (destruct r as [x|]; [destruct (Hr x eq_refl) as [<- Hg]|leave]).
  - by apply recover_awaiting_safe.
  - by apply recover_accepted_safe.
  - by apply recover_running_safe.
Qed.
Lemma recoverOperation_safe id st g L : Forall (λ h, lock_rank h < 2)%nat (g_locks g) →
  safe (recoverOperation id st) (after (keeps g) nothing) g L.
Proof.
  intros Hr. apply safe_locked; [done|done|]. intros L' _. apply recoverOperationLocked_safe.
  destruct (lock_ghost_locks LDecision g) as (Hl & _). unfold off_run. rewrite Hl. intros [?|Hin]%elem_of_cons; [done|].
  by apply (low_off_run g 2 Hr); [lia|].
Qed.

(** ** Approving *)

(** A match is recorded with what it matched. *)
Lemma match_safe {A} a c (f : option ApprovalGrant → SP A) (Q : svc_error + A → ghost → list entry → Prop) g L :
  (∀ e L', Q (inl e) g L') →
  (∀ L', L ⊆ L' → safe (f None) Q g L') →
  (∀ gr L', L ⊆ L' → safe (f (Some gr)) Q (set_via (Some (a, c, gr)) g) L') →
  safe (ebind (call ErrApprovals (OMatch a c)) f) Q g L.
Proof.
  intros He Hn Hs. eapply (safe_then _ _ _ (λ r g' _, match r with inr (Some gr) => g' = set_via (Some (a, c, gr)) g | _ => g' = g end)).
  - apply safe_call; [done|]. intros r g' L' _ ->. by destruct r as [|[]].
  - intros e g' L' _ -> L1 _. apply He.
  - intros [gr|] g' L' HL ->; [by apply Hs|by apply Hn].
Qed.

Lemma recheck_match_safe record matched level grantID g L : LDecision ∈ g_locks g →
  safe (recheck_match record matched level grantID)
    (after (parks g) (λ _ g' _, LDecision ∈ g_locks g' ∧ covered_by_grant g' (pe_Notice record) level grantID)) g L.
Proof.
  intros Hd. unfold recheck_match. apply safe_pure; [leave|]. intros mb _. apply safe_pure; [leave|]. intros cb _.
  apply safe_guard; [leave|]. intros _.
  eapply safe_then; [apply currentApprovalAuthority_safe|intros e g' L1 _ [Hs _]; leave|]. intros a g1 L1 _ [Hs1 Ha].
  apply safe_pure; [leave|]. intros c Hc. assert (parks g g1) as Hp1 by keep.
  apply match_safe; [intros; by split|intros; by split|]. intros gr L2 _ L3 _.
  destruct (_ || _) eqn:Hg; [by split|]. orb_split. split; [done|]. split; [cbn; by rewrite (proj2 Hp1)|].
  exists a, c, gr. by split_and!.
Qed.

Definition allow_consent (g : ghost) (requestID : string) (matched : option RequestNotice) : Prop :=
  match matched with None => user_choice (g_origin g) requestID | Some _ => True end.
Lemma allowOnce_safe requestID0 level grantID persisted matched g L :
  Forall (λ h, lock_rank h < 3)%nat (g_locks g) → LDecision ∈ g_locks g →
  allow_consent g (trim_space requestID0) matched →
  safe (allowOnceWithApprovalForNotice cf requestID0 level grantID persisted matched) (after (parks g) nothing) g L.
Proof.
  intros Hr Hd Hc. assert (off_run g) as Hoff by (apply (low_off_run g 3); [done|lia]).
  unfold allowOnceWithApprovalForNotice. cbn zeta. apply safe_guard; [leave|]. intros _.
  apply safe_bind, pending_get_safe. intros [record|] L1 _ Hrec; [|leave]. specialize (Hrec record eq_refl).
  apply safe_guard; [leave|]. intros _. apply safe_ret_ebind; [leave|]. intros _ _.
  eapply (safe_then _ _ _ (after (parks g) (λ _ g' _, consent_given g' (pe_Notice record) level grantID))).
  - destruct matched as [n|]; [|intros L2 _; split; [done|]; split; [done|]; left; by rewrite Hrec].
    eapply safe_mono; [by apply recheck_match_safe|]. intros r g' L2 _ [Hp Hcov]. split; [done|].
    destruct r as [|[]]; [done|]. destruct Hcov as [Hd2 Hcov]. split; [done|by right].
  - intros e g' L2 _ [Hp _]; leave.
  - intros [] g1 L2 _ [Hp1 Hcons]. destruct (negb _).
    + unfold recover_committed. apply safe_bind, journal_get_safe. intros [op|] L3 _ _; [|leave].
      eapply (safe_then _ _ _ (after (parks g) nothing)); [|leave|].
      * destruct (_ || _); [|leave]. eapply safe_mono; [apply requireCurrentApprovalAuthority_safe|].
        intros [] g2 L4 _ [Hs2 _]; split; try done; keep.
      * intros [] g2 L4 _ [Hp2 _].
        eapply safe_then; [apply recoverOperationLocked_safe; off|intros e g3 L5 _ [Hk3 _]; leave|]. intros [] g3 L5 _ [Hk3 _]; leave.
    + apply safe_bind, journal_get_safe. intros prepared L3 _ _.
      apply (safe_seq _ _ _ (λ _ g' _, g' = g1)).
      { destruct prepared; [by intros|]. apply plain_op; [off_pre|by intros|done]. }
      intros busy g2 L4 _ ->. destruct busy; [leave|].
      eapply safe_then; [apply prepareDecision_safe; [by rewrite (proj2 Hp1)|by apply Hcons|by intros]|intros e g2 L5 _ [Hk2 _]; leave|].
      intros op g2 L5 _ [Hk2 [Hg Hid]]. rewrite <- Hrec, <- Hid.
      eapply safe_mono; [apply commitAllowOnce_safe; [off|done]|]. intros r g3 L6 _ [Hk3 Hr3]. split; [keep|by destruct r].
Qed.
(** [with_lock] for what only parks. *)
Lemma safe_parked {A} l (p : prog A) g L : Forall (λ h, lock_rank h < lock_rank l)%nat (g_locks g) →
  (∀ L', L ⊆ L' → safe p (λ _ g' _, parks (lock_ghost l g) g') (lock_ghost l g) L') →
  safe (with_lock l p) (λ _ g' _, parks g g') g L.
Proof.
  intros Hr Hp. apply safe_with_lock; [done|]. intros L' HL. eapply safe_mono; [by apply Hp|].
  intros a g' L1 _ [Ho Hl]. destruct (lock_ghost_locks l g) as (Hl' & _ & Ho'). split; [congruence|]. intros L2 _. split; [cbn; congruence|done].
Qed.
Lemma after_parks {A} (p : SP A) (R : relation ghost) F g L : (∀ g', R g g' → parks g g') →
  safe p (after (R g) F) g L → safe p (λ _ g' _, parks g g') g L.
Proof. intros HR Hp. eapply safe_mono; [exact Hp|]. intros r g' L' _ [? _]. auto. Qed.
Lemma ranks_up g k : Forall (λ h, lock_rank h < 2)%nat (g_locks g) → (2 < k)%nat →
  Forall (λ h, lock_rank h < k)%nat (g_locks (lock_ghost LDecision g)).
Proof.
  intros Hr Hk. destruct (lock_ghost_locks LDecision g) as (-> & _). constructor; [done|].
  eapply Forall_impl; [exact Hr|]. cbn. intros; lia.
Qed.
Lemma lock_ghost_held l g : l ∈ g_locks (lock_ghost l g).
Proof. destruct (lock_ghost_locks l g) as (-> & _). by left. Qed.

Lemma AllowOnce_safe id g L : g_origin g = CallAllowOnce id → Forall (λ h, lock_rank h < 2)%nat (g_locks g) →
  safe (AllowOnce cf id) (λ _ g' _, parks g g') g L.
Proof.
  intros Ho Hr. apply safe_parked; [done|]. intros L' _. apply (after_parks _ parks nothing); [done|].
  destruct (lock_ghost_locks LDecision g) as (_ & _ & Hog).
  eapply safe_then; [apply allowOnce_safe|intros e g' L1 _ [Hp _]; leave|intros st g' L1 _ [Hp _]; leave].
  - apply ranks_up; [done|lia].
  - apply lock_ghost_held.
  - cbn. by rewrite Hog, Ho.
Qed.

Lemma save_grant_safe id level a c op g L : recorded L op → mt_RequestID op = id →
  safe (save_grant id level a c op) (after (keeps g) (λ r _ L', recorded L' r.1 ∧ mt_RequestID r.1 = id)) g L.
Proof.
  intros Hop Hid. unfold save_grant. destruct (negb _).
  - eapply (safe_then _ _ _ (after (eq g) nothing)); [|intros e g' L1 _ [<- _]; leave|].
    { apply plain_call; [done|by intros|by intros [] L1 _]. }
    intros gr g1 L1 _ [<- _]. eapply safe_then; [apply update_safe, persisted_update_advances|intros e g' L2 _ [Hk _]; leave|].
    intros op' g2 L2 _ [Hk2 [Hg Hr]] L3 HL3. split; [done|]. split; [by eapply recorded_mono|done].
  - eapply (safe_then _ _ _ (after (eq g) nothing)); [|intros e g' L1 _ [<- _]; leave|].
    { apply plain_call; [done|by intros|by intros [] L1 _]. }
    intros grants g1 L1 HL1 [<- _] L2 HL2. split; [done|]. split; [|done]. eapply recorded_mono; [|done]. by etrans.
Qed.
Lemma approve_standing_safe id level record g L : Forall (λ h, lock_rank h < 3)%nat (g_locks g) → LDecision ∈ g_locks g →
  nt_RequestID (pe_Notice record) = id → user_choice (g_origin g) id →
  safe (approve_standing cf id level record) (λ _ g' _, parks g g') g L.
Proof.
  intros Hr Hd Hid Hu. assert (off_run g) as Hoff by (apply (low_off_run g 3); [done|lia]). unfold approve_standing. cbn zeta.
  apply (safe_seq _ _ _ (after (keeps g) (λ r _ L', recorded L' r.1 ∧ mt_RequestID r.1 = id))).
  - apply safe_guard; [leave|]. intros _. apply safe_bind, plain_op; [done|by intros|]. intros busy L1 _.
    apply (safe_seq _ _ _ (λ _ g' _, g' = g)); [destruct busy; [|by intros]; apply plain_op; [done|by intros|done]|].
    intros mine g' L2 _ ->. apply safe_guard; [leave|]. intros _. apply safe_ret_ebind; [leave|]. intros _ _.
    apply safe_pure; [leave|]. intros c _.
    eapply safe_then; [apply currentApprovalAuthority_safe|intros e g' L3 _ [Hs3 _]; leave|]. intros a g3 L3 _ [[Hk3 _] _].
    eapply safe_then; [apply prepareDecision_safe|intros e g' L4 _ [Hk4 _]; leave|].
    + by rewrite (k_locks _ _ Hk3).
    + by rewrite (k_locks _ _ Hk3).
    + intros _. eapply consent_keeps; [exact Hk3|]. split; [done|]. left. by rewrite Hid.
    + intros op g4 L4 _ [Hk4 [Hg Hop]]. eapply safe_mono; [apply save_grant_safe; [done|congruence]|].
      intros r g5 L5 _ [Hk5 Hr5]. split; [keep|done].
  - intros [e|[op gr]] g1 L1 _ [Hk1 Hop]; [by intros L2 _; apply keeps_parks|]. cbn in Hop. destruct Hop as [Hg <-].
    eapply safe_seq; [apply commitAllowOnce_safe; [off|done]|]. intros [e|st] g2 L2 _ [Hk2 _] L3 _; keep.
Qed.
Lemma Approve_safe id level g L : g_origin g = CallApprove id level → Forall (λ h, lock_rank h < 2)%nat (g_locks g) →
  safe (Approve cf id level) (λ _ g' _, parks g g') g L.
Proof.
  intros Ho Hr. unfold Approve. cbn zeta. case_bool_decide; [by intros|]. destruct (negb _); [by intros|].
  apply safe_parked; [done|]. intros L' _. destruct (lock_ghost_locks LDecision g) as (_ & _ & Hog).
  apply safe_bind, pending_get_safe. intros [record|] L1 _ Hrec; [|by intros]. specialize (Hrec record eq_refl).
  case_bool_decide.
  - eapply safe_seq; [apply allowOnce_safe; [by apply ranks_up; [|lia]|apply lock_ghost_held|]|].
    + cbn. by rewrite Hog, Ho, trim_space_idem.
    + intros r g' L2 _ [Hp _] L3 _. done.
  - apply approve_standing_safe; [by apply ranks_up; [|lia]|apply lock_ghost_held|done|]. by rewrite Hog, Ho.
Qed.

(** ** The other calls of the recipient *)

Lemma ApprovalGrants_safe g L : Forall (λ h, lock_rank h < 2)%nat (g_locks g) → safe ApprovalGrants (λ _ g' _, parks g g') g L.
Proof.
  intros Hr. apply safe_parked; [done|]. intros L' _. apply (after_parks _ keeps nothing); [apply keeps_parks|].
  eapply safe_then; [apply currentApprovalAuthority_safe|intros e g' L1 _ [Hs _]; leave|]. intros a g1 L1 _ [Hs1 _].
  apply plain_call; [done|by intros|]. intros [] L2 _; leave.
Qed.
Lemma RevokeApprovalGrant_safe id g L : Forall (λ h, lock_rank h < 2)%nat (g_locks g) →
  safe (RevokeApprovalGrant id) (λ _ g' _, parks g g') g L.
Proof.
  intros Hr. apply safe_parked; [done|]. intros L' _. apply (after_parks _ keeps nothing); [apply keeps_parks|].
  eapply safe_then; [apply currentApprovalAuthority_safe|intros e g' L1 _ [Hs _]; leave|]. intros a g1 L1 _ [Hs1 _].
  eapply (safe_then _ _ _ (after (keeps g1) nothing)); [apply plain_call; [done|by intros|by intros [] L2 _]|intros e g' L2 _ [Hk2 _]; leave|].
  intros b g2 L2 _ [Hk2 _] L3 _. destruct (negb b); split; try done; keep.
Qed.
Lemma InspectProposal_safe id g L : safe (InspectProposal id) (λ _ g' _, parks g g') g L.
Proof.
  apply (after_parks _ eq nothing); [by intros g' <-|]. unfold InspectProposal. cbn zeta. apply safe_guard; [leave|]. intros _.
  apply safe_bind, pending_get_safe. intros [record|] L1 _ _; [|leave]. apply safe_guard; [leave|]. intros _.
  eapply (safe_then _ _ _ (after (eq g) nothing)); [apply relay_safe; [done|done|by intros [] L2 _]|leave|].
  intros [p|] g' L2 _ [<- _]; [|leave]. apply safe_guard; [leave|]. intros _. leave.
Qed.
Lemma Deny_safe id g L : Forall (λ h, lock_rank h < 2)%nat (g_locks g) → safe (Deny id) (λ _ g' _, parks g g') g L.
Proof.
  intros Hr. apply safe_parked; [done|]. intros L' _. apply (after_parks _ keeps nothing); [apply keeps_parks|].
  apply safe_bind, pending_get_safe. intros [record|] L1 _ Hrec; [|leave]. specialize (Hrec record eq_refl).
  apply safe_guard; [leave|]. intros _.
  eapply safe_then; [apply prepareDecision_safe; [by apply ranks_up; [|lia]|apply lock_ghost_held|done]|intros e g' L2 _ [Hk _]; leave|].
  intros op g2 L2 _ [Hk2 [Hg Hop]]. rewrite <- Hrec, <- Hop.
  eapply safe_then; [by apply decide_relay_safe|intros e g' L3 _ [<- _]; leave|]. intros m g3 L3 _ [<- _].
  apply safe_ret_ebind; [leave|]. intros st _. apply safe_guard; [leave|]. intros _.
  eapply safe_mono; [apply forget_safe|]. intros r g' L4 _ [<- ?]. split; [keep|done].
Qed.
Lemma maybeAutoApprove_safe n g L : Forall (λ h, lock_rank h < 2)%nat (g_locks g) →
  safe (maybeAutoApprove cf n) (λ _ g' _, parks g g') g L.
Proof.
  intros Hr. unfold maybeAutoApprove. destruct (_ || _); [by intros|]. apply safe_parked; [done|]. intros L' _.
  set (g1 := lock_ghost LDecision g). apply (safe_seq _ _ _ (λ _ g' _, parks g1 g')); [|by intros r g' L1 _ Hp L2 _].
  apply (after_parks _ parks nothing); [done|].
  eapply safe_then; [apply currentApprovalAuthority_safe|intros e g' L1 _ [Hs _]; leave|]. intros a g2 L1 _ [Hs2 _].
  apply safe_bind, pending_get_safe. intros [record|] L2 _ Hrec; [|leave]. apply safe_guard; [leave|]. intros _.
  apply safe_pure; [leave|]. intros c _. assert (parks g1 g2) as [Hp1 Hp2] by keep.
  apply match_safe; [leave|leave|]. intros gr L3 _.
  eapply safe_then; [apply allowOnce_safe|intros e g' L4 _ [[Ho Hl] _]; intros; split; [by split; cbn in *; congruence|done]|].
  - cbn. rewrite Hp2. apply ranks_up; [done|lia].
  - cbn. rewrite Hp2. apply lock_ghost_held.
  - done.
  - intros st g' L4 _ [[Ho Hl] _] L5 _. split; [split; cbn in *; congruence|done].
Qed.
End safe.
