(* ===== verification/ServiceRuns.v ===== *)
(** * Events, executions, and every goroutine

    The remaining methods of the service keep to their conditions, so every
    goroutine does, and ends holding no lock. *)

From S2P Require Import Prelude GoString GoStringFacts Protocol Redact RedactFacts RedactHides Policy LocalStore ApprovalStore Binding ReceiverStores MutationStore Prog Service SafeLogic ServiceRules ServiceSafe.

Section safe.
Context `{UT : UnicodeTables} (cf : Config).
Abbreviation safe := (safe cf).
Abbreviation low g := (Forall (λ h, lock_rank h < 2)%nat (g_locks g)).

Lemma parks_after {A} (p : SP A) g L : safe p (λ _ g' _, parks g g') g L → safe p (after (parks g) nothing) g L.
Proof. intros Hp. eapply safe_mono; [exact Hp|]. intros [] g' L' _ ?; by split. Qed.
Lemma keeps_after {A} (p : SP A) g L : safe p (after (keeps g) nothing) g L → safe p (after (parks g) nothing) g L.
Proof. intros Hp. eapply safe_mono; [exact Hp|]. intros r g' L' _ [? ?]; split; [keep|done]. Qed.
Lemma low_parks g g' : parks g g' → low g → low g'.
Proof. by intros [_ ->]. Qed.

(** What follows a method that only parks. *)
Lemma parks_then {A B} (p : SP A) (f : A → SP B) g0 g L : parks g0 g → safe p (after (parks g) nothing) g L →
  (∀ a g' L', L ⊆ L' → parks g0 g' → safe (f a) (after (parks g0) nothing) g' L') →
  safe (ebind p f) (after (parks g0) nothing) g L.
Proof.
  intros Hp0 Hp Hf. eapply safe_then; [exact Hp|intros e g' L1 _ [Hk _]; leave|]. intros a g' L' HL [Hk _]. apply Hf; [done|by etrans].
Qed.
Lemma parks_start {A} (p : SP A) g0 g L : parks g0 g → safe p (after (parks g) nothing) g L → safe p (after (parks g0) nothing) g L.
Proof. intros Hp0 Hp. eapply safe_mono; [exact Hp|]. intros r g' L' _ [? ?]. split; [by etrans|by destruct r]. Qed.
Lemma plain_parks {E A} (wrap : E → svc_error) (o : op (E + A)) g L :
  (∀ L', L ⊆ L' → pre cf o g L') → (∀ L' b g', learn o g L' b g' → g' = g) → safe (call wrap o) (after (parks g) nothing) g L.
Proof. intros Hp Hl. apply plain_call; [done|done|]. by intros [] L' _. Qed.
Lemma pending_parks {B} (m : PM B) g L : keeps_keyed m → safe (call ErrPending (OPending m)) (after (parks g) nothing) g L.
Proof. intros Hm. apply pending_safe; [done|]. by intros [] L' _. Qed.
Lemma relay_parks {A} (x : ext (relay_error + A)) g L : (∀ L', ext_pre cf x g L') → (∀ b, ext_ghost x b g = g) →
  safe (relay x) (after (parks g) nothing) g L.
Proof. intros Hp Hx. apply relay_safe; [by intros|done|]. by intros [] L' _. Qed.
(** An operation that changes no mark. *)
Lemma plain_seq {B A} (o : op B) (f : B → SP A) g0 g L :
  (∀ L', L ⊆ L' → pre cf o g L') → (∀ L' b g', learn o g L' b g' → g' = g) →
  (∀ b L', L ⊆ L' → safe (f b) (after (parks g0) nothing) g L') → safe (perform o ≫= f) (after (parks g0) nothing) g L.
Proof. intros Hp Hl Hf. apply safe_bind, plain_op; [done|done|]. by intros b L' HL; apply Hf. Qed.

Lemma ResumesConversation_safe id g L : safe (ResumesConversation id) (after (parks g) nothing) g L.
Proof. eapply parks_then; [done|by apply plain_parks|leave]. Qed.

(** ** Events *)

Lemma maybe_then {A} n (f : () → SP A) g0 g L : parks g0 g → low g →
  (∀ g' L', parks g0 g' → safe (f tt) (after (parks g0) nothing) g' L') →
  safe (maybeAutoApprove cf n ≫= f) (after (parks g0) nothing) g L.
Proof.
  intros Hp Hl Hf. eapply safe_seq; [by apply maybeAutoApprove_safe|]. intros [] g' L' _ Hp'. apply Hf. by etrans.
Qed.
Lemma handle_notice_safe n g L : low g → safe (handle_notice cf n) (after (parks g) nothing) g L.
Proof.
  intros Hl. unfold handle_notice. eapply parks_then; [done|apply ResumesConversation_safe|].
  intros resumes g1 L1 _ Hp1. cbn zeta. eapply parks_then; [done|apply pending_parks, upsert_keyed|].
  intros [] g2 L2 _ Hp2. apply (low_parks _ _ Hp2) in Hl. assert (off_run g2) as Hoff by (apply (low_off_run g2 2); [done|lia]).
  destruct (_ || _).
  - apply plain_seq; [done|by intros|]. intros [] L3 _; [|leave]. eapply parks_start; [done|].
    by apply keeps_after, recoverOperation_safe.
  - case_bool_decide; [|leave]. apply plain_seq; [done|by intros|]. intros [] L3 _; [|leave]. apply maybe_then; [done|done|]. leave.
Qed.
Lemma handleEvent_safe e g L : low g → safe (handleEvent cf e) (after (parks g) nothing) g L.
Proof.
  intros Hl. destruct e as [|[n|]|[id|]|]; try leave; [by apply handle_notice_safe|].
  apply keeps_after, eq_keeps, forget_safe.
Qed.

(** ** Reconciliation *)

Lemma each_safe {A} (f : A → SP ()) l g0 g L : parks g0 g →
  (∀ x g' L', parks g0 g' → safe (f x) (after (parks g') nothing) g' L') → safe (each f l) (after (parks g0) nothing) g L.
Proof.
  intros Hp Hf. revert g L Hp. induction l as [|x l IH]; intros g L Hp; cbn [each]; [leave|].
  eapply parks_then; [done|by apply Hf|]. intros [] g' L' _ Hp'. by apply IH.
Qed.
Lemma mark_resumes_safe l g L : safe (mark_resumes l) (after (parks g) nothing) g L.
Proof.
  revert g L. induction l as [|n l IH]; intros g L; cbn [mark_resumes]; [leave|].
  eapply parks_then; [done|apply ResumesConversation_safe|]. intros b g' L' _ Hp'. eapply parks_then; [done|apply IH|leave].
Qed.
Lemma reconcile_notice_safe n g L : low g → safe (reconcile_notice cf n) (after (parks g) nothing) g L.
Proof.
  intros Hl. unfold reconcile_notice. eapply parks_then; [done|by apply keeps_after, recoverOperation_safe|].
  intros [] g1 L1 _ Hp1. apply safe_bind, pending_get_safe. intros [r|] L2 _ _; [|leave]. case_bool_decide; [|leave].
  apply maybe_then; [done|by eapply low_parks|leave].
Qed.
Lemma reconcile_operation_safe seen op g L : low g → safe (reconcile_operation seen op) (after (parks g) nothing) g L.
Proof.
  intros Hl. unfold reconcile_operation. cbn zeta. case_bool_decide; [leave|]. apply plain_seq; [done|by intros|].
  intros [[]|[r|]] L1 _; [apply keeps_after, eq_keeps, forget_safe|leave| |leave]. apply safe_guard; [leave|]. intros _.
  apply safe_guard; [leave|]. intros _. by apply keeps_after, recoverOperation_safe.
Qed.
Lemma reconcile_safe g L : Forall (λ h, lock_rank h < 1)%nat (g_locks g) → safe (reconcile cf) (λ _ g' _, parks g g') g L.
Proof.
  intros Hr. apply safe_parked; [done|]. intros L' _. apply (after_parks _ _ parks nothing); [done|].
  set (g0 := lock_ghost LReconcile g). assert (low g0) as Hl.
  { unfold g0. destruct (lock_ghost_locks LReconcile g) as (-> & _). constructor; [cbn; lia|]. eapply Forall_impl; [exact Hr|]. cbn. intros; lia. }
  eapply parks_then; [done|by apply relay_parks|]. intros inbox g1 L1 _ Hp1. eapply parks_then; [done|apply mark_resumes_safe|].
  intros notices g2 L2 _ Hp2. eapply parks_then; [done|apply pending_parks, replace_keyed|]. intros [] g3 L3 _ Hp3.
  eapply parks_then; [exact Hp3|apply each_safe; [done|]|].
  { intros n g' L4 Hp'. apply reconcile_notice_safe. eapply low_parks; [|exact Hl]. by etrans. }
  intros [] g4 L4 _ Hp4. apply safe_bind, plain_op; [done|by intros L5 b g' [? _]|]. intros ops L5 _. apply each_safe; [done|].
  intros op g' L6 Hp'. apply reconcile_operation_safe. by eapply low_parks.
Qed.

(** ** Running *)

Lemma activate_safe card g L : low g → safe (activateApprovalAuthority cf card) (after (parks g) nothing) g L.
Proof.
  intros Hl. unfold activateApprovalAuthority. destruct card as [c|]; [|leave]. case_bool_decide; [leave|].
  apply parks_after, safe_parked; [done|]. intros L' _. apply (after_parks _ _ parks nothing); [done|].
  set (g0 := lock_ghost LDecision g). cbn zeta. apply safe_bind, safe_op; [done|]. intros a g1 L1 _ [-> _].
  assert (parks g0 (set_seen a g0)) as Hp by done. assert (LDecision ∈ g_locks g0) as Hd by apply lock_ghost_held.
  destruct (_ && _).
  - apply safe_bind, safe_op; [done|]. intros [] g2 L2 _ ->. eapply safe_seq; [by apply plain_parks|]. intros r g3 L3 _ [Hp3 _] L4 _.
    by split.
  - eapply parks_then; [done|by apply plain_parks|]. intros n g2 L2 _ Hp2. apply safe_bind, safe_op; [intros; cbn; by rewrite (proj2 Hp2)|].
    intros [] g3 L3 _ -> L4 _. by split.
Qed.
Lemma heartbeat_safe g L : Forall (λ h, lock_rank h < 1)%nat (g_locks g) → safe (heartbeat cf) (λ _ g' _, parks g g') g L.
Proof.
  intros Hr. assert (low g) as Hl by (eapply Forall_impl; [exact Hr|]; cbn; intros; lia).
  unfold heartbeat. apply safe_bind, plain_op; [done|by intros|]. intros card L1 _. apply (safe_seq _ _ _ (λ _ g' _, parks g g')).
  - destruct card as [e|c]; [by intros|]. eapply safe_seq; [by apply activate_safe|]. by intros r g' L2 _ [Hp _] L3 _.
  - intros [] g1 L2 _ Hp1. eapply safe_seq; [apply reconcile_safe; by rewrite (proj2 Hp1)|]. intros r g2 L3 _ Hp2 L4 _. by etrans.
Qed.
Lemma stop_safe g L : g_locks g = [] → safe stop (λ _ g' _, parks g g') g L.
Proof. intros Hn. apply safe_parked; [by rewrite Hn|]. intros L' _. apply plain_op; [done|by intros|done]. Qed.
(** A round ends with no lock held, whatever comes next. *)
Definition released {A} (_ : A) (g : ghost) (_ : list entry) : Prop := g_locks g = [].
Lemma parked_released {A} (p : prog A) g L : g_locks g = [] → safe p (λ _ g' _, parks g g') g L → safe p released g L.
Proof. intros Hn Hp. eapply safe_mono; [exact Hp|]. intros a g' L' _ [_ Hl]. unfold released. by rewrite Hl. Qed.
Lemma round_ends {A B} (p : prog A) (r : A → prog B) g L : g_locks g = [] → safe p (λ _ g' _, parks g g') g L →
  (∀ a g' L', g_locks g' = [] → safe (r a) released g' L') → safe (p ≫= r) released g L.
Proof.
  intros Hn Hp Hr. eapply safe_seq; [exact Hp|]. intros a g' L' _ [_ Hl]. apply Hr. by rewrite Hl.
Qed.
Lemma value_released {A} (a : A) g L : g_locks g = [] → safe (Ret a) released g L.
Proof. by intros Hn L' _. Qed.
Lemma return_run_safe g L : g_locks g = [] → safe return_run released g L.
Proof. intros Hn. apply round_ends; [done|by apply stop_safe|]. intros [] g' L' Hn'. by apply value_released. Qed.
Lemma plain_parked {B} (x : ext B) g L : (∀ L', pre cf (OExt x) g L') → (∀ b, ext_ghost x b g = g) →
  safe (perform (OExt x)) (λ _ g' _, parks g g') g L.
Proof. intros Hp Hg. apply safe_op; [by intros|]. intros b g' L' _ ->. by rewrite Hg. Qed.

Lemma run_begin_safe g L : g_locks g = [] → safe run_begin (λ _ g' _, parks g g') g L.
Proof.
  intros Hn. apply safe_parked; [by rewrite Hn|]. intros L1 _. apply (after_parks _ _ parks nothing); [done|].
  apply plain_seq; [done|by intros|]. intros [] L2 _; [leave|]. eapply parks_then; [done|by apply plain_parks|].
  intros [] g1 L3 _ Hp1. eapply parks_then; [done|by apply plain_parks|]. intros [] g2 L4 _ Hp2. apply plain_seq; [done|by intros|leave].
Qed.
Lemma run_prologue_safe g L : g_locks g = [] → safe (run_prologue cf) (λ _ g' _, parks g g') g L.
Proof.
  intros Hn. apply (after_parks _ _ parks nothing); [done|].
  apply plain_seq; [done|by intros|]. intros [c|] L2 _; [|leave]. apply safe_guard; [leave|]. intros _. apply safe_guard; [leave|]. intros _.
  eapply parks_then; [done|by apply relay_parks|]. intros card g2 L3 _ Hp2.
  assert (g_locks g2 = []) as Hn2 by (by rewrite (proj2 Hp2)).
  eapply parks_then; [done|apply activate_safe; by rewrite Hn2|]. intros [] g3 L4 _ Hp3. eapply parks_start; [done|].
  apply parks_after, reconcile_safe. by rewrite (proj2 Hp3), Hn.
Qed.
Lemma Run_safe g L : g_locks g = [] → safe (Run cf) released g L.
Proof.
  intros Hn. apply round_ends; [done|by apply run_begin_safe|]. intros [e|[]] g1 L1 Hn1; [by apply value_released|].
  apply round_ends; [done|by apply run_prologue_safe|]. intros [e|[]] g2 L2 Hn2; [by apply return_run_safe|by apply value_released].
Qed.

(** ** The rounds of the loops *)

Lemma heartbeatLoop_safe g L : g_locks g = [] → safe (heartbeatLoop cf) released g L.
Proof.
  intros Hn. apply round_ends; [done|by apply plain_parked|]. intros [] g1 L1 Hn1; [by apply value_released|].
  apply round_ends; [done|apply heartbeat_safe; by rewrite Hn1|]. intros [] g2 L2 Hn2. by apply value_released.
Qed.
Lemma loop_connect_safe current g L : g_locks g = [] → safe (loop_connect current) released g L.
Proof.
  intros Hn. apply round_ends; [done|by apply plain_parked|]. intros [] g1 L1 Hn1; [by apply return_run_safe|by apply value_released].
Qed.
Lemma loop_stream_safe current ready g L : g_locks g = [] → safe (loop_stream cf current ready) released g L.
Proof.
  intros Hn. apply round_ends; [done|by apply plain_parked|]. intros [e|] g1 L1 Hn1; [|by apply value_released]. cbv zeta.
  apply round_ends; [done|apply (after_parks _ _ parks nothing); [done|apply handleEvent_safe; by rewrite Hn1]|].
  intros r g2 L2 Hn2. by apply value_released.
Qed.
Lemma loop_retry_safe current ready g L : g_locks g = [] → safe (loop_retry cf current ready) released g L.
Proof.
  intros Hn. apply round_ends; [done|by apply plain_parked|]. intros done1 g1 L1 Hn1. apply round_ends; [done| |].
  - destruct done1; [by intros L2 _|]. eapply safe_seq; [apply reconcile_safe; by rewrite Hn1|]. by intros r g2 L2 _ Hp L3 _.
  - intros healthy g2 L2 Hn2. apply round_ends; [done|by apply plain_parked|]. intros [] g3 L3 Hn3; [by apply return_run_safe|].
    destruct (next_delay current healthy) as [delay next]. apply round_ends; [done|by apply plain_parked|]. intros [] g4 L4 Hn4. by apply value_released.
Qed.

(** ** Executions *)

(** The goroutine may run the claim, and then choose its result. *)
Record primed (c : string) (g : ghost) : Prop := mkPrimed {
  pr_start : boundary (g_tokens g) = Some c; pr_result : TResult c ∈ g_tokens g }.
Definition ran (c : string) (g : ghost) {A} : A → ghost → list entry → Prop :=
  λ _ g' _, parks g g' ∧ TResult c ∈ g_tokens g'.

Lemma run_justified_session cf' L c a r s :
  run_justified cf' L c a r → run_justified cf' L c a (mkRunRequest (rr_RequestID r) (rr_ConversationID r) (rr_Title r) (rr_Requester r)
    (rr_Prompt r) (rr_Attachments r) (rr_Workspaces r) (rr_ReturnDirectory r) (rr_RequestedPolicy r) s).
Proof. intros (x & b & p & H). exists x, b, p. exact H. Qed.
Lemma run_justified_mono L L' c a r : L ⊆ L' → run_justified cf L c a r → run_justified cf L' c a r.
Proof. intros HL (x & b & p & Hx & H). exists x, b, p. split; [by eapply recorded_mono|done]. Qed.

Lemma plain_ran {E A B} (wrap : E → svc_error) (o : op (E + A)) (f : A → SP B) c g0 g L :
  (∀ L', L ⊆ L' → pre cf o g L') → (∀ L' b g', learn o g L' b g' → g' = g) → ran c g0 (A:=()) tt g L →
  (∀ a L', L ⊆ L' → safe (f a) (ran c g0) g L') → safe (ebind (call wrap o) f) (ran c g0) g L.
Proof.
  intros Hp Hl Hr Hf. eapply (safe_then _ _ _ (λ _ g' _, g' = g)).
  - by apply plain_call.
  - intros e g' L1 _ -> L2 _. exact Hr.
  - intros a g' L' HL ->. by apply Hf.
Qed.
Lemma controller_run_safe req c g L : primed c g → run_justified cf L c (g_authority g) req →
  safe (controller_run cf req) (ran c g) g L.
Proof.
  intros [Hst Hres] Hj. unfold controller_run. apply plain_ran; [done|by intros|by split|]. intros stored L1 HL1. cbn zeta.
  set (g1 := spend [TStart c] g). assert (ran c g (A:=()) tt g1 L) as Hr.
  { split; [done|]. cbn. apply list_elem_of_difference. split; [done|]. by intros ?%list_elem_of_singleton. }
  eapply (safe_then _ _ _ (λ _ g' _, g' = g1)).
  - apply safe_call.
    + intros L2 HL2. exists c. split; [done|]. apply run_justified_session. eapply run_justified_mono; [|exact Hj]. by etrans.
    + intros r g' L2 _ ->. cbn. by rewrite Hst.
  - intros e g' L2 _ -> L3 _. exact Hr.
  - intros result g' L2 _ ->. destruct (rs_Session result) as [s|].
    + apply safe_guard; [intros; exact Hr|]. intros _. apply plain_ran; [done|by intros|exact Hr|]. intros; intros L4 _. exact Hr.
    + destruct stored; [|intros L4 _; exact Hr]. apply plain_ran; [done|by intros|exact Hr|]. intros; intros L4 _. exact Hr.
Qed.

(** A done context, and the other answers that change no mark. *)
Lemma plain_mono {B A} (o : op B) (f : B → prog A) Q g L :
  (∀ L', L ⊆ L' → pre cf o g L') → (∀ L' b g', learn o g L' b g' → g' = g) →
  (∀ b L', L ⊆ L' → safe (f b) Q g L') → safe (perform o ≫= f) Q g L.
Proof. intros Hp Hl Hf. apply safe_bind, plain_op; [done|done|]. by intros b L' HL; apply Hf. Qed.

Lemma controller_Execute_safe req c g L : g_locks g = [] → primed c g → run_justified cf L c (g_authority g) req →
  safe (controller_Execute cf req) (ran c g) g L.
Proof.
  intros Hn Hpr Hj. assert (∀ A (a : A) L, ran c g a g L) as Hran by (intros; split; [done|apply Hpr]).
  unfold controller_Execute. apply safe_pure; [by intros|]. intros _ _. cbn zeta.
  apply plain_mono; [done|by intros|]. intros [] L1 HL1; [by intros L2 _|].
  set (l := LConversation (rr_ConversationID req)).
  apply safe_bind, safe_op; [intros; cbn; by rewrite Hn|]. intros [] g1 L2 HL2 ->.
  assert (lock_ghost l g = set_locks [l] g) as -> by (unfold lock_ghost; rewrite decide_False by done; by rewrite Hn).
  assert (∀ (r : svc_error + RunResult) g2 L3, g_locks g2 = [l] → g_origin g2 = g_origin g → TResult c ∈ g_tokens g2 →
    safe (release_conversation (rr_ConversationID req) ≫= λ _, Ret r) (ran c g) g2 L3) as Hrel.
  { intros r g2 L3 Hl2 Ho2 Ht2. apply safe_bind, safe_op; [intros; cbn; rewrite Hl2; by left|]. intros [] g3 L4 _ -> L5 _.
    split; [|done]. split; [done|]. cbn. rewrite Hl2, Hn. apply (difference_own l []), not_elem_of_nil. }
  apply plain_mono; [done|by intros|]. intros [] L3 HL3; [apply Hrel; [done|done|apply Hpr]|].
  apply plain_mono; [done|by intros|]. intros [] L4 HL4; [apply Hrel; [done|done|apply Hpr]|].
  apply safe_bind, safe_op; [intros L5 _; apply Forall_singleton; cbn; lia|]. intros k g2 L5 HL5 ->.
  eapply safe_seq; [apply (controller_run_safe _ c)|].
  - by destruct Hpr.
  - eapply run_justified_mono; [|exact Hj]. by do 4 (etrans; [eassumption|]).
  - intros r g3 L6 _ [[Ho3 Hl3] Ht3]. cbn in Ho3, Hl3.
    apply safe_bind, safe_op; [intros; cbn; rewrite Hl3; by left|]. intros [] g4 L7 _ ->. apply Hrel; [|done|done].
    cbn [set_locks g_locks]. rewrite Hl3. apply difference_own. by intros ?%list_elem_of_singleton.
Qed.

(** ** Results *)

Lemma prepareAndSubmitResult_safe r p g L : TResult (rp_ExecutionClaimID p) ∈ g_tokens g → presentable p →
  safe (prepareAndSubmitResult r p) (after (parks g) nothing) g L.
Proof.
  intros Ht Hfit. unfold prepareAndSubmitResult. apply safe_guard; [leave|]. intros _.
  eapply (safe_then _ _ _ (after (parks g) (λ next _ L', recorded L' next))).
  - apply safe_call.
    + intros L' _ cur next [_ _ _ Hres] Hn. unfold result_update in Hn. case_bool_decide as Hc; [|done]. cbn in Hn.
      destruct (mt_Phase cur) eqn:Hph; try done.
      * injection Hn as <-. assert (mt_Result cur = None) as Hnone.
        { destruct (mt_Result cur); [|done]. discriminate Hres. by eexists. }
        split; [by eapply advance_result|]. cbn. intros q _ [= <-]. by rewrite Hc.
      * destruct (mt_Result cur) as [q|] eqn:Hq; [|done]. destruct (samePreparedResult q p); [|done]. injection Hn as <-.
        split; [by apply advance_same|]. intros ?; congruence.
    + intros res g' L' _ (m & -> & Hr). split; [destruct res; apply keeps_parks, keeps_update|]. destruct res as [|next]; [done|].
      by destruct (Hr next eq_refl) as (_ & _ & _ & _ & _ & _ & ? & _).
  - intros e g' L1 _ [Hp _]; leave.
  - intros next g' L1 _ [Hp Hg]. eapply parks_start; [done|]. by apply keeps_after, eq_keeps, replayPreparedResult_safe.
Qed.
Lemma discard_parks {A} (p : SP A) g0 g L : parks g0 g → safe p (after (parks g) nothing) g L →
  safe (p ≫= λ _, Ret ()) (λ _ g' _, parks g0 g') g L.
Proof. intros Hp0 Hp. eapply safe_seq; [exact Hp|]. intros r g' L' _ [Hk _] L1 _. by etrans. Qed.
Lemma submitFailure_safe id c g0 g L : parks g0 g → TResult c ∈ g_tokens g → safe (submitFailure id c) (λ _ g' _, parks g0 g') g L.
Proof.
  intros Hp Ht. unfold submitFailure. apply plain_mono; [done|by intros|]. intros d L1 _. apply safe_bind, journal_get_safe.
  intros [op|] L2 _ _; [|intros L3 _; exact Hp]. case_bool_decide; [|intros L3 _; exact Hp]. apply discard_parks; [done|].
  apply prepareAndSubmitResult_safe; [done|]. right. cbn. destruct (safe_summary_bounded d) as [? ?]. done.
Qed.

(** ** [execute] *)

Lemma execute_runtime_safe id c op p sandbox g L : g_locks g = [] → primed c g →
  (∀ ws, resolveRequestedWorkspaces cf (ep_RequestedAccess p) = inr ws → run_justified cf L c (g_authority g) (run_request cf p ws sandbox)) →
  safe (execute_runtime cf id c op p sandbox) (λ _ g' _, parks g g') g L.
Proof.
  intros Hn Hpr Hj. unfold execute_runtime. destruct (resolveRequestedWorkspaces _ _) as [|ws]; [apply submitFailure_safe; [done|apply Hpr]|].
  specialize (Hj ws eq_refl). cbn zeta. eapply safe_seq; [by apply controller_Execute_safe|]. intros res g1 L1 _ [Hp1 Ht1].
  assert (∀ L, safe (submitFailure id c) (λ _ g' _, parks g g') g1 L) as Hfail by (intros; by apply submitFailure_safe).
  destruct res as [e|res].
  - destruct e; try apply Hfail; try (intros L2 _; exact Hp1). destruct e; [intros L2 _; exact Hp1|apply Hfail].
  - apply (safe_seq _ _ _ (λ _ g' _, g' = g1)).
    { destruct sandbox; [|by intros]. case_bool_decide; [by intros|]. apply plain_op; [done|by intros|done]. }
    intros files g2 L2 _ ->. destruct files; [|apply Hfail]. cbn zeta.
    apply discard_parks; [done|]. apply prepareAndSubmitResult_safe; [done|]. left. split_and!; [done..|apply redacted_clean|by eexists].
Qed.
Lemma execute_sandboxed_safe id c op p g L : g_locks g = [] → primed c g →
  (∀ ws sandbox L', L ⊆ L' → resolveRequestedWorkspaces cf (ep_RequestedAccess p) = inr ws →
     run_justified cf L' c (g_authority g) (run_request cf p ws sandbox)) →
  safe (execute_sandboxed cf id c op p) (λ _ g' _, parks g g') g L.
Proof.
  intros Hn Hpr Hj. unfold execute_sandboxed. assert (TResult c ∈ g_tokens g) as Ht by apply Hpr.
  destruct (cf_artifacts cf).
  - apply plain_mono; [done|by intros|]. intros [s|] L1 HL1; [|by apply submitFailure_safe].
    eapply safe_seq; [apply execute_runtime_safe; [done|done|by auto]|]. intros [] g1 L2 _ Hp1. apply plain_op; [done|by intros|]. by intros.
  - destruct (negb _); [by apply submitFailure_safe|]. apply execute_runtime_safe; [done|done|by auto].
Qed.

(** What a start gives: the right to run the claim. *)
Lemma start_primes m id c g g' next : g' = update_ghost m id (start_update c) (inr next) g →
  (∃ cur n t, m !! id = Some cur ∧ start_update c cur = Some n ∧ next = mt_touch t n) → primed c g'.
Proof.
  intros -> (cur & n & t & Hm & Hn & ->). unfold start_update in Hn. destruct (_ || _) eqn:Hor; [done|]. injection Hn as <-. orb_split.
  assert (update_chooses m id (start_update c) = None) as Hch.
  { unfold update_chooses. rewrite Hm. simpl. destruct (start_update c cur) as [x|] eqn:Hx; [|done]. simpl.
    unfold start_update in Hx. destruct (_ || _); [done|]. injection Hx as <-. cbn. by destruct (mt_Result cur). }
  unfold update_ghost. rewrite Hch. unfold update_starts. rewrite Hm. cbn. rewrite bool_decide_true by done. cbn.
  replace (mt_ExecutionClaimID cur) with c. split; [done|]. right. by left.
Qed.
Lemma start_update_advances c : only_advances (start_update c).
Proof.
  intros cur next. unfold start_update. destruct (_ || _) eqn:Hor; [done|]. orb_split. intros [= <-]. split; [|done].
  by apply advance_start.
Qed.
Lemma start_safe id c g L : safe (call ErrJournal (OUpdate id (start_update c)))
  (λ r g' L', keeps g g' ∧ g_authority g' = g_authority g ∧ match r with inl _ => True | inr next => recorded L' next ∧ primed c g' end) g L.
Proof.
  apply safe_call.
  - intros L' _ cur next _ Hn. destruct (start_update_advances c cur next Hn) as [Ha Hr]. split; [done|]. intros p Hnone Heq. congruence.
  - intros r g' L' _ (m & -> & Hr).
    assert (keeps g (update_ghost m id (start_update c) r g) ∧ g_authority (update_ghost m id (start_update c) r g) = g_authority g) as [Hk Ha].
    { split; [apply keeps_update|]. unfold update_ghost. by destruct (update_chooses _ _ _) as [[]|], (update_starts _ _ _). }
    destruct r as [e|next]; [done|]. split; [done|]. split; [done|].
    destruct (Hr next eq_refl) as (cur & n & t & Hm & Hf & Hnext & Hg & _). split; [done|]. eapply start_primes; [done|]. by exists cur, n, t.
Qed.

Lemma execute_claim_safe op g L : g_locks g = [] → recorded L op → mt_ExecutionClaimID op ≠ "" →
  safe (execute_claim cf (mt_RequestID op) op) (after (parks g) nothing) g L.
Proof.
  intros Hn Hop Hc. unfold execute_claim.
  eapply safe_then; [apply requireCurrentApprovalAuthority_safe|intros e g' L1 _ [Hs _]; leave|]. intros [] g1 L1 HL1 [Hs1 [Ha1 Hsome]].
  eapply safe_then; [apply requireCurrentApprovedNotice_safe|intros e g' L2 _ [<- _]; leave|]. intros rec g2 L2 HL2 [<- _]. cbn zeta.
  eapply (safe_then _ _ _ (after (eq g1) nothing)); [apply relay_safe; [done|done|by intros [] L3 _]|intros e g' L3 _ [<- _]; leave|].
  intros payload g3 L3 HL3 [<- _]. destruct payload as [p|]; [|leave]. destruct (mt_ApprovedNotice op) as [b|] eqn:Hb; [|leave].
  apply safe_pure; [leave|]. intros [] Hval.
  assert (recorded L3 op) as Hop3 by (eapply recorded_mono; [|exact Hop]; by do 2 (etrans; [eassumption|])).
  eapply (safe_then _ _ _ (after (eq g1) nothing)).
  { apply relay_safe; [|done|by intros [] L4 _]. intros L4 HL4. exists op. split_and!; [by eapply recorded_mono|done..]. }
  { intros e g' L4 _ [<- _]; leave. }
  intros m g4 L4 HL4 [<- _]. apply safe_guard; [leave|]. intros _.
  eapply safe_then; [apply start_safe|intros e g' L5 _ [Hk5 _]; leave|]. intros started g5 L5 HL5 (Hk5 & Ha5 & _ & Hpr5).
  assert (parks g g5) as Hp5 by keep. assert (g_locks g5 = []) as Hn5 by (by rewrite (proj2 Hp5)).
  eapply safe_seq; [apply pending_update_safe|]. intros r g6 L6 HL6 [<- _].
  eapply safe_seq; [apply execute_sandboxed_safe; [done|done|]|].
  - intros ws sandbox L' HL' Hws. exists op, b, p. rewrite Ha5, Ha1. split.
    { eapply recorded_mono; [|exact Hop3]. by do 3 (etrans; [eassumption|]). }
    rewrite Ha1 in Hsome. split_and!; try done. unfold runs_payload. split_and!; try done. unfold run_request. cbn. destruct sandbox; [|done]. by intros ->.
  - intros [] g7 L7 _ Hp7; leave.
Qed.
Lemma execute_safe id g L : g_locks g = [] → safe (execute cf id) (λ _ g' _, parks g g') g L.
Proof.
  intros Hn. unfold execute. apply safe_bind, journal_get_safe. intros r L1 _ Hr. apply (safe_seq _ _ _ (λ _ g' _, parks g g')).
  - destruct r as [op|]; [destruct (Hr op eq_refl) as [<- Hg]|by intros]. case_bool_decide.
    + apply discard_parks; [done|]. by apply keeps_after, eq_keeps, replayPreparedResult_safe.
    + destruct (_ || _) eqn:Hor; [by intros|]. orb_split. apply discard_parks; [done|]. by apply execute_claim_safe.
  - intros [] g' L2 _ Hp. assert (off_run g) as Hoff by (unfold off_run; rewrite Hn; by intros ?%elem_of_nil).
    apply plain_op; [off_pre|by intros|]. by intros.
Qed.

(** ** Every goroutine *)

(** A goroutine performs each operation under its condition, and ends holding
    no lock. *)
Theorem goroutine_safe o L : safe (goroutine cf o) released (new_ghost o) L.
Proof.
  set (g := new_ghost o). assert (g_locks g = []) as Hn by done. assert (low g) as Hl by (by rewrite Hn).
  assert (∀ A (p : prog A), safe p (λ _ g' _, parks g g') g L → safe (discard p) released g L) as Hd.
  { intros A p Hp. apply round_ends; [done|done|]. intros a g' L' Hn'. by apply value_released. }
  destruct o; cbn [goroutine].
  - by apply Hd, AllowOnce_safe.
  - by apply Hd, Approve_safe.
  - by apply Hd, Deny_safe.
  - apply Hd, InspectProposal_safe.
  - by apply Hd, RevokeApprovalGrant_safe.
  - by apply Hd, ApprovalGrants_safe.
  - by apply Run_safe.
  - by apply Hd, stop_safe.
  - apply Hd. eapply (after_parks _ _ parks nothing); [done|by apply handleEvent_safe].
  - by apply Hd, reconcile_safe.
  - by apply heartbeatLoop_safe.
  - by apply Hd, execute_safe.
  - by apply loop_connect_safe.
  - by apply loop_stream_safe.
  - by apply loop_retry_safe.
Qed.
End safe.
