(* ===== verification/ReceiverSafety.v ===== *)
(** * What the receiver guarantees under any interleaving

    Runs are of approved content, happen at most once for an approval, and
    whatever is sent to the relay is a replay of the journal, for all
    interleavings of calls, write faults, crashes and restarts. *)

From S2P Require Import Prelude GoString Sha256 Protocol Redact RedactFacts Policy LocalStore ApprovalStore Binding BindingFacts ReceiverStores MutationStore Prog Service Pool SafeLogic PoolSound ServiceRules ServiceRuns.

(** ** Every goroutine is safe *)

Section pool.
Context `{UT : UnicodeTables} (cf : Config) (answer : nat → ∀ B, ext B → B).
Hypothesis Hdiff : all_different answer.
Abbreviation world_ok := (world_ok cf answer).
Abbreviation pool_step := (pool_step cf answer).
Abbreviation pool_steps := (pool_steps cf answer).

Definition thread_ok (L : list entry) (t : thread) : Prop := safe cf t.2 released t.1 L.
Record pool_ok (p : pool) : Prop := mkPoolOk {
  po_world : world_ok (p_threads p).*1 (p_state p);
  po_threads : Forall (thread_ok (r_log (p_state p))) (p_threads p) }.

Lemma thread_ok_mono L L' t : L ⊆ L' → thread_ok L t → thread_ok L' t.
Proof. apply safe_weaken. Qed.
Lemma new_thread_ok L o : thread_ok L (fresh cf o).
Proof. apply goroutine_safe. Qed.

(** A new goroutine has no right and holds nothing. *)
Lemma world_new gs o s : world_ok gs s → world_ok (new_ghost o :: gs) s.
Proof.
  intros [H1 H2 H3 H4 H5 [Ha Hb Hc] H7]. constructor; [done..| |done]. constructor; [done|done|].
  intros g a' [-> | Hg]%elem_of_cons; [by intros ?%elem_of_nil|by apply Hc].
Qed.
Lemma world_news os gs s : world_ok gs s → world_ok ((fresh cf <$> os).*1 ++ gs) s.
Proof. intros Hw. induction os as [|o os IH]; [done|]. by apply world_new. Qed.
(** At the end of a round a goroutine gives up its rights. *)
Lemma world_forget g gs s : g_locks g = [] → world_ok (g :: gs) s → world_ok gs s.
Proof.
  intros Hn [[Ht Hf Hs] H2 H3 H4 H5 [Ha Hb Hc] H7].
  assert (∀ t, t ∈ all_tokens gs (r_log s) → t ∈ all_tokens (g :: gs) (r_log s)) as Hsub.
  { intros t Hin. unfold all_tokens in *. cbn. rewrite <- app_assoc. apply elem_of_app. by right. }
  constructor; [|done..| |done].
  - unfold all_tokens in *. cbn in Ht. rewrite <- app_assoc in Ht. apply NoDup_app in Ht as (_ & _ & Ht).
    constructor; [done|intros id Hin; by apply Hf, Hsub|]. intros c [Hin|Hin]; apply Hs; [left|right]; by apply Hsub.
  - constructor; [by rewrite <- Ha; cbn; rewrite Hn|done|]. intros g' a' Hg. apply Hc. by right.
Qed.
(** The process dies: its goroutines and locks are gone, and memory is loaded. *)
Lemma world_restart gs s : world_ok gs s → world_ok [] (restart s).
Proof.
  intros [[Hn Hf Hs] H2 H3 [Hm Hd] H5 _ _]. unfold restart.
  assert (∀ t, t ∈ (r_log s ≫= used) → t ∈ all_tokens gs (r_log s)) as Hsub.
  { intros t Ht. unfold all_tokens. apply elem_of_app. by right. }
  change (newMutationStore "mutations" true (r_journal s)) with (mutation_Reload (with_mem ∅ (r_journal s))).
  assert (journal_ok (r_log s) (l_mem (with_mem ∅ (r_journal s))) ∧ disk_ok (r_log s) (with_mem ∅ (r_journal s))) as Hw0 by (by split; [intros ??|]).
  pose proof (reload_ok _ _ Hw0) as [Hm1 Hd1]. pose proof (reload_seen _ _ Hw0 ltac:(by intros ??)) as Hseen.
  destruct (mutation_Reload _) as [w r]. destruct Hseen as (l & -> & Hg & Hh). cbn in Hm1, Hd1.
  set (s0 := mkState (NewPendingStore "pending" true (r_pending s)).1 (with_mem ∅ (r_journal s)) (NewApprovalStore "approvals" true (r_approvals s)).1
    (NewFileSessionStore "sessions" true (r_sessions s)).1 (mkAuthority "" "") ∅ false [] (r_ticks s) (r_log s)).
  assert (world_ok [] s0) as Hw1.
  { constructor; [|done|done| | |by constructor; [done|constructor|intros ? ? ?%elem_of_nil]|by intros ??].
    - constructor; [by eapply all_tokens_log|by intros id Hin; apply Hf, Hsub|]. intros c [Hin|Hin]; apply Hs; [left|right]; by apply Hsub.
    - by split; [intros ??|].
    - cbn. apply keeps_keyed_run; [apply new_keyed|done]. }
  apply (world_note _ _ _ _ l) in Hw1; [|done].
  assert (∀ c, EStart c ∈ (EJournaled <$> l) ++ r_log s → EStart c ∈ r_log s) as Hback.
  { intros c [(x & ? & _)%list_elem_of_fmap|?]%elem_of_app; done. }
  apply (world_journal cf answer _ w) in Hw1; [done|..|exact Hh].
  - apply (journal_ok_grow (r_log s)); [apply subset_nil|exact Hback|exact Hm1].
  - apply (disk_ok_grow (r_log s)); [apply subset_nil|exact Hback|exact Hd1].
Qed.

(** One goroutine's step. *)
Lemma thread_step_ok gs s t started t' s' : world_ok (t.1 :: gs) s → thread_ok (r_log s) t →
  thread_step cf answer t s = Some (started, t', s') →
  world_ok (started.*1 ++ t'.1 :: gs) s' ∧ r_log s ⊆ r_log s' ∧ thread_ok (r_log s') t' ∧ Forall (thread_ok (r_log s')) started.
Proof.
  destruct t as [g [[|o os]|B o k]]; [done|..]; unfold thread_step; cbn [fst snd]; intros Hw Ht.
  { intros [= <- <- <-]. split; [|split; [done|split; [apply new_thread_ok|apply Forall_fmap, Forall_true; intros; apply new_thread_ok]]].
    apply world_news, (world_new gs o), (world_forget g); [by apply (Ht (r_log s))|done]. }
  destruct (enabled _ _ _) eqn:Hen; [|done].
  destruct (exec answer (cf_slots cf) o g s) as [[[b g'] s1] sp] eqn:Hex. intros [= <- <- <-].
  destruct (Ht (r_log s) ltac:(done)) as [Hpre Hk].
  destruct (exec_sound cf answer Hdiff o g gs s b g' s1 sp Hw Hpre Hen Hex) as (Hw' & HL & Hlearn).
  split_and!; [|done|by apply Hk|destruct sp; [|done]; by apply Forall_singleton, new_thread_ok].
  destruct sp; [by apply world_new|done].
Qed.
Lemma advance_ok i p q : pool_ok p → pool_step (Advance i) p = Some q → pool_ok q.
Proof.
  intros [Hw Ht] Hstep. cbn in Hstep. destruct (p_threads p !! i) as [t|] eqn:Hi; [|done]. cbn in Hstep.
  destruct (thread_step cf answer t (p_state p)) as [[[started t'] s']|] eqn:Hts; [|done]. injection Hstep as <-.
  destruct (list_elem_of_split_length _ _ _ Hi) as (l1 & l2 & Hl & ->). rewrite Hl in Hw, Ht |- *.
  rewrite insert_app_r_alt, Nat.sub_diag by done. cbn [list_insert insert].
  apply Forall_app in Ht as [Ht1 [Ht Ht2]%Forall_cons].
  assert (world_ok (t.1 :: (l1 ++ l2).*1) (p_state p)) as Hw1.
  { eapply world_ok_perm; [|exact Hw]. rewrite !fmap_app, fmap_cons. by rewrite Permutation_middle. }
  destruct (thread_step_ok _ _ _ _ _ _ Hw1 Ht Hts) as (Hw2 & HL & Ht' & Hst). constructor; cbn [p_threads p_state].
  - eapply world_ok_perm; [|exact Hw2]. rewrite !fmap_app, fmap_cons. solve_Permutation.
  - rewrite !Forall_app, Forall_cons. split_and!; try done; eapply Forall_impl; try done; intros x; by apply thread_ok_mono.
Qed.
Lemma pool_step_ok c p q : pool_ok p → pool_step c p = Some q → pool_ok q.
Proof.
  intros Hp. destruct c as [i|o|]; [by apply advance_ok|..]; destruct Hp as [Hw Ht]; cbn.
  - destruct (callable o); [|done]. intros [= <-]. constructor; cbn [p_threads p_state].
    + eapply world_ok_perm; [|exact (world_new _ o _ Hw)]. rewrite fmap_app. cbn. by rewrite Permutation_app_comm.
    + apply Forall_app. split; [done|]. by apply Forall_singleton, new_thread_ok.
  - intros [= <-]. constructor; [by eapply world_restart|by constructor].
Qed.
Lemma start_ok s : installed s → pool_ok (start s).
Proof.
  intros (Hp & Hpm & Hj & Hjm & Hl & HL). constructor; [|by constructor]. constructor; cbn; rewrite ?HL.
  - constructor; [constructor|by intros ? ?%elem_of_nil|by intros ? [?%elem_of_nil|?%elem_of_nil]].
  - by intros ? ?%elem_of_nil.
  - done.
  - unfold disk_ok. rewrite Hj, Hjm. by split; [intros ??|].
  - split; [by rewrite Hpm|by rewrite Hp].
  - constructor; [by rewrite Hl|rewrite Hl; constructor|by intros ? ? ?%elem_of_nil].
  - rewrite Hjm. by intros ??.
Qed.
Lemma reachable_ok s p : installed s → pool_steps (start s) p → pool_ok p.
Proof.
  intros Hi Hs. remember (start s) as p0 eqn:H0. induction Hs; subst; [by apply start_ok|]. eapply pool_step_ok; [by apply IHHs|done].
Qed.
End pool.

(** ** Consequences of the log's order *)

(** The journal's file was seen to hold the record, which descends from a
    decision handed to the journal. *)
Definition on_record (older : list entry) (r : mutationRecord) : Prop :=
  EJournaled r ∈ older ∧ ∃ who v r0, EPut who v r0 ∈ older ∧ identity r0 = identity r.
(** The decision itself reached the file. *)
Definition on_file (older : list entry) (r : mutationRecord) : Prop := ∃ r', EJournaled r' ∈ older ∧ identity r' = identity r.
(** What a message to the relay repeats of the journal. *)
Definition replays (older : list entry) (e : entry) : Prop :=
  match e with
  | EDecide id payload => ∃ r, on_record older r ∧ mt_RequestID r = id ∧ decision_payload r = payload
  | EMark id c => ∃ r, on_record older r ∧ mt_RequestID r = id ∧ mt_ExecutionClaimID r = c ∧ mt_Decision r = DecisionAllowOnce
  | ESubmit id payload => ∃ r, on_record older r ∧ mt_RequestID r = id ∧ mt_Result r = Some payload ∧
      mt_ExecutionClaimID r = rp_ExecutionClaimID payload ∧ EResult (mt_ExecutionClaimID r) payload ∈ older
  | _ => True
  end.

Section log.
Context `{UT : UnicodeTables} (cf : Config) (answer : nat → ∀ B, ext B → B).
Hypothesis Hdiff : all_different answer.

Lemma log_ok_split newer e older : log_ok cf (newer ++ e :: older) → entry_ok cf older e ∧ log_ok cf older.
Proof. induction newer as [|x l IH]; cbn; [done|]. intros [_ H]. by apply IH. Qed.
Lemma log_ok_put L who v r : log_ok cf L → EPut who v r ∈ L →
  consented who v r ∧ validateMutationRecord r = true ∧ mt_Phase r = mutationDecisionPrepared ∧ mt_Result r = None.
Proof. intros HL Hin. by destruct (log_ok_entry cf L _ HL Hin) as (L0 & H & _). Qed.

(** A decision bound to a notice is an allow of a complete authority. *)
Lemma bound_put r b : validateMutationRecord r = true → mt_Phase r = mutationDecisionPrepared → mt_ApprovedNotice r = Some b →
  mt_Decision r = DecisionAllowOnce ∧ normalizeApprovalAuthority (mutation_authority r) = inr (mutation_authority r).
Proof.
  unfold validateMutationRecord, validateMutationRecordWithLegacy, identity_ok, decision_ok, phase_ok, valid_decision. intros Hv Hp Hb.
  rewrite Hp, Hb in Hv. orb_split.
  assert (mt_Decision r ≠ DecisionDeny) as Hnd by (intros Hd; rewrite Hd in *; done).
  assert (mt_Decision r = DecisionAllowOnce) as Ha.
  { match goal with H : bool_decide (_ = DecisionAllowOnce) || bool_decide _ = true |- _ => apply orb_true_iff in H as [?|?]; orb_split; done end. }
  split; [done|]. rewrite Ha in *. assert (has_authority r = true) as Hau by (by destruct (has_authority r)).
  rewrite Hau in *. by match goal with H : bool_decide (normalizeApprovalAuthority _ = _) = true |- _ => apply bool_decide_eq_true in H end.
Qed.

Lemma allow_claimed r : validateMutationRecord r = true → mt_Phase r = mutationDecisionPrepared → mt_Decision r = DecisionAllowOnce →
  mt_ExecutionClaimID r ≠ "".
Proof.
  unfold validateMutationRecord, validateMutationRecordWithLegacy, phase_ok. intros Hv Hp Ha Hc. rewrite Hp, Ha, Hc in Hv. by orb_split.
Qed.

(** What an allow in the log rests on. *)
Definition approval_basis (who : origin) (v : via) (r : mutationRecord) (b : approvedNoticeBinding) : Prop :=
  ∃ n, approvedNoticeBindingFor n = inr b ∧ nt_RequestID n = mt_RequestID r ∧
    (user_choice who (mt_RequestID r) ∨
     ∃ c gr, v = Some (mutation_authority r, c, gr) ∧ approvalCandidateForNotice n = inr c ∧
       gr_GrantID gr = mt_ApprovalGrantID r ∧ gr_Level gr = mt_ApprovalLevel r).

Lemma run_basis newer claim a req older : log_ok cf (newer ++ ERun claim a req :: older) →
  ∃ who v r b, EPut who v r ∈ older ∧ on_file older r ∧ mt_Decision r = DecisionAllowOnce ∧ mt_ApprovedNotice r = Some b ∧
    approval_basis who v r b ∧ claim = Some (mt_ExecutionClaimID r) ∧ mt_ExecutionClaimID r ≠ "" ∧
    a = Some (mutation_authority r) ∧
    ∃ p, same_metadata b p ∧ commits b (ep_Prompt p) ∧ runs_payload cf p req.
Proof.
  intros [(c & -> & (x & b & p & [[(who & v & r & Hput & Hid) _] [t Ht]] & Hc & Hne & Hb & Ha & Hsome & Hval & Hrun)) Hlog]%log_ok_split.
  destruct (log_ok_put _ _ _ _ Hlog Hput) as (Hcon & Hok & Hph & _).
  destruct (identity_fields _ _ Hid) as (Hr1 & Hr2 & _ & Hr4 & Hr5 & Hr6).
  assert (mt_ApprovedNotice r = Some b) as Hb' by congruence. destruct (bound_put _ _ Hok Hph Hb') as [Hallow Hnorm].
  rewrite <- Hr6, Hnorm in Ha. exists who, v, r, b. apply payload_check in Hval as [Hm Hcom].
  split_and!; try done; try congruence; [by exists (mt_touch t x)| |by exists p].
  destruct (Hcon Hallow) as (n & b' & Hb'' & Hbind & Hn & Hor). exists n. split; [congruence|]. split; [done|].
  destruct Hor as [?|(a' & c' & gr & Hv & Hc' & -> & ?)]; [by left|right]. exists c', gr. done.
Qed.

(** What was known when an entry was made is still known. *)
Lemma log_ok_known L e : log_ok cf L → e ∈ L →
  match e with
  | EDecide id p => ∃ r, recorded L r ∧ id = mt_RequestID r ∧ p = decision_payload r
  | EMark id c => ∃ r, recorded L r ∧ id = mt_RequestID r ∧ c = mt_ExecutionClaimID r ∧ c ≠ ""
  | ESubmit id p => ∃ r, recorded L r ∧ id = mt_RequestID r ∧ mt_Result r = Some p ∧ rp_ExecutionClaimID p = mt_ExecutionClaimID r
  | _ => True
  end.
Proof.
  intros HL Hin. destruct (log_ok_entry cf L e HL Hin) as (L0 & He & Hsub).
  destruct e; try done; destruct He as (r & Hg & H); exists r; (split; [by eapply recorded_mono|done]).
Qed.

(** ** At most once *)

Definition run_claim (e : entry) : list (option string) := match e with ERun c _ _ => [c] | _ => [] end.
Lemma runs_once L : log_ok cf L → NoDup (L ≫= used) → NoDup (L ≫= run_claim).
Proof.
  induction L as [|e L IH]; [constructor|]. cbn. intros [He HL] (_ & Hd & Hn)%NoDup_app.
  specialize (IH HL Hn). destruct e; cbn; try done. destruct He as (c & -> & _). constructor; [|done].
  intros (e' & He' & Hin)%list_elem_of_bind. destruct e'; cbn in He'; try by apply elem_of_nil in He'.
  apply list_elem_of_singleton in He' as <-. apply (Hd (TStart c)); [by left|]. apply list_elem_of_bind. eexists. split; [|exact Hin]. by left.
Qed.

(** ** Replays *)

Lemma recorded_on L r : recorded L r → ∃ r', on_record L r' ∧ identity r' = identity r ∧ mt_Result r' = mt_Result r.
Proof.
  intros [[(who & v & r0 & Hp & Hi) _] [t Ht]]. exists (mt_touch t r). split; [|done]. split; [done|]. by exists who, v, r0.
Qed.
(** A decision with a claim is an allow. *)
Lemma claimed_allow r : validateMutationRecord r = true → mt_Phase r = mutationDecisionPrepared → mt_ExecutionClaimID r ≠ "" →
  mt_Decision r = DecisionAllowOnce.
Proof.
  unfold validateMutationRecord, validateMutationRecordWithLegacy, phase_ok, valid_decision. intros Hv Hp Hc. rewrite Hp in Hv. orb_split.
  match goal with H : bool_decide (_ = DecisionAllowOnce) || bool_decide _ = true |- _ => apply orb_true_iff in H as [?|Hd] end; orb_split; [done|].
  rewrite Hd in *. rewrite (bool_decide_false _ Hc) in *. done.
Qed.
Lemma entry_replays older e : entry_ok cf older e → log_ok cf older → replays older e.
Proof.
  intros He Ho. destruct e as [| | | | |id d|id c|id x|]; try done; cbn in He |- *.
  - destruct He as (r & (r' & Hr & Hi & _)%recorded_on & -> & ->). exists r'. split; [done|].
    destruct (identity_fields _ _ Hi) as (? & ? & ? & ? & _). split; [done|]. unfold decision_payload. congruence.
  - destruct He as (r & (r' & Hr & Hi & _)%recorded_on & -> & -> & Hne). exists r'. split; [done|].
    destruct (identity_fields _ _ Hi) as (? & Hc & _). split_and!; [done|done|]. destruct Hr as [_ (who & v & r0 & Hp & Hi0)].
    destruct (log_ok_put _ _ _ _ Ho Hp) as (_ & Hok & Hph & _). destruct (identity_fields _ _ Hi0) as (_ & Hc0 & _ & <- & _).
    apply claimed_allow; congruence.
  - destruct He as (r & Hg & -> & Hx & Hc). destruct (recorded_on _ _ Hg) as (r' & Hr & Hi & Hres). exists r'.
    destruct (identity_fields _ _ Hi) as (? & Hc0 & _). split_and!; [done|done|congruence|congruence|]. rewrite Hc0. by apply Hg.
Qed.
(** A claim with a result was started. *)
Lemma result_claimed gs L c p : tokens_ok (all_tokens gs L) L → log_ok cf L → EResult c p ∈ L → c ≠ "".
Proof.
  intros [_ _ Hst] HL Hin. apply (started_used cf L c HL), Hst. right. apply elem_of_app. right.
  apply list_elem_of_bind. exists (EResult c p). split; [by left|done].
Qed.
Lemma decision_put_unique L r r' : NoDup (L ≫= used) → genuine L r → genuine L r' → mt_DecisionID r = mt_DecisionID r' →
  mt_RequestID r = mt_RequestID r' ∧ decision_payload r = decision_payload r'.
Proof.
  intros Hn [(who & v & r0 & Hp & Hi) _] [(who' & v' & r0' & Hp' & Hi') _] Hd.
  destruct (identity_fields _ _ Hi) as (H1 & _ & H3 & H4 & _). destruct (identity_fields _ _ Hi') as (H1' & _ & H3' & H4' & _).
  assert (r0 = r0') as ->.
  { eapply (put_unique L who v r0 who' v' r0'); [done..|by left|]. rewrite H3, Hd, <- H3'. by left. }
  unfold decision_payload. split; congruence.
Qed.
Lemma result_unique_in L c p p' : NoDup (L ≫= used) → EResult c p ∈ L → EResult c p' ∈ L → p = p'.
Proof.
  intros Hn H H'. assert (EResult c p = EResult c p') as [= ->]; [|done]. eapply (NoDup_bind_unique used); [done..|by left|by left].
Qed.
End log.

Section properties.
Context `{UT : UnicodeTables} (cf : Config) (answer : nat → ∀ B, ext B → B).

(** C1. The receiver runs only what was approved.  In any execution (any calls
    and events, interleaved in any way, with write faults, crashes and
    restarts, and any answers of relay, runtime and local services), every run
    of a runtime is preceded by a journaled allow of the same request: made by
    the recipient for this request, or covered by a standing grant that
    matched its notice under the same authority.  The run is made under the
    approved authority; its prompt has the approved length and SHA-256, its
    request, conversation, title and requester are the approved ones, its
    workspaces are those of the approved access, and it has no directory for
    returned files unless the recipient's policy allows writes. *)
Theorem runs_are_approved s p newer claim a req older :
  all_different answer → installed s → pool_steps cf answer (start s) p →
  r_log (p_state p) = newer ++ ERun claim a req :: older →
  ∃ who v r b, EPut who v r ∈ older ∧ on_file older r ∧ mt_Decision r = DecisionAllowOnce ∧ mt_ApprovedNotice r = Some b ∧
    approval_basis who v r b ∧
    claim = Some (mt_ExecutionClaimID r) ∧ mt_ExecutionClaimID r ≠ "" ∧ a = Some (mutation_authority r) ∧
    commits b (rr_Prompt req) ∧
    rr_RequestID req = bd_RequestID b ∧ rr_ConversationID req = bd_ConversationID b ∧ rr_Title req = bd_Title b ∧
    rr_Requester req = bd_RequesterDisplayName b ∧
    resolveRequestedWorkspaces cf (bd_RequestedAccess b) = inr (rr_Workspaces req) ∧
    (po_AllowWrites (cf_policy cf) = false → rr_ReturnDirectory req = "").
Proof.
  intros Hdiff Hi Hs HL. destruct (reachable_ok cf answer Hdiff s p Hi Hs) as [[_ _ Hlog _ _ _ _] _]. rewrite HL in Hlog.
  destruct (run_basis cf _ _ _ _ _ Hlog) as (who & v & r & b & ? & ? & ? & ? & ? & ? & ? & ? & pl & Hm & Hc & Hrun).
  exists who, v, r, b. destruct Hm as (M1 & M2 & _ & _ & M5 & M6 & _ & M8 & _), Hrun as (R1 & R2 & R3 & R4 & R5 & R6 & R7 & _).
  split_and!; try done; try congruence.
Qed.

(** C2. An approval runs at most once.  In any execution, across crashes,
    restarts, failed writes and repeated recoveries, every run carries the
    execution claim of a journaled allow, no two runs carry the same claim,
    and no two journaled decisions share one: a decision is never executed
    twice. *)
Theorem runs_at_most_once s p :
  all_different answer → installed s → pool_steps cf answer (start s) p →
  let log := r_log (p_state p) in
  NoDup (log ≫= run_claim) ∧
  (∀ c, c ∈ (log ≫= run_claim) → ∃ who v r, EPut who v r ∈ log ∧ on_file log r ∧ mt_Decision r = DecisionAllowOnce ∧ c = Some (mt_ExecutionClaimID r)) ∧
  (∀ who v r who' v' r', EPut who v r ∈ log → EPut who' v' r' ∈ log → mt_Decision r = DecisionAllowOnce →
     mt_ExecutionClaimID r = mt_ExecutionClaimID r' → r = r').
Proof.
  intros Hdiff Hi Hs log. destruct (reachable_ok cf answer Hdiff s p Hi Hs) as [[[Hn _ _] _ Hlog _ _ _ _] _].
  apply all_tokens_log in Hn. split_and!.
  - by eapply runs_once.
  - intros c (e & Hc & Hin)%list_elem_of_bind. destruct e as [| | | |c0 a0 req0| | | |]; cbn in Hc; try by apply elem_of_nil in Hc.
    apply list_elem_of_singleton in Hc as ->. apply list_elem_of_split in Hin as (newer & older & Heq). fold log in Hlog. rewrite Heq in *.
    destruct (run_basis cf _ _ _ _ _ Hlog) as (who & v & r & b & Hput & (r' & Hr' & Hi') & Ha & _ & _ & Hclaim & _).
    assert (∀ e, e ∈ older → e ∈ newer ++ ERun c0 a0 req0 :: older) as Hsub by (intros e He; apply elem_of_app; right; by right).
    exists who, v, r. split_and!; [by apply Hsub| |done|done]. exists r'. split; [by apply Hsub|done].
  - intros who v r who' v' r' Hp Hp' Ha Hc. destruct (log_ok_put _ _ _ _ _ Hlog Hp) as (_ & Hok & Hph & _).
    eapply (put_unique log who v r who' v' r'); [done..|apply claim_in_put_tokens|rewrite Hc; apply claim_in_put_tokens; rewrite <- Hc];
      by eapply allow_claimed.
Qed.

(** C3. What is sent to the relay is what the journal holds, and every retry
    is exact.  In any execution, a decision, a claim or a result is sent only
    after the journal's file was seen to hold a record of its request with that
    very decision, with that claim of an allow, or with that very result: the
    write had succeeded, or the file had been read back after a restart; a
    write that failed is not enough.  Any two sends with one decision
    identifier, or one claim, whatever failures, crashes and restarts lie
    between them, name the same request and carry the same payload. *)
Theorem relay_messages_replay s p :
  all_different answer → installed s → pool_steps cf answer (start s) p →
  let log := r_log (p_state p) in
  (∀ newer e older, log = newer ++ e :: older → replays older e) ∧
  (∀ id d id' d', EDecide id d ∈ log → EDecide id' d' ∈ log → dp_DecisionID d = dp_DecisionID d' → id = id' ∧ d = d') ∧
  (∀ id c id', EMark id c ∈ log → EMark id' c ∈ log → id = id') ∧
  (∀ id r id' r', ESubmit id r ∈ log → ESubmit id' r' ∈ log → rp_ExecutionClaimID r = rp_ExecutionClaimID r' → id = id' ∧ r = r').
Proof.
  intros Hdiff Hi Hs log. destruct (reachable_ok cf answer Hdiff s p Hi Hs) as [[Ht _ Hlog _ _ _ _] _].
  pose proof (all_tokens_log _ _ (tk_once _ _ Ht)) as Hn. fold log in Ht, Hn, Hlog. split_and!.
  - intros newer e older Heq. rewrite Heq in Hlog. apply log_ok_split in Hlog as [He Ho]. by apply (entry_replays cf).
  - intros id d id' d' H H' Hd. apply (log_ok_known _ _ _ Hlog) in H as (r & Hg%recorded_genuine & -> & ->), H' as (r' & Hg'%recorded_genuine & -> & ->).
    by apply (decision_put_unique log).
  - intros id c id' H H'. apply (log_ok_known _ _ _ Hlog) in H as (r & Hg%recorded_genuine & -> & Hc & Hne), H' as (r' & Hg'%recorded_genuine & -> & Hc' & _).
    assert (identity r = identity r') as Hid by (apply (genuine_claim log); congruence). by apply identity_fields in Hid as (? & _).
  - intros id x id' x' H H' Hc. apply (log_ok_known _ _ _ Hlog) in H as (r & Hg%recorded_genuine & -> & Hx & Hcr), H' as (r' & Hg'%recorded_genuine & -> & Hx' & Hcr').
    assert (mt_ExecutionClaimID r = mt_ExecutionClaimID r') as Hcc by congruence.
    pose proof (proj2 Hg _ Hx) as He. pose proof (proj2 Hg' _ Hx') as He'. rewrite <- Hcc in He'.
    split; [|by eapply (result_unique_in log)].
    assert (identity r = identity r') as Hid; [|by apply identity_fields in Hid as (? & _)].
    apply (genuine_claim log); try done. by eapply result_claimed.
Qed.

(** C4. Nothing that looks like a credential is answered, and a failure is one
    short line.  In any execution, every result that is chosen, that the
    journal's file holds, or that is sent to the relay is either a completion
    whose answer is the redaction of a text, and so shows no value of a
    sensitive word, not even its end, and no credential of the relay or of a
    provider; or a failure without answer and files whose error is at most 1283
    bytes of one line. *)
Theorem results_are_presentable s p r :
  all_different answer → installed s → pool_steps cf answer (start s) p →
  let log := r_log (p_state p) in
  (∃ id, ESubmit id r ∈ log) ∨ (∃ x, EJournaled x ∈ log ∧ mt_Result x = Some r) ∨ (∃ claim, EResult claim r ∈ log) →
  presentable r.
Proof.
  intros Hdiff Hi Hs log Hin. destruct (reachable_ok cf answer Hdiff s p Hi Hs) as [[_ _ Hlog _ _ _ _] _].
  assert (∃ claim, EResult claim r ∈ log) as [claim He].
  { destruct Hin as [[id Hin]|[(x & Hin & Hx)|?]]; [| |done].
    - destruct (log_ok_known cf _ _ Hlog Hin) as (x & [_ Hg]%recorded_genuine & _ & Hx & _). eexists. by apply Hg.
    - destruct (log_ok_entry cf _ _ Hlog Hin) as (L0 & [_ Hg] & Hsub). eexists. by apply Hsub, Hg. }
  by destruct (log_ok_entry cf _ _ Hlog He) as (L0 & Hp & _).
Qed.
End properties.
