(* ===== verification/ReceiverProgress.v ===== *)
(** * The receiver makes progress

    Goroutines never block each other for ever: locks are taken in the order of
    their ranks.  Once its context is done the receiver stops: its loops end,
    executions start no further executions, and what is left is a receiver at
    rest. *)

From Stdlib Require Import Relation_Operators Wellfounded.
From S2P Require Import Prelude GoString Protocol Policy LocalStore ApprovalStore Binding ReceiverStores MutationStore Prog Service Pool SafeLogic PoolSound ServiceRuns ReceiverSafety.

(** A goroutine has returned. *)
Definition finished (t : thread) : bool := match t.2 with Ret [] => true | _ => false end.

Section deadlock.
Context `{UT : UnicodeTables} (cf : Config) (answer : nat → ∀ B, ext B → B).
Hypothesis Hslots : (0 < cf_slots cf)%nat.

Lemma off_run_low ls : LRun ∉ ls → Forall (λ h, lock_rank h < lock_rank LRun)%nat ls.
Proof. intros Hn. apply Forall_forall. intros [] Hin; cbn; try lia. by destruct Hn. Qed.
(** A blocked goroutine waits for a lock above all it holds. *)
Lemma blocked_waits s t : thread_ok cf (r_log s) t → finished t = false → thread_step cf answer t s = None →
  ∃ l, l ∈ r_locks s ∧ Forall (λ h, lock_rank h < lock_rank l)%nat (g_locks t.1).
Proof.
  destruct t as [g [[]|B o k]]; [done|done|]. intros Ht _. unfold thread_step. cbn. destruct (enabled _ _ _) eqn:Hen.
  { by destruct (exec _ _ _ _ _) as [[[? ?] ?] ?]. }
  intros _. destruct (Ht (r_log s) ltac:(done)) as [Hpre _].
  destruct o; try done; cbn in Hen, Hpre; apply bool_decide_eq_false in Hen;
    try (exists LRun; split; [by destruct (decide (LRun ∈ r_locks s))|by apply off_run_low]).
  - exists l. split; [|done]. by destruct (decide (l ∈ r_locks s)).
  - exists (LSlot 0). split; [|done]. destruct (decide (LSlot 0 ∈ r_locks s)) as [|Hfree]; [done|]. destruct Hen.
    unfold free_slot. destruct (list_find (λ k0, LSlot k0 ∉ r_locks s) (seq 0 (cf_slots cf))) as [[i k0]|] eqn:Hf; [by eexists|].
    apply list_find_None in Hf. rewrite Forall_forall in Hf. destruct (Hf 0%nat); [|done]. apply elem_of_seq. lia.
Qed.
Lemma finished_holds_nothing L t : thread_ok cf L t → finished t = true → g_locks t.1 = [].
Proof. destruct t as [g [[]|]]; [|done..]. intros Ht _. by apply (Ht L). Qed.
Lemma held_by p l : pool_ok cf answer p → l ∈ r_locks (p_state p) → ∃ t, t ∈ p_threads p ∧ l ∈ g_locks t.1 ∧ finished t = false.
Proof.
  intros [Hw Ht] Hl. rewrite <- (lk_held _ _ _ (w_locks _ _ _ _ Hw)) in Hl.
  apply list_elem_of_bind in Hl as (g & Hl & Hg). apply list_elem_of_fmap in Hg as (t & -> & Hin). exists t. split_and!; [done|done|].
  rewrite Forall_forall in Ht. destruct (finished t) eqn:Hf; [|done]. by rewrite (finished_holds_nothing _ _ (Ht t Hin) Hf), elem_of_nil in Hl.
Qed.

(** Following the locks waited for, ranks grow, so some goroutine is not
    blocked. *)
Lemma blocked_climb p n t : pool_ok cf answer p →
  Forall (not ∘ (λ t, is_Some (thread_step cf answer t (p_state p)))) (p_threads p) →
  t ∈ p_threads p → finished t = false → ∀ l, l ∈ g_locks t.1 → (lock_rank l + n = 6)%nat → False.
Proof.
  intros Hp Hall. revert t. induction n as [n IH] using lt_wf_ind. intros t Hin Hf l Hl Hn.
  assert (thread_step cf answer t (p_state p) = None) as Hnone.
  { rewrite Forall_forall in Hall. apply eq_None_not_Some, (Hall t Hin). }
  destruct (blocked_waits (p_state p) t) as (l' & Hl' & Hr); [|done|done|].
  { destruct Hp as [_ Ht]. rewrite Forall_forall in Ht. by apply Ht. }
  rewrite Forall_forall in Hr. specialize (Hr l Hl). cbn in Hr. assert (lock_rank l' ≤ 6)%nat by (destruct l'; cbn; lia).
  destruct (held_by p l' Hp Hl') as (t' & Hin' & Ht' & Hf'). apply (IH (6 - lock_rank l')%nat ltac:(lia) t' Hin' Hf' l' Ht'). lia.
Qed.
Lemma some_can_step p t : pool_ok cf answer p → t ∈ p_threads p → finished t = false →
  ∃ i, is_Some (pool_step cf answer (Advance i) p).
Proof.
  intros Hp Hin Hf. destruct (decide (Exists (λ t, is_Some (thread_step cf answer t (p_state p))) (p_threads p))) as [He|Hnone].
  - apply Exists_exists in He as (t' & Ht' & [[[st t''] s'] Hs]). apply elem_of_list_lookup in Ht' as [i Hi] || apply list_elem_of_lookup in Ht' as [i Hi].
    exists i. cbn. rewrite Hi. simpl. rewrite Hs. simpl. by eexists.
  - apply not_Exists_Forall in Hnone; [|intros; apply _]. exfalso.
    assert (thread_step cf answer t (p_state p) = None) as Hb.
    { rewrite Forall_forall in Hnone. apply eq_None_not_Some, (Hnone t Hin). }
    destruct (blocked_waits (p_state p) t) as (l & Hl & _); [|done|done|].
    { destruct Hp as [_ Ht]. rewrite Forall_forall in Ht. by apply Ht. }
    destruct (held_by p l Hp Hl) as (t' & Hin' & Ht' & Hf'). assert (lock_rank l ≤ 6)%nat by (destruct l; cbn; lia).
    apply (blocked_climb p (6 - lock_rank l) t' Hp Hnone Hin' Hf' l Ht'). lia.
Qed.
End deadlock.

Create HintDb calm.

(** ** What every operation of a program is *)

Definition op_pred : Type := ∀ B, op B → Prop.
Fixpoint every (P : op_pred) {A} (p : prog A) : Prop := match p with Ret _ => True | @Do _ B o k => P B o ∧ ∀ b, every P (k b) end.
Section every.
Variable P : op_pred.
Lemma every_bind {A B} (p : prog A) (f : A → prog B) : every P p → (∀ a, every P (f a)) → every P (p ≫= f).
Proof. intros Hp Hf. induction p as [a|C o k IH]; [apply Hf|]. cbn in *. destruct Hp as [Ho Hk]. split; [done|]. intros b. by apply IH. Qed.
Lemma every_ebind {E A B} (p : prog (E + A)) (f : A → prog (E + B)) : every P p → (∀ a, every P (f a)) → every P (ebind p f).
Proof. intros Hp Hf. apply every_bind; [done|]. by intros [e|a]; [|apply Hf]. Qed.
Lemma every_perform {B} (o : op B) : P B o → every P (perform o).
Proof. done. Qed.
Lemma every_call {E A} (wrap : E → svc_error) (o : op (E + A)) : P _ o → every P (call wrap o).
Proof. intros Ho. by apply every_bind. Qed.
Lemma every_lock {A} l (p : prog A) : P _ (OLock l) → P _ (OUnlock l) → every P p → every P (with_lock l p).
Proof. intros Hl Hu Hp. split; [done|]. intros _. apply every_bind; [done|]. intros a. by split. Qed.
Lemma every_each {A} (f : A → SP ()) l : (∀ a, every P (f a)) → every P (each f l).
Proof. intros Hf. induction l as [|x l IH]; [done|]. apply every_ebind; [apply Hf|by intros []]. Qed.
End every.

Ltac every_step :=
  match goal with
  | |- every _ (Ret _) => exact I
  | |- every _ (ok _) => exact I
  | |- every _ (fail _) => exact I
  | |- every _ (Service.guard _ _) => exact I
  | |- every _ (pure _ _) => exact I
  | |- every _ (each _ _) => apply every_each; intros ?
  | |- every _ (mbind _ _) => apply every_bind; [|intros ?]
  | |- every _ (ebind _ _) => apply every_ebind; [|intros ?]
  | |- every _ (perform _) => apply every_perform; first [exact I|reflexivity]
  | |- every _ (call _ _) => apply every_call; first [exact I|reflexivity]
  | |- every _ (with_lock _ _) => apply every_lock; [first [exact I|reflexivity]..|]
  | |- every _ (let _ := _ in _) => cbv zeta
  | |- every _ (match ?x with _ => _ end) => destruct x
  end.

(** ** The context is done *)

Section termination.
Context `{UT : UnicodeTables} (cf : Config) (answer : nat → ∀ B, ext B → B).

(** What calls out answer when the context is done. *)
Definition cancelled {B} (x : ext B) : B → Prop :=
  match x in ext B return B → Prop with
  | XDone | XTick => λ b, b = true
  | XNextEvent => λ b, b = None
  | _ => λ _, True
  end.
Definition heeds {B} (o : op B) : B → Prop := match o in op B return B → Prop with OExt x => cancelled x | _ => λ _, True end.
(** At most [n] further rounds follow. *)
Fixpoint rounds (n : nat) : prog (list origin) → Prop :=
  fix go p :=
    match p with
    | Ret l => ∀ o, o ∈ l → match n with O => False | S m => rounds m (goroutine cf o) end
    | Do o k => ∀ b, heeds o b → go (k b)
    end.

Lemma rounds_bind {A} n (p : prog A) f : (∀ a, rounds n (f a)) → rounds n (p ≫= f).
Proof. intros Hf. destruct n; induction p as [a|B o k IH]; try apply Hf; cbn; intros b _; apply IH. Qed.
Lemma rounds_end n : rounds n (Ret []).
Proof. destruct n; by intros o ?%elem_of_nil. Qed.
Lemma rounds_discard {A} n (p : prog A) : rounds n (discard p).
Proof. apply rounds_bind. intros a. apply rounds_end. Qed.
Lemma rounds_ext {A} n (x : ext A) f : (∀ b, cancelled x b → rounds n (f b)) → rounds n (perform (OExt x) ≫= f).
Proof. destruct n; intros Hf b Hb; by apply Hf. Qed.
Lemma rounds_return n : rounds n return_run.
Proof. apply rounds_bind. intros []. apply rounds_end. Qed.

Lemma connect_ends n current : rounds n (goroutine cf (LoopConnect current)).
Proof. apply rounds_ext. intros b ->. apply rounds_return. Qed.
Lemma retry_ends n current ready : rounds n (goroutine cf (LoopRetry current ready)).
Proof. apply rounds_ext. intros b ->. apply rounds_bind. intros healthy. apply rounds_ext. intros b ->. apply rounds_return. Qed.
Lemma beat_ends n : rounds n (goroutine cf CallHeartbeat).
Proof. apply rounds_ext. intros b ->. apply rounds_end. Qed.
Lemma rounds_list n l : (∀ o, o ∈ l → rounds n (goroutine cf o)) → rounds (S n) (Ret l).
Proof. done. Qed.
Lemma goroutine_rounds o : rounds 1 (goroutine cf o).
Proof.
  destruct o; try apply rounds_discard; [|apply beat_ends|apply connect_ends| |apply retry_ends].
  - apply rounds_bind. intros [e|[]]; [apply rounds_end|]. apply rounds_bind. intros [e|[]]; [apply rounds_return|].
    apply rounds_list. intros o [->|[->|[]%elem_of_nil]%elem_of_cons]%elem_of_cons; [apply connect_ends|apply beat_ends].
  - apply rounds_ext. intros b ->. apply rounds_list. intros o ->%list_elem_of_singleton. apply retry_ends.
Qed.
(** Whatever a goroutine is at. *)
Lemma any_rounds p : rounds 2 p.
Proof. induction p as [l|B o k IH]; [|intros b _; apply IH]. apply rounds_list. intros o _. apply goroutine_rounds. Qed.

(** ** Executions start nothing *)

Definition starts_nothing : op_pred := λ B o, match o with OStart _ => False | _ => True end.

Lemma execute_quiet id : every starts_nothing (discard (execute cf id)).
Proof.
  unfold discard, execute, execute_claim, execute_sandboxed, execute_runtime, controller_Execute, controller_run, release_conversation,
    submitFailure, prepareAndSubmitResult, replayPreparedResult, requireCurrentApprovalAuthority, requireCurrentApprovedNotice,
    currentApprovalAuthority, forget, pending_remove, pending_update, journal_remove, journal_get, relay.
  repeat every_step.
Qed.

(** ** Stepping terminates *)

(** Whether a goroutine may start executions, how many rounds may follow, and
    what is left of this one. *)
Abbreviation weight := (bool * nat * prog (list origin))%type.
Definition smaller (y x : weight) : Prop :=
  y.1.1 = x.1.1 ∧ (y.1.2 < x.1.2 ∨ y.1.2 = x.1.2 ∧ match x.2 with Ret _ => False | Do _ k => ∃ b, y.2 = k b end) ∨
  y.1.1 = false ∧ x.1.1 = true.
Lemma smaller_wf : well_founded smaller.
Proof.
  assert (∀ c n p, (c = true → ∀ m q, Acc smaller (false, m, q)) → Acc smaller (c, n, p)) as Hacc.
  { intros c n. induction n as [n IHn] using lt_wf_ind. intros p Hc. induction p as [a|B o k IH]; constructor; intros [[d m] q];
      (intros [[Hd [Hm|[Hm Hq]]]|[Hd Ht]]; cbn in *; [subst d; by apply IHn| |subst d; by apply Hc]); [done|].
    destruct Hq as [b ->]. subst d m. apply IH. }
  intros [[[] n] p]; apply Hacc; [|done]. intros _ m q. by apply Hacc.
Qed.

Definition fits (t : thread) (w : weight) : Prop :=
  w.2 = t.2 ∧ rounds w.1.2 t.2 ∧ (w.1.1 = false → w.1.2 = 0%nat ∧ every starts_nothing t.2).
Lemma fits_any t : fits t (true, 2%nat, t.2).
Proof. split; [done|]. split; [apply any_rounds|done]. Qed.
Lemma exec_started {B} (o : op B) g s id : (exec answer (cf_slots cf) o g s).2 = Some id → ¬ starts_nothing B o.
Proof.
  destruct (exec answer (cf_slots cf) o g s) as [[[b g'] s'] st] eqn:He. cbn [fst snd]. intros ->.
  destruct o; cbn [exec] in He;
  repeat match type of He with
  | (let (_, _) := ?x in _) = _ => destruct x
  | (if ?b then _ else _) = _ => destruct b
  end; first [discriminate He|cbn; tauto].
Qed.

(** Every call out from now on finds the context done. *)
Definition done_from (n : nat) : Prop := ∀ m B (x : ext B), (n ≤ m)%nat → cancelled x (answer m B x).
Lemma exec_heeds {B} (o : op B) g s : done_from (r_ticks s) →
  heeds o (exec answer (cf_slots cf) o g s).1.1.1 ∧ (r_ticks s ≤ r_ticks (exec answer (cf_slots cf) o g s).1.2)%nat.
Proof.
  intros Hd. destruct (exec answer (cf_slots cf) o g s) as [[[b g'] s'] st] eqn:He. cbn [fst snd].
  destruct o; cbn [exec] in He;
  repeat match type of He with
  | (let (_, _) := ?x in _) = _ => destruct x
  | (if ?b then _ else _) = _ => destruct b
  end; injection He as <- <- <- <-; cbn; (split; [try done|lia]). by apply Hd.
Qed.

(** A step replaces a goroutine by what is left of it, or its next round, and
    by what it started. *)
Lemma thread_step_smaller t w s started t' s' : done_from (r_ticks s) → fits t w →
  thread_step cf answer t s = Some (started, t', s') →
  (r_ticks s ≤ r_ticks s')%nat ∧ ∃ ws, Forall2 fits (t' :: started) ws ∧ Forall (λ y, smaller y w) ws.
Proof.
  destruct t as [g p], w as [[c n] q]. intros Hd (Hq & Hr & Hc). cbn in Hq, Hr, Hc. subst q. destruct p as [[|o os]|B o k]; unfold thread_step; cbn [fst snd]; [done|..].
  { intros [= <- <- <-]. split; [done|]. exists ((λ o, (c, Nat.pred n, goroutine cf o)) <$> o :: os).
    assert (∀ o', o' ∈ o :: os → n ≠ 0%nat ∧ fits (fresh cf o') (c, Nat.pred n, goroutine cf o')) as Hall.
    { intros o' Ho'. destruct n as [|n]; [by destruct (Hr o' Ho')|]. split; [done|]. split; [done|]. split; [by apply (Hr o')|].
      cbn. intros Hcf. by destruct (Hc Hcf). }
    split.
    - change (fresh cf o :: (fresh cf <$> os)) with (fresh cf <$> o :: os). apply Forall2_fmap, Forall_Forall2_diag, Forall_forall.
      intros o' Ho'. by apply Hall.
    - apply Forall_fmap, Forall_forall. intros o' Ho'. left. split; [done|]. left. cbn. destruct (Hall o' Ho'). lia. }
  destruct (enabled _ _ _); [|done]. pose proof (exec_heeds o g s Hd) as [Hh Ht]. pose proof (exec_started o g s) as Hstart.
  destruct (exec answer (cf_slots cf) o g s) as [[[b g'] s1] st]. cbn in Hh, Ht, Hstart. intros [= <- <- <-]. split; [done|].
  assert (fits (g', k b) (c, n, k b)) as Hf.
  { split; [done|]. split; [by destruct n; apply Hr|]. intros Hcf. split; [by apply Hc|]. by apply (Hc Hcf). }
  assert (smaller (c, n, k b) (c, n, Do o k)) as Hsm by (left; split; [done|]; right; split; [done|]; by exists b).
  destruct st as [id|]; cbn [spawn]; [|exists [(c, n, k b)]; split; by constructor].
  exists [(c, n, k b); (false, 0%nat, goroutine cf (CallExecute id))]. split.
  - constructor; [done|]. constructor; [|done]. split; [done|]. split; [apply rounds_discard|]. intros _. split; [done|]. apply execute_quiet.
  - constructor; [done|]. constructor; [|done]. right. split; [done|]. destruct c; [done|]. destruct (Hc eq_refl) as [_ [Hs _]]. by destruct (Hstart id).
Qed.

Definition advances (q p : pool) : Prop := ∃ i, pool_step cf answer (Advance i) p = Some q.
Lemma advance_smaller p q ws : done_from (r_ticks (p_state p)) → Forall2 fits (p_threads p) ws → advances q p →
  (r_ticks (p_state p) ≤ r_ticks (p_state q))%nat ∧
  ∃ ws', Forall2 fits (p_threads q) ws' ∧
  ∃ a bs l1 l2, ws = l1 ++ a :: l2 ∧ ws' ≡ₚ l1 ++ bs ++ l2 ∧ Forall (λ b, smaller b a) bs.
Proof.
  intros Hd Hf [i Hstep]. cbn in Hstep. destruct (p_threads p !! i) as [t|] eqn:Hi; [|done]. cbn in Hstep.
  destruct (thread_step cf answer t (p_state p)) as [[[started t'] s']|] eqn:Hts; [|done]. injection Hstep as <-.
  destruct (list_elem_of_split_length _ _ _ Hi) as (l1 & l2 & Hl & ->). cbn [p_threads p_state]. rewrite Hl in Hf |- *.
  rewrite insert_app_r_alt, Nat.sub_diag by done. cbn [list_insert insert].
  apply Forall2_app_inv_l in Hf as (w1 & w2' & Hf1 & Hf2 & ->). apply Forall2_cons_inv_l in Hf2 as (w & w2 & Hw & Hf2 & ->).
  destruct (thread_step_smaller _ _ _ _ _ _ Hd Hw Hts) as (Ht & bs & Hbs & Hsm). split; [done|].
  apply Forall2_cons_inv_l in Hbs as (b & bs' & Hb & Hbs' & ->).
  exists ((w1 ++ b :: w2) ++ bs'). split; [by apply Forall2_app; [apply Forall2_app; [done|constructor]|]|].
  exists w, (b :: bs'), w1, w2. split_and!; [done|solve_Permutation|done].
Qed.
Lemma advances_acc l : Acc (list_ext weight smaller) l → ∀ p ws, ws ≡ₚ l → Forall2 fits (p_threads p) ws →
  done_from (r_ticks (p_state p)) → Acc advances p.
Proof.
  induction 1 as [l _ IH]. intros p ws Hp Hf Hd. constructor. intros q Hadv.
  destruct (advance_smaller p q ws Hd Hf Hadv) as (Ht & ws' & Hf' & a & bs & w1 & w2 & -> & Hw' & Hbs).
  assert (a ∈ l) as Hin by (rewrite <- Hp; apply elem_of_app; right; by left).
  apply list_elem_of_split in Hin as (l1 & l2 & ->). rewrite <- !Permutation_middle in Hp. apply Permutation_cons_inv in Hp.
  apply (IH (l1 ++ bs ++ l2)) with ws'; [by constructor| |done|intros m B x Hm; apply Hd; lia]. rewrite Hw'.
  rewrite (Permutation_app_comm bs l2), (Permutation_app_comm bs w2), !app_assoc. by rewrite Hp.
Qed.
Lemma done_acc p : done_from (r_ticks (p_state p)) → Acc advances p.
Proof.
  intros Hd. eapply (advances_acc ((λ t, (true, 2%nat, t.2)) <$> p_threads p)); [apply wf_list_ext, smaller_wf|reflexivity| |done].
  apply Forall2_fmap_r, Forall_Forall2_diag, Forall_true. apply fits_any.
Qed.
End termination.

(** ** At rest *)

Section rest.
Context `{UT : UnicodeTables} (cf : Config) (answer : nat → ∀ B, ext B → B).

(** What the state says is going on, and the goroutine that will end it. *)
Inductive duty := DutyRunning | DutyActive (id : string).
Definition holds (d : duty) (s : rstate) : Prop :=
  match d with DutyRunning => r_running s = true | DutyActive id => id ∈ r_active s end.
Definition discharges {B} (o : op B) (d : duty) : Prop :=
  match o, d with
  | OSetRunning false, DutyRunning => True
  | OFinish id, DutyActive id' => id = id'
  | _, _ => False
  end.
Definition carries (o : origin) (d : duty) : Prop :=
  match o, d with
  | (LoopConnect _ | LoopStream _ _ | LoopRetry _ _), DutyRunning => True
  | CallExecute id, DutyActive id' => id = id'
  | _, _ => False
  end.
Fixpoint owes (d : duty) (p : prog (list origin)) : Prop :=
  match p with
  | Ret l => ∃ o, o ∈ l ∧ carries o d
  | Do o k => discharges o d ∨ ∀ b, owes d (k b)
  end.
(** Whoever sets the running flag will clear it. *)
Definition begins {B} (o : op B) : bool := match o with OSetRunning b => b | _ => false end.
Definition never_begins : op_pred := λ B o, begins o = false.
Fixpoint opens (p : prog (list origin)) : Prop :=
  match p with
  | Ret _ => True
  | Do o k => (begins o = true → ∀ b, owes DutyRunning (k b)) ∧ ∀ b, opens (k b)
  end.

(** A part of a goroutine that does it, whatever comes after. *)
Fixpoint meets (d : duty) {A} (p : prog A) : Prop :=
  match p with Ret _ => False | Do o k => discharges o d ∨ ∀ b, meets d (k b) end.
Lemma meets_bind {A B} d (p : prog A) (f : A → prog B) : (∀ a, meets d (f a)) → meets d (p ≫= f).
Proof. intros Hf. induction p as [a|C o k IH]; [apply Hf|]. right. apply IH. Qed.
Lemma owes_meets {A} d (p : prog A) f : meets d p → owes d (p ≫= f).
Proof. induction p as [a|C o k IH]; [done|]. intros [Ho|Hk]; [by left|right; intros b; by apply IH]. Qed.
Lemma owes_bind {A} d (p : prog A) f : (∀ a, owes d (f a)) → owes d (p ≫= f).
Proof. intros Hf. induction p as [a|B o k IH]; [apply Hf|]. right. apply IH. Qed.
Lemma owes_return : owes DutyRunning return_run.
Proof. apply owes_meets. right. intros []. by left. Qed.
Lemma owes_next d l o : o ∈ l → carries o d → owes d (Ret l).
Proof. intros Ho Hc. by exists o. Qed.
Lemma carried o d : carries o d → owes d (goroutine cf o).
Proof.
  destruct o, d; intros Hc; try done; cbn [goroutine].
  - cbn in Hc. subst. apply owes_meets, meets_bind. intros r. apply meets_bind. intros []. by left.
  - apply owes_bind. intros []; [apply owes_return|]. by eapply owes_next; [left|].
  - apply owes_bind. intros [e|]; [|by eapply owes_next; [left|]]. cbv zeta. apply owes_bind. intros [|]; by eapply owes_next; [left|].
  - apply owes_bind. intros done1. apply owes_bind. intros healthy. apply owes_bind. intros []; [apply owes_return|].
    destruct (next_delay _ _) as [delay next]. apply owes_bind. intros []. by eapply owes_next; [left|].
Qed.

Lemma opens_every p : every never_begins p → opens p.
Proof. induction p as [l|B o k IH]; [done|]. intros [Ho Hk]. split; [unfold never_begins in Ho; congruence|]. intros b. apply IH, Hk. Qed.
Lemma opens_bind {A} (p : prog A) f : every never_begins p → (∀ a, opens (f a)) → opens (p ≫= f).
Proof. intros Hp Hf. induction p as [a|B o k IH]; [apply Hf|]. destruct Hp as [Ho Hk]. split; [unfold never_begins in Ho; congruence|]. intros b. apply IH, Hk. Qed.

(** ** Only [Run] sets the flag *)

Ltac calm := repeat first [solve [auto 2 with calm]|every_step].
Lemma mark_resumes_calm l : every never_begins (mark_resumes l).
Proof. induction l as [|n l IH]; cbn [mark_resumes]; unfold ResumesConversation; calm; apply IH. Qed.
Lemma forget_calm id : every never_begins (forget id).
Proof. unfold forget, pending_remove, journal_remove. calm. Qed.
Lemma update_calm id st : every never_begins (pending_update id st).
Proof. unfold pending_update. calm. Qed.
Lemma active_calm id : every never_begins (hasActiveRequest id).
Proof. unfold hasActiveRequest. calm. Qed.
Lemma busy_calm : every never_begins hasActiveExecution.
Proof. unfold hasActiveExecution. calm. Qed.
Lemma current_calm : every never_begins currentApprovalAuthority.
Proof. unfold currentApprovalAuthority. calm. Qed.
Lemma authority_calm r : every never_begins (requireCurrentApprovalAuthority r).
Proof. unfold requireCurrentApprovalAuthority. calm; apply current_calm. Qed.
Lemma notice_calm r : every never_begins (requireCurrentApprovedNotice r).
Proof. unfold requireCurrentApprovedNotice. calm. Qed.
#[local] Hint Resolve mark_resumes_calm forget_calm update_calm current_calm authority_calm notice_calm : calm.
#[local] Hint Resolve active_calm busy_calm : calm.
Lemma replay_calm r : every never_begins (replayPreparedResult r).
Proof. unfold replayPreparedResult, relay. calm. Qed.
Lemma start_calm id st : every never_begins (startExecution id st).
Proof. unfold startExecution, journal_get. calm. Qed.
#[local] Hint Resolve replay_calm start_calm : calm.
Lemma handle_calm id r st : every never_begins (handleDecisionMutation id r st).
Proof. unfold handleDecisionMutation, handle_accepted. calm. Qed.
#[local] Hint Resolve handle_calm : calm.
Lemma decide_calm id r : every never_begins (decide_and_handle id r).
Proof. unfold decide_and_handle, relay. calm. Qed.
#[local] Hint Resolve decide_calm : calm.
Lemma commit_calm id r : every never_begins (commitAllowOnce id r).
Proof. unfold commitAllowOnce. calm. Qed.
Lemma redecide_calm id r : every never_begins (redecide id r).
Proof. unfold redecide, ensurePreparedStandingGrant. calm. Qed.
Lemma still_calm r refused k : every never_begins refused → every never_begins k → every never_begins (if_still_bound r refused k).
Proof. intros ? ?. unfold if_still_bound. calm; done. Qed.
#[local] Hint Resolve commit_calm redecide_calm : calm.
Lemma locked_calm id st : every never_begins (recoverOperationLocked id st).
Proof.
  unfold recoverOperationLocked, recover_awaiting, recover_accepted, recover_running, recover_terminal, journal_get, journal_remove.
  repeat first [solve [auto 2 with calm]|apply still_calm|every_step].
Qed.
#[local] Hint Resolve locked_calm : calm.
Lemma recover_calm id st : every never_begins (recoverOperation id st).
Proof. unfold recoverOperation. calm. Qed.
#[local] Hint Resolve recover_calm : calm.
Lemma prepare_calm n d l g p : every never_begins (prepareDecision n d l g p).
Proof. unfold prepareDecision, allow_binding, journal_decision, newExecutionClaimID, newOpaqueID, journal_get. calm. Qed.
#[local] Hint Resolve prepare_calm : calm.
Lemma allow_calm id l g p m : every never_begins (allowOnceWithApprovalForNotice cf id l g p m).
Proof. unfold allowOnceWithApprovalForNotice, recheck_match, recover_committed, journal_get. calm. Qed.
#[local] Hint Resolve allow_calm : calm.
Lemma auto_calm n : every never_begins (maybeAutoApprove cf n).
Proof. unfold maybeAutoApprove. calm. Qed.
#[local] Hint Resolve auto_calm : calm.
Lemma event_calm e : every never_begins (handleEvent cf e).
Proof. unfold handleEvent, handle_notice, ResumesConversation. calm. Qed.
Lemma reconcile_calm : every never_begins (reconcile cf).
Proof. unfold reconcile, reconcile_notice, reconcile_operation, relay. calm. Qed.
Lemma activate_calm card : every never_begins (activateApprovalAuthority cf card).
Proof. unfold activateApprovalAuthority, prune_call. calm. Qed.
Lemma stop_calm : every never_begins stop.
Proof. unfold stop. calm. Qed.
#[local] Hint Resolve event_calm reconcile_calm activate_calm stop_calm : calm.
Lemma begin_opens f : (∀ a, opens (f a)) → owes DutyRunning (f (inr tt)) → opens (run_begin ≫= f).
Proof.
  intros Hf Ho. unfold run_begin, with_lock. cbn. split; [done|]. intros []. split; [done|]. intros running.
  assert (∀ e, opens (Do (OUnlock LRun) (λ _, f (inl e)))) as Hfail by (intros e; split; [done|]; intros; apply Hf).
  destruct running; cbn; [apply Hfail|]. split; [done|]. intros [e|[]]; cbn; [apply Hfail|]. split; [done|]. intros [e|[]]; cbn; [apply Hfail|].
  split; [|intros []; cbn; split; [done|]; intros []; apply Hf]. intros _ []. right. by intros [].
Qed.
Lemma prologue_calm : every never_begins (run_prologue cf).
Proof. unfold run_prologue, relay. calm. Qed.
Lemma Run_opens : opens (Run cf).
Proof.
  apply begin_opens.
  - intros [e|[]]; [done|]. apply opens_bind; [apply prologue_calm|]. intros [e|[]]; [|done]. apply opens_every. unfold return_run. calm.
  - apply owes_bind. intros [e|[]]; [apply owes_return|]. by eapply owes_next; [left|].
Qed.
Lemma goroutine_opens o : opens (goroutine cf o).
Proof.
  destruct o; cbn [goroutine]; [..|apply Run_opens| | | | | | | |]; apply opens_every; unfold discard, AllowOnce, allowOnceWithApproval, Approve, approve_standing, save_grant,
    allowOnceWithApproval, Deny, InspectProposal, RevokeApprovalGrant, ApprovalGrants, heartbeatLoop, heartbeat, execute, execute_claim,
    execute_sandboxed, execute_runtime, controller_Execute, controller_run, release_conversation, submitFailure, prepareAndSubmitResult,
    loop_connect, loop_stream, loop_retry, return_run, relay, journal_get; calm.
Qed.

(** ** The invariant *)

Record dutiful (p : pool) : Prop := mkDutiful {
  du_opens : Forall (λ t : thread, opens t.2) (p_threads p);
  du_owed : ∀ d, holds d (p_state p) → Exists (λ t : thread, owes d t.2) (p_threads p) }.

(** What a step leaves to be done was owed before, or is owed by the goroutine
    or by what it started. *)
Lemma exec_duty {B} (o : op B) g s b g' s' st d : exec answer (cf_slots cf) o g s = (b, g', s', st) → holds d s' →
  (holds d s ∧ ¬ discharges o d) ∨ (begins o = true ∧ d = DutyRunning) ∨ (∃ id, st = Some id ∧ d = DutyActive id).
Proof.
  intros He Hh. destruct o; cbn [exec] in He;
  repeat match type of He with
  | (let (_, _) := ?x in _) = _ => destruct x
  | (if ?b then _ else _) = _ => destruct b
  end; injection He as <- <- <- <-; destruct d; cbn in Hh |- *; auto; try done.
  all: try (left; split; [assumption|tauto]).
  - apply elem_of_union in Hh as [->%elem_of_singleton|Hh]; [right; right; by eexists|left; split; [done|tauto]].
  - apply elem_of_difference in Hh as [Hh Hn]. left. split; [done|]. intros ->. by apply Hn, elem_of_singleton.
  - left. split; [exact Hh|]. by destruct b0; intros [].
Qed.
Lemma thread_duty t s started t' s' d : opens t.2 → thread_step cf answer t s = Some (started, t', s') →
  Forall (λ t : thread, opens t.2) (t' :: started) ∧
  (holds d s' → (holds d s ∧ (owes d t.2 → Exists (λ t : thread, owes d t.2) (t' :: started))) ∨ Exists (λ t : thread, owes d t.2) (t' :: started)).
Proof.
  destruct t as [g [[|o os]|B o k]]; unfold thread_step; cbn [fst snd]; intros Ho; [done|..].
  { intros [= <- <- <-]. change (fresh cf o :: (fresh cf <$> os)) with (fresh cf <$> o :: os). split.
    - apply Forall_fmap, Forall_true. intros x. apply goroutine_opens.
    - intros Hh. left. split; [done|]. intros (x & Hx & Hc). apply Exists_fmap, Exists_exists. exists x. split; [done|]. by apply carried. }
  destruct (enabled _ _ _); [|done]. destruct (exec answer (cf_slots cf) o g s) as [[[b g'] s1] st] eqn:Hex. intros [= <- <- <-].
  destruct Ho as [Hb Hk]. split.
  - constructor; [apply Hk|]. destruct st; [|done]. apply Forall_singleton, goroutine_opens.
  - intros Hh. destruct (exec_duty _ _ _ _ _ _ _ _ Hex Hh) as [[Hs Hn]|[[Hbo ->]|(id & -> & ->)]].
    + left. split; [done|]. intros [?|Ho]; [done|]. left. apply Ho.
    + right. left. by apply Hb.
    + right. right. left. by apply carried.
Qed.
Lemma step_dutiful c p q : dutiful p → pool_step cf answer c p = Some q → dutiful q.
Proof.
  intros [Ho Hd]. destruct c as [i|o|]; cbn.
  - destruct (p_threads p !! i) as [t|] eqn:Hi; [|done]. cbn. destruct (thread_step cf answer t (p_state p)) as [[[started t'] s']|] eqn:Hts; [|done].
    intros [= <-]. destruct (list_elem_of_split_length _ _ _ Hi) as (l1 & l2 & Hl & ->). rewrite Hl in Ho, Hd |- *.
    rewrite insert_app_r_alt, Nat.sub_diag by done. cbn [list_insert insert]. apply Forall_app in Ho as [Ho1 [Ho Ho2]%Forall_cons].
    constructor; cbn [p_threads p_state].
    + destruct (thread_duty t _ _ _ _ DutyRunning Ho Hts) as [[? ?]%Forall_cons _]. by rewrite !Forall_app, Forall_cons.
    + intros d Hh. destruct (thread_duty t _ _ _ _ d Ho Hts) as [_ Hdd].
      assert (Exists (λ t : thread, owes d t.2) (l1 ++ l2) ∨ Exists (λ t : thread, owes d t.2) (t' :: started)) as Hex.
      { destruct (Hdd Hh) as [[Hs Hon]|?]; [|by right]. specialize (Hd d Hs).
        apply Exists_app in Hd as [?|[?|?]%Exists_cons]; [left; apply Exists_app; by left|right; by apply Hon|left; apply Exists_app; by right]. }
      rewrite <- app_assoc, !Exists_app. cbn [app]. rewrite Exists_app in Hex. rewrite Exists_cons in Hex |- *. tauto.
  - destruct (callable o); [|done]. intros [= <-]. constructor; cbn.
    + apply Forall_app. split; [done|]. apply Forall_singleton, goroutine_opens.
    + intros d Hh. apply Exists_app. left. by apply Hd.
  - intros [= <-]. unfold restart. destruct (newMutationStore _ _ _) as [w r]. constructor; cbn; [done|]. by intros [] ?.
Qed.
Lemma steps_dutiful p q : dutiful p → pool_steps cf answer p q → dutiful q.
Proof. intros Hp Hs. induction Hs as [|p q r c Hs IH Hstep]; [done|]. eapply step_dutiful; [by apply IH|done]. Qed.
Lemma start_dutiful s : r_running s = false → r_active s = ∅ → dutiful (start s).
Proof. intros Hr Ha. constructor; [done|]. intros [|id] Hh; cbn in Hh; [congruence|]. rewrite Ha in Hh. by apply not_elem_of_empty in Hh. Qed.
Lemma owes_unfinished d t : owes d t.2 → finished t = false.
Proof. destruct t as [g [[]|]]; [|done|done]. cbn. by intros (o & ?%elem_of_nil & _). Qed.

(** Nothing runs, nothing is held, and every goroutine has returned. *)
Definition at_rest (p : pool) : Prop :=
  Forall (λ t, finished t = true) (p_threads p) ∧ r_running (p_state p) = false ∧ r_active (p_state p) = ∅ ∧ r_locks (p_state p) = [].
Lemma stuck_at_rest p : (0 < cf_slots cf)%nat → pool_ok cf answer p → dutiful p →
  (∀ i, pool_step cf answer (Advance i) p = None) → at_rest p.
Proof.
  intros Hslots Hok [_ Hd] Hstuck.
  assert (Forall (λ t, finished t = true) (p_threads p)) as Hall.
  { apply Forall_forall. intros t Ht. destruct (finished t) eqn:Hf; [done|]. exfalso.
    destruct (some_can_step cf answer Hslots p t Hok Ht Hf) as [i [q Hq]]. by rewrite Hstuck in Hq. }
  assert (∀ d, ¬ holds d (p_state p)) as Hnone.
  { intros d (t & Ht & Ho)%Hd%Exists_exists. rewrite Forall_forall in Hall. specialize (Hall t Ht). cbn in Hall.
    by rewrite (owes_unfinished d t Ho) in Hall. }
  split; [done|]. split; [|split].
  - destruct (r_running (p_state p)) eqn:Hr; [|done]. by destruct (Hnone DutyRunning).
  - apply set_eq. intros id. split; [|by intros ?%not_elem_of_empty]. intros Hid. by destruct (Hnone (DutyActive id)).
  - destruct (r_locks (p_state p)) as [|l ls] eqn:Hl; [done|]. exfalso.
    destruct (held_by cf answer p l Hok) as (t & Ht & _ & Hf); [rewrite Hl; by left|]. rewrite Forall_forall in Hall. specialize (Hall t Ht). cbn in Hall. congruence.
Qed.
Lemma advanced_steps p q : rtc (λ x y, advances cf answer y x) p q → pool_steps cf answer p q.
Proof.
  intros Hs. induction Hs as [p|p q r [i Hi] _ IH]; [apply steps_refl|].
  assert (∀ x y, pool_steps cf answer x y → ∀ z, pool_steps cf answer y z → pool_steps cf answer x z) as Htrans.
  { intros x y Hxy z Hyz. induction Hyz as [|y u v c Hyz IH' Hv]; [done|]. eapply steps_next; [by apply IH'|done]. }
  eapply Htrans; [|exact IH]. eapply steps_next; [apply steps_refl|exact Hi].
Qed.
End rest.

Section properties.
Context `{UT : UnicodeTables} (cf : Config) (answer : nat → ∀ B, ext B → B).

(** C5. The receiver never deadlocks.  In every reachable state, if some
    goroutine has not finished then some goroutine can take a step: the
    reconcile lock, the decision lock, the journal lock, the conversation
    gates, the execution slots and the lock of the running flag are always
    taken in this order and always released. *)
Theorem receiver_never_deadlocks s p t :
  (0 < cf_slots cf)%nat → all_different answer → installed s → pool_steps cf answer (start s) p →
  t ∈ p_threads p → finished t = false → ∃ i, is_Some (pool_step cf answer (Advance i) p).
Proof.
  intros Hslots Hdiff Hi Hs Hin Hf. eapply some_can_step; [done| |done|done]. by eapply reachable_ok.
Qed.

(** C6. The receiver stops when it is told to.  From any reachable state, once
    the context is done (what is asked of it says so, the event stream ends,
    and no further call arrives), the goroutines take only finitely many steps,
    in any order and whatever else the outside world answers: the loop of Run,
    the heartbeat and the executions all come to an end.  And where no step is
    left, every goroutine has returned, the receiver is not running, no
    execution is active and no lock is held. *)
Theorem receiver_shuts_down s p :
  (0 < cf_slots cf)%nat → all_different answer → installed s → r_running s = false → r_active s = ∅ →
  pool_steps cf answer (start s) p → done_from answer (r_ticks (p_state p)) →
  Acc (advances cf answer) p ∧
  (∀ q, rtc (λ x y, advances cf answer y x) p q → (∀ i, pool_step cf answer (Advance i) q = None) → at_rest q).
Proof.
  intros Hslots Hdiff Hi Hr Ha Hs Hdone. split; [by apply done_acc|]. intros q Hq Hstuck.
  assert (pool_steps cf answer (start s) q) as Hsq.
  { clear -Hs Hq. apply (advanced_steps cf answer) in Hq. induction Hq as [|p q r c _ IH Hv]; [done|]. eapply steps_next; [by apply IH|done]. }
  apply (stuck_at_rest cf answer); [done|by eapply reachable_ok| |done]. eapply steps_dutiful; [by apply start_dutiful|exact Hsq].
Qed.
End properties.
