(* ===== verification/ReceiverWitness.v ===== *)
(** * The receiver at a concrete day

    A teammate's request arrives, the recipient allows it once, and it runs;
    then the same with a crash right after the decision was sent, and with two
    calls competing for the decision lock. *)

From S2P Require Import Prelude GoString Sha256 Protocol Policy LocalStore ApprovalStore Binding BindingFacts ReceiverStores MutationStore Prog Service Pool SafeLogic PoolSound ReceiverSafety ReceiverProgress.

Local Open Scope Z_scope.
#[local] Existing Instance ascii_tables.

Definition opaque_id (prefix digits : string) : string :=
  prefix +:+ "00000000000000000000000000000000000000000000000000000000000000" +:+ digits.
Definition bob_card : AgentCard :=
  mkAgentCard "agent_bob" "bob" "Bob" "laptop" AvailabilityAvailable true
    (mkRuntimeDescriptor "" "" "" (mkRuntimeCapabilities false false false false false false false))
    PermissionReadOnly [] [] true 0.
Definition full_controls : Capabilities :=
  mkCapabilities "claude" "Claude" "1" true "" true true true true true
    (mkPolicyCapabilities EnforcementNative EnforcementNative EnforcementNative EnforcementNative EnforcementNative EnforcementNative EnforcementNative).
Definition bob_policy : Policy := mkPolicy PolicyReadOnly false false false false [] [].
Definition bob_config : Config := mkConfig false {[ "main" := "/work/main" ]} bob_policy "relay-1" "claude" 1.

Definition asked_prompt : string := "Please look".
Definition asked_access : list RequestedAccess := [mkRequestedAccess "main" PermissionReadOnly].
Definition bob_notice : RequestNotice :=
  mkRequestNotice "req_1" "conv_1" StatusAwaitingApproval "agent_alice" "alice" "Alice" "Title" "Please" 11
    (sha256_hex asked_prompt) asked_access [] 5 600 false.
Definition bob_payload : ExecutionPayload :=
  mkExecutionPayload "req_1" "conv_1" "agent_alice" "alice" "Alice" "Title" asked_prompt asked_access [] 600.
Definition bob_ids (n : nat) : option string :=
  match n with
  | 5 => Some (opaque_id "decision_" "01")
  | 6 => Some (opaque_id "claim_" "02")
  | _ => None
  end%nat.
Definition honest_answer (n : nat) (B : Type) (x : ext B) : B :=
  match x in ext B return B with
  | XProbe => Some full_controls
  | XHeartbeat => inr (Some bob_card)
  | XInbox => inr [bob_notice]
  | XGetRequest _ => inl RelayNotFound
  | XDecide id _ => inr (Some (mkMutationResponse id "conv_1" StatusAccepted))
  | XInspectProposal _ => inr None
  | XFetchExecution _ => inr (Some bob_payload)
  | XMarkRunning id _ => inr (Some (mkMutationResponse id "conv_1" StatusRunning))
  | XSubmitResult id p => inr (Some (mkMutationResponse id "conv_1" (rp_State p)))
  | XNewID _ => bob_ids n
  | XMaterialize _ => None
  | XCollectResults _ => None
  | XCleanup _ => tt
  | XRun _ => inr (mkRunResult "done with sk-1" None)
  | XDone => false
  | XErrorText => "failed"
  | XNextEvent => if (n =? 4)%nat then Some (EventPeerRequest (Some bob_notice)) else None
  | XTick => false
  | XWait _ => tt
  end.
Definition new_file {S F} (m : S) : local S F := mkLocal m FileAbsent [] (λ n, Z.of_nat n) 0.
Definition bob_disk : rstate :=
  mkState (new_file ∅) (new_file ∅) (new_file (mkApprovals ∅ ∅)) (new_file ∅) (mkAuthority "" "") ∅ false [] 0 [].
Definition steps (k i : nat) : list choice := Advance <$> replicate k i.
(** Run starts the heartbeat, connects, and handles the first event of its
    stream, which is the teammate's request. *)
Definition bob_up : list choice := [Restart; Arrive CallRun] ++ steps 40 0.
Definition bob_day : list choice := bob_up ++ [Arrive (CallAllowOnce "req_1")] ++ steps 60 2 ++ steps 60 3.
Definition bob_end : pool := run_choices bob_config honest_answer bob_day (start bob_disk).

(** The process is killed after its fourteenth step of the approval, which
    sent the decision; the next run of the service sends it again. *)
Definition bob_crash : list choice :=
  bob_up ++ [Arrive (CallAllowOnce "req_1")] ++ steps 14 2 ++ [Restart; Arrive CallRun] ++ steps 40 0 ++ steps 60 1.
Definition crash_end : pool := run_choices bob_config honest_answer bob_crash (start bob_disk).
(** Two decisions compete. *)
Definition bob_race : list choice := bob_up ++ [Arrive (CallAllowOnce "req_1"); Arrive (CallDeny "req_1"); Advance 2; Advance 3].
Definition race : pool := run_choices bob_config honest_answer bob_race (start bob_disk).

(** The context is done from the sixth answer on. *)
Definition closing_answer (n : nat) (B : Type) (x : ext B) : B :=
  match x in ext B return B → B with
  | XDone | XTick => λ _, (5 <=? n)%nat
  | _ => λ b, b
  end (honest_answer n B x).
Definition up : pool := run_choices bob_config closing_answer bob_up (start bob_disk).
Definition down : pool := run_choices bob_config closing_answer (steps 40 0 ++ steps 40 1) up.

Lemma bob_installed : installed bob_disk.
Proof. by split_and!. Qed.
Lemma honest_different : all_different honest_answer.
Proof.
  intros n m p q id Hn Hm. cbn in Hn, Hm. unfold bob_ids in Hn, Hm.
  destruct n as [|[|[|[|[|[|[|n]]]]]]]; try discriminate Hn; destruct m as [|[|[|[|[|[|[|m]]]]]]]; try discriminate Hm; try reflexivity;
    rewrite <- Hn in Hm; discriminate Hm.
Qed.

Lemma day_steps : pool_steps bob_config honest_answer (start bob_disk) bob_end.
Proof. apply run_choices_steps. Qed.
Lemma crash_steps : pool_steps bob_config honest_answer (start bob_disk) crash_end.
Proof. apply run_choices_steps. Qed.
Lemma up_steps : pool_steps bob_config closing_answer (start bob_disk) up.
Proof. apply run_choices_steps. Qed.
Lemma down_steps : rtc (λ x y, advances bob_config closing_answer y x) up down.
Proof.
  unfold down. generalize up. assert (Forall (λ c, ∃ i, c = Advance i) (steps 40 0 ++ steps 40 1)) as Hall.
  { apply Forall_app. split; apply Forall_fmap, Forall_true; intros i; by exists i. }
  induction Hall as [|c l [i ->] _ IH]; intros p; [done|]. unfold run_choices. cbn [foldl].
  destruct (pool_step bob_config closing_answer (Advance i) p) as [q|] eqn:Hq; [|apply IH].
  eapply rtc_l; [exists i; exact Hq|]. apply IH.
Qed.
Lemma closing_different : all_different closing_answer.
Proof. exact honest_different. Qed.
Lemma up_done : done_from closing_answer (r_ticks (p_state up)).
Proof.
  intros m B x Hm. replace (r_ticks (p_state up)) with 5%nat in Hm by (vm_compute; reflexivity).
  destruct m as [|[|[|[|[|m]]]]]; try lia. destruct x; first [exact I|reflexivity].
Qed.
Lemma down_stuck i : pool_step bob_config closing_answer (Advance i) down = None.
Proof. destruct i as [|[|i]]; vm_compute; reflexivity. Qed.
Lemma race_steps : pool_steps bob_config honest_answer (start bob_disk) race.
Proof. apply run_choices_steps. Qed.

(** The run of the day, and what came before it. *)
Abbreviation day_log := (r_log (p_state bob_end)).
Lemma runs_are_approved_witness : ∃ c a r b, day_log !! 3%nat = Some (ERun c a r) ∧ commits b (rr_Prompt r) ∧ rr_Title r = bd_Title b.
Proof.
  assert (match day_log !! 3%nat with Some (ERun _ _ _) => true | _ => false end = true) as Hrun by (vm_compute; reflexivity).
  destruct (day_log !! 3%nat) as [[| | | |c a r| | | |]|] eqn:H3; try discriminate Hrun. pose proof (take_drop_middle _ _ _ H3) as Hlog.
  destruct (runs_are_approved bob_config honest_answer bob_disk bob_end _ c a r _ honest_different bob_installed day_steps (eq_sym Hlog))
    as (_ & _ & _ & b & _ & _ & _ & _ & _ & _ & _ & _ & Hc & _ & _ & Ht & _).
  exists c, a, r, b. exact (conj eq_refl (conj Hc Ht)).
Defined.
Lemma runs_at_most_once_witness : NoDup (r_log (p_state crash_end) ≫= run_claim) ∧ length (r_log (p_state crash_end) ≫= run_claim) = 1%nat.
Proof.
  split; [|vm_compute; reflexivity].
  apply (runs_at_most_once bob_config honest_answer bob_disk crash_end honest_different bob_installed crash_steps).
Defined.
(** The decision was sent twice; every send of it was the same. *)
Definition bob_decision : DecisionPayload := mkDecisionPayload DecisionAllowOnce (opaque_id "decision_" "01").
Lemma relay_messages_replay_witness :
  r_log (p_state crash_end) !! 8%nat = Some (EDecide "req_1" bob_decision) ∧ r_log (p_state crash_end) !! 11%nat = Some (EDecide "req_1" bob_decision) ∧
  ∀ id d, EDecide id d ∈ r_log (p_state crash_end) → dp_DecisionID d = dp_DecisionID bob_decision → id = "req_1" ∧ d = bob_decision.
Proof.
  assert (r_log (p_state crash_end) !! 8%nat = Some (EDecide "req_1" bob_decision)) as H8 by (vm_compute; reflexivity).
  split; [exact H8|]. split; [vm_compute; reflexivity|]. intros id d Hin Hd.
  exact (proj1 (proj2 (relay_messages_replay bob_config honest_answer bob_disk crash_end honest_different bob_installed crash_steps))
    id d "req_1" bob_decision Hin (list_elem_of_lookup_2 _ _ _ H8) Hd).
Defined.

(** The runtime answered with a credential; it does not leave the machine. *)
Lemma results_are_presentable_witness : ∃ r, day_log !! 0%nat = Some (ESubmit "req_1" r) ∧ rp_Answer r = "done with [REDACTED]" ∧ presentable r.
Proof.
  assert (match day_log !! 0%nat with Some (ESubmit id r) => bool_decide (id = "req_1") && bool_decide (rp_Answer r = "done with [REDACTED]") | _ => false end = true)
    as Hsub by (vm_compute; reflexivity).
  destruct (day_log !! 0%nat) as [[| | | | | | |id r|]|] eqn:H0; try discriminate Hsub.
  apply andb_true_iff in Hsub as [->%bool_decide_eq_true Ha%bool_decide_eq_true]. exists r. split; [done|]. split; [exact Ha|].
  exact (results_are_presentable bob_config honest_answer bob_disk bob_end r honest_different bob_installed day_steps
    (or_introl (ex_intro _ "req_1" (list_elem_of_lookup_2 _ _ _ H0)))).
Defined.

Lemma receiver_never_deadlocks_witness : ∃ i, is_Some (pool_step bob_config honest_answer (Advance i) race).
Proof.
  assert (match p_threads race !! 3%nat with Some t => negb (finished t) | None => false end = true) as Ht by (vm_compute; reflexivity).
  destruct (p_threads race !! 3%nat) as [t|] eqn:Hi; [|discriminate Ht].
  apply (receiver_never_deadlocks bob_config honest_answer bob_disk race t); [cbn; lia|apply honest_different|apply bob_installed
    |apply race_steps|exact (list_elem_of_lookup_2 _ _ _ Hi)|apply negb_true_iff; exact Ht].
Defined.
(** Run and its heartbeat stop; the state is that of a stopped receiver. *)
Lemma receiver_shuts_down_witness : r_running (p_state up) = true ∧ Acc (advances bob_config closing_answer) up ∧ at_rest down.
Proof.
  destruct (receiver_shuts_down bob_config closing_answer bob_disk up ltac:(cbn; lia) closing_different bob_installed eq_refl eq_refl
    up_steps up_done) as [Hacc Hrest].
  split; [vm_compute; reflexivity|]. split; [exact Hacc|]. exact (Hrest down down_steps down_stuck).
Defined.
