(* ===== verification/NoticeBounds.v ===== *)
(** * The receiver's bounds on a notice

    Which notices may be approved: the limits on attachments, whose 64-bit
    total never overflows, and the access that resolves to local workspaces. *)

From S2P Require Import Prelude GoString Protocol Policy LocalStore ApprovalStore Binding BindingFacts ReceiverStores MutationStore Prog Service.

Local Open Scope Z_scope.

Section bounds.
Context `{UT : UnicodeTables} (cf : Config).

Definition total_size (l : list ArtifactDescriptor) : Z := foldr (λ d n, ad_SizeBytes d + n) 0 l.
Definition sized (d : ArtifactDescriptor) : Prop :=
  trim_space (ad_ArtifactID d) ≠ "" ∧ trim_space (ad_Name d) ≠ "" ∧ 0 <= ad_SizeBytes d <= MaxAttachmentBytes.
#[export] Instance sized_dec d : Decision (sized d).
Proof. unfold sized. apply _. Defined.

Lemma wrap64_small z : - 2 ^ 63 <= z < 2 ^ 63 → wrap64 z = z.
Proof. intros Hz. unfold wrap64. rewrite Z.mod_small by lia. lia. Qed.
Lemma total_size_bound l : Forall sized l → 0 <= total_size l <= Z.of_nat (length l) * MaxAttachmentBytes.
Proof. induction 1 as [|d l (_ & _ & Hd) _ IH]; cbn [total_size foldr length]; [lia|]. fold (total_size l). lia. Qed.

Lemma sized_test d : bool_decide (trim_space (ad_ArtifactID d) = "") || bool_decide (trim_space (ad_Name d) = "") ||
  (ad_SizeBytes d <? 0) || (MaxAttachmentBytes <? ad_SizeBytes d) = negb (bool_decide (sized d)).
Proof.
  apply eq_bool_prop_intro. rewrite !Is_true_true, !orb_true_iff, negb_true_iff, bool_decide_eq_false, !bool_decide_eq_true, !Z.ltb_lt.
  unfold sized. destruct (decide (trim_space (ad_ArtifactID d) = "")), (decide (trim_space (ad_Name d) = "")); split; try tauto; intros H;
    [destruct H as [[[?|?]|?]|?]; try tauto; lia|].
  destruct (decide (ad_SizeBytes d < 0)) as [?|Hlow]; [tauto|]. right. apply Z.nle_gt. intros Hhigh. apply H. split_and!; try done. lia.
Qed.

(** The loop adds exactly, as long as the sum fits. *)
Lemma attachments_check_spec l total : 0 <= total → total + Z.of_nat (length l) * MaxAttachmentBytes < 2 ^ 63 →
  attachments_check total l = if bool_decide (Forall sized l) then inr (total + total_size l) else inl ErrAttachmentMetadata.
Proof.
  revert total. induction l as [|d l IH]; intros total H0 Hmax; cbn [attachments_check].
  { rewrite bool_decide_true by constructor. cbn. by rewrite Z.add_0_r. }
  cbn [length] in Hmax. rewrite sized_test. destruct (decide (sized d)) as [Hd|Hd]; [rewrite (bool_decide_true (sized d)) by done|rewrite (bool_decide_false (sized d)) by done]; cbn [negb].
  - assert (0 <= ad_SizeBytes d <= MaxAttachmentBytes) as Hs by apply Hd. unfold MaxAttachmentBytes in *.
    rewrite wrap64_small by lia. rewrite IH by (unfold MaxAttachmentBytes; lia). cbn [total_size foldr]. fold (total_size l).
    assert (total + ad_SizeBytes d + total_size l = total + (ad_SizeBytes d + total_size l)) as -> by lia.
    by rewrite (bool_decide_ext (Forall sized (d :: l)) (Forall sized l)) by (rewrite Forall_cons; tauto).
  - rewrite bool_decide_false; [done|]. by intros [? _]%Forall_cons.
Qed.
Lemma attachment_bytes_exact l : Forall sized l → Z.of_nat (length l) <= MaxAttachments → attachment_bytes l = total_size l.
Proof.
  intros Hl Hn. unfold attachment_bytes, MaxAttachments in *.
  assert (∀ total, 0 <= total → total + Z.of_nat (length l) * MaxAttachmentBytes < 2 ^ 63 →
    foldl (λ n d, wrap64 (n + ad_SizeBytes d)) total l = total + total_size l) as H; [|rewrite H; unfold MaxAttachmentBytes; lia].
  clear Hn. induction Hl as [|d l Hd Hl IH]; intros total H0 Hmax; [cbn; lia|]. cbn [foldl total_size foldr length] in *. fold (total_size l).
  assert (0 <= ad_SizeBytes d <= MaxAttachmentBytes) as Hs by apply Hd. unfold MaxAttachmentBytes in *.
  rewrite wrap64_small by lia. rewrite IH; lia.
Qed.

(** ** Access *)

(** The workspace an access asks for, under the recipient's policy. *)
Definition grants_access (a : RequestedAccess) (w : Workspace) : Prop :=
  cf_workspaces cf !! trim_space (ra_WorkspaceAlias a) = Some (wk_Path w) ∧
  if po_AllowWrites (cf_policy cf) then ra_Mode a = PermissionGuardedWrite ∧ wk_Mode w = WorkspaceWritable
  else (ra_Mode a = PermissionReadOnly ∨ ra_Mode a = PermissionGuardedWrite) ∧ wk_Mode w = WorkspaceReadOnly.
Abbreviation aliases l := ((λ a, trim_space (ra_WorkspaceAlias a)) <$> l).

Lemma resolve_step seen a l ws : resolve_loop cf seen (a :: l) = inr ws ↔
  (trim_space (ra_WorkspaceAlias a) ∉ seen) ∧
  ∃ w rest, grants_access a w ∧ resolve_loop cf ({[trim_space (ra_WorkspaceAlias a)]} ∪ seen) l = inr rest ∧ ws = w :: rest.
Proof.
  cbn [resolve_loop]. set (x := trim_space (ra_WorkspaceAlias a)). unfold grants_access. fold x. split.
  - destruct (cf_workspaces cf !! x) as [root|] eqn:Hx; [|done]. case_bool_decide as Hseen; [done|].
    destruct (_ && _) eqn:Hro; [done|]. destruct (negb _ && _ && _) eqn:Hmode; [done|].
    destruct (resolve_loop cf _ l) as [|rest] eqn:Hrest; [done|]. cbn. intros [= <-]. split; [done|].
    eexists (mkWorkspace root _), rest. split; [split; [exact eq_refl|]|done]. cbn.
    destruct (po_AllowWrites (cf_policy cf)), (ra_Mode a); cbn in *; repeat case_bool_decide; cbn in *; naive_solver.
  - intros (Hseen & [root m] & rest & [Hx Hm] & -> & ->). cbn in Hx, Hm. rewrite Hx, (bool_decide_false _ Hseen).
    destruct (po_AllowWrites (cf_policy cf)); [destruct Hm as [-> ->]; by vm_compute|].
    destruct Hm as [[-> | ->] ->]; by vm_compute.
Qed.
Lemma resolve_loop_spec l : ∀ seen ws, resolve_loop cf seen l = inr ws ↔
  NoDup (aliases l) ∧ Forall (λ x, x ∉ seen) (aliases l) ∧ Forall2 grants_access l ws.
Proof.
  induction l as [|a l IH]; intros seen ws.
  { cbn. split; [intros [= <-]; split_and!; constructor|]. by intros (_ & _ & ->%Forall2_nil_inv_l). }
  rewrite resolve_step. cbn [fmap list_fmap]. set (x := trim_space (ra_WorkspaceAlias a)). rewrite NoDup_cons, Forall_cons.
  assert (∀ y : string, y ∉ ({[x]} ∪ seen : gset string) ↔ y ≠ x ∧ y ∉ seen) as Hun by set_solver.
  split.
  - intros (Hx & w & rest & Hw & (Hn & Hs & Hr)%IH & ->). rewrite Forall_forall in Hs.
    split_and!; [|done|done|apply Forall_forall|by constructor].
    + intros Hin. by destruct (proj1 (Hun x) (Hs x Hin)).
    + intros y Hy. by apply Hun, Hs.
  - intros ((Hx & Hn) & (Hsx & Hs) & H2). split; [done|]. apply Forall2_cons_inv_l in H2 as (w & rest & Hw & Hr & ->).
    exists w, rest. split; [done|]. split; [|done]. apply IH. split_and!; [done| |done]. rewrite Forall_forall in Hs |- *.
    intros y Hy. apply Hun. split; [|by apply Hs]. by intros ->.
Qed.

(** C30. A notice may be approved exactly when its attachments can be handled
    (a manager is present, at most [MaxAttachments], each identified and at
    most [MaxAttachmentBytes], together at most [MaxRequestPayloadBytes]) and
    its access names each local workspace at most once, in a mode the policy
    can enforce (only guarded writes when writes are allowed).  The 64-bit
    sums of the check and of the approval candidate are then the true total. *)
Theorem validate_notice_correct n :
  let l := nt_Attachments n in
  (validateNotice cf n = inr () ↔
    (l ≠ [] → cf_artifacts cf = true) ∧ Z.of_nat (length l) <= MaxAttachments ∧ Forall sized l ∧
    total_size l <= MaxRequestPayloadBytes ∧
    ∃ ws, NoDup (aliases (nt_RequestedAccess n)) ∧ Forall2 grants_access (nt_RequestedAccess n) ws) ∧
  (validateNotice cf n = inr () → attachment_bytes l = total_size l ∧ 0 <= attachment_bytes l <= MaxRequestPayloadBytes).
Proof.
  intros l. assert (validateNotice cf n = inr () ↔
    (l ≠ [] → cf_artifacts cf = true) ∧ Z.of_nat (length l) <= MaxAttachments ∧ Forall sized l ∧
    total_size l <= MaxRequestPayloadBytes ∧
    ∃ ws, NoDup (aliases (nt_RequestedAccess n)) ∧ Forall2 grants_access (nt_RequestedAccess n) ws) as Hiff.
  { unfold validateNotice. fold l. destruct (_ && _) eqn:Hart.
    { split; [done|]. intros [Ha _]. apply andb_true_iff in Hart as [Hl Hc]. apply Z.ltb_lt in Hl.
      assert (l ≠ []) as Hne by (intros Hl'; rewrite Hl' in Hl; cbn in Hl; lia). by rewrite (Ha Hne) in Hc. }
    assert (l ≠ [] → cf_artifacts cf = true) as Ha.
    { intros Hne. destruct (cf_artifacts cf); [done|]. rewrite andb_true_r in Hart. apply Z.ltb_ge in Hart. destruct Hne. apply nil_length_inv. lia. }
    destruct (MaxAttachments <? Z.of_nat (length l)) eqn:Hn; [apply Z.ltb_lt in Hn; split; [done|]; intros (_ & ? & _); lia|].
    apply Z.ltb_ge in Hn. unfold MaxAttachments in Hn |- *.
    rewrite attachments_check_spec by (unfold MaxAttachmentBytes; lia). destruct (decide (Forall sized l)) as [Hs|Hs]; [rewrite (bool_decide_true (Forall sized l)) by done|rewrite (bool_decide_false (Forall sized l)) by done; split; [done|tauto]]. cbn [mbind sum_bind].
    destruct (MaxRequestPayloadBytes <? 0 + total_size l) eqn:Ht; [apply Z.ltb_lt in Ht; split; [done|]; intros (_ & _ & _ & ? & _); lia|].
    apply Z.ltb_ge in Ht. unfold resolveRequestedWorkspaces.
    destruct (resolve_loop cf ∅ (nt_RequestedAccess n)) as [e|ws] eqn:Hr; cbn [mbind sum_bind].
    - split; [done|]. intros (_ & _ & _ & _ & ws & Hnd & H2). exfalso.
      assert (resolve_loop cf ∅ (nt_RequestedAccess n) = inr ws) as Hr'; [|congruence].
      apply resolve_loop_spec. split_and!; try done. apply Forall_forall. set_solver.
    - apply resolve_loop_spec in Hr as (Hnd & _ & H2). split; [|done]. intros _. split_and!; [done|done|done|lia|by exists ws]. }
  split; [exact Hiff|]. intros (_ & Hn & Hs & Ht & _)%Hiff. rewrite attachment_bytes_exact by done. split; [done|].
  pose proof (total_size_bound l Hs). lia.
Qed.
End bounds.
