(* ===== verification/ApprovalScope.v ===== *)
(** * Access scopes and grant identities

    Normalisation is idempotent, coverage is the inclusion of access it is
    meant to be and a preorder, and the name of a grant determines its
    subject as long as no two payloads in use collide. *)

From S2P Require Import Prelude GoString Sha256 GoStringFacts Protocol LocalStore ApprovalStore.
From Stdlib Require Import Ascii.

Local Open Scope Z_scope.

(** ** Normal forms *)

Lemma valid_value_nonempty v n b : validApprovalValue v n b = true → v ≠ "".
Proof. unfold validApprovalValue. by intros Hv ->. Qed.

Lemma valid_value_free v n b : validApprovalValue v n b = true → Forall (λ c, c ≠ zero) (bytes v).
Proof.
  unfold validApprovalValue. case_match; [done|]. intros Hv. apply Forall_forall. intros c Hc ->.
  apply ascii_byte_rune in Hc; [|done]. rewrite forallb_forall in Hv.
  apply list_elem_of_In in Hc. apply Hv in Hc. by vm_compute in Hc.
Qed.

#[local] Opaque validApprovalValue trim_space contains_any.

Lemma authority_normal a a' : normalizeApprovalAuthority a = inr a' → normalizeApprovalAuthority a' = inr a'.
Proof.
  unfold normalizeApprovalAuthority. simpl. intros H.
  destruct (negb (validApprovalValue (trim_space (au_Fingerprint a)) _ _)) eqn:H1; [done|].
  destruct (negb (validApprovalValue (trim_space (au_RecipientAgentID a)) _ _)) eqn:H2; [done|].
  injection H as <-. simpl. by rewrite !trim_space_idem, H1, H2.
Qed.
Lemma authority_valid a : normalizeApprovalAuthority a = inr a →
  validApprovalValue (au_Fingerprint a) 256 false = true ∧ validApprovalValue (au_RecipientAgentID a) 200 false = true.
Proof.
  unfold normalizeApprovalAuthority. simpl. intros H.
  destruct (negb (validApprovalValue (trim_space (au_Fingerprint a)) _ _)) eqn:H1; [done|].
  destruct (negb (validApprovalValue (trim_space (au_RecipientAgentID a)) _ _)) eqn:H2; [done|].
  orb_split. assert (a = mkAuthority (trim_space (au_Fingerprint a)) (trim_space (au_RecipientAgentID a))) as -> by congruence.
  done.
Qed.

(** The entries of a normal scope. *)
Definition access_ok (a : RequestedAccess) : Prop :=
  trim_space (ra_WorkspaceAlias a) = ra_WorkspaceAlias a ∧
  validApprovalValue (ra_WorkspaceAlias a) 200 false = true ∧ contains_any (ra_WorkspaceAlias a) "/\\" = false ∧
  (ra_Mode a = PermissionReadOnly ∨ ra_Mode a = PermissionGuardedWrite).
Definition accesses_ok (seen : gset string) (l : list RequestedAccess) : Prop :=
  Forall access_ok l ∧ NoDup (ra_WorkspaceAlias <$> l) ∧ Forall (λ a, ra_WorkspaceAlias a ∉ seen) l.

Lemma normalize_access_inv seen l r : normalize_access seen l = inr r → accesses_ok seen r.
Proof.
  revert seen r. induction l as [|a l IH]; intros seen r; cbn [normalize_access]; intros H.
  { injection H as <-. split_and!; constructor. }
  set (alias := trim_space (ra_WorkspaceAlias a)) in *.
  destruct (negb (validApprovalValue alias 200 false) || contains_any alias "/\\") eqn:Hv; [done|].
  destruct (negb (bool_decide (ra_Mode a = PermissionReadOnly)) &&
            negb (bool_decide (ra_Mode a = PermissionGuardedWrite))) eqn:Hm; [done|].
  case_bool_decide as Hseen; [done|].
  destruct (normalize_access ({[alias]} ∪ seen) l) as [e|r'] eqn:Hr; [done|]. injection H as <-.
  apply IH in Hr as (Hok & Hnd & Hns). apply orb_false_iff in Hv as [Hv%negb_false_iff Hsl].
  apply andb_false_iff in Hm. split_and!.
  - constructor; [|done]. split_and!; [apply trim_space_idem|done|done|]. simpl.
    destruct Hm as [Hm|Hm]; apply negb_false_iff, bool_decide_eq_true in Hm; auto.
  - simpl. constructor; [|done]. intros (b & Hb & Hbr)%list_elem_of_fmap. rewrite Forall_forall in Hns.
    apply (Hns b Hbr). rewrite <- Hb. simpl. set_solver.
  - constructor; [done|]. eapply Forall_impl; [exact Hns|]. intros b Hb. simpl in Hb. set_solver.
Qed.

Lemma normalize_access_ok seen l : accesses_ok seen l → normalize_access seen l = inr l.
Proof.
  revert seen. induction l as [|a l IH]; intros seen (Hok & Hnd & Hns); [done|]. cbn [normalize_access].
  apply Forall_cons in Hok as [(Ht & Hv & Hsl & Hm) Hok]. apply NoDup_cons in Hnd as [Hni Hnd].
  apply Forall_cons in Hns as [Hn Hns]. rewrite Ht, Hv, Hsl. simpl.
  assert (negb (bool_decide (ra_Mode a = PermissionReadOnly)) &&
          negb (bool_decide (ra_Mode a = PermissionGuardedWrite)) = false) as ->.
  { destruct Hm as [-> | ->]; done. }
  rewrite bool_decide_false by done. rewrite IH; [by destruct a|]. split_and!; [done|done|].
  apply Forall_forall. intros b Hb. rewrite Forall_forall in Hns. specialize (Hns b Hb).
  assert (ra_WorkspaceAlias b ≠ ra_WorkspaceAlias a) as Hne by (intros Heq; apply Hni; rewrite <- Heq; by apply list_elem_of_fmap_2).
  set_solver.
Qed.

#[export] Instance accesses_ok_perm seen : Proper ((≡ₚ) ==> iff) (accesses_ok seen).
Proof.
  assert (∀ l l', l ≡ₚ l' → accesses_ok seen l → accesses_ok seen l') as Hone.
  { intros l l' Hl (H1 & H2 & H3). split_and!; [exact (Permutation_Forall Hl H1)| |exact (Permutation_Forall Hl H3)].
    apply NoDup_ListNoDup. apply NoDup_ListNoDup in H2. exact (Permutation_NoDup (Permutation_map ra_WorkspaceAlias Hl) H2). }
  intros l l' Hl. split; by apply Hone.
Qed.

#[export] Instance alias_le_trans : Transitive alias_le.
Proof. intros a b c. apply str_leb_trans. Qed.
#[export] Instance alias_le_total : Total alias_le.
Proof. intros a b. apply str_leb_total. Qed.

(** Entries with distinct names are sorted in one way. *)
Lemma sorted_access_unique l l' :
  NoDup (ra_WorkspaceAlias <$> l) → Sorted alias_le l → Sorted alias_le l' → l ≡ₚ l' → l = l'.
Proof.
  intros Hnd Hl Hl' Hperm. apply (Sorted_unique_strong alias_le); try done.
  intros a b Ha Hb Hab Hba. rewrite <- Hperm in Hb. pose proof (str_leb_antisym _ _ Hab Hba) as Heq.
  clear -Hnd Ha Hb Heq. induction l as [|x l IH]; [by apply elem_of_nil in Ha|].
  apply NoDup_cons in Hnd as [Hni Hnd]. apply elem_of_cons in Ha as [->|Ha], Hb as [->|Hb]; auto.
  - destruct Hni. rewrite Heq. by apply list_elem_of_fmap_2.
  - destruct Hni. rewrite <- Heq. by apply list_elem_of_fmap_2.
Qed.

Definition scope_normal (s : ApprovalAccessScope) : Prop := normalizeApprovalAccessScope s = inr s.

Lemma scope_normal_inv s s' : normalizeApprovalAccessScope s = inr s' → accesses_ok ∅ (as_RequestedAccess s').
Proof.
  unfold normalizeApprovalAccessScope. intros H. repeat case_match; simplify_eq/=.
  rewrite merge_sort_Permutation. by eapply normalize_access_inv.
Qed.

Lemma scope_normalized s s' : normalizeApprovalAccessScope s = inr s' → scope_normal s'.
Proof.
  intros H. pose proof (scope_normal_inv s s' H) as Hok. revert H.
  unfold scope_normal, normalizeApprovalAccessScope.
  destruct ((as_MaxAttachmentCount s <? 0) || (MaxAttachments <? as_MaxAttachmentCount s)) eqn:H1; [done|].
  destruct ((as_MaxAttachmentBytes s <? 0) || (MaxRequestPayloadBytes <? as_MaxAttachmentBytes s)) eqn:H2; [done|].
  destruct ((as_MaxAttachmentCount s =? 0) && negb (as_MaxAttachmentBytes s =? 0)) eqn:H3; [done|].
  destruct (normalize_access ∅ (as_RequestedAccess s)) as [e|l] eqn:Hl; [done|]. intros [= <-].
  simpl in Hok |- *. rewrite H1, H2, H3, (normalize_access_ok ∅) by done. do 2 f_equal. symmetry.
  apply sorted_access_unique; [apply Hok|apply (Sorted_merge_sort alias_le)|apply (Sorted_merge_sort alias_le)|].
  symmetry. apply merge_sort_Permutation.
Qed.

Lemma candidate_normalized c b c' :
  normalizeApprovalCandidate c b = inr c' → normalizeApprovalCandidate c' b = inr c' ∧ scope_normal (ca_AccessScope c').
Proof.
  unfold normalizeApprovalCandidate. intros H.
  destruct (b && _) eqn:H1; [done|]. destruct (_ && _) eqn:H2 in H; [done|].
  destruct (_ && _) eqn:H3 in H; [done|]. destruct (_ && _) eqn:H4 in H; [done|].
  destruct (normalizeApprovalAccessScope (ca_AccessScope c)) as [e|s] eqn:Hs; [done|]. injection H as <-. simpl.
  pose proof (scope_normalized _ _ Hs) as Hn. rewrite !trim_space_idem, H1, H2, H3, H4, Hn. done.
Qed.

(** ** Coverage *)

Lemma foldl_allowed l (m0 : gmap string PermissionMode) k m :
  NoDup (ra_WorkspaceAlias <$> l) →
  foldl (λ m a, <[ra_WorkspaceAlias a := ra_Mode a]> m) m0 l !! k = Some m ↔
  (∃ a, a ∈ l ∧ ra_WorkspaceAlias a = k ∧ ra_Mode a = m) ∨
  ((k ∉ ra_WorkspaceAlias <$> l) ∧ m0 !! k = Some m).
Proof.
  revert m0. induction l as [|x l IH]; intros m0 Hnd.
  { simpl. split; [intros ?; right; split; [apply not_elem_of_nil|done]|].
    intros [(a & Ha & _)|[_ ?]]; [by apply elem_of_nil in Ha|done]. }
  apply NoDup_cons in Hnd as [Hni Hnd]. cbn [foldl]. rewrite IH by done. split.
  - intros [(a & Ha & ? & ?)|[Hk Hm]].
    + left. exists a. split_and!; [by right|done|done].
    + destruct (decide (ra_WorkspaceAlias x = k)) as [Hx|Hx].
      * subst k. rewrite lookup_insert_eq in Hm. injection Hm as <-. left. exists x. split_and!; [by left|done|done].
      * rewrite lookup_insert_ne in Hm by done. right. split; [|done]. rewrite fmap_cons. set_solver.
  - intros [(a & Ha & Hk & Hm)|[Hk Hm]].
    + apply elem_of_cons in Ha as [->|Ha].
      * right. subst k. split; [done|]. by rewrite lookup_insert_eq, Hm.
      * left. by exists a.
    + rewrite fmap_cons in Hk. apply not_elem_of_cons in Hk as [Hne Hk]. right. split; [done|].
      by rewrite lookup_insert_ne.
Qed.

(** The requested access is part of the ceiling's. *)
Definition access_within (ceiling requested : ApprovalAccessScope) : Prop :=
  as_MaxAttachmentCount requested <= as_MaxAttachmentCount ceiling ∧
  as_MaxAttachmentBytes requested <= as_MaxAttachmentBytes ceiling ∧
  ∀ a, a ∈ as_RequestedAccess requested → ∃ b, b ∈ as_RequestedAccess ceiling ∧
    ra_WorkspaceAlias b = ra_WorkspaceAlias a ∧
    approvalPermissionRank (ra_Mode a) <= approvalPermissionRank (ra_Mode b).

Lemma covers_spec ceiling requested :
  approvalScopeCovers ceiling requested = true ↔
  ∃ c r, normalizeApprovalAccessScope ceiling = inr c ∧ normalizeApprovalAccessScope requested = inr r ∧ access_within c r.
Proof.
  unfold approvalScopeCovers, access_within.
  destruct (normalizeApprovalAccessScope ceiling) as [e|c] eqn:Hc; [naive_solver|].
  destruct (normalizeApprovalAccessScope requested) as [e|r] eqn:Hr; [naive_solver|].
  destruct (scope_normal_inv _ _ Hc) as (_ & Hnd & _).
  destruct (orb _ _) eqn:Hlim.
  { split; [done|]. intros (c' & r' & [= <-] & [= <-] & H1 & H2 & _).
    apply orb_true_iff in Hlim as [Hlim|Hlim]; apply Z.ltb_lt in Hlim; lia. }
  apply orb_false_iff in Hlim as [H1%Z.ltb_ge H2%Z.ltb_ge].
  assert (∀ a, (match allowed_modes (as_RequestedAccess c) !! ra_WorkspaceAlias a with
     | Some mode => approvalPermissionRank (ra_Mode a) <=? approvalPermissionRank mode | None => false end) = true ↔
     ∃ b, b ∈ as_RequestedAccess c ∧ ra_WorkspaceAlias b = ra_WorkspaceAlias a ∧
       approvalPermissionRank (ra_Mode a) <= approvalPermissionRank (ra_Mode b)) as Hone.
  { intros a. unfold allowed_modes.
    destruct (foldl _ ∅ (as_RequestedAccess c) !! ra_WorkspaceAlias a) as [mode|] eqn:Hl.
    - rewrite Z.leb_le. apply foldl_allowed in Hl as [(b & Hb & Hk & Hm)|[_ Hl]]; [|by rewrite lookup_empty in Hl|done].
      subst mode. split; [intros ?; by exists b|]. intros (b' & Hb' & Hk' & Hle).
      assert (foldl (λ m a, <[ra_WorkspaceAlias a:=ra_Mode a]> m) ∅ (as_RequestedAccess c) !! ra_WorkspaceAlias a = Some (ra_Mode b')) as H'
        by (apply foldl_allowed; [done|]; left; by exists b').
      assert (foldl (λ m a, <[ra_WorkspaceAlias a:=ra_Mode a]> m) ∅ (as_RequestedAccess c) !! ra_WorkspaceAlias a = Some (ra_Mode b)) as H''
        by (apply foldl_allowed; [done|]; left; by exists b).
      rewrite H' in H''. injection H'' as Heq. by rewrite <- Heq.
    - split; [done|]. intros (b & Hb & Hk & _).
      assert (foldl (λ m a, <[ra_WorkspaceAlias a:=ra_Mode a]> m) ∅ (as_RequestedAccess c) !! ra_WorkspaceAlias a = Some (ra_Mode b)) as H'
        by (apply foldl_allowed; [done|]; left; by exists b).
      congruence. }
  rewrite forallb_forall. split.
  - intros Hall. exists c, r. split_and!; [done|done|done|done|]. intros a Ha. apply Hone, Hall. by apply list_elem_of_In.
  - intros (c' & r' & [= <-] & [= <-] & _ & _ & Hall) a Ha. apply Hone, Hall. by apply list_elem_of_In.
Qed.

Lemma access_within_refl s : access_within s s.
Proof. split_and!; [lia|lia|]. intros a Ha. exists a. split_and!; [done|done|lia]. Qed.
Lemma access_within_trans c r q : access_within c r → access_within r q → access_within c q.
Proof.
  intros (H1 & H2 & H3) (H4 & H5 & H6). split_and!; [lia|lia|]. intros a Ha.
  destruct (H6 a Ha) as (b & Hb & Hab & Hrb). destruct (H3 b Hb) as (d & Hd & Hbd & Hrd).
  exists d. split_and!; [done|congruence|lia].
Qed.

(** Coverage is inclusion of access.  A ceiling covers a requested scope
    exactly when both are well formed, the attachment limits are within the
    ceiling's, and every requested workspace is one of the ceiling's with at
    least the requested mode; it is a preorder on well-formed scopes, so what
    a covered request covers is covered. *)
Theorem approval_scope_inclusion ceiling requested further :
  (approvalScopeCovers ceiling requested = true ↔
   ∃ c r, normalizeApprovalAccessScope ceiling = inr c ∧ normalizeApprovalAccessScope requested = inr r ∧ access_within c r) ∧
  (is_ok (normalizeApprovalAccessScope ceiling) = true → approvalScopeCovers ceiling ceiling = true) ∧
  (approvalScopeCovers ceiling requested = true → approvalScopeCovers requested further = true →
   approvalScopeCovers ceiling further = true).
Proof.
  split_and!; [apply covers_spec| |].
  - intros Hok. destruct (normalizeApprovalAccessScope ceiling) as [e|c] eqn:Hc; [done|].
    apply covers_spec. exists c, c. split_and!; [done|done|apply access_within_refl].
  - intros H1 H2. apply covers_spec in H1 as (c & r & Hc & Hr & Hcr).
    apply covers_spec in H2 as (r' & q & Hr' & Hq & Hrq). rewrite Hr in Hr'. injection Hr' as <-.
    apply covers_spec. exists c, q. split_and!; [done|done|by eapply access_within_trans].
Qed.

(** ** Grants *)

Lemma optional_value v n b :
  negb (bool_decide (v = "")) && negb (validApprovalValue v n b) = false → v = "" ∨ validApprovalValue v n b = true.
Proof. case_bool_decide; [by left|]. intros Hv%negb_false_iff. by right. Qed.

Lemma member_value c b c' : normalizeApprovalCandidate c b = inr c' →
  ((ca_RequesterMemberID c' = "" ∧ b = false) ∨ validApprovalValue (ca_RequesterMemberID c') 200 false = true) ∧
  (ca_ConversationID c' = "" ∨ validApprovalValue (ca_ConversationID c') 200 false = true).
Proof.
  unfold normalizeApprovalCandidate. intros H.
  destruct (b && _) eqn:H1; [done|]. destruct (_ && _) eqn:H2 in H; [done|].
  destruct (_ && _) eqn:H3 in H; [done|]. destruct (_ && _) eqn:H4 in H; [done|].
  destruct (normalizeApprovalAccessScope (ca_AccessScope c)) as [e|s] eqn:Hs; [done|]. injection H as <-.
  cbn [ca_RequesterMemberID ca_ConversationID]. split.
  - destruct b; [right; simpl in H1; by apply negb_false_iff in H1|].
    apply optional_value in H2 as [?|?]; [by left|by right].
  - by apply optional_value in H3.
Qed.

(** What a level takes from its subject, encoded into the payload. *)
Definition nul_free (s : string) : Prop := Forall (λ c, c ≠ zero) (bytes s).

Lemma level_free l : standing l = true → nul_free (level_string l).
Proof. destruct l; try done; intros _; unfold nul_free; repeat (apply Forall_cons; split; [done|]); apply Forall_nil_2. Qed.
Lemma level_string_inj l l' : standing l = true → standing l' = true → level_string l = level_string l' → l = l'.
Proof. by destruct l, l'. Qed.

Lemma payload_inj a l m c a' l' m' c' :
  Forall nul_free [au_Fingerprint a; au_RecipientAgentID a; level_string l; m; c] →
  Forall nul_free [au_Fingerprint a'; au_RecipientAgentID a'; level_string l'; m'; c'] →
  grant_payload a l m c = grant_payload a' l' m' c' →
  a = a' ∧ level_string l = level_string l' ∧ m = m' ∧ c = c'.
Proof.
  intros H1 H2 Heq. unfold grant_payload in Heq. apply (f_equal (split_byte zero)) in Heq.
  change nul with (String zero "") in Heq. rewrite !split_join in Heq; [|done|..|done|].
  - injection Heq as ? ? ? ? ?. destruct a, a'. simpl in *. by subst.
  - constructor; [|exact H2]. repeat (apply Forall_cons; split; [done|]). apply Forall_nil_2.
  - constructor; [|exact H1]. repeat (apply Forall_cons; split; [done|]). apply Forall_nil_2.
Qed.

(** The identity of a grant, and of a candidate at a level. *)
Definition subject_payload (a : ApprovalAuthority) (level : ApprovalLevel) (c : ApprovalCandidate) : string :=
  grant_payload a level (grant_member level c) (grant_conversation level c).
Definition gr_payload (g : ApprovalGrant) : string := subject_payload (gr_authority g) (gr_Level g) (gr_candidate g).

Lemma stable_id a l c : stableApprovalGrantID a l c = "grant_" +:+ sha256_hex (subject_payload a l c).
Proof. done. Qed.
Lemma prefix_inj (p a b : string) : p +:+ a = p +:+ b → a = b.
Proof. induction p as [|x p IH]; [done|]. intros H. apply IH. change (String x (p +:+ a) = String x (p +:+ b)) in H. congruence. Qed.

Lemma stable_id_valid a l c : validApprovalGrantID (stableApprovalGrantID a l c) = true.
Proof.
  rewrite stable_id. set (p := subject_payload a l c). unfold validApprovalGrantID, sha256_hex.
  change (drop_bytes 6 ("grant_" +:+ hex_encode (sha256 p))) with (hex_encode (sha256 p)).
  rewrite hex_decode_encode. unfold len. rewrite length_string_app, length_hex_encode, length_sha256.
  change (has_prefix ("grant_" +:+ hex_encode (sha256 p)) "grant_") with (String.prefix "" (hex_encode (sha256 p))).
  rewrite bool_decide_true by eauto. by destruct (hex_encode (sha256 p)).
Qed.

(** What validation says of a stored grant. *)
Lemma validate_inv g : validateApprovalGrant g = true →
  normalizeApprovalAuthority (gr_authority g) = inr (gr_authority g) ∧ standing (gr_Level g) = true ∧
  gr_GrantID g = stableApprovalGrantID (gr_authority g) (gr_Level g) (gr_candidate g) ∧
  grant_shape g (gr_candidate g) = true ∧ is_zero_time (gr_CreatedAt g) = false ∧
  normalizeApprovalCandidate (gr_candidate g) (negb (bool_decide (gr_Level g = ApprovalLevelAllAlways))) = inr (gr_candidate g).
Proof.
  unfold validateApprovalGrant. destruct (normalizeApprovalAuthority (gr_authority g)) as [e|a] eqn:Ha; [done|].
  destruct (normalizeApprovalCandidate (gr_candidate g) _) as [e|c] eqn:Hc; [by rewrite andb_false_r|].
  intros H. repeat match goal with H : _ && _ = true |- _ => apply andb_true_iff in H as [? ?] end.
  unfold sameApprovalAccessScope in *. orb_split.
  assert (c = gr_candidate g) as Hcg.
  { destruct c as [m d v [ra n z]]. unfold gr_candidate. simpl in *. destruct (gr_AccessCeiling g). simpl in *.
    rewrite !Z.eqb_eq in *. by subst. }
  subst c a. split_and!; try done.
Qed.

Lemma valid_payload_free g : validateApprovalGrant g = true →
  Forall nul_free [au_Fingerprint (gr_authority g); au_RecipientAgentID (gr_authority g); level_string (gr_Level g);
    grant_member (gr_Level g) (gr_candidate g); grant_conversation (gr_Level g) (gr_candidate g)].
Proof.
  intros (Ha & Hl & _ & _ & _ & Hc)%validate_inv. apply authority_valid in Ha as [Hf Hr].
  apply member_value in Hc as [Hm Hv].
  assert (∀ v : string, v = "" ∨ validApprovalValue v 200 false = true → nul_free v) as Hfree.
  { intros v [->|Hv']; [apply Forall_nil_2|by eapply valid_value_free]. }
  repeat (apply Forall_cons; split); [by eapply valid_value_free|by eapply valid_value_free|by apply level_free| | |apply Forall_nil_2].
  - apply Hfree. unfold grant_member. destruct (gr_Level g); try (by left); destruct Hm as [[? ?]|?]; auto.
  - apply Hfree. unfold grant_conversation. destruct (gr_Level g); auto.
Qed.

(** A grant made from normal data is valid. *)
Lemma normal_candidate_required c : normalizeApprovalCandidate c true = inr c → ca_RequesterMemberID c ≠ "".
Proof. intros Hc. apply member_value in Hc as [[[_ ?]|Hm] _]; [done|by eapply valid_value_nonempty]. Qed.

(** The fields of a candidate that a level keeps still normalise. *)
Lemma normal_candidate_part c m d v b :
  normalizeApprovalCandidate c true = inr c →
  (m = ca_RequesterMemberID c ∨ (m = "" ∧ b = false)) → (d = ca_RequesterDisplayName c ∨ d = "") →
  (v = ca_ConversationID c ∨ v = "") →
  normalizeApprovalCandidate (mkCandidate m d v (ca_AccessScope c)) b = inr (mkCandidate m d v (ca_AccessScope c)).
Proof.
  intros Hc Hm Hd Hv. unfold normalizeApprovalCandidate in *.
  destruct (true && _) eqn:H1 in Hc; [done|]. destruct (_ && _) eqn:H2 in Hc; [done|].
  destruct (_ && _) eqn:H3 in Hc; [done|]. destruct (_ && _) eqn:H4 in Hc; [done|].
  destruct (normalizeApprovalAccessScope (ca_AccessScope c)) as [e|s] eqn:Hs; [done|].
  apply (f_equal (λ r, match r with inr x => x | inl _ => c end)) in Hc.
  pose proof (f_equal ca_RequesterMemberID Hc) as Em. pose proof (f_equal ca_RequesterDisplayName Hc) as Ed.
  pose proof (f_equal ca_ConversationID Hc) as Ev. pose proof (f_equal ca_AccessScope Hc) as Es.
  cbn [ca_RequesterMemberID ca_RequesterDisplayName ca_ConversationID ca_AccessScope] in *.
  rewrite Em in H1, H2. rewrite Ev in H3. rewrite Ed in H4. cbn [andb] in H1. apply negb_false_iff in H1.
  assert (trim_space "" = "") as Ht by reflexivity.
  assert (trim_space m = m) as -> by (destruct Hm as [-> | [-> _]]; [exact Em|exact Ht]).
  assert (trim_space d = d) as -> by (destruct Hd as [-> | ->]; [exact Ed|exact Ht]).
  assert (trim_space v = v) as -> by (destruct Hv as [-> | ->]; [exact Ev|exact Ht]).
  rewrite Hs, Es. destruct Hm as [-> | [-> ->]], Hd as [-> | ->], Hv as [-> | ->]; rewrite ?H1, ?H2, ?H3, ?H4;
    rewrite ?andb_false_r; reflexivity.
Qed.

Lemma same_scope_refl s : sameApprovalAccessScope s s = true.
Proof. unfold sameApprovalAccessScope. by rewrite !Z.eqb_refl, bool_decide_true. Qed.

(** Validation, from the parts it checks. *)
Lemma validate_intro g :
  normalizeApprovalAuthority (gr_authority g) = inr (gr_authority g) → standing (gr_Level g) = true →
  is_zero_time (gr_CreatedAt g) = false →
  normalizeApprovalCandidate (gr_candidate g) (negb (bool_decide (gr_Level g = ApprovalLevelAllAlways))) = inr (gr_candidate g) →
  grant_shape g (gr_candidate g) = true →
  gr_GrantID g = stableApprovalGrantID (gr_authority g) (gr_Level g) (gr_candidate g) →
  validateApprovalGrant g = true.
Proof.
  intros Ha Hl Ht Hc Hs Hid. unfold validateApprovalGrant. rewrite Ha, Hc, Hl, Ht, Hs, Hid, stable_id_valid.
  change (gr_AccessCeiling g) with (ca_AccessScope (gr_candidate g)). rewrite same_scope_refl.
  by rewrite !bool_decide_true.
Qed.

Lemma new_grant_valid a level c t :
  normalizeApprovalAuthority a = inr a → standing level = true → normalizeApprovalCandidate c true = inr c →
  (level = ApprovalLevelConversation30m → ca_ConversationID c ≠ "") → is_zero_time t = false →
  validateApprovalGrant (newApprovalGrant a level c t) = true.
Proof.
  intros Ha Hl Hc Hconv Ht. pose proof (normal_candidate_required c Hc) as Hm.
  assert (gr_authority (newApprovalGrant a level c t) = a) as Hau by (by destruct a, level).
  assert (gr_Level (newApprovalGrant a level c t) = level) as Hlv by (by destruct level).
  apply validate_intro; rewrite ?Hau, ?Hlv; try done.
  - by destruct level.
  - destruct level; try done; apply (normal_candidate_part c _ _ _ _ Hc); cbn; auto.
  - unfold grant_shape. rewrite Hlv. destruct level; try done; simpl;
      rewrite ?(bool_decide_false (ca_RequesterMemberID c = "")), ?(bool_decide_false (ca_ConversationID c = "")) by auto;
      by rewrite ?bool_decide_true.
  - by destruct level.
Qed.

(** Two payloads that are not a collision name the same subject. *)
Definition no_collision (p q : string) : Prop := sha256_hex p = sha256_hex q → p = q.

Lemma same_id_subject g a level c :
  validateApprovalGrant g = true → gr_GrantID g = stableApprovalGrantID a level c →
  no_collision (gr_payload g) (subject_payload a level c) → standing level = true →
  Forall nul_free [au_Fingerprint a; au_RecipientAgentID a; level_string level; grant_member level c; grant_conversation level c] →
  gr_authority g = a ∧ gr_Level g = level ∧
  grant_member level (gr_candidate g) = grant_member level c ∧
  grant_conversation level (gr_candidate g) = grant_conversation level c.
Proof.
  intros Hv Hid Hnc Hl Hfree. pose proof (validate_inv g Hv) as (_ & Hlg & Hgid & _).
  rewrite Hgid, !stable_id in Hid. apply prefix_inj, Hnc in Hid. unfold gr_payload, subject_payload in Hid.
  apply payload_inj in Hid as (Ha & Hlev & Hm & Hc); [|by apply valid_payload_free|done].
  apply level_string_inj in Hlev; [|done|done]. rewrite Hlev in *. by split_and!.
Qed.

Lemma candidate_free a level c b :
  normalizeApprovalAuthority a = inr a → standing level = true → normalizeApprovalCandidate c b = inr c →
  Forall nul_free [au_Fingerprint a; au_RecipientAgentID a; level_string level; grant_member level c; grant_conversation level c].
Proof.
  intros [Hf Hr]%authority_valid Hl [Hm Hv]%member_value.
  assert (∀ v : string, v = "" ∨ validApprovalValue v 200 false = true → nul_free v) as Hfree.
  { intros v [->|Hv']; [apply Forall_nil_2|by eapply valid_value_free]. }
  repeat (apply Forall_cons; split); [by eapply valid_value_free|by eapply valid_value_free|by apply level_free| | |apply Forall_nil_2].
  - apply Hfree. unfold grant_member. destruct level; try (by left); destruct Hm as [[? ?]|?]; auto.
  - apply Hfree. unfold grant_conversation. destruct level; auto.
Qed.

(** Widening the ceiling of a stored grant of the same subject keeps it valid,
    with its identity and its window. *)
Lemma set_ceiling_valid g a level c t :
  validateApprovalGrant g = true → gr_GrantID g = gr_GrantID (newApprovalGrant a level c t) →
  no_collision (gr_payload g) (subject_payload a level c) →
  normalizeApprovalAuthority a = inr a → standing level = true → normalizeApprovalCandidate c true = inr c →
  validateApprovalGrant (set_ceiling g (ca_AccessScope c) (gr_RequesterDisplayName (newApprovalGrant a level c t))) = true.
Proof.
  intros Hv Hid Hnc Ha Hl Hc.
  assert (gr_GrantID g = stableApprovalGrantID a level c) as Hid' by (rewrite Hid; by destruct level).
  destruct (same_id_subject g a level c Hv Hid' Hnc Hl) as (Hau & Hlv & Hm & Hcv); [by eapply candidate_free|].
  pose proof (validate_inv g Hv) as (Hna & _ & Hgid & Hshape & Ht & Hgc).
  set (g' := set_ceiling _ _ _).
  assert (gr_Level g' = level) as Hlv' by exact Hlv.
  unfold grant_shape in Hshape. rewrite Hlv in Hshape.
  apply validate_intro; rewrite ?Hlv'; try done.
  - destruct level; try done; simpl in Hm, Hcv; apply (normal_candidate_part c _ _ _ _ Hc); cbn; auto;
      cbn in Hshape; orb_split; auto.
  - unfold grant_shape. rewrite Hlv'. destruct level; try done; cbn in Hshape |- *; orb_split; subst;
      rewrite ?(bool_decide_false (gr_RequesterMemberID g = "")), ?(bool_decide_false (gr_ConversationID g = "")) by auto;
      by rewrite ?bool_decide_true.
  - change (gr_GrantID g') with (gr_GrantID g). rewrite Hgid, !stable_id. change (gr_authority g') with (gr_authority g).
    by destruct level; rewrite Hlv.
Qed.
