(* ===== verification/ApprovalProofs.v ===== *)
(** * Correctness of the standing approvals

    Every operation is one atomic change of memory and file, or none; the
    stored grants stay valid; a match stays within what the recipient granted;
    a revocation is not undone by anything but a new explicit approval; and a
    store survives a reload. *)

From S2P Require Import Prelude GoString Sha256 GoStringFacts Protocol LocalStore ApprovalStore ApprovalScope.

Local Open Scope Z_scope.

(** ** What an operation leaves behind *)

(** Nothing changed but the clock's position. *)
Definition untouched (w w' : approval_world) : Prop :=
  l_clock w' = l_clock w ∧ l_mem w' = l_mem w ∧ l_file w' = l_file w.
(** The memory is [m], and so is the file unless nothing had to be written. *)
Definition committed (w : approval_world) (m : approvals) (w' : approval_world) : Prop :=
  l_clock w' = l_clock w ∧ l_mem w' = m ∧
  ((m = l_mem w ∧ l_file w' = l_file w) ∨ ∃ t, l_file w' = FileDoc (snapshot_of m t)).
(** The memory is as before, and only a failed write may have left [m] behind. *)
Definition rolled_back (w : approval_world) (m : approvals) (e : approval_error) (w' : approval_world) : Prop :=
  l_clock w' = l_clock w ∧ l_mem w' = l_mem w ∧
  (l_file w' = l_file w ∨ (e = PersistFailed ∧ ∃ t, l_file w' = FileDoc (snapshot_of m t))).

Lemma committed_mem w m w' : committed w m w' → l_mem w' = m.
Proof. by intros (_ & ? & _). Qed.
Lemma untouched_refl w : untouched w w.
Proof. done. Qed.
Lemma untouched_back w m e w' : untouched w w' → rolled_back w m e w'.
Proof. intros (? & ? & ?). split_and!; auto. Qed.

Lemma wp_persist_if (changed : bool) w0 w :
  l_clock w = l_clock w0 → l_file w = l_file w0 → (changed = false → l_mem w = l_mem w0) →
  wp (persist_if changed (l_mem w0)) (λ _ w', committed w0 (l_mem w) w')
    (λ e w', rolled_back w0 (l_mem w) e w') w.
Proof.
  intros Hc Hf Hm. unfold persist_if. destruct changed; [|apply wp_ret; split_and!; auto].
  unfold persist, writeLocked. wp_step. wp_step. wp_step. apply wp_local_now. intros t _. wp_step. apply wp_get_mem.
  apply wp_write_file; simpl.
  - intros ws. apply wp_ret. split_and!; [done|done|]. right. by exists t.
  - intros ws f' Hf'. wp_step. apply wp_set_mem, wp_throw. split_and!; [done|done|]. simpl.
    destruct Hf' as [->| ->]; [left; by rewrite Hf|right; eauto].
Qed.

Lemma prune_all a t m : Z.of_nat (size (ap_grants m)) - Z.of_nat (size (ap_grants (pruned a t m))) = 0 → pruned a t m = m.
Proof.
  intros Hs. unfold pruned in *. destruct m as [g r]. simpl in *. f_equal.
  apply map_subseteq_size_eq; [apply map_filter_subseteq|lia].
Qed.
Lemma prune_positive a t m : 0 <= Z.of_nat (size (ap_grants m)) - Z.of_nat (size (ap_grants (pruned a t m))).
Proof. simpl. pose proof (map_subseteq_size _ _ (map_filter_subseteq (λ kv, prune_keeps a t kv.2 = true) (ap_grants m))). lia. Qed.

Lemma wp_prune a t w0 w : untouched w0 w →
  wp (pruneAndPersistLocked a t) (λ _ w', committed w0 (pruned a t (l_mem w0)) w')
    (λ e w', rolled_back w0 (pruned a t (l_mem w0)) e w') w.
Proof.
  intros (Hc & Hm & Hf). unfold pruneAndPersistLocked, pruneLocked. wp_step. apply wp_get_mem.
  wp_step. wp_step. apply wp_get_mem. wp_step. apply wp_set_mem. wp_step.
  rewrite Hm. destruct (_ =? 0) eqn:Hz.
  - apply Z.eqb_eq, prune_all in Hz. apply wp_ret. split_and!; [done|done|]. left. by rewrite Hz.
  - wp_step. eapply wp_mono; [apply (wp_persist_if true w0 (with_mem (pruned a t (l_mem w0)) w)); done|done|done].
Qed.

(** ** The intended effects *)

Definition install_spec (m : approvals) (grant : ApprovalGrant) (c : ApprovalCandidate) : approvals * ApprovalGrant :=
  match ap_grants m !! gr_GrantID grant with
  | Some existing =>
    if approvalScopeCovers (gr_AccessCeiling existing) (ca_AccessScope c) then (m, existing) else
    let existing := set_ceiling existing (ca_AccessScope c) (gr_RequesterDisplayName grant) in
    (mkApprovals (<[gr_GrantID grant := existing]> (ap_grants m)) (ap_revocations m), existing)
  | None => (mkApprovals (<[gr_GrantID grant := grant]> (ap_grants m)) (ap_revocations m), grant)
  end.
Definition unrevoke (id : string) (m : approvals) : approvals :=
  mkApprovals (ap_grants m) (delete id (ap_revocations m)).
Definition revoked_id (m : approvals) (id : string) : bool := bool_decide (is_Some (ap_revocations m !! id)).

Definition upsert_spec (a : ApprovalAuthority) (level : ApprovalLevel) (c : ApprovalCandidate) (t : time)
    (m : approvals) : approvals * ApprovalGrant :=
  let grant := newApprovalGrant a level c t in
  install_spec (unrevoke (gr_GrantID grant) (pruned a t m)) grant c.
Definition clamp (t grantedAt : time) : time := if t <? grantedAt then t else grantedAt.
Definition restore_spec (a : ApprovalAuthority) (level : ApprovalLevel) (c : ApprovalCandidate) (t grantedAt : time)
    (m : approvals) : approvals * (approval_error + ApprovalGrant) :=
  let grant := newApprovalGrant a level c (clamp t grantedAt) in
  let m := pruned a t m in
  if revoked_id m (gr_GrantID grant) then (m, inl ErrApprovalGrantRevoked) else
  if approvalGrantExpired grant t then (m, inl ErrApprovalGrantWindowExpired) else
  ((install_spec m grant c).1, inr (install_spec m grant c).2).
Definition revoke_spec (a : ApprovalAuthority) (id : string) (t t' : time) (m : approvals) : approvals * bool :=
  let m := pruned a t m in
  match ap_grants m !! id with
  | Some _ => (mkApprovals (delete id (ap_grants m))
       (<[id := mkRevocation (au_Fingerprint a) (au_RecipientAgentID a) t']> (ap_revocations m)), true)
  | None => (m, false)
  end.
Definition match_spec (a : ApprovalAuthority) (c : ApprovalCandidate) (m : approvals) : option ApprovalGrant :=
  if bool_decide (ca_RequesterMemberID c = "") then None else
  match_levels a c (ap_grants m) [ApprovalLevelConversation30m; ApprovalLevelTeammateAlways; ApprovalLevelAllAlways].

(** A reading of the store's clock during a run from [w]. *)
Definition reading (w : approval_world) (t : time) : Prop := ∃ n, (l_ticks w ≤ n)%nat ∧ t = l_clock w n.
Lemma reading_now w : reading w (l_clock w (l_ticks w)).
Proof. by exists (l_ticks w). Qed.

Lemma wp_install grant c changed w0 w :
  l_clock w = l_clock w0 → l_file w = l_file w0 → (changed = false → l_mem w = l_mem w0) →
  wp (install_grant grant c changed (l_mem w0))
    (λ g w', committed w0 (install_spec (l_mem w) grant c).1 w' ∧ g = (install_spec (l_mem w) grant c).2)
    (λ e w', rolled_back w0 (install_spec (l_mem w) grant c).1 e w') w.
Proof.
  intros Hc Hf Hm. unfold install_grant, install_spec. wp_step. apply wp_get_mem.
  destruct (ap_grants (l_mem w) !! gr_GrantID grant) as [ex|] eqn:Hex.
  - destruct (approvalScopeCovers (gr_AccessCeiling ex) (ca_AccessScope c)); simpl.
    + wp_step. eapply wp_mono; [apply (wp_persist_if changed w0 w); done|intros u w' Hw; apply wp_ret; auto|auto].
    + wp_step. apply wp_set_mem. wp_step.
      eapply wp_mono; [apply (wp_persist_if true w0 (with_mem _ w)); done|intros u w' Hw; apply wp_ret; auto|auto].
  - wp_step. apply wp_set_mem. wp_step.
    eapply wp_mono; [apply (wp_persist_if true w0 (with_mem _ w)); done|intros u w' Hw; apply wp_ret; auto|auto].
Qed.

(** ** Refinement *)

(** The normal arguments of a call, or the error that refuses it. *)
Definition standing_candidate (level : ApprovalLevel) (c0 : ApprovalCandidate) : approval_error + ApprovalCandidate :=
  match normalizeApprovalCandidate c0 true with
  | inl e => inl e
  | inr c => if bool_decide (level = ApprovalLevelConversation30m) && bool_decide (ca_ConversationID c = "")
             then inl ConversationRequired else inr c
  end.

Lemma wp_Match a0 c0 w :
  wp (Match a0 c0)
    (λ r w', ∃ a c t, normalizeApprovalAuthority a0 = inr a ∧ normalizeApprovalCandidate c0 false = inr c ∧ reading w t ∧
       committed w (pruned a t (l_mem w)) w' ∧ r = match_spec a c (pruned a t (l_mem w)))
    (λ e w', untouched w w' ∨ ∃ a t, normalizeApprovalAuthority a0 = inr a ∧ reading w t ∧ rolled_back w (pruned a t (l_mem w)) e w') w.
Proof.
  unfold Match. wp_step. apply wp_lift; [intros a Ha|intros e _; by left].
  wp_step. apply wp_lift; [intros c Hc|intros e _; by left].
  wp_step. apply wp_local_now. intros t ->. wp_step.
  eapply wp_mono; [by apply (wp_prune a _ w)| |].
  - intros u w' Hw; cbn beta in Hw. case_bool_decide as Hm.
    + apply wp_ret. exists a, c, (l_clock w (l_ticks w)). split_and!; [done|done|apply reading_now|done|].
      unfold match_spec. by rewrite bool_decide_true.
    + wp_step. apply wp_get_mem, wp_ret. exists a, c, (l_clock w (l_ticks w)).
      split_and!; [done|done|apply reading_now|done|]. unfold match_spec.
      by rewrite (bool_decide_false _ Hm), (committed_mem _ _ _ Hw).
  - intros e w' Hw. right. exists a, (l_clock w (l_ticks w)). split_and!; [done|apply reading_now|done].
Qed.

Lemma wp_List a0 w :
  wp (List_ a0)
    (λ r w', ∃ a t, normalizeApprovalAuthority a0 = inr a ∧ reading w t ∧ committed w (pruned a t (l_mem w)) w' ∧
       r = merge_sort grant_order (map_to_list (ap_grants (pruned a t (l_mem w)))).*2)
    (λ e w', untouched w w' ∨ ∃ a t, normalizeApprovalAuthority a0 = inr a ∧ reading w t ∧ rolled_back w (pruned a t (l_mem w)) e w') w.
Proof.
  unfold List_. wp_step. apply wp_lift; [intros a Ha|intros e _; by left].
  wp_step. apply wp_local_now. intros t ->. wp_step. eapply wp_mono; [by apply (wp_prune a _ w)| |].
  - intros u w' Hw; cbn beta in Hw. wp_step. apply wp_get_mem, wp_ret. exists a, (l_clock w (l_ticks w)).
    split_and!; [done|apply reading_now|done|]. by rewrite (committed_mem _ _ _ Hw).
  - intros e w' Hw. right. exists a, (l_clock w (l_ticks w)). split_and!; [done|apply reading_now|done].
Qed.

Lemma wp_Prune a0 w :
  wp (Prune a0)
    (λ _ w', ∃ a t, normalizeApprovalAuthority a0 = inr a ∧ reading w t ∧ committed w (pruned a t (l_mem w)) w')
    (λ e w', untouched w w' ∨ ∃ a t, normalizeApprovalAuthority a0 = inr a ∧ reading w t ∧ rolled_back w (pruned a t (l_mem w)) e w') w.
Proof.
  unfold Prune. wp_step. apply wp_lift; [intros a Ha|intros e _; by left].
  wp_step. apply wp_local_now. intros t ->. eapply wp_mono; [by apply (wp_prune a _ w)| |].
  - intros u w' Hw; cbn beta in Hw. exists a, (l_clock w (l_ticks w)). split_and!; [done|apply reading_now|done].
  - intros e w' Hw. right. exists a, (l_clock w (l_ticks w)). split_and!; [done|apply reading_now|done].
Qed.

Lemma wp_Revoke a0 id0 w :
  let id := trim_space id0 in
  wp (Revoke a0 id0)
    (λ r w', ∃ a t t', normalizeApprovalAuthority a0 = inr a ∧ validApprovalGrantID id = true ∧ reading w t ∧ reading w t' ∧
       committed w (revoke_spec a id t t' (l_mem w)).1 w' ∧ r = (revoke_spec a id t t' (l_mem w)).2)
    (λ e w', untouched w w' ∨ ∃ a t t', normalizeApprovalAuthority a0 = inr a ∧ validApprovalGrantID id = true ∧
       reading w t ∧ reading w t' ∧ rolled_back w (revoke_spec a id t t' (l_mem w)).1 e w') w.
Proof.
  intros id. unfold Revoke.
  wp_step. apply wp_lift; [intros a Ha|intros e _; by left].
  wp_step. apply wp_reject_if; [intros Hid%negb_false_iff|intros _; by left].
  fold id in Hid |- *. wp_step. apply wp_get_mem. wp_step. apply wp_local_now. intros t ->.
  unfold pruneLocked. wp_step. wp_step. apply wp_get_mem. wp_step. apply wp_set_mem, wp_ret. simpl.
  wp_step. apply wp_get_mem. simpl. pose proof (prune_positive a (l_clock w (l_ticks w)) (l_mem w)) as Hpos.
  set (t := l_clock w (l_ticks w)) in *.
  destruct (filter _ (ap_grants (l_mem w)) !! id) as [g|] eqn:Hg.
  - rewrite bool_decide_true by eauto. rewrite orb_true_r. wp_step. wp_step. apply wp_local_now. intros t' ->. apply wp_set_mem.
    wp_step. simpl. set (t' := l_clock w (S (l_ticks w))).
    assert (reading w t') as Ht' by (exists (S (l_ticks w)); split; [lia|done]).
    eapply wp_mono; [apply (wp_persist_if true w (with_mem _ _)); done| |]; simpl.
    + intros u w' Hw; cbn beta in Hw. apply wp_ret. exists a, t, t'. unfold revoke_spec. cbn [ap_grants pruned]. rewrite Hg.
      split_and!; [done|done|apply reading_now|done|done|done].
    + intros e w' Hw. right. exists a, t, t'. unfold revoke_spec. cbn [ap_grants pruned]. rewrite Hg.
      split_and!; [done|done|apply reading_now|done|done].
  - rewrite bool_decide_false by (by intros []). rewrite orb_false_r. wp_step. apply wp_ret. wp_step.
    eapply wp_mono; [apply (wp_persist_if _ w (with_mem _ _)); try done| |]; simpl.
    + intros Hz%Z.ltb_ge. apply prune_all. simpl in Hpos |- *. lia.
    + intros u w' Hw; cbn beta in Hw. apply wp_ret. exists a, t, t. unfold revoke_spec. cbn [ap_grants pruned]. rewrite Hg.
      split_and!; [done|done|apply reading_now|apply reading_now|done|done].
    + intros e w' Hw. right. exists a, t, t. unfold revoke_spec. cbn [ap_grants pruned]. rewrite Hg.
      split_and!; [done|done|apply reading_now|apply reading_now|done].
Qed.

Lemma wp_standing_candidate level c0 {St} (Q : ApprovalCandidate → St → Prop) X (s : St) :
  (∀ c, standing_candidate level c0 = inr c → Q c s) → (∀ e, X e s) →
  wp (lift (normalizeApprovalCandidate c0 true) ≫= λ c,
      reject_if (bool_decide (level = ApprovalLevelConversation30m) && bool_decide (ca_ConversationID c = ""))
        ConversationRequired ≫= λ _, mret c) Q X s.
Proof.
  intros HQ HX. unfold standing_candidate in HQ. wp_step. apply wp_lift; [intros c Hc|auto]. rewrite Hc in HQ.
  wp_step. apply wp_reject_if; [intros Hb; rewrite Hb in HQ; apply wp_ret; by apply HQ|auto].
Qed.

Definition upsert_effect (a : ApprovalAuthority) (level : ApprovalLevel) (c : ApprovalCandidate) (t : time) (m : approvals)
    : approvals * ApprovalGrant :=
  if bool_decide (level = ApprovalLevelAskAlways) then (pruned a t m, zero_grant) else upsert_spec a level c t m.

Lemma unrevoke_absent id m : revoked_id m id = false → unrevoke id m = m.
Proof.
  unfold revoked_id, unrevoke. rewrite bool_decide_eq_false, <- eq_None_not_Some. intros Hid.
  rewrite delete_id by done. by destruct m.
Qed.
Lemma new_grant_id a level c t : gr_GrantID (newApprovalGrant a level c t) = stableApprovalGrantID a level c.
Proof. by destruct level. Qed.

Lemma wp_Upsert a0 level c0 w :
  wp (Upsert a0 level c0)
    (λ r w', ∃ a c t, normalizeApprovalAuthority a0 = inr a ∧ level_valid level = true ∧
       (standing level = true → standing_candidate level c0 = inr c) ∧ reading w t ∧
       committed w (upsert_effect a level c t (l_mem w)).1 w' ∧ r = (upsert_effect a level c t (l_mem w)).2)
    (λ e w', untouched w w' ∨ ∃ a c t, normalizeApprovalAuthority a0 = inr a ∧ level_valid level = true ∧
       (standing level = true → standing_candidate level c0 = inr c) ∧ reading w t ∧
       rolled_back w (upsert_effect a level c t (l_mem w)).1 e w') w.
Proof.
  unfold Upsert. wp_step. apply wp_lift; [intros a Ha|intros e _; by left].
  wp_step. apply wp_reject_if; [intros Hlv%negb_false_iff|intros _; by left].
  wp_step. set (K := λ (c : ApprovalCandidate) (s : approval_world), wp _ _ _ s).
  assert (∀ c, (standing level = true → standing_candidate level c0 = inr c) → K c w) as HK.
  2: { destruct (standing level) eqn:Hst; [apply wp_standing_candidate; [intros c Hc; apply HK; by intros _|intros e; by left]|].
       apply wp_ret, HK. done. }
  intros c Hc. subst K. cbn beta. wp_step. apply wp_get_mem. wp_step. apply wp_local_now. intros t ->.
  unfold pruneLocked. wp_step. wp_step. apply wp_get_mem. wp_step. apply wp_set_mem, wp_ret. cbn beta zeta.
  cbn [l_mem with_mem]. set (t := l_clock w (l_ticks w)).
  pose proof (prune_positive a t (l_mem w)) as Hpos.
  set (w1 := with_mem (pruned a t (l_mem w)) _).
  assert (∀ b, ((0 <? (Z.of_nat (size (ap_grants (l_mem w))) - Z.of_nat (size (ap_grants (pruned a t (l_mem w)))))) || b) = false →
    b = false ∧ pruned a t (l_mem w) = l_mem w) as Hsame.
  { intros b [Hz%Z.ltb_ge ->]%orb_false_iff. split; [done|]. apply prune_all. lia. }
  unfold upsert_effect. case_bool_decide as Hask.
  { wp_step. eapply wp_mono; [apply (wp_persist_if _ w w1); try done| |].
    - intros Hz. cbn [l_mem with_mem w1]. apply (Hsame false). by rewrite orb_false_r.
    - intros u w' Hw. cbn beta in Hw. apply wp_ret. exists a, c, t. split_and!; [done|done|done|apply reading_now|exact Hw|done].
    - intros e w' Hw. right. exists a, c, t. split_and!; [done|done|done|apply reading_now|exact Hw]. }
  wp_step. apply wp_get_mem. cbn [l_mem with_mem w1]. rewrite new_grant_id.
  set (grant := newApprovalGrant a level c t) in *. set (id := stableApprovalGrantID a level c) in *.
  wp_step. match goal with |- wp _ ?Q ?X _ => set (K := Q); set (KX := X) end.
  assert (∀ w2, l_mem w2 = unrevoke id (pruned a t (l_mem w)) → l_clock w2 = l_clock w → l_file w2 = l_file w → K () w2) as HK.
  { intros w2 Hm2 Hc2 Hf2. subst K. cbn beta.
    eapply wp_mono; [apply (wp_install grant c _ w w2); [done|done|]| |]; subst KX; cbn beta.
    - intros [Hr Hz]%Hsame. rewrite Hm2. rewrite unrevoke_absent; [done|]. exact Hr.
    - intros g w' [Hw Hg]. exists a, c, t. unfold upsert_spec. rewrite new_grant_id. fold grant id. rewrite Hm2 in *.
      split_and!; [done|done|done|apply reading_now|done|done].
    - intros e w' Hw. right. exists a, c, t. unfold upsert_spec. rewrite new_grant_id. fold grant id. rewrite Hm2 in Hw.
      split_and!; [done|done|done|apply reading_now|done]. }
  case_bool_decide as Hrev; [by apply wp_set_mem, HK|]. apply wp_ret, HK; [|done|done].
  symmetry. apply unrevoke_absent. by apply bool_decide_eq_false.
Qed.

Lemma wp_RestorePrepared a0 level c0 grantedAt w :
  wp (RestorePrepared a0 level c0 grantedAt)
    (λ r w', ∃ a c t, normalizeApprovalAuthority a0 = inr a ∧ standing level = true ∧ standing_candidate level c0 = inr c ∧
       is_zero_time grantedAt = false ∧ reading w t ∧ committed w (restore_spec a level c t grantedAt (l_mem w)).1 w' ∧
       inr r = (restore_spec a level c t grantedAt (l_mem w)).2)
    (λ e w', untouched w w' ∨ ∃ a c t, normalizeApprovalAuthority a0 = inr a ∧ standing level = true ∧
       standing_candidate level c0 = inr c ∧ is_zero_time grantedAt = false ∧ reading w t ∧
       (rolled_back w (restore_spec a level c t grantedAt (l_mem w)).1 e w' ∨
        (committed w (restore_spec a level c t grantedAt (l_mem w)).1 w' ∧
         inl e = (restore_spec a level c t grantedAt (l_mem w)).2))) w.
Proof.
  unfold RestorePrepared. wp_step. apply wp_lift; [intros a Ha|intros e _; by left].
  wp_step. apply wp_reject_if; [intros Hlv%negb_false_iff|intros _; by left].
  wp_step. apply wp_lift; [intros c Hc|intros e _; by left].
  wp_step. apply wp_reject_if; [intros Hconv|intros _; by left].
  assert (standing_candidate level c0 = inr c) as Hsc by (unfold standing_candidate; by rewrite Hc, Hconv). clear Hconv Hc.
  wp_step. apply wp_reject_if; [intros Hz|intros _; by left].
  wp_step. apply wp_get_mem. wp_step. apply wp_local_now. intros t ->.
  unfold pruneLocked. wp_step. wp_step. apply wp_get_mem. wp_step. apply wp_set_mem, wp_ret. cbn beta zeta.
  cbn [l_mem with_mem]. set (t := l_clock w (l_ticks w)). fold (clamp t grantedAt).
  pose proof (prune_positive a t (l_mem w)) as Hpos. set (w1 := with_mem (pruned a t (l_mem w)) _).
  set (changed := 0 <? _). assert (changed = false → pruned a t (l_mem w) = l_mem w) as Hsame.
  { intros Hch%Z.ltb_ge. apply prune_all. lia. }
  wp_step. apply wp_get_mem. cbn [l_mem with_mem w1].
  set (grant := newApprovalGrant a level c _).
  match goal with |- wp _ ?Q ?X _ => set (K := Q); set (KX := X) end.
  assert (∀ e, (restore_spec a level c t grantedAt (l_mem w)) = (pruned a t (l_mem w), inl e) →
    wp (persist_if changed (l_mem w) ≫= λ _, throw e) K KX w1) as Herr.
  { intros e Hspec. wp_step. eapply wp_mono; [apply (wp_persist_if changed w w1); try done| |]; subst KX; cbn beta.
    - intros u w' Hw. cbn beta in Hw. apply wp_throw. right. exists a, c, t.
      split_and!; [done|done|done|done|apply reading_now|]. right. by rewrite Hspec.
    - intros e' w' Hw. right. exists a, c, t. split_and!; [done|done|done|done|apply reading_now|]. left. by rewrite Hspec. }
  case_bool_decide as Hrev.
  { apply Herr. unfold restore_spec, revoked_id.
    change (newApprovalGrant a level c (clamp t grantedAt)) with grant. by rewrite bool_decide_true. }
  destruct (approvalGrantExpired grant t) eqn:Hexp.
  { apply Herr. unfold restore_spec, revoked_id.
    change (newApprovalGrant a level c (clamp t grantedAt)) with grant. rewrite (bool_decide_false _ Hrev). by rewrite Hexp. }
  assert (restore_spec a level c t grantedAt (l_mem w) =
    ((install_spec (pruned a t (l_mem w)) grant c).1, inr (install_spec (pruned a t (l_mem w)) grant c).2)) as Hspec.
  { unfold restore_spec, revoked_id.
    change (newApprovalGrant a level c (clamp t grantedAt)) with grant. rewrite (bool_decide_false _ Hrev). by rewrite Hexp. }
  eapply wp_mono; [apply (wp_install grant c changed w w1); try done| |]; subst K KX; cbn beta.
  - intros g w' [Hw Hg]. exists a, c, t. rewrite Hspec. split_and!; [done|done|done|done|apply reading_now|done|by rewrite Hg].
  - intros e w' Hw. right. exists a, c, t. rewrite Hspec. split_and!; [done|done|done|done|apply reading_now|by left].
Qed.

(** ** Calls *)

Inductive approval_call :=
  | CallList (a : ApprovalAuthority)
  | CallUpsert (a : ApprovalAuthority) (level : ApprovalLevel) (c : ApprovalCandidate)
  | CallRestore (a : ApprovalAuthority) (level : ApprovalLevel) (c : ApprovalCandidate) (grantedAt : time)
  | CallRevoke (a : ApprovalAuthority) (id : string)
  | CallPrune (a : ApprovalAuthority)
  | CallMatch (a : ApprovalAuthority) (c : ApprovalCandidate).

Definition run_approval (c : approval_call) : AP () :=
  match c with
  | CallList a => List_ a ≫= λ _, mret ()
  | CallUpsert a level c => Upsert a level c ≫= λ _, mret ()
  | CallRestore a level c t => RestorePrepared a level c t ≫= λ _, mret ()
  | CallRevoke a id => Revoke a id ≫= λ _, mret ()
  | CallPrune a => Prune a ≫= λ _, mret ()
  | CallMatch a c => Match a c ≫= λ _, mret ()
  end.

(** The abstract store: what a call may turn the approvals into, from the
    clock readings [now]. *)
Inductive intends (now : time → Prop) : approval_call → approvals → approvals → Prop :=
  | intends_prune call a0 a t m :
      (call = CallList a0 ∨ call = CallPrune a0 ∨ ∃ c, call = CallMatch a0 c) →
      normalizeApprovalAuthority a0 = inr a → now t → intends now call m (pruned a t m)
  | intends_revoke a0 a id0 t t' m :
      normalizeApprovalAuthority a0 = inr a → now t → now t' →
      intends now (CallRevoke a0 id0) m (revoke_spec a (trim_space id0) t t' m).1
  | intends_ask a0 a level c0 t m :
      normalizeApprovalAuthority a0 = inr a → level = ApprovalLevelAskAlways → now t →
      intends now (CallUpsert a0 level c0) m (pruned a t m)
  | intends_upsert a0 a level c0 c t m :
      normalizeApprovalAuthority a0 = inr a → standing level = true → standing_candidate level c0 = inr c → now t →
      intends now (CallUpsert a0 level c0) m (upsert_spec a level c t m).1
  | intends_restore a0 a level c0 c t grantedAt m :
      normalizeApprovalAuthority a0 = inr a → standing level = true → standing_candidate level c0 = inr c →
      is_zero_time grantedAt = false → now t →
      intends now (CallRestore a0 level c0 grantedAt) m (restore_spec a level c t grantedAt m).1.

Lemma wp_ignored {A} (m : AP A) Q X w : wp m (λ _ w', Q () w') X w → wp (m ≫= λ _, mret ()) Q X w.
Proof. intros Hm. apply wp_bind. eapply wp_mono; [exact Hm|auto|auto]. Qed.

Lemma run_approval_spec call w :
  wp (run_approval call)
    (λ _ w', ∃ m, intends (reading w) call (l_mem w) m ∧ committed w m w')
    (λ e w', untouched w w' ∨ ∃ m, intends (reading w) call (l_mem w) m ∧ (rolled_back w m e w' ∨ committed w m w')) w.
Proof.
  destruct call as [a0|a0 level c0|a0 level c0 t0|a0 id0|a0|a0 c0]; cbn [run_approval]; apply wp_ignored.
  - eapply wp_mono; [apply wp_List| |]; cbn beta.
    + intros r w' (a & t & Ha & Ht & Hw & _). eexists; split; [eapply intends_prune; eauto|done].
    + intros e w' [?|(a & t & Ha & Ht & Hw)]; [by left|]. right. eexists; split; [eapply intends_prune; eauto|by left].
  - eapply wp_mono; [apply wp_Upsert| |]; cbn beta; unfold upsert_effect.
    + intros r w' (a & c & t & Ha & Hv & Hc & Ht & Hw & _). case_bool_decide as Hask.
      * eexists; split; [eapply intends_ask; eauto|done].
      * assert (standing level = true) as Hst by (unfold standing; by rewrite Hv, bool_decide_false).
        eexists; split; [eapply intends_upsert; eauto|done].
    + intros e w' [?|(a & c & t & Ha & Hv & Hc & Ht & Hw)]; [by left|]. right. case_bool_decide as Hask.
      * eexists; split; [eapply intends_ask; eauto|by left].
      * assert (standing level = true) as Hst by (unfold standing; by rewrite Hv, bool_decide_false).
        eexists; split; [eapply intends_upsert; eauto|by left].
  - eapply wp_mono; [apply wp_RestorePrepared| |]; cbn beta.
    + intros r w' (a & c & t & Ha & Hs & Hc & Hz & Ht & Hw & _). eexists; split; [by eapply intends_restore|done].
    + intros e w' [?|(a & c & t & Ha & Hs & Hc & Hz & Ht & Hw)]; [by left|]. right.
      eexists; split; [by eapply intends_restore|]. destruct Hw as [?|[? _]]; [by left|by right].
  - eapply wp_mono; [apply wp_Revoke| |]; cbn beta.
    + intros r w' (a & t & t' & Ha & Hid & Ht & Ht' & Hw & _). eexists; split; [exact (intends_revoke _ _ _ _ _ _ _ Ha Ht Ht')|done].
    + intros e w' [?|(a & t & t' & Ha & Hid & Ht & Ht' & Hw)]; [by left|]. right. eexists; split; [exact (intends_revoke _ _ _ _ _ _ _ Ha Ht Ht')|by left].
  - eapply wp_mono; [apply wp_Prune| |]; cbn beta.
    + intros r w' (a & t & Ha & Ht & Hw). eexists; split; [eapply intends_prune; eauto|done].
    + intros e w' [?|(a & t & Ha & Ht & Hw)]; [by left|]. right. eexists; split; [eapply intends_prune; eauto|by left].
  - eapply wp_mono; [apply wp_Match| |]; cbn beta.
    + intros r w' (a & c & t & Ha & Hc & Ht & Hw & _). eexists; split; [eapply intends_prune; eauto|done].
    + intros e w' [?|(a & t & Ha & Ht & Hw)]; [by left|]. right. eexists; split; [eapply intends_prune; eauto|by left].
Qed.

(** C26. Atomicity.  Whatever its arguments and whatever happens to its write,
    an operation changes memory and file together to what it intends, or
    changes nothing in memory; only a write reported as failed may have left
    the intended state in the file. *)
Theorem approval_calls_atomic call w w' r :
  run_approval call w = (w', r) →
  untouched w w' ∨
  ∃ m, intends (reading w) call (l_mem w) m ∧ (committed w m w' ∨ ∃ e, r = inl e ∧ rolled_back w m e w').
Proof.
  intros Hrun. pose proof (run_approval_spec call w) as Hspec. unfold wp in Hspec. rewrite Hrun in Hspec.
  destruct r as [e|u]; [|naive_solver]. destruct Hspec as [?|(m & ? & [?|?])]; eauto 10.
Qed.

(** ** Loading *)

Definition drops (m m' : approvals) : Prop :=
  ap_grants m' ⊆ ap_grants m ∧ ap_revocations m' = ap_revocations m.
Lemma pruned_drops a t m : drops m (pruned a t m).
Proof. split; [apply map_filter_subseteq|done]. Qed.

Definition file_approvals (s : approvalSnapshot) : approvals := mkApprovals (sn_Grants s) (sn_Revocations s).

(** What the grants loop keeps: valid grants under their own key, and every one
    that has not expired. *)
Lemma wp_load_grants w0 l : ∀ kept w, NoDup l.*1 → untouched w0 w → (l_ticks w0 ≤ l_ticks w)%nat →
  wp (load_grants l kept)
    (λ g w', untouched w0 w' ∧ (l_ticks w0 ≤ l_ticks w')%nat ∧
       (∀ id x, g !! id = Some x → kept !! id = Some x ∨
          ((id, x) ∈ l ∧ validateApprovalGrant x = true ∧ ∃ t, reading w0 t ∧ approvalGrantExpired x t = false)) ∧
       (∀ id x, kept !! id = Some x → (id ∉ l.*1) → g !! id = Some x) ∧
       (∀ id x, (id, x) ∈ l → g !! id = Some x ∨ ∃ t, reading w0 t ∧ approvalGrantExpired x t = true))
    (λ e w', untouched w0 w' ∧ ∃ id x, (id, x) ∈ l ∧ (id = "" ∨ id ≠ gr_GrantID x ∨ validateApprovalGrant x = false)) w.
Proof.
  induction l as [|[id g] l IH]; intros kept w Hnd Hw Hle; cbn [load_grants].
  { apply wp_ret. split_and!; [done|done|by left|done|]. intros id x Hx. by apply elem_of_nil in Hx. }
  rewrite fmap_cons in Hnd. apply NoDup_cons in Hnd as [Hni Hnd]. simpl in Hni.
  wp_step. apply wp_reject_if; [intros Hid|intros Hid; split; [done|]; exists id, g; split; [by left|]].
  2: { apply orb_true_iff in Hid as [Hid|Hid]; [left|right; left]; orb_split; done. }
  wp_step. apply wp_reject_if; [intros Hv%negb_false_iff|intros Hv%negb_true_iff; split; [done|]; exists id, g; split; [by left|auto]].
  wp_step. apply wp_local_now. intros t Ht. set (w1 := mkLocal _ _ _ _ _).
  assert (untouched w0 w1) as Hw1 by done. assert (l_ticks w0 ≤ l_ticks w1)%nat as Hle1 by (simpl; lia).
  assert (reading w0 t) as Hr by (exists (l_ticks w); destruct Hw as [<- _]; done).
  assert (∀ kept', (∀ x, kept' !! id = Some x → kept !! id = Some x ∨ (x = g ∧ approvalGrantExpired g t = false)) →
    (∀ id', id' ≠ id → kept' !! id' = kept !! id') →
    (kept' !! id = Some g ∨ approvalGrantExpired g t = true) →
    wp (load_grants l kept')
    (λ g0 w', untouched w0 w' ∧ (l_ticks w0 ≤ l_ticks w')%nat ∧
       (∀ id0 x, g0 !! id0 = Some x → kept !! id0 = Some x ∨
          ((id0, x) ∈ (id, g) :: l ∧ validateApprovalGrant x = true ∧ ∃ t, reading w0 t ∧ approvalGrantExpired x t = false)) ∧
       (∀ id0 x, kept !! id0 = Some x → (id0 ∉ ((id, g) :: l).*1) → g0 !! id0 = Some x) ∧
       (∀ id0 x, (id0, x) ∈ (id, g) :: l → g0 !! id0 = Some x ∨ ∃ t, reading w0 t ∧ approvalGrantExpired x t = true))
    (λ e w', untouched w0 w' ∧ ∃ id0 x, (id0, x) ∈ (id, g) :: l ∧ (id0 = "" ∨ id0 ≠ gr_GrantID x ∨ validateApprovalGrant x = false)) w1) as Hgo.
  { intros kept' Hk1 Hk2 Hk3. eapply wp_mono; [by apply (IH kept' w1)| |].
    - intros g0 w' (Hu & Hl & H1 & H2 & H3). split_and!; [done|done| | |].
      + intros id0 x Hx. destruct (H1 id0 x Hx) as [Hx'|(Hx' & ?)]; [|right; split; [by right|done]].
        destruct (decide (id0 = id)) as [->|Hne].
        * destruct (Hk1 x Hx') as [?|[-> ?]]; [by left|]. right. split_and!; [by left|done|by exists t].
        * rewrite Hk2 in Hx' by done. by left.
      + intros id0 x Hx Hn. rewrite fmap_cons in Hn. apply not_elem_of_cons in Hn as [Hne Hn]. apply H2; [|done].
        by rewrite Hk2.
      + intros id0 x [[= -> ->]|Hx]%elem_of_cons; [|by apply H3].
        destruct Hk3 as [Hk3|Hk3]; [left; by apply H2|right; by exists t].
    - intros e w' [Hu (id0 & x & Hx & ?)]. split; [done|]. exists id0, x. split; [by right|done]. }
  destruct (approvalGrantExpired g t) eqn:Hexp.
  - apply Hgo; [by left|done|by right].
  - apply Hgo; [|intros id' Hne; by rewrite lookup_insert_ne|left; by rewrite lookup_insert_eq].
    intros x Hx. rewrite lookup_insert_eq in Hx. injection Hx as <-. by right.
Qed.

Lemma wp_load_revocations w0 grants l : ∀ kept w, NoDup l.*1 → untouched w0 w → (∀ id, id ∈ l.*1 → kept !! id = None) →
  wp (load_revocations grants l kept)
    (λ r w', untouched w0 w' ∧ r = list_to_map l ∪ kept)
    (λ e w', untouched w0 w' ∧ ∃ id x, (id, x) ∈ l ∧ (revocation_valid id x = false ∨ is_Some (grants !! id))) w.
Proof.
  induction l as [|[id r] l IH]; intros kept w Hnd Hw Hk; cbn [load_revocations].
  { apply wp_ret. split; [done|]. simpl. by rewrite (left_id_L ∅ (∪)). }
  rewrite fmap_cons in Hnd. apply NoDup_cons in Hnd as [Hni Hnd]. simpl in Hni.
  wp_step. apply wp_reject_if; [intros _|intros Hv%negb_true_iff; split; [done|]; exists id, r; split; [by left|by left]].
  wp_step. apply wp_reject_if; [intros _|intros Hv%bool_decide_eq_true; split; [done|]; exists id, r; split; [by left|by right]].
  eapply wp_mono; [apply (IH (<[id:=r]> kept) w); [done|done|]| |].
  - intros id' Hid'. rewrite lookup_insert_ne by (intros ->; done). apply Hk. rewrite fmap_cons. by right.
  - intros r' w' [Hu ->]. split; [done|]. cbn [list_to_map foldr curry uncurry].
    rewrite <- insert_union_r by (by apply not_elem_of_list_to_map_1). by rewrite insert_union_l.
  - intros e w' [Hu (id' & x & Hx & ?)]. split; [done|]. exists id', x. split; [by right|done].
Qed.

(** The verdict of [load] on a file of the current version. *)
Definition loadable (m : approvals) : Prop :=
  (∀ id g, ap_grants m !! id = Some g → id ≠ "" ∧ id = gr_GrantID g ∧ validateApprovalGrant g = true) ∧
  (∀ id r, ap_revocations m !! id = Some r → revocation_valid id r = true) ∧
  (∀ id, is_Some (ap_grants m !! id) → is_Some (ap_revocations m !! id) → False).
(** What it keeps: everything but grants expired at some clock reading. *)
Definition reloaded (now : time → Prop) (m m' : approvals) : Prop :=
  drops m m' ∧ ∀ id g, ap_grants m !! id = Some g →
    ap_grants m' !! id = Some g ∨ ∃ t, now t ∧ approvalGrantExpired g t = true.

Lemma wp_write (w0 w : approval_world) : l_clock w = l_clock w0 → wp writeLocked
  (λ _ w', l_clock w' = l_clock w0 ∧ l_mem w' = l_mem w ∧ ∃ t, l_file w' = FileDoc (snapshot_of (l_mem w) t))
  (λ e w', e = PersistFailed ∧ l_clock w' = l_clock w0 ∧ l_mem w' = l_mem w ∧
     (l_file w' = l_file w ∨ ∃ t, l_file w' = FileDoc (snapshot_of (l_mem w) t))) w.
Proof.
  intros Hc. unfold writeLocked. wp_step. apply wp_local_now. intros t _. wp_step. apply wp_get_mem.
  apply wp_write_file; simpl; [intros ws; split_and!; eauto|]. intros ws f' Hf'. split_and!; [done|done|done|].
  destruct Hf' as [->| ->]; eauto.
Qed.

Lemma wp_load_current s (w : approval_world) : l_file w = FileDoc s → sn_Version s = approvalStoreVersion →
  wp load
    (λ _ w', l_clock w' = l_clock w ∧ reloaded (reading w) (file_approvals s) (l_mem w') ∧
       (l_file w' = l_file w ∨ ∃ t, l_file w' = FileDoc (snapshot_of (l_mem w') t)))
    (λ e w', (¬ loadable (file_approvals s) ∧ untouched w w') ∨
       (e = PersistFailed ∧ l_clock w' = l_clock w ∧ reloaded (reading w) (file_approvals s) (l_mem w') ∧
        (l_file w' = l_file w ∨ ∃ t, l_file w' = FileDoc (snapshot_of (l_mem w') t)))) w.
Proof.
  intros Hf Hv. unfold load. wp_step. apply wp_read_file. rewrite Hf. cbv iota. rewrite !Hv.
  change (approvalStoreVersion =? legacyApprovalStoreVersion) with false.
  change (approvalStoreVersion =? approvalStoreVersion) with true.
  change (approvalStoreVersion =? scopedApprovalStoreVersion) with false. cbn [negb andb]. wp_step.
  eapply wp_mono; [apply (wp_load_grants w); [apply NoDup_fst_map_to_list|done|lia]| |].
  2: { intros e w' [Hu (id & x & Hx%elem_of_map_to_list & Hbad)]. left. split; [|done].
       intros (H1 & _). destruct (H1 id x Hx) as (? & ? & ?). destruct Hbad as [?|[?|?]]; congruence. }
  intros grants w1 (Hu1 & _ & Hg1 & _ & Hg3). wp_step.
  eapply wp_mono; [apply (wp_load_revocations w); [apply NoDup_fst_map_to_list|done|]| |].
  - intros id _. apply lookup_empty.
  - intros revs w2 [(Hc2 & Hm2 & Hf2) ->]. rewrite list_to_map_to_list, (right_id_L ∅ (∪)).
    assert (reloaded (reading w) (file_approvals s) (mkApprovals grants (sn_Revocations s))) as Hre.
    { split; [split; [|done]|].
      - apply map_subseteq_spec. intros id x Hx. cbn [ap_grants file_approvals] in *. destruct (Hg1 id x Hx) as [He|[Hin _]]; [by rewrite lookup_empty in He|].
        by apply elem_of_map_to_list.
      - intros id g Hg. simpl in *. by apply Hg3, elem_of_map_to_list. }
    wp_step. apply wp_set_mem. destruct (_ || _) eqn:Hwrite.
    + eapply wp_mono; [apply (wp_write w); done| |]; simpl.
      * intros u w' (? & Hm & Hfile). split_and!; [done|by rewrite Hm|right; by rewrite Hm].
      * intros e w' (-> & ? & Hm & Hfile). right. rewrite Hm. rewrite Hf2, Hf in Hfile. split_and!; [done|congruence|done|exact Hfile].
    + apply wp_ret. simpl. split_and!; [done|done|left; by rewrite Hf2, Hf].
  - intros e w' [Hu (id & x & Hx%elem_of_map_to_list & Hbad)]. left. split; [|done].
    intros (_ & H2 & H3). destruct Hbad as [Hbad|[g Hbad]]; [by rewrite (H2 id x Hx) in Hbad|].
    apply (H3 id); [|by exists x]. destruct (Hg1 id g Hbad) as [Hx'|[Hin _]]; [by rewrite lookup_empty in Hx'|].
    exists g. by apply elem_of_map_to_list.
Qed.

(** ** Invariants of histories *)

(** Calls and daemon restarts, errors ignored. *)
Inductive approval_event := EvCall (c : approval_call) | EvReload.
Definition run_event (e : approval_event) : AP () :=
  match e with EvCall c => ignore (run_approval c) | EvReload => ignore Reload end.
Definition run_events (l : list approval_event) : AP () := mapM_ run_event l.

Definition clock_ok (w : approval_world) : Prop := ∀ n, is_zero_time (l_clock w n) = false.
Definition nonzero (t : time) : Prop := is_zero_time t = false.

(** [P] of the memory and of what a restart would read. *)
Definition everywhere (P : approvals → Prop) (w : approval_world) : Prop :=
  clock_ok w ∧ P (l_mem w) ∧
  match l_file w with
  | FileDoc s => sn_Version s = approvalStoreVersion ∧ P (file_approvals s)
  | _ => True
  end.

Lemma intends_mono (now now' : time → Prop) call m m' :
  (∀ t, now t → now' t) → intends now call m m' → intends now' call m m'.
Proof.
  intros Hnow [call0 a0 a t m0 Hcall Ha Ht|a0 a id0 t t' m0 Ha Ht Ht'|a0 a level c0 t m0 Ha Hl Ht
    |a0 a level c0 c t m0 Ha Hl Hc Ht|a0 a level c0 c t g m0 Ha Hl Hc Hz Ht].
  - by apply (intends_prune _ _ a0 a); auto.
  - by apply intends_revoke; auto.
  - by apply intends_ask; auto.
  - by apply intends_upsert; auto.
  - by apply intends_restore; auto.
Qed.

Section everywhere.
Context (P : approvals → Prop) (allowed : approval_call → Prop).
Context (Hdrops : ∀ m m', drops m m' → P m → P m').
Context (Hintends : ∀ call m m', allowed call → intends nonzero call m m' → P m → P m').

Lemma everywhere_call call w : allowed call → everywhere P w → everywhere P (run_approval call w).1.
Proof.
  intros Hal (Hc & Hm & Hf). destruct (run_approval call w) as [w' r] eqn:Hrun. simpl.
  pose proof (run_approval_spec call w) as Hspec. unfold wp in Hspec. rewrite Hrun in Hspec.
  assert (∀ t, reading w t → nonzero t) as Hnow by (intros t (n & _ & ->); apply Hc).
  assert (∀ m, intends (reading w) call (l_mem w) m → P m) as HP
    by (intros m Hi; eapply Hintends; [exact Hal|by eapply intends_mono|done]).
  assert (∀ m, P m → committed w m w' → everywhere P w') as Hcommit.
  { intros m HPm (Hc' & Hm' & Hf'). split_and!; [unfold clock_ok; by rewrite Hc'|by rewrite Hm'|].
    destruct Hf' as [[_ ->]|[t ->]]; [done|]. destruct m. by split. }
  assert (∀ m e, P m → rolled_back w m e w' → everywhere P w') as Hroll.
  { intros m e HPm (Hc' & Hm' & Hf'). split_and!; [unfold clock_ok; by rewrite Hc'|by rewrite Hm'|].
    destruct Hf' as [->|[_ [t ->]]]; [done|]. destruct m. by split. }
  assert (untouched w w' → everywhere P w') as Hsame.
  { intros (Hc' & Hm' & Hf'). split_and!; [unfold clock_ok; by rewrite Hc'|by rewrite Hm'|by rewrite Hf']. }
  destruct r as [e|u]; [|naive_solver]. destruct Hspec as [?|(m & ? & [?|?])]; eauto.
Qed.

Lemma everywhere_load w : everywhere P w → everywhere P (load w).1.
Proof.
  intros (Hc & Hm & Hf). destruct (l_file w) as [| | |s] eqn:Hfile.
  - destruct (load w) as [w' r] eqn:Hrun. pose proof (wp_write w w eq_refl) as Hspec. unfold wp in Hspec.
    assert (load w = writeLocked w) as Hlw by (unfold load, read_file; unfold mbind, M_bind, gets; by rewrite Hfile).
    rewrite <- Hlw, Hrun in Hspec. simpl.
    assert (∀ t, P (file_approvals (snapshot_of (l_mem w) t))) as HPs by (intros t; by destruct (l_mem w)).
    destruct r as [e|u].
    + destruct Hspec as (_ & Hc' & Hm' & Hf'). split_and!; [unfold clock_ok; by rewrite Hc'|by rewrite Hm'|].
      destruct Hf' as [Hf'|[t Hf']]; rewrite Hf'; [by rewrite ?Hfile|by split].
    + destruct Hspec as (Hc' & Hm' & [t Hf']). split_and!; [unfold clock_ok; by rewrite Hc'|by rewrite Hm'|].
      rewrite Hf'. by split.
  - assert (load w = (w, inl ReadFailed)) as -> by (unfold load, read_file; unfold mbind, M_bind, gets; by rewrite Hfile).
    split_and!; [done|done|simpl; by rewrite Hfile].
  - assert (load w = (w, inl ParseFailed)) as -> by (unfold load, read_file; unfold mbind, M_bind, gets; by rewrite Hfile).
    split_and!; [done|done|simpl; by rewrite Hfile].
  - destruct Hf as [Hv HPs]. pose proof (wp_load_current s w Hfile Hv) as Hspec. unfold wp in Hspec.
    destruct (load w) as [w' r]. simpl.
    assert (∀ w', l_clock w' = l_clock w → reloaded (reading w) (file_approvals s) (l_mem w') →
      (l_file w' = l_file w ∨ ∃ t, l_file w' = FileDoc (snapshot_of (l_mem w') t)) → everywhere P w') as Hgo.
    { intros w2 Hc2 [Hd _] Hf2. assert (P (l_mem w2)) as HP2 by (by eapply Hdrops).
      split_and!; [unfold clock_ok; by rewrite Hc2|done|].
      destruct Hf2 as [->|[t ->]]; [by rewrite Hfile|]. split; [done|]. by destruct (l_mem w2). }
    destruct r as [e|u]; [|naive_solver]. destruct Hspec as [[_ (Hc' & Hm' & Hf')]|(_ & ? & ? & ?)]; [|by apply Hgo].
    split_and!; [unfold clock_ok; by rewrite Hc'|by rewrite Hm'|]. by rewrite Hf', Hfile.
Qed.

Lemma ignore_run {St E A} (m : M St E A) s : ignore m s = ((m s).1, inr ()).
Proof. unfold ignore, attempt, mbind, M_bind. by destruct (m s) as [s' r]. Qed.

Lemma everywhere_events l w :
  Forall (λ e, match e with EvCall c => allowed c | EvReload => True end) l →
  everywhere P w → everywhere P (run_events l w).1.
Proof.
  intros Hl. revert w. induction Hl as [|e l He Hl IH]; intros w Hw; [done|].
  unfold run_events. cbn [mapM_]. unfold mbind, M_bind.
  assert (∃ w1, run_event e w = (w1, inr ()) ∧ everywhere P w1) as (w1 & -> & Hw1).
  { destruct e as [c|]; cbn [run_event]; rewrite ignore_run; eexists; split; try done;
      [by apply everywhere_call|by apply everywhere_load]. }
  by apply IH.
Qed.
End everywhere.
