(* ===== verification/ApprovalSafety.v ===== *)
(** * Safety of the standing approvals

    What the histories of [ApprovalProofs] preserve, and what a match, a
    revocation and a restart therefore mean. *)

From S2P Require Import Prelude GoString Sha256 GoStringFacts Protocol LocalStore ApprovalStore ApprovalScope ApprovalProofs.

Local Open Scope Z_scope.

Section safety.
(** The payloads of the grants in use; no two of them collide. *)
Context (known : string → Prop).
Context (Hnc : ∀ p q, known p → known q → no_collision p q).

Record store_ok (m : approvals) : Prop := mkStoreOk {
  ok_grants : ∀ id g, ap_grants m !! id = Some g →
    id = gr_GrantID g ∧ validateApprovalGrant g = true ∧ known (gr_payload g);
  ok_revocations : ∀ id r, ap_revocations m !! id = Some r → revocation_valid id r = true;
  ok_disjoint : ∀ id, is_Some (ap_grants m !! id) → is_Some (ap_revocations m !! id) → False }.

(** The grant a call would make has a payload in use. *)
Definition call_known (call : approval_call) : Prop :=
  match call with
  | CallUpsert a0 level c0 | CallRestore a0 level c0 _ => ∀ a c,
      normalizeApprovalAuthority a0 = inr a → standing level = true → standing_candidate level c0 = inr c →
      known (subject_payload a level c)
  | _ => True
  end.

Lemma store_ok_drops m m' : drops m m' → store_ok m → store_ok m'.
Proof.
  intros [Hg Hr] [H1 H2 H3]. split.
  - intros id g Hid. apply H1. by eapply lookup_weaken.
  - intros id r Hid. rewrite Hr in Hid. by apply H2.
  - intros id [g Hid] Hrv. rewrite Hr in Hrv. apply (H3 id); [|done]. exists g. by eapply lookup_weaken.
Qed.

Lemma standing_candidate_inv level c0 c : standing_candidate level c0 = inr c →
  normalizeApprovalCandidate c true = inr c ∧ (level = ApprovalLevelConversation30m → ca_ConversationID c ≠ "").
Proof.
  unfold standing_candidate. intros Hc. destruct (normalizeApprovalCandidate c0 true) as [e|c'] eqn:Hn; [done|].
  destruct (_ && _) eqn:Hb; [done|]. injection Hc as <-. split; [by eapply candidate_normalized|].
  intros ->. rewrite bool_decide_true in Hb by done. by apply bool_decide_eq_false in Hb.
Qed.

Lemma new_grant_payload a level c t : gr_payload (newApprovalGrant a level c t) = subject_payload a level c.
Proof. unfold gr_payload, subject_payload. destruct a. by destruct level. Qed.

Lemma set_ceiling_payload g scope d : gr_payload (set_ceiling g scope d) = gr_payload g.
Proof. unfold gr_payload, subject_payload, gr_candidate. cbn. by destruct (gr_Level g). Qed.

Lemma install_ok m a level c t :
  store_ok m → normalizeApprovalAuthority a = inr a → standing level = true → normalizeApprovalCandidate c true = inr c →
  (level = ApprovalLevelConversation30m → ca_ConversationID c ≠ "") → nonzero t → known (subject_payload a level c) →
  ap_revocations m !! stableApprovalGrantID a level c = None →
  store_ok (install_spec m (newApprovalGrant a level c t) c).1.
Proof.
  intros Hok Ha Hl Hc Hconv Ht Hk Hrev. unfold install_spec. rewrite new_grant_id.
  set (id := stableApprovalGrantID a level c) in *.
  assert (∀ x, gr_GrantID x = id → validateApprovalGrant x = true → known (gr_payload x) →
    store_ok (mkApprovals (<[id := x]> (ap_grants m)) (ap_revocations m))) as Hins.
  { intros x Hx Hv Hp. split; simpl.
    - intros id' g Hg. destruct (decide (id = id')) as [<-|Hne].
      + rewrite lookup_insert_eq in Hg. by injection Hg as <-.
      + rewrite lookup_insert_ne in Hg by done. by apply (ok_grants m Hok).
    - apply (ok_revocations m Hok).
    - intros id' Hg [r Hr]. destruct (decide (id = id')) as [<-|Hne]; [by rewrite Hrev in Hr|].
      rewrite lookup_insert_ne in Hg by done. apply (ok_disjoint m Hok id'); [done|by exists r]. }
  destruct (ap_grants m !! id) as [ex|] eqn:Hex; [|apply Hins; [by destruct level|by apply new_grant_valid|by rewrite new_grant_payload]].
  destruct (approvalScopeCovers _ _); [done|]. destruct (ok_grants m Hok id ex Hex) as (Hid & Hv & Hp).
  apply Hins; [done| |by rewrite set_ceiling_payload].
  apply set_ceiling_valid; [done|by rewrite new_grant_id|by apply Hnc|done|done|done].
Qed.

Lemma valid_grant_id g : validateApprovalGrant g = true → validApprovalGrantID (gr_GrantID g) = true.
Proof. intros (_ & _ & -> & _)%validate_inv. apply stable_id_valid. Qed.

Lemma store_ok_intends call m m' : call_known call → intends nonzero call m m' → store_ok m → store_ok m'.
Proof.
  intros Hk Hi Hok. destruct Hi as [call a0 a t m Hcall Ha Ht|a0 a id0 t t' m Ha Ht Ht'|a0 a level c0 t m Ha Hl Ht
    |a0 a level c0 c t m Ha Hl Hc Ht|a0 a level c0 c t g m Ha Hl Hc Hz Ht].
  - by eapply store_ok_drops; [apply pruned_drops|].
  - assert (store_ok (pruned a t m)) as Hp by (by eapply store_ok_drops; [apply pruned_drops|]).
    unfold revoke_spec. destruct (ap_grants (pruned a t m) !! trim_space id0) as [g|] eqn:Hg; [|done].
    destruct (ok_grants _ Hp _ g Hg) as (Hid & Hv & _). split; cbn [fst ap_grants ap_revocations].
    + intros id x Hx. apply lookup_delete_Some in Hx as [_ Hx]. by apply (ok_grants _ Hp).
    + intros id r Hr. destruct (decide (trim_space id0 = id)) as [<-|Hne].
      * rewrite lookup_insert_eq in Hr. injection Hr as <-. unfold revocation_valid. simpl.
        rewrite Hid, valid_grant_id by done. rewrite Ht'. apply authority_normal in Ha.
        rewrite bool_decide_true; [done|]. by destruct a.
      * rewrite lookup_insert_ne in Hr by done. by apply (ok_revocations _ Hp).
    + intros id [x Hx] Hr. apply lookup_delete_Some in Hx as [Hne Hx]. rewrite lookup_insert_ne in Hr by done.
      apply (ok_disjoint _ Hp id); [by exists x|done].
  - by eapply store_ok_drops; [apply pruned_drops|].
  - apply standing_candidate_inv in Hc as Hcn. destruct Hcn as [Hn Hconv]. pose proof (authority_normal _ _ Ha) as Han.
    unfold upsert_spec. rewrite new_grant_id. set (id := stableApprovalGrantID a level c).
    assert (store_ok (pruned a t m)) as Hp by (by eapply store_ok_drops; [apply pruned_drops|]).
    apply install_ok; try done; [|by apply Hk|by apply lookup_delete_eq].
    split; cbn [unrevoke ap_grants ap_revocations].
    + apply (ok_grants _ Hp).
    + intros id' r Hr. apply lookup_delete_Some in Hr as [_ Hr]. by apply (ok_revocations _ Hp).
    + intros id' Hg [r Hr]. apply lookup_delete_Some in Hr as [_ Hr]. apply (ok_disjoint _ Hp id'); [done|by exists r].
  - apply standing_candidate_inv in Hc as Hcn. destruct Hcn as [Hn Hconv]. pose proof (authority_normal _ _ Ha) as Han.
    unfold restore_spec, revoked_id. rewrite new_grant_id.
    assert (store_ok (pruned a t m)) as Hp by (by eapply store_ok_drops; [apply pruned_drops|]).
    case_bool_decide as Hrev; [done|]. destruct (approvalGrantExpired _ _); [done|]. cbn [fst].
    apply install_ok; try done; [unfold clamp; by case_match|by apply Hk|]. by apply eq_None_not_Some.
Qed.

(** Well-formedness.  Under any history of calls and restarts, with any
    failed writes, every grant in memory and in the file is one the store
    would accept (its subject normalised, its name the digest of its subject,
    a conversation grant with exactly its 30-minute window), and no grant is
    also revoked. *)
Theorem approval_store_invariant l w :
  Forall (λ e, match e with EvCall c => call_known c | EvReload => True end) l →
  everywhere store_ok w → everywhere store_ok (run_events l w).1.
Proof.
  intros Hl Hw. apply (everywhere_events store_ok call_known); [apply store_ok_drops| |done|done].
  intros call m m' Hk Hi. by apply (store_ok_intends call).
Qed.

(** ** Matching *)

(** What a grant authorises a candidate for. *)
Definition authorizes (g : ApprovalGrant) (c : ApprovalCandidate) (t : time) : Prop :=
  ca_RequesterMemberID c ≠ "" ∧ approvalGrantExpired g t = false ∧
  approvalScopeCovers (gr_AccessCeiling g) (ca_AccessScope c) = true ∧
  match gr_Level g with
  | ApprovalLevelConversation30m =>
      gr_RequesterMemberID g = ca_RequesterMemberID c ∧ gr_ConversationID g = ca_ConversationID c ∧
      ca_ConversationID c ≠ "" ∧ t < gr_CreatedAt g + ApprovalConversationWindow
  | ApprovalLevelTeammateAlways => gr_RequesterMemberID g = ca_RequesterMemberID c
  | ApprovalLevelAllAlways => True
  | _ => False
  end.

Lemma match_levels_found a c grants levels g :
  match_levels a c grants levels = Some g →
  ∃ level, level ∈ levels ∧ grants !! stableApprovalGrantID a level c = Some g ∧
    approvalScopeCovers (gr_AccessCeiling g) (ca_AccessScope c) = true ∧
    (level = ApprovalLevelConversation30m → ca_ConversationID c ≠ "").
Proof.
  induction levels as [|level levels IH]; [done|]. cbn [match_levels]. intros H.
  assert (match_levels a c grants levels = Some g → ∃ l, l ∈ level :: levels ∧ grants !! stableApprovalGrantID a l c = Some g ∧
    approvalScopeCovers (gr_AccessCeiling g) (ca_AccessScope c) = true ∧
    (l = ApprovalLevelConversation30m → ca_ConversationID c ≠ "")) as Hrec.
  { intros (l & ? & ?)%IH. exists l. split; [by right|done]. }
  destruct (_ && _) eqn:Hb; [by apply Hrec|].
  destruct (grants !! stableApprovalGrantID a level c) as [x|] eqn:Hx; [|by apply Hrec].
  destruct (approvalScopeCovers (gr_AccessCeiling x) (ca_AccessScope c)) eqn:Hcov; [|by apply Hrec]. injection H as ->.
  exists level. split_and!; [by left|done|done|]. intros ->. rewrite bool_decide_true in Hb by done.
  by apply bool_decide_eq_false in Hb.
Qed.

Lemma pruned_lookup a t m id g : ap_grants (pruned a t m) !! id = Some g →
  ap_grants m !! id = Some g ∧ gr_authority g = a ∧ approvalGrantExpired g t = false.
Proof.
  intros [Hg Hk]%map_lookup_filter_Some. unfold prune_keeps in Hk. simpl in Hk.
  apply negb_true_iff in Hk. orb_split. split_and!; [done| |done]. destruct a. unfold gr_authority. simpl in *. congruence.
Qed.

(** C27. A match is what the recipient granted.  When [Match] answers a grant,
    that grant was stored, is not revoked, belongs to the caller's authority,
    has not expired at a clock reading of the call, covers the requested
    access, and was given for this requester, for this conversation within its
    30 minutes, or for every teammate; a request without a member identity
    matches nothing. *)
Theorem match_sound a0 c0 w w' g :
  store_ok (l_mem w) →
  (∀ a c level, normalizeApprovalAuthority a0 = inr a → normalizeApprovalCandidate c0 false = inr c →
     standing level = true → known (subject_payload a level c)) →
  Match a0 c0 w = (w', inr (Some g)) →
  ∃ a c t, normalizeApprovalAuthority a0 = inr a ∧ normalizeApprovalCandidate c0 false = inr c ∧ reading w t ∧
    ap_grants (l_mem w) !! gr_GrantID g = Some g ∧ ap_revocations (l_mem w) !! gr_GrantID g = None ∧
    gr_authority g = a ∧ authorizes g c t.
Proof.
  intros Hok Hk Hrun. eapply wp_run in Hrun; [|apply wp_Match]. cbn beta in Hrun.
  destruct Hrun as (a & c & t & Ha & Hc & Ht & _ & Hres). unfold match_spec in Hres. case_bool_decide as Hm; [done|].
  symmetry in Hres. apply match_levels_found in Hres as (level & Hlevel & Hg & Hcov & Hconv).
  apply pruned_lookup in Hg as (Hg & Hau & Hexp). destruct (ok_grants _ Hok _ g Hg) as (Hid & Hv & Hp).
  assert (standing level = true) as Hst.
  { repeat (apply elem_of_cons in Hlevel as [->|Hlevel]; [done|]). by apply elem_of_nil in Hlevel. }
  destruct (same_id_subject g a level c Hv) as (_ & Hlv & Hmem & Hcv); [by symmetry|by apply Hnc; [|apply Hk]|done| |].
  { eapply candidate_free; [by eapply authority_normal|done|by eapply candidate_normalized]. }
  exists a, c, t. rewrite <- Hid. split_and!; try done.
  - apply eq_None_not_Some. intros Hr. by apply (ok_disjoint _ Hok _ (mk_is_Some _ _ Hg)).
  - unfold authorizes. rewrite Hlv. split_and!; [done|done|done|].
    destruct level; try done. simpl in Hmem, Hcv. split_and!; [done|done|by apply Hconv|].
    pose proof (validate_inv g Hv) as (_ & _ & _ & Hshape & _). unfold grant_shape in Hshape. rewrite Hlv in Hshape.
    orb_split. unfold approvalGrantExpired in Hexp.
    match goal with H : gr_ExpiresAt g = _ |- _ => rewrite H in Hexp end. apply negb_false_iff, Z.ltb_lt in Hexp. done.
Qed.
End safety.

(** ** Revocation *)

(** The calls that cannot re-approve the grant [id]. *)
Definition not_reapproving (id : string) (call : approval_call) : Prop :=
  match call with
  | CallUpsert a0 level c0 => ∀ a c, normalizeApprovalAuthority a0 = inr a → standing_candidate level c0 = inr c →
      stableApprovalGrantID a level c ≠ id
  | _ => True
  end.

(** The tombstone, and no grant beside it. *)
Definition revoked_for (id : string) (m : approvals) : Prop :=
  is_Some (ap_revocations m !! id) ∧ ap_grants m !! id = None.

Lemma revoked_drops id m m' : drops m m' → revoked_for id m → revoked_for id m'.
Proof.
  intros [Hg Hr] [H1 H2]. split; [by rewrite Hr|]. destruct (ap_grants m' !! id) as [g|] eqn:Hid; [|done].
  assert (ap_grants m !! id = Some g) as Hg' by (by eapply lookup_weaken). congruence.
Qed.
Lemma revoked_install id m grant c : gr_GrantID grant ≠ id → revoked_for id m → revoked_for id (install_spec m grant c).1.
Proof.
  intros Hne [H1 H2]. unfold install_spec. destruct (ap_grants m !! gr_GrantID grant) as [ex|].
  - destruct (approvalScopeCovers _ _); [done|]. split; [done|]. simpl. by rewrite lookup_insert_ne.
  - split; [done|]. simpl. by rewrite lookup_insert_ne.
Qed.

Lemma revoked_intends id call m m' :
  not_reapproving id call → intends nonzero call m m' → revoked_for id m → revoked_for id m'.
Proof.
  intros Hn Hi Hr. destruct Hi as [call a0 a t m Hcall Ha Ht|a0 a id0 t t' m Ha Ht Ht'|a0 a level c0 t m Ha Hl Ht
    |a0 a level c0 c t m Ha Hl Hc Ht|a0 a level c0 c t g m Ha Hl Hc Hz Ht];
    (assert (revoked_for id (pruned a t m)) as Hp by (by eapply revoked_drops; [apply pruned_drops|])); try done.
  - unfold revoke_spec. destruct (ap_grants (pruned a t m) !! trim_space id0) as [g|] eqn:Hg; [|done].
    destruct Hp as [H1 H2]. split; simpl.
    + destruct (decide (trim_space id0 = id)) as [<-|Hne]; [rewrite lookup_insert_eq; eauto|by rewrite lookup_insert_ne].
    + rewrite lookup_delete_None. by right.
  - unfold upsert_spec. apply revoked_install; rewrite ?new_grant_id; [by apply Hn|].
    destruct Hp as [H1 H2]. split; [|done]. simpl. rewrite lookup_delete_ne; [done|by apply Hn].
  - unfold restore_spec, revoked_id. rewrite new_grant_id. case_bool_decide as Hrev; [done|].
    destruct (approvalGrantExpired _ _); [done|]. apply revoked_install; [|done].
    rewrite new_grant_id. intros Heq. rewrite Heq in Hrev. by destruct Hp as [? _].
Qed.

(** Every grant is stored under its own identifier. *)
Definition keyed_grants (m : approvals) : Prop := ∀ id g, ap_grants m !! id = Some g → gr_GrantID g = id.
Lemma keyed_drops m m' : drops m m' → keyed_grants m → keyed_grants m'.
Proof. intros [Hg _] Hk id g Hid. apply Hk. by eapply lookup_weaken. Qed.
Lemma keyed_install m grant c : keyed_grants m → keyed_grants (install_spec m grant c).1.
Proof.
  intros Hk. unfold install_spec. destruct (ap_grants m !! gr_GrantID grant) as [ex|] eqn:Hex.
  - destruct (approvalScopeCovers _ _); [done|]. intros id g Hg. simpl in Hg. apply lookup_insert_Some in Hg as [[<- <-]|[_ Hg]]; [|by apply Hk].
    simpl. by apply Hk.
  - intros id g Hg. simpl in Hg. apply lookup_insert_Some in Hg as [[<- <-]|[_ Hg]]; [done|by apply Hk].
Qed.
Lemma keyed_intends call m m' : intends nonzero call m m' → keyed_grants m → keyed_grants m'.
Proof.
  intros Hi Hk. destruct Hi as [call a0 a t m Hcall Ha Ht|a0 a id0 t t' m Ha Ht Ht'|a0 a level c0 t m Ha Hl Ht
    |a0 a level c0 c t m Ha Hl Hc Ht|a0 a level c0 c t g m Ha Hl Hc Hz Ht];
    (assert (keyed_grants (pruned a t m)) as Hp by (by eapply keyed_drops; [apply pruned_drops|])); try done.
  - unfold revoke_spec. destruct (ap_grants (pruned a t m) !! trim_space id0) as [g|]; [|done].
    intros id x Hx. simpl in Hx. apply lookup_delete_Some in Hx as [_ Hx]. by apply Hp.
  - apply keyed_install. exact Hp.
  - unfold restore_spec, revoked_id. case_bool_decide; [done|]. destruct (approvalGrantExpired _ _); [done|]. by apply keyed_install.
Qed.

(** C28. Revocation is durable.  After a grant has been revoked, no history of
    calls and restarts brings it back, short of a new explicit approval of the
    same scope: whatever grant [Match] answers has another identifier, and
    crash recovery refuses to restore it. *)
Theorem revocation_durable a0 id0 l w w1 :
  let id := trim_space id0 in
  everywhere keyed_grants w → Revoke a0 id0 w = (w1, inr true) →
  Forall (λ e, match e with EvCall c => not_reapproving id c | EvReload => True end) l →
  let w2 := (run_events l w1).1 in
  revoked_for id (l_mem w2) ∧
  (∀ a c w3 g, Match a c w2 = (w3, inr (Some g)) → gr_GrantID g ≠ id) ∧
  (∀ a1 a level c1 c t w3 g, normalizeApprovalAuthority a1 = inr a → standing_candidate level c1 = inr c →
     stableApprovalGrantID a level c = id → RestorePrepared a1 level c1 t w2 ≠ (w3, inr g)).
Proof.
  intros id (Hclock & Hkm & Hkf) Hrun Hl w2. eapply wp_run in Hrun; [|apply wp_Revoke]. cbn beta in Hrun.
  destruct Hrun as (a & t & t' & Ha & Hid & Ht & Ht' & (Hc & Hm & Hf) & Htrue).
  unfold id in *. clear id. set (id := trim_space id0) in *.
  unfold revoke_spec in *. destruct (ap_grants (pruned a t (l_mem w)) !! id) as [g|] eqn:Hg; [|done]. simpl in Hm, Hf.
  set (P := λ m, revoked_for id m ∧ keyed_grants m).
  assert (P (l_mem w1)) as Hr1.
  { rewrite Hm. split; [split; simpl; [rewrite lookup_insert_eq; eauto|apply lookup_delete_eq]|].
    intros id' x Hx. simpl in Hx. apply lookup_delete_Some in Hx as [_ [Hx _]%pruned_lookup]. by apply Hkm. }
  assert (everywhere P w1) as He.
  { split_and!; [unfold clock_ok; by rewrite Hc|done|]. destruct Hf as [[Heq _]|[t2 ->]]; [|split; [done|by rewrite Hm in Hr1]].
    exfalso. apply pruned_lookup in Hg as (Hg & _). rewrite <- Heq in Hg. simpl in Hg. by rewrite lookup_delete_eq in Hg. }
  assert (P (l_mem w2)) as [Hr2 Hk2].
  { assert (∀ call m m', not_reapproving id call → intends nonzero call m m' → P m → P m') as Hstep
      by (intros call m m' Hn Hi [Hr Hk]; split; [by eapply revoked_intends|by eapply keyed_intends]).
    assert (∀ m m', drops m m' → P m → P m') as Hdrop
      by (intros m m' Hd [Hr Hk]; split; [by eapply revoked_drops|by eapply keyed_drops]).
    exact (proj1 (proj2 (everywhere_events P (not_reapproving id) Hdrop Hstep l w1 Hl He))). }
  split_and!; [done| |].
  - intros a' c w3 g' Hmatch Heq. eapply wp_run in Hmatch; [|apply wp_Match]. cbn beta in Hmatch.
    destruct Hmatch as (a2 & c2 & t2 & _ & _ & _ & _ & Hres). unfold match_spec in Hres. case_bool_decide; [done|].
    symmetry in Hres. apply match_levels_found in Hres as (level & _ & (Hx & _)%pruned_lookup & _).
    apply Hk2 in Hx as Hkey. rewrite <- Hkey, Heq in Hx. destruct Hr2 as [_ Hno]. congruence.
  - intros a1 a2 level c1 c t3 w3 g' Ha2 Hc2 Hsame Hrest. eapply wp_run in Hrest; [|apply wp_RestorePrepared].
    cbn beta in Hrest. destruct Hrest as (a3 & c3 & t2 & Ha3 & _ & Hc3 & _ & _ & _ & Hres).
    rewrite Ha2 in Ha3. injection Ha3 as <-. rewrite Hc2 in Hc3. injection Hc3 as <-.
    assert (revoked_for id (pruned a2 t2 (l_mem w2))) as [Hp _] by (by eapply revoked_drops; [apply pruned_drops|]).
    unfold restore_spec, revoked_id in Hres. rewrite new_grant_id, Hsame, bool_decide_true in Hres by done. done.
Qed.

(** ** Approving *)

Section approving.
Context (known : string → Prop).
Context (Hnc : ∀ p q, known p → known q → no_collision p q).

Lemma covers_self c b c' : normalizeApprovalCandidate c b = inr c' →
  approvalScopeCovers (ca_AccessScope c') (ca_AccessScope c') = true.
Proof.
  intros [_ Hn]%candidate_normalized. apply covers_spec. exists (ca_AccessScope c'), (ca_AccessScope c').
  split_and!; [done|done|apply access_within_refl].
Qed.

(** The grant left by an installation: the one of the subject, wide enough, and
    with the times of the grant it replaces. *)
Definition granted (m : approvals) (a : ApprovalAuthority) (level : ApprovalLevel) (c : ApprovalCandidate) (created : time)
    (g : ApprovalGrant) (m' : approvals) : Prop :=
  let id := stableApprovalGrantID a level c in
  ap_grants m' !! id = Some g ∧ gr_GrantID g = id ∧
  approvalScopeCovers (gr_AccessCeiling g) (ca_AccessScope c) = true ∧
  match ap_grants m !! id with
  | Some g0 => gr_CreatedAt g = gr_CreatedAt g0 ∧ gr_ExpiresAt g = gr_ExpiresAt g0
  | None => g = newApprovalGrant a level c created
  end.

Lemma install_granted m a level c t c0 b :
  store_ok known m → normalizeApprovalCandidate c0 b = inr c →
  let r := install_spec m (newApprovalGrant a level c t) c in granted m a level c t r.2 r.1.
Proof.
  intros Hok Hc. unfold install_spec, granted. rewrite new_grant_id.
  destruct (ap_grants m !! stableApprovalGrantID a level c) as [ex|] eqn:Hex.
  - destruct (ok_grants known m Hok _ ex Hex) as (Hid & _).
    destruct (approvalScopeCovers (gr_AccessCeiling ex) (ca_AccessScope c)) eqn:Hcov; simpl.
    + by split_and!.
    + rewrite lookup_insert_eq. split_and!; [done|done|by eapply covers_self|done|done].
  - simpl. rewrite lookup_insert_eq, new_grant_id. split_and!; [done|done| |done].
    assert (gr_AccessCeiling (newApprovalGrant a level c t) = ca_AccessScope c) as -> by (by destruct level).
    by eapply covers_self.
Qed.

(** An approval.  A successful standing approval leaves in memory, not
    revoked, the grant of exactly that authority, level and subject, with a
    ceiling that covers the approved request; a live grant that was already
    there keeps its creation time and its expiry, so the 30-minute window of
    a conversation never slides. *)
Theorem upsert_correct a0 level c0 w w' g :
  store_ok known (l_mem w) → standing level = true → Upsert a0 level c0 w = (w', inr g) →
  ∃ a c t, normalizeApprovalAuthority a0 = inr a ∧ standing_candidate level c0 = inr c ∧ reading w t ∧
    granted (pruned a t (l_mem w)) a level c t g (l_mem w') ∧
    ap_revocations (l_mem w') !! stableApprovalGrantID a level c = None.
Proof.
  intros Hok Hst Hrun. eapply wp_run in Hrun; [|apply wp_Upsert]. cbn beta in Hrun.
  destruct Hrun as (a & c & t & Ha & _ & Hc & Ht & (_ & -> & _) & ->). specialize (Hc Hst).
  exists a, c, t. unfold upsert_effect. rewrite bool_decide_false by (by intros ->). unfold upsert_spec. rewrite new_grant_id.
  set (m := unrevoke _ _). assert (store_ok known m) as Hm.
  { assert (store_ok known (pruned a t (l_mem w))) as Hp by (by eapply store_ok_drops; [apply pruned_drops|]).
    split; [apply (ok_grants known _ Hp)| |].
    - intros id r [_ Hr]%(lookup_delete_Some (ap_revocations (pruned a t (l_mem w)))). by apply (ok_revocations known _ Hp id).
    - intros id Hg [r [_ Hr]%(lookup_delete_Some (ap_revocations (pruned a t (l_mem w))))]. by apply (ok_disjoint known _ Hp id); [|exists r]. }
  pose proof Hc as Hcn. apply standing_candidate_inv in Hcn as [Hcn _].
  split_and!; [done|done|done|by apply (install_granted m a level c t c true)|].
  unfold install_spec. destruct (ap_grants m !! _); [destruct (approvalScopeCovers _ _)|]; apply lookup_delete_eq.
Qed.

(** Recovery.  A restored approval leaves the grant of its subject with a
    ceiling that covers the request, and a conversation approval made anew by
    recovery ends at most 30 minutes after it was given, and is not over when
    it is restored. *)
Theorem restore_correct a0 level c0 grantedAt w w' g :
  store_ok known (l_mem w) → RestorePrepared a0 level c0 grantedAt w = (w', inr g) →
  ∃ a c t, normalizeApprovalAuthority a0 = inr a ∧ standing_candidate level c0 = inr c ∧ reading w t ∧
    granted (pruned a t (l_mem w)) a level c (clamp t grantedAt) g (l_mem w') ∧
    ap_revocations (l_mem w) !! stableApprovalGrantID a level c = None ∧
    (level = ApprovalLevelConversation30m → ap_grants (pruned a t (l_mem w)) !! stableApprovalGrantID a level c = None →
     ∃ e, gr_ExpiresAt g = Some e ∧ e <= grantedAt + ApprovalConversationWindow ∧ t < e).
Proof.
  intros Hok Hrun. eapply wp_run in Hrun; [|apply wp_RestorePrepared]. cbn beta in Hrun.
  destruct Hrun as (a & c & t & Ha & Hst & Hc & Hz & Ht & (_ & -> & _) & Hres). exists a, c, t.
  assert (store_ok known (pruned a t (l_mem w))) as Hp by (by eapply store_ok_drops; [apply pruned_drops|]).
  pose proof Hc as Hcn. apply standing_candidate_inv in Hcn as [Hcn _].
  unfold restore_spec, revoked_id in *. rewrite new_grant_id in *. case_bool_decide as Hrev; [done|].
  destruct (approvalGrantExpired _ _) eqn:Hexp; [done|]. injection Hres as ->. cbn [fst snd].
  pose proof (install_granted _ a level c (clamp t grantedAt) c true Hp Hcn) as Hg. cbv zeta in Hg.
  split_and!; [done|done|done|done|by apply eq_None_not_Some|].
  intros -> Hnone. destruct Hg as (_ & _ & _ & Hg). rewrite Hnone in Hg. rewrite Hg. simpl.
  eexists; split; [done|]. unfold approvalGrantExpired in Hexp. simpl in Hexp. apply negb_false_iff, Z.ltb_lt in Hexp.
  split; [|done]. unfold clamp. destruct (Z.ltb_spec t grantedAt); lia.
Qed.

(** Restart.  Loading the file that the store itself wrote never fails
    validation: it gives back every revocation and every grant but those
    expired at a clock reading of the load. *)
Theorem reload_roundtrip m t0 w :
  store_ok known m → l_file w = FileDoc (snapshot_of m t0) →
  ∃ w' r, Reload w = (w', r) ∧ (r = inr () ∨ r = inl PersistFailed) ∧ reloaded (reading w) m (l_mem w').
Proof.
  intros Hok Hf. pose proof (wp_load_current (snapshot_of m t0) w Hf eq_refl) as Hspec. unfold wp in Hspec.
  unfold Reload. destruct (load w) as [w' r]. exists w', r. split; [done|].
  assert (file_approvals (snapshot_of m t0) = m) as Hm by (by destruct m). rewrite Hm in Hspec.
  destruct r as [e|[]]; [|by destruct Hspec as (_ & ? & _); auto].
  destruct Hspec as [[Hbad _]|(-> & _ & ? & _)]; [|by auto]. destruct Hbad. split_and!.
  - intros id g Hg. destruct (ok_grants known m Hok id g Hg) as (-> & Hv & _). split_and!; [|done|done].
    by apply validate_inv in Hv as (_ & _ & -> & _).
  - intros id r Hr. by apply (ok_revocations known m Hok).
  - apply (ok_disjoint known m Hok).
Qed.
End approving.
