(* ===== verification/ApprovalWitness.v ===== *)
(** * The standing approvals at concrete inputs

    A recipient approves a conversation, a request matches, the approval is
    revoked and the daemon restarts, with a write that fails on the way. *)

From S2P Require Import Prelude GoString Sha256 Protocol LocalStore ApprovalStore ApprovalScope ApprovalProofs ApprovalSafety.

Local Open Scope Z_scope.

Definition bob_authority : ApprovalAuthority := mkAuthority "relay-1" " agent_bob".
Definition normal_authority : ApprovalAuthority := mkAuthority "relay-1" "agent_bob".
Definition wide_scope : ApprovalAccessScope :=
  mkScope [mkRequestedAccess "main" PermissionGuardedWrite; mkRequestedAccess "docs" PermissionReadOnly] 2 100.
Definition narrow_scope : ApprovalAccessScope := mkScope [mkRequestedAccess " main" PermissionReadOnly] 0 0.
Definition alice_asks (s : ApprovalAccessScope) : ApprovalCandidate := mkCandidate "mem_alice" "Alice" "conv_1" s.
Definition normal_candidate : ApprovalCandidate :=
  mkCandidate "mem_alice" "Alice" "conv_1"
    (mkScope [mkRequestedAccess "docs" PermissionReadOnly; mkRequestedAccess "main" PermissionGuardedWrite] 2 100).

Definition level_payload (l : ApprovalLevel) : string := subject_payload normal_authority l normal_candidate.
Definition sample_payloads : list string :=
  level_payload <$> [ApprovalLevelAskAlways; ApprovalLevelConversation30m; ApprovalLevelTeammateAlways; ApprovalLevelAllAlways].
Definition sample_known (p : string) : Prop := p ∈ sample_payloads.
Lemma sample_no_collision p q : sample_known p → sample_known q → no_collision p q.
Proof.
  intros Hp Hq. assert (forallb (λ p, forallb (λ q, implb (sha256_hex p =? sha256_hex q)%string (p =? q)%string) sample_payloads)
    sample_payloads = true) as Hall by (vm_compute; reflexivity).
  rewrite forallb_forall in Hall. apply list_elem_of_In in Hp. specialize (Hall p Hp). rewrite forallb_forall in Hall.
  apply list_elem_of_In in Hq. specialize (Hall q Hq). intros Heq. rewrite Heq, String.eqb_refl in Hall.
  by apply String.eqb_eq in Hall.
Qed.

Definition minute_clock (n : nat) : Z := 1700000000 * second + Z.of_nat n * second.
Definition ap_world (m : approvals) (f : file_content approvalSnapshot) (ws : list write_outcome) : approval_world :=
  mkLocal m f ws minute_clock 0.
Lemma minute_clock_ok m f ws : clock_ok (ap_world m f ws).
Proof. intros n. unfold ap_world, minute_clock, is_zero_time. simpl. apply Z.eqb_neq. unfold zero_time, second. lia. Qed.

Definition ap_fresh : approval_world := ap_world (mkApprovals ∅ ∅) FileAbsent [].
Lemma fresh_ok : everywhere (store_ok sample_known) ap_fresh.
Proof.
  split_and!; [apply minute_clock_ok| |exact I].
  split; simpl; intros id; [intros g Hg|intros r Hr|intros [g Hg]]; by rewrite lookup_empty in *.
Qed.

(** Every call of the sample is about the same subject. *)
Lemma sample_subject level a c :
  normalizeApprovalAuthority bob_authority = inr a →
  normalizeApprovalCandidate (alice_asks wide_scope) true = inr c → standing level = true →
  sample_known (subject_payload a level c).
Proof.
  assert (normalizeApprovalAuthority bob_authority = inr normal_authority) as -> by (vm_compute; reflexivity).
  assert (normalizeApprovalCandidate (alice_asks wide_scope) true = inr normal_candidate) as -> by (vm_compute; reflexivity).
  intros [= <-] [= <-] Hl. unfold sample_known, sample_payloads. apply list_elem_of_fmap. exists level. split; [done|].
  destruct level; try done; repeat (first [apply list_elem_of_here|apply list_elem_of_further]).
Qed.

Lemma approval_scope_inclusion_witness :
  approvalScopeCovers wide_scope narrow_scope = true ∧ approvalScopeCovers narrow_scope wide_scope = false ∧
  approvalScopeCovers wide_scope wide_scope = true.
Proof.
  split; [vm_compute; reflexivity|]. split; [vm_compute; reflexivity|].
  apply (proj1 (proj2 (approval_scope_inclusion wide_scope narrow_scope narrow_scope))). vm_compute. reflexivity.
Defined.

(** The other candidate has the same subject. *)
Lemma narrow_subject a c level :
  normalizeApprovalAuthority bob_authority = inr a →
  normalizeApprovalCandidate (alice_asks narrow_scope) false = inr c → standing level = true →
  sample_known (subject_payload a level c).
Proof.
  assert (normalizeApprovalAuthority bob_authority = inr normal_authority) as -> by (vm_compute; reflexivity).
  intros [= <-] Hc Hl.
  assert (subject_payload normal_authority level c = level_payload level) as ->.
  { assert (normalizeApprovalCandidate (alice_asks narrow_scope) false =
      inr (mkCandidate "mem_alice" "Alice" "conv_1" (mkScope [mkRequestedAccess "main" PermissionReadOnly] 0 0))) as Hn
      by (vm_compute; reflexivity). rewrite Hn in Hc. injection Hc as <-.
    by destruct level. }
  apply list_elem_of_fmap. exists level. split; [done|].
  destruct level; try done; repeat (first [apply list_elem_of_here|apply list_elem_of_further]).
Qed.

Definition approve (l : ApprovalLevel) : approval_call := CallUpsert bob_authority l (alice_asks wide_scope).
Definition ap_approved : approval_world := (run_approval (approve ApprovalLevelConversation30m) ap_fresh).1.

Lemma approval_calls_atomic_witness :
  ∃ m, intends (reading ap_fresh) (approve ApprovalLevelConversation30m) (l_mem ap_fresh) m ∧ l_mem ap_approved = m ∧ size (ap_grants m) = 1%nat.
Proof.
  destruct (approval_calls_atomic (approve ApprovalLevelConversation30m) ap_fresh ap_approved (inr ())) as [(_ & Hm & _)|(m & Hi & Hw)].
  - by_run.
  - assert (size (ap_grants (l_mem ap_approved)) = size (ap_grants (l_mem ap_fresh))) as Hs by (rewrite Hm; reflexivity).
    vm_compute in Hs. discriminate Hs.
  - exists m. destruct Hw as [(_ & Hm & _)|(e & He & _)]; [|discriminate He].
    split_and!; [exact Hi|exact Hm|]. rewrite <- Hm. vm_compute. reflexivity.
Defined.

Lemma standing_source level c0 c : standing_candidate level c0 = inr c → normalizeApprovalCandidate c0 true = inr c.
Proof. unfold standing_candidate. destruct (normalizeApprovalCandidate c0 true); [done|]. by case_match. Qed.

Lemma approve_known l : call_known sample_known (approve l).
Proof. intros a c Ha Hl Hc%standing_source. apply (sample_subject l a c); [exact Ha|exact Hc|exact Hl]. Qed.

Definition sample_history : list approval_event :=
  [EvCall (approve ApprovalLevelTeammateAlways); EvCall (CallMatch bob_authority (alice_asks narrow_scope)); EvReload].

Lemma approval_store_invariant_witness :
  everywhere (store_ok sample_known) (run_events sample_history ap_fresh).1 ∧
  size (ap_grants (l_mem (run_events sample_history ap_fresh).1)) = 1%nat.
Proof.
  split; [|vm_compute; reflexivity]. apply (approval_store_invariant sample_known sample_no_collision); [|exact fresh_ok].
  apply Forall_cons; split; [apply (approve_known ApprovalLevelTeammateAlways)|].
  apply Forall_cons; split; [exact I|]. apply Forall_cons; split; [exact I|]. apply Forall_nil_2.
Defined.

(** The same history, as a lemma of the sample: what it leaves is well formed. *)
Lemma approved_everywhere : everywhere (store_ok sample_known) ap_approved.
Proof.
  assert (∀ call m m', call_known sample_known call → intends nonzero call m m' → store_ok sample_known m → store_ok sample_known m')
    as Hstep by (intros call m m' Hk Hi; by apply (store_ok_intends sample_known sample_no_collision call)).
  pose proof (everywhere_call (store_ok sample_known) (call_known sample_known) Hstep) as H.
  apply H; [apply approve_known|exact fresh_ok].
Qed.
Lemma approved_ok : store_ok sample_known (l_mem ap_approved).
Proof. exact (proj1 (proj2 approved_everywhere)). Qed.

Definition match_narrow : AP (option ApprovalGrant) := Match bob_authority (alice_asks narrow_scope).
Definition matched : option ApprovalGrant := result_of None match_narrow ap_approved.
Definition matched_grant : ApprovalGrant := match matched with Some g => g | None => zero_grant end.

Lemma match_sound_witness :
  gr_Level matched_grant = ApprovalLevelConversation30m ∧
  ap_revocations (l_mem ap_approved) !! gr_GrantID matched_grant = None.
Proof.
  split; [vm_compute; reflexivity|].
  destruct (match_sound sample_known sample_no_collision bob_authority (alice_asks narrow_scope) ap_approved
    (match_narrow ap_approved).1 matched_grant approved_ok) as (a & c & t & _ & _ & _ & _ & Hr & _); [| |exact Hr].
  - apply narrow_subject.
  - assert (match_narrow ap_approved = ((match_narrow ap_approved).1, inr (Some matched_grant))) as Hm by by_run. exact Hm.
Defined.

Definition revoke_run : approval_world * (approval_error + bool) := Revoke bob_authority (gr_GrantID matched_grant) ap_approved.
Lemma revoke_runs : Revoke bob_authority (gr_GrantID matched_grant) ap_approved = (revoke_run.1, inr true).
Proof. apply run_pair. vm_compute. reflexivity. Qed.
Lemma distinct_ids a c :
  normalizeApprovalAuthority bob_authority = inr a →
  standing_candidate ApprovalLevelTeammateAlways (alice_asks wide_scope) = inr c →
  stableApprovalGrantID a ApprovalLevelTeammateAlways c ≠ trim_space (gr_GrantID matched_grant).
Proof.
  assert (normalizeApprovalAuthority bob_authority = inr normal_authority) as -> by (vm_compute; reflexivity).
  assert (standing_candidate ApprovalLevelTeammateAlways (alice_asks wide_scope) = inr normal_candidate) as -> by (vm_compute; reflexivity).
  intros [= <-] [= <-] H. vm_compute in H. discriminate H.
Qed.
Definition after_revoke : list approval_event := [EvReload; EvCall (approve ApprovalLevelTeammateAlways)].

Lemma approved_keyed : everywhere keyed_grants ap_approved.
Proof.
  destruct approved_everywhere as (Hc & Hm & Hf). split; [exact Hc|]. split.
  - intros id g Hg. by destruct (ok_grants _ _ Hm id g Hg) as [-> _].
  - revert Hf. destruct (l_file ap_approved) as [| | |s]; [done..|]. intros [Hv Hf]. split; [exact Hv|].
    intros id g Hg. by destruct (ok_grants _ _ Hf id g Hg) as [-> _].
Defined.
Lemma revocation_durable_witness :
  revoked_for (trim_space (gr_GrantID matched_grant)) (l_mem (run_events after_revoke revoke_run.1).1).
Proof.
  refine (proj1 (revocation_durable bob_authority (gr_GrantID matched_grant) after_revoke ap_approved revoke_run.1 _ _ _)).
  - exact approved_keyed.
  - exact revoke_runs.
  - apply Forall_cons; split; [exact I|]. apply Forall_cons; split; [|apply Forall_nil_2].
    intros a c Ha Hc. by apply (distinct_ids a).
Defined.

Definition upsert_narrow : AP ApprovalGrant := Upsert bob_authority ApprovalLevelConversation30m (alice_asks narrow_scope).
Definition kept_grant : ApprovalGrant := result_of zero_grant upsert_narrow ap_approved.

Lemma upsert_correct_witness :
  gr_CreatedAt kept_grant = gr_CreatedAt matched_grant ∧
  ap_revocations (l_mem (upsert_narrow ap_approved).1) !! gr_GrantID kept_grant = None.
Proof.
  split; [vm_compute; reflexivity|].
  destruct (upsert_correct sample_known bob_authority ApprovalLevelConversation30m (alice_asks narrow_scope)
    ap_approved (upsert_narrow ap_approved).1 kept_grant approved_ok eq_refl) as (a & c & t & _ & _ & _ & (_ & Hid & _) & Hr).
  - assert (upsert_narrow ap_approved = ((upsert_narrow ap_approved).1, inr kept_grant)) as Hm by by_run. exact Hm.
  - rewrite Hid. exact Hr.
Defined.

Definition restore_it : AP ApprovalGrant :=
  RestorePrepared bob_authority ApprovalLevelConversation30m (alice_asks wide_scope) (minute_clock 0 - 60 * second).
Definition restored_grant : ApprovalGrant := result_of zero_grant restore_it ap_fresh.

Lemma restore_correct_witness :
  gr_ExpiresAt restored_grant = Some (minute_clock 0 + 29 * 60 * second) ∧
  approvalScopeCovers (gr_AccessCeiling restored_grant) wide_scope = true.
Proof.
  split; [vm_compute; reflexivity|].
  destruct (restore_correct sample_known bob_authority ApprovalLevelConversation30m (alice_asks wide_scope)
    (minute_clock 0 - 60 * second) ap_fresh (restore_it ap_fresh).1 restored_grant) as (a & c & t & _ & Hc & _ & (_ & _ & Hcov & _) & _).
  - apply fresh_ok.
  - assert (restore_it ap_fresh = ((restore_it ap_fresh).1, inr restored_grant)) as Hm by by_run. exact Hm.
  - apply standing_source in Hc.
    assert (normalizeApprovalCandidate (alice_asks wide_scope) true = inr normal_candidate) as Hn by (vm_compute; reflexivity).
    rewrite Hn in Hc. injection Hc as <-. vm_compute in Hcov |- *. exact Hcov.
Defined.

Definition restarted : approval_world := (Reload ap_approved).1.

Lemma reload_roundtrip_witness :
  drops (l_mem ap_approved) (l_mem restarted) ∧ size (ap_grants (l_mem restarted)) = 1%nat.
Proof.
  split; [|vm_compute; reflexivity].
  destruct (reload_roundtrip sample_known (l_mem ap_approved) (minute_clock 1) ap_approved approved_ok) as (w' & r & Hr & _ & Hd & _).
  - vm_compute. reflexivity.
  - unfold restarted. rewrite Hr. exact Hd.
Defined.
