(* ===== verification/CollabStore.v ===== *)
(** * Collaboration store ([internal/collaboration/store.go], [eviction.go])

    The relay's request lifecycle over Redis: presence, the directory,
    creation, the recipient's decision, the execution claim, the result, and
    the artifacts.  Definitions only; the theorems are in [CollabLifecycle]
    and [CollabProofs]. *)

From S2P Require Import Prelude GoString Sha256 Protocol Auth Records Json Redis.
From Stdlib Require Import Ascii.

Local Open Scope Z_scope.

Inductive cerr :=
  | ErrUnauthorized | ErrForbidden | ErrNotFound | ErrInvalid | ErrConflict
  | errNotAwaitingExpiry.
#[export] Instance cerr_eq_dec : EqDecision cerr.
Proof. solve_decision. Defined.

Definition agentTTL : Z := 75 * second.
Definition requestRetention : Z := 7 * 24 * 3600 * second.
Definition conversationTTL : Z := 30 * 24 * 3600 * second.
Definition maximumAnswerBytes : Z := 128 * 1024.
Definition maximumErrorBytes : Z := 4 * 1024.

Record AgentQuery := mkAgentQuery {
  q_Need : string; q_Capabilities : list string; q_WorkspaceAliases : list string;
  q_OnlineOnly : bool; q_AcceptingOnly : bool; q_Limit : Z }.

(** ** Redis keys *)

Definition escaped (value : string) : string := hex_encode value.
Definition collab_key (org kind rest : string) : string :=
  collaborationPrefix +:+ escaped org +:+ kind +:+ rest.
Definition agentKey (org agent : string) : string := collab_key org ":agent:" (escaped agent).
Definition agentsKey (org : string) : string := collab_key org ":agents" "".
Definition revokedAgentsKey (org : string) : string := CollaborationRevokedAgents org.
Definition requestKey (org request : string) : string := collab_key org ":request:" (escaped request).
Definition inboxKey (org agent : string) : string := collab_key org ":inbox:" (escaped agent).
Definition conversationKey (org conv : string) : string :=
  collab_key org ":conversation:" (escaped conv).
Definition artifactKey (org artifact : string) : string :=
  collab_key org ":artifact:" (escaped artifact).
Definition idempotencyKey (org agent key : string) : string :=
  collab_key org ":idempotency:" (escaped agent +:+ ":" +:+ sha256_hex key).

(** ** Validation *)

Section validation.
Context `{UT : UnicodeTables}.

Definition requireDevice (p : Principal) : cerr + () :=
  if negb (bool_decide (p_TokenKind p = TokenDevice)) || bool_decide (p_OrganizationID p = "") ||
     bool_decide (p_MemberID p = "") || bool_decide (p_AgentID p = "")
  then inl ErrUnauthorized else inr ().

Definition validLabel (value : string) (max : Z) : bool :=
  let value := trim_space value in
  negb (bool_decide (value = "") || (max <? len value)) && negb (existsb is_control (runes value)).

Definition identifier_rune (r : Z) : bool :=
  in_range 97 122 r || in_range 65 90 r || in_range 48 57 r || (r =? 45) || (r =? 95) || (r =? 46).
Definition validIdentifier (value : string) (max : Z) : bool :=
  let value := trim_space value in
  negb (bool_decide (value = "") || (max <? len value)) && forallb identifier_rune (runes value).

Definition validOpaqueID (value prefixValue : string) : bool :=
  bool_decide (len value = len prefixValue + 64) && has_prefix value prefixValue &&
  bool_decide (is_Some (hex_decode (drop_bytes (String.length prefixValue) value))).
Definition validExecutionClaimID (value : string) : bool := validOpaqueID value "claim_".
Definition validDecisionID (value : string) : bool := validOpaqueID value "decision_".

Definition opaqueIDMatches (stored presented : string) : bool :=
  if negb (bool_decide (len stored = len presented)) || bool_decide (stored = "") then false
  else bool_decide (stored = presented).
Definition executionClaimMatches (stored presented : string) : bool := opaqueIDMatches stored presented.

Definition validateHeartbeat (v : AgentHeartbeat) : cerr + () :=
  if negb (validLabel (hb_DisplayName v) 100) || negb (validLabel (rd_ID (hb_Runtime v)) 128) ||
     negb (validLabel (rd_DisplayName (hb_Runtime v)) 100) then inl ErrInvalid else
  if negb (bool_decide (hb_Availability v = AvailabilityAvailable)) &&
     negb (bool_decide (hb_Availability v = AvailabilityBusy)) &&
     negb (bool_decide (hb_Availability v = AvailabilityAway)) then inl ErrInvalid else
  if negb (mode_valid (hb_PermissionMode v)) then inl ErrInvalid else
  if (20 <? Z.of_nat (length (hb_Capabilities v))) ||
     (20 <? Z.of_nat (length (hb_WorkspaceAliases v))) then inl ErrInvalid else inr ().

(** The requested-access loop of [validateCreate]. *)
Fixpoint validate_access (seen : gset string) (l : list RequestedAccess) : cerr + () :=
  match l with
  | [] => inr ()
  | a :: l' =>
    if negb (validLabel (ra_WorkspaceAlias a) 100) ||
       (negb (bool_decide (ra_Mode a = PermissionReadOnly)) &&
        negb (bool_decide (ra_Mode a = PermissionGuardedWrite))) then inl ErrInvalid else
    let key := to_lower (trim_space (ra_WorkspaceAlias a)) in
    if bool_decide (key ∈ seen) then inl ErrInvalid else validate_access ({[key]} ∪ seen) l'
  end.

Definition validateCreate (i : CreateRequest) : cerr + () :=
  if bool_decide (trim_space (cr_ConversationID i) = "") &&
     bool_decide (trim_space (cr_TargetAgentID i) = "") then inl ErrInvalid else
  if negb (validLabel (cr_Title i) MaxTitleBytes) || bool_decide (trim_space (cr_Prompt i) = "") ||
     (MaxPromptBytes <? len (cr_Prompt i)) then inl ErrInvalid else
  if negb (validIdentifier (cr_IdempotencyKey i) 128) || (cr_ExpiresInSeconds i <? 60) ||
     (86400 <? cr_ExpiresInSeconds i) then inl ErrInvalid else
  if negb (bool_decide (cr_TargetAgentID i = "")) && negb (validIdentifier (cr_TargetAgentID i) 100)
  then inl ErrInvalid else
  if negb (bool_decide (cr_ConversationID i = "")) && negb (validIdentifier (cr_ConversationID i) 100)
  then inl ErrInvalid else
  if (10 <? Z.of_nat (length (cr_RequestedAccess i))) ||
     (MaxAttachments <? Z.of_nat (length (cr_Attachments i))) then inl ErrInvalid else
  validate_access ∅ (cr_RequestedAccess i).

Definition secret_names : list string :=
  [".env"; ".netrc"; ".npmrc"; ".pypirc"; ".gitconfig"; ".git-credentials";
   "credentials"; "credentials.json"; "id_rsa"; "id_ed25519"; "known_hosts"; "authorized_keys"].
Definition secret_suffixes : list string := [".pem"; ".key"; ".p12"; ".pfx"; ".kdbx"].
Definition validArtifactName (value : string) : bool :=
  if negb (is_ok (ValidatePortableFilename value)) || negb (validLabel value 255) then false else
  let lower := to_lower value in
  if bool_decide (lower ∈ secret_names) then false else
  if has_prefix lower ".env." then false else
  negb (existsb (has_suffix lower) secret_suffixes).

Definition validMIMEType (value : string) : bool :=
  if negb (bool_decide (value = trim_space value)) || (255 <? len value) || negb (validLabel value 255)
  then false
  else match parse_media_type value with Some m => negb (bool_decide (m = "")) | None => false end.

(** The loop of [cleanUnique]: the values kept so far and their keys. *)
Fixpoint clean_unique_loop (limit : nat) (seen : gset string) (kept : list string)
    (values : list string) : list string :=
  match values with
  | [] => kept
  | v0 :: values' =>
    let v := trim_space v0 in
    let key := to_lower v in
    if bool_decide (v = "") || (100 <? len v) then clean_unique_loop limit seen kept values' else
    if bool_decide (key ∈ seen) then clean_unique_loop limit seen kept values' else
    let kept := kept ++ [v] in
    if bool_decide (length kept = limit) then kept
    else clean_unique_loop limit ({[key]} ∪ seen) kept values'
  end.
Definition cleanUnique (values : list string) (limit : nat) : list string :=
  clean_unique_loop limit ∅ [] values.

Definition containsAllFold (values wanted : list string) : bool :=
  forallb (λ candidate,
    existsb (λ value, equal_fold (trim_space value) (trim_space candidate)) values) wanted.

Definition matchesAgent (card : AgentCard) (query : AgentQuery) : bool :=
  if q_OnlineOnly query && negb (card_Online card) then false else
  if negb (containsAllFold (card_Capabilities card) (q_Capabilities query)) ||
     negb (containsAllFold (card_WorkspaceAliases card) (q_WorkspaceAliases query)) then false else
  let need := to_lower (trim_space (q_Need query)) in
  if bool_decide (need = "") then true else
  existsb (λ value, contains (to_lower value) need)
    ([card_DisplayName card; card_DeviceName card; rd_ID (card_Runtime card);
      rd_DisplayName (card_Runtime card)]
     ++ card_Capabilities card ++ card_WorkspaceAliases card).
End validation.

(** [preview(value, n)]: the first [n] runes. *)
Definition preview (value : string) (n : nat) : string :=
  if (length (runes value) <=? n)%nat then value else string_of_runes (take n (runes value)).

Definition requestDigest (input : CreateRequest) : string := json_digest (json_create input).
Definition digestResult (result : ResultPayload) : string := json_digest (json_result result).

(** ** Views and record updates *)

Definition mutation (r : Request) : MutationResponse :=
  mkMutationResponse (rq_RequestID r) (rq_ConversationID r) (rq_Status r).

Definition notice (r : Request) : RequestNotice :=
  {| nt_RequestID := rq_RequestID r; nt_ConversationID := rq_ConversationID r;
     nt_Status := rq_Status r; nt_RequesterAgentID := rq_RequesterAgentID r;
     nt_RequesterMemberID := rq_RequesterMemberID r;
     nt_RequesterDisplayName := rq_RequesterDisplayName r; nt_Title := rq_Title r;
     nt_PromptPreview := rq_PromptPreview r; nt_PromptBytes := rq_PromptBytes r;
     nt_PromptSHA256 := rq_PromptSHA256 r; nt_RequestedAccess := rq_RequestedAccess r;
     nt_Attachments := rq_Attachments r; nt_CreatedAt := rq_CreatedAt r;
     nt_ExpiresAt := rq_ExpiresAt r; nt_ResumesSession := false |}.

(** Assignment to the fields of a request that ever change. *)
Definition rq_assign (r : Request) (status : RequestStatus) (answer error : string)
    (files : list ArtifactDescriptor) (updated : time) (version : Z) : Request :=
  {| rq_APIVersion := rq_APIVersion r; rq_RequestID := rq_RequestID r;
     rq_ConversationID := rq_ConversationID r; rq_RequesterAgentID := rq_RequesterAgentID r;
     rq_RequesterMemberID := rq_RequesterMemberID r;
     rq_RequesterDisplayName := rq_RequesterDisplayName r; rq_TargetAgentID := rq_TargetAgentID r;
     rq_Title := rq_Title r; rq_Prompt := rq_Prompt r; rq_PromptPreview := rq_PromptPreview r;
     rq_PromptBytes := rq_PromptBytes r; rq_PromptSHA256 := rq_PromptSHA256 r;
     rq_RequestedAccess := rq_RequestedAccess r; rq_Attachments := rq_Attachments r;
     rq_ResultFiles := files; rq_Status := status; rq_Answer := answer; rq_Error := error;
     rq_CreatedAt := rq_CreatedAt r; rq_UpdatedAt := updated; rq_ExpiresAt := rq_ExpiresAt r;
     rq_Version := version |}.

Definition rq_set_status (s : RequestStatus) (r : Request) : Request :=
  rq_assign r s (rq_Answer r) (rq_Error r) (rq_ResultFiles r) (rq_UpdatedAt r) (rq_Version r).
Definition rq_clear_prompt (r : Request) : Request :=
  {| rq_APIVersion := rq_APIVersion r; rq_RequestID := rq_RequestID r;
     rq_ConversationID := rq_ConversationID r; rq_RequesterAgentID := rq_RequesterAgentID r;
     rq_RequesterMemberID := rq_RequesterMemberID r;
     rq_RequesterDisplayName := rq_RequesterDisplayName r; rq_TargetAgentID := rq_TargetAgentID r;
     rq_Title := rq_Title r; rq_Prompt := ""; rq_PromptPreview := rq_PromptPreview r;
     rq_PromptBytes := rq_PromptBytes r; rq_PromptSHA256 := rq_PromptSHA256 r;
     rq_RequestedAccess := rq_RequestedAccess r; rq_Attachments := rq_Attachments r;
     rq_ResultFiles := rq_ResultFiles r; rq_Status := rq_Status r; rq_Answer := rq_Answer r;
     rq_Error := rq_Error r; rq_CreatedAt := rq_CreatedAt r; rq_UpdatedAt := rq_UpdatedAt r;
     rq_ExpiresAt := rq_ExpiresAt r; rq_Version := rq_Version r |}.

(** [int64] increment. *)
Definition int64 (z : Z) : Z := (z + 2 ^ 63) mod 2 ^ 64 - 2 ^ 63.

(** [stored.Request.Version++; stored.Request.UpdatedAt = now] *)
Definition sr_touch (t : time) (s : storedRequest) : storedRequest :=
  let r := sr_Request s in
  mkStoredRequest
    (rq_assign r (rq_Status r) (rq_Answer r) (rq_Error r) (rq_ResultFiles r) t (int64 (rq_Version r + 1)))
    (sr_Prompt s) (sr_IdempotencyRedisKey s) (sr_DecisionID s) (sr_Decision s)
    (sr_ExecutionClaimID s) (sr_ResultDigest s).
Definition sr_set_request (r : Request) (s : storedRequest) : storedRequest :=
  mkStoredRequest r (sr_Prompt s) (sr_IdempotencyRedisKey s) (sr_DecisionID s) (sr_Decision s)
    (sr_ExecutionClaimID s) (sr_ResultDigest s).
Definition sr_set_status (st : RequestStatus) (s : storedRequest) : storedRequest :=
  sr_set_request (rq_set_status st (sr_Request s)) s.
Definition sr_set_decision (id : string) (d : Decision_) (st : RequestStatus) (s : storedRequest) : storedRequest :=
  mkStoredRequest (rq_set_status st (sr_Request s)) (sr_Prompt s) (sr_IdempotencyRedisKey s)
    id d (sr_ExecutionClaimID s) (sr_ResultDigest s).
Definition sr_set_claim (claim : string) (s : storedRequest) : storedRequest :=
  mkStoredRequest (rq_set_status StatusRunning (sr_Request s)) (sr_Prompt s)
    (sr_IdempotencyRedisKey s) (sr_DecisionID s) (sr_Decision s) claim (sr_ResultDigest s).
Definition sr_set_result (result : ResultPayload) (files : list ArtifactDescriptor)
    (digest : string) (s : storedRequest) : storedRequest :=
  let r := sr_Request s in
  mkStoredRequest
    (rq_assign r (rp_State result) (rp_Answer result) (rp_Error result) files (rq_UpdatedAt r) (rq_Version r))
    (sr_Prompt s) (sr_IdempotencyRedisKey s) (sr_DecisionID s) (sr_Decision s)
    (sr_ExecutionClaimID s) digest.

Definition exactResultReplay (stored : storedRequest) (result : ResultPayload) (digest : string) : bool :=
  bool_decide (rq_Status (sr_Request stored) = rp_State result) &&
  executionClaimMatches (sr_ExecutionClaimID stored) (rp_ExecutionClaimID result) &&
  opaqueIDMatches (sr_ResultDigest stored) digest.

Definition containsArtifact (descriptors : list ArtifactDescriptor) (artifactID : string) : bool :=
  existsb (λ d, bool_decide (ad_ArtifactID d = artifactID)) descriptors.

Definition execution_of (s : storedRequest) : ExecutionPayload :=
  let r := sr_Request s in
  mkExecutionPayload (rq_RequestID r) (rq_ConversationID r) (rq_RequesterAgentID r)
    (rq_RequesterMemberID r) (rq_RequesterDisplayName r) (rq_Title r) (sr_Prompt s)
    (rq_RequestedAccess r) (rq_Attachments r) (rq_ExpiresAt r).
Definition proposal_of (s : storedRequest) : ProposalPayload :=
  let r := sr_Request s in
  mkProposalPayload (rq_RequestID r) (rq_ConversationID r) (rq_RequesterAgentID r)
    (rq_RequesterMemberID r) (rq_RequesterDisplayName r) (rq_Title r) (sr_Prompt s)
    (rq_RequestedAccess r) (rq_Attachments r) (rq_ExpiresAt r).

(** Orders of the sorted answers. *)
Definition card_leb (a b : AgentCard) : bool :=
  if bool_decide (card_DisplayName a = card_DisplayName b)
  then str_leb (card_AgentID a) (card_AgentID b)
  else str_leb (card_DisplayName a) (card_DisplayName b).
Definition card_le (a b : AgentCard) : Prop := card_leb a b = true.
#[export] Instance card_le_dec a b : Decision (card_le a b).
Proof. unfold card_le. apply _. Defined.
Definition notice_le (a b : RequestNotice) : Prop := nt_CreatedAt a <= nt_CreatedAt b.
#[export] Instance notice_le_dec a b : Decision (notice_le a b).
Proof. unfold notice_le. apply _. Defined.

(** ** Operations *)

Section operations.
Context {DB : Type} `{RS : RedisServer DB} `{UT : UnicodeTables}.
Abbreviation CM := (M (world DB) (rerror cerr)).

(** A validator's verdict as a step of the handler. *)
Definition checked {A} (r : cerr + A) : CM A :=
  lift (match r with inl e => inl (Sentinel e) | inr a => inr a end).
Definition refuse_if (b : bool) (e : cerr) : CM () := reject_if b (Sentinel e).

(** [GET] and decoding; a missing or foreign document is [ErrNotFound]. *)
Definition readStoredRequest (org requestID : string) : CM storedRequest :=
  raw ← redis_get (requestKey org (trim_space requestID));
  match raw ≫= unmarshal with
  | Some stored =>
    if bool_decide (rq_RequestID (sr_Request stored) = trim_space requestID) then mret stored
    else reject! ErrNotFound
  | None => reject! ErrNotFound
  end.

Definition readConversation (org conversationID : string) : CM conversation :=
  raw ← redis_get (conversationKey org conversationID);
  match raw ≫= unmarshal with
  | Some v =>
    if bool_decide (cv_OrganizationID v = org) && bool_decide (cv_ID v = conversationID) then mret v
    else reject! ErrNotFound
  | None => reject! ErrNotFound
  end.

Definition readAgent (org agentID : string) : CM AgentCard :=
  revoked ← redis_sismember (revokedAgentsKey org) agentID;
  if (revoked : bool) then reject! ErrNotFound else
  raw ← redis_get (agentKey org agentID);
  match raw ≫= unmarshal with
  | Some card =>
    if bool_decide (card_AgentID card = agentID) then mret card else reject! ErrNotFound
  | None => reject! ErrNotFound
  end.

Definition Heartbeat (p : Principal) (hb : AgentHeartbeat) : CM AgentCard :=
  checked (requireDevice p) ≫= λ _,
  checked (validateHeartbeat hb) ≫= λ _,
  refuse_if (bool_decide (trim_space (p_Runtime p) = "") ||
             bool_decide (trim_space (p_PermissionMode p) = "") ||
             negb (bool_decide (trim_space (rd_ID (hb_Runtime hb)) = p_Runtime p)) ||
             negb (bool_decide (mode_string (hb_PermissionMode hb) = p_PermissionMode p)))
            ErrForbidden ≫= λ _,
  t ← now;
  let card := {| card_AgentID := p_AgentID p; card_MemberID := p_MemberID p;
                 card_DisplayName := p_DisplayName p; card_DeviceName := p_DeviceName p;
                 card_Availability := hb_Availability hb;
                 card_AcceptingRequests := hb_AcceptingRequests hb;
                 card_Runtime := hb_Runtime hb; card_PermissionMode := hb_PermissionMode hb;
                 card_Capabilities := cleanUnique (hb_Capabilities hb) 20;
                 card_WorkspaceAliases := cleanUnique (hb_WorkspaceAliases hb) 20;
                 card_Online := true; card_LastSeen := t |} in
  let org := p_OrganizationID p in
  retrying 5 (redis_watch [revokedAgentsKey org]
    (revoked ← redis_sismember (revokedAgentsKey org) (p_AgentID p);
     refuse_if revoked ErrForbidden ≫= λ _,
     tx_pipelined [CSet (agentKey org (p_AgentID p)) (marshal card) agentTTL;
                   CSAdd (agentsKey org) (p_AgentID p)])) ≫= λ _,
  mret card.

(** One iteration of the directory loop: [None] is [continue]. *)
Definition list_agents_item (p : Principal) (query : AgentQuery) (revoked : list string)
    (id : string) : CM (option AgentCard) :=
  let org := p_OrganizationID p in
  if bool_decide (id ∈ revoked) then
    ignore (redis_write (CSRem (agentsKey org) id)) ≫= λ _,
    ignore (redis_write (CDel (agentKey org id))) ≫= λ _, mret None
  else
  payload ← redis_get (agentKey org id);
  match payload with
  | None => ignore (redis_write (CSRem (agentsKey org) id)) ≫= λ _, mret None
  | Some d =>
    match unmarshal d with
    | None => mret None
    | Some card0 =>
      if negb (bool_decide (card_AgentID card0 = id)) then mret None else
      if bool_decide (card_MemberID card0 = p_MemberID p) then mret None else
      let card := {| card_AgentID := card_AgentID card0; card_MemberID := card_MemberID card0;
                     card_DisplayName := card_DisplayName card0;
                     card_DeviceName := card_DeviceName card0;
                     card_Availability := card_Availability card0;
                     card_AcceptingRequests := card_AcceptingRequests card0;
                     card_Runtime := card_Runtime card0;
                     card_PermissionMode := card_PermissionMode card0;
                     card_Capabilities := card_Capabilities card0;
                     card_WorkspaceAliases := card_WorkspaceAliases card0;
                     card_Online := true; card_LastSeen := card_LastSeen card0 |} in
      if q_AcceptingOnly query && negb (card_AcceptingRequests card) then mret None else
      if negb (matchesAgent card query) then mret None else mret (Some card)
    end
  end.

Definition ListAgents (p : Principal) (query : AgentQuery) : CM AgentDirectoryResponse :=
  checked (requireDevice p) ≫= λ _,
  let org := p_OrganizationID p in
  ids ← redis_smembers (agentsKey org);
  observed ← now;
  revoked ← redis_smembers (revokedAgentsKey org);
  agents ← collectM (list_agents_item p query revoked) ids;
  let sorted := merge_sort card_le agents in
  mret (mkAgentDirectoryResponse
    (if (0 <? q_Limit query) && (q_Limit query <? Z.of_nat (length sorted))
     then take (Z.to_nat (q_Limit query)) sorted else sorted) observed).

(** ** Transitions of a stored request *)

(** The pipeline of a lifecycle change. *)
Definition transition_commands (key : string) (touched : storedRequest) : list cmd :=
  CSet key (marshal touched) requestRetention ::
    (if bool_decide (sr_IdempotencyRedisKey touched = "") then []
     else [CExpire (sr_IdempotencyRedisKey touched) requestRetention]).

(** The body of the [WATCH] of [transitionStoredWatching].  [update] mutates
    the decoded record; its second component is the variable the caller's
    closure captures.  Go compares the JSON texts before and after. *)
Definition transition_body {X} (org requestID key : string)
    (update : storedRequest → CM (storedRequest * X)) : CM (Request * X) :=
  stored ← readStoredRequest org requestID;
  '(stored', x) ← update stored;
  if bool_decide (stored' = stored) then mret (sr_Request stored', x) else
  t ← now;
  let touched := sr_touch t stored' in
  tx_pipelined (transition_commands key touched) ≫= λ _,
  mret (sr_Request touched, x).

Definition transitionStoredWatching {X} (p : Principal) (requestID : string)
    (additional : list string) (update : storedRequest → CM (storedRequest * X))
    : CM (MutationResponse * X) :=
  checked (requireDevice p) ≫= λ _,
  let key := requestKey (p_OrganizationID p) (trim_space requestID) in
  '(updated, x) ← retrying 5 (redis_watch (key :: additional)
     (transition_body (p_OrganizationID p) requestID key update));
  mret (mutation updated, x).

(** [transitionStored] and [transition], whose updates do not read Redis. *)
Definition transitionStored {X} (p : Principal) (requestID : string)
    (update : storedRequest → CM (storedRequest * X)) : CM (MutationResponse * X) :=
  transitionStoredWatching p requestID [] update.
Definition transition {X} (p : Principal) (requestID : string)
    (update : Request → CM (Request * X)) : CM (MutationResponse * X) :=
  transitionStored p requestID (λ stored,
    '(r, x) ← update (sr_Request stored); mret (sr_set_request r stored, x)).

(** ** Creation *)

(** The loop of [prepareArtifacts]. *)
Fixpoint prepare_loop (requestID requester target direction : string) (seen : gset string)
    (total : Z) (inputs : list AttachmentInput) : CM (list (ArtifactDescriptor * storedArtifact)) :=
  match inputs with
  | [] => mret []
  | i :: inputs' =>
    refuse_if (negb (validArtifactName (ai_Name i)) || negb (validMIMEType (ai_MIMEType i)) ||
               negb (bool_decide (ai_Encoding i = "base64")) || (ai_SizeBytes i <? 0) ||
               (MaxAttachmentBytes <? ai_SizeBytes i)) ErrInvalid ≫= λ _,
    let key := to_lower (ai_Name i) in
    refuse_if (bool_decide (key ∈ seen)) ErrInvalid ≫= λ _,
    match b64_decode (ai_ContentBase64 i) with
    | None => reject! ErrInvalid
    | Some decoded =>
      refuse_if (negb (bool_decide (len decoded = ai_SizeBytes i))) ErrInvalid ≫= λ _,
      let total := total + ai_SizeBytes i in
      refuse_if (MaxRequestPayloadBytes <? total) ErrInvalid ≫= λ _,
      let computed := sha256_hex decoded in
      refuse_if (negb (equal_fold computed (ai_SHA256 i))) ErrInvalid ≫= λ _,
      artifactID ← randomID "art_";
      let descriptor := mkArtifactDescriptor artifactID (ai_Name i) (ai_MIMEType i)
                          (ai_SizeBytes i) computed in
      let artifact := mkStoredArtifact descriptor "base64" (ai_ContentBase64 i)
                        requestID requester target direction in
      rest ← prepare_loop requestID requester target direction ({[key]} ∪ seen) total inputs';
      mret ((descriptor, artifact) :: rest)
    end
  end.
Definition prepareArtifacts (inputs : list AttachmentInput)
    (requestID requester target direction : string)
    : CM (list (ArtifactDescriptor * storedArtifact)) :=
  prepare_loop requestID requester target direction ∅ 0 inputs.

(** The idempotency record of an earlier creation, checked against the digest. *)
Definition existing_request (org digest : string) (raw : doc) : CM Request :=
  match unmarshal raw with
  | None => reject! ErrConflict
  | Some existing =>
    refuse_if (negb (bool_decide (id_Digest existing = digest))) ErrConflict ≫= λ _,
    previous ← readStoredRequest org (id_RequestID existing);
    mret (sr_Request previous)
  end.

(** The conversation of a request: a fresh one, or the caller's own. *)
Definition create_conversation (p : Principal) (input : CreateRequest) : CM conversation :=
  if bool_decide (trim_space (cr_ConversationID input) = "") then
    id ← randomID "conv_";
    mret (mkConversation id (p_OrganizationID p) (p_AgentID p) (trim_space (cr_TargetAgentID input)))
  else
    conv ← readConversation (p_OrganizationID p) (trim_space (cr_ConversationID input));
    refuse_if (negb (bool_decide (cv_RequesterAgentID conv = p_AgentID p))) ErrForbidden ≫= λ _,
    refuse_if (negb (bool_decide (cr_TargetAgentID input = "")) &&
               negb (bool_decide (trim_space (cr_TargetAgentID input) = cv_TargetAgentID conv)))
      ErrInvalid ≫= λ _,
    mret conv.

(** The transaction of a creation: [Some previous] when another creation with
    the same key committed first. *)
Definition create_body (org idemKey digest : string) (cmds : list cmd) : CM (option Request) :=
  raw ← redis_get idemKey;
  match raw with
  | Some d => previous ← existing_request org digest d; mret (Some previous)
  | None => tx_pipelined cmds ≫= λ _, mret None
  end.

Definition create_commands (org idemKey : string) (stored : storedRequest) (conv : conversation)
    (newConversation : bool) (idem : idempotencyRecord) (artifacts : list storedArtifact) : list cmd :=
  let requestID := rq_RequestID (sr_Request stored) in
  [CSet (requestKey org requestID) (marshal stored) requestRetention;
   CSet idemKey (marshal idem) requestRetention;
   CSAdd (inboxKey org (cv_TargetAgentID conv)) requestID;
   CExpire (inboxKey org (cv_TargetAgentID conv)) requestRetention]
  ++ (if newConversation then [CSet (conversationKey org (cv_ID conv)) (marshal conv) conversationTTL] else [])
  ++ ((λ a, CSet (artifactKey org (ad_ArtifactID (sa_Descriptor a))) (marshal a) requestRetention)
        <$> artifacts).

Definition new_request (p : Principal) (input : CreateRequest) (requestID : string)
    (conv : conversation) (requester : AgentCard) (descriptors : list ArtifactDescriptor)
    (t : time) : Request :=
  {| rq_APIVersion := APIVersion; rq_RequestID := requestID; rq_ConversationID := cv_ID conv;
     rq_RequesterAgentID := p_AgentID p; rq_RequesterMemberID := p_MemberID p;
     rq_RequesterDisplayName := card_DisplayName requester;
     rq_TargetAgentID := cv_TargetAgentID conv; rq_Title := trim_space (cr_Title input);
     rq_Prompt := ""; rq_PromptPreview := preview (cr_Prompt input) 240;
     rq_PromptBytes := len (cr_Prompt input); rq_PromptSHA256 := sha256_hex (cr_Prompt input);
     rq_RequestedAccess := cr_RequestedAccess input; rq_Attachments := descriptors;
     rq_ResultFiles := []; rq_Status := StatusAwaitingApproval; rq_Answer := ""; rq_Error := "";
     rq_CreatedAt := t; rq_UpdatedAt := t;
     rq_ExpiresAt := t + cr_ExpiresInSeconds input * second; rq_Version := 1 |}.

(** [CreateRequest]: the response, the notice to publish and whether the
    request was created by this call. *)
Definition CreateRequest_ (p : Principal) (input : CreateRequest)
    : CM (MutationResponse * RequestNotice * bool) :=
  checked (requireDevice p) ≫= λ _,
  checked (validateCreate input) ≫= λ _,
  let digest := requestDigest input in
  let org := p_OrganizationID p in
  let idemKey := idempotencyKey org (p_AgentID p) (cr_IdempotencyKey input) in
  raw ← redis_get idemKey;
  match raw with
  | Some d =>
    previous ← existing_request org digest d;
    mret (mutation previous, notice previous, false)
  | None =>
    conv ← create_conversation p input;
    refuse_if (bool_decide (cv_TargetAgentID conv = p_AgentID p)) ErrInvalid ≫= λ _,
    target ← readAgent org (cv_TargetAgentID conv);
    refuse_if (bool_decide (card_MemberID target = p_MemberID p)) ErrInvalid ≫= λ _,
    refuse_if (negb (card_AcceptingRequests target)) ErrConflict ≫= λ _,
    requester ← readAgent org (p_AgentID p);
    t ← now;
    requestID ← randomID "req_";
    prepared ← prepareArtifacts (cr_Attachments input) requestID (p_AgentID p)
                 (cv_TargetAgentID conv) "input";
    let request := new_request p input requestID conv requester prepared.*1 t in
    let stored := mkStoredRequest request (cr_Prompt input) idemKey "" DecisionNone "" "" in
    let cmds := create_commands org idemKey stored conv
                  (bool_decide (trim_space (cr_ConversationID input) = ""))
                  (mkIdempotencyRecord requestID digest) prepared.*2 in
    outcome ← retrying 5 (redis_watch [idemKey] (create_body org idemKey digest cmds));
    match outcome with
    | Some previous => mret (mutation previous, notice previous, false)
    | None => mret (mutation request, notice request, true)
    end
  end.

Definition GetRequest (p : Principal) (requestID : string) : CM Request :=
  checked (requireDevice p) ≫= λ _,
  stored ← readStoredRequest (p_OrganizationID p) requestID;
  refuse_if (negb (bool_decide (p_AgentID p = rq_RequesterAgentID (sr_Request stored))) &&
             negb (bool_decide (p_AgentID p = rq_TargetAgentID (sr_Request stored)))) ErrForbidden ≫= λ _,
  mret (rq_clear_prompt (sr_Request stored)).

(** ** Inbox and expiry *)

(** The closure of [expireAwaiting]; it reads the clock inside the [WATCH]. *)
Definition expire_update (p : Principal) (r : Request) : CM (Request * ()) :=
  refuse_if (negb (bool_decide (rq_TargetAgentID r = p_AgentID p))) ErrForbidden ≫= λ _,
  if negb (bool_decide (rq_Status r = StatusAwaitingApproval)) then reject! errNotAwaitingExpiry else
  t ← now;
  if t <? rq_ExpiresAt r then reject! errNotAwaitingExpiry
  else mret (rq_set_status StatusExpired r, ()).
Definition expireAwaiting (p : Principal) (requestID : string) : CM bool :=
  r ← attempt (transition p requestID (expire_update p));
  match r with
  | inl (Sentinel errNotAwaitingExpiry) => mret false
  | inl e => throw e
  | inr _ => mret true
  end.

Definition inbox_forget (p : Principal) (id : string) : CM () :=
  ignore (redis_write (CSRem (inboxKey (p_OrganizationID p) (p_AgentID p)) id)).

(** A read whose [ErrNotFound] is not an error of the caller. *)
Definition found {A} (m : CM A) : CM (option A) :=
  r ← attempt m;
  match r with
  | inl (Sentinel ErrNotFound) => mret None
  | inl e => throw e
  | inr a => mret (Some a)
  end.

(** One iteration of the loop of [Inbox]. *)
Definition inbox_item (p : Principal) (id : string) : CM (option RequestNotice) :=
  let org := p_OrganizationID p in
  first ← found (readStoredRequest org id);
  match first with
  | None => inbox_forget p id ≫= λ _, mret None
  | Some stored =>
    if Terminal (rq_Status (sr_Request stored)) then inbox_forget p id ≫= λ _, mret None else
    if negb (bool_decide (rq_Status (sr_Request stored) = StatusAwaitingApproval))
    then mret (Some (notice (sr_Request stored))) else
    t ← now;
    if t <? rq_ExpiresAt (sr_Request stored) then mret (Some (notice (sr_Request stored))) else
    expired ← expireAwaiting p id;
    if (expired : bool) then inbox_forget p id ≫= λ _, mret None else
    second ← found (readStoredRequest org id);
    match second with
    | None => inbox_forget p id ≫= λ _, mret None
    | Some stored =>
      if Terminal (rq_Status (sr_Request stored)) then inbox_forget p id ≫= λ _, mret None
      else mret (Some (notice (sr_Request stored)))
    end
  end.

Definition Inbox (p : Principal) : CM (list RequestNotice) :=
  checked (requireDevice p) ≫= λ _,
  let org := p_OrganizationID p in
  revoked ← redis_sismember (revokedAgentsKey org) (p_AgentID p);
  refuse_if revoked ErrForbidden ≫= λ _,
  ids ← redis_smembers (inboxKey org (p_AgentID p));
  result ← collectM (inbox_item p) ids;
  mret (merge_sort notice_le result).

(** ** Decision, execution claim, result, cancellation *)

(** The closure of [Decide]. *)
Definition decide_update (p : Principal) (input : DecisionPayload) (s : storedRequest)
    : CM (storedRequest * ()) :=
  let r := sr_Request s in
  refuse_if (negb (bool_decide (rq_TargetAgentID r = p_AgentID p))) ErrForbidden ≫= λ _,
  if negb (bool_decide (sr_DecisionID s = "")) then
    refuse_if (negb (opaqueIDMatches (sr_DecisionID s) (dp_DecisionID input)) ||
               negb (bool_decide (sr_Decision s = dp_Decision input))) ErrConflict ≫= λ _,
    mret (s, ())
  else
  refuse_if (negb (bool_decide (rq_Status r = StatusAwaitingApproval))) ErrConflict ≫= λ _,
  t ← now;
  if negb (t <? rq_ExpiresAt r) then
    mret (sr_set_decision (dp_DecisionID input) (dp_Decision input) StatusExpired s, ())
  else
  let finish := mret (sr_set_decision (dp_DecisionID input) (dp_Decision input)
    (if bool_decide (dp_Decision input = DecisionDeny) then StatusRejected else StatusAccepted) s, ()) in
  if bool_decide (dp_Decision input = DecisionAllowOnce) then
    revoked ← redis_sismember (revokedAgentsKey (p_OrganizationID p)) (rq_RequesterAgentID r);
    if (revoked : bool)
    then mret (sr_set_decision (dp_DecisionID input) (dp_Decision input) StatusCancelled s, ())
    else finish
  else finish.

Definition Decide (p : Principal) (requestID : string) (input : DecisionPayload) : CM MutationResponse :=
  refuse_if (negb (bool_decide (dp_Decision input = DecisionAllowOnce)) &&
             negb (bool_decide (dp_Decision input = DecisionDeny))) ErrInvalid ≫= λ _,
  refuse_if (negb (validDecisionID (dp_DecisionID input))) ErrInvalid ≫= λ _,
  '(response, _) ← transitionStoredWatching p requestID
     [revokedAgentsKey (p_OrganizationID p)] (decide_update p input);
  mret response.

Definition FetchExecution (p : Principal) (requestID : string) : CM ExecutionPayload :=
  checked (requireDevice p) ≫= λ _,
  stored ← readStoredRequest (p_OrganizationID p) requestID;
  let r := sr_Request stored in
  refuse_if (negb (bool_decide (rq_TargetAgentID r = p_AgentID p))) ErrForbidden ≫= λ _,
  refuse_if (negb (bool_decide (rq_Status r = StatusAccepted)) &&
             negb (bool_decide (rq_Status r = StatusRunning))) ErrConflict ≫= λ _,
  mret (execution_of stored).

Definition InspectProposal (p : Principal) (requestID : string) : CM ProposalPayload :=
  checked (requireDevice p) ≫= λ _,
  stored ← readStoredRequest (p_OrganizationID p) requestID;
  let r := sr_Request stored in
  refuse_if (negb (bool_decide (rq_TargetAgentID r = p_AgentID p))) ErrForbidden ≫= λ _,
  refuse_if (negb (bool_decide (rq_Status r = StatusAwaitingApproval))) ErrConflict ≫= λ _,
  t ← now;
  refuse_if (negb (t <? rq_ExpiresAt r)) ErrConflict ≫= λ _,
  mret (proposal_of stored).

(** The closure of [MarkRunning]. *)
Definition claim_update (p : Principal) (claim : string) (s : storedRequest) : CM (storedRequest * ()) :=
  refuse_if (negb (bool_decide (rq_TargetAgentID (sr_Request s) = p_AgentID p))) ErrForbidden ≫= λ _,
  match rq_Status (sr_Request s) with
  | StatusAccepted => mret (sr_set_claim claim s, ())
  | StatusRunning =>
    if executionClaimMatches (sr_ExecutionClaimID s) claim then mret (s, ()) else reject! ErrConflict
  | _ => reject! ErrConflict
  end.
Definition MarkRunning (p : Principal) (requestID claim : string) : CM MutationResponse :=
  refuse_if (negb (validExecutionClaimID claim)) ErrInvalid ≫= λ _,
  '(response, _) ← transitionStored p requestID (claim_update p claim);
  mret response.

(** The checks of [SubmitResult] before anything is read. *)
Definition validate_result (result : ResultPayload) : cerr + () :=
  if negb (bool_decide (rp_State result = StatusCompleted)) &&
     negb (bool_decide (rp_State result = StatusFailed)) &&
     negb (bool_decide (rp_State result = StatusCancelled)) then inl ErrInvalid else
  if negb (validExecutionClaimID (rp_ExecutionClaimID result)) then inl ErrInvalid else
  if (maximumAnswerBytes <? len (rp_Answer result)) || (maximumErrorBytes <? len (rp_Error result)) ||
     (MaxAttachments <? Z.of_nat (length (rp_ResultFiles result))) then inl ErrInvalid else
  match rp_State result with
  | StatusCompleted => if negb (bool_decide (rp_Error result = "")) then inl ErrInvalid else inr ()
  | StatusFailed | StatusCancelled =>
    if negb (bool_decide (rp_Answer result = "")) || (0 <? Z.of_nat (length (rp_ResultFiles result)))
    then inl ErrInvalid else inr ()
  | _ => inr ()
  end.

(** The closure of the final transition of [SubmitResult]. *)
Definition result_update (p : Principal) (result : ResultPayload) (digest : string)
    (descriptors : list ArtifactDescriptor) (s : storedRequest) : CM (storedRequest * ()) :=
  refuse_if (negb (bool_decide (rq_TargetAgentID (sr_Request s) = p_AgentID p))) ErrForbidden ≫= λ _,
  if Terminal (rq_Status (sr_Request s)) then
    if exactResultReplay s result digest then mret (s, ()) else reject! ErrConflict
  else
  refuse_if (negb (bool_decide (rq_Status (sr_Request s) = StatusRunning)) ||
             negb (executionClaimMatches (sr_ExecutionClaimID s) (rp_ExecutionClaimID result)))
    ErrConflict ≫= λ _,
  mret (sr_set_result result descriptors digest s, ()).

Definition SubmitResult (p : Principal) (requestID : string) (result : ResultPayload)
    : CM MutationResponse :=
  checked (requireDevice p) ≫= λ _,
  checked (validate_result result) ≫= λ _,
  let digest := digestResult result in
  let org := p_OrganizationID p in
  current ← readStoredRequest org requestID;
  let r := sr_Request current in
  refuse_if (negb (bool_decide (rq_TargetAgentID r = p_AgentID p))) ErrForbidden ≫= λ _,
  if Terminal (rq_Status r) then
    if exactResultReplay current result digest then mret (mutation r) else reject! ErrConflict
  else
  refuse_if (negb (bool_decide (rq_Status r = StatusRunning)) ||
             negb (executionClaimMatches (sr_ExecutionClaimID current) (rp_ExecutionClaimID result)))
    ErrConflict ≫= λ _,
  prepared ← prepareArtifacts (rp_ResultFiles result) requestID (rq_RequesterAgentID r)
               (rq_TargetAgentID r) "result";
  mapM_ (λ a, redis_write (CSet (artifactKey org (ad_ArtifactID (sa_Descriptor a))) (marshal a)
                             requestRetention)) prepared.*2 ≫= λ _,
  '(response, _) ← transitionStored p requestID (result_update p result digest prepared.*1);
  ignore (redis_write (CSRem (inboxKey org (p_AgentID p)) requestID)) ≫= λ _,
  mret response.

(** The closure of [Cancel]; the second component is [changed]. *)
Definition cancel_update (p : Principal) (r : Request) : CM (Request * bool) :=
  refuse_if (negb (bool_decide (rq_RequesterAgentID r = p_AgentID p))) ErrForbidden ≫= λ _,
  if bool_decide (rq_Status r = StatusCancelled) then mret (r, false) else
  if Terminal (rq_Status r) then reject! ErrConflict else
  mret (rq_set_status StatusCancelled r, true).
Definition Cancel (p : Principal) (requestID : string) : CM (MutationResponse * bool) :=
  transition p requestID (cancel_update p).

Definition FetchArtifact (p : Principal) (artifactID : string) : CM ArtifactContent :=
  checked (requireDevice p) ≫= λ _,
  let org := p_OrganizationID p in
  raw ← redis_get (artifactKey org (trim_space artifactID));
  match raw ≫= unmarshal with
  | None => reject! ErrNotFound
  | Some a =>
    stored ← readStoredRequest org (sa_RequestID a);
    let r := sr_Request stored in
    let id := ad_ArtifactID (sa_Descriptor a) in
    let content := mkArtifactContent (sa_Descriptor a) (sa_Encoding a) (sa_ContentBase64 a) in
    if bool_decide (sa_Direction a = "input") then
      refuse_if (negb (bool_decide (p_AgentID p = sa_TargetAgentID a)) ||
                 negb (bool_decide (rq_TargetAgentID r = p_AgentID p))) ErrForbidden ≫= λ _,
      refuse_if ((negb (bool_decide (rq_Status r = StatusAccepted)) &&
                  negb (bool_decide (rq_Status r = StatusRunning))) ||
                 negb (containsArtifact (rq_Attachments r) id)) ErrConflict ≫= λ _,
      mret content
    else if bool_decide (sa_Direction a = "result") then
      refuse_if (negb (bool_decide (p_AgentID p = sa_RequesterAgentID a)) ||
                 negb (bool_decide (rq_RequesterAgentID r = p_AgentID p))) ErrForbidden ≫= λ _,
      refuse_if (negb (bool_decide (rq_Status r = StatusCompleted)) ||
                 negb (containsArtifact (rq_ResultFiles r) id)) ErrConflict ≫= λ _,
      mret content
    else reject! ErrNotFound
  end.

(** ** Presence eviction ([eviction.go]) *)

Definition evictPresence (org : string) (agentIDs : list string) : CM () :=
  tx_pipelined (concat ((λ id, [CSAdd (revokedAgentsKey org) id; CSRem (agentsKey org) id;
                                CDel (agentKey org id)]) <$> agentIDs)).
End operations.

(** [cleanAgentIDs]: trimmed, distinct, sorted. *)
Definition cleanAgentIDs (values : list string) : list string :=
  sort_strings (elements (list_to_set (C := gset string)
    (List.filter (λ v, negb (bool_decide (v = ""))) (trim_space <$> values)))).
