(* ===== verification/CollabMachine.v ===== *)
(** * The lifecycle of a request, as an abstract machine

    What the relay promises about one request: a small state machine whose
    actions are the decision, the execution claim, the result, the expiry and
    the cancellation, each reserved to one of the two agents.  [CollabLifecycle]
    proves that the handlers of [CollabStore] implement it under interference;
    here are the machine and the facts that hold along every history of it. *)

From S2P Require Import Prelude GoString Sha256 Protocol Auth Records Json Redis CollabStore.
From Stdlib Require Import Ascii.
From stdpp Require Import relations.

Local Open Scope Z_scope.

Inductive action :=
  | ActDecide (id : string) (d : Decision_) (at_ : time) (requester_revoked : bool)
  | ActClaim (claim : string)
  | ActResult (result : ResultPayload) (files : list ArtifactDescriptor)
  | ActExpire (at_ : time)
  | ActCancel.

(** The status a first decision leads to. *)
Definition decision_status (d : Decision_) (at_ : time) (expires : time) (revoked : bool) : RequestStatus :=
  if negb (at_ <? expires) then StatusExpired else
  if bool_decide (d = DecisionAllowOnce) && revoked then StatusCancelled else
  if bool_decide (d = DecisionDeny) then StatusRejected else StatusAccepted.

Definition decision_ok (id : string) (d : Decision_) : bool :=
  (bool_decide (d = DecisionAllowOnce) || bool_decide (d = DecisionDeny)) && validDecisionID id.

(** [apply_action agent a s]: the record after [agent] performs [a]; [None]
    when the action is not allowed. *)
Definition apply_action (agent : string) (a : action) (s : storedRequest) : option storedRequest :=
  let r := sr_Request s in
  match a with
  | ActDecide id d t revoked =>
    if bool_decide (rq_TargetAgentID r = agent) && decision_ok id d && bool_decide (sr_DecisionID s = "") &&
       bool_decide (rq_Status r = StatusAwaitingApproval)
    then Some (sr_set_decision id d (decision_status d t (rq_ExpiresAt r) revoked) s) else None
  | ActClaim claim =>
    if bool_decide (rq_TargetAgentID r = agent) && validExecutionClaimID claim &&
       bool_decide (rq_Status r = StatusAccepted)
    then Some (sr_set_claim claim s) else None
  | ActResult result files =>
    if bool_decide (rq_TargetAgentID r = agent) && is_ok (validate_result result) &&
       bool_decide (rq_Status r = StatusRunning) &&
       executionClaimMatches (sr_ExecutionClaimID s) (rp_ExecutionClaimID result) &&
       bool_decide (length files = length (rp_ResultFiles result))
    then Some (sr_set_result result files (digestResult result) s) else None
  | ActExpire t =>
    if bool_decide (rq_TargetAgentID r = agent) && bool_decide (rq_Status r = StatusAwaitingApproval) &&
       negb (t <? rq_ExpiresAt r)
    then Some (sr_set_status StatusExpired s) else None
  | ActCancel =>
    if bool_decide (rq_RequesterAgentID r = agent) && negb (Terminal (rq_Status r))
    then Some (sr_set_status StatusCancelled s) else None
  end.

(** A committed action also bumps the version and the update time. *)
Definition req_step (s s' : storedRequest) : Prop :=
  ∃ agent a s1 t, apply_action agent a s = Some s1 ∧ s' = sr_touch t s1.
Definition evolves : relation storedRequest := rtc req_step.

(** ** The well-formedness of a record at each status *)

Definition no_output (r : Request) : bool :=
  bool_decide (rq_Answer r = "") && bool_decide (rq_Error r = "") && bool_decide (rq_ResultFiles r = []).
Definition allowed_once (s : storedRequest) : bool :=
  validDecisionID (sr_DecisionID s) && bool_decide (sr_Decision s = DecisionAllowOnce).
Definition unclaimed (s : storedRequest) : bool :=
  bool_decide (sr_ExecutionClaimID s = "") && bool_decide (sr_ResultDigest s = "") && no_output (sr_Request s).

Definition sr_ok (s : storedRequest) : bool :=
  let r := sr_Request s in
  match rq_Status r with
  | StatusAwaitingApproval => bool_decide (sr_DecisionID s = "") && unclaimed s && (rq_Version r =? 1)
  | StatusAccepted => allowed_once s && unclaimed s && (rq_Version r =? 2)
  | StatusRunning => allowed_once s && validExecutionClaimID (sr_ExecutionClaimID s) &&
      bool_decide (sr_ResultDigest s = "") && no_output r && (rq_Version r =? 3)
  | StatusCompleted => allowed_once s && validExecutionClaimID (sr_ExecutionClaimID s) &&
      bool_decide (rq_Error r = "") && (rq_Version r =? 4)
  | StatusFailed => allowed_once s && validExecutionClaimID (sr_ExecutionClaimID s) &&
      bool_decide (rq_Answer r = "") && bool_decide (rq_ResultFiles r = []) && (rq_Version r =? 4)
  | StatusRejected => validDecisionID (sr_DecisionID s) && bool_decide (sr_Decision s = DecisionDeny) &&
      unclaimed s && (rq_Version r =? 2)
  | StatusExpired => unclaimed s && (rq_Version r =? 2)
  | StatusCancelled => bool_decide (rq_Answer r = "") && bool_decide (rq_ResultFiles r = []) &&
      (2 <=? rq_Version r) && (rq_Version r <=? 4)
  | _ => false
  end.

(** How far along its life a request is. *)
Definition rank (st : RequestStatus) : nat :=
  match st with
  | StatusAwaitingApproval => 0 | StatusAccepted => 1 | StatusRunning => 2
  | _ => if Terminal st then 3 else 0
  end%nat.

(** Everything but the status, the outputs and the bookkeeping is fixed at
    creation. *)
Definition frozen (s : storedRequest) : Request * string * string :=
  (rq_assign (sr_Request s) StatusPreparing "" "" [] 0 0, sr_Prompt s, sr_IdempotencyRedisKey s).

(** ** Facts about single actions *)

Ltac act_inv :=
  match goal with
  | H : apply_action _ ?a _ = Some _ |- _ =>
      try (is_var a; destruct a); cbv beta iota zeta delta [apply_action] in H;
      (match type of H with (if ?b then _ else _) = _ => destruct b eqn:? end; [|discriminate H]);
      orb_split; injection H as <-
  end.

Lemma apply_frozen agent a s s' t : apply_action agent a s = Some s' → frozen (sr_touch t s') = frozen s.
Proof. intros Ha. act_inv; done. Qed.

Lemma step_frozen s s' : req_step s s' → frozen s' = frozen s.
Proof. intros (? & ? & ? & ? & Ha & ->). by eapply apply_frozen. Qed.

Lemma terminal_spec st : Terminal st = true ↔
  st = StatusCompleted ∨ st = StatusRejected ∨ st = StatusExpired ∨ st = StatusCancelled ∨ st = StatusFailed.
Proof. split; [destruct st; simpl; auto 6; discriminate|by intros Hst; repeat destruct Hst as [-> | Hst]; subst]. Qed.

Lemma result_state_terminal result :
  is_ok (validate_result result) = true → Terminal (rp_State result) = true.
Proof. unfold validate_result. by destruct (rp_State result). Qed.

Lemma decision_status_rank d t e b : (1 ≤ rank (decision_status d t e b))%nat.
Proof. unfold decision_status. repeat case_match; simpl; lia. Qed.

Lemma rank_terminal st : Terminal st = true → rank st = 3%nat.
Proof. by destruct st. Qed.
Lemma rank_lt_terminal st : Terminal st = false → (rank st < 3)%nat.
Proof. destruct st; simpl; intros; (done || lia). Qed.

Lemma step_rank s s' :
  req_step s s' → (rank (rq_Status (sr_Request s)) < rank (rq_Status (sr_Request s')))%nat.
Proof.
  intros (agent & a & s1 & t & Ha & ->). act_inv; simpl;
    try match goal with H : rq_Status _ = _ |- _ => rewrite H end; simpl.
  - pose proof (decision_status_rank d at_ (rq_ExpiresAt (sr_Request s)) requester_revoked). lia.
  - lia.
  - rewrite (rank_terminal (rp_State result)) by (by apply result_state_terminal). lia.
  - lia.
  - by apply rank_lt_terminal.
Qed.

Lemma terminal_stuck s s' : Terminal (rq_Status (sr_Request s)) = true → ¬ req_step s s'.
Proof.
  intros Ht Hs%step_rank. rewrite (rank_terminal _ Ht) in Hs.
  assert (∀ st, rank st ≤ 3)%nat as Hle by (intros []; simpl; lia). specialize (Hle (rq_Status (sr_Request s'))). lia.
Qed.

(** ** Facts along histories *)

Lemma evolves_frozen s s' : evolves s s' → frozen s' = frozen s.
Proof. induction 1 as [|s s1 s2 Hs _ IH]; [done|]. rewrite IH. by apply step_frozen. Qed.

Lemma evolves_terminal s s' : evolves s s' → Terminal (rq_Status (sr_Request s)) = true → s' = s.
Proof.
  intros He Ht. induction He as [|s s1 s2 Hs _ _]; [done|]. exfalso. by eapply terminal_stuck.
Qed.

Lemma claim_matches_eq stored presented :
  executionClaimMatches stored presented = true ↔ stored = presented ∧ stored ≠ "".
Proof.
  unfold executionClaimMatches, opaqueIDMatches. case_match eqn:Hc.
  - split; [done|]. intros [-> Hne]. apply orb_true_iff in Hc as [Hc|Hc].
    + apply negb_true_iff, bool_decide_eq_false in Hc. done.
    + apply bool_decide_eq_true in Hc. done.
  - apply orb_false_iff in Hc as [_ Hc]. apply bool_decide_eq_false in Hc.
    rewrite bool_decide_eq_true. naive_solver.
Qed.

Lemma valid_opaque_nonempty v p : validOpaqueID v p = true → v ≠ "".
Proof.
  intros Hv ->. unfold validOpaqueID in Hv. orb_split. unfold len in *. simpl in *. lia.
Qed.

(** Once set, the decision and the claim stay. *)
Lemma step_decision s s' :
  req_step s s' → sr_DecisionID s ≠ "" → sr_DecisionID s' = sr_DecisionID s ∧ sr_Decision s' = sr_Decision s.
Proof. intros (? & ? & ? & ? & Ha & ->) Hne. by act_inv. Qed.

Lemma evolves_decision s s' :
  evolves s s' → sr_DecisionID s ≠ "" → sr_DecisionID s' = sr_DecisionID s ∧ sr_Decision s' = sr_Decision s.
Proof.
  induction 1 as [|s s1 s2 Hs _ IH]; [done|]. intros Hne.
  destruct (step_decision _ _ Hs Hne) as [H1 H2]. rewrite <- H1, <- H2. apply IH. by rewrite H1.
Qed.

(** The claim changes only by the claim action, from [StatusAccepted]. *)
Lemma step_claim s s' :
  req_step s s' → rq_Status (sr_Request s) ≠ StatusAccepted → sr_ExecutionClaimID s' = sr_ExecutionClaimID s.
Proof. intros (? & ? & ? & ? & Ha & ->) Hne. by act_inv. Qed.

Lemma step_status_accepted s s' :
  req_step s s' → rq_Status (sr_Request s') = StatusAccepted → rq_Status (sr_Request s) = StatusAwaitingApproval.
Proof.
  intros (? & ? & ? & ? & Ha & ->) Hst. act_inv; simpl in *; try done.
  match goal with H : is_ok (validate_result _) = _ |- _ => apply result_state_terminal in H end.
  by rewrite Hst in *.
Qed.

Lemma evolves_claim s s' :
  evolves s s' → (2 ≤ rank (rq_Status (sr_Request s)))%nat → sr_ExecutionClaimID s' = sr_ExecutionClaimID s.
Proof.
  induction 1 as [|s s1 s2 Hs _ IH]; [done|]. intros Hr. rewrite IH.
  - apply step_claim; [done|]. intros He. rewrite He in Hr. simpl in Hr. lia.
  - apply step_rank in Hs. lia.
Qed.

(** ** The invariant *)

Lemma validate_result_shape result :
  is_ok (validate_result result) = true →
  (rp_State result = StatusCompleted ∧ rp_Error result = "") ∨
  ((rp_State result = StatusFailed ∨ rp_State result = StatusCancelled) ∧
   rp_Answer result = "" ∧ rp_ResultFiles result = []).
Proof.
  unfold validate_result. intros Hv. destruct (rp_State result); simpl in Hv; try done;
    repeat case_match; simpl in *; try done; orb_split; [by left|right..];
    (split; [by auto|]); (split; [done|]); destruct (rp_ResultFiles result); done.
Qed.

(** Computes [sr_ok] at a known status on both sides. *)
Ltac ok_tac :=
  unfold sr_ok, allowed_once, unclaimed, no_output, decision_ok in *; simpl in *;
  repeat match goal with
    | H : rq_Status (sr_Request ?s) = _, K : context [rq_Status (sr_Request ?s)] |- _ =>
        lazymatch K with H => fail | _ => rewrite H in K end
    end; simpl in *; orb_split;
  repeat match goal with H : (_ =? _) = true |- _ => apply Z.eqb_eq in H end;
  rewrite ?andb_true_iff, ?bool_decide_eq_true, ?Z.eqb_eq, ?Z.leb_le;
  repeat match goal with H : rq_Version _ = _ |- _ => rewrite H end;
  repeat match goal with |- _ ∧ _ => split end; try done.

Lemma sr_ok_result result files digest s t :
  is_ok (validate_result result) = true → sr_ok s = true → rq_Status (sr_Request s) = StatusRunning →
  length files = length (rp_ResultFiles result) → sr_ok (sr_touch t (sr_set_result result files digest s)) = true.
Proof.
  intros Hv%validate_result_shape Hok Hst Hlen.
  destruct Hv as [[Hstate Herr]|[[Hstate|Hstate] [Hans Hfiles]]]; unfold sr_ok at 1; simpl; rewrite Hstate.
  - ok_tac.
  - rewrite Hfiles in Hlen. apply length_zero_iff_nil in Hlen as ->. ok_tac.
  - rewrite Hfiles in Hlen. apply length_zero_iff_nil in Hlen as ->. ok_tac; done.
Qed.

Lemma sr_ok_cancelled agent s s' t :
  apply_action agent ActCancel s = Some s' → sr_ok s = true → sr_ok (sr_touch t s') = true.
Proof.
  intros Ha Hok. act_inv. destruct (rq_Status (sr_Request s)) eqn:Hst; try done; ok_tac.
Qed.

Lemma step_ok s s' : req_step s s' → sr_ok s = true → sr_ok s' = true.
Proof.
  intros (agent & a & s1 & t & Ha & ->) Hok. destruct a.
  - act_inv. unfold decision_status. repeat case_match; ok_tac. by destruct d.
  - act_inv. ok_tac.
  - act_inv. by apply sr_ok_result.
  - act_inv. ok_tac.
  - by eapply sr_ok_cancelled.
Qed.

Lemma evolves_ok s s' : evolves s s' → sr_ok s = true → sr_ok s' = true.
Proof. induction 1 as [|s s1 s2 Hs _ IH]; [done|]. intros Hok. eapply IH, step_ok; eauto. Qed.

Lemma sr_ok_version s : sr_ok s = true → rq_Version (sr_Request s) <= 4.
Proof.
  unfold sr_ok. destruct (rq_Status (sr_Request s)); intros Hok; try discriminate Hok; orb_split;
    try match goal with H : (_ =? _) = true |- _ => apply Z.eqb_eq in H end;
    try match goal with H : (_ <=? 4) = true |- _ => apply Z.leb_le in H end; lia.
Qed.

(** Every history of a request has at most three changes. *)
Lemma history_bounded n s s' : nsteps req_step n s s' → (n + rank (rq_Status (sr_Request s)) ≤ 3)%nat.
Proof.
  induction 1 as [s|n s s1 s2 Hs _ IH].
  - destruct (rq_Status (sr_Request s)); simpl; lia.
  - apply step_rank in Hs. lia.
Qed.

(** ** Keys *)

Local Open Scope Z_scope.

Lemma append_cons c (a b : string) : String.String c a +:+ b = String.String c (a +:+ b).
Proof. done. Qed.
Lemma append_nil_l (a : string) : "" +:+ a = a.
Proof. done. Qed.

Lemma append_inj_l (p a b : string) : p +:+ a = p +:+ b → a = b.
Proof. induction p as [|c p IH]; [done|]. rewrite !append_cons. intros [= ?]. auto. Qed.

Lemma append_assoc (a b c : string) : (a +:+ b) +:+ c = a +:+ (b +:+ c).
Proof. induction a as [|x a IH]; [done|]. by rewrite !append_cons, IH. Qed.

Lemma append_nil_r (a : string) : a +:+ "" = a.
Proof. induction a as [|x a IH]; [done|]. by rewrite !append_cons, IH. Qed.

Lemma hex_digit_not_colon z : 0 ≤ z < 16 → hex_digit z ≠ ":"%char.
Proof. intros Hz%hex_val_digit Heq. rewrite Heq in Hz. discriminate Hz. Qed.

Lemma hex_high c : hex_digit (byte_val c / 16) ≠ ":"%char.
Proof.
  pose proof (byte_val_range c). apply hex_digit_not_colon.
  split; [apply Z.div_pos | apply Z.div_lt_upper_bound]; lia.
Qed.

(** A hexadecimal name ends at the next colon. *)
Lemma hex_split a b x y :
  hex_encode a +:+ String.String ":" x = hex_encode b +:+ String.String ":" y → a = b ∧ x = y.
Proof.
  intros Heq. cut (hex_encode a = hex_encode b ∧ x = y).
  { intros [Hab ->]. split; [by apply hex_encode_inj|done]. }
  revert b Heq. induction a as [|c a IH]; intros [|c' b]; cbn [hex_encode]; rewrite ?append_cons, ?append_nil_l; intros Heq.
  - by injection Heq.
  - injection Heq as Hc _. by destruct (hex_high c').
  - injection Heq as Hc _. by destruct (hex_high c).
  - injection Heq as -> -> Heq. apply IH in Heq as [-> ->]. done.
Qed.

Lemma prefixed_key_inj org org' k k' :
  collaborationPrefix +:+ hex_encode org +:+ String.String ":" k =
  collaborationPrefix +:+ hex_encode org' +:+ String.String ":" k' → org = org' ∧ k = k'.
Proof. intros Heq%append_inj_l. by apply hex_split. Qed.

(** Every collaboration key is [prefix, hex organisation, colon, rest]. *)
Ltac key_eq H :=
  unfold requestKey, agentKey, agentsKey, revokedAgentsKey, inboxKey, conversationKey, artifactKey,
    idempotencyKey, CollaborationRevokedAgents, collab_key, escaped in H;
  apply prefixed_key_inj in H as [? H]; rewrite ?append_cons, ?append_nil_l in H.

Lemma requestKey_inj org org' id id' : requestKey org id = requestKey org' id' → org = org' ∧ id = id'.
Proof. intros H. key_eq H. by injection H as H%hex_encode_inj. Qed.
Lemma agentKey_inj org org' id id' : agentKey org id = agentKey org' id' → org = org' ∧ id = id'.
Proof. intros H. key_eq H. by injection H as H%hex_encode_inj. Qed.
Lemma artifactKey_inj org org' id id' : artifactKey org id = artifactKey org' id' → org = org' ∧ id = id'.
Proof. intros H. key_eq H. by injection H as H%hex_encode_inj. Qed.
Lemma conversationKey_inj org org' id id' :
  conversationKey org id = conversationKey org' id' → org = org' ∧ id = id'.
Proof. intros H. key_eq H. by injection H as H%hex_encode_inj. Qed.
Lemma inboxKey_inj org org' id id' : inboxKey org id = inboxKey org' id' → org = org' ∧ id = id'.
Proof. intros H. key_eq H. by injection H as H%hex_encode_inj. Qed.
Lemma revokedAgentsKey_inj org org' : revokedAgentsKey org = revokedAgentsKey org' → org = org'.
Proof. intros H. by key_eq H. Qed.

(** The kinds of keys, as a tag read off the key. *)
Inductive key_kind := KAgent | KAgents | KRevoked | KRequest | KInbox | KConversation | KArtifact | KIdempotency.

Definition kind_text (k : key_kind) : string :=
  match k with
  | KAgent => ":agent:" | KAgents => ":agents" | KRevoked => ":revoked-agents" | KRequest => ":request:"
  | KInbox => ":inbox:" | KConversation => ":conversation:" | KArtifact => ":artifact:"
  | KIdempotency => ":idempotency:"
  end.
Definition collab_key_of (k : key_kind) (s : string) : Prop :=
  ∃ org rest, s = collab_key org (kind_text k) rest.

Lemma key_kind_unique k1 k2 s : collab_key_of k1 s → collab_key_of k2 s → k1 = k2.
Proof.
  intros (org1 & r1 & ->) (org2 & r2 & H). unfold collab_key, escaped in H. apply append_inj_l in H.
  destruct k1, k2; try done; exfalso; cbn [kind_text] in H; rewrite !append_cons, !append_nil_l in H;
    apply hex_split in H as [_ H]; discriminate H.
Qed.

Lemma key_agent org id : collab_key_of KAgent (agentKey org id).
Proof. by do 2 eexists. Qed.
Lemma key_agents org : collab_key_of KAgents (agentsKey org).
Proof. by do 2 eexists. Qed.
Lemma key_revoked org : collab_key_of KRevoked (revokedAgentsKey org).
Proof. exists org, "". unfold collab_key. by rewrite append_nil_r. Qed.
Lemma key_request org id : collab_key_of KRequest (requestKey org id).
Proof. by do 2 eexists. Qed.
Lemma key_inbox org id : collab_key_of KInbox (inboxKey org id).
Proof. by do 2 eexists. Qed.
Lemma key_conversation org id : collab_key_of KConversation (conversationKey org id).
Proof. by do 2 eexists. Qed.
Lemma key_artifact org id : collab_key_of KArtifact (artifactKey org id).
Proof. by do 2 eexists. Qed.
Lemma key_idempotency org agent key : collab_key_of KIdempotency (idempotencyKey org agent key).
Proof. by do 2 eexists. Qed.
Create HintDb keys.
#[export] Hint Resolve key_agent key_agents key_revoked key_request key_inbox key_conversation
  key_artifact key_idempotency : keys.

Lemma key_kind_ne k1 k2 s t : collab_key_of k1 s → collab_key_of k2 t → k1 ≠ k2 → s ≠ t.
Proof. intros H1 H2 Hne ->. by apply Hne, (key_kind_unique k1 k2 t). Qed.
