(* ===== verification/CollabLifecycle.v ===== *)
(** * The handlers implement the lifecycle machine

    Under any interference that keeps a stored request within the histories of
    [CollabMachine], every handler of the collaboration store does too: the
    refinement theorem of the relay.  The section [transition] proves the rule
    for [transitionStoredWatching] once, for any update closure. *)

From stdpp Require Import relations.
From S2P Require Import Prelude GoString Sha256 Protocol Auth Records Json Redis RedisLogic.
From S2P Require Import CollabStore CollabMachine.

Local Open Scope Z_scope.

(** ** One transition *)

Section transition.
Context {DB : Type} `{RL : RedisLaws DB} `{UT : UnicodeTables}.
Context (R : relation DB) `{!PreOrder R}.
Context (o : oracle).
Context {X : Type} (p : Principal) (requestID : string) (extra : list string).
Abbreviation CM := (M (world DB) (rerror cerr)).
Context (update : storedRequest → CM (storedRequest * X)).
Let key := requestKey (p_OrganizationID p) (trim_space requestID).
Let ks := key :: extra.
Context (P : DB → Prop).
Context (Ψ : storedRequest → storedRequest → X → Prop).
Context (Φ : storedRequest → storedRequest → X → DB → Prop).

Definition holds_record (s : storedRequest) (d : DB) : Prop := r_get d key = Some (marshal s).

Hypothesis P_closed : ∀ d d', R d d' → P d → P d'.
Hypothesis Φ_guarded : ∀ s s' x, guarded ks (Φ s s' x).
Hypothesis update_ok : ∀ s (G : DB → Prop), (∀ d d', R d d' → G d → G d') →
  spec R o (λ d wt, G d ∧ Sees ks (holds_record s) d wt) (update s)
    (λ r d wt, Ψ s r.1 r.2 ∧ G d ∧ Sees ks (λ d, holds_record s d ∧ Φ s r.1 r.2 d) d wt).
Hypothesis commit_ok : ∀ d s s' x t,
  P d → holds_record s d → Ψ s s' x → Φ s s' x d →
  rq_RequestID (sr_Request s) = trim_space requestID → s' ≠ s →
  R d (r_exec_all (transition_commands key (sr_touch t s')) d).

(** What a successful transition did: nothing, on a record that was current
    during the call, or one atomic update. *)
Definition transitioned (s s' : storedRequest) (x : X) (response : MutationResponse) (d : DB) : Prop :=
  Ψ s s' x ∧ rq_RequestID (sr_Request s) = trim_space requestID ∧
  ((s' = s ∧ response = mutation (sr_Request s) ∧ ∃ d1, P d1 ∧ holds_record s d1 ∧ R d1 d) ∨
   (s' ≠ s ∧ ∃ d1 t, P d1 ∧ holds_record s d1 ∧ Φ s s' x d1 ∧ R d1 d ∧
      d = r_exec_all (transition_commands key (sr_touch t s')) d1 ∧
      response = mutation (sr_Request (sr_touch t s')))).

Lemma guarded_record s : guarded ks (holds_record s).
Proof. apply (guarded_get ks key (λ o, o = Some (marshal s))). by left. Qed.

(** Reading the record under [WATCH]. *)
Lemma spec_read_record :
  spec R o (λ d wt, P d ∧ Sees ks (λ _, True) d wt)
    (readStoredRequest (p_OrganizationID p) requestID)
    (λ s d wt, rq_RequestID (sr_Request s) = trim_space requestID ∧
       (∃ d1, P d1 ∧ holds_record s d1 ∧ R d1 d) ∧ P d ∧ Sees ks (holds_record s) d wt).
Proof.
  unfold readStoredRequest.
  eapply (spec_bind R) with (Q := λ raw d wt,
    (∃ d1, P d1 ∧ r_get d1 key = raw ∧ R d1 d) ∧ P d ∧ Sees ks (λ d, r_get d key = raw) d wt).
  - apply (spec_read R).
    + apply stable_and; [by apply stable_closed|]. apply stable_Sees, guarded_const.
    + intros d wt [Hp (b & -> & _)]. split; [by exists d|]. split; [done|]. by exists b.
  - intros raw. destruct (raw ≫= unmarshal) as [s|] eqn:Hraw; [|apply (spec_throw R)].
    case_bool_decide as Hid; [|apply (spec_throw R)]. apply (spec_ret R).
    apply bind_Some in Hraw as (doc & -> & ->%unmarshal_Some). intros d wt (? & ? & ?). done.
Qed.

Lemma spec_transition :
  spec R o (λ d _, P d) (transitionStoredWatching p requestID extra update)
    (λ r d _, ∃ s s', transitioned s s' r.2 r.1 d).
Proof.
  unfold transitionStoredWatching, checked. eapply (spec_bind R) with (Q := λ _ d _, P d).
  { by apply (spec_lift R). }
  intros _. fold key.
  eapply (spec_bind R) with (Q := λ r d _, ∃ s s', transitioned s s' r.2 (mutation r.1) d).
  2: { intros [r x]. by apply (spec_ret R). }
  apply (spec_retrying R); [eauto|]. eapply spec_post;
    [apply (spec_watch R) with (Q := λ r d, ∃ s s', transitioned s s' r.2 (mutation r.1) d); [eauto|]
    |by intros ? ? ? []].
  unfold transition_body. eapply (spec_bind R); [apply spec_read_record|]. intros s.
  eapply spec_pure with (φ := rq_RequestID (sr_Request s) = trim_space requestID)
    (P' := λ d wt, ((∃ d1, P d1 ∧ holds_record s d1 ∧ R d1 d) ∧ P d) ∧ Sees ks (holds_record s) d wt);
    [by intros d wt (Hid & Hpast & Hp & Hsees)|]. intros Hid.
  eapply (spec_bind R); [apply update_ok|].
  { intros d d' Hd [(d1 & ? & ? & ?) ?]. split; [exists d1|]; eauto. do 2 (split; [done|]). by etrans. }
  intros [s' x]. cbn [fst snd].
  eapply spec_pure with (φ := Ψ s s' x)
    (P' := λ d wt, ((∃ d1, P d1 ∧ holds_record s d1 ∧ R d1 d) ∧ P d) ∧
             Sees ks (λ d, holds_record s d ∧ Φ s s' x d) d wt); [by intros d wt (HΨ & HG & Hsees)|]. intros HΨ.
  case_bool_decide as Heq.
  - apply (spec_ret R). intros d wt [[Hpast _] _]. subst s'. exists s, s. split; [done|]. split; [done|]. by left.
  - eapply (spec_bind R); [apply (spec_now R)|]. intros t.
    eapply (spec_bind R) with (Q := λ _ d' _, ∃ d1, P d1 ∧ holds_record s d1 ∧ Φ s s' x d1 ∧ R d1 d' ∧
        d' = r_exec_all (transition_commands key (sr_touch t s')) d1).
    + eapply spec_conseq; [eapply (spec_tx_sees R o ks _ (λ d _, P d) (λ d, holds_record s d ∧ Φ s s' x d))|..].
      * done.
      * by apply stable_closed.
      * apply guarded_and; [apply guarded_record|apply Φ_guarded].
      * intros d _ Hp [? ?]. by eapply commit_ok.
      * by intros d wt (_ & [_ ?] & ?).
      * intros _ d' wt' (_ & d1 & _ & Hp & [? ?] & ->). exists d1. eauto 10.
    + intros _. apply (spec_ret R). intros d wt (d1 & ? & ? & ? & ? & ->).
      exists s, s'. split; [done|]. split; [done|]. right. eauto 10.
Qed.
End transition.

(** ** The update closures perform machine actions *)

Section updates.
Context {DB : Type} `{RL : RedisLaws DB} `{UT : UnicodeTables}.
Context (R : relation DB) `{!PreOrder R}.
Context (o : oracle).
Context (p : Principal) (requestID : string).
Let org := p_OrganizationID p.
Let agent := p_AgentID p.
Let key := requestKey org (trim_space requestID).

(** The shape of an update obligation of [spec_transition]. *)
Definition update_spec {X} (extra : list string) (update : storedRequest → M (world DB) (rerror cerr) (storedRequest * X))
    (Ψ : storedRequest → storedRequest → X → Prop) (Φ : storedRequest → storedRequest → X → DB → Prop) : Prop :=
  ∀ s (G : DB → Prop), (∀ d d', R d d' → G d → G d') →
  spec R o (λ d wt, G d ∧ Sees (key :: extra) (holds_record p requestID s) d wt) (update s)
    (λ r d wt, Ψ s r.1 r.2 ∧ G d ∧
       Sees (key :: extra) (λ d, holds_record p requestID s d ∧ Φ s r.1 r.2 d) d wt).

(** A result that depends on nothing read inside the closure. *)
Lemma update_ret {X} extra (s s' : storedRequest) (x : X) G
    (Ψ : storedRequest → storedRequest → X → Prop) (Φ : storedRequest → storedRequest → X → DB → Prop) :
  Ψ s s' x → (∀ d, Φ s s' x d) →
  spec R o (λ d wt, G d ∧ Sees (key :: extra) (holds_record p requestID s) d wt)
    (mret (s', x) : M (world DB) (rerror cerr) _)
    (λ r d wt, Ψ s r.1 r.2 ∧ G d ∧
       Sees (key :: extra) (λ d, holds_record p requestID s d ∧ Φ s r.1 r.2 d) d wt).
Proof.
  intros HΨ HΦ. apply (spec_ret R). intros d wt [HG (b & -> & Hb)]. split; [done|]. split; [done|].
  exists b. eauto.
Qed.

(** Decide: an exact replay, or the machine's decision at the commit, with the
    requester's revocation read from the database committed on. *)
Definition decide_replay (input : DecisionPayload) (s : storedRequest) : Prop :=
  sr_DecisionID s = dp_DecisionID input ∧ sr_Decision s = dp_Decision input ∧ sr_DecisionID s ≠ "" ∧
  rq_TargetAgentID (sr_Request s) = agent.
Definition decide_said (input : DecisionPayload) (s s' : storedRequest) (_ : ()) : Prop :=
  (s' = s ∧ decide_replay input s) ∨
  ∃ t b, clock_reading o t ∧
    apply_action agent (ActDecide (dp_DecisionID input) (dp_Decision input) t b) s = Some s'.
Definition decide_effect (input : DecisionPayload) (s s' : storedRequest) (_ : ()) (d : DB) : Prop :=
  s' = s ∨ ∃ t, clock_reading o t ∧ apply_action agent (ActDecide (dp_DecisionID input) (dp_Decision input) t
    (r_sismember d (revokedAgentsKey org) (rq_RequesterAgentID (sr_Request s)))) s = Some s'.

(** What [Decide] writes is the machine's decision. *)
Lemma decide_apply input s t b :
  decision_ok (dp_DecisionID input) (dp_Decision input) = true →
  rq_TargetAgentID (sr_Request s) = agent → sr_DecisionID s = "" →
  rq_Status (sr_Request s) = StatusAwaitingApproval →
  apply_action agent (ActDecide (dp_DecisionID input) (dp_Decision input) t b) s =
     Some (sr_set_decision (dp_DecisionID input) (dp_Decision input)
       (decision_status (dp_Decision input) t (rq_ExpiresAt (sr_Request s)) b) s).
Proof. intros Hok Htarget Hid Hst. unfold apply_action. by rewrite Htarget, Hok, Hid, Hst, !bool_decide_true. Qed.

Lemma decide_finish input extra s t st G :
  clock_reading o t →
  (∀ b, apply_action agent (ActDecide (dp_DecisionID input) (dp_Decision input) t b) s =
     Some (sr_set_decision (dp_DecisionID input) (dp_Decision input) st s)) →
  spec R o (λ d wt, G d ∧ Sees (key :: extra) (holds_record p requestID s) d wt)
    (mret (sr_set_decision (dp_DecisionID input) (dp_Decision input) st s, ()) : M (world DB) (rerror cerr) _)
    (λ r d wt, decide_said input s r.1 r.2 ∧ G d ∧
       Sees (key :: extra) (λ d, holds_record p requestID s d ∧ decide_effect input s r.1 r.2 d) d wt).
Proof.
  intros Ht Hact. apply update_ret.
  - right. by exists t, true.
  - intros d. right. by exists t.
Qed.

Lemma decide_update_spec input :
  decision_ok (dp_DecisionID input) (dp_Decision input) = true →
  update_spec [revokedAgentsKey org] (decide_update p input) (decide_said input) (decide_effect input).
Proof.
  intros Hok s G HG. unfold decide_update. apply (spec_reject_bind R). intros Htarget. orb_split.
  destruct (bool_decide (sr_DecisionID s = "")) eqn:Hid; simpl; orb_split.
  2: { apply (spec_reject_bind R). intros Hsame. orb_split.
       match goal with H : opaqueIDMatches _ _ = true |- _ => apply claim_matches_eq in H as [? ?] end.
       apply update_ret; [by left|]. intros d. by left. }
  apply (spec_reject_bind R). intros Hst. orb_split.
  eapply (spec_bind R); [apply (spec_now R)|]. intros t.
  eapply spec_pure with (φ := clock_reading o t)
    (P' := λ d wt, G d ∧ Sees [key; revokedAgentsKey org] (holds_record p requestID s) d wt); [done|].
  intros Ht. pose proof (λ b, decide_apply input s t b Hok Htarget Hid Hst) as Hact.
  unfold decision_status in Hact.
  destruct (t <? rq_ExpiresAt (sr_Request s)) eqn:Hexp; cbn [negb andb] in Hact |- *; [|by apply decide_finish with (t := t)].
  destruct (bool_decide (dp_Decision input = DecisionAllowOnce)) eqn:Hallow; cbn [negb andb] in Hact |- *;
    [|by apply decide_finish with (t := t)].
  eapply (spec_bind R).
  { unfold redis_sismember. apply (spec_read_sees R).
    - by apply stable_closed.
    - apply (guarded_get _ key (λ o, o = Some (marshal s))). by left.
    - intros b. apply guarded_sismember. by right; left. }
  intros b. set (st := if b then StatusCancelled else if bool_decide (dp_Decision input = DecisionDeny)
         then StatusRejected else StatusAccepted) in *.
  replace (if b then _ else _) with (mret (sr_set_decision (dp_DecisionID input) (dp_Decision input) st s, ())
    : M (world DB) (rerror cerr) _) by (by destruct b).
  apply (spec_ret R). intros d wt [Hg (dirty & -> & Hd)]. split; [right; exists t, b; by rewrite Hact|].
  split; [done|]. exists dirty. split; [done|]. intros Hc. destruct (Hd Hc) as [Hrec Hb].
  split; [done|]. right. exists t. split; [done|]. fold org in Hb. by rewrite Hb, Hact.
Qed.

(** The other closures read nothing but the record. *)
Definition no_effect {X} (_ _ : storedRequest) (_ : X) (_ : DB) : Prop := True.

Definition claim_said (claim : string) (s s' : storedRequest) (_ : ()) : Prop :=
  (s' = s ∧ rq_TargetAgentID (sr_Request s) = agent ∧ rq_Status (sr_Request s) = StatusRunning ∧
   sr_ExecutionClaimID s = claim) ∨
  apply_action agent (ActClaim claim) s = Some s'.

Lemma claim_update_spec claim :
  validExecutionClaimID claim = true → update_spec [] (claim_update p claim) (claim_said claim) no_effect.
Proof.
  intros Hv s G HG. unfold claim_update. apply (spec_reject_bind R). intros Htarget. orb_split.
  destruct (rq_Status (sr_Request s)) eqn:Hst; try apply (spec_throw R).
  - apply update_ret; [right|done]. unfold apply_action. fold agent in Htarget.
    by rewrite Htarget, Hv, Hst, !bool_decide_true.
  - destruct (executionClaimMatches _ _) eqn:Hm; [|apply (spec_throw R)].
    apply claim_matches_eq in Hm as [Hm _]. apply update_ret; [by left|done].
Qed.

Definition result_said (result : ResultPayload) (files : list ArtifactDescriptor) (s s' : storedRequest) (_ : ()) : Prop :=
  (s' = s ∧ rq_TargetAgentID (sr_Request s) = agent ∧ Terminal (rq_Status (sr_Request s)) = true ∧
   exactResultReplay s result (digestResult result) = true) ∨
  apply_action agent (ActResult result files) s = Some s'.

Lemma result_update_spec result files :
  is_ok (validate_result result) = true → length files = length (rp_ResultFiles result) →
  update_spec [] (result_update p result (digestResult result) files) (result_said result files) no_effect.
Proof.
  intros Hv Hlen s G HG. unfold result_update. apply (spec_reject_bind R). intros Htarget. orb_split.
  destruct (Terminal _) eqn:Hterm.
  { destruct (exactResultReplay _ _ _) eqn:Hr; [|apply (spec_throw R)]. apply update_ret; [by left|done]. }
  apply (spec_reject_bind R). intros Hst. orb_split. apply update_ret; [right|done].
  unfold apply_action. fold agent in Htarget.
  repeat match goal with H : ?x = _ |- context [?x] => rewrite H end. by rewrite !bool_decide_true.
Qed.

(** [transition] wraps an update of the request alone. *)
Definition lifted {X} (update : Request → M (world DB) (rerror cerr) (Request * X)) :
    storedRequest → M (world DB) (rerror cerr) (storedRequest * X) :=
  λ stored, '(r, x) ← update (sr_Request stored); mret (sr_set_request r stored, x).

Lemma lifted_ret {X} (update : Request → M (world DB) (rerror cerr) (Request * X)) s P Q :
  spec R o P (update (sr_Request s)) (λ r d wt, Q (sr_set_request r.1 s, r.2) d wt) →
  spec R o P (lifted update s) Q.
Proof. intros Hu. eapply (spec_bind R); [apply Hu|]. intros [r x]. by apply (spec_ret R). Qed.

Lemma sr_set_request_id s : sr_set_request (sr_Request s) s = s.
Proof. by destruct s. Qed.

Definition expire_said (s s' : storedRequest) (_ : ()) : Prop :=
  ∃ t, clock_reading o t ∧ apply_action agent (ActExpire t) s = Some s'.

Lemma expire_update_spec : update_spec [] (lifted (expire_update p)) expire_said no_effect.
Proof.
  intros s G HG. apply lifted_ret. unfold expire_update. apply (spec_reject_bind R). intros Htarget. orb_split.
  destruct (bool_decide (rq_Status (sr_Request s) = StatusAwaitingApproval)) eqn:Hst;
    cbn [negb]; [|apply (spec_throw R)].
  eapply (spec_bind R); [apply (spec_now R)|]. intros t.
  eapply spec_pure with (φ := clock_reading o t)
    (P' := λ d wt, G d ∧ Sees [key] (holds_record p requestID s) d wt); [done|]. intros Ht.
  destruct (t <? rq_ExpiresAt (sr_Request s)) eqn:Hexp; [apply (spec_throw R)|].
  apply (spec_ret R). intros d wt [HG' (b & -> & Hb)]. split.
  { exists t. split; [done|]. unfold apply_action. fold agent in Htarget. by rewrite Htarget, Hst, Hexp, bool_decide_true. }
  split; [done|]. exists b. split; [done|]. intros Hc. split; [auto|done].
Qed.

Definition cancel_said (s s' : storedRequest) (changed : bool) : Prop :=
  (changed = false ∧ s' = s ∧ rq_RequesterAgentID (sr_Request s) = agent ∧
   rq_Status (sr_Request s) = StatusCancelled) ∨
  (changed = true ∧ apply_action agent ActCancel s = Some s').

Lemma cancel_update_spec : update_spec [] (lifted (cancel_update p)) cancel_said no_effect.
Proof.
  intros s G HG. apply lifted_ret. unfold cancel_update. apply (spec_reject_bind R). intros Htarget. orb_split.
  destruct (bool_decide (rq_Status (sr_Request s) = StatusCancelled)) eqn:Hst; orb_split.
  - apply (spec_ret R). intros d wt [HG' (b & -> & Hb)]. cbn [fst snd]. rewrite sr_set_request_id.
    split; [by left|]. split; [done|]. exists b. split; [done|]. intros Hc. split; [auto|done].
  - destruct (Terminal _) eqn:Hterm; [apply (spec_throw R)|]. apply (spec_ret R). intros d wt [HG' (b & -> & Hb)].
    split; [right; split; [done|]; unfold apply_action; fold agent in Htarget; by rewrite Htarget, Hterm, bool_decide_true|].
    split; [done|]. exists b. split; [done|]. intros Hc. split; [auto|done].
Qed.
End updates.

(** ** Prepared artifacts *)

Section artifacts.
Context {DB : Type} `{UT : UnicodeTables}.

(** What [prepareArtifacts] makes of one accepted input. *)
Definition prepared_from (requestID requester target direction : string) (i : AttachmentInput)
    (pa : ArtifactDescriptor * storedArtifact) : Prop :=
  validArtifactName (ai_Name i) = true ∧ validMIMEType (ai_MIMEType i) = true ∧
  0 <= ai_SizeBytes i <= MaxAttachmentBytes ∧
  ∃ decoded, b64_decode (ai_ContentBase64 i) = Some decoded ∧ len decoded = ai_SizeBytes i ∧
    equal_fold (sha256_hex decoded) (ai_SHA256 i) = true ∧
    (∃ r, pa.1 = mkArtifactDescriptor ("art_" +:+ hex_encode r) (ai_Name i) (ai_MIMEType i) (ai_SizeBytes i)
            (sha256_hex decoded)) ∧
    pa.2 = mkStoredArtifact pa.1 "base64" (ai_ContentBase64 i) requestID requester target direction.

Definition total_size (l : list AttachmentInput) : Z := foldr (λ i z, ai_SizeBytes i + z) 0 l.

Lemma prepare_loop_run requestID requester target direction inputs : ∀ seen total (w w' : world DB) r,
  total <= MaxRequestPayloadBytes →
  prepare_loop requestID requester target direction seen total inputs w = (w', inr r) →
  Forall2 (prepared_from requestID requester target direction) inputs r ∧
  total + total_size inputs <= MaxRequestPayloadBytes ∧
  NoDup ((λ i, to_lower (ai_Name i)) <$> inputs) ∧
  (∀ i, i ∈ inputs → to_lower (ai_Name i) ∉ seen).
Proof.
  induction inputs as [|i inputs IH]; intros seen total w w' r Htotal Hrun; cbn [prepare_loop] in Hrun.
  { run_inv. split; [done|]. split; [simpl; lia|]. split; [constructor|]. intros i Hi. by apply elem_of_nil in Hi. }
  unfold refuse_if in Hrun. run_inv. destruct (b64_decode _) as [decoded|] eqn:Hdec; [|by run_inv].
  run_inv. orb_split.
  match goal with H : prepare_loop _ _ _ _ _ _ _ _ = _ |- _ => apply IH in H as (Hall & Hsum & Hnd & Hseen) end;
    [|by apply Z.ltb_ge].
  split; [|split; [simpl; lia|split]].
  - constructor; [|done]. match goal with H : randomID _ _ = _ |- _ => injection H as _ <- end.
    split; [done|]. split; [done|]. split; [by rewrite <- !Z.ltb_ge|]. exists decoded. eauto 10.
  - constructor; [|done]. intros (j & Hj & Hin)%list_elem_of_fmap.
    apply (Hseen j Hin). rewrite <- Hj. set_solver.
  - intros j [->|Hj]%elem_of_cons; [done|]. specialize (Hseen j Hj). set_solver.
Qed.
End artifacts.

(** ** The lifecycle of one request key *)

Section lifecycle.
Context {DB : Type} `{RL : RedisLaws DB} `{UT : UnicodeTables}.
Context (org0 id0 : string).
Let key0 := requestKey org0 id0.
Abbreviation CM := (M (world DB) (rerror cerr)).

(** A stored request moves along its histories or disappears (its TTL ran
    out); once gone it stays gone, because request identifiers are fresh. *)
Definition slot_evolves (o o' : option doc) : Prop :=
  match o with
  | None => o' = None
  | Some (DStored s) => o' = None ∨ ∃ s', o' = Some (DStored s') ∧ evolves s s'
  | Some other => o' = None ∨ o' = Some other
  end.
Definition life (d d' : DB) : Prop := slot_evolves (r_get d key0) (r_get d' key0).

#[export] Instance slot_evolves_preorder : PreOrder slot_evolves.
Proof.
  split.
  - intros [[]|]; simpl; auto. right. eexists; split; [done|]. apply rtc_refl.
  - intros [x|] y z; simpl; [|by intros ->].
    destruct x; (intros [->| Hy]; [intros Hz; simpl in Hz; by left|]); try (subst; done).
    destruct Hy as (s & -> & Hs). intros [Hz|(s' & -> & Hs')]; [by left|]. right.
    eexists; split; [done|]. unfold evolves in *. by etrans.
Qed.
#[export] Instance life_preorder : PreOrder life.
Proof. unfold life. split; [intros d; reflexivity|intros d1 d2 d3; etrans; done]. Qed.

(** Commands on other keys, and re-arming an expiry, do not matter. *)
Definition harmless (c : cmd) : Prop :=
  cmd_key c ≠ key0 ∨ match c with CExpire _ ttl => 0 < ttl | _ => False end.

Lemma life_harmless c d : harmless c → life d (r_exec c d).
Proof.
  unfold life. intros [Hk|Hc].
  - by rewrite get_other.
  - destruct c; try done. destruct (decide (k = key0)) as [->|Hne]; [by rewrite get_expire|].
    by rewrite get_other.
Qed.
Lemma life_harmless_all cs d : Forall harmless cs → life d (r_exec_all cs d).
Proof.
  intros Hcs. revert d. induction Hcs as [|c cs Hc _ IH]; intros d; [reflexivity|].
  etrans; [by apply life_harmless|]. apply IH.
Qed.

Lemma get_transition_commands key s d :
  r_get (r_exec_all (transition_commands key s) d) key = Some (marshal s).
Proof.
  unfold transition_commands. rewrite r_exec_all_cons. case_bool_decide; [by apply get_set|].
  rewrite r_exec_all_cons. unfold r_exec_all. simpl.
  destruct (decide (sr_IdempotencyRedisKey s = key)) as [->|Hne].
  - rewrite get_expire by (unfold requestRetention, second; lia). by apply get_set.
  - rewrite get_other by done. by apply get_set.
Qed.

(** A transition leaves every set as it was. *)
Lemma smembers_expire_any k k' ttl d x :
  0 < ttl → x ∈ r_smembers (r_exec (CExpire k ttl) d) k' ↔ x ∈ r_smembers d k'.
Proof.
  intros Ht. destruct (decide (k = k')) as [->|Hne]; [by apply smembers_expire|by apply smembers_other].
Qed.
Lemma sismember_transition_commands org id s d k x :
  requestKey org id ≠ k →
  r_sismember (r_exec_all (transition_commands (requestKey org id) s) d) k x = r_sismember d k x.
Proof.
  intros Hne. unfold r_sismember. apply bool_decide_ext. unfold transition_commands, r_exec_all.
  case_bool_decide; simpl; rewrite ?smembers_expire_any by (unfold requestRetention, second; lia);
    by apply smembers_other.
Qed.

(** A committed machine action is a step of the request's history. *)
Lemma life_commit key s s' agent a t d :
  r_get d key = Some (marshal s) → apply_action agent a s = Some s' →
  life d (r_exec_all (transition_commands key (sr_touch t s')) d).
Proof.
  intros Hget Ha. destruct (decide (key = key0)) as [->|Hne].
  - unfold life. rewrite Hget, get_transition_commands. right. eexists; split; [done|].
    apply rtc_once. by exists agent, a, s', t.
  - apply life_harmless_all. constructor; [by left|]. case_bool_decide; [done|].
    constructor; [right; unfold requestRetention, second; lia|done].
Qed.

(** *** Transitions *)

Lemma guar_transition {X} p requestID extra (update : storedRequest → CM (storedRequest * X))
    (Ψ : oracle → storedRequest → storedRequest → X → Prop) (Φ : oracle → storedRequest → storedRequest → X → DB → Prop) :
  (∀ o, update_spec life o p requestID extra update (Ψ o) (Φ o)) →
  (∀ o s s' x, guarded (requestKey (p_OrganizationID p) (trim_space requestID) :: extra) (Φ o s s' x)) →
  (∀ o s s' x, Ψ o s s' x → s' = s ∨ ∃ agent a, apply_action agent a s = Some s') →
  guar (WR life) (transitionStoredWatching p requestID extra update).
Proof.
  intros Hu Hg HΨ. apply (guar_spec life). intros o. eapply spec_post; [|done].
  apply (spec_transition life o p requestID extra update (λ _, True) (Ψ o) (Φ o)); [done..| |].
  - apply Hu.
  - intros d s s' x t _ Hrec Hs _ _ Hne. destruct (HΨ _ _ _ _ Hs) as [->|(agent & a & Ha)]; [done|].
    by eapply life_commit.
Qed.

Lemma guarded_no_effect {X} ks s s' (x : X) : guarded (DB := DB) ks (no_effect s s' x).
Proof. apply guarded_const. Qed.
Lemma guarded_decide_effect o p requestID input s s' x :
  guarded (DB := DB) (requestKey (p_OrganizationID p) (trim_space requestID) ::
    [revokedAgentsKey (p_OrganizationID p)]) (decide_effect o p input s s' x).
Proof.
  intros d d' Hu [->|(t & Ht & Ha)]; [by left|]. right. exists t. split; [done|].
  rewrite <- Ha. do 2 f_equal. apply bool_decide_ext.
  eapply unmodified_smembers; [exact Hu|]. by right; left.
Qed.

Lemma guar_transitionStored {X} p requestID (update : storedRequest → CM (storedRequest * X))
    (Ψ : oracle → storedRequest → storedRequest → X → Prop) :
  (∀ o, update_spec life o p requestID [] update (Ψ o) no_effect) →
  (∀ o s s' x, Ψ o s s' x → s' = s ∨ ∃ agent a, apply_action agent a s = Some s') →
  guar (WR life) (transitionStored p requestID update).
Proof.
  intros Hu HΨ. apply guar_transition with (Ψ := Ψ) (Φ := λ _, no_effect); [done| |done].
  intros. apply guarded_no_effect.
Qed.

Lemma guar_checked {A} (r : cerr + A) : guar (WR life) (checked r : CM A).
Proof. apply guar_lift, _. Qed.
Lemma guar_refuse_if b e : guar (WR life) (refuse_if b e : CM ()).
Proof. apply guar_reject_if, _. Qed.
Lemma guar_harmless c : harmless c → guar (WR life) (redis_write c : CM ()).
Proof. intros Hc. apply (guar_write life). intros d. by apply life_harmless. Qed.
Hint Resolve guar_checked guar_refuse_if guar_harmless : guar.

Lemma harmless_kind kind c : collab_key_of kind (cmd_key c) → kind ≠ KRequest → harmless c.
Proof. intros Hk Hne. left. eapply key_kind_ne; eauto with keys. Qed.
Ltac harmless_tac := eapply harmless_kind; [simpl; eauto with keys|done].
Hint Extern 2 (harmless _) => harmless_tac : guar.

Lemma guar_Decide p requestID input : guar (WR life) (Decide p requestID input).
Proof.
  unfold Decide. apply (guar_reject_bind _). intros Hd. apply (guar_reject_bind _). intros Hid. orb_split.
  apply guar_bind; [apply _| |intros []; auto with guar].
  apply guar_transition with (Ψ := λ o, decide_said o p input) (Φ := λ o, decide_effect o p input).
  - intros o. apply decide_update_spec; [apply _|]. unfold decision_ok. rewrite Hid, andb_true_r.
    by destruct (dp_Decision input).
  - intros o s s' x. apply guarded_decide_effect.
  - intros o s s' x [[-> _]|(t & b & _ & Ha)]; eauto.
Qed.

Lemma guar_MarkRunning p requestID claim : guar (WR life) (MarkRunning p requestID claim).
Proof.
  unfold MarkRunning. apply (guar_reject_bind _). intros Hv. orb_split.
  apply guar_bind; [apply _| |intros []; auto with guar].
  apply guar_transitionStored with (Ψ := λ _, claim_said p claim).
  - intros o. apply claim_update_spec; [apply _|done].
  - intros _ s s' x [[-> _]|Ha]; eauto.
Qed.

Lemma guar_Cancel p requestID : guar (WR life) (Cancel p requestID).
Proof.
  apply guar_transitionStored with (Ψ := λ _, cancel_said p).
  - intros o. apply cancel_update_spec, _.
  - intros _ s s' x [(_ & -> & _)|[_ Ha]]; eauto.
Qed.

Lemma guar_expireAwaiting p requestID : guar (WR life) (expireAwaiting p requestID).
Proof.
  unfold expireAwaiting. apply guar_bind; [apply _| |intros r; guar_auto].
  apply guar_attempt. apply guar_transitionStored with (Ψ := λ o, expire_said o p).
  - intros o. apply expire_update_spec, _.
  - intros o s s' x (t & _ & Ha); eauto.
Qed.

Lemma prepare_guar requestID requester target direction seen total inputs :
  guar (WR life) (prepare_loop requestID requester target direction seen total inputs : CM _).
Proof. revert seen total. induction inputs; intros seen total; cbn [prepare_loop]; guar_auto. Qed.
Hint Resolve prepare_guar guar_Decide guar_MarkRunning guar_Cancel guar_expireAwaiting : guar.

Lemma readStoredRequest_guar org requestID : guar (WR life) (readStoredRequest org requestID : CM _).
Proof. unfold readStoredRequest. guar_auto. Qed.
Lemma readConversation_guar org conv : guar (WR life) (readConversation org conv : CM _).
Proof. unfold readConversation. guar_auto. Qed.
Lemma readAgent_guar org agent : guar (WR life) (readAgent org agent : CM _).
Proof. unfold readAgent. guar_auto. Qed.
Hint Resolve readStoredRequest_guar readConversation_guar readAgent_guar : guar.

Lemma guar_SubmitResult p requestID result : guar (WR life) (SubmitResult p requestID result).
Proof.
  unfold SubmitResult. apply guar_bind; [apply _|auto with guar|]. intros _.
  unfold checked. apply guar_lift_bind; [apply _|]. intros u Hv.
  apply guar_bind; [apply _|auto with guar|]. intros s.
  apply guar_bind; [apply _|auto with guar|]. intros _.
  destruct (Terminal _); [guar_auto|]. apply guar_bind; [apply _|auto with guar|]. intros _.
  apply guar_bind_run; [apply _|unfold prepareArtifacts; auto with guar|]. intros w w' prepared Hrun.
  apply prepare_loop_run in Hrun as [Hall _]; [|done]. apply Forall2_length in Hall.
  apply guar_bind; [apply _|apply guar_mapM_; [apply _|auto with guar]|]. intros _.
  apply guar_bind; [apply _| |intros []; guar_auto].
  apply guar_transitionStored with (Ψ := λ _, result_said p result prepared.*1).
  - intros o. apply result_update_spec; [apply _| |by rewrite length_fmap].
    by destruct (validate_result result).
  - intros _ s1 s2 x [[-> _]|Ha]; eauto.
Qed.

Lemma guar_Inbox p : guar (WR life) (Inbox p : CM _).
Proof.
  unfold Inbox, inbox_item, inbox_forget, found. guar_auto.
Qed.

Lemma guar_evictPresence org ids : guar (WR life) (evictPresence org ids : CM _).
Proof.
  apply (guar_tx life). intros d. apply life_harmless_all. induction ids as [|id ids IH]; [done|].
  rewrite fmap_cons. cbn [concat]. apply Forall_app; split; [|done].
  repeat (constructor; [harmless_tac|]). constructor.
Qed.

Lemma guar_ListAgents p query : guar (WR life) (ListAgents p query : CM _).
Proof. unfold ListAgents, list_agents_item. guar_auto. Qed.

Lemma guar_retry_harmless {A} n ks (body : CM A) :
  (∀ o, spec life o (λ _ wt, ∃ b, wt = Some (ks, b)) body (λ _ _ _, True)) →
  guar (WR life) (retrying n (redis_watch ks body)).
Proof.
  intros Hb. apply (guar_retry_watch life). intros o. eapply spec_pre; [apply Hb|].
  intros d wt [_ (b & -> & _)]. by exists b.
Qed.

Lemma guar_Heartbeat p hb : guar (WR life) (Heartbeat p hb : CM _).
Proof.
  unfold Heartbeat. do 4 (apply guar_bind; [apply _|auto with guar|intros ?]).
  apply guar_bind; [apply _| |auto with guar].
  apply guar_retry_harmless. intros o. apply (spec_guar life). unfold refuse_if. guar_auto.
  apply (guar_tx life). intros d. apply life_harmless_all.
  repeat (constructor; [harmless_tac|]). constructor.
Qed.

Lemma guar_FetchExecution p id : guar (WR life) (FetchExecution p id : CM _).
Proof. unfold FetchExecution. guar_auto. Qed.
Lemma guar_InspectProposal p id : guar (WR life) (InspectProposal p id : CM _).
Proof. unfold InspectProposal. guar_auto. Qed.
Lemma guar_GetRequest p id : guar (WR life) (GetRequest p id : CM _).
Proof. unfold GetRequest. guar_auto. Qed.
Lemma guar_FetchArtifact p id : guar (WR life) (FetchArtifact p id : CM _).
Proof. unfold FetchArtifact. guar_auto. Qed.

(** *** Creation *)

(** The random source never draws the identifier of the observed request. *)
Definition fresh_for (org : string) (o : oracle) : Prop :=
  ∀ n, requestKey org ("req_" +:+ hex_encode (o_rand o n)) ≠ key0.

Lemma existing_request_guar org digest d : guar (WR life) (existing_request org digest d : CM _).
Proof. unfold existing_request. guar_auto. Qed.
Lemma create_conversation_guar p input : guar (WR life) (create_conversation p input : CM _).
Proof. unfold create_conversation. guar_auto. Qed.
Hint Resolve existing_request_guar create_conversation_guar : guar.

Lemma harmless_create org idemKey stored conv fresh_conv idem artifacts :
  collab_key_of KIdempotency idemKey → requestKey org (rq_RequestID (sr_Request stored)) ≠ key0 →
  Forall harmless (create_commands org idemKey stored conv fresh_conv idem artifacts).
Proof.
  intros Hidem Hne. unfold create_commands. rewrite !Forall_app. split; [|split].
  - constructor; [by left|]. constructor; [by eapply harmless_kind; [exact Hidem|]|].
    repeat (constructor; [harmless_tac|]). constructor.
  - destruct fresh_conv; repeat (constructor; [harmless_tac|]); constructor.
  - apply Forall_fmap, Forall_forall. intros a _. simpl. harmless_tac.
Qed.

Lemma create_body_guar org idemKey digest cmds :
  Forall harmless cmds → guar (WR life) (create_body org idemKey digest cmds : CM _).
Proof.
  intros Hc. unfold create_body. apply guar_bind; [apply _|auto with guar|]. intros [d|]; [guar_auto|].
  apply guar_bind; [apply _| |auto with guar]. apply (guar_tx life). intros d. by apply life_harmless_all.
Qed.

Lemma spec_CreateRequest o p input :
  fresh_for (p_OrganizationID p) o → spec life o (λ _ _, True) (CreateRequest_ p input) (λ _ _ _, True).
Proof.
  intros Hfresh. unfold CreateRequest_, checked, refuse_if.
  apply (spec_lift_bind life). intros _ _. apply (spec_lift_bind life). intros _ _. cbv zeta.
  eapply (spec_bind life); [apply (spec_guar life); auto with guar|]. intros [d|].
  { apply (spec_guar life). guar_auto. }
  eapply (spec_bind life); [apply (spec_guar life); auto with guar|]. intros conv.
  apply (spec_reject_bind life). intros _.
  eapply (spec_bind life); [apply (spec_guar life); auto with guar|]. intros target.
  apply (spec_reject_bind life). intros _. apply (spec_reject_bind life). intros _.
  eapply (spec_bind life); [apply (spec_guar life); auto with guar|]. intros requester.
  eapply (spec_bind life) with (Q := λ _ _ _, True); [apply (spec_guar life); auto with guar|]. intros t.
  eapply (spec_bind life); [apply (spec_randomID life)|]. intros requestID.
  eapply spec_pure with (φ := ∃ r, random_draw o r ∧ requestID = "req_" +:+ hex_encode r) (P' := λ _ _, True);
    [done|]. intros (r & [n ->] & ->).
  apply (spec_guar life). apply guar_bind; [apply _|unfold prepareArtifacts; auto with guar|]. intros prepared.
  apply guar_bind; [apply _| |intros []; auto with guar].
  apply guar_retry_harmless. intros o'. apply (spec_guar life), create_body_guar, harmless_create;
    [apply key_idempotency|]. simpl. apply Hfresh.
Qed.
End lifecycle.
