(* ===== verification/CollabProofs.v ===== *)
(** * Correctness of the collaboration store

    The theorems about the relay's collaboration handlers: the refinement of
    the lifecycle machine by any sequence of calls, the uniqueness of
    decisions, execution claims and results, who may see a request and when,
    and the conditions under which a request is created. *)

From stdpp Require Import relations.
From S2P Require Import Prelude GoString Sha256 Protocol Auth Records Json Redis RedisLogic MemRedis.
From S2P Require Import CollabStore CollabMachine CollabLifecycle.

Local Open Scope Z_scope.

(** ** Calls *)

Inductive call :=
  | CallHeartbeat (p : Principal) (hb : AgentHeartbeat)
  | CallListAgents (p : Principal) (q : AgentQuery)
  | CallCreate (p : Principal) (input : CreateRequest)
  | CallGet (p : Principal) (id : string)
  | CallInbox (p : Principal)
  | CallDecide (p : Principal) (id : string) (input : DecisionPayload)
  | CallFetchExecution (p : Principal) (id : string)
  | CallInspect (p : Principal) (id : string)
  | CallMarkRunning (p : Principal) (id claim : string)
  | CallSubmit (p : Principal) (id : string) (result : ResultPayload)
  | CallCancel (p : Principal) (id : string)
  | CallFetchArtifact (p : Principal) (id : string)
  | CallEvict (org : string) (agents : list string).

Section proofs.
Context {DB : Type} `{RL : RedisLaws DB} `{UT : UnicodeTables}.
Abbreviation CM := (M (world DB) (rerror cerr)).

(** One request to the relay, its response discarded. *)
Definition run_call (c : call) : CM () :=
  match c with
  | CallHeartbeat p hb => ignore (Heartbeat p hb)
  | CallListAgents p q => ignore (ListAgents p q)
  | CallCreate p input => ignore (CreateRequest_ p input)
  | CallGet p id => ignore (GetRequest p id)
  | CallInbox p => ignore (Inbox p)
  | CallDecide p id input => ignore (Decide p id input)
  | CallFetchExecution p id => ignore (FetchExecution p id)
  | CallInspect p id => ignore (InspectProposal p id)
  | CallMarkRunning p id claim => ignore (MarkRunning p id claim)
  | CallSubmit p id result => ignore (SubmitResult p id result)
  | CallCancel p id => ignore (Cancel p id)
  | CallFetchArtifact p id => ignore (FetchArtifact p id)
  | CallEvict org agents => ignore (evictPresence org agents)
  end.
Definition run_calls (l : list call) : CM () := mapM_ run_call l.

(** The principal of a creation, whose fresh identifiers must not collide. *)
Definition call_fresh (org0 id0 : string) (o : oracle) (c : call) : Prop :=
  match c with CallCreate p _ => fresh_for org0 id0 (p_OrganizationID p) o | _ => True end.

Lemma spec_ignore R `{!PreOrder R} o {A} (m : CM A) :
  spec R o (λ _ _, True) m (λ _ _ _, True) → spec R o (λ _ _, True) (ignore m) (λ _ _ _, True).
Proof.
  intros Hm. eapply (spec_bind R) with (Q := λ _ _ _, True); [|intros ?; by apply (spec_ret R)].
  eapply spec_post; [by apply (spec_attempt R)|done].
Qed.

Lemma spec_run_call org0 id0 o c :
  call_fresh org0 id0 o c → spec (life org0 id0) o (λ _ _, True) (run_call c) (λ _ _ _, True).
Proof.
  intros Hf. destruct c; apply spec_ignore; try apply _;
    lazymatch goal with
    | |- spec _ _ _ (CreateRequest_ _ _) _ => by apply spec_CreateRequest
    | _ => apply (spec_guar (life org0 id0));
      eauto using guar_Heartbeat, guar_ListAgents, guar_GetRequest, guar_Inbox, guar_Decide,
        guar_FetchExecution, guar_InspectProposal, guar_MarkRunning, guar_SubmitResult, guar_Cancel,
        guar_FetchArtifact, guar_evictPresence
    end.
Qed.

Lemma spec_run_calls org0 id0 o l :
  Forall (call_fresh org0 id0 o) l → spec (life org0 id0) o (λ _ _, True) (run_calls l) (λ _ _ _, True).
Proof.
  induction 1 as [|c l Hc _ IH]; [by apply (spec_ret (life org0 id0))|].
  eapply (spec_bind (life org0 id0)); [by apply spec_run_call|]. intros u. apply IH.
Qed.

(** ** What a successful transition did *)

(** The records a slot can hold after one of its records was [s]. *)
Definition descends (org id : string) (s : storedRequest) (d : DB) : Prop :=
  slot_evolves (Some (DStored s)) (r_get d (requestKey org id)).

Lemma descends_life org id s d d' : descends org id s d → life org id d d' → descends org id s d'.
Proof. unfold descends, life. intros ? ?. by etrans. Qed.
Lemma descends_record org id s d s' :
  descends org id s d → r_get d (requestKey org id) = Some (marshal s') → evolves s s'.
Proof. unfold descends. intros Hs Hget. rewrite Hget in Hs. destruct Hs as [|(s1 & [= ->] & ?)]; done. Qed.
Lemma record_descends org id s d : r_get d (requestKey org id) = Some (marshal s) → descends org id s d.
Proof. unfold descends. intros ->. reflexivity. Qed.

(** Reading the record outside a transaction. *)
Lemma spec_read_stored R `{!PreOrder R} org requestID o (P : DB → Prop) :
  let id := trim_space requestID in
  (∀ d d', R d d' → P d → P d') →
  spec R o (λ d _, P d) (readStoredRequest org requestID)
    (λ s d _, rq_RequestID (sr_Request s) = id ∧
       (∃ d1, P d1 ∧ r_get d1 (requestKey org id) = Some (marshal s) ∧ R d1 d) ∧ P d).
Proof.
  intros id HP. unfold readStoredRequest.
  eapply (spec_bind R) with (Q := λ raw d wt,
    (∃ d1, P d1 ∧ r_get d1 (requestKey org id) = raw ∧ R d1 d) ∧ P d).
  - apply (spec_read R); [by apply stable_closed|]. intros d wt Hp. split; [by exists d|done].
  - intros raw. destruct (raw ≫= unmarshal) as [s|] eqn:Hraw; [|apply (spec_throw R)].
    case_bool_decide as Hid; [|apply (spec_throw R)]. apply (spec_ret R).
    apply bind_Some in Hraw as (doc & -> & ->%unmarshal_Some). intros d wt (? & ?). done.
Qed.

Section one_request.
Context (p : Principal) (requestID : string).
Let org := p_OrganizationID p.
Let id := trim_space requestID.
Let L : relation DB := life org id.

(** [spec_transition] at the lifecycle relation. *)
Lemma spec_life_transition {X} o extra (update : storedRequest → CM (storedRequest * X)) Ψ Φ (P : DB → Prop) :
  (∀ d d', L d d' → P d → P d') →
  update_spec L o p requestID extra update Ψ Φ →
  (∀ s s' x, guarded (requestKey org id :: extra) (Φ s s' x)) →
  (∀ s s' x, Ψ s s' x → s' = s ∨ ∃ agent a, apply_action agent a s = Some s') →
  spec L o (λ d _, P d) (transitionStoredWatching p requestID extra update)
    (λ r d _, ∃ s s', transitioned L p requestID P Ψ Φ s s' r.2 r.1 d).
Proof.
  intros HP Hu Hg Ha. apply (spec_transition L o p requestID extra update P Ψ Φ); try done.
  intros d s s' x t _ Hrec Hs _ _ Hne. destruct (Ha _ _ _ Hs) as [->|(agent & a & Hact)]; [done|].
  by eapply life_commit.
Qed.

(** A committed record is the one stored afterwards. *)
Lemma transitioned_commit {X} (P : DB → Prop) Ψ Φ s s' (x : X) response d :
  transitioned L p requestID P Ψ Φ s s' x response d → s' ≠ s →
  ∃ t, r_get d (requestKey org id) = Some (marshal (sr_touch t s')) ∧ response = mutation (sr_Request (sr_touch t s')).
Proof.
  intros (_ & _ & [[-> _]|(_ & d1 & t & _ & _ & _ & _ & -> & ->)]) Hne; [done|].
  exists t. split; [|done]. apply get_transition_commands.
Qed.

(** *** Decisions *)

Definition decided (input : DecisionPayload) (s : storedRequest) : Prop :=
  sr_DecisionID s = dp_DecisionID input ∧ sr_Decision s = dp_Decision input ∧ sr_DecisionID s ≠ "".

Lemma spec_Decide o input (P : DB → Prop) :
  (∀ d d', L d d' → P d → P d') →
  spec L o (λ d _, P d) (Decide p requestID input) (λ response d _, ∃ s s',
    decision_ok (dp_DecisionID input) (dp_Decision input) = true ∧
    transitioned L p requestID P (decide_said o p input) (decide_effect o p input) s s' () response d).
Proof.
  intros HP. unfold Decide, refuse_if. apply (spec_reject_bind L). intros Hd.
  apply (spec_reject_bind L). intros Hid. orb_split.
  assert (decision_ok (dp_DecisionID input) (dp_Decision input) = true) as Hok.
  { unfold decision_ok. rewrite Hid, andb_true_r. by destruct (dp_Decision input). }
  eapply (spec_bind L).
  - apply spec_life_transition with (P := P) (Ψ := decide_said o p input) (Φ := decide_effect o p input); [done|..].
    + apply decide_update_spec; [apply _|done].
    + intros. apply guarded_decide_effect.
    + intros s s' x [[-> _]|(t & b & _ & Ha)]; eauto.
  - intros [response []]. apply (spec_ret L). intros d _ (s & s' & Ht). eauto.
Qed.

(** *** Execution claims *)

Definition claimed (claim : string) (s : storedRequest) : Prop :=
  sr_ExecutionClaimID s = claim ∧ (2 ≤ rank (rq_Status (sr_Request s)))%nat.

Lemma spec_MarkRunning o claim (P : DB → Prop) :
  (∀ d d', L d d' → P d → P d') →
  spec L o (λ d _, P d) (MarkRunning p requestID claim) (λ response d _, ∃ s s',
    transitioned L p requestID P (claim_said p claim) no_effect s s' () response d).
Proof.
  intros HP. unfold MarkRunning, refuse_if. apply (spec_reject_bind L). intros Hv. orb_split.
  eapply (spec_bind L).
  - apply spec_life_transition with (P := P) (Ψ := claim_said p claim) (Φ := no_effect); [done|..].
    + apply claim_update_spec; [apply _|done].
    + intros. apply guarded_no_effect.
    + intros s s' x [[-> _]|Ha]; eauto.
  - intros [response []]. apply (spec_ret L). intros d _ (s & s' & Ht). eauto.
Qed.

Lemma transitioned_claimed claim (P : DB → Prop) s s' response d :
  transitioned L p requestID P (claim_said p claim) no_effect s s' () response d →
  ∃ s1, claimed claim s1 ∧ descends org id s1 d.
Proof.
  intros Ht. pose proof Ht as (Hsaid & _ & Hcase). destruct Hsaid as [(Heq & _ & Hst & Hc)|Ha].
  - destruct Hcase as [(_ & _ & d1 & _ & Hrec & Hlife)|[Hne _]]; [|done].
    exists s. split; [split; [done|rewrite Hst; simpl; lia]|].
    eapply descends_life; [by apply record_descends|done].
  - assert (s' ≠ s) as Hne.
    { intros ->. assert (req_step s (sr_touch 0 s)) as Hstep by (exists (p_AgentID p), (ActClaim claim), s, 0; done).
      apply step_rank in Hstep. simpl in Hstep. lia. }
    destruct (transitioned_commit P _ _ _ _ _ _ _ Ht Hne) as (t & Hget & _).
    exists (sr_touch t s'). split; [|by apply record_descends].
    act_inv. simpl. split; [done|]. simpl. lia.
Qed.

(** *** Results *)

Definition resulted (result : ResultPayload) (s : storedRequest) : Prop :=
  exactResultReplay s result (digestResult result) = true.

Lemma resulted_spec result s :
  resulted result s ↔ rq_Status (sr_Request s) = rp_State result ∧
    sr_ExecutionClaimID s = rp_ExecutionClaimID result ∧ sr_ExecutionClaimID s ≠ "" ∧
    sr_ResultDigest s = digestResult result ∧ sr_ResultDigest s ≠ "".
Proof.
  unfold resulted, exactResultReplay. rewrite !andb_true_iff, bool_decide_eq_true, claim_matches_eq.
  fold (executionClaimMatches (sr_ResultDigest s) (digestResult result)). rewrite claim_matches_eq. tauto.
Qed.

Lemma digest_nonempty result : digestResult result ≠ "".
Proof.
  intros Heq. apply (f_equal String.length) in Heq. unfold digestResult, json_digest in Heq.
  by rewrite length_sha256_hex in Heq.
Qed.

Lemma transitioned_resulted result files (P : DB → Prop) s s' response d :
  (∀ d d', L d d' → P d → P d') →
  transitioned L p requestID P (result_said p result files) no_effect s s' () response d →
  ∃ s1 d1, P d1 ∧ r_get d1 (requestKey org id) = Some (marshal s1) ∧ L d1 d ∧ resulted result s1 ∧
        Terminal (rq_Status (sr_Request s1)) = true ∧ response = mutation (sr_Request s1).
Proof.
  intros HP Ht. pose proof Ht as (Hsaid & _ & Hcase). destruct Hsaid as [(Heq & _ & Hterm & Hr)|Ha].
  - destruct Hcase as [(_ & -> & d1 & ? & Hrec & Hlife)|[Hne _]]; [|done]. by exists s, d1.
  - assert (s' ≠ s) as Hne.
    { intros ->. assert (req_step s (sr_touch 0 s)) as Hstep by (exists (p_AgentID p), (ActResult result files), s, 0; done).
      apply step_rank in Hstep. simpl in Hstep. lia. }
    destruct (transitioned_commit P _ _ _ _ _ _ _ Ht Hne) as (t & Hget & ->).
    destruct Hcase as [[-> _]|(_ & d1 & t' & Hp & _ & _ & Hl & _)]; [done|].
    exists (sr_touch t s'), d. split; [by eapply HP|]. split; [done|]. split; [reflexivity|]. act_inv.
    match goal with H : executionClaimMatches _ _ = true |- _ => apply claim_matches_eq in H as [? ?] end.
    split; [apply resulted_spec; simpl; eauto using digest_nonempty|].
    split; [by apply result_state_terminal|done].
Qed.

Lemma spec_SubmitResult o result (P : DB → Prop) :
  (∀ d d', L d d' → P d → P d') →
  spec L o (λ d _, P d) (SubmitResult p requestID result) (λ response d _,
    is_ok (validate_result result) = true ∧
    ∃ s d1, P d1 ∧ r_get d1 (requestKey org id) = Some (marshal s) ∧ L d1 d ∧ resulted result s ∧
      Terminal (rq_Status (sr_Request s)) = true ∧ response = mutation (sr_Request s)).
Proof.
  intros HP. unfold SubmitResult, checked, refuse_if.
  apply (spec_lift_bind L). intros _ _. apply (spec_lift_bind L). intros u Hv.
  assert (is_ok (validate_result result) = true) as Hok by (by destruct (validate_result result)).
  cbv zeta. eapply (spec_bind L); [by apply (spec_read_stored L org requestID)|]. intros current.
  apply (spec_reject_bind L). intros _. destruct (Terminal _) eqn:Hterm.
  { destruct (exactResultReplay _ _ _) eqn:Hr; [|apply (spec_throw L)].
    apply (spec_ret L). intros d wt (_ & (d1 & Hp & Hget & Hlife) & _). split; [done|].
    by exists current, d1. }
  apply (spec_reject_bind L). intros _.
  eapply spec_pre with (P' := λ d _, P d); [|by intros d wt (_ & _ & ?)].
  eapply (spec_bind L) with (Q := λ prepared d _, length prepared = length (rp_ResultFiles result) ∧ P d).
  { apply (spec_fact L); [apply (spec_keep L); [apply prepare_guar|done]|].
    intros w w' prepared Hrun. apply prepare_loop_run in Hrun as [Hall _]; [|done].
    by apply Forall2_length in Hall. }
  intros prepared.
  eapply spec_pure with (φ := length prepared = length (rp_ResultFiles result)) (P' := λ d _, P d); [done|].
  intros Hlen. eapply (spec_bind L).
  { apply (spec_keep L); [apply guar_mapM_; [apply _|intros a; apply guar_harmless; by eapply harmless_kind; [apply key_artifact|]]|done]. }
  intros u0. eapply (spec_bind L) with (Q := λ r d _, ∃ s d1, P d1 ∧
      r_get d1 (requestKey org id) = Some (marshal s) ∧ L d1 d ∧ resulted result s ∧ Terminal (rq_Status (sr_Request s)) = true ∧ r.1 = mutation (sr_Request s)).
  { eapply spec_post.
    - apply spec_life_transition with (P := P) (Ψ := result_said p result prepared.*1) (Φ := no_effect); [done|..].
      + apply result_update_spec; [apply _|done|by rewrite length_fmap].
      + intros. apply guarded_no_effect.
      + intros s s' x [[-> _]|Ha]; eauto.
    - intros [response []] d _ (s & s' & Ht). by apply transitioned_resulted in Ht. }
  intros [response []]. eapply (spec_bind L) with (Q := λ _ d _, ∃ s d1, P d1 ∧
      r_get d1 (requestKey org id) = Some (marshal s) ∧ L d1 d ∧ resulted result s ∧ Terminal (rq_Status (sr_Request s)) = true ∧ response = mutation (sr_Request s)).
  { apply (spec_keep L); [apply guar_ignore; [apply _|]; apply guar_harmless; by eapply harmless_kind; [apply key_inbox|]|].
    intros d d' Hd (s & d1 & ? & ? & ? & ?). exists s, d1. repeat (split; [done|]). split; [by etrans|done]. }
  intros u'. apply (spec_ret L). intros d _ Hq. done.
Qed.

Lemma decision_ok_nonempty input :
  decision_ok (dp_DecisionID input) (dp_Decision input) = true → dp_DecisionID input ≠ "".
Proof. unfold decision_ok. intros H0. orb_split. by eapply valid_opaque_nonempty. Qed.

Lemma transitioned_decided o input (P : DB → Prop) s s' response d :
  decision_ok (dp_DecisionID input) (dp_Decision input) = true →
  transitioned L p requestID P (decide_said o p input) (decide_effect o p input) s s' () response d →
  ∃ s1, decided input s1 ∧ descends org id s1 d.
Proof.
  intros Hok Ht. pose proof Ht as (Hsaid & _ & Hcase). destruct Hsaid as [(Heq & Hid & Hd & Hne & _)|(t & b & _ & Ha)].
  - destruct Hcase as [(_ & _ & d1 & _ & Hrec & Hlife)|[Hne' _]]; [|done].
    exists s. split; [done|]. eapply descends_life; [by apply record_descends|done].
  - assert (s' ≠ s) as Hne.
    { intros ->. unfold apply_action in Ha. case_match; [|done]. orb_split. injection Ha as Ha.
      apply (f_equal sr_DecisionID) in Ha. simpl in Ha. by apply decision_ok_nonempty in Hok; congruence. }
    destruct (transitioned_commit P _ _ _ _ _ _ _ Ht Hne) as (t' & Hget & _).
    exists (sr_touch t' s'). split; [|by apply record_descends].
    act_inv. split; [done|]. split; [done|]. simpl. by apply decision_ok_nonempty.
Qed.
End one_request.

(** ** The theorems *)

(** C8. Refinement.  Whatever calls the relay serves, in whatever order, with
    whatever interference by other replicas that itself keeps to the lifecycle
    machine, with any pattern of failed commands and lost replies: the record
    of a request only ever moves along the machine's histories, or expires. *)
Theorem calls_refine_machine org0 id0 (l : list call) (w : world DB) :
  env_ok (life org0 id0) w → Forall (call_fresh org0 id0 (oracle_of w)) l →
  slot_evolves (r_get (w_db w) (requestKey org0 id0))
               (r_get (w_db (run_calls l w).1) (requestKey org0 id0)).
Proof. intros He Hl. by apply (spec_run_calls org0 id0 (oracle_of w) l Hl w). Qed.


(** C9. What never changes, and what can.  A well-formed record that is still
    stored after any calls under any interference is well formed: its status
    is backed by the decision, the claim and the outputs that status requires,
    and its version counts at most three changes.  Its creation data are
    untouched, and if it was final it is identical. *)
Theorem stored_record_invariant org0 id0 (l : list call) (w : world DB) s s' :
  env_ok (life org0 id0) w → Forall (call_fresh org0 id0 (oracle_of w)) l →
  r_get (w_db w) (requestKey org0 id0) = Some (marshal s) → sr_ok s = true →
  r_get (w_db (run_calls l w).1) (requestKey org0 id0) = Some (marshal s') →
  sr_ok s' = true ∧ frozen s' = frozen s ∧ rq_Version (sr_Request s') <= 4 ∧
  (Terminal (rq_Status (sr_Request s)) = true → s' = s).
Proof.
  intros He Hl Hget Hok Hget'.
  assert (evolves s s') as Hev.
  { eapply (descends_record org0 id0); [|exact Hget'].
    apply (descends_life org0 id0 s (w_db w)); [by apply record_descends|].
    by apply (spec_run_calls org0 id0 (oracle_of w) l Hl w). }
  assert (sr_ok s' = true) as Hok' by (by eapply evolves_ok). split_and!; [done| | |].
  - by apply evolves_frozen.
  - by apply sr_ok_version.
  - intros Hterm. by apply evolves_terminal in Hev.
Qed.

(** A recipient's decision.  A successful [Decide] acted on the record of
    the request as it was at one database [d] of the run, on which the caller
    was the request's target.  Either it replayed exactly the decision already
    stored, changing nothing; or the request was awaiting approval and
    undecided in [d], the last effect of the run is one atomic update of [d],
    and what it stores is that record with the decision and with the status the
    lifecycle prescribes for the clock reading [t] and for the requester's
    revocation at that very moment: in particular a request is accepted only
    for [allow_once], before the expiry, with the requester not revoked. *)
Theorem decide_correct p requestID input (w w' : world DB) response :
  let org := p_OrganizationID p in let id := trim_space requestID in
  env_ok (life org id) w → Decide p requestID input w = (w', inr response) →
  ∃ s d, life org id (w_db w) d ∧ life org id d (w_db w') ∧
    r_get d (requestKey org id) = Some (marshal s) ∧ rq_TargetAgentID (sr_Request s) = p_AgentID p ∧
    ((decided input s ∧ response = mutation (sr_Request s)) ∨
     (rq_Status (sr_Request s) = StatusAwaitingApproval ∧ sr_DecisionID s = "" ∧
      ∃ t t', clock_reading (oracle_of w) t ∧
        let status := decision_status (dp_Decision input) t (rq_ExpiresAt (sr_Request s))
          (r_sismember (w_db w') (revokedAgentsKey org) (rq_RequesterAgentID (sr_Request s))) in
        let s' := sr_touch t' (sr_set_decision (dp_DecisionID input) (dp_Decision input) status s) in
        w_db w' = r_exec_all (transition_commands (requestKey org id) s') d ∧
        r_get (w_db w') (requestKey org id) = Some (marshal s') ∧ response = mutation (sr_Request s'))).
Proof.
  intros org id He Hrun.
  destruct (spec_run (life org id) (λ d _, life org id (w_db w) d) (Decide p requestID input) _ w w' response
    (spec_Decide p requestID (oracle_of w) input (λ d, life org id (w_db w) d) (λ d d' H0 H1, transitivity H1 H0)) He) as [_ Hq];
    [reflexivity|done|].
  destruct Hq as (s & s' & Hok & Ht). pose proof Ht as (Hsaid & _ & [(-> & -> & d & Hp & Hrec & Hl)|(Hne & d & t' & Hp & Hrec & Heff & Hl & Hdb & Hresp)]).
  - destruct Hsaid as [(_ & Hid & Hd & Hne & Htarget)|(t & b & _ & Ha)].
    + exists s, d. split_and!; try done. left. by split_and!.
    + exfalso. unfold apply_action in Ha. case_match; [|done]. orb_split. injection Ha as Ha.
      apply (f_equal sr_DecisionID) in Ha. simpl in Ha. by apply decision_ok_nonempty in Hok; congruence.
  - destruct Heff as [->|(t & Hclock & Ha)]; [done|].
    exists s, d. unfold apply_action in Ha. case_match; [|done]. orb_split. injection Ha as <-.
    do 4 (split; [done|]). right. do 2 (split; [done|]). exists t, t'. split; [done|]. cbv zeta.
    rewrite Hdb, sismember_transition_commands, get_transition_commands; [done|].
    eapply key_kind_ne; [apply key_request|apply key_revoked|done].
Qed.

(** What one successful call says of the slot, as a fact that the lifecycle
    preserves: the form in which two calls are compared. *)
Lemma decide_observed p requestID input (w w' : world DB) response :
  let org := p_OrganizationID p in let id := trim_space requestID in
  env_ok (life org id) w → Decide p requestID input w = (w', inr response) →
  ∃ s, decided input s ∧ descends org id s (w_db w').
Proof.
  intros org id He Hrun. eapply (spec_run (life org id) (λ _ _, True)) in Hrun as [_ Hq];
    [|by apply (spec_Decide p requestID (oracle_of w) input (λ _, True))|done|done].
  destruct Hq as (s & s' & Hok & Ht). by eapply transitioned_decided.
Qed.
Lemma claim_observed p requestID claim (w w' : world DB) response :
  let org := p_OrganizationID p in let id := trim_space requestID in
  env_ok (life org id) w → MarkRunning p requestID claim w = (w', inr response) →
  ∃ s, claimed claim s ∧ descends org id s (w_db w').
Proof.
  intros org id He Hrun. eapply (spec_run (life org id) (λ _ _, True)) in Hrun as [_ Hq];
    [|by apply (spec_MarkRunning p requestID (oracle_of w) claim (λ _, True))|done|done].
  destruct Hq as (s & s' & Ht). by eapply transitioned_claimed.
Qed.
Lemma result_observed p requestID result (w w' : world DB) response :
  let org := p_OrganizationID p in let id := trim_space requestID in
  env_ok (life org id) w → SubmitResult p requestID result w = (w', inr response) →
  ∃ s, resulted result s ∧ Terminal (rq_Status (sr_Request s)) = true ∧
       descends org id s (w_db w') ∧ response = mutation (sr_Request s).
Proof.
  intros org id He Hrun. eapply (spec_run (life org id) (λ _ _, True)) in Hrun as [_ Hq];
    [|by apply (spec_SubmitResult p requestID (oracle_of w) result (λ _, True))|done|done].
  destruct Hq as (_ & s & d1 & _ & Hd & Hl & ? & ? & ?). exists s. split_and!; try done.
  eapply descends_life; [by apply record_descends|done].
Qed.

(** C10. One Allow Once, one execution.  Two execution claims that the relay
    grants for one request, at any two moments, by any two daemons, carry the
    same claim identifier. *)
Theorem claim_unique p1 p2 requestID1 requestID2 claim1 claim2 (w1 w1' w2 w2' : world DB) r1 r2 :
  let org := p_OrganizationID p1 in let id := trim_space requestID1 in
  p_OrganizationID p2 = org → trim_space requestID2 = id →
  env_ok (life org id) w1 → env_ok (life org id) w2 →
  MarkRunning p1 requestID1 claim1 w1 = (w1', inr r1) →
  life org id (w_db w1') (w_db w2) →
  MarkRunning p2 requestID2 claim2 w2 = (w2', inr r2) →
  claim1 = claim2.
Proof.
  intros org id Horg Hid He1 He2 Hrun1 Hlife Hrun2.
  apply claim_observed in Hrun1 as (s & [Hc Hr] & Hd); [|done]. subst org id.
  pose proof (descends_life _ _ _ _ _ Hd Hlife) as Hd2. rewrite <- Horg, <- Hid in Hd2, He2.
  eapply (spec_run (life _ _) (λ d _, descends (p_OrganizationID p2) (trim_space requestID2) s d)) in Hrun2 as [_ Hq];
    [|apply (spec_MarkRunning p2 requestID2 (oracle_of w2) claim2 (descends _ _ s));
      intros; by eapply descends_life|done|done].
  destruct Hq as (s1 & s2 & Hsaid & _ & Hcase).
  assert (∃ d, descends (p_OrganizationID p2) (trim_space requestID2) s d ∧
     r_get d (requestKey (p_OrganizationID p2) (trim_space requestID2)) = Some (marshal s1)) as (d & Hds & Hget).
  { destruct Hcase as [(_ & _ & d & ? & ? & _)|(_ & d & t & ? & ? & _)]; eauto. }
  pose proof (descends_record _ _ _ _ _ Hds Hget) as Hev.
  pose proof (evolves_claim _ _ Hev Hr) as Hsame.
  destruct Hsaid as [(_ & _ & _ & Hc2)|Ha]; [congruence|].
  exfalso. assert (rank (rq_Status (sr_Request s)) ≤ rank (rq_Status (sr_Request s1)))%nat as Hle.
  { clear -Hev. induction Hev as [|a b c Hs _ IH]; [lia|]. apply step_rank in Hs. lia. }
  unfold apply_action in Ha. case_match; [|done]. orb_split.
  match goal with H : rq_Status (sr_Request s1) = _ |- _ => rewrite H in Hle end. simpl in Hle. lia.
Qed.

(** One result.  Two results that the relay accepts for one request, at any
    two moments, have the same digest, final status and execution claim: a
    second acceptance is only ever an exact replay, and its answer is the
    first one's. *)
Theorem result_unique p1 p2 requestID1 requestID2 result1 result2 (w1 w1' w2 w2' : world DB) r1 r2 :
  let org := p_OrganizationID p1 in let id := trim_space requestID1 in
  p_OrganizationID p2 = org → trim_space requestID2 = id →
  env_ok (life org id) w1 → env_ok (life org id) w2 →
  SubmitResult p1 requestID1 result1 w1 = (w1', inr r1) →
  life org id (w_db w1') (w_db w2) →
  SubmitResult p2 requestID2 result2 w2 = (w2', inr r2) →
  digestResult result1 = digestResult result2 ∧ rp_State result1 = rp_State result2 ∧
  rp_ExecutionClaimID result1 = rp_ExecutionClaimID result2 ∧ r1 = r2.
Proof.
  intros org id Horg Hid He1 He2 Hrun1 Hlife Hrun2.
  apply result_observed in Hrun1 as (s & Hr & Hterm & Hd & ->); [|done]. subst org id.
  pose proof (descends_life _ _ _ _ _ Hd Hlife) as Hd2. rewrite <- Horg, <- Hid in Hd2, He2.
  eapply (spec_run (life _ _) (λ d _, descends (p_OrganizationID p2) (trim_space requestID2) s d)) in Hrun2 as [_ Hq];
    [|apply (spec_SubmitResult p2 requestID2 (oracle_of w2) result2 (descends _ _ s));
      intros; by eapply descends_life|done|done].
  destruct Hq as (_ & s2 & d & Hds & Hget & _ & Hr2 & Hterm2 & ->).
  pose proof (descends_record _ _ _ _ _ Hds Hget) as Hev. apply evolves_terminal in Hev as ->; [|done].
  apply resulted_spec in Hr as (? & ? & _ & ? & _), Hr2 as (? & ? & _ & ? & _). split_and!; congruence.
Qed.

(** One decision.  Two decisions that the relay acknowledges for one
    request, at any two moments, are the same decision with the same identity. *)
Theorem decision_unique p1 p2 requestID1 requestID2 input1 input2 (w1 w1' w2 w2' : world DB) r1 r2 :
  let org := p_OrganizationID p1 in let id := trim_space requestID1 in
  p_OrganizationID p2 = org → trim_space requestID2 = id →
  env_ok (life org id) w1 → env_ok (life org id) w2 →
  Decide p1 requestID1 input1 w1 = (w1', inr r1) →
  life org id (w_db w1') (w_db w2) →
  Decide p2 requestID2 input2 w2 = (w2', inr r2) →
  dp_DecisionID input1 = dp_DecisionID input2 ∧ dp_Decision input1 = dp_Decision input2.
Proof.
  intros org id Horg Hid He1 He2 Hrun1 Hlife Hrun2.
  apply decide_observed in Hrun1 as (s & (Hi & Hdec & Hne) & Hd); [|done]. subst org id.
  pose proof (descends_life _ _ _ _ _ Hd Hlife) as Hd2. rewrite <- Horg, <- Hid in Hd2, He2.
  eapply (spec_run (life _ _) (λ d _, descends (p_OrganizationID p2) (trim_space requestID2) s d)) in Hrun2 as [_ Hq];
    [|apply (spec_Decide p2 requestID2 (oracle_of w2) input2 (descends _ _ s));
      intros; by eapply descends_life|done|done].
  destruct Hq as (s1 & s2 & Hok & Hsaid & _ & Hcase).
  assert (∃ d, descends (p_OrganizationID p2) (trim_space requestID2) s d ∧
     r_get d (requestKey (p_OrganizationID p2) (trim_space requestID2)) = Some (marshal s1)) as (d & Hds & Hget).
  { destruct Hcase as [(_ & _ & d & ? & ? & _)|(_ & d & t & ? & ? & _)]; eauto. }
  pose proof (descends_record _ _ _ _ _ Hds Hget) as Hev.
  destruct (evolves_decision _ _ Hev Hne) as [Hsame Hsame'].
  destruct Hsaid as [(_ & Hi2 & Hd2' & _)|(t & b & _ & Ha)]; [split; congruence|].
  exfalso. unfold apply_action in Ha. case_match; [|done]. orb_split. congruence.
Qed.
End proofs.
