(* ===== verification/CollabAccess.v ===== *)
(** * Who may see a request, and what a creation stores

    Reads are stated against any preorder [R] that the interference respects:
    the record a caller is answered from was the stored one at some database
    between the start and the end of the call. *)

From stdpp Require Import relations.
From S2P Require Import Prelude GoString Sha256 Protocol Auth Records Json Redis RedisLogic MemRedis.
From S2P Require Import CollabStore CollabMachine CollabLifecycle CollabProofs.

Local Open Scope Z_scope.

Section reads.
Context {DB : Type} `{RL : RedisLaws DB} `{UT : UnicodeTables}.
Context (R : relation DB) `{!PreOrder R}.
Abbreviation CM := (M (world DB) (rerror cerr)).

Lemma spec_held_record o p requestID d0 :
  spec R o (λ d _, R d0 d) (readStoredRequest (p_OrganizationID p) requestID)
    (λ s d _, held R d0 d (requestKey (p_OrganizationID p) (trim_space requestID)) s ∧ R d0 d).
Proof.
  eapply spec_post; [apply (spec_read_stored R (p_OrganizationID p) requestID o (R d0)); intros ? ?; apply (from_closed R)|].
  intros s d _ (_ & (d1 & ? & ? & ?) & ?). split; [by exists d1|done].
Qed.

(** A guard, a pure fact and the end of a read-only handler. *)
Lemma spec_answer {A} o (a : A) (P : DB → option (list string * bool) → Prop) (φ : A → DB → Prop) :
  (∀ d wt, P d wt → φ a d) → spec R o P (mret a : CM A) (λ a d _, φ a d).
Proof. intros HP. by apply (spec_ret R). Qed.

Lemma spec_FetchExecution o p requestID d0 :
  spec R o (λ d _, R d0 d) (FetchExecution p requestID) (λ payload d _, ∃ s,
    held R d0 d (requestKey (p_OrganizationID p) (trim_space requestID)) s ∧
    rq_TargetAgentID (sr_Request s) = p_AgentID p ∧
    (rq_Status (sr_Request s) = StatusAccepted ∨ rq_Status (sr_Request s) = StatusRunning) ∧
    payload = execution_of s).
Proof.
  unfold FetchExecution, checked, refuse_if. apply (spec_lift_bind R). intros _ _.
  eapply (spec_bind R); [apply spec_held_record|]. intros s. cbv zeta.
  apply (spec_reject_bind R). intros Ht. apply (spec_reject_bind R). intros Hs.
  apply spec_answer with (φ := λ payload d, ∃ s, _). intros d wt [Hh _]. exists s. orb_split.
  split_and!; [done|done| |done].
  apply andb_false_iff in Hs as [Hs|Hs]; apply negb_false_iff, bool_decide_eq_true in Hs; auto.
Qed.

Lemma spec_GetRequest o p requestID d0 :
  spec R o (λ d _, R d0 d) (GetRequest p requestID) (λ r d _, ∃ s,
    held R d0 d (requestKey (p_OrganizationID p) (trim_space requestID)) s ∧
    (p_AgentID p = rq_RequesterAgentID (sr_Request s) ∨ p_AgentID p = rq_TargetAgentID (sr_Request s)) ∧
    r = rq_clear_prompt (sr_Request s)).
Proof.
  unfold GetRequest, checked, refuse_if. apply (spec_lift_bind R). intros _ _.
  eapply (spec_bind R); [apply spec_held_record|]. intros s.
  apply (spec_reject_bind R). intros Hs.
  apply spec_answer with (φ := λ r d, ∃ s, _). intros d wt [Hh _]. exists s.
  split_and!; [done| |done].
  apply andb_false_iff in Hs as [Hs|Hs]; apply negb_false_iff, bool_decide_eq_true in Hs; auto.
Qed.

Lemma spec_InspectProposal o p requestID d0 :
  spec R o (λ d _, R d0 d) (InspectProposal p requestID) (λ payload d _, ∃ s t,
    held R d0 d (requestKey (p_OrganizationID p) (trim_space requestID)) s ∧
    rq_TargetAgentID (sr_Request s) = p_AgentID p ∧
    rq_Status (sr_Request s) = StatusAwaitingApproval ∧
    clock_reading o t ∧ t < rq_ExpiresAt (sr_Request s) ∧ payload = proposal_of s).
Proof.
  unfold InspectProposal, checked, refuse_if. apply (spec_lift_bind R). intros _ _.
  eapply (spec_bind R); [apply spec_held_record|]. intros s. cbv zeta.
  apply (spec_reject_bind R). intros Ht. apply (spec_reject_bind R). intros Hs.
  eapply (spec_bind R); [apply (spec_now R)|]. intros t. apply (spec_reject_bind R). intros He.
  apply spec_answer with (φ := λ payload d, ∃ s t, _). intros d wt [Hc [Hh _]]. exists s, t. orb_split.
  split_and!; try done. by apply Z.ltb_lt.
Qed.

Lemma spec_FetchArtifact o p artifactID d0 :
  spec R o (λ d _, R d0 d) (FetchArtifact p artifactID) (λ content d _, ∃ a s,
    held R d0 d (artifactKey (p_OrganizationID p) (trim_space artifactID)) a ∧
    held R d0 d (requestKey (p_OrganizationID p) (trim_space (sa_RequestID a))) s ∧
    content = mkArtifactContent (sa_Descriptor a) (sa_Encoding a) (sa_ContentBase64 a) ∧
    let id := ad_ArtifactID (sa_Descriptor a) in let r := sr_Request s in
    ((sa_Direction a = "input" ∧ sa_TargetAgentID a = p_AgentID p ∧ rq_TargetAgentID r = p_AgentID p ∧
      (rq_Status r = StatusAccepted ∨ rq_Status r = StatusRunning) ∧
      containsArtifact (rq_Attachments r) id = true) ∨
     (sa_Direction a = "result" ∧ sa_RequesterAgentID a = p_AgentID p ∧ rq_RequesterAgentID r = p_AgentID p ∧
      rq_Status r = StatusCompleted ∧ containsArtifact (rq_ResultFiles r) id = true))).
Proof.
  unfold FetchArtifact, checked, refuse_if. apply (spec_lift_bind R). intros _ _. cbv zeta.
  eapply (spec_bind R) with (Q := λ raw d _, (∃ d1, R d0 d1 ∧ R d1 d ∧
      r_get d1 (artifactKey (p_OrganizationID p) (trim_space artifactID)) = raw) ∧ R d0 d).
  { apply (spec_read R); [apply stable_closed; intros ? ?; apply (from_closed R)|].
    intros d wt Hd. split; [exists d; by split_and!|done]. }
  intros raw. destruct (raw ≫= unmarshal) as [a|] eqn:Hraw; [|apply (spec_throw R)].
  apply bind_Some in Hraw as (doc & -> & ->%unmarshal_Some).
  eapply (spec_bind R) with (Q := λ s d _,
     held R d0 d (artifactKey (p_OrganizationID p) (trim_space artifactID)) a ∧
     held R d0 d (requestKey (p_OrganizationID p) (trim_space (sa_RequestID a))) s).
  { eapply spec_conseq with (P' := λ d _, (held R d0 d (artifactKey (p_OrganizationID p) (trim_space artifactID)) a ∧ R d0 d)).
    - apply (spec_read_stored R (p_OrganizationID p) (sa_RequestID a) o (λ d, held R d0 d (artifactKey (p_OrganizationID p) (trim_space artifactID)) a ∧ R d0 d)). intros d d' Hd [Hh Hr].
      split; [by eapply held_weaken|by etrans].
    - intros d wt [(d1 & ? & ? & ?) ?]. split; [by exists d1|done].
    - intros s d wt (_ & (d1 & [_ ?] & ? & ?) & [? ?]). split; [done|]. by exists d1. }
  intros s. cbv zeta. destruct (bool_decide (sa_Direction a = "input")) eqn:Hdir.
  - apply (spec_reject_bind R). intros H1. apply (spec_reject_bind R). intros H2. orb_split.
    apply spec_answer with (φ := λ content d, ∃ a s, _). intros d wt [Ha Hs].
    exists a, s. split_and!; try done. left. split_and!; try done.
    match goal with H : _ && _ = false |- _ => apply andb_false_iff in H as [H|H] end; orb_split; auto.
  - destruct (bool_decide (sa_Direction a = "result")) eqn:Hdir2; [|apply (spec_throw R)].
    apply (spec_reject_bind R). intros H1. apply (spec_reject_bind R). intros H2. orb_split.
    apply spec_answer with (φ := λ content d, ∃ a s, _). intros d wt [Ha Hs].
    exists a, s. split_and!; try done. right. by split_and!.
Qed.

(** Who may see a request.  [GetRequest] answers only the two agents of the
    request, from a record that was stored during the call, and never with the
    prompt. *)
Theorem get_request_access p requestID (w w' : world DB) r :
  env_ok R w → GetRequest p requestID w = (w', inr r) →
  ∃ s, held R (w_db w) (w_db w') (requestKey (p_OrganizationID p) (trim_space requestID)) s ∧
    (p_AgentID p = rq_RequesterAgentID (sr_Request s) ∨ p_AgentID p = rq_TargetAgentID (sr_Request s)) ∧
    r = rq_clear_prompt (sr_Request s) ∧ rq_Prompt r = "".
Proof.
  intros He Hrun. eapply (spec_run R) in Hrun as [_ Hq]; [|apply spec_GetRequest with (d0 := w_db w)|done|cbn beta; reflexivity].
  destruct Hq as (s & ? & ? & ->). by exists s.
Qed.

(** Who may fetch an artifact.  An input file goes only to the target of an
    accepted or running request that lists it; a result file only to the
    requester of a completed request that lists it. *)
Theorem fetch_artifact_access p artifactID (w w' : world DB) content :
  env_ok R w → FetchArtifact p artifactID w = (w', inr content) →
  ∃ a s, held R (w_db w) (w_db w') (artifactKey (p_OrganizationID p) (trim_space artifactID)) a ∧
    held R (w_db w) (w_db w') (requestKey (p_OrganizationID p) (trim_space (sa_RequestID a))) s ∧
    content = mkArtifactContent (sa_Descriptor a) (sa_Encoding a) (sa_ContentBase64 a) ∧
    let id := ad_ArtifactID (sa_Descriptor a) in let r := sr_Request s in
    ((sa_Direction a = "input" ∧ sa_TargetAgentID a = p_AgentID p ∧ rq_TargetAgentID r = p_AgentID p ∧
      (rq_Status r = StatusAccepted ∨ rq_Status r = StatusRunning) ∧
      containsArtifact (rq_Attachments r) id = true) ∨
     (sa_Direction a = "result" ∧ sa_RequesterAgentID a = p_AgentID p ∧ rq_RequesterAgentID r = p_AgentID p ∧
      rq_Status r = StatusCompleted ∧ containsArtifact (rq_ResultFiles r) id = true)).
Proof.
  intros He Hrun. eapply (spec_run R) in Hrun as [_ Hq]; [exact Hq|apply spec_FetchArtifact with (d0 := w_db w)|done|cbn beta; reflexivity].
Qed.
End reads.

(** ** Consent before execution *)

Section consent.
Context {DB : Type} `{RL : RedisLaws DB} `{UT : UnicodeTables}.

(** C11. Consent.  The prompt is handed out for execution only to the request's
    target, and only for a request on which that target's Allow Once decision
    is recorded. *)
Theorem execution_needs_consent p requestID (w w' : world DB) payload :
  let org := p_OrganizationID p in let id := trim_space requestID in
  env_ok (life org id) w →
  (∀ s, r_get (w_db w) (requestKey org id) = Some (marshal s) → sr_ok s = true) →
  FetchExecution p requestID w = (w', inr payload) →
  ∃ s, held (life org id) (w_db w) (w_db w') (requestKey org id) s ∧ payload = execution_of s ∧
    rq_TargetAgentID (sr_Request s) = p_AgentID p ∧ allowed_once s = true.
Proof.
  intros org id He Hok Hrun.
  eapply (spec_run (life org id)) in Hrun as [_ Hq]; [|apply spec_FetchExecution with (d0 := w_db w); apply _|done|cbn beta; reflexivity].
  destruct Hq as (s & Hheld & Ht & Hst & ->). exists s. split_and!; try done.
  assert (sr_ok s = true) as Hs.
  { destruct Hheld as (d1 & Hl & _ & Hget). fold org id in Hget. unfold life in Hl. rewrite Hget in Hl.
    destruct (r_get (w_db w) (requestKey org id)) as [[]|] eqn:Hstart; simpl in Hl; try naive_solver.
    destruct Hl as [|(s' & [= <-] & Hev)]; [done|]. eapply evolves_ok; [exact Hev|]. by apply Hok. }
  unfold sr_ok in Hs. destruct Hst as [Hst|Hst]; rewrite Hst in Hs; orb_split; done.
Qed.
End consent.
