(* ===== verification/CollabCreate.v ===== *)
(** * Creation of requests, presence and the directory

    What [CreateRequest] stores and answers, its idempotency, the binding of a
    heartbeat to its credential, and the contents of the agent directory. *)

From stdpp Require Import relations.
From S2P Require Import Prelude GoString Sha256 Protocol Auth Records Json Redis RedisLogic MemRedis.
From S2P Require Import CollabStore CollabMachine CollabLifecycle CollabProofs CollabAccess.

Local Open Scope Z_scope.

Section creation.
Context {DB : Type} `{RL : RedisLaws DB} `{UT : UnicodeTables}.
Context (R : relation DB) `{!PreOrder R}.
Abbreviation CM := (M (world DB) (rerror cerr)).

Lemma spec_readAgent o org agent d0 (P : DB → Prop) :
  (∀ d d', R d d' → P d → P d') → (∀ d, P d → R d0 d) →
  spec R o (λ d _, P d) (readAgent org agent : CM _) (λ card d _,
    (held R d0 d (agentKey org agent) card ∧ card_AgentID card = agent ∧
     ∃ d1, R d0 d1 ∧ R d1 d ∧ r_sismember d1 (revokedAgentsKey org) agent = false) ∧ P d).
Proof.
  intros HP Hd0. unfold readAgent.
  eapply (spec_bind R) with (Q := λ b d _, (∃ d1, R d0 d1 ∧ R d1 d ∧
    r_sismember d1 (revokedAgentsKey org) agent = b) ∧ P d).
  { apply (spec_read R); [by apply stable_closed|].
    intros d wt Hp. split; [|done]. exists d. split_and!; eauto. reflexivity. }
  intros [|]; [apply (spec_throw R)|].
  eapply (spec_bind R).
  { apply (spec_get_held R) with (d0 := d0); [|by intros d [_ ?%Hd0]].
    intros d d' Hd [(d1 & ? & ? & ?) ?]. split; [exists d1; split_and!; [done|by etrans|done]|eauto]. }
  intros raw. destruct (raw ≫= unmarshal) as [card|] eqn:Hraw; [|apply (spec_throw R)].
  apply bind_Some in Hraw as (doc & -> & ->%unmarshal_Some).
  case_bool_decide; [|apply (spec_throw R)]. apply (spec_ret R).
  intros d wt [(d1 & ? & ? & ?) [? ?]]. split_and!; try done. by exists d1.
Qed.

Lemma spec_existing_request o org digest raw d0 (P : DB → Prop) :
  (∀ d d', R d d' → P d → P d') → (∀ d, P d → R d0 d) →
  spec R o (λ d _, P d) (existing_request org digest raw : CM _) (λ previous d _,
    (∃ rec s, raw = marshal rec ∧ id_Digest rec = digest ∧
      held R d0 d (requestKey org (trim_space (id_RequestID rec))) s ∧ previous = sr_Request s) ∧ P d).
Proof.
  intros HP Hd0. unfold existing_request, refuse_if.
  destruct (unmarshal raw) as [rec|] eqn:Hraw; [|apply (spec_throw R)]. apply unmarshal_Some in Hraw as ->.
  apply (spec_reject_bind R). intros Hdigest. orb_split.
  eapply (spec_bind R) with (Q := λ s d _, held R d0 d (requestKey org (trim_space (id_RequestID rec))) s ∧ P d).
  - eapply spec_post; [apply (spec_read_stored R org (id_RequestID rec) o P HP)|].
    intros s d _ (_ & (d1 & Hp & ? & ?) & ?). split; [|done]. exists d1. split_and!; auto.
  - intros s. apply (spec_ret R). intros d wt [? ?]. split; [|done]. exists rec, s. by split_and!.
Qed.

(** *** The outcomes of a creation *)

Section outcomes.
Context (o : oracle) (p : Principal) (input : CreateRequest) (d0 : DB).
Let org := p_OrganizationID p.
Let agent := p_AgentID p.
Let idemKey := idempotencyKey org agent (cr_IdempotencyKey input).

(** An earlier creation under the same key and with the same content. *)
Definition replayed_as (previous : Request) (d : DB) : Prop :=
  ∃ rec s, held R d0 d idemKey rec ∧ id_Digest rec = requestDigest input ∧
    held R d0 d (requestKey org (trim_space (id_RequestID rec))) s ∧ previous = sr_Request s.

(** The conversation is new and the caller's, or a stored one of the caller. *)
Definition conversation_for (conv : conversation) (d : DB) : Prop :=
  (trim_space (cr_ConversationID input) = "" ∧
   ∃ r, conv = mkConversation ("conv_" +:+ hex_encode r) org agent (trim_space (cr_TargetAgentID input))) ∨
  (trim_space (cr_ConversationID input) ≠ "" ∧
   held R d0 d (conversationKey org (trim_space (cr_ConversationID input))) conv ∧
   cv_OrganizationID conv = org ∧ cv_RequesterAgentID conv = agent ∧
   (cr_TargetAgentID input = "" ∨ trim_space (cr_TargetAgentID input) = cv_TargetAgentID conv)).

Record admitted (conv : conversation) (target requester : AgentCard) (d : DB) : Prop := mkAdmitted {
  adm_conversation : conversation_for conv d;
  adm_not_self : cv_TargetAgentID conv ≠ agent;
  adm_target : held R d0 d (agentKey org (cv_TargetAgentID conv)) target;
  adm_other_member : card_MemberID target ≠ p_MemberID p;
  adm_accepting : card_AcceptingRequests target = true;
  adm_requester : held R d0 d (agentKey org agent) requester }.

Lemma replayed_closed r d d' : R d d' → replayed_as r d → replayed_as r d'.
Proof.
  intros Hd (rec & s & H1 & ? & H2 & ?). exists rec, s.
  split_and!; [by eapply held_weaken|done|by eapply held_weaken|done].
Qed.
Lemma conversation_closed c d d' : R d d' → conversation_for c d → conversation_for c d'.
Proof.
  intros Hd [?|(? & Hh & ?)]; [by left|right]. split; [done|]. split; [by eapply held_weaken|done].
Qed.
Lemma admitted_closed c tg rq d d' : R d d' → admitted c tg rq d → admitted c tg rq d'.
Proof.
  intros Hd [? ? ? ? ? ?]. split; eauto using held_weaken, conversation_closed.
Qed.

Lemma spec_create_conversation (P : DB → Prop) :
  (∀ d d', R d d' → P d → P d') → (∀ d, P d → R d0 d) →
  spec R o (λ d _, P d) (create_conversation p input : CM _) (λ conv d _, conversation_for conv d ∧ P d).
Proof.
  intros HP Hd0. unfold create_conversation, refuse_if.
  destruct (bool_decide (trim_space (cr_ConversationID input) = "")) eqn:Hc; orb_split.
  - eapply (spec_bind R); [apply (spec_randomID R)|]. intros id. apply (spec_ret R).
    intros d wt [(r & _ & ->) ?]. split; [left|done]. split; [done|]. by exists r.
  - eapply (spec_bind R) with (Q := λ conv d _,
      (held R d0 d (conversationKey org (trim_space (cr_ConversationID input))) conv ∧
       cv_OrganizationID conv = org) ∧ P d).
    + unfold readConversation. eapply (spec_bind R); [by apply (spec_get_held R) with (d0 := d0)|].
      intros raw. destruct (raw ≫= unmarshal) as [conv|] eqn:Hraw; [|apply (spec_throw R)].
      apply bind_Some in Hraw as (doc & -> & ->%unmarshal_Some).
      destruct (_ && _) eqn:Hok; [|apply (spec_throw R)]. orb_split. apply (spec_ret R).
      intros d wt [(d1 & ? & ? & ?) ?]. split; [split; [by exists d1|done]|done].
    + intros conv. apply (spec_reject_bind R). intros Hreq. apply (spec_reject_bind R). intros Htgt. orb_split.
      apply (spec_ret R). intros d wt [[? ?] ?]. split; [right|done]. split_and!; try done.
      apply andb_false_iff in Htgt as [Ht|Ht]; orb_split; auto.
Qed.

(** The transaction, given what was checked before it. *)
Lemma spec_create_commit (P : DB → Prop) cmds :
  cmds ≠ [] → (∀ d d', R d d' → P d → P d') → (∀ d, P d → R d0 d) →
  (∀ d, P d → r_get d idemKey = None → R d (r_exec_all cmds d)) →
  spec R o (λ d _, P d) (retrying 5 (redis_watch [idemKey] (create_body org idemKey (requestDigest input) cmds)) : CM _)
    (λ outcome d _, match outcome with
       | Some previous => replayed_as previous d
       | None => ∃ d1, P d1 ∧ r_get d1 idemKey = None ∧ d = r_exec_all cmds d1
       end).
Proof.
  intros Hne HP Hd0 Hcommit. apply (spec_retrying R); [eauto|]. eapply spec_post.
  { apply (spec_watch R) with (Q := λ outcome d, match outcome with
       | Some previous => replayed_as previous d
       | None => ∃ d1, P d1 ∧ r_get d1 idemKey = None ∧ d = r_exec_all cmds d1 end); [eauto|].
    unfold create_body. eapply (spec_bind R) with (Q := λ raw d wt,
      ((∃ d1, R d0 d1 ∧ R d1 d ∧ r_get d1 idemKey = raw) ∧ P d) ∧ Sees [idemKey] (λ d, r_get d idemKey = raw) d wt).
    - apply (spec_read R); [apply stable_and; [by apply stable_closed|apply stable_Sees, guarded_const]|].
      intros d wt [Hp (b & -> & _)]. split; [split; [|done]|by exists b]. exists d. split_and!; eauto. reflexivity.
    - intros [raw|].
      + eapply (spec_bind R) with (Q := λ previous d _, replayed_as previous d);
          [|intros previous; by apply (spec_ret R)].
        eapply spec_conseq with (P' := λ d _, (∃ d1, R d0 d1 ∧ R d1 d ∧ r_get d1 idemKey = Some raw) ∧ P d).
        * apply spec_existing_request with (d0 := d0); [|by intros d [_ ?%Hd0]].
          intros d d' Hd [(d1 & ? & ? & ?) ?]. split; [exists d1; split_and!; [done|by etrans|done]|eauto].
        * by intros d wt [? _].
        * intros previous d wt [(rec & s & -> & ? & ? & ?) [(d1 & ? & ? & ?) _]].
          exists rec, s. split_and!; try done. by exists d1.
      + eapply (spec_bind R) with (Q := λ _ d _, ∃ d1, P d1 ∧ r_get d1 idemKey = None ∧ d = r_exec_all cmds d1);
          [|intros u; by apply (spec_ret R)].
        eapply spec_conseq; [apply (spec_tx_sees R o [idemKey] cmds (λ d _, P d) (λ d, r_get d idemKey = None))|..].
        * done.
        * by apply stable_closed.
        * apply (guarded_get _ idemKey (λ x, x = None)). by left.
        * intros d _ Hp Hn. by apply Hcommit.
        * by intros d wt [[_ ?] ?].
        * intros u d wt (_ & d1 & _ & ? & ? & ->). by exists d1. }
  by intros [] d wt [? _].
Qed.

(** The record and the transaction of a fresh creation. *)
Definition initial_record (requestID : string) (conv : conversation) (requester : AgentCard)
    (descriptors : list ArtifactDescriptor) (t : time) : storedRequest :=
  mkStoredRequest (new_request p input requestID conv requester descriptors t) (cr_Prompt input) idemKey
    "" DecisionNone "" "".
Definition creation_commands requestID conv requester (prepared : list (ArtifactDescriptor * storedArtifact)) t :=
  create_commands org idemKey (initial_record requestID conv requester prepared.*1 t) conv
    (bool_decide (trim_space (cr_ConversationID input) = ""))
    (mkIdempotencyRecord requestID (requestDigest input)) prepared.*2.

Definition created_as (request : Request) (d : DB) : Prop :=
  ∃ conv target requester requestID prepared t d1,
    R d0 d1 ∧ r_get d1 idemKey = None ∧ admitted conv target requester d1 ∧ clock_reading o t ∧
    Forall2 (prepared_from requestID agent (cv_TargetAgentID conv) "input") (cr_Attachments input) prepared ∧
    d = r_exec_all (creation_commands requestID conv requester prepared t) d1 ∧
    request = sr_Request (initial_record requestID conv requester prepared.*1 t).

Lemma admitted_keep {A} (m : CM A) conv target requester :
  guar (WR R) m →
  spec R o (λ d _, admitted conv target requester d ∧ R d0 d) m (λ _ d _, admitted conv target requester d ∧ R d0 d).
Proof.
  intros Hm. apply (spec_keep R _ (λ d, admitted conv target requester d ∧ R d0 d)); [done|].
  intros d d' Hd [? ?]. split; [by eapply admitted_closed|by etrans].
Qed.

Lemma prepare_respects requestID requester target direction seen total inputs :
  guar (WR R) (prepare_loop requestID requester target direction seen total inputs : CM _).
Proof. revert seen total. induction inputs; intros seen total; cbn [prepare_loop]; unfold refuse_if; guar_auto. Qed.

Lemma spec_create_fresh conv target requester :
  (∀ d requestID prepared t, r_get d idemKey = None →
     R d (r_exec_all (creation_commands requestID conv requester prepared t) d)) →
  spec R o (λ d _, admitted conv target requester d ∧ R d0 d)
    (t ← now;
     requestID ← randomID "req_";
     prepared ← prepareArtifacts (cr_Attachments input) requestID agent (cv_TargetAgentID conv) "input";
     outcome ← retrying 5 (redis_watch [idemKey] (create_body org idemKey (requestDigest input)
                 (creation_commands requestID conv requester prepared t)));
     match outcome with
     | Some previous => mret (mutation previous, notice previous, false)
     | None => mret (mutation (new_request p input requestID conv requester prepared.*1 t),
                     notice (new_request p input requestID conv requester prepared.*1 t), true)
     end : CM _)
    (λ r d _, ∃ request, r.1 = (mutation request, notice request) ∧
       if r.2 then created_as request d else replayed_as request d).
Proof.
  intros Hcommit. eapply (spec_bind R); [apply (spec_now R)|]. intros t.
  eapply spec_pure with (φ := clock_reading o t) (P' := λ d _, admitted conv target requester d ∧ R d0 d); [done|].
  intros Ht. eapply (spec_bind R); [apply admitted_keep, (guar_randomID R)|]. intros requestID.
  eapply (spec_bind R).
  { apply (spec_fact R) with (φ := λ prepared, Forall2 (prepared_from requestID agent (cv_TargetAgentID conv) "input")
      (cr_Attachments input) prepared).
    - apply admitted_keep, prepare_respects.
    - intros w w' prepared Hrun. by apply prepare_loop_run in Hrun as [? _]. }
  intros prepared. eapply spec_pure with (P' := λ d _, admitted conv target requester d ∧ R d0 d);
    [by intros d wt [Hprep ?]; split; [exact Hprep|]|]. intros Hprep.
  eapply (spec_bind R).
  { apply (spec_create_commit (λ d, admitted conv target requester d ∧ R d0 d)); [done| |by intros d []|by intros d []; auto].
    intros d d' Hd [? ?]. split; [by eapply admitted_closed|by etrans]. }
  intros [previous|]; apply (spec_ret R); intros d wt Hq.
  - by exists previous.
  - destruct Hq as (d1 & [Hadm Hd1] & Hnone & ->). eexists; split; [done|].
    exists conv, target, requester, requestID, prepared, t, d1. by split_and!.
Qed.

Lemma spec_CreateRequest_outcome :
  (∀ d requestID conv requester prepared t, r_get d idemKey = None →
     R d (r_exec_all (creation_commands requestID conv requester prepared t) d)) →
  spec R o (λ d _, R d0 d) (CreateRequest_ p input)
    (λ r d _, ∃ request, r.1 = (mutation request, notice request) ∧
       if r.2 then created_as request d else replayed_as request d).
Proof.
  intros Hcommit. unfold CreateRequest_, checked, refuse_if.
  apply (spec_lift_bind R). intros _ _. apply (spec_lift_bind R). intros _ _. cbv zeta. fold org agent.
  fold idemKey.
  eapply (spec_bind R); [apply (spec_get_held R) with (d0 := d0) (P := R d0); [intros d d' ? ?; by etrans|done]|].
  intros [raw|].
  { eapply (spec_bind R) with (Q := λ previous d _, replayed_as previous d).
    - eapply spec_conseq with (P' := λ d _, (∃ d1, R d0 d1 ∧ R d1 d ∧ r_get d1 idemKey = Some raw) ∧ R d0 d).
      + apply spec_existing_request with (d0 := d0); [|by intros d [_ ?]].
        intros d d' Hd [(d1 & ? & ? & ?) ?]. split; [exists d1; split_and!; [done|by etrans|done]|by etrans].
      + done.
      + intros previous d wt [(rec & s & -> & ? & ? & ?) [(d1 & ? & ? & ?) _]].
        exists rec, s. split_and!; try done. by exists d1.
    - intros previous. apply (spec_ret R). intros d wt Hr. by exists previous. }
  eapply spec_pre with (P' := λ d _, R d0 d); [|by intros d wt [_ ?]].
  eapply (spec_bind R); [apply spec_create_conversation; [intros d d' ? ?; by etrans|done]|]. intros conv.
  apply (spec_reject_bind R). intros Hself.
  eapply (spec_bind R).
  { apply spec_readAgent with (d0 := d0); [|by intros d [_ ?]].
    intros d d' ? [? ?]. split; [by eapply conversation_closed|by etrans]. }
  intros target. apply (spec_reject_bind R). intros Hmember. apply (spec_reject_bind R). intros Hacc.
  eapply (spec_bind R).
  { eapply spec_pre with (P' := λ d _, (held R d0 d (agentKey org (cv_TargetAgentID conv)) target ∧
        conversation_for conv d) ∧ R d0 d); [|by intros d wt ((? & _) & ? & ?)].
    apply spec_readAgent with (d0 := d0); [|by intros d [_ ?]].
    intros d d' ? [[? ?] ?]. split; [split; [by eapply held_weaken|by eapply conversation_closed]|by etrans]. }
  intros requester. orb_split.
  eapply spec_pre; [apply (spec_create_fresh conv target requester); auto|].
  intros d wt ((Hreq & _) & [Htgt Hconv] & Hd). split; [by split|done].
Qed.
End outcomes.

(** C12. Creation.  A successful [CreateRequest] either answers with an earlier
    request that the same caller created under the same idempotency key with
    the same content, or it created the request itself: then the last effect of
    the run is one transaction, on a database without that key, storing the
    initial record; the target was stored as present and accepting, belongs to
    another member and is not the caller, and the conversation is the caller's. *)
Theorem create_request_correct p input (w w' : world DB) response n created :
  let org := p_OrganizationID p in
  let idemKey := idempotencyKey org (p_AgentID p) (cr_IdempotencyKey input) in
  env_ok R w →
  (∀ d requestID conv requester prepared t, r_get d idemKey = None →
     R d (r_exec_all (creation_commands p input requestID conv requester prepared t) d)) →
  CreateRequest_ p input w = (w', inr (response, n, created)) →
  ∃ request, response = mutation request ∧ n = notice request ∧
    if created then created_as (oracle_of w) p input (w_db w) request (w_db w')
    else replayed_as p input (w_db w) request (w_db w').
Proof.
  intros org idemKey He Hcommit Hrun.
  eapply (spec_run R) in Hrun as [_ Hq];
    [|apply spec_CreateRequest_outcome with (d0 := w_db w); done|done|cbn beta; reflexivity].
  destruct Hq as (request & [= -> ->] & Hq). by exists request.
Qed.
End creation.

(** ** What a creation leaves behind *)

Section stored.
Context {DB : Type} `{RL : RedisLaws DB} `{UT : UnicodeTables}.

Ltac other_key := simpl; eapply key_kind_ne; [eauto with keys..|done].

Lemma create_commands_get org idemKey stored conv b idem artifacts (d : DB) :
  collab_key_of KIdempotency idemKey →
  let d' := r_exec_all (create_commands org idemKey stored conv b idem artifacts) d in
  r_get d' (requestKey org (rq_RequestID (sr_Request stored))) = Some (marshal stored) ∧
  r_get d' idemKey = Some (marshal idem).
Proof.
  intros Hidem. unfold create_commands.
  cbv zeta. rewrite r_exec_all_app. set (rest := _ ++ _).
  rewrite r_exec_all_cons, (r_exec_all_cons (CSet idemKey _ _)).
  assert (∀ kind k, collab_key_of kind k → kind ≠ KConversation → kind ≠ KArtifact →
    Forall (λ c, cmd_key c ≠ k) rest) as Hrest.
  { intros kind k Hk H1 H2. unfold rest. apply Forall_app; split.
    - destruct b; repeat constructor. simpl. eapply key_kind_ne; [apply key_conversation|exact Hk|congruence].
    - apply Forall_fmap, Forall_forall. intros a _. simpl. eapply key_kind_ne; [apply key_artifact|exact Hk|congruence]. }
  assert (∀ kind k, collab_key_of kind k → kind ≠ KInbox → Forall (λ c, cmd_key c ≠ k)
    [CSAdd (inboxKey org (cv_TargetAgentID conv)) (rq_RequestID (sr_Request stored));
     CExpire (inboxKey org (cv_TargetAgentID conv)) requestRetention]) as Hinbox.
  { intros kind k Hk H1. repeat constructor; simpl; (eapply key_kind_ne; [apply key_inbox|exact Hk|congruence]). }
  split.
  - rewrite get_other_all by (by eapply Hrest; [apply key_request|..]).
    rewrite get_other_all by (by eapply Hinbox; [apply key_request|]).
    rewrite get_other by (eapply key_kind_ne; [exact Hidem|apply key_request|done]). by apply get_set.
  - rewrite get_other_all by (by eapply Hrest; [exact Hidem|..]).
    rewrite get_other_all by (by eapply Hinbox; [exact Hidem|]). by apply get_set.
Qed.

Lemma initial_record_ok p input requestID conv requester descriptors t :
  sr_ok (initial_record p input requestID conv requester descriptors t) = true.
Proof. done. Qed.

(** The stored creation.  A request reported as created is stored under
    its identifier, well formed and awaiting approval, and its idempotency key
    is bound to it and to the digest of the whole input. *)
Theorem created_is_stored p input (w w' : world DB) response n :
  let org := p_OrganizationID p in
  CreateRequest_ p input w = (w', inr (response, n, true)) →
  ∃ s, r_get (w_db w') (requestKey org (mr_RequestID response)) = Some (marshal s) ∧
    r_get (w_db w') (idempotencyKey org (p_AgentID p) (cr_IdempotencyKey input)) =
      Some (marshal (mkIdempotencyRecord (mr_RequestID response) (requestDigest input))) ∧
    sr_ok s = true ∧ rq_Status (sr_Request s) = StatusAwaitingApproval ∧
    sr_Prompt s = cr_Prompt input ∧ rq_RequesterAgentID (sr_Request s) = p_AgentID p ∧
    rq_RequesterMemberID (sr_Request s) = p_MemberID p ∧
    rq_TargetAgentID (sr_Request s) ≠ p_AgentID p ∧ response = mutation (sr_Request s) ∧
    n = notice (sr_Request s).
Proof.
  intros org Hrun.
  eapply (spec_run anything) in Hrun as [_ Hq];
    [|by apply spec_CreateRequest_outcome with (d0 := w_db w)|apply env_ok_anything|cbn beta; done].
  destruct Hq as (request & [= -> ->] & Hc). simpl in Hc.
  destruct Hc as (conv & target & requester & requestID & prepared & t & d1 & _ & _ & Hadm & _ & _ & -> & ->).
  exists (initial_record p input requestID conv requester prepared.*1 t).
  destruct (create_commands_get org (idempotencyKey org (p_AgentID p) (cr_IdempotencyKey input))
    (initial_record p input requestID conv requester prepared.*1 t) conv
    (bool_decide (trim_space (cr_ConversationID input) = ""))
    (mkIdempotencyRecord requestID (requestDigest input)) prepared.*2 d1 (key_idempotency _ _ _)) as [Hs Hi].
  split_and!; try done. apply Hadm.
Qed.

(** Retried creation.  While a key is bound to a creation, a further
    [CreateRequest] under it never creates: it is answered with the current
    state of the bound request, and only if its content is the same. *)
Theorem create_retry_idempotent p input record (w w' : world DB) response n created :
  let org := p_OrganizationID p in
  let idemKey := idempotencyKey org (p_AgentID p) (cr_IdempotencyKey input) in
  let bound d := r_get d idemKey = Some (marshal record) in
  let R d d' := bound d → bound d' in
  env_ok R w → bound (w_db w) →
  CreateRequest_ p input w = (w', inr (response, n, created)) →
  created = false ∧ id_Digest record = requestDigest input ∧ bound (w_db w') ∧
  ∃ s d, bound d ∧ r_get d (requestKey org (trim_space (id_RequestID record))) = Some (marshal s) ∧
    response = mutation (sr_Request s) ∧ n = notice (sr_Request s).
Proof.
  intros org idemKey bound R He Hbound Hrun.
  assert (PreOrder R) as HR by (split; [by intros ? ?|intros ? ? ? H1 H2 H3; auto]).
  eapply (spec_run R) in Hrun as [Hin Hq]; [|apply spec_CreateRequest_outcome with (d0 := w_db w); [apply _|]|done|cbn beta; reflexivity].
  2: { intros d rid conv rq prep t Hnone Hb. unfold bound, idemKey, org in Hb. by rewrite Hnone in Hb. }
  destruct Hq as (request & [= -> ->] & Hq). destruct created; simpl in Hq.
  - destruct Hq as (conv & target & requester & requestID & prepared & t & d1 & Hd1 & Hnone & _).
    apply Hd1 in Hbound. unfold bound, idemKey, org in Hbound. by rewrite Hnone in Hbound.
  - destruct Hq as (rec & s & (d1 & Hd1 & _ & Hrec) & Hdig & (d2 & Hd2 & _ & Hs) & ->).
    pose proof (Hd1 Hbound) as Hb1. unfold bound, idemKey, org in Hb1. rewrite Hrec in Hb1.
    injection Hb1 as <-. split_and!; [done|done|by apply Hin|]. exists s, d2. split_and!; auto.
Qed.
End stored.
