(* ===== verification/RelayAgreement.v ===== *)
(** * The relay and the receiver agree

    The notice of the inbox, the proposal and the execution payload are three
    views of one stored request.  For a request that the collaboration store
    created, the receiver's checks accept them together, at any two moments of
    the request's life: an honest relay is never refused. *)

From S2P Require Import Prelude GoString Sha256 GoStringFacts Protocol Auth Records CollabStore CollabMachine CollabCreate.
From S2P Require Import LocalStore ApprovalStore Binding BindingFacts.

Local Open Scope Z_scope.


Lemma trim_sha256_hex s : trim_space (sha256_hex s) = sha256_hex s.
Proof. unfold sha256_hex. apply (hex_trim _ (sha256 s)), hex_decode_encode. Qed.
Lemma decode_sha256_hex s : hex_decode (sha256_hex s) = Some (sha256 s).
Proof. apply hex_decode_encode. Qed.

Section agreement.
Context `{UT : UnicodeTables}.

Lemma lower_fold_ascii l : forallb (λ c, byte_val c <? 128) l = true →
  rune_lower <$> (byte_val <$> l) = rune_fold <$> (byte_val <$> l).
Proof.
  induction l as [|c l IH]; [done|]. cbn [forallb fmap list_fmap]. intros [Hc Hl]%andb_true_iff.
  f_equal; [|by apply IH]. unfold rune_lower, rune_fold. by rewrite Hc.
Qed.

(** Lower case is a normal form of digests. *)
Lemma lower_hex_encode x : to_lower (hex_encode x) = hex_encode x.
Proof.
  pose proof (hex_decode_encode x) as Hd. pose proof (hex_is_ascii _ _ Hd) as Ha.
  unfold to_lower. rewrite <- (string_of_ascii_runes (hex_encode x)) at 2 by done. f_equal.
  pose proof (fold_runes_hex _ _ Hd) as Hf. rewrite <- Hf. rewrite runes_ascii in * by done.
  apply lower_fold_ascii. exact Ha.
Qed.
Lemma equal_fold_refl s : equal_fold s s = true.
Proof. unfold equal_fold. by apply bool_decide_eq_true. Qed.
#[local] Opaque trim_space sha256 hex_decode to_lower equal_fold runes.
Lemma lower_sha256_hex s : to_lower (sha256_hex s) = sha256_hex s.
Proof. apply lower_hex_encode. Qed.

(** The notice of a request that commits to its prompt. *)
Record committed (s : storedRequest) : Prop := mkCommitted {
  cm_id : rq_RequestID (sr_Request s) ≠ "";
  cm_bytes : rq_PromptBytes (sr_Request s) = len (sr_Prompt s);
  cm_sha : rq_PromptSHA256 (sr_Request s) = sha256_hex (sr_Prompt s) }.

Definition binding_of (s : storedRequest) : approvedNoticeBinding :=
  let r := sr_Request s in
  mkBinding approvedNoticeBindingVersion (rq_RequestID r) (rq_ConversationID r) (rq_RequesterAgentID r) (rq_RequesterMemberID r)
    (rq_RequesterDisplayName r) (rq_Title r) (rq_ExpiresAt r) (rq_RequestedAccess r) (rq_Attachments r) (rq_PromptBytes r)
    (rq_PromptSHA256 r).

Lemma binding_for_notice s : committed s → approvedNoticeBindingFor (notice (sr_Request s)) = inr (binding_of s).
Proof.
  intros [Hid Hb Hs]. unfold approvedNoticeBindingFor, validateApprovedNoticeBinding, binding_of. cbn.
  rewrite Hs, trim_sha256_hex, lower_sha256_hex, trim_sha256_hex. cbn.
  rewrite (bool_decide_false (rq_RequestID (sr_Request s) = "")) by done.
  rewrite (bool_decide_true (rq_RequestID (sr_Request s) = rq_RequestID (sr_Request s))) by done. cbn.
  assert ((rq_PromptBytes (sr_Request s) <? 0) = false) as -> by (rewrite Hb; apply Z.ltb_ge; unfold len; lia). cbn.
  assert (valid_digest (sha256_hex (sr_Prompt s)) = true) as ->.
  { apply valid_digest_inv. exists (sha256 (sr_Prompt s)). split; [apply decode_sha256_hex|apply len_sha256]. }
  by rewrite andb_false_r.
Qed.

Lemma frozen_views s s' : frozen s = frozen s' →
  execution_of s = execution_of s' ∧ proposal_of s = proposal_of s' ∧ binding_of s = binding_of s' ∧ (committed s → committed s').
Proof.
  unfold frozen, rq_assign. intros [= ]. unfold execution_of, proposal_of, binding_of.
  split_and!; [f_equal; congruence|f_equal; congruence|f_equal; congruence|]. intros []. split; congruence.
Qed.

Lemma views_agree s : committed s →
  validateExecutionPayload (notice (sr_Request s)) (execution_of s) = inr () ∧
  validateProposal (notice (sr_Request s)) (proposal_of s) = true.
Proof.
  intros Hc. split.
  - unfold validateExecutionPayload. rewrite binding_for_notice by done.
    assert (validateExecutionPayloadAgainstApprovedBinding (binding_of s) (execution_of s) = inr ()) as ->; [|done].
    apply payload_check. split; [by split_and!|]. destruct Hc as [_ Hb Hs]. split; [done|].
    cbn. rewrite Hs, trim_sha256_hex. apply decode_sha256_hex.
  - destruct Hc as [_ Hb Hs]. unfold validateProposal, sameRequestedAccess, sameArtifactDescriptors. cbn.
    rewrite !bool_decide_true by done. rewrite Z.eqb_refl, Hb, Hs, Z.eqb_refl, equal_fold_refl. cbn. by repeat case_match.
Qed.
Lemma initial_committed p input requestID conv requester descriptors t :
  requestID ≠ "" → committed (initial_record p input requestID conv requester descriptors t).
Proof. by intros. Qed.

(** C29. An honest relay is never refused.  Take a request as the collaboration
    store creates it, and two moments of its life (its creation data never
    change).  The notice the receiver approved at the first has a binding; the
    execution payload served at the second passes the check against it, the
    proposal passes its check, and the notice of the second moment is still
    the approved one. *)
Theorem relay_payload_accepted p input requestID conv requester descriptors t s1 s2 :
  let s0 := initial_record p input requestID conv requester descriptors t in
  requestID ≠ "" → frozen s1 = frozen s0 → frozen s2 = frozen s0 →
  ∃ b, approvedNoticeBindingFor (notice (sr_Request s1)) = inr b ∧
    validateExecutionPayloadAgainstApprovedBinding b (execution_of s2) = inr () ∧
    validateProposal (notice (sr_Request s1)) (proposal_of s2) = true ∧
    validateNoticeAgainstApprovedBinding (notice (sr_Request s2)) b = inr ().
Proof.
  intros s0 Hid H1 H2. pose proof (initial_committed p input requestID conv requester descriptors t Hid) as H0.
  destruct (frozen_views s0 s1) as (He1 & Hp1 & Hb1 & Hc1); [done|]. destruct (frozen_views s0 s2) as (He2 & Hp2 & Hb2 & Hc2); [done|].
  specialize (Hc1 H0). specialize (Hc2 H0). destruct (views_agree s1 Hc1) as [Hex Hprop].
  exists (binding_of s1). pose proof (binding_for_notice s1 Hc1) as Hb. split; [done|].
  rewrite <- He2, He1, <- Hp2, Hp1. split_and!; [|done|].
  - unfold validateExecutionPayload in Hex. rewrite Hb in Hex. by destruct (validateExecutionPayloadAgainstApprovedBinding _ _) as [|[]].
  - unfold validateNoticeAgainstApprovedBinding. rewrite binding_for_notice, <- Hb2, Hb1 by done.
    unfold sameApprovedNoticeBinding, sameRequestedAccess, sameArtifactDescriptors.
    rewrite !bool_decide_true, !Z.eqb_refl, equal_fold_refl by done. done.
Qed.
End agreement.

(** The hypotheses hold of a request at creation and after its acceptance. *)
#[local] Existing Instance ascii_tables.
Definition honest_principal : Principal := 
  mkPrincipal "org" "alice" "device" "agent_alice" "Alice" "laptop" "" "" "" RoleMember TokenDevice 0.
Definition honest_input : CreateRequest :=
  mkCreateRequest "agent_bob" "" "Title" "Please look" [mkRequestedAccess "main" PermissionReadOnly] [] 600 "key".
Definition honest_record : storedRequest :=
  initial_record honest_principal honest_input "req_1" (mkConversation "conv_1" "org" "agent_alice" "agent_bob")
    (mkAgentCard "agent_alice" "alice" "Alice" "laptop" AvailabilityAvailable true
      (mkRuntimeDescriptor "" "" "" (mkRuntimeCapabilities false false false false false false false))
      PermissionReadOnly [] [] true 0) [] 5.
Definition accepted_record : storedRequest := sr_set_decision "decision" DecisionAllowOnce StatusAccepted honest_record.

Lemma relay_payload_accepted_witness :
  validateExecutionPayload (notice (sr_Request honest_record)) (execution_of accepted_record) = inr ().
Proof.
  unfold validateExecutionPayload.
  destruct (relay_payload_accepted honest_principal honest_input "req_1" (mkConversation "conv_1" "org" "agent_alice" "agent_bob")
    (mkAgentCard "agent_alice" "alice" "Alice" "laptop" AvailabilityAvailable true
      (mkRuntimeDescriptor "" "" "" (mkRuntimeCapabilities false false false false false false false))
      PermissionReadOnly [] [] true 0) [] 5 honest_record accepted_record) as (b & Hb & Hv & _); [done|done|done|].
  rewrite Hb, Hv. done.
Defined.
