(* ===== verification/CollabDirectory.v ===== *)
(** * Presence and the agent directory

    What a heartbeat publishes and for whom, what [ListAgents] may show, and
    that eviction removes an agent from both. *)

From S2P Require Import Prelude GoString Sha256 GoStringFacts Protocol Auth Records Json Redis RedisLogic MemRedis.
From S2P Require Import CollabStore CollabMachine CollabAccess.

Local Open Scope Z_scope.

(** ** The order of the directory *)

#[export] Instance card_le_total : Total card_le.
Proof.
  intros a b. unfold card_le, card_leb.
  destruct (decide (card_DisplayName a = card_DisplayName b)) as [Heq|Hne].
  - rewrite !bool_decide_true by done. apply str_leb_total.
  - rewrite !bool_decide_false by done. apply str_leb_total.
Qed.

#[export] Instance notice_le_total : Total notice_le.
Proof. intros a b. unfold notice_le. lia. Qed.

Lemma Sorted_take {A} (le : relation A) n l : Sorted le l → Sorted le (take n l).
Proof.
  revert n. induction l as [|x l IH]; intros [|n] Hs; simpl; try constructor.
  - apply IH. by inversion Hs.
  - inversion Hs as [|? ? _ Hd]; subst. destruct n, l; simpl; try constructor. by inversion Hd.
Qed.

Section directory.
Context {DB : Type} `{RL : RedisLaws DB} `{UT : UnicodeTables}.
Abbreviation CM := (M (world DB) (rerror cerr)).

(** ** Heartbeats *)

Definition heartbeat_card (p : Principal) (hb : AgentHeartbeat) (t : time) : AgentCard :=
  {| card_AgentID := p_AgentID p; card_MemberID := p_MemberID p;
     card_DisplayName := p_DisplayName p; card_DeviceName := p_DeviceName p;
     card_Availability := hb_Availability hb; card_AcceptingRequests := hb_AcceptingRequests hb;
     card_Runtime := hb_Runtime hb; card_PermissionMode := hb_PermissionMode hb;
     card_Capabilities := cleanUnique (hb_Capabilities hb) 20;
     card_WorkspaceAliases := cleanUnique (hb_WorkspaceAliases hb) 20;
     card_Online := true; card_LastSeen := t |}.

Lemma spec_heartbeat_commit o p hb t :
  let org := p_OrganizationID p in let card := heartbeat_card p hb t in
  spec anything o (λ _ _, True)
    (retrying 5 (redis_watch [revokedAgentsKey org]
      (revoked ← redis_sismember (revokedAgentsKey org) (p_AgentID p);
       refuse_if revoked ErrForbidden ≫= λ _,
       tx_pipelined [CSet (agentKey org (p_AgentID p)) (marshal card) agentTTL;
                     CSAdd (agentsKey org) (p_AgentID p)])) : CM _)
    (λ _ d _, ∃ d1, r_sismember d1 (revokedAgentsKey org) (p_AgentID p) = false ∧
       d = r_exec_all [CSet (agentKey org (p_AgentID p)) (marshal card) agentTTL;
                       CSAdd (agentsKey org) (p_AgentID p)] d1).
Proof.
  intros org card. apply (spec_retrying anything); [done|]. eapply spec_post.
  { apply (spec_watch anything) with (Q := λ _ d, ∃ d1, r_sismember d1 (revokedAgentsKey org) (p_AgentID p) = false ∧
       d = r_exec_all [CSet (agentKey org (p_AgentID p)) (marshal card) agentTTL;
                       CSAdd (agentsKey org) (p_AgentID p)] d1); [done|].
    eapply (spec_bind anything).
    { unfold redis_sismember. apply (spec_read_sees anything); [by intros ???|apply guarded_const|].
      intros b. apply guarded_sismember. by left. }
    intros b. apply (spec_reject_bind anything). intros ->.
    eapply spec_post; [apply (spec_tx_sees anything)|].
    - done.
    - by intros ???.
    - apply guarded_and; [apply guarded_const|]. apply guarded_sismember. by left.
    - done.
    - intros u d wt (_ & d1 & _ & _ & [_ Hr] & ->). by exists d1. }
  by intros u d wt [? _].
Qed.

(** Heartbeats are bound to the credential.  The card a heartbeat publishes
    carries the identity of the authenticated device, the runtime and the
    permission mode it is enrolled with, and it is published, with its agent in
    the directory, at a moment at which the agent is not revoked. *)
Theorem heartbeat_correct p hb (w w' : world DB) card :
  let org := p_OrganizationID p in
  Heartbeat p hb w = (w', inr card) →
  (∃ t, clock_reading (oracle_of w) t ∧ card = heartbeat_card p hb t) ∧
  trim_space (rd_ID (hb_Runtime hb)) = p_Runtime p ∧ mode_string (hb_PermissionMode hb) = p_PermissionMode p ∧
  r_get (w_db w') (agentKey org (p_AgentID p)) = Some (marshal card) ∧
  p_AgentID p ∈ r_smembers (w_db w') (agentsKey org) ∧
  r_sismember (w_db w') (revokedAgentsKey org) (p_AgentID p) = false.
Proof.
  intros org Hrun. unfold Heartbeat, checked in Hrun. run_inv.
  match goal with H : refuse_if _ _ _ = _ |- _ => apply reject_if_inr in H as [Hg ->] end.
  match goal with H : now _ = _ |- _ => injection H as <- <- end. orb_split.
  match goal with H : retrying _ _ ?w1 = _ |- _ =>
    eapply (spec_run anything) in H as [_ Hq]; [|apply spec_heartbeat_commit|apply env_ok_anything|done] end.
  destruct Hq as (d1 & Hrev & Hd). cbv zeta in Hd. fold org in Hrev, Hd. rewrite !Hd.
  split; [by eexists; split; [by exists (w_ticks w)|]|]. split; [done|]. split; [done|].
  rewrite r_exec_all_cons, r_exec_all_cons. unfold r_exec_all. cbn [foldl]. split_and!.
  - rewrite get_other; [by apply get_set|]. simpl. eapply key_kind_ne; [apply key_agents|apply key_agent|done].
  - apply smembers_add. by left.
  - rewrite <- Hrev. apply bool_decide_ext. rewrite !smembers_other; [done| |];
      simpl; eapply key_kind_ne; eauto with keys; done.
Qed.

(** ** The directory *)

Section listing.
Context (R : relation DB) `{!PreOrder R}.

(** What may be listed: a published card of another member that the query
    matches. *)
Definition listable (p : Principal) (query : AgentQuery) (revoked : list string) (d0 : DB)
    (card : AgentCard) (d : DB) : Prop :=
  card_Online card = true ∧ card_MemberID card ≠ p_MemberID p ∧ matchesAgent card query = true ∧
  (q_AcceptingOnly query = true → card_AcceptingRequests card = true) ∧ (card_AgentID card ∉ revoked) ∧
  ∃ stored, held R d0 d (agentKey (p_OrganizationID p) (card_AgentID card)) stored ∧
    card_AgentID stored = card_AgentID card ∧ card_MemberID stored = card_MemberID card ∧
    card_DisplayName stored = card_DisplayName card ∧ card_PermissionMode stored = card_PermissionMode card.

Lemma listable_closed p query revoked d0 card d d' :
  R d d' → listable p query revoked d0 card d → listable p query revoked d0 card d'.
Proof.
  intros Hd (? & ? & ? & ? & ? & s & Hh & ?). do 5 (split; [done|]). exists s. split; [by eapply held_weaken|done].
Qed.

Definition cleanup_allowed (org : string) : Prop :=
  ∀ id d, R d (r_exec (CSRem (agentsKey org) id) d) ∧ R d (r_exec (CDel (agentKey org id)) d).

Lemma guar_cleanup org c :
  cleanup_allowed org → (∃ id, c = CSRem (agentsKey org) id ∨ c = CDel (agentKey org id)) →
  guar (WR R) (ignore (redis_write c) : CM ()).
Proof.
  intros Hc (id & Hid). apply guar_ignore; [apply _|]. apply (guar_write R). intros d.
  destruct (Hc id d). by destruct Hid as [-> | ->].
Qed.

Lemma spec_list_item o p query revoked d0 id :
  cleanup_allowed (p_OrganizationID p) →
  spec R o (λ d _, R d0 d) (list_agents_item p query revoked id : CM _)
    (λ r d _, (∀ card, r = Some card → listable p query revoked d0 card d) ∧ R d0 d).
Proof.
  intros Hclean. unfold list_agents_item. cbv zeta.
  assert (∀ d d' : DB, R d d' → R d0 d → R d0 d') as Hclosed by (intros ? ? ? ?; by etrans).
  assert (Hnone : ∀ m : CM (option AgentCard), m = mret None → spec R o (λ d _, R d0 d) m
    (λ r d _, (∀ card, r = Some card → listable p query revoked d0 card d) ∧ R d0 d)).
  { intros m ->. apply (spec_ret R). intros d wt ?. by split. }
  case_bool_decide as Hrev.
  { eapply (spec_bind R); [apply (spec_keep R) with (P := R d0); [apply (guar_cleanup _ _ Hclean); eauto|done]|].
    intros u. eapply (spec_bind R); [apply (spec_keep R) with (P := R d0); [apply (guar_cleanup _ _ Hclean); eauto|done]|].
    intros u'. by apply Hnone. }
  eapply (spec_bind R) with (Q := λ raw d _,
    (∃ d1, R d0 d1 ∧ R d1 d ∧ r_get d1 (agentKey (p_OrganizationID p) id) = raw) ∧ R d0 d).
  { apply (spec_read R); [by apply stable_closed|]. intros d wt Hd. split; [|done].
    exists d. split_and!; [done|reflexivity|done]. }
  intros [doc|].
  2: { eapply spec_pre with (P' := λ d _, R d0 d); [|by intros d wt [_ ?]].
       eapply (spec_bind R); [apply (spec_keep R) with (P := R d0); [apply (guar_cleanup _ _ Hclean); eauto|done]|].
       intros u. by apply Hnone. }
  destruct (unmarshal doc) as [card0|] eqn:Hdoc;
    [|eapply spec_pre with (P' := λ d _, R d0 d); [by apply Hnone|by intros d wt [_ ?]]].
  apply unmarshal_Some in Hdoc as ->.
  destruct (bool_decide (card_AgentID card0 = id)) eqn:Hid; cbn [negb];
    [|eapply spec_pre with (P' := λ d _, R d0 d); [by apply Hnone|by intros d wt [_ ?]]].
  destruct (bool_decide (card_MemberID card0 = p_MemberID p)) eqn:Hmem;
    [eapply spec_pre with (P' := λ d _, R d0 d); [by apply Hnone|by intros d wt [_ ?]]|].
  destruct (q_AcceptingOnly query && _) eqn:Hacc;
    [eapply spec_pre with (P' := λ d _, R d0 d); [by apply Hnone|by intros d wt [_ ?]]|].
  destruct (matchesAgent _ query) eqn:Hmatch; cbn [negb];
    [|eapply spec_pre with (P' := λ d _, R d0 d); [by apply Hnone|by intros d wt [_ ?]]].
  apply (spec_ret R). intros d wt [(d1 & ? & ? & ?) ?]. split; [|done]. intros card [= <-]. orb_split. subst id.
  split_and!; try done.
  - intros Hq. rewrite Hq in Hacc. by apply negb_false_iff in Hacc.
  - exists card0. split_and!; try done. by exists d1.
Qed.

(** The directory.  [ListAgents] answers with a list sorted by name, no
    longer than the limit, of cards published in the caller's organisation:
    every one matches the query, belongs to another member, accepts requests
    when that was asked for, and is not in the revoked set the listing read. *)
Theorem list_agents_correct p query (w w' : world DB) response :
  env_ok R w → cleanup_allowed (p_OrganizationID p) → ListAgents p query w = (w', inr response) →
  Sorted card_le (dir_Agents response) ∧
  (0 < q_Limit query → Z.of_nat (length (dir_Agents response)) <= q_Limit query) ∧
  ∃ revoked d, R (w_db w) d ∧ R d (w_db w') ∧ revoked = r_smembers d (revokedAgentsKey (p_OrganizationID p)) ∧
    ∀ card, card ∈ dir_Agents response → listable p query revoked (w_db w) card (w_db w').
Proof.
  intros He Hclean Hrun.
  assert (spec R (oracle_of w) (λ d _, R (w_db w) d) (ListAgents p query : CM _) (λ response d _,
    ∃ agents observed revoked d1, R (w_db w) d1 ∧ R d1 d ∧ revoked = r_smembers d1 (revokedAgentsKey (p_OrganizationID p)) ∧
      (∀ card, card ∈ agents → listable p query revoked (w_db w) card d) ∧
      response = mkAgentDirectoryResponse
        (if (0 <? q_Limit query) && (q_Limit query <? Z.of_nat (length (merge_sort card_le agents)))
         then take (Z.to_nat (q_Limit query)) (merge_sort card_le agents) else merge_sort card_le agents) observed)) as Hspec.
  { assert (∀ d d' : DB, R d d' → R (w_db w) d → R (w_db w) d') as Hclosed by (intros ? ? ? ?; by etrans).
    unfold ListAgents, checked. apply (spec_lift_bind R). intros _ _. cbv zeta.
    eapply (spec_bind R); [apply (spec_keep R) with (P := R (w_db w)); [auto with guar|done]|]. intros ids.
    eapply (spec_bind R); [apply (spec_keep R) with (P := R (w_db w)); [auto with guar|done]|]. intros observed.
    eapply (spec_bind R) with (Q := λ revoked d _, (∃ d1, R (w_db w) d1 ∧ R d1 d ∧
      revoked = r_smembers d1 (revokedAgentsKey (p_OrganizationID p))) ∧ R (w_db w) d).
    { apply (spec_read R); [by apply stable_closed|]. intros d wt Hd. split; [|done].
      exists d. split_and!; [done|reflexivity|done]. }
    intros revoked. eapply (spec_bind R).
    { eapply spec_pre; [apply (spec_frame R) with (F := λ d, ∃ d1, R (w_db w) d1 ∧ R d1 d ∧
        revoked = r_smembers d1 (revokedAgentsKey (p_OrganizationID p)))|].
      - intros d d' Hd (d1 & ? & ? & ?). exists d1. split_and!; [done|by etrans|done].
      - apply (spec_collectM R) with (P := R (w_db w)) (ψ := listable p query revoked (w_db w)); [done| |].
        + intros card d d'. apply listable_closed.
        + intros id. by apply spec_list_item.
      - by intros d wt [? ?]. }
    intros agents. apply (spec_ret R). intros d wt [[Hall _] (d1 & ? & ? & ->)].
    by exists agents, observed, (r_smembers d1 (revokedAgentsKey (p_OrganizationID p))), d1. }
  eapply (spec_run R) in Hrun as [_ Hq]; [|exact Hspec|done|cbn beta; reflexivity].
  destruct Hq as (agents & observed & revoked & d1 & Hd1 & Hd1' & Hrev & Hall & ->). cbn [dir_Agents].
  pose proof (Sorted_merge_sort card_le agents) as Hsorted.
  pose proof (merge_sort_Permutation card_le agents) as Hperm.
  set (sorted := merge_sort card_le agents) in *.
  assert (∀ card, card ∈ sorted → listable p query revoked (w_db w) card (w_db w')) as Hin
    by (intros card Hc; apply Hall; by rewrite <- Hperm).
  destruct (_ && _) eqn:Hlim; split_and!; try done; try (exists revoked, d1; split_and!; try done).
  - by apply Sorted_take.
  - intros _. rewrite length_take. lia.
  - intros card Hc. apply Hin. by apply (subseteq_take (Z.to_nat (q_Limit query)) sorted).
  - intros Hpos. apply andb_false_iff in Hlim as [Hl|Hl]; apply Z.ltb_ge in Hl; lia.
Qed.
End listing.

(** ** Eviction *)

Definition evict_commands (org id : string) : list cmd :=
  [CSAdd (revokedAgentsKey org) id; CSRem (agentsKey org) id; CDel (agentKey org id)].
Definition evicted (org id : string) (d : DB) : Prop :=
  r_sismember d (revokedAgentsKey org) id = true ∧ (id ∉ r_smembers d (agentsKey org)) ∧
  r_get d (agentKey org id) = None.

Ltac kinds := simpl; eapply key_kind_ne; [eauto with keys..|done].

Lemma evict_one org id d : evicted org id (r_exec_all (evict_commands org id) d).
Proof.
  unfold evict_commands, evicted, r_sismember. rewrite !r_exec_all_cons. unfold r_exec_all. cbn [foldl]. split_and!.
  - apply bool_decide_eq_true. rewrite smembers_other by kinds. rewrite smembers_other by kinds.
    apply smembers_add. by left.
  - rewrite smembers_other by kinds. rewrite smembers_rem. by intros [? _].
  - apply get_del.
Qed.

Lemma evict_keeps org id id' d : evicted org id d → evicted org id (r_exec_all (evict_commands org id') d).
Proof.
  intros (Hr & Ha & Hg). unfold evict_commands, evicted, r_sismember in *. rewrite !r_exec_all_cons.
  unfold r_exec_all. cbn [foldl]. apply bool_decide_eq_true in Hr. split_and!.
  - apply bool_decide_eq_true. rewrite smembers_other by kinds. rewrite smembers_other by kinds.
    apply smembers_add. by right.
  - rewrite smembers_other by kinds. rewrite smembers_rem, smembers_other by kinds. by intros [_ ?].
  - destruct (decide (agentKey org id' = agentKey org id)) as [Heq|Hne].
    + rewrite Heq. apply get_del.
    + rewrite get_other by done. rewrite get_other by kinds. rewrite get_other by kinds. done.
Qed.

Lemma evict_all org ids d id :
  id ∈ ids → evicted org id (r_exec_all (concat (evict_commands org <$> ids)) d).
Proof.
  intros Hid. assert (∀ l d, evicted org id d → evicted org id (r_exec_all (concat (evict_commands org <$> l)) d)) as Hkeep.
  { intros l. induction l as [|x l IH]; intros d' Hd; [done|]. rewrite fmap_cons. cbn [concat].
    rewrite r_exec_all_app. apply IH. by apply evict_keeps. }
  revert d. induction ids as [|x ids IH]; intros d; [by apply elem_of_nil in Hid|].
  rewrite fmap_cons. cbn [concat]. rewrite r_exec_all_app.
  apply elem_of_cons in Hid as [->|Hid]; [apply Hkeep, evict_one|by apply IH].
Qed.

(** After a successful presence eviction every named agent is in the revocation
    set, out of the directory and without a published card. *)
Lemma evict_presence_run org ids (w w' : world DB) id :
  evictPresence org ids w = (w', inr ()) → id ∈ ids → evicted org id (w_db w').
Proof.
  intros Hrun Hid. unfold evictPresence in Hrun.
  eapply (spec_run anything) in Hrun as [_ Hq]; [|apply (spec_tx anything) with (P := λ _ _, True)
    (Q := λ d, evicted org id d); [by intros ???|done|]|apply env_ok_anything|done]; [done|].
  intros d wt _. by apply evict_all.
Qed.
End directory.
