(* ===== verification/CollabScenario.v ===== *)
(** * A sample history of the relay

    One organisation, two devices, one request taken through its whole life on
    the in-memory server of [MemRedis].  The worlds of the history are the
    concrete inputs of the witnesses of the collaboration theorems. *)

From S2P Require Import Prelude GoString Sha256 Protocol Auth Records Json Redis RedisLogic MemRedis.
From S2P Require Import CollabStore.

Local Open Scope Z_scope.
#[export] Existing Instance ascii_tables.

Abbreviation mem_world := (world memdb).


Definition sample_device (member agent name : string) : Principal :=
  {| p_OrganizationID := "acme"; p_MemberID := member; p_DeviceID := "device_1"; p_AgentID := agent;
     p_DisplayName := name; p_DeviceName := "laptop"; p_Runtime := "claude";
     p_PermissionMode := "read_only"; p_CredentialHash := ""; p_Role := RoleMember;
     p_TokenKind := TokenDevice; p_IssuedAt := 0 |}.
Definition alice : Principal := sample_device "mem_alice" "agent_alice" "Alice".
Definition bob : Principal := sample_device "mem_bob" "agent_bob" "Bob".

Definition sample_heartbeat : AgentHeartbeat :=
  {| hb_DisplayName := "anyone"; hb_DeviceName := "laptop"; hb_Availability := AvailabilityAvailable;
     hb_AcceptingRequests := true;
     hb_Runtime := mkRuntimeDescriptor "claude" "Claude" "1"
                     (mkRuntimeCapabilities true true true true true true true);
     hb_PermissionMode := PermissionReadOnly; hb_Capabilities := ["go"; " Go "; "docs"];
     hb_WorkspaceAliases := ["main"] |}.

Definition sample_input : CreateRequest :=
  {| cr_TargetAgentID := "agent_bob"; cr_ConversationID := ""; cr_Title := "Review"; cr_Prompt := "Look";
     cr_RequestedAccess := [mkRequestedAccess "main" PermissionReadOnly];
     cr_Attachments := [mkAttachmentInput "a.txt" "text/plain" "base64" 3
       "ba7816bf8f01cfea414140de5dae2223b00361a396177a9cb410ff61f20015ad" "YWJj"];
     cr_ExpiresInSeconds := 3600; cr_IdempotencyKey := "key-1" |}.

Definition hex64 : string := hex_encode (test_rand 7 +:+ test_rand 8).
Definition sample_decision : DecisionPayload := mkDecisionPayload DecisionAllowOnce ("decision_" +:+ hex64).
Definition sample_claim : string := "claim_" +:+ hex64.
Definition sample_result : ResultPayload :=
  mkResultPayload sample_claim StatusCompleted "Done" ""
    [mkAttachmentInput "b.txt" "text/plain" "base64" 3
       "ba7816bf8f01cfea414140de5dae2223b00361a396177a9cb410ff61f20015ad" "YWJj"].

(** The history: both devices come online, Alice asks Bob, Bob allows the
    request once, claims it and returns a result. *)
Definition w_empty : mem_world := sample_world (mkSnapshot [] [] []) 0 0.
Definition s_ready : snapshot := Eval vm_compute in
  snapshot_of (Heartbeat bob sample_heartbeat (Heartbeat alice sample_heartbeat w_empty).1).1.
Definition w_ready : mem_world := sample_world s_ready 2 0.
Definition no_response : MutationResponse := mkMutationResponse "" "" StatusPreparing.
Definition sample_response : MutationResponse :=
  Eval vm_compute in match (CreateRequest_ alice sample_input w_ready).2 with
                     | inr (r, _, _) => r | inl _ => no_response end.
Definition sample_id : string := Eval vm_compute in mr_RequestID sample_response.
Definition s_created : snapshot := Eval vm_compute in snapshot_of (CreateRequest_ alice sample_input w_ready).1.
Definition w_created : mem_world := sample_world s_created 10 10.
Definition s_decided : snapshot := Eval vm_compute in snapshot_of (Decide bob sample_id sample_decision w_created).1.
Definition w_decided : mem_world := sample_world s_decided 20 20.
Definition s_running : snapshot := Eval vm_compute in snapshot_of (MarkRunning bob sample_id sample_claim w_decided).1.
Definition w_running : mem_world := sample_world s_running 30 30.
Definition s_completed : snapshot := Eval vm_compute in
  snapshot_of (SubmitResult bob sample_id sample_result w_running).1.
Definition w_completed : mem_world := sample_world s_completed 40 40.
Definition stored_in (w : mem_world) : option storedRequest :=
  r_get (w_db w) (requestKey "acme" sample_id) ≫= unmarshal.

Example sample_history :
  (λ s, (rq_Status (sr_Request s), rq_Version (sr_Request s))) <$>
    omap stored_in [w_created; w_decided; w_running; w_completed] =
  [(StatusAwaitingApproval, 1); (StatusAccepted, 2); (StatusRunning, 3); (StatusCompleted, 4)].
Proof. vm_compute. reflexivity. Qed.
