(* ===== verification/CollabWitness.v ===== *)
(** * The collaboration theorems at concrete inputs

    Each theorem with hypotheses is applied on the worlds of [CollabScenario],
    where its hypotheses hold and its handler succeeds. *)

From S2P Require Import Prelude GoString Sha256 Protocol Auth Records Json Redis RedisLogic MemRedis.
From S2P Require Import CollabStore CollabMachine CollabLifecycle CollabProofs CollabAccess CollabCreate.
From S2P Require Import CollabDirectory CollabScenario.

Local Open Scope Z_scope.


Definition stored_now (w : mem_world) : storedRequest :=
  default (mkStoredRequest (new_request alice sample_input "" (mkConversation "" "" "" "")
    (CollabDirectory.heartbeat_card bob sample_heartbeat 0) [] 0) "" "" "" DecisionNone "" "") (stored_in w).

(** Other replicas that change nothing, one lost reply and one failed command. *)
Definition noisy (w : mem_world) : mem_world :=
  mkWorld (w_db w) [EnvOk id; EnvLost id; EnvOk id; EnvFail id] None (w_clock w) (w_ticks w) (w_rand w) (w_draws w).
Lemma noisy_ok R `{!PreOrder R} w : env_ok R (noisy w).
Proof. unfold env_ok, noisy. simpl. repeat (apply Forall_cons_2; [intros d; reflexivity|]). apply Forall_nil_2. Qed.

Definition sample_calls : list call :=
  [CallInbox bob; CallDecide bob sample_id sample_decision; CallFetchExecution bob sample_id;
   CallMarkRunning bob sample_id sample_claim; CallCancel alice sample_id; CallGet alice sample_id].

Lemma sample_calls_fresh (w : mem_world) : Forall (call_fresh "acme" sample_id (oracle_of w)) sample_calls.
Proof. repeat (apply Forall_cons_2; [done|]). apply Forall_nil_2. Qed.

Lemma calls_refine_machine_witness :
  slot_evolves (r_get (w_db (noisy w_created)) (requestKey "acme" sample_id))
    (r_get (w_db (run_calls sample_calls (noisy w_created)).1) (requestKey "acme" sample_id)).
Proof.
  apply (calls_refine_machine (DB := memdb)); [apply noisy_ok, _|apply sample_calls_fresh].
Defined.

Lemma stored_record_invariant_witness :
  let w' := (run_calls sample_calls (noisy w_created)).1 in
  sr_ok (stored_now w') = true ∧ frozen (stored_now w') = frozen (stored_now w_created) ∧
  rq_Status (sr_Request (stored_now w')) = StatusCancelled.
Proof.
  intros w'.
  destruct (stored_record_invariant (DB := memdb) "acme" sample_id sample_calls (noisy w_created)
    (stored_now w_created) (stored_now w')) as (H1 & H2 & _ & _).
  - apply noisy_ok, _.
  - apply sample_calls_fresh.
  - vm_compute. reflexivity.
  - vm_compute. reflexivity.
  - vm_compute. reflexivity.
  - split_and!; [exact H1|exact H2|vm_compute; reflexivity].
Defined.

Definition response_in (status : RequestStatus) : MutationResponse :=
  mkMutationResponse sample_id (mr_ConversationID sample_response) status.

Lemma decide_correct_witness :
  Decide bob sample_id sample_decision w_created =
    ((Decide bob sample_id sample_decision w_created).1, inr (response_in StatusAccepted)) ∧
  ∃ s d, r_get d (requestKey "acme" sample_id) = Some (marshal s) ∧ rq_TargetAgentID (sr_Request s) = p_AgentID bob ∧
    life "acme" sample_id (w_db w_created) d.
Proof.
  split; [by_run|].
  destruct (decide_correct (DB := memdb) bob sample_id sample_decision w_created
    (Decide bob sample_id sample_decision w_created).1 (response_in StatusAccepted))
    as (s & d & H1 & _ & H2 & H3 & _); [quiet|by_run|].
  exists s, d. split_and!; [exact H2|exact H3|exact H1].
Defined.

(** Each uniqueness theorem on a call and its retry, which both succeed. *)
Definition twice {A} (m : M mem_world (rerror cerr) A) (w : mem_world) : mem_world * (rerror cerr + A) := m (m w).1.

Lemma decision_unique_witness :
  (twice (Decide bob sample_id sample_decision) w_created).2 = inr (response_in StatusAccepted) ∧
  dp_DecisionID sample_decision = dp_DecisionID sample_decision ∧ dp_Decision sample_decision = dp_Decision sample_decision.
Proof.
  split; [vm_compute; reflexivity|].
  apply (decision_unique (DB := memdb) bob bob sample_id sample_id sample_decision sample_decision
    w_created (Decide bob sample_id sample_decision w_created).1
    (Decide bob sample_id sample_decision w_created).1
    (twice (Decide bob sample_id sample_decision) w_created).1
    (response_in StatusAccepted) (response_in StatusAccepted));
    [done|vm_compute; reflexivity|quiet|quiet|by_run|apply reflexivity|by_run].
Defined.

Lemma claim_unique_witness :
  (twice (MarkRunning bob sample_id sample_claim) w_decided).2 = inr (response_in StatusRunning) ∧
  sample_claim = sample_claim.
Proof.
  split; [vm_compute; reflexivity|].
  apply (claim_unique (DB := memdb) bob bob sample_id sample_id sample_claim sample_claim
    w_decided (MarkRunning bob sample_id sample_claim w_decided).1
    (MarkRunning bob sample_id sample_claim w_decided).1
    (twice (MarkRunning bob sample_id sample_claim) w_decided).1
    (response_in StatusRunning) (response_in StatusRunning));
    [done|vm_compute; reflexivity|quiet|quiet|by_run|apply reflexivity|by_run].
Defined.

Lemma result_unique_witness :
  (twice (SubmitResult bob sample_id sample_result) w_running).2 = inr (response_in StatusCompleted) ∧
  digestResult sample_result = digestResult sample_result ∧ rp_State sample_result = rp_State sample_result ∧
  rp_ExecutionClaimID sample_result = rp_ExecutionClaimID sample_result ∧
  response_in StatusCompleted = response_in StatusCompleted.
Proof.
  split; [vm_compute; reflexivity|].
  apply (result_unique (DB := memdb) bob bob sample_id sample_id sample_result sample_result
    w_running (SubmitResult bob sample_id sample_result w_running).1
    (SubmitResult bob sample_id sample_result w_running).1
    (twice (SubmitResult bob sample_id sample_result) w_running).1
    (response_in StatusCompleted) (response_in StatusCompleted));
    [done|vm_compute; reflexivity|quiet|quiet|by_run|apply reflexivity|by_run].
Defined.

(** ** Reads *)

Definition alice_view : Request := rq_clear_prompt (sr_Request (stored_now w_created)).
Lemma get_request_access_witness :
  (GetRequest alice sample_id w_created).2 = inr alice_view ∧
  ∃ s : storedRequest, (p_AgentID alice = rq_RequesterAgentID (sr_Request s) ∨ p_AgentID alice = rq_TargetAgentID (sr_Request s)) ∧
    alice_view = rq_clear_prompt (sr_Request s) ∧ rq_Prompt alice_view = "".
Proof.
  split; [vm_compute; reflexivity|].
  destruct (get_request_access (DB := memdb) anything alice sample_id w_created
    (GetRequest alice sample_id w_created).1 alice_view) as (s & _ & H); [quiet|by_run|].
  exists s. exact H.
Defined.

Definition sample_attachment : string :=
  match rq_Attachments (sr_Request (stored_now w_created)) with a :: _ => ad_ArtifactID a | [] => "" end.
Definition no_content : ArtifactContent := mkArtifactContent (mkArtifactDescriptor "" "" "" 0 "") "" "".
Definition sample_content : ArtifactContent := result_of no_content (FetchArtifact bob sample_attachment) w_decided.
Lemma fetch_artifact_access_witness :
  ac_ContentBase64 sample_content = "YWJj" ∧
  ∃ (a : storedArtifact) (s : storedRequest), sa_Direction a = "input" ∧ sa_TargetAgentID a = p_AgentID bob ∧ rq_TargetAgentID (sr_Request s) = p_AgentID bob ∧
    containsArtifact (rq_Attachments (sr_Request s)) (ad_ArtifactID (sa_Descriptor a)) = true ∨ sa_Direction a = "result".
Proof.
  split; [vm_compute; reflexivity|].
  destruct (fetch_artifact_access (DB := memdb) anything bob sample_attachment w_decided
    (FetchArtifact bob sample_attachment w_decided).1 sample_content) as (a & s & _ & _ & _ & [H|H]); [quiet|by_run| |].
  - exists a, s. left. destruct H as (H1 & H2 & H3 & _ & H4). split_and!; [exact H1|exact H2|exact H3|exact H4].
  - exists a, s. right. apply H.
Defined.

Definition no_execution : ExecutionPayload := mkExecutionPayload "" "" "" "" "" "" "" [] [] 0.
Definition sample_execution : ExecutionPayload := result_of no_execution (FetchExecution bob sample_id) w_decided.
Lemma execution_needs_consent_witness :
  ep_Prompt sample_execution = "Look" ∧ ∃ s : storedRequest, sample_execution = execution_of s ∧ allowed_once s = true.
Proof.
  split; [vm_compute; reflexivity|].
  destruct (execution_needs_consent (DB := memdb) bob sample_id w_decided
    (FetchExecution bob sample_id w_decided).1 sample_execution) as (s & _ & H1 & _ & H2).
  - quiet.
  - assert (stored_in w_decided = Some (stored_now w_decided)) as Hstored by (vm_compute; reflexivity).
    intros s Hs. unfold stored_in in Hstored. cbn [p_OrganizationID bob sample_device] in Hs.
    replace (trim_space sample_id) with sample_id in Hs by (vm_compute; reflexivity).
    rewrite Hs in Hstored. apply (Some_inj s) in Hstored. rewrite Hstored. vm_compute. reflexivity.
  - by_run.
  - exists s. split; [exact H1|exact H2].
Defined.

(** ** Creation *)

Definition create_answer (w : mem_world) : MutationResponse * RequestNotice * bool :=
  result_of (no_response, notice alice_view, false) (CreateRequest_ alice sample_input) w.

Lemma create_request_correct_witness :
  (create_answer w_ready).2 = true ∧
  ∃ request, (create_answer w_ready).1 = (mutation request, notice request) ∧
    created_as anything (oracle_of w_ready) alice sample_input (w_db w_ready) request
      (w_db (CreateRequest_ alice sample_input w_ready).1).
Proof.
  split; [vm_compute; reflexivity|].
  destruct (create_request_correct (DB := memdb) anything alice sample_input w_ready
    (CreateRequest_ alice sample_input w_ready).1 (create_answer w_ready).1.1 (create_answer w_ready).1.2 true)
    as (request & H1 & H2 & H3); [quiet|intros; exact I|by_run|].
  exists request. split; [|exact H3].
  rewrite <- H1, <- H2. destruct (create_answer w_ready) as [[] ?]. reflexivity.
Defined.

Lemma created_is_stored_witness :
  ∃ s, r_get (w_db (CreateRequest_ alice sample_input w_ready).1)
         (requestKey "acme" (mr_RequestID (create_answer w_ready).1.1)) = Some (marshal s) ∧
    sr_ok s = true ∧ sr_Prompt s = "Look".
Proof.
  destruct (created_is_stored (DB := memdb) alice sample_input w_ready
    (CreateRequest_ alice sample_input w_ready).1 (create_answer w_ready).1.1 (create_answer w_ready).1.2)
    as (s & H1 & _ & H2 & _ & H3 & _); [by_run|].
  exists s. split_and!; [exact H1|exact H2|exact H3].
Defined.

Lemma create_retry_idempotent_witness :
  (create_answer w_running).1.1 = response_in StatusRunning ∧ (create_answer w_running).2 = false.
Proof.
  split; [vm_compute; reflexivity|].
  apply (create_retry_idempotent (DB := memdb) alice sample_input
    (mkIdempotencyRecord sample_id (requestDigest sample_input)) w_running
    (CreateRequest_ alice sample_input w_running).1 (create_answer w_running).1.1 (create_answer w_running).1.2
    (create_answer w_running).2).
  - quiet.
  - vm_compute. reflexivity.
  - by_run.
Defined.

(** ** Directory *)

Definition sample_card : AgentCard := CollabDirectory.heartbeat_card bob sample_heartbeat (test_clock 2).
Lemma heartbeat_correct_witness :
  card_Capabilities sample_card = ["go"; "docs"] ∧
  r_sismember (w_db (Heartbeat bob sample_heartbeat w_ready).1) (revokedAgentsKey "acme") (p_AgentID bob) = false.
Proof.
  split; [vm_compute; reflexivity|].
  apply (heartbeat_correct (DB := memdb) bob sample_heartbeat w_ready (Heartbeat bob sample_heartbeat w_ready).1 sample_card).
  by_run.
Defined.

Definition sample_query : AgentQuery := mkAgentQuery "GO" ["Docs"] [] true true 5.
Definition sample_directory : AgentDirectoryResponse :=
  result_of (mkAgentDirectoryResponse [] 0) (ListAgents alice sample_query) w_ready.
Lemma list_agents_correct_witness :
  (card_AgentID <$> dir_Agents sample_directory) = ["agent_bob"] ∧ Sorted card_le (dir_Agents sample_directory).
Proof.
  split; [vm_compute; reflexivity|].
  apply (list_agents_correct (DB := memdb) anything alice sample_query w_ready (ListAgents alice sample_query w_ready).1).
  - quiet.
  - intros id d. split; exact I.
  - by_run.
Defined.
