(* ===== verification/ArtifactAgreement.v ===== *)
(** * Artifacts between the relay and the receiver

    What a receiver collects from a runtime passes the relay's checks of
    result files, as long as no two names agree up to case; and what the relay
    serves as attachments passes the receiver's checks, byte for byte. *)

From S2P Require Import Prelude GoString Sha256 GoStringFacts Protocol Records Redis RedisLogic MemRedis CollabStore CollabLifecycle CollabScenario.
From S2P Require Import Redact RedactFacts Artifact Sandbox SandboxProofs BindingFacts.
From Stdlib Require Import Ascii ZifyBool.

Local Open Scope Z_scope.

Section agreement.
Context {DB : Type} `{RL : RedisLaws DB} `{UT : UnicodeTables}.

Lemma portable_name name : is_ok (ValidatePortableFilename name) = true →
  name ≠ "" ∧ trim_space name = name ∧ len name <= 255 ∧ existsb is_control (runes name) = false.
Proof.
  unfold ValidatePortableFilename. destruct (bool_decide (name = "") || _ || _ || _) eqn:H1; [done|].
  destruct (negb (valid_utf8 name) || _) eqn:H2; [done|]. destruct (contains_any _ _); [done|].
  destruct (has_suffix name "." || _); [done|]. destruct (existsb is_control (runes name)); [done|].
  intros _. orb_split. split_and!; try done. lia.
Qed.
(** A name a receiver may send is a name the relay takes. *)
Lemma deliverable_name name : is_ok (ValidatePortableFilename name) = true → sensitiveFilename name = false → validArtifactName name = true.
Proof.
  intros Hok Hs. destruct (portable_name name Hok) as (H1 & H2 & H3 & H4). unfold validArtifactName, validLabel. rewrite Hok, H2, H4.
  rewrite (bool_decide_false (name = "")) by done. assert ((255 <? len name) = false) as -> by lia. cbn [negb orb andb].
  unfold sensitiveFilename in Hs. change sensitive_names with secret_names in Hs. change sensitive_suffixes with secret_suffixes in Hs.
  apply orb_false_iff in Hs as [[Ha Hb]%orb_false_iff Hc]. by rewrite Ha, Hb, Hc.
Qed.

(** A file the relay takes, but for the form of its type. *)
Definition acceptable (i : AttachmentInput) : Prop :=
  validArtifactName (ai_Name i) = true ∧ ai_Encoding i = "base64" ∧
  ∃ payload, b64_decode (ai_ContentBase64 i) = Some payload ∧ ai_SizeBytes i = len payload ∧ ai_SizeBytes i <= MaxAttachmentBytes ∧
    ai_SHA256 i = sha256_hex payload.
Lemma prepare_accepts requestID requester target direction l : ∀ seen total (w : world DB),
  Forall acceptable l → Forall (λ i, validMIMEType (ai_MIMEType i) = true) l →
  NoDup (to_lower ∘ ai_Name <$> l) → Forall (.∉ seen) (to_lower ∘ ai_Name <$> l) →
  total + sum_files l <= MaxRequestPayloadBytes →
  ∃ w' prepared, prepare_loop requestID requester target direction seen total l w = (w', inr prepared).
Proof.
  induction l as [|i l IH]; intros seen total w Hd Hm Hn Hseen Hsum; [by eexists _, _|].
  apply Forall_cons in Hd as [(Hname & Henc & payload & Hdec & Hsize & Hmax & Hsha) Hd].
  apply Forall_cons in Hm as [Hmime Hm]. rewrite fmap_cons in Hn, Hseen. apply NoDup_cons in Hn as [Hnew Hn].
  apply Forall_cons in Hseen as [Hfresh Hseen]. change (sum_files (i :: l)) with (ai_SizeBytes i + sum_files l) in Hsum.
  assert (0 <= sum_files l) as Hpos.
  { clear -Hd. induction Hd as [|x l (_ & _ & p & _ & Hx & _) _ IH]; [done|].
    change (sum_files (x :: l)) with (ai_SizeBytes x + sum_files l). unfold len in Hx. lia. }
  cbn [prepare_loop]. unfold refuse_if. rewrite Hname, Hmime, Henc. rewrite (bool_decide_true ("base64" = "base64")) by done.
  assert ((ai_SizeBytes i <? 0) = false) as -> by (unfold len in *; lia). assert ((MaxAttachmentBytes <? ai_SizeBytes i) = false) as -> by lia.
  rewrite (bool_decide_false (to_lower (ai_Name i) ∈ seen)) by exact Hfresh. rewrite Hdec, Hsize, (bool_decide_true (len payload = len payload)) by done. rewrite Hsize in Hsum.
  assert ((MaxRequestPayloadBytes <? total + len payload) = false) as -> by lia.
  rewrite Hsha. unfold equal_fold. rewrite (bool_decide_true (rune_fold <$> runes (sha256_hex payload) = _)) by done. cbn [negb orb reject_if].
  edestruct (IH ({[to_lower (ai_Name i)]} ∪ seen) (total + len payload)) as (w' & prepared & Hrun); [done|done|done| |lia|].
  - rewrite Forall_forall in Hseen |- *. intros k Hk. specialize (Hseen k Hk). set_solver.
  - unfold mbind, M_bind, mret, M_ret. cbn. erewrite Hrun. by eexists _, _.
Qed.

Section collected.
Variables (TypeByExtension DetectContentType : string → string).
(** Packages [mime] and [net/http] answer media types that parse, have no
    control characters and are at most 255 bytes long; the former answers
    nothing for an extension it does not know. *)
Definition media_types : Prop :=
  (∀ extension, TypeByExtension extension = "" ∨ validMIMEType (TypeByExtension extension) = true) ∧
  (∀ payload, validMIMEType (DetectContentType payload) = true).
Lemma mime_of_valid name payload : media_types → validMIMEType (mime_of TypeByExtension DetectContentType name payload) = true.
Proof. intros [Hext Hcontent]. unfold mime_of. case_bool_decide as He; [done|]. by destruct (Hext (to_lower (file_ext name))). Qed.
Lemma deliverable_acceptable i : deliverable TypeByExtension DetectContentType i → acceptable i.
Proof.
  intros ((Hok & Hs & _) & payload & Henc & Hdec & Hsize & Hmax & Hsha & _). split; [by apply deliverable_name|]. split; [done|]. by exists payload.
Qed.
Lemma deliverable_mime i : media_types → deliverable TypeByExtension DetectContentType i → validMIMEType (ai_MIMEType i) = true.
Proof. intros Hm (_ & payload & _ & _ & _ & _ & _ & -> & _). by apply mime_of_valid. Qed.

(** C40. The relay takes what the receiver collects.  The files of a
    successful collection, when no two of their names agree up to case, pass
    every check of the relay on result files, at any moment of the relay: they
    are stored under the same names, sizes and digests, and with the same
    content.  The types that packages [mime] and [net/http] answer are taken to
    be media types, of at most 255 bytes. *)
Theorem collected_results_accepted answer windows owned returnInfo t t' l requestID requester target direction (w : world DB) :
  media_types →
  CollectResults answer TypeByExtension DetectContentType windows owned returnInfo t = (t', inr l) → NoDup (to_lower ∘ ai_Name <$> l) →
  Z.of_nat (length l) <= MaxAttachments ∧
  ∃ w' prepared, prepareArtifacts l requestID requester target direction w = (w', inr prepared) ∧
    Forall2 (prepared_from requestID requester target direction) l prepared.
Proof.
  intros Htypes (Hlen & Hsum & Hall)%collect_results_facts Hnames. split; [done|].
  destruct (prepare_accepts requestID requester target direction l ∅ 0 w) as (w' & prepared & Hrun); [| |done| |done|].
  { eapply Forall_impl; [exact Hall|]. apply deliverable_acceptable. }
  { eapply Forall_impl; [exact Hall|]. intros i. by apply deliverable_mime. }
  { apply Forall_forall. set_solver. }
  exists w', prepared. split; [exact Hrun|]. apply prepare_loop_run in Hrun as [? _]; [done|by unfold MaxRequestPayloadBytes].
Qed.
End collected.

(** ** Attachments *)

Lemma art_id_not_blank r : trim_space ("art_" +:+ hex_encode r) ≠ "".
Proof.
  assert (forallb (λ c, (byte_val c <? 128) && negb (is_space (byte_val c))) (bytes ("art_" +:+ hex_encode r)) = true) as Hall.
  { rewrite bytes_app, forallb_app. apply andb_true_iff. split; [done|]. apply forallb_forall. intros c Hc%list_elem_of_In.
    pose proof (hex_encode_digits r) as Hd. rewrite Forall_forall in Hd. specialize (Hd c Hc). unfold is_space, in_range in *. lia. }
  rewrite trim_space_plain; [done|]. rewrite runes_ascii.
  - rewrite forallb_forall in Hall |- *. intros x Hx%list_elem_of_In. apply list_elem_of_fmap in Hx as (c & -> & Hc). apply list_elem_of_In, Hall in Hc. lia.
  - unfold is_ascii. apply forallb_forall. rewrite forallb_forall in Hall. intros c Hc%Hall. lia.
Qed.
Lemma prepared_descriptor requestID requester target direction i pa : prepared_from requestID requester target direction i pa →
  descriptor_ok pa.1 ∧ ad_Name pa.1 = ai_Name i ∧ ad_SizeBytes pa.1 = ai_SizeBytes i ∧
  ∃ payload, verifyContent pa.1 (Some (mkArtifactContent (sa_Descriptor pa.2) (sa_Encoding pa.2) (sa_ContentBase64 pa.2))) = inr payload ∧
    b64_decode (ai_ContentBase64 i) = Some payload.
Proof.
  intros (Hname & _ & Hsize & payload & Hdec & Hlen & _ & (r & Hd) & Ha). destruct pa as [d a]. cbn [fst snd] in *. subst. cbn [ad_Name ad_SizeBytes sa_Descriptor sa_Encoding sa_ContentBase64].
  split; [|split; [done|split; [done|exists payload; split; [|done]]]].
  - unfold validArtifactName in Hname. destruct (negb (is_ok _) || _) eqn:Hor in Hname; [done|]. orb_split.
    split_and!; cbn; [apply art_id_not_blank|done|lia|lia|unfold len; by rewrite length_sha256_hex|]. unfold sha256_hex. rewrite hex_decode_encode. by eexists.
  - apply verifyContent_spec. eexists. do 3 (split; [reflexivity|]). split; [exact Hdec|]. unfold matches_descriptor. cbn [ad_SizeBytes ad_SHA256].
    split_and!; [done|lia|]. unfold equal_fold. by apply bool_decide_eq_true.
Qed.
(** What the relay stores as attachments, the receiver accepts: the list of
    descriptors, and the content of each. *)
Theorem served_attachments_accepted inputs requestID requester target direction (w w' : world DB) prepared :
  prepareArtifacts inputs requestID requester target direction w = (w', inr prepared) → NoDup (ad_ArtifactID <$> prepared.*1) →
  validateDescriptors prepared.*1 = inr () ∧
  Forall2 (λ i pa, ∃ payload, verifyContent pa.1 (Some (mkArtifactContent (sa_Descriptor pa.2) (sa_Encoding pa.2) (sa_ContentBase64 pa.2))) = inr payload ∧
    b64_decode (ai_ContentBase64 i) = Some payload) inputs prepared.
Proof.
  intros Hrun Hids. apply prepare_loop_run in Hrun as (Hall & Hsum & Hnames & _); [|by unfold MaxRequestPayloadBytes].
  assert (Forall descriptor_ok prepared.*1 ∧ (to_lower ∘ ad_Name <$> prepared.*1) = ((λ i, to_lower (ai_Name i)) <$> inputs) ∧
    sum_sizes prepared.*1 = total_size inputs) as (H1 & H2 & H3).
  { clear -Hall. induction Hall as [|i pa inputs prepared Hi _ (IH1 & IH2 & IH3)]; [by split_and!|].
    apply prepared_descriptor in Hi as (Hd & Hn & Hs & _). rewrite !fmap_cons. split_and!; [by constructor|by rewrite IH2; cbn; rewrite Hn|].
    change (sum_sizes (?x :: ?y)) with (ad_SizeBytes x + sum_sizes y). change (total_size (?x :: ?y)) with (ai_SizeBytes x + total_size y). by rewrite IH3, Hs. }
  split; [apply validateDescriptors_spec; rewrite H2, H3; split_and!; done|].
  eapply Forall2_impl; [exact Hall|]. intros i pa (_ & _ & _ & Hc)%prepared_descriptor. exact Hc.
Qed.
End agreement.

(** ** Artifacts at concrete inputs

    A request with one attachment is materialised, its report is collected and
    taken by the relay; a fetch that fails leaves nothing; and two files whose
    names differ only in case are collected but refused. *)

#[local] Instance wit_tables : UnicodeTables := ascii_tables.

(** An ordinary directory of private files. *)
Definition plain_os (names : list string) (contents : string → string) (n : nat) (B : Type) (x : oscall B) : B :=
  match x in oscall B return B with
  | OsLstatReturn | OsStatOpened => Some (mkFileInfo KindDirectory 448 0 1)
  | OsValidateReturn | OsOpenReturn => true
  | OsReadDir => Some names
  | OsLstat name => Some (mkFileInfo KindRegular 384 (len (contents name)) 2)
  | OsStat _ => Some (mkFileInfo KindRegular 384 0 2)
  | OsValidateContained _ | OsClose _ => true
  | OsOpen name => Some (default 0%nat (fst <$> list_find (name =.) names))
  | OsReadAll file => contents <$> names !! file
  end.
Definition by_extension (ext : string) : string := if bool_decide (ext = ".txt") then "text/plain" else "".
Definition by_content (payload : string) : string := "application/octet-stream".
Definition pinned : option FileInfo := Some (mkFileInfo KindDirectory 448 0 1).
Definition collected (names : list string) : nat * (artifact_error + list AttachmentInput) :=
  CollectResults (plain_os names (λ _, "All tests pass.")) by_extension by_content false true pinned 0%nat.
Definition report : AttachmentInput :=
  mkAttachmentInput "report.txt" "text/plain" "base64" 15 (sha256_hex "All tests pass.") "QWxsIHRlc3RzIHBhc3Mu".

Lemma report_collected : (collected ["report.txt"]).2 = inr [report].
Proof. vm_compute. reflexivity. Qed.
Lemma collect_results_correct_witness :
  all_read (plain_os ["report.txt"] (λ _, "All tests pass.")) by_extension by_content false 6 [report] ∧ sum_files [report] <= MaxRequestPayloadBytes.
Proof.
  destruct (collect_results_correct (plain_os ["report.txt"] (λ _, "All tests pass.")) by_extension by_content false true pinned
    0%nat (collected ["report.txt"]).1 [report]) as (_ & _ & _ & _ & Hall & _ & Hsum).
  - transitivity ((collected ["report.txt"]).1, (collected ["report.txt"]).2); [reflexivity|by rewrite report_collected].
  - exact (conj Hall Hsum).
Defined.
Lemma sample_types : media_types by_extension by_content.
Proof.
  split; [|intros payload; vm_compute; reflexivity]. intros extension. unfold by_extension. case_bool_decide; [right|by left]. vm_compute. reflexivity.
Qed.
Lemma collected_results_accepted_witness : ∃ w' prepared,
  prepareArtifacts [report] "req_1" "agent_a" "agent_b" "result" (test_world mem_empty) = (w', inr prepared) ∧ length prepared = 1%nat.
Proof.
  destruct (collected_results_accepted by_extension by_content (plain_os ["report.txt"] (λ _, "All tests pass.")) false true pinned
    0%nat (collected ["report.txt"]).1 [report] "req_1" "agent_a" "agent_b" "result" (test_world mem_empty)) as (_ & w' & prepared & Hrun & H2).
  - exact sample_types.
  - transitivity ((collected ["report.txt"]).1, (collected ["report.txt"]).2); [reflexivity|by rewrite report_collected].
  - repeat constructor. apply not_elem_of_nil.
  - exists w', prepared. split; [exact Hrun|]. by apply Forall2_length in H2.
Defined.

(** The receiver does not look for names that agree up to case: a result with
    two such files is collected, and the relay refuses it for ever. *)
Definition Report : AttachmentInput :=
  mkAttachmentInput "Report.txt" "text/plain" "base64" 15 (sha256_hex "All tests pass.") "QWxsIHRlc3RzIHBhc3Mu".
Lemma collected_names_can_clash :
  (collected ["Report.txt"; "report.txt"]).2 = inr [Report; report] ∧
  (prepareArtifacts [Report; report] "req_1" "agent_a" "agent_b" "result" (test_world mem_empty)).2 = inl (Sentinel ErrInvalid).
Proof. split; [vm_compute; reflexivity|vm_compute; reflexivity]. Qed.

(** ** A sandbox *)

Definition notes : ArtifactDescriptor := mkArtifactDescriptor "art_1" "notes.txt" "text/plain" 5 (sha256_hex "hello").
Definition bob_files (served : option (option ArtifactContent)) : disk :=
  mkDisk (NDir 448 [("other", NFile 384 "kept")]) 0%nat (λ _, Fine) (λ _, Some "0123456789abcdef") (λ n, n) (λ _ _, served).
Definition served_notes : option (option ArtifactContent) := Some (Some (mkArtifactContent notes "base64" "aGVsbG8=")).
Definition bob_room : string := requestDirectoryPrefix +:+ hex_encode "0123456789abcdef".

Lemma materialize_correct_witness :
  (∃ w' s, Materialize "/srv/relay" false [notes] true (bob_files served_notes) = (w', inr s) ∧
     node_at [bob_room; "attachments"; "notes.txt"] (dk_root w') = Some (NFile 256 "hello") ∧ complete "/srv/relay" false bob_room [notes] s w') ∧
  (∃ w', Materialize "/srv/relay" false [notes] true (bob_files None) = (w', inl ErrFetch) ∧ undone (bob_files None) w').
Proof.
  pose proof (materialize_correct "/srv/relay" false eq_refl [notes] true (bob_files served_notes)) as Hgood.
  pose proof (materialize_correct "/srv/relay" false eq_refl [notes] true (bob_files None)) as Hbad.
  assert (match (Materialize "/srv/relay" false [notes] true (bob_files served_notes)) with (w', inr s) =>
    bool_decide (sx_name s = bob_room) && match node_at [bob_room; "attachments"; "notes.txt"] (dk_root w') with
      Some (NFile m p) => (m =? 256) && bool_decide (p = "hello") | _ => false end | _ => false end = true) as Hrun by (vm_compute; reflexivity).
  assert ((Materialize "/srv/relay" false [notes] true (bob_files None)).2 = inl ErrFetch) as Hfail by (vm_compute; reflexivity).
  split.
  - destruct (Materialize "/srv/relay" false [notes] true (bob_files served_notes)) as [w' [e|s]]; [discriminate Hrun|]. exists w', s.
    split; [reflexivity|]. apply andb_true_iff in Hrun as [Hn%bool_decide_eq_true Hf].
    destruct Hgood as (name & _ & _ & Hc & _). assert (name = bob_room) as -> by (destruct Hc as (_ & _ & _ & Hx & _); exact (eq_trans (eq_sym Hx) Hn)).
    destruct (node_at _ _) as [[m p| |]|]; try discriminate Hf. apply andb_true_iff in Hf as [->%Z.eqb_eq ->%bool_decide_eq_true].
    exact (conj eq_refl Hc).
  - destruct (Materialize "/srv/relay" false [notes] true (bob_files None)) as [w' [e|s]]; [|discriminate Hfail].
    injection Hfail as ->. exists w'. exact (conj eq_refl Hbad).
Defined.
