(* ===== verification/Hub.v ===== *)
(** * Live notifications ([internal/collaboration/hub.go])

    The in-process hub that pushes notifications to connected event streams.
    Every method is one atomic step under the hub's lock, except [Publish],
    whose sends happen under the read lock and whose overflow handling takes
    the write lock once per channel afterwards: the steps of [hub_step] may
    interleave in between.  Closing a closed channel and sending on one panic
    in Go; here they make the operation undefined, and [hub_never_panics]
    shows that no interleaving reaches either. *)

From S2P Require Import Prelude.

Local Open Scope nat_scope.

Section hub.
Context {payload : Type}.

Record event := mkEvent { ev_Type : string; ev_Payload : payload }.

(** A buffered channel: what is queued, and whether it is closed. *)
Record channel := mkChannel { ch_buffer : list event; ch_closed : bool }.
Definition channel_capacity : nat := 32.

Record Hub := mkHub {
  subscribers : gmap string (gset nat);
  revoked : gset string;
  channels : gmap nat channel;
  next_channel : nat }.

Definition NewHub : Hub := mkHub ∅ ∅ ∅ 0.

(** [organizationID + "\x00" + agentID] *)
Definition hub_key (organizationID agentID : string) : string :=
  organizationID +:+ String.String Ascii.zero "" +:+ agentID.

Definition subs (h : Hub) (key : string) : gset nat := default ∅ (subscribers h !! key).
Definition set_subs (key : string) (s : gset nat) (h : Hub) : Hub :=
  mkHub (if decide (s = ∅) then delete key (subscribers h) else <[key := s]> (subscribers h))
    (revoked h) (channels h) (next_channel h).

(** [close(channel)]: undefined on a closed channel. *)
Definition close_channel (c : nat) (h : Hub) : option Hub :=
  ch ← channels h !! c;
  if ch_closed ch then None
  else Some (mkHub (subscribers h) (revoked h) (<[c := mkChannel (ch_buffer ch) true]> (channels h)) (next_channel h)).
Fixpoint close_all (cs : list nat) (h : Hub) : option Hub :=
  match cs with [] => Some h | c :: cs' => h' ← close_channel c h; close_all cs' h' end.

(** [make(chan event, 32)], then the registration. *)
Definition Subscribe (organizationID agentID : string) (h : Hub) : nat * Hub :=
  let key := hub_key organizationID agentID in
  let c := next_channel h in
  let is_revoked := bool_decide (key ∈ revoked h) in
  let h' := mkHub (subscribers h) (revoked h) (<[c := mkChannel [] is_revoked]> (channels h)) (S c) in
  (c, if is_revoked then h' else set_subs key ({[c]} ∪ subs h key) h').

(** The body shared by the cancel function and [dropSubscriber]. *)
Definition dropSubscriber (key : string) (c : nat) (h : Hub) : option Hub :=
  if decide (c ∈ subs h key) then close_channel c (set_subs key (subs h key ∖ {[c]}) h) else Some h.

Definition Revoke (organizationID agentID : string) (h : Hub) : option Hub :=
  let key := hub_key organizationID agentID in
  let h1 := mkHub (subscribers h) ({[key]} ∪ revoked h) (channels h) (next_channel h) in
  h2 ← close_all (elements (subs h key)) h1;
  Some (set_subs key ∅ h2).

Definition IsRevoked (organizationID agentID : string) (h : Hub) : bool :=
  bool_decide (hub_key organizationID agentID ∈ revoked h).

(** One send of the loop of [Publish]: [true] when the buffer was full. *)
Definition send_one (e : event) (c : nat) (h : Hub) : option (bool * Hub) :=
  ch ← channels h !! c;
  if ch_closed ch then None else
  if decide (length (ch_buffer ch) < channel_capacity)
  then Some (false, mkHub (subscribers h) (revoked h)
         (<[c := mkChannel (ch_buffer ch ++ [e]) false]> (channels h)) (next_channel h))
  else Some (true, h).
Fixpoint send_all (e : event) (cs : list nat) (h : Hub) : option (list nat * Hub) :=
  match cs with
  | [] => Some ([], h)
  | c :: cs' =>
    '(full, h1) ← send_one e c h;
    '(over, h2) ← send_all e cs' h1;
    Some ((if (full : bool) then c :: over else over), h2)
  end.
(** The read-locked half of [Publish]; the caller then drops each overflowed
    channel in a step of its own. *)
Definition Publish_send (organizationID agentID : string) (e : event) (h : Hub) : option (list nat * Hub) :=
  send_all e (elements (subs h (hub_key organizationID agentID))) h.
Fixpoint drop_all (key : string) (cs : list nat) (h : Hub) : option Hub :=
  match cs with [] => Some h | c :: cs' => h' ← dropSubscriber key c h; drop_all key cs' h' end.
Definition Publish (organizationID agentID : string) (e : event) (h : Hub) : option Hub :=
  '(over, h1) ← Publish_send organizationID agentID e h;
  drop_all (hub_key organizationID agentID) over h1.

(** A stream takes the next queued event, also from a closed channel. *)
Definition receive (c : nat) (h : Hub) : Hub :=
  match channels h !! c with
  | Some (mkChannel (_ :: rest) closed) =>
    mkHub (subscribers h) (revoked h) (<[c := mkChannel rest closed]> (channels h)) (next_channel h)
  | _ => h
  end.

(** ** Interleavings *)

Inductive action :=
  | ASubscribe (org agent : string)
  | ACancel (key : string) (c : nat)       (** the cancel function of a subscription *)
  | ARevoke (org agent : string)
  | APublishSend (org agent : string) (e : event)
  | ADrop (key : string) (c : nat)         (** the later half of a publication *)
  | AReceive (c : nat).

(** [None] is a panic. *)
Definition act (a : action) (h : Hub) : option Hub :=
  match a with
  | ASubscribe org agent => Some (Subscribe org agent h).2
  | ACancel key c | ADrop key c => dropSubscriber key c h
  | ARevoke org agent => Revoke org agent h
  | APublishSend org agent e => snd <$> Publish_send org agent e h
  | AReceive c => Some (receive c h)
  end.
Fixpoint acts (l : list action) (h : Hub) : option Hub :=
  match l with [] => Some h | a :: l' => h' ← act a h; acts l' h' end.

(** ** Invariant *)

Record hub_ok (h : Hub) : Prop := mkHubOk {
  ok_open : ∀ key c, c ∈ subs h key → ∃ ch, channels h !! c = Some ch ∧ ch_closed ch = false;
  ok_owner : ∀ key key' c, c ∈ subs h key → c ∈ subs h key' → key = key';
  ok_revoked : ∀ key, key ∈ revoked h → subs h key = ∅;
  ok_fresh : ∀ c, next_channel h ≤ c → channels h !! c = None;
  ok_bounded : ∀ c ch, channels h !! c = Some ch → length (ch_buffer ch) ≤ channel_capacity;
  ok_nonempty : ∀ key s, subscribers h !! key = Some s → s ≠ ∅ }.

Lemma subs_set_subs key s h key' :
  subs (set_subs key s h) key' = if decide (key = key') then s else subs h key'.
Proof.
  unfold subs, set_subs. simpl. destruct (decide (s = ∅)) as [->|Hs], (decide (key = key')) as [->|Hne].
  - by rewrite lookup_delete_eq.
  - by rewrite lookup_delete_ne.
  - by rewrite lookup_insert_eq.
  - by rewrite lookup_insert_ne.
Qed.

Lemma NewHub_ok : hub_ok NewHub.
Proof. split; unfold NewHub, subs; simpl; intros *; rewrite ?lookup_empty; set_solver. Qed.

(** Changing channels only. *)
Definition set_channels (m : gmap nat channel) (h : Hub) : Hub :=
  mkHub (subscribers h) (revoked h) m (next_channel h).
Definition shut (ch : channel) : channel := mkChannel (ch_buffer ch) true.

Lemma close_channel_open c ch h :
  channels h !! c = Some ch → ch_closed ch = false →
  close_channel c h = Some (set_channels (<[c := shut ch]> (channels h)) h).
Proof. intros Hc Ho. unfold close_channel. rewrite Hc. simpl. by rewrite Ho. Qed.

Lemma close_all_open cs h :
  NoDup cs → (∀ c, c ∈ cs → ∃ ch, channels h !! c = Some ch ∧ ch_closed ch = false) →
  ∃ m, close_all cs h = Some (set_channels m h) ∧
    (∀ c, c ∉ cs → m !! c = channels h !! c) ∧
    (∀ c ch, c ∈ cs → channels h !! c = Some ch → m !! c = Some (shut ch)).
Proof.
  revert h. induction cs as [|c cs IH]; intros h Hnd Hopen.
  { exists (channels h). split; [by destruct h|]. split; [done|]. intros c ch Hc. by apply elem_of_nil in Hc. }
  apply NoDup_cons in Hnd as [Hc Hnd]. destruct (Hopen c) as (ch & Hch & Ho); [by left|].
  cbn [close_all]. rewrite (close_channel_open c ch h Hch Ho). simpl.
  destruct (IH (set_channels (<[c := shut ch]> (channels h)) h)) as (m & -> & Hout & Hin); [done| |].
  { intros c' Hc'. simpl. rewrite lookup_insert_ne by congruence. apply Hopen. by right. }
  exists m. split; [done|]. split.
  - intros c' Hc'. apply not_elem_of_cons in Hc' as [Hne Hc']. rewrite Hout by done. simpl. by rewrite lookup_insert_ne.
  - intros c' ch' Hc' Hch'. apply elem_of_cons in Hc' as [->|Hc'].
    + rewrite Hout by done. simpl. rewrite lookup_insert_eq. congruence.
    + apply Hin; [done|]. simpl. rewrite lookup_insert_ne by congruence. done.
Qed.

(** Detaching [gone] from [key], with its channels shut, keeps the hub well
    formed: the common step of cancellation, overflow and revocation. *)
Lemma detach_ok key (gone : gset nat) (tomb : gset string) m h :
  hub_ok h → gone ⊆ subs h key → (∀ k, k ∈ tomb → k ∈ revoked h ∨ (k = key ∧ gone = subs h key)) →
  (∀ c, c ∉ gone → m !! c = channels h !! c) →
  (∀ c ch, c ∈ gone → channels h !! c = Some ch → m !! c = Some (shut ch)) →
  hub_ok (set_subs key (subs h key ∖ gone) (mkHub (subscribers h) tomb m (next_channel h))).
Proof.
  intros Hok Hgone Htomb Hout Hin. destruct Hok as [Hopen Howner Hrev Hfresh Hbound Hne].
  set (h0 := mkHub _ _ _ _). assert (∀ k, subs (set_subs key (subs h key ∖ gone) h0) k =
    if decide (key = k) then subs h key ∖ gone else subs h k) as Hs by (intros k; by rewrite subs_set_subs).
  split.
  - intros k c Hc. rewrite Hs in Hc. assert ((c ∉ gone) ∧ c ∈ subs h k) as [Hc1 Hc2].
    { case_decide as Hk; [subst k; set_solver|]. split; [|done]. intros Hg%Hgone. by destruct Hk, (Howner key k c Hg Hc). }
    simpl. rewrite Hout by done. by eapply Hopen.
  - intros k k' c Hc Hc'. rewrite Hs in Hc, Hc'.
    apply (Howner k k' c); repeat case_decide; subst; set_solver.
  - intros k Hk. rewrite Hs. apply Htomb in Hk as [Hk|[-> ->]].
    + case_decide; subst; rewrite Hrev; set_solver.
    + rewrite decide_True by done. set_solver.
  - intros c Hc. simpl in Hc |- *. rewrite Hout; [by apply Hfresh|].
    intros Hg%Hgone. destruct (Hopen key c Hg) as (ch & Hch & _). by rewrite Hfresh in Hch.
  - intros c ch Hc. simpl in Hc. destruct (decide (c ∈ gone)) as [Hg|Hg].
    + destruct (Hopen key c) as (ch' & Hch' & _); [by apply Hgone|].
      rewrite (Hin c ch' Hg Hch') in Hc. injection Hc as <-. by apply (Hbound c ch').
    + rewrite Hout in Hc by done. by eapply Hbound.
  - intros k s Hk. unfold set_subs in Hk. simpl in Hk. case_decide as Hempty.
    + apply lookup_delete_Some in Hk as [_ Hk]. by eapply Hne.
    + destruct (decide (key = k)) as [->|Hkk]; [rewrite lookup_insert_eq in Hk; congruence|].
      rewrite lookup_insert_ne in Hk by done. by eapply Hne.
Qed.

Lemma dropSubscriber_ok key c h : hub_ok h → ∃ h', dropSubscriber key c h = Some h' ∧ hub_ok h'.
Proof.
  intros Hok. unfold dropSubscriber. destruct (decide (c ∈ subs h key)) as [Hc|Hc]; [|by exists h].
  destruct (ok_open h Hok key c Hc) as (ch & Hch & Ho).
  rewrite (close_channel_open c ch) by done. eexists; split; [done|].
  change (hub_ok (set_subs key (subs h key ∖ {[c]})
    (mkHub (subscribers h) (revoked h) (<[c := shut ch]> (channels h)) (next_channel h)))).
  apply detach_ok; [done|set_solver|by left| |].
  - intros c' Hc'. rewrite lookup_insert_ne; [done|set_solver].
  - intros c' ch' ->%elem_of_singleton Hch'. rewrite lookup_insert_eq. congruence.
Qed.

Lemma Revoke_ok org agent h : hub_ok h → ∃ h', Revoke org agent h = Some h' ∧ hub_ok h'.
Proof.
  intros Hok. unfold Revoke. set (key := hub_key org agent).
  destruct (close_all_open (elements (subs h key)) (mkHub (subscribers h) ({[key]} ∪ revoked h) (channels h) (next_channel h)))
    as (m & Hm & Hout & Hin); [apply NoDup_elements|intros c Hc%elem_of_elements; by apply (ok_open h Hok key)|].
  rewrite Hm. eexists; split; [done|].
  assert (∅ = subs h key ∖ subs h key) as -> by set_solver.
  change (hub_ok (set_subs key (subs h key ∖ subs h key)
    (mkHub (subscribers h) ({[key]} ∪ revoked h) m (next_channel h)))).
  apply detach_ok; [done|set_solver|set_solver| |].
  - intros c Hc. apply Hout. by rewrite elem_of_elements.
  - intros c ch Hc. apply Hin. by rewrite elem_of_elements.
Qed.

Lemma Subscribe_ok org agent h : hub_ok h → hub_ok (Subscribe org agent h).2.
Proof.
  intros Hok. pose proof Hok as [Hopen Howner Hrev Hfresh Hbound Hne]. unfold Subscribe.
  set (key := hub_key org agent). set (c := next_channel h).
  assert (∀ k c', c' ∈ subs h k → c' ≠ c) as Hnew.
  { intros k c' Hc' ->. destruct (Hopen k c Hc') as (ch & Hch & _). by rewrite Hfresh in Hch. }
  case_bool_decide as Hr; simpl.
  - split; simpl.
    + intros k c' Hc'. rewrite lookup_insert_ne by (by apply not_eq_sym, (Hnew k)). by eapply Hopen.
    + done.
    + done.
    + intros c' Hc'. rewrite lookup_insert_ne by (unfold c; lia). apply Hfresh. lia.
    + intros c' ch. destruct (decide (c = c')) as [<-|Hcc]; [rewrite lookup_insert_eq; by intros [= <-]; simpl; lia|].
      rewrite lookup_insert_ne by done. apply Hbound.
    + done.
  - set (h0 := mkHub _ _ _ _).
    assert (∀ k, subs (set_subs key ({[c]} ∪ subs h key) h0) k =
      if decide (key = k) then {[c]} ∪ subs h key else subs h k) as Hs by (intros k; by rewrite subs_set_subs).
    split; try (intros k; rewrite Hs); simpl.
    + intros c' Hc'. destruct (decide (c = c')) as [<-|Hcc]; [rewrite lookup_insert_eq; by eexists|].
      rewrite lookup_insert_ne by done. apply (Hopen k). case_decide; subst; set_solver.
    + intros k' c' Hc. rewrite Hs. intros Hc'. destruct (decide (c = c')) as [<-|Hcc].
      * repeat case_decide; subst; try done; exfalso; [by apply (Hnew k' c)|by apply (Hnew k c)|by apply (Hnew k c)].
      * apply (Howner k k' c'); repeat case_decide; subst; set_solver.
    + intros Hk. case_decide; subst; [done|]. by apply Hrev.
    + intros c' Hc'. rewrite lookup_insert_ne by (unfold c; lia). apply Hfresh. lia.
    + intros c' ch. destruct (decide (c = c')) as [<-|Hcc]; [rewrite lookup_insert_eq; by intros [= <-]; simpl; lia|].
      rewrite lookup_insert_ne by done. apply Hbound.
    + intros k s Hk. unfold set_subs in Hk. rewrite decide_False in Hk by set_solver. simpl in Hk.
      destruct (decide (key = k)) as [<-|Hkk]; [rewrite lookup_insert_eq in Hk; set_solver|].
      rewrite lookup_insert_ne in Hk by done. by eapply Hne.
Qed.

(** Sends and receives only move events in open or draining buffers. *)
Lemma buffer_ok c ch buf h :
  hub_ok h → channels h !! c = Some ch → length buf ≤ channel_capacity →
  hub_ok (set_channels (<[c := mkChannel buf (ch_closed ch)]> (channels h)) h).
Proof.
  intros [Hopen Howner Hrev Hfresh Hbound Hne] Hch Hlen. split; simpl; try done.
  - intros k c' Hc'. destruct (Hopen k c' Hc') as (ch' & Hch' & Ho). destruct (decide (c = c')) as [<-|Hcc].
    + rewrite lookup_insert_eq. eexists; split; [done|]. simpl. congruence.
    + rewrite lookup_insert_ne by done. eauto.
  - intros c' Hc'. destruct (decide (c = c')) as [<-|Hcc]; [by rewrite Hfresh in Hch|].
    rewrite lookup_insert_ne by done. by apply Hfresh.
  - intros c' ch'. destruct (decide (c = c')) as [<-|Hcc]; [rewrite lookup_insert_eq; by intros [= <-]|].
    rewrite lookup_insert_ne by done. apply Hbound.
Qed.

Lemma receive_ok c h : hub_ok h → hub_ok (receive c h).
Proof.
  intros Hok. unfold receive. destruct (channels h !! c) as [[[|e rest] closed]|] eqn:Hch; try done.
  apply (buffer_ok c (mkChannel (e :: rest) closed) rest h Hok Hch).
  pose proof (ok_bounded h Hok c _ Hch). simpl in *. lia.
Qed.

(** What one send does to an open channel of a well-formed hub. *)
Definition delivered (e : event) (c : nat) (h h' : Hub) (full : bool) : Prop :=
  ∃ ch, channels h !! c = Some ch ∧
    if full then length (ch_buffer ch) = channel_capacity ∧ channels h' !! c = Some ch
    else channels h' !! c = Some (mkChannel (ch_buffer ch ++ [e]) false).

Lemma send_one_ok e c key h :
  hub_ok h → c ∈ subs h key →
  ∃ full h', send_one e c h = Some (full, h') ∧ hub_ok h' ∧ subscribers h' = subscribers h ∧
    revoked h' = revoked h ∧ (∀ c', c' ≠ c → channels h' !! c' = channels h !! c') ∧ delivered e c h h' full.
Proof.
  intros Hok Hc. destruct (ok_open h Hok key c Hc) as (ch & Hch & Ho). unfold send_one. rewrite Hch. simpl. rewrite Ho.
  pose proof (ok_bounded h Hok c ch Hch) as Hb. case_decide as Hlt.
  - eexists _, _. split; [done|]. split; [|split_and!; try done].
    + pose proof (buffer_ok c ch (ch_buffer ch ++ [e]) h Hok Hch) as Hbuf. rewrite Ho in Hbuf. apply Hbuf.
      rewrite length_app. simpl. lia.
    + intros c' Hne. simpl. by rewrite lookup_insert_ne.
    + exists ch. split; [done|]. simpl. by rewrite lookup_insert_eq.
  - eexists _, _. split; [done|]. split_and!; try done. exists ch. split_and!; [done|lia|done].
Qed.

Lemma subs_same h h' key : subscribers h' = subscribers h → subs h' key = subs h key.
Proof. unfold subs. by intros ->. Qed.

Lemma send_all_ok e key cs h :
  hub_ok h → NoDup cs → (∀ c, c ∈ cs → c ∈ subs h key) →
  ∃ over h', send_all e cs h = Some (over, h') ∧ hub_ok h' ∧ subscribers h' = subscribers h ∧
    revoked h' = revoked h ∧ (∀ c, c ∉ cs → channels h' !! c = channels h !! c) ∧
    NoDup over ∧ (∀ c, c ∈ over → c ∈ cs) ∧
    (∀ c, c ∈ cs → delivered e c h h' (bool_decide (c ∈ over))).
Proof.
  revert h. induction cs as [|c cs IH]; intros h Hok Hnd Hin.
  { exists [], h. split_and!; try done. intros c Hc. by apply elem_of_nil in Hc. }
  apply NoDup_cons in Hnd as [Hc Hnd].
  destruct (send_one_ok e c key h Hok) as (full & h1 & H1 & Hok1 & Hsub1 & Hrev1 & Hother1 & Hdel1); [apply Hin; by left|].
  destruct (IH h1 Hok1 Hnd) as (over & h2 & H2 & Hok2 & Hsub2 & Hrev2 & Hother2 & Hnd2 & Hover & Hdel2).
  { intros c' Hc'. rewrite (subs_same h) by done. apply Hin. by right. }
  exists (if full then c :: over else over), h2. cbn [send_all]. rewrite H1. simpl. rewrite H2. simpl.
  assert (c ∉ over) as Hnc by (intros ?%Hover; done).
  split_and!; try done; try congruence.
  - intros c' [Hne Hc']%not_elem_of_cons. rewrite Hother2, Hother1; done.
  - destruct full; [by constructor|done].
  - intros c' Hc'. destruct full; [apply elem_of_cons in Hc' as [->|Hc']; [by left|]|]; right; auto.
  - intros c' [->|Hc']%elem_of_cons.
    + destruct Hdel1 as (ch & Hch & Hf). exists ch. split; [done|]. rewrite (Hother2 c Hc).
      destruct full; [rewrite bool_decide_true by (by left)|rewrite bool_decide_false by done]; done.
    + assert (c' ≠ c) as Hne by (by intros ->). destruct (Hdel2 c' Hc') as (ch & Hch & Hf).
      rewrite Hother1 in Hch by done. exists ch. split; [done|].
      destruct full; [|done]. rewrite (bool_decide_ext (c' ∈ c :: over) (c' ∈ over)); [done|].
      rewrite elem_of_cons. naive_solver.
Qed.

Lemma Publish_send_ok org agent e h :
  hub_ok h → let key := hub_key org agent in
  ∃ over h', Publish_send org agent e h = Some (over, h') ∧ hub_ok h' ∧ subscribers h' = subscribers h ∧
    revoked h' = revoked h ∧ (∀ c, c ∉ subs h key → channels h' !! c = channels h !! c) ∧
    NoDup over ∧ (∀ c, c ∈ over → c ∈ subs h key) ∧
    (∀ c, c ∈ subs h key → delivered e c h h' (bool_decide (c ∈ over))).
Proof.
  intros Hok key. destruct (send_all_ok e key (elements (subs h key)) h Hok) as
    (over & h' & Hs & Hok' & Hsub & Hrev & Hother & Hnd & Hover & Hdel);
    [apply NoDup_elements|intros c; apply elem_of_elements|].
  exists over, h'. split_and!; try done.
  - intros c Hc. apply Hother. by rewrite elem_of_elements.
  - intros c Hc. by apply elem_of_elements, Hover.
  - intros c Hc. by apply Hdel, elem_of_elements.
Qed.

Lemma act_ok a h : hub_ok h → ∃ h', act a h = Some h' ∧ hub_ok h'.
Proof.
  intros Hok. destruct a as [org agent|key c|org agent|org agent e|key c|c]; cbn [act].
  - eexists; split; [done|]. by apply Subscribe_ok.
  - by apply dropSubscriber_ok.
  - by apply Revoke_ok.
  - destruct (Publish_send_ok org agent e h Hok) as (over & h' & -> & Hok' & _). by exists h'.
  - by apply dropSubscriber_ok.
  - eexists; split; [done|]. by apply receive_ok.
Qed.

Lemma acts_ok l h : hub_ok h → ∃ h', acts l h = Some h' ∧ hub_ok h'.
Proof.
  revert h. induction l as [|a l IH]; intros h Hok; [by exists h|].
  destruct (act_ok a h Hok) as (h1 & Ha & Hok1). cbn [acts]. rewrite Ha. by apply IH.
Qed.

(** C18. No panic.  Under every interleaving of subscriptions, cancellations,
    revocations, publications, overflow handling and reads, starting from a
    fresh hub, no operation closes a closed channel or sends on one; subscribed
    channels are open, belong to one agent, and hold at most 32 events. *)
Theorem hub_never_panics (l : list action) : ∃ h, acts l NewHub = Some h ∧ hub_ok h.
Proof. apply acts_ok, NewHub_ok. Qed.

(** *** Publication *)

Lemma drop_all_spec key cs h :
  hub_ok h → NoDup cs → (∀ c, c ∈ cs → c ∈ subs h key) →
  ∃ h', drop_all key cs h = Some h' ∧ hub_ok h' ∧
    (∀ c, c ∈ subs h' key ↔ c ∈ subs h key ∧ c ∉ cs) ∧
    (∀ c, c ∉ cs → channels h' !! c = channels h !! c) ∧
    (∀ c ch, c ∈ cs → channels h !! c = Some ch → channels h' !! c = Some (shut ch)).
Proof.
  revert h. induction cs as [|c cs IH]; intros h Hok Hnd Hin.
  { exists h. do 2 (split; [done|]). split; [set_solver|]. split; [done|]. intros c ch Hc. by apply elem_of_nil in Hc. }
  apply NoDup_cons in Hnd as [Hc Hnd]. cbn [drop_all].
  destruct (dropSubscriber_ok key c h Hok) as (h1 & H1 & Hok1). rewrite H1. simpl.
  unfold dropSubscriber in H1. rewrite decide_True in H1 by (apply Hin; by left).
  destruct (ok_open h Hok key c) as (ch & Hch & Ho); [apply Hin; by left|].
  rewrite (close_channel_open c ch) in H1 by done. injection H1 as <-.
  set (h1 := set_channels _ _) in *.
  assert (subs h1 key = subs h key ∖ {[c]}) as Hs.
  { unfold h1. rewrite (subs_same (set_subs key (subs h key ∖ {[c]}) h)) by done. by rewrite subs_set_subs, decide_True. }
  destruct (IH h1 Hok1 Hnd) as (h2 & -> & Hok2 & Hs2 & Hout2 & Hin2).
  { intros c' Hc'. rewrite Hs. apply elem_of_difference. split; [apply Hin; by right|].
    intros ->%elem_of_singleton. done. }
  assert (∀ c', c' ≠ c → channels h1 !! c' = channels h !! c') as Hch1
    by (intros c' Hne; unfold h1; simpl; by rewrite lookup_insert_ne).
  exists h2. do 2 (split; [done|]). split; [|split].
  - intros c'. rewrite Hs2, Hs, not_elem_of_cons. set_solver.
  - intros c' [Hne Hc']%not_elem_of_cons. rewrite Hout2, Hch1; done.
  - intros c' ch' Hc' Hch'. apply elem_of_cons in Hc' as [->|Hc'].
    + rewrite Hout2 by done. unfold h1. simpl. rewrite lookup_insert_eq. congruence.
    + apply Hin2; [done|]. rewrite Hch1; [done|]. by intros ->.
Qed.

(** No silent loss.  Publishing gives every subscriber of the agent the
    event at the end of its queue, or, when its queue is full, detaches and
    closes it without touching the queue; no other channel changes. *)
Theorem publish_delivers_or_closes org agent e h h' :
  hub_ok h → Publish org agent e h = Some h' →
  let key := hub_key org agent in
  (∀ c, c ∈ subs h key → ∃ ch, channels h !! c = Some ch ∧
     ((c ∈ subs h' key ∧ channels h' !! c = Some (mkChannel (ch_buffer ch ++ [e]) false)) ∨
      (length (ch_buffer ch) = channel_capacity ∧ (c ∉ subs h' key) ∧ channels h' !! c = Some (shut ch)))) ∧
  (∀ c, c ∉ subs h key → channels h' !! c = channels h !! c).
Proof.
  intros Hok Hp key. unfold Publish in Hp.
  destruct (Publish_send_ok org agent e h Hok) as (over & h1 & H1 & Hok1 & Hsub1 & _ & Hother & Hnd & Hover & Hdel).
  rewrite H1 in Hp. simpl in Hp. fold key in Hother, Hover, Hdel, Hp.
  destruct (drop_all_spec key over h1 Hok1 Hnd) as (h2 & H2 & _ & Hs2 & Hout & Hin).
  { intros c Hc. rewrite (subs_same h) by done. by apply Hover. }
  rewrite H2 in Hp. injection Hp as <-. rewrite (subs_same h h1) in Hs2 by done. split.
  - intros c Hc. destruct (Hdel c Hc) as (ch & Hch & Hf). exists ch. split; [done|].
    case_bool_decide as Hov.
    + right. destruct Hf as [Hfull Hch1]. split_and!; [done| |by apply Hin]. rewrite Hs2. tauto.
    + left. split; [by apply Hs2|]. by rewrite Hout.
  - intros c Hc. rewrite Hout; [by apply Hother|]. intros Hov. by apply Hc, Hover.
Qed.

(** *** Revocation *)

(** What the tombstone guarantees, whatever happens later. *)
Definition silenced (key : string) (gone : gset nat) (h : Hub) : Prop :=
  key ∈ revoked h ∧ subs h key = ∅ ∧ ∀ c, c ∈ gone → ∃ ch, channels h !! c = Some ch ∧ ch_closed ch = true.

Lemma drop_monotone key c h h' :
  hub_ok h → dropSubscriber key c h = Some h' →
  revoked h' = revoked h ∧
  (∀ c' ch, channels h !! c' = Some ch → ch_closed ch = true → channels h' !! c' = Some ch).
Proof.
  intros Hok. unfold dropSubscriber. case_decide as Hc; [|by intros [= <-]].
  destruct (ok_open h Hok key c Hc) as (ch & Hch & Ho). rewrite (close_channel_open c ch) by done.
  intros [= <-]. split; [done|]. intros c' ch' Hch' Hcl. simpl. rewrite lookup_insert_ne; [done|]. intros <-. congruence.
Qed.

(** Closed channels stay closed and tombstones stay, in one action. *)
Lemma act_monotone a h h' :
  hub_ok h → act a h = Some h' →
  revoked h ⊆ revoked h' ∧
  (∀ c ch, channels h !! c = Some ch → ch_closed ch = true →
     ∃ ch', channels h' !! c = Some ch' ∧ ch_closed ch' = true).
Proof.
  intros Hok Ha. destruct a as [org agent|key c|org agent|org agent e|key c|c]; cbn [act] in Ha.
  - injection Ha as <-. unfold Subscribe. simpl. split; [by case_bool_decide|].
    intros c ch Hch Hcl. exists ch. split; [|done]. destruct (decide (next_channel h = c)) as [<-|Hne].
    + by rewrite (ok_fresh h Hok) in Hch.
    + case_bool_decide; simpl; by rewrite lookup_insert_ne.
  - destruct (drop_monotone key c h h' Hok Ha) as [-> Hcl]. split; [done|]. intros c' ch ? ?. exists ch. eauto.
  - unfold Revoke in Ha. set (key := hub_key org agent) in *.
    destruct (close_all_open (elements (subs h key)) (mkHub (subscribers h) ({[key]} ∪ revoked h) (channels h) (next_channel h)))
      as (m & Hm & Hout & Hin); [apply NoDup_elements|intros c Hc%elem_of_elements; by apply (ok_open h Hok key)|].
    rewrite Hm in Ha. injection Ha as <-. simpl. split; [set_solver|]. intros c ch Hch Hcl. exists ch. split; [|done].
    rewrite Hout; [done|]. intros (ch' & Hch' & Ho)%elem_of_elements%(ok_open h Hok). congruence.
  - destruct (Publish_send_ok org agent e h Hok) as (over & h1 & H1 & _ & _ & Hrev & Hother & _).
    rewrite H1 in Ha. injection Ha as <-. rewrite Hrev. split; [done|]. intros c ch Hch Hcl. exists ch. split; [|done].
    rewrite Hother; [done|]. intros (ch' & Hch' & Ho)%(ok_open h Hok). congruence.
  - destruct (drop_monotone key c h h' Hok Ha) as [-> Hcl]. split; [done|]. intros c' ch ? ?. exists ch. eauto.
  - injection Ha as <-. unfold receive.
    destruct (channels h !! c) as [[[|e rest] closed]|] eqn:Hc; (split; [done|]); try by eauto.
    intros c' ch Hch Hcl. simpl. destruct (decide (c = c')) as [<-|Hne].
    + rewrite lookup_insert_eq. eexists; split; [done|]. simpl. rewrite Hc in Hch. by injection Hch as <-.
    + rewrite lookup_insert_ne by done. eauto.
Qed.

Lemma silenced_act key gone a h h' : hub_ok h → act a h = Some h' → silenced key gone h → silenced key gone h'.
Proof.
  intros Hok Ha (Hr & Hs & Hc). destruct (act_monotone a h h' Hok Ha) as [Hrev Hcl].
  destruct (act_ok a h Hok) as (h2 & Ha2 & Hok2). rewrite Ha in Ha2. injection Ha2 as <-.
  split; [by apply Hrev|]. split; [by apply (ok_revoked h' Hok2), Hrev|].
  intros c (ch & Hch & Ho)%Hc. by eapply Hcl.
Qed.

Lemma silenced_acts key gone l h h' : hub_ok h → acts l h = Some h' → silenced key gone h → silenced key gone h'.
Proof.
  revert h. induction l as [|a l IH]; intros h Hok Hacts Hs; [by injection Hacts as <-|].
  cbn [acts] in Hacts. destruct (act_ok a h Hok) as (h1 & Ha & Hok1). rewrite Ha in Hacts. simpl in Hacts.
  apply (IH h1 Hok1 Hacts). by eapply (silenced_act _ _ a h).
Qed.

(** Revocation is permanent.  Once an agent is revoked, then after any
    further operations it is still reported as revoked, has no subscriber, every
    stream it had is closed, and a new subscription is handed a closed stream. *)
Theorem revocation_is_permanent org agent l h h1 h2 :
  hub_ok h → Revoke org agent h = Some h1 → acts l h1 = Some h2 →
  let key := hub_key org agent in
  IsRevoked org agent h2 = true ∧ subs h2 key = ∅ ∧
  (∀ c, c ∈ subs h key → ∃ ch, channels h2 !! c = Some ch ∧ ch_closed ch = true) ∧
  ∃ ch, channels (Subscribe org agent h2).2 !! (Subscribe org agent h2).1 = Some ch ∧ ch_closed ch = true.
Proof.
  intros Hok Hrevoke Hacts key.
  destruct (Revoke_ok org agent h Hok) as (h1' & Hr' & Hok1). rewrite Hrevoke in Hr'. injection Hr' as <-.
  assert (silenced key (subs h key) h1) as Hs1.
  { unfold Revoke in Hrevoke. fold key in Hrevoke.
    destruct (close_all_open (elements (subs h key)) (mkHub (subscribers h) ({[key]} ∪ revoked h) (channels h) (next_channel h)))
      as (m & Hm & Hout & Hin); [apply NoDup_elements|intros c Hc%elem_of_elements; by apply (ok_open h Hok key)|].
    rewrite Hm in Hrevoke. injection Hrevoke as <-. split; [simpl; set_solver|]. split; [by rewrite subs_set_subs, decide_True|].
    intros c Hc. destruct (ok_open h Hok key c Hc) as (ch & Hch & _). exists (shut ch). split; [|done].
    apply (Hin c ch); [by apply elem_of_elements|done]. }
  destruct (silenced_acts key (subs h key) l h1 h2 Hok1 Hacts Hs1) as (Hr & Hsub & Hcl).
  split_and!; [by apply bool_decide_eq_true|done|done|].
  unfold Subscribe. fold key. rewrite bool_decide_true by done. simpl. rewrite lookup_insert_eq. by eexists.
Qed.
End hub.

(** ** The theorems at a concrete hub *)

Definition busy_actions : list (action (payload := nat)) :=
  [ASubscribe "acme" "bob"; ASubscribe "acme" "bob"; ASubscribe "acme" "eve"]
    ++ replicate 32 (APublishSend "acme" "bob" (mkEvent "request" 7)) ++ [AReceive 0].
Definition busy_hub : Hub (payload := nat) := default NewHub (acts busy_actions NewHub).

Lemma busy_hub_ok : hub_ok busy_hub.
Proof.
  unfold busy_hub. destruct (acts_ok busy_actions NewHub NewHub_ok) as (h & Hh & Hok). by rewrite Hh.
Qed.

(** Channel 1 is full and is dropped; channel 0 receives the event. *)
Definition news : event (payload := nat) := mkEvent "request" 8.
Definition after_news : Hub := default NewHub (Publish "acme" "bob" news busy_hub).
Lemma publish_delivers_or_closes_witness :
  elements (subs after_news (hub_key "acme" "bob")) = [0] ∧
  channels after_news !! 2 = channels busy_hub !! 2.
Proof.
  split; [vm_compute; reflexivity|].
  apply (publish_delivers_or_closes "acme" "bob" news busy_hub after_news).
  - exact busy_hub_ok.
  - vm_compute. reflexivity.
  - apply (bool_decide_unpack (2 ∉ subs busy_hub (hub_key "acme" "bob"))). vm_compute. exact I.
Defined.

Definition revoked_hub : Hub := default NewHub (Revoke "acme" "bob" busy_hub).
Definition later_hub : Hub := default NewHub (acts busy_actions revoked_hub).
Lemma revocation_is_permanent_witness :
  IsRevoked "acme" "bob" later_hub = true ∧ subs later_hub (hub_key "acme" "bob") = ∅.
Proof.
  destruct (revocation_is_permanent "acme" "bob" busy_actions busy_hub revoked_hub later_hub) as (H1 & H2 & _).
  - exact busy_hub_ok.
  - vm_compute. reflexivity.
  - vm_compute. reflexivity.
  - split; [exact H1|exact H2].
Defined.
