(* ===== verification/Eviction.v ===== *)
(** * Eviction of revoked agents ([internal/collaboration/eviction.go])

    The bridge from the administration store to the collaboration layers: the
    hub's streams are closed first, then presence is evicted in Redis.  The
    evicter owns both components, so its state is their product; a failure in
    Redis does not undo what the hub did. *)

From S2P Require Import Prelude GoString Protocol Auth Records Redis RedisLogic MemRedis.
From S2P Require Import CollabStore CollabDirectory CollabScenario Hub.

Section eviction.
Context {DB : Type} `{RL : RedisLaws DB} `{UT : UnicodeTables} {payload : Type}.
Abbreviation HubState := (Hub (payload := payload)).

(** The loop over the hub; [None] is a panic. *)
Fixpoint revoke_streams (organizationID : string) (ids : list string) (h : HubState) : option HubState :=
  match ids with
  | [] => Some h
  | id :: ids' => h' ← Revoke organizationID id h; revoke_streams organizationID ids' h'
  end.

Definition EvictRevokedAgents (organizationID : string) (agentIDs : list string)
    (s : HubState * world DB) : option ((HubState * world DB) * (rerror cerr + ())) :=
  let (h, w) := s in
  let ids := cleanAgentIDs agentIDs in
  if bool_decide (trim_space organizationID = "") || bool_decide (ids = []) then Some ((h, w), inr ()) else
  h' ← revoke_streams organizationID ids h;
  let (w', r) := evictPresence organizationID ids w in
  Some ((h', w'), r).

Lemma elem_of_cleanAgentIDs id l :
  id ∈ cleanAgentIDs l ↔ id ≠ "" ∧ ∃ raw, raw ∈ l ∧ id = trim_space raw.
Proof.
  unfold cleanAgentIDs, sort_strings. rewrite merge_sort_Permutation, elem_of_elements, elem_of_list_to_set.
  rewrite list_elem_of_In, List.filter_In, <- list_elem_of_In, list_elem_of_fmap, negb_true_iff, bool_decide_eq_false.
  naive_solver.
Qed.

Lemma Revoke_silences org agent (h h' : HubState) :
  hub_ok h → Revoke org agent h = Some h' →
  silenced (hub_key org agent) (subs h (hub_key org agent)) h'.
Proof.
  intros Hok Hrevoke. unfold Revoke in Hrevoke. set (key := hub_key org agent) in *.
  destruct (close_all_open (elements (subs h key)) (mkHub (subscribers h) ({[key]} ∪ revoked h) (channels h) (next_channel h)))
    as (m & Hm & Hout & Hin); [apply NoDup_elements|intros c Hc%elem_of_elements; by apply (ok_open h Hok key)|].
  rewrite Hm in Hrevoke. injection Hrevoke as <-. split; [simpl; set_solver|]. split; [by rewrite subs_set_subs, decide_True|].
  intros c Hc. destruct (ok_open h Hok key c Hc) as (ch & Hch & _). exists (shut ch). split; [|done].
  apply (Hin c ch); [by apply elem_of_elements|done].
Qed.

Lemma revoke_streams_ok org ids (h : HubState) :
  hub_ok h → ∃ h', revoke_streams org ids h = Some h' ∧ hub_ok h' ∧
    (∀ key gone, silenced key gone h → silenced key gone h') ∧
    (∀ id, id ∈ ids → IsRevoked org id h' = true ∧ subs h' (hub_key org id) = ∅).
Proof.
  revert h. induction ids as [|id ids IH]; intros h Hok.
  { exists h. split_and!; [done..|]. intros id Hid. by apply elem_of_nil in Hid. }
  destruct (Revoke_ok org id h Hok) as (h1 & H1 & Hok1).
  destruct (IH h1 Hok1) as (h' & H' & Hok' & Hkeep & Hin). exists h'. cbn [revoke_streams]. rewrite H1.
  split_and!; [done|done| |].
  - intros key gone Hs. apply Hkeep. by eapply (silenced_act key gone (ARevoke org id) h).
  - intros id' [->|Hid]%elem_of_cons; [|by apply Hin].
    destruct (Hkeep _ _ (Revoke_silences org id h h1 Hok H1)) as (Hr & Hs & _).
    split; [by apply bool_decide_eq_true|done].
Qed.

(** Eviction.  Evicting agents never panics and, whatever happens in Redis,
    leaves the hub well formed with every named agent revoked and detached.
    When it also succeeds in Redis, every named agent is in the revocation
    set, out of the directory and without a published card. *)
Theorem evict_revoked_agents_correct org agentIDs (h : HubState) (w : world DB) :
  hub_ok h → trim_space org ≠ "" →
  ∃ h' w' r, EvictRevokedAgents org agentIDs (h, w) = Some ((h', w'), r) ∧ hub_ok h' ∧
    ∀ raw, raw ∈ agentIDs → trim_space raw ≠ "" →
      IsRevoked org (trim_space raw) h' = true ∧ subs h' (hub_key org (trim_space raw)) = ∅ ∧
      (r = inr () → evicted org (trim_space raw) (w_db w')).
Proof.
  intros Hok Horg. unfold EvictRevokedAgents. rewrite (bool_decide_false (trim_space org = "")) by done. simpl.
  assert (∀ raw, raw ∈ agentIDs → trim_space raw ≠ "" → trim_space raw ∈ cleanAgentIDs agentIDs) as Hids.
  { intros raw Hraw Hne. apply elem_of_cleanAgentIDs. eauto. }
  case_bool_decide as Hnil.
  { exists h, w, (inr ()). split_and!; [done|done|]. intros raw Hraw Hne.
    apply Hids in Hraw; [|done]. rewrite Hnil in Hraw. by apply elem_of_nil in Hraw. }
  destruct (revoke_streams_ok org (cleanAgentIDs agentIDs) h Hok) as (h' & -> & Hok' & _ & Hin).
  destruct (evictPresence org (cleanAgentIDs agentIDs) w) as [w' r] eqn:Hrun. simpl.
  exists h', w', r. split_and!; [done|done|]. intros raw Hraw Hne.
  destruct (Hin (trim_space raw)) as [? ?]; [by apply Hids|]. split_and!; [done|done|].
  intros ->. by eapply evict_presence_run; [|apply Hids].
Qed.
End eviction.

Lemma evict_revoked_agents_correct_witness :
  ∃ h' w', EvictRevokedAgents "acme" [" agent_bob"; ""] (busy_hub, w_ready) = Some ((h', w'), inr ()) ∧
    IsRevoked "acme" "agent_bob" h' = true ∧ evicted "acme" "agent_bob" (w_db w').
Proof.
  destruct (evict_revoked_agents_correct "acme" [" agent_bob"; ""] busy_hub w_ready) as (h' & w' & r & H1 & _ & H2).
  - exact busy_hub_ok.
  - vm_compute. discriminate.
  - assert (snd <$> EvictRevokedAgents "acme" [" agent_bob"; ""] (busy_hub, w_ready) = Some (inr ())) as Hr
      by (vm_compute; reflexivity).
    rewrite H1 in Hr. apply (inj Some) in Hr. simpl in Hr. subst r.
    exists h', w'. destruct (H2 " agent_bob") as (H3 & _ & H4).
    + apply list_elem_of_here.
    + vm_compute. discriminate.
    + split_and!; [exact H1|exact H3|apply H4; reflexivity].
Defined.
