(* ===== verification/AdminStore.v ===== *)
(** * Administration store ([internal/store/redis.go])

    Organisations, members, devices, invites and credentials over the Redis
    interface of [Redis]: bootstrap, authentication, credential rotation,
    invites, enrollment and revocation.  A body that ends in [errExactReplay]
    is caught by its own loop, which returns the replayed result: it is
    written as a successful body here.  Errors that are none of the package's
    sentinels are [RedisFailure].  Definitions only; the theorems are in
    [AdminProofs]. *)

From S2P Require Import Prelude GoString Sha256 Protocol Auth Records Json Redis.
From Stdlib Require Import Ascii.

Local Open Scope Z_scope.

Inductive serr :=
  | ErrAlreadyBootstrapped | ErrUnauthorized | ErrForbidden | ErrNotFound | ErrConflict
  | ErrInviteExpired | ErrInviteUsed | ErrInviteRevoked | ErrInvalid.
#[export] Instance serr_eq_dec : EqDecision serr.
Proof. solve_decision. Defined.

(** ** Keys *)

Definition keyPrefix : string := "team-relay:v1:".
Definition bootstrapCompleteKey : string := keyPrefix +:+ "bootstrap:complete".
Definition bootstrapRecordKey : string := keyPrefix +:+ "bootstrap:record".
Definition maximumAuditEvents : Z := 10000.

Definition org_key (org rest : string) : string := keyPrefix +:+ "org:" +:+ org +:+ rest.
Definition organizationKey (org : string) : string := org_key org ":record".
Definition membersKey (org : string) : string := org_key org ":members".
Definition memberKey (org m : string) : string := org_key org (":member:" +:+ m).
Definition devicesKey (org : string) : string := org_key org ":devices".
Definition deviceKey (org d : string) : string := org_key org (":device:" +:+ d).
Definition memberDevicesKey (org m : string) : string := org_key org (":member:" +:+ m +:+ ":devices").
Definition invitesKey (org : string) : string := org_key org ":invites".
Definition inviteKey (org i : string) : string := org_key org (":invite:" +:+ i).
Definition memberCredentialsKey (org m : string) : string :=
  org_key org (":member:" +:+ m +:+ ":credential_hashes").
Definition deviceCredentialKey (org d : string) : string :=
  org_key org (":device:" +:+ d +:+ ":credential_hash").
Definition inviteCredentialKey (org i : string) : string :=
  org_key org (":invite:" +:+ i +:+ ":credential_hash").
Definition auditKey (org : string) : string := org_key org ":audit".
Definition credentialKey (hash : string) : string := keyPrefix +:+ "credential:" +:+ hash.
Definition inviteTokenKey (hash : string) : string := keyPrefix +:+ "invite_token:" +:+ hash.
Definition enrollmentIdempotencyKey (hash : string) : string :=
  keyPrefix +:+ "enrollment_idempotency:" +:+ hash.
Definition adminRotationKey (hash : string) : string := keyPrefix +:+ "admin_rotation:" +:+ hash.

(** ** Validation *)

Definition hasControl (value : string) : bool := existsb (λ r, (r <? 32) || (r =? 127)) (runes value).
Definition validLabel (value : string) (maximum : Z) : bool :=
  negb (bool_decide (value = "")) && (len value <=? maximum) && negb (hasControl value).
Definition validEmail (value : string) : bool :=
  negb (bool_decide (value = "")) && (len value <=? 254) && contains value "@" && negb (hasControl value).
Definition validPermissionProfile (value : string) : bool :=
  bool_decide (value ∈ ["read_only"; "guarded_write"; "custom"]).
Definition validHash (value : string) : bool :=
  (len value =? 64) && bool_decide (is_Some (hex_decode value)).
Definition validID (value prefix : string) : bool :=
  has_prefix value prefix && (len value =? len prefix + 32) &&
  bool_decide (is_Some (hex_decode (drop_bytes (String.length prefix) value))).
Definition clean (value : string) : string := trim_space value.
Definition digestJSON (j : json) : string := json_digest j.

Section admin.
Context {DB : Type} `{RS : RedisServer DB} `{UT : UnicodeTables}.
Abbreviation AM := (M (world DB) (rerror serr)).

Definition normalizeEmail (value : string) : string := to_lower (clean value).

(** [if value.IsZero() { return time.Now().UTC() }; return value.UTC()] *)
Definition normalizedTime (value : time) : AM time :=
  if is_zero_time value then now else mret value.

Definition refuse_if (b : bool) (e : serr) : AM () := reject_if b (Sentinel e).

Definition readJSON (A : Type) `{Json A} (key : string) : AM A :=
  raw ← redis_get key;
  match raw with
  | None => reject! ErrNotFound
  | Some d => match unmarshal d with Some v => mret v | None => throw RedisFailure end
  end.
Definition readMember (org m : string) : AM Member := readJSON Member (memberKey org m).
Definition readDevice (org d : string) : AM Device := readJSON Device (deviceKey org d).
Definition readInvite (org i : string) : AM Invite := readJSON Invite (inviteKey org i).

(** A read after which [ErrNotFound] is handled and other errors are returned. *)
Definition found {A} (m : AM A) : AM (option A) :=
  r ← attempt m;
  match r with
  | inl (Sentinel ErrNotFound) => mret None
  | inl e => throw e
  | inr a => mret (Some a)
  end.
(** A read after which [ErrNotFound] becomes the error [e]. *)
Definition found_or {A} (e : serr) (m : AM A) : AM A :=
  r ← found m;
  match r with None => reject! e | Some a => mret a end.

Definition IsBootstrapped : AM bool := redis_exists bootstrapCompleteKey.

Definition audit_commands (org : string) (a : AuditEvent) : list cmd :=
  [CLPush (auditKey org) (marshal a); CLTrim (auditKey org) 0 (maximumAuditEvents - 1)].

Definition requireAdmin (p : Principal) : AM () :=
  refuse_if (negb (IsAdmin p) || negb (validID (p_OrganizationID p) "org_") ||
             negb (validID (p_MemberID p) "mem_")) ErrForbidden ≫= λ _,
  member ← found_or ErrForbidden (readMember (p_OrganizationID p) (p_MemberID p));
  refuse_if (negb (bool_decide (mem_Status member = StatusActive)) ||
             negb (bool_decide (mem_Role member = RoleAdmin))) ErrForbidden.

(** ** Bootstrap *)

Definition bootstrap_digest (name display email tokenHash : string) : string :=
  digestJSON (JObj [("organization_name", JStr name); ("admin_display_name", JStr display);
                    ("admin_email", JStr email); ("admin_token_hash", JStr tokenHash)]).

(** The organisation is set up already: an exact repetition gets its result. *)
Definition bootstrap_replay (idem requestHash tokenHash : string) : AM BootstrapResult :=
  r ← attempt (readJSON bootstrapRecord bootstrapRecordKey);
  match r with
  | inl _ => reject! ErrAlreadyBootstrapped
  | inr record =>
    refuse_if (negb (bool_decide (bo_IdempotencyHash record = idem)) ||
               negb (bool_decide (bo_RequestHash record = requestHash)) ||
               negb (bool_decide (bo_AdminTokenHash record = tokenHash))) ErrAlreadyBootstrapped ≫= λ _,
    let org := org_ID (br_Organization (bo_Result record)) in
    let adm := mem_ID (br_Admin (bo_Result record)) in
    current ← found_or ErrConflict (readJSON credential (credentialKey (bo_AdminTokenHash record)));
    refuse_if (negb (bool_decide (cred_Kind current = TokenAdmin)) ||
               negb (bool_decide (cred_OrganizationID current = org)) ||
               negb (bool_decide (cred_MemberID current = adm))) ErrConflict ≫= λ _,
    member ← found_or ErrConflict (readJSON Member (memberKey org adm));
    refuse_if (negb (bool_decide (mem_Status member = StatusActive)) ||
               negb (bool_decide (mem_Role member = RoleAdmin))) ErrConflict ≫= λ _,
    mret (bo_Result record)
  end.

Definition bootstrap_commands (result : BootstrapResult) (cred : credential) (record : bootstrapRecord)
    (audit : AuditEvent) : list cmd :=
  let org := org_ID (br_Organization result) in
  let adm := mem_ID (br_Admin result) in
  let hash := bo_AdminTokenHash record in
  [CSet bootstrapCompleteKey (DText org) 0;
   CSet bootstrapRecordKey (marshal record) 0;
   CSet (organizationKey org) (marshal (br_Organization result)) 0;
   CSet (memberKey org adm) (marshal (br_Admin result)) 0;
   CSAdd (membersKey org) adm;
   CSet (credentialKey hash) (marshal cred) 0;
   CSAdd (memberCredentialsKey org adm) hash] ++ audit_commands org audit.

Definition bootstrap_body (idem requestHash tokenHash : string) (cmds : list cmd)
    (result : BootstrapResult) : AM BootstrapResult :=
  exists_ ← redis_exists bootstrapCompleteKey;
  if (exists_ : bool) then bootstrap_replay idem requestHash tokenHash else
  credentialExists ← redis_exists (credentialKey tokenHash);
  if (credentialExists : bool) then throw RedisTxFailed else
  tx_pipelined cmds ≫= λ _, mret result.

Definition Bootstrap (i : BootstrapInput) : AM BootstrapResult :=
  let name := clean (bi_OrganizationName i) in
  let display := clean (bi_AdminDisplayName i) in
  let email := normalizeEmail (bi_AdminEmail i) in
  let tokenHash := to_lower (bi_AdminTokenHash i) in
  let idem := to_lower (bi_IdempotencyHash i) in
  t ← normalizedTime (bi_Now i);
  refuse_if (negb (validLabel name 120) || negb (validLabel display 100) || negb (validEmail email) ||
             negb (validHash tokenHash) || negb (validHash idem)) ErrInvalid ≫= λ _,
  let requestHash := bootstrap_digest name display email tokenHash in
  orgID ← randomID "org_";
  memID ← randomID "mem_";
  audID ← randomID "aud_";
  let organization := mkOrganization orgID name t in
  let member := mkMember memID orgID display email RoleAdmin StatusActive t None in
  let cred := mkCredential TokenAdmin orgID memID "" t in
  let audit := mkAuditEvent audID orgID memID "" "organization.bootstrapped" "organization" orgID t [] in
  let result := mkBootstrapResult organization member in
  let record := mkBootstrapRecord idem requestHash tokenHash result in
  retrying 5 (redis_watch [bootstrapCompleteKey; bootstrapRecordKey; credentialKey tokenHash]
    (bootstrap_body idem requestHash tokenHash (bootstrap_commands result cred record audit) result)).

(** ** Authentication *)

Definition Authenticate (rawToken : string) : AM Principal :=
  match Kind rawToken with
  | Some kind =>
    refuse_if (negb (bool_decide (kind = TokenAdmin)) && negb (bool_decide (kind = TokenDevice)))
      ErrUnauthorized ≫= λ _,
    raw ← redis_get (credentialKey (Hash rawToken));
    match raw ≫= unmarshal with
    | None => reject! ErrUnauthorized
    | Some record =>
      refuse_if (negb (bool_decide (cred_Kind record = kind)) ||
                 negb (validID (cred_OrganizationID record) "org_") ||
                 negb (validID (cred_MemberID record) "mem_")) ErrUnauthorized ≫= λ _,
      member ← found_or ErrUnauthorized (readMember (cred_OrganizationID record) (cred_MemberID record));
      refuse_if (negb (bool_decide (mem_Status member = StatusActive))) ErrUnauthorized ≫= λ _,
      let principal dev agent display device runtime mode :=
        {| p_OrganizationID := cred_OrganizationID record; p_MemberID := cred_MemberID record;
           p_DeviceID := dev; p_AgentID := agent; p_DisplayName := display; p_DeviceName := device;
           p_Runtime := runtime; p_PermissionMode := mode; p_CredentialHash := Hash rawToken;
           p_Role := mem_Role member; p_TokenKind := cred_Kind record; p_IssuedAt := cred_IssuedAt record |} in
      if bool_decide (kind = TokenAdmin) then
        refuse_if (negb (bool_decide (mem_Role member = RoleAdmin)) ||
                   negb (bool_decide (cred_DeviceID record = ""))) ErrUnauthorized ≫= λ _,
        mret (principal "" "" "" "" "" "")
      else
        refuse_if (negb (validID (cred_DeviceID record) "dev_")) ErrUnauthorized ≫= λ _,
        device ← found_or ErrUnauthorized (readDevice (cred_OrganizationID record) (cred_DeviceID record));
        refuse_if (negb (bool_decide (dev_Status device = StatusActive)) ||
                   negb (bool_decide (dev_MemberID device = mem_ID member))) ErrUnauthorized ≫= λ _,
        mret (principal (dev_ID device) (dev_AgentID device) (mem_DisplayName member) (dev_Name device)
                (dev_Runtime device) (dev_PermissionProfile device))
    end
  | None => reject! ErrUnauthorized
  end.

(** ** Credential rotation *)

Definition rotation_digest (org m newHash : string) : string :=
  digestJSON (JObj [("organization_id", JStr org); ("member_id", JStr m); ("new_token_hash", JStr newHash)]).

Definition rotation_commands (p : Principal) (newHash : string) (newCredential : credential)
    (rotation : adminRotationRecord) (audit : AuditEvent) : list cmd :=
  let org := p_OrganizationID p in
  [CSet (credentialKey newHash) (marshal newCredential) 0;
   CDel (credentialKey (p_CredentialHash p));
   CSet (adminRotationKey (ro_IdempotencyHash rotation)) (marshal rotation) 0;
   CSAdd (memberCredentialsKey org (p_MemberID p)) newHash;
   CSRem (memberCredentialsKey org (p_MemberID p)) (p_CredentialHash p)] ++ audit_commands org audit.

Definition rotation_body (p : Principal) (newHash idem requestHash : string) (t : time)
    (audit : AuditEvent) : AM RotateAdminCredentialResult :=
  let org := p_OrganizationID p in
  existing ← found (readJSON adminRotationRecord (adminRotationKey idem));
  match existing with
  | Some existing =>
    refuse_if (negb (bool_decide (ro_OrganizationID existing = org)) ||
               negb (bool_decide (ro_MemberID existing = p_MemberID p)) ||
               negb (bool_decide (ro_IdempotencyHash existing = idem)) ||
               negb (bool_decide (ro_RequestHash existing = requestHash)) ||
               negb (bool_decide (ro_NewTokenHash existing = newHash))) ErrConflict ≫= λ _,
    refuse_if (negb (bool_decide (p_CredentialHash p = ro_NewTokenHash existing)) &&
               negb (bool_decide (p_CredentialHash p = ro_OldTokenHash existing))) ErrUnauthorized ≫= λ _,
    mret (mkRotateResult (ro_RotatedAt existing) true)
  | None =>
    refuse_if (bool_decide (p_CredentialHash p = newHash)) ErrInvalid ≫= λ _,
    current ← found (readJSON credential (credentialKey (p_CredentialHash p)));
    match current with
    | None => throw RedisTxFailed
    | Some current =>
      if negb (bool_decide (cred_Kind current = TokenAdmin)) ||
         negb (bool_decide (cred_OrganizationID current = org)) ||
         negb (bool_decide (cred_MemberID current = p_MemberID p)) then throw RedisTxFailed else
      exists_ ← redis_exists (credentialKey newHash);
      if (exists_ : bool) then throw RedisTxFailed else
      tx_pipelined (rotation_commands p newHash (mkCredential TokenAdmin org (p_MemberID p) "" t)
        (mkAdminRotationRecord org (p_MemberID p) idem requestHash (p_CredentialHash p) newHash t) audit) ≫= λ _,
      mret (mkRotateResult t false)
    end
  end.

Definition RotateAdminCredential (p : Principal) (i : RotateAdminCredentialInput) : AM RotateAdminCredentialResult :=
  requireAdmin p ≫= λ _,
  t ← normalizedTime (ri_Now i);
  let newHash := to_lower (ri_NewTokenHash i) in
  let idem := to_lower (ri_IdempotencyHash i) in
  refuse_if (negb (validHash (p_CredentialHash p)) || negb (validHash newHash) || negb (validHash idem))
    ErrInvalid ≫= λ _,
  let org := p_OrganizationID p in
  let requestHash := rotation_digest org (p_MemberID p) newHash in
  audID ← randomID "aud_";
  let audit := mkAuditEvent audID org (p_MemberID p) "" "admin.credential_rotated" "member" (p_MemberID p) t [] in
  retrying 5 (redis_watch [credentialKey (p_CredentialHash p); credentialKey newHash; adminRotationKey idem]
    (rotation_body p newHash idem requestHash t audit)).

(** ** Invites *)

Definition hours (n : Z) : Z := n * 3600 * second.

Definition invite_commands (invite : Invite) (tokenHash : string) (retention : Z) (audit : AuditEvent) : list cmd :=
  let org := inv_OrganizationID invite in
  [CSet (inviteKey org (inv_ID invite)) (marshal invite) 0;
   CSAdd (invitesKey org) (inv_ID invite);
   CSet (inviteTokenKey tokenHash) (marshal (mkInviteReference org (inv_ID invite))) retention;
   CSet (inviteCredentialKey org (inv_ID invite)) (DText tokenHash) retention] ++ audit_commands org audit.

Definition CreateInvite (p : Principal) (i : CreateInviteInput) : AM Invite :=
  requireAdmin p ≫= λ _,
  let display := clean (ci_DisplayName i) in
  let email := normalizeEmail (ci_Email i) in
  let existingID := clean (ci_ExistingMemberID i) in
  t ← normalizedTime (ci_Now i);
  refuse_if (negb (validHash (ci_InviteTokenHash i)) || negb (t <? ci_ExpiresAt i) ||
             (negb (bool_decide (display = "")) && negb (validLabel display 100)) ||
             (negb (bool_decide (email = "")) && negb (validEmail email))) ErrInvalid ≫= λ _,
  refuse_if (bool_decide (existingID = "") && bool_decide (display = "") && bool_decide (email = ""))
    ErrInvalid ≫= λ _,
  (if negb (bool_decide (existingID = "")) then
     refuse_if (negb (validID existingID "mem_")) ErrInvalid ≫= λ _,
     member ← readMember (p_OrganizationID p) existingID;
     refuse_if (negb (bool_decide (mem_Status member = StatusActive))) ErrConflict
   else mret ()) ≫= λ _,
  invID ← randomID "inv_";
  audID ← randomID "aud_";
  let org := p_OrganizationID p in
  let invite := mkInvite invID org (p_MemberID p) existingID display email StatusPending t (ci_ExpiresAt i)
                  None "" None in
  let audit := mkAuditEvent audID org (p_MemberID p) (p_DeviceID p) "invite.created" "invite" invID t
                 [("expires_at", AuditTime (ci_ExpiresAt i))] in
  let retention := ci_ExpiresAt i + hours 24 - t in
  tx_pipelined (invite_commands invite (ci_InviteTokenHash i)
    (if retention <=? 0 then hours 24 else retention) audit) ≫= λ _,
  mret invite.

Definition invite_set_status (s : Status) (usedAt : option time) (usedBy : string) (revokedAt : option time)
    (i : Invite) : Invite :=
  mkInvite (inv_ID i) (inv_OrganizationID i) (inv_CreatedBy i) (inv_MemberID i) (inv_DisplayName i)
    (inv_Email i) s (inv_CreatedAt i) (inv_ExpiresAt i) usedAt usedBy revokedAt.

(** Newest first. *)
Definition invite_order (a b : Invite) : Prop := inv_CreatedAt b <= inv_CreatedAt a.
#[export] Instance invite_order_dec a b : Decision (invite_order a b).
Proof. unfold invite_order. apply _. Defined.

Definition list_invites_item (p : Principal) (id : string) : AM (option Invite) :=
  invite ← found (readInvite (p_OrganizationID p) id);
  match invite with
  | None => mret None
  | Some invite =>
    if bool_decide (inv_Status invite = StatusPending) then
      t ← now;
      mret (Some (if t <? inv_ExpiresAt invite then invite
                  else invite_set_status StatusExpiredInvite (inv_UsedAt invite) (inv_UsedByMemberID invite)
                         (inv_RevokedAt invite) invite))
    else mret (Some invite)
  end.
Definition ListInvites (p : Principal) : AM (list Invite) :=
  requireAdmin p ≫= λ _,
  ids ← redis_smembers (invitesKey (p_OrganizationID p));
  invites ← collectM (list_invites_item p) ids;
  mret (merge_sort invite_order invites).

Definition revoke_invite_body (p : Principal) (inviteID : string) : AM () :=
  let org := p_OrganizationID p in
  invite ← readJSON Invite (inviteKey org inviteID);
  match inv_Status invite with
  | StatusRevoked => mret ()
  | StatusUsed => reject! ErrConflict
  | _ =>
    t ← now;
    let revoked := invite_set_status StatusRevoked (inv_UsedAt invite) (inv_UsedByMemberID invite) (Some t) invite in
    audID ← randomID "aud_";
    tx_pipelined ([CSet (inviteKey org inviteID) (marshal revoked) 0;
                   CDel (inviteCredentialKey org (inv_ID invite))]
      ++ audit_commands org (mkAuditEvent audID org (p_MemberID p) (p_DeviceID p) "invite.revoked" "invite"
           (inv_ID invite) t []))
  end.
Definition RevokeInvite (p : Principal) (inviteID : string) : AM () :=
  requireAdmin p ≫= λ _,
  refuse_if (negb (validID inviteID "inv_")) ErrNotFound ≫= λ _,
  retrying 5 (redis_watch [inviteKey (p_OrganizationID p) inviteID] (revoke_invite_body p inviteID)).

(** ** Enrollment *)

(** The input after [Enroll] normalised it. *)
Definition enroll_normalized (i : EnrollInput) (t : time) : EnrollInput :=
  let profile := clean (ei_PermissionProfile i) in
  mkEnrollInput (clean (ei_DisplayName i)) (clean (ei_DeviceName i)) (clean (ei_Runtime i))
    (if bool_decide (profile = "") then "read_only" else profile)
    (to_lower (clean (ei_DeviceTokenHash i))) (to_lower (clean (ei_IdempotencyKeyHash i))) t.

Definition enrollmentRequestHash (inviteTokenHash : string) (i : EnrollInput) : string :=
  Hash (json_text (JObj [("invite_token_hash", JStr inviteTokenHash); ("display_name", JStr (ei_DisplayName i));
    ("device_name", JStr (ei_DeviceName i)); ("runtime", JStr (ei_Runtime i));
    ("permission_profile", JStr (ei_PermissionProfile i)); ("device_token_hash", JStr (ei_DeviceTokenHash i))])).

(** [None]: no record yet.  A record that does not match, or whose device has
    since been revoked, is a conflict. *)
Definition readEnrollmentRecord (key inviteHash requestHash : string) : AM (option EnrollResult) :=
  record ← found (readJSON enrollmentRecord key);
  match record with
  | None => mret None
  | Some record =>
    let result := en_Result record in
    let org := org_ID (er_Organization result) in
    if negb (validHash (en_InviteTokenHash record)) || negb (validHash (en_RequestHash record)) ||
       negb (validHash (en_DeviceTokenHash record)) || negb (validID org "org_") ||
       negb (validID (mem_ID (er_Member result)) "mem_") || negb (validID (dev_ID (er_Device result)) "dev_")
    then throw RedisFailure else
    refuse_if (negb (bool_decide (en_InviteTokenHash record = inviteHash)) ||
               negb (bool_decide (en_RequestHash record = requestHash))) ErrConflict ≫= λ _,
    member ← found_or ErrConflict (readJSON Member (memberKey org (mem_ID (er_Member result))));
    refuse_if (negb (bool_decide (mem_Status member = StatusActive))) ErrConflict ≫= λ _,
    device ← found_or ErrConflict (readJSON Device (deviceKey org (dev_ID (er_Device result))));
    refuse_if (negb (bool_decide (dev_Status device = StatusActive)) ||
               negb (bool_decide (dev_MemberID device = mem_ID member))) ErrConflict ≫= λ _,
    deviceHash ← redis_get (deviceCredentialKey org (dev_ID device));
    refuse_if (negb (bool_decide (deviceHash = Some (DText (en_DeviceTokenHash record))))) ErrConflict ≫= λ _,
    stored ← found_or ErrConflict (readJSON credential (credentialKey (en_DeviceTokenHash record)));
    refuse_if (negb (bool_decide (cred_Kind stored = TokenDevice)) ||
               negb (bool_decide (cred_OrganizationID stored = org)) ||
               negb (bool_decide (cred_MemberID stored = mem_ID member)) ||
               negb (bool_decide (cred_DeviceID stored = dev_ID device))) ErrConflict ≫= λ _,
    mret (Some result)
  end.

Definition enroll_commands (inviteKeyName : string) (invite : Invite) (member : Member) (newMember : bool) (device : Device)
    (cred : credential) (idemKey : string) (record : enrollmentRecord) (audit : AuditEvent) : list cmd :=
  let org := inv_OrganizationID invite in
  let hash := en_DeviceTokenHash record in
  [CSet inviteKeyName (marshal invite) 0;
   CDel (inviteCredentialKey org (inv_ID invite))]
  ++ (if newMember then [CSet (memberKey org (mem_ID member)) (marshal member) 0;
                         CSAdd (membersKey org) (mem_ID member)] else [])
  ++ [CSet (deviceKey org (dev_ID device)) (marshal device) 0;
      CSAdd (devicesKey org) (dev_ID device);
      CSAdd (memberDevicesKey org (mem_ID member)) (dev_ID device);
      CSet (credentialKey hash) (marshal cred) 0;
      CSet (deviceCredentialKey org (dev_ID device)) (DText hash) 0;
      CSAdd (memberCredentialsKey org (mem_ID member)) hash;
      CSet idemKey (marshal record) 0]
  ++ audit_commands org audit.

(** The member an invite enrolls: a new one, or the existing active one. *)
Definition enroll_member (invite : Invite) (i : EnrollInput) (memberID : string) : AM Member :=
  let org := inv_OrganizationID invite in
  if bool_decide (inv_MemberID invite = "") then
    mret (mkMember memberID org
      (if bool_decide (inv_DisplayName invite = "") then ei_DisplayName i else inv_DisplayName invite)
      (inv_Email invite) RoleMember StatusActive (ei_Now i) None)
  else
    member ← readJSON Member (memberKey org (inv_MemberID invite));
    refuse_if (negb (bool_decide (mem_Status member = StatusActive))) ErrConflict ≫= λ _,
    mret member.

Definition enroll_body (inviteHash requestHash idemKey inviteKeyName : string) (refRaw : doc)
    (i : EnrollInput) (memberID deviceID agentID : string) : AM EnrollResult :=
  existing ← readEnrollmentRecord idemKey inviteHash requestHash;
  match existing with
  | Some result => mret result
  | None =>
    currentRef ← redis_get (inviteTokenKey inviteHash);
    refuse_if (negb (bool_decide (currentRef = Some refRaw))) ErrUnauthorized ≫= λ _,
    invite ← readJSON Invite inviteKeyName;
    (match inv_Status invite with
     | StatusUsed => reject! ErrInviteUsed
     | StatusRevoked => reject! ErrInviteRevoked
     | StatusPending => mret ()
     | _ => reject! ErrUnauthorized
     end) ≫= λ _,
    refuse_if (negb (ei_Now i <? inv_ExpiresAt invite)) ErrInviteExpired ≫= λ _,
    credentialExists ← redis_exists (credentialKey (ei_DeviceTokenHash i));
    refuse_if credentialExists ErrConflict ≫= λ _,
    let org := inv_OrganizationID invite in
    organization ← readJSON Organization (organizationKey org);
    member ← enroll_member invite i memberID;
    refuse_if (negb (validLabel (mem_DisplayName member) 100)) ErrInvalid ≫= λ _,
    let device := mkDevice deviceID org (mem_ID member) agentID (ei_DeviceName i) (ei_Runtime i)
                    (ei_PermissionProfile i) StatusActive (ei_Now i) None None in
    let cred := mkCredential TokenDevice org (mem_ID member) deviceID (ei_Now i) in
    let used := invite_set_status StatusUsed (Some (ei_Now i)) (mem_ID member) (inv_RevokedAt invite) invite in
    let result := mkEnrollResult organization member device in
    let record := mkEnrollmentRecord inviteHash requestHash (ei_DeviceTokenHash i) result in
    audID ← randomID "aud_";
    let audit := mkAuditEvent audID org (mem_ID member) deviceID "device.enrolled" "device" deviceID (ei_Now i)
                   [("runtime", AuditText (ei_Runtime i)); ("permission_profile", AuditText (ei_PermissionProfile i))] in
    tx_pipelined (enroll_commands inviteKeyName used member (bool_decide (inv_MemberID invite = ""))
                    device cred idemKey record audit) ≫= λ _,
    mret result
  end.

(** After [ErrInviteUsed] or [ErrConflict], a record committed meanwhile by the
    same enrollment wins over the error. *)
Definition enroll_settle (idemKey inviteHash requestHash : string) (r : rerror serr + EnrollResult)
    : AM EnrollResult :=
  match r with
  | inl (Sentinel ErrInviteUsed) | inl (Sentinel ErrConflict) =>
    existing ← readEnrollmentRecord idemKey inviteHash requestHash;
    match existing with Some result => mret result | None => lift r end
  | _ => lift r
  end.

Definition Enroll (rawInviteToken : string) (i0 : EnrollInput) : AM EnrollResult :=
  refuse_if (negb (bool_decide (Kind rawInviteToken = Some TokenInvite))) ErrUnauthorized ≫= λ _,
  t ← normalizedTime (ei_Now i0);
  let i := enroll_normalized i0 t in
  refuse_if (negb (validLabel (ei_DeviceName i) 100) || negb (validLabel (ei_Runtime i) 128) ||
             negb (validPermissionProfile (ei_PermissionProfile i)) || negb (validHash (ei_DeviceTokenHash i)) ||
             negb (validHash (ei_IdempotencyKeyHash i)) ||
             (negb (bool_decide (ei_DisplayName i = "")) && negb (validLabel (ei_DisplayName i) 100)))
    ErrInvalid ≫= λ _,
  let inviteHash := Hash rawInviteToken in
  let requestHash := enrollmentRequestHash inviteHash i in
  let idemKey := enrollmentIdempotencyKey (ei_IdempotencyKeyHash i) in
  first ← readEnrollmentRecord idemKey inviteHash requestHash;
  match first with
  | Some result => mret result
  | None =>
    refRaw ← redis_get (inviteTokenKey inviteHash);
    match refRaw with
    | None =>
      again ← readEnrollmentRecord idemKey inviteHash requestHash;
      match again with Some result => mret result | None => reject! ErrUnauthorized end
    | Some raw =>
      match unmarshal raw with
      | None => reject! ErrUnauthorized
      | Some reference =>
        refuse_if (negb (validID (ref_OrganizationID reference) "org_") ||
                   negb (validID (ref_InviteID reference) "inv_")) ErrUnauthorized ≫= λ _,
        let inviteKeyName := inviteKey (ref_OrganizationID reference) (ref_InviteID reference) in
        memberID ← randomID "mem_";
        deviceID ← randomID "dev_";
        agentID ← randomID "agent_";
        r ← attempt (retrying 5 (redis_watch
              [inviteTokenKey inviteHash; inviteKeyName; idemKey; credentialKey (ei_DeviceTokenHash i)]
              (enroll_body inviteHash requestHash idemKey inviteKeyName raw i memberID deviceID agentID)));
        enroll_settle idemKey inviteHash requestHash r
      end
    end
  end.

(** ** Members and devices *)

Definition member_order (a b : Member) : Prop := mem_CreatedAt a <= mem_CreatedAt b.
#[export] Instance member_order_dec a b : Decision (member_order a b).
Proof. unfold member_order. apply _. Defined.
Definition ListMembers (p : Principal) : AM (list Member) :=
  requireAdmin p ≫= λ _,
  ids ← redis_smembers (membersKey (p_OrganizationID p));
  members ← collectM (λ id, found (readMember (p_OrganizationID p) id)) ids;
  mret (merge_sort member_order members).

Definition device_order (a b : Device) : Prop := dev_CreatedAt a <= dev_CreatedAt b.
#[export] Instance device_order_dec a b : Decision (device_order a b).
Proof. unfold device_order. apply _. Defined.
Definition ListDevices (p : Principal) (memberID : string) : AM (list Device) :=
  requireAdmin p ≫= λ _,
  let org := p_OrganizationID p in
  ids ← (if bool_decide (memberID = "") then redis_smembers (devicesKey org) else
         refuse_if (negb (validID memberID "mem_")) ErrInvalid ≫= λ _,
         redis_smembers (memberDevicesKey org memberID));
  devices ← collectM (λ id, found (readDevice org id)) ids;
  mret (merge_sort device_order devices).

(** The distinct non-empty agent identifiers, sorted. *)
Definition agentIDsFromDevices (devices : list Device) : list string :=
  sort_strings (elements (list_to_set (C := gset string)
    (List.filter (λ id, negb (bool_decide (id = ""))) (dev_AgentID <$> devices)))).

Definition addRevokedAgentTombstones (org : string) (agentIDs : list string) : list cmd :=
  (λ id, CSAdd (CollaborationRevokedAgents org) id) <$>
    List.filter (λ id, negb (bool_decide (trim_space id = ""))) agentIDs.

Definition dev_revoke (t : time) (d : Device) : Device :=
  mkDevice (dev_ID d) (dev_OrganizationID d) (dev_MemberID d) (dev_AgentID d) (dev_Name d) (dev_Runtime d)
    (dev_PermissionProfile d) StatusRevoked (dev_CreatedAt d) (dev_LastSeenAt d) (Some t).
Definition mem_revoke (t : time) (m : Member) : Member :=
  mkMember (mem_ID m) (mem_OrganizationID m) (mem_DisplayName m) (mem_Email m) (mem_Role m)
    StatusRevoked (mem_CreatedAt m) (Some t).

Definition revoke_member_commands (org memberID : string) (member : Member) (devices : list Device)
    (hashes : list string) (audit : AuditEvent) : list cmd :=
  [CSet (memberKey org memberID) (marshal member) 0]
  ++ addRevokedAgentTombstones org (agentIDsFromDevices devices)
  ++ ((λ h, CDel (credentialKey h)) <$> hashes)
  ++ concat ((λ d, [CSet (deviceKey org (dev_ID d)) (marshal d) 0;
                    CDel (deviceCredentialKey org (dev_ID d))]) <$> devices)
  ++ [CDel (memberCredentialsKey org memberID)] ++ audit_commands org audit.

Definition revoke_member_body (p : Principal) (memberID : string) : AM RevocationResult :=
  let org := p_OrganizationID p in
  member ← readJSON Member (memberKey org memberID);
  deviceIDs ← redis_smembers (memberDevicesKey org memberID);
  hashes ← redis_smembers (memberCredentialsKey org memberID);
  devices ← collectM (λ id, found (readJSON Device (deviceKey org id))) deviceIDs;
  let result := mkRevocationResult org (agentIDsFromDevices devices) in
  if bool_decide (mem_Status member = StatusRevoked) then
    tx_pipelined (addRevokedAgentTombstones org (rv_AgentIDs result)) ≫= λ _, mret result
  else
  t ← now;
  audID ← randomID "aud_";
  tx_pipelined (revoke_member_commands org memberID (mem_revoke t member) (dev_revoke t <$> devices) hashes
    (mkAuditEvent audID org (p_MemberID p) (p_DeviceID p) "member.revoked" "member" (mem_ID member) t [])) ≫= λ _,
  mret result.

Definition RevokeMember (p : Principal) (memberID : string) : AM RevocationResult :=
  requireAdmin p ≫= λ _,
  refuse_if (negb (validID memberID "mem_")) ErrNotFound ≫= λ _,
  refuse_if (bool_decide (memberID = p_MemberID p)) ErrConflict ≫= λ _,
  retrying 5 (redis_watch [memberKey (p_OrganizationID p) memberID] (revoke_member_body p memberID)).

Definition revoke_device_commands (org deviceID : string) (device : Device) (hash : string)
    (audit : AuditEvent) : list cmd :=
  [CSet (deviceKey org deviceID) (marshal device) 0]
  ++ addRevokedAgentTombstones org [dev_AgentID device]
  ++ (if bool_decide (hash = "") then [] else
        [CDel (credentialKey hash); CSRem (memberCredentialsKey org (dev_MemberID device)) hash])
  ++ [CDel (deviceCredentialKey org (dev_ID device))] ++ audit_commands org audit.

(** A stored string; [""] when the key is missing. *)
Definition text_or_empty (o : option doc) : string := match o with Some (DText s) => s | _ => "" end.

Definition revoke_device_body (p : Principal) (deviceID : string) : AM RevocationResult :=
  let org := p_OrganizationID p in
  device ← readJSON Device (deviceKey org deviceID);
  let result := mkRevocationResult org [dev_AgentID device] in
  if bool_decide (dev_Status device = StatusRevoked) then
    tx_pipelined (addRevokedAgentTombstones org (rv_AgentIDs result)) ≫= λ _, mret result
  else
  t ← now;
  hash ← redis_get (deviceCredentialKey org (dev_ID device));
  audID ← randomID "aud_";
  tx_pipelined (revoke_device_commands org deviceID (dev_revoke t device) (text_or_empty hash)
    (mkAuditEvent audID org (p_MemberID p) (p_DeviceID p) "device.revoked" "device" (dev_ID device) t [])) ≫= λ _,
  mret result.

Definition RevokeDevice (p : Principal) (deviceID : string) : AM RevocationResult :=
  requireAdmin p ≫= λ _,
  refuse_if (negb (validID deviceID "dev_")) ErrNotFound ≫= λ _,
  let org := p_OrganizationID p in
  retrying 5 (redis_watch [deviceKey org deviceID; deviceCredentialKey org deviceID]
    (revoke_device_body p deviceID)).

(** ** Audit *)

Definition ListAuditEvents (p : Principal) (limit : Z) : AM (list AuditEvent) :=
  requireAdmin p ≫= λ _,
  let limit := if limit <=? 0 then 100 else limit in
  let limit := if 500 <? limit then 500 else limit in
  values ← redis_lrange (auditKey (p_OrganizationID p)) 0 (limit - 1);
  mret (List.filter (λ a, bool_decide (aud_OrganizationID a = p_OrganizationID p)) (omap unmarshal values)).
End admin.
