(* ===== verification/AdminProofs.v ===== *)
(** * Correctness of the administration store

    Authentication answers only for live records, revocation removes every way
    in and leaves the tombstone the collaboration store checks, an invite
    enrolls one device, and rotation leaves exactly one live credential. *)

From S2P Require Import Prelude GoString GoStringFacts Sha256 Protocol Auth Records Json Redis RedisLogic MemRedis Redact RedactFacts.
From S2P Require Import CollabMachine AdminStore.
From Stdlib Require Import Ascii.

Local Open Scope Z_scope.

(** ** Reading *)

Section reading.
Context {DB : Type} `{RL : RedisLaws DB} `{UT : UnicodeTables}.
Context (R : relation DB) `{!PreOrder R}.
Abbreviation AM := (M (world DB) (rerror serr)).

Lemma spec_ext {A} o (m m' : AM A) P Q : (∀ w, m w = m' w) → spec R o P m' Q → spec R o P m Q.
Proof. intros Heq Hm w Hw. rewrite Heq. by apply Hm. Qed.

(** [found] of a document read is a read and a case distinction. *)
Definition read_option (A : Type) `{Json A} (k : string) : AM (option A) :=
  raw ← redis_get k;
  match raw with
  | None => mret None
  | Some d => match unmarshal d with Some v => mret (Some v) | None => throw RedisFailure end
  end.
Lemma found_readJSON A `{Json A} k (w : world DB) : found (readJSON A k) w = read_option A k w.
Proof.
  unfold found, readJSON, read_option, attempt, mbind, M_bind.
  destruct (redis_get k w) as [w' [e|[d|]]] eqn:Hget; [|by destruct (unmarshal d)|done].
  destruct e as [e| |]; [|done|done]. exfalso. unfold redis_get, redis_read, redis_call in Hget.
  destruct (next_env w) as [[] ?]; simplify_eq.
Qed.

Lemma spec_read_option A `{Json A} o k d0 (P : DB → Prop) :
  (∀ d d', R d d' → P d → P d') → (∀ d, P d → R d0 d) →
  spec R o (λ d _, P d) (read_option A k) (λ r d _,
    match r with Some v => held R d0 d k v | None => ∃ d1, R d0 d1 ∧ R d1 d ∧ r_get d1 k = None end ∧ P d).
Proof.
  intros HP Hd0. eapply (spec_bind R); [by apply (spec_get_held R) with (d0 := d0)|].
  intros [doc|]; [|by apply (spec_ret R)].
  destruct (unmarshal doc) as [v|] eqn:Hdoc; [|apply (spec_throw R)]. apply unmarshal_Some in Hdoc as ->.
  apply (spec_ret R). intros d wt [(d1 & ? & ? & ?) ?]. split; [by exists d1|done].
Qed.

Lemma spec_readJSON A `{Json A} o k d0 (P : DB → Prop) :
  (∀ d d', R d d' → P d → P d') → (∀ d, P d → R d0 d) →
  spec R o (λ d _, P d) (readJSON A k) (λ v d _, held R d0 d k v ∧ P d).
Proof.
  intros HP Hd0. eapply (spec_bind R); [by apply (spec_get_held R) with (d0 := d0)|].
  intros [doc|]; [|apply (spec_throw R)].
  destruct (unmarshal doc) as [v|] eqn:Hdoc; [|apply (spec_throw R)]. apply unmarshal_Some in Hdoc as ->.
  apply (spec_ret R). intros d wt [(d1 & ? & ? & ?) ?]. split; [by exists d1|done].
Qed.

Lemma spec_found_or A `{Json A} o e k d0 (P : DB → Prop) :
  (∀ d d', R d d' → P d → P d') → (∀ d, P d → R d0 d) →
  spec R o (λ d _, P d) (found_or e (readJSON A k)) (λ v d _, held R d0 d k v ∧ P d).
Proof.
  intros HP Hd0. unfold found_or. eapply (spec_bind R).
  - eapply spec_ext; [apply found_readJSON|]. by apply spec_read_option with (d0 := d0).
  - intros [v|]; [by apply (spec_ret R)|apply (spec_throw R)].
Qed.

(** ** Administrator rights *)

(** A stored, active administrator. *)
Definition admin_held (p : Principal) (d0 d : DB) : Prop :=
  ∃ member, held R d0 d (memberKey (p_OrganizationID p) (p_MemberID p)) member ∧
    mem_Status member = StatusActive ∧ mem_Role member = RoleAdmin.

Lemma spec_requireAdmin o p d0 :
  spec R o (λ d _, R d0 d) (requireAdmin p) (λ _ d _, (IsAdmin p = true ∧ admin_held p d0 d) ∧ R d0 d).
Proof.
  unfold requireAdmin, refuse_if. apply (spec_reject_bind R). intros Hp. orb_split.
  eapply (spec_bind R); [apply spec_found_or with (d0 := d0); [intros d d' ? ?; by etrans|done]|]. intros member.
  eapply spec_post; [apply (spec_reject_if R)|]. intros u d wt [Hm [Hheld ?]]. orb_split.
  split; [split; [done|by exists member]|done].
Qed.
Lemma admin_held_weaken p d0 d d' : R d d' → admin_held p d0 d → admin_held p d0 d'.
Proof. intros Hd (m & Hm & ?). exists m. split; [by eapply (held_weaken R)|done]. Qed.

(** ** Authentication *)

(** What a principal is made of. *)
Definition authenticated (rawToken : string) (p : Principal) (d0 d : DB) : Prop :=
  ∃ cred member,
    held R d0 d (credentialKey (Hash rawToken)) cred ∧ Kind rawToken = Some (cred_Kind cred) ∧
    held R d0 d (memberKey (cred_OrganizationID cred) (cred_MemberID cred)) member ∧
    mem_Status member = StatusActive ∧
    p_OrganizationID p = cred_OrganizationID cred ∧ p_MemberID p = cred_MemberID cred ∧
    p_Role p = mem_Role member ∧ p_TokenKind p = cred_Kind cred ∧ p_CredentialHash p = Hash rawToken ∧
    ((cred_Kind cred = TokenAdmin ∧ mem_Role member = RoleAdmin ∧ cred_DeviceID cred = "" ∧ p_AgentID p = "") ∨
     (cred_Kind cred = TokenDevice ∧ ∃ device,
        held R d0 d (deviceKey (cred_OrganizationID cred) (cred_DeviceID cred)) device ∧
        dev_Status device = StatusActive ∧ dev_MemberID device = mem_ID member ∧
        p_DeviceID p = dev_ID device ∧ p_AgentID p = dev_AgentID device ∧
        p_Runtime p = dev_Runtime device ∧ p_PermissionMode p = dev_PermissionProfile device)).

Lemma from_and_closed d0 (φ : DB → Prop) :
  (∀ d d', R d d' → φ d → φ d') → ∀ d d', R d d' → φ d ∧ R d0 d → φ d' ∧ R d0 d'.
Proof. intros Hφ d d' Hd [? ?]. split; [eauto|by etrans]. Qed.

Lemma spec_Authenticate o rawToken d0 :
  spec R o (λ d _, R d0 d) (Authenticate rawToken) (λ p d _, authenticated rawToken p d0 d).
Proof.
  unfold Authenticate, refuse_if. destruct (Kind rawToken) as [kind|] eqn:Hkind; [|apply (spec_throw R)].
  apply (spec_reject_bind R). intros Hk.
  eapply (spec_bind R); [apply (spec_get_held R) with (d0 := d0) (P := R d0); [intros d d' ? ?; by etrans|done]|].
  intros raw. destruct (raw ≫= unmarshal) as [cred|] eqn:Hraw; [|apply (spec_throw R)].
  eapply spec_pre; [|intros d wt Hd; exact (held_typed R _ _ _ _ _ _ Hraw Hd)].
  apply (spec_reject_bind R). intros Hc. orb_split. subst kind.
  eapply (spec_bind R).
  { apply spec_found_or with (d0 := d0) (P := λ d, held R d0 d (credentialKey (Hash rawToken)) cred ∧ R d0 d);
      [apply from_and_closed; intros; by eapply (held_weaken R)|by intros d [_ ?]]. }
  intros member. apply (spec_reject_bind R). intros Hst. orb_split. cbv zeta.
  destruct (bool_decide (cred_Kind cred = TokenAdmin)) eqn:Hadm; orb_split.
  - apply (spec_reject_bind R). intros Hrole. orb_split. apply (spec_ret R). intros d wt (Hm & Hcred & _).
    exists cred, member. do 9 (split; [done|]). left. by split_and!.
  - apply (spec_reject_bind R). intros Hdev. orb_split. eapply (spec_bind R).
    { eapply spec_pre; [|intros d wt (H1' & H2' & H3'); exact (conj (conj H1' H2') H3')].
      apply spec_found_or with (d0 := d0) (P := λ d,
        (held R d0 d (memberKey (cred_OrganizationID cred) (cred_MemberID cred)) member ∧
         held R d0 d (credentialKey (Hash rawToken)) cred) ∧ R d0 d).
      - apply from_and_closed. intros d d' ? [? ?]. split; by eapply (held_weaken R).
      - by intros d [_ ?]. }
    intros device. apply (spec_reject_bind R). intros Hd. orb_split. apply (spec_ret R).
    intros d wt (Hdevice & (Hm & Hcred) & _). exists cred, member. do 9 (split; [done|]). right.
    split; [|by exists device]. apply andb_false_iff in Hk as [Hk|Hk]; orb_split; done.
Qed.

(** C13. Authentication.  A token authenticates only through a stored credential
    of its own kind, whose member is active and, for a device token, whose
    device is active and the member's; the principal carries exactly the
    identity, role, agent, runtime and permission mode of those records. *)
Theorem authenticate_correct rawToken (w w' : world DB) p :
  env_ok R w → Authenticate rawToken w = (w', inr p) → authenticated rawToken p (w_db w) (w_db w').
Proof.
  intros He Hrun. eapply (spec_run R) in Hrun as [_ Hq];
    [exact Hq|apply spec_Authenticate with (d0 := w_db w)|done|cbn beta; reflexivity].
Qed.
End reading.

(** ** Keys of the administration store *)

Lemma string_bytes_app a b : bytes (a +:+ b) = bytes a ++ bytes b.
Proof. induction a as [|c a IH]; [done|]. rewrite append_cons. unfold bytes in *. simpl. by rewrite IH. Qed.

Lemma bytes_drop n s : bytes (drop_bytes n s) = drop n (bytes s).
Proof. revert s. induction n as [|n IH]; intros [|c s]; try done. simpl. apply IH. Qed.

Lemma length_bytes s : length (bytes s) = String.length s.
Proof. induction s as [|c s IH]; [done|]. unfold bytes in *. simpl. by rewrite IH. Qed.

Lemma hex_decode_chars n s r c :
  (String.length s ≤ n)%nat → hex_decode s = Some r → c ∈ bytes s → is_Some (hex_val c).
Proof.
  revert s r. induction n as [|n IH]; intros s r Hlen Hs Hc.
  { destruct s; [by apply elem_of_nil in Hc|simpl in Hlen; lia]. }
  destruct s as [|a [|b s]]; [by apply elem_of_nil in Hc|done|]. simpl in Hs.
  destruct (hex_val a) as [x|] eqn:Ha; [|done]. destruct (hex_val b) as [y|] eqn:Hb; [|done].
  destruct (hex_decode s) as [r'|] eqn:Hr; [|done]. unfold bytes in Hc. simpl in Hc.
  apply elem_of_cons in Hc as [->|Hc]; [by rewrite Ha|]. apply elem_of_cons in Hc as [->|Hc]; [by rewrite Hb|].
  eapply (IH s); [simpl in Hlen; lia|done|done].
Qed.

(** An identifier never ends in the suffix of another kind of key. *)
Lemma validID_not_suffix v prefix x suffix c :
  validID v prefix = true → (String.length prefix < 32)%nat → hex_val c = None →
  v ≠ x +:+ suffix +:+ String.String c "".
Proof.
  unfold validID. intros Hv Hp Hc ->. orb_split.
  match goal with H : is_Some (hex_decode _) |- _ => destruct H as [r Hr] end.
  match goal with H : (_ =? _) = true |- _ => apply Z.eqb_eq in H; rename H into Hlen end.
  assert (is_Some (hex_val c)) as [y Hy]; [|congruence].
  eapply hex_decode_chars; [reflexivity|exact Hr|].
  unfold len in Hlen. rewrite <- !length_bytes in Hlen. rewrite bytes_drop.
  rewrite !string_bytes_app in Hlen |- *. rewrite app_assoc in Hlen |- *. rewrite length_app in Hlen.
  rewrite length_bytes in Hlen. rewrite drop_app_le; [apply elem_of_app; right; by left|].
  simpl in Hlen. rewrite length_bytes in Hlen. lia.
Qed.

(** An organisation identifier is not blank. *)
Lemma validID_not_blank v : validID v "org_" = true → trim_space v ≠ "".
Proof.
  unfold validID. intros Hv. orb_split.
  match goal with H : has_prefix _ _ = true |- _ => apply has_prefix_split in H as (x & -> & _) end.
  change ("org_" +:+ x) with (String.String "o"%char ("rg_" +:+ x)). unfold trim_space.
  rewrite segments_ascii by (vm_compute; reflexivity). rewrite drop_while_id by (vm_compute; reflexivity).
  destruct (drop_while_end_cons (λ q : Z * string, is_space q.1) (byte_val "o"%char, String.String "o"%char "") (segments ("rg_" +:+ x))) as [l ->];
    [vm_compute; reflexivity|]. discriminate.
Qed.
Lemma device_key_ne org d x : validID d "dev_" = true → deviceKey org d ≠ deviceCredentialKey org x.
Proof.
  intros Hd Heq. unfold deviceKey, deviceCredentialKey, org_key in Heq. do 4 apply append_inj_l in Heq.
  eapply (validID_not_suffix d "dev_" x ":credential_has" "h"%char); [done|simpl; lia|done|exact Heq].
Qed.
Lemma member_key_ne org m x : validID m "mem_" = true → memberKey org m ≠ memberCredentialsKey org x.
Proof.
  intros Hm Heq. unfold memberKey, memberCredentialsKey, org_key in Heq. do 4 apply append_inj_l in Heq.
  eapply (validID_not_suffix m "mem_" x ":credential_hashe" "s"%char); [done|simpl; lia|done|exact Heq].
Qed.

(** Two keys of one organisation that differ in a literal part. *)
Ltac literal_ne :=
  simpl; let Heq := fresh in intros Heq;
  unfold deviceKey, memberKey, deviceCredentialKey, memberCredentialsKey, inviteKey, inviteCredentialKey,
    auditKey, membersKey, devicesKey, memberDevicesKey, organizationKey, invitesKey, org_key,
    credentialKey, inviteTokenKey, enrollmentIdempotencyKey, adminRotationKey, CollaborationRevokedAgents in Heq;
  repeat apply append_inj_l in Heq;
  unfold keyPrefix, collaborationPrefix in Heq; rewrite ?append_cons, ?append_nil_l in Heq; discriminate Heq.

Ltac other_keys := repeat first [apply Forall_nil_2 | apply Forall_cons_2; [literal_ne|]].

Section revocation.
Context {DB : Type} `{RL : RedisLaws DB} `{UT : UnicodeTables}.
Abbreviation AM := (M (world DB) (rerror serr)).

Lemma other_tombstones org ids k :
  CollaborationRevokedAgents org ≠ k → Forall (λ c, cmd_key c ≠ k) (addRevokedAgentTombstones org ids).
Proof. intros Hk. apply Forall_fmap, Forall_forall. by intros id _. Qed.
Lemma other_audit org a k : auditKey org ≠ k → Forall (λ c, cmd_key c ≠ k) (audit_commands org a).
Proof. intros Hk. by repeat constructor. Qed.

(** The tombstones of a list of agents are in place. *)
Definition tombstoned (org : string) (ids : list string) (d : DB) : Prop :=
  ∀ id, id ∈ ids → trim_space id ≠ "" → r_sismember d (CollaborationRevokedAgents org) id = true.

Lemma tombstones_exec org ids d : tombstoned org ids (r_exec_all (addRevokedAgentTombstones org ids) d).
Proof.
  intros id Hid Hne. apply bool_decide_eq_true. unfold addRevokedAgentTombstones.
  assert (id ∈ List.filter (λ id, negb (bool_decide (trim_space id = ""))) ids) as Hin.
  { apply list_elem_of_In, filter_In. split; [by apply list_elem_of_In|]. by rewrite bool_decide_false. }
  clear Hid. revert d Hin. generalize (List.filter (λ id, negb (bool_decide (trim_space id = ""))) ids). intros l.
  assert (∀ l d, id ∈ r_smembers d (CollaborationRevokedAgents org) →
    id ∈ r_smembers (r_exec_all ((λ id, CSAdd (CollaborationRevokedAgents org) id) <$> l) d) (CollaborationRevokedAgents org)) as Hkeep.
  { intros l'. induction l' as [|x l' IH]; intros d' Hd'; [done|]. rewrite fmap_cons, r_exec_all_cons. apply IH.
    apply smembers_add. by right. }
  induction l as [|x l IH]; intros d Hin; [by apply elem_of_nil in Hin|].
  rewrite fmap_cons, r_exec_all_cons. apply elem_of_cons in Hin as [->|Hin]; [|by apply IH].
  apply Hkeep, smembers_add. by left.
Qed.

Lemma tombstoned_keep org ids cs d :
  Forall (λ c, cmd_key c ≠ CollaborationRevokedAgents org) cs → tombstoned org ids d → tombstoned org ids (r_exec_all cs d).
Proof. intros Hcs Ht id Hid Hne. rewrite sismember_other_all by done. by apply Ht. Qed.

(** What a device revocation leaves behind. *)
Definition device_revoked (org deviceID : string) (agent : string) (d : DB) : Prop :=
  ∃ device, r_get d (deviceKey org deviceID) = Some (marshal device) ∧
    dev_Status device = StatusRevoked ∧ dev_AgentID device = agent.

Lemma revoke_device_exec org deviceID device hash audit t d :
  validID deviceID "dev_" = true →
  let d' := r_exec_all (revoke_device_commands org deviceID (dev_revoke t device) hash audit) d in
  device_revoked org deviceID (dev_AgentID device) d' ∧ tombstoned org [dev_AgentID device] d' ∧
  r_get d' (deviceCredentialKey org (dev_ID device)) = None ∧
  (hash ≠ "" → r_get d' (credentialKey hash) = None).
Proof.
  intros Hid. unfold revoke_device_commands. rewrite !r_exec_all_app. cbv zeta. split_and!.
  - exists (dev_revoke t device). split; [|done].
    rewrite get_other_all by (apply other_audit; literal_ne).
    rewrite get_other_all by (repeat constructor; simpl; by apply not_eq_sym, device_key_ne).
    rewrite get_other_all by (case_bool_decide; other_keys).
    rewrite get_other_all by (apply other_tombstones; literal_ne). by apply get_set.
  - apply tombstoned_keep; [apply other_audit; literal_ne|].
    apply tombstoned_keep; [other_keys|]. apply tombstoned_keep; [case_bool_decide; other_keys|].
    apply tombstones_exec.
  - rewrite get_other_all by (apply other_audit; literal_ne). apply get_del.
  - intros Hne. rewrite bool_decide_false by done.
    rewrite get_other_all by (apply other_audit; literal_ne).
    rewrite get_other_all by (other_keys).
    rewrite r_exec_all_cons, get_other_all by (other_keys). apply get_del.
Qed.

(** A device of the organisation, stored as the device of an agent. *)
Definition named (org deviceID agent : string) (d : DB) : Prop :=
  ∃ device, r_get d (deviceKey org deviceID) = Some (marshal device) ∧ dev_AgentID device = agent.
(** The device is stored as revoked and its agent is in the revocation set. *)
Definition cut_off (org deviceID agent : string) (d : DB) : Prop :=
  device_revoked org deviceID agent d ∧ r_sismember d (CollaborationRevokedAgents org) agent = true.
(** Nobody gives the device to another agent, and nobody takes a revocation
    back. *)
Definition keeps_device (org deviceID agent : string) : relation DB := λ d d',
  (named org deviceID agent d → named org deviceID agent d') ∧ (cut_off org deviceID agent d → cut_off org deviceID agent d').
#[export] Instance keeps_device_preorder org deviceID agent : PreOrder (keeps_device org deviceID agent).
Proof. split; [by intros d|]. intros d1 d2 d3 [H1 H2] [H3 H4]. split; auto. Qed.

(** Commands that leave the record alone and take nobody out of the set. *)
Lemma keeps_device_other org deviceID agent cs (d : DB) :
  Forall (λ c, cmd_key c ≠ deviceKey org deviceID) cs →
  (r_sismember d (CollaborationRevokedAgents org) agent = true →
   r_sismember (r_exec_all cs d) (CollaborationRevokedAgents org) agent = true) →
  keeps_device org deviceID agent d (r_exec_all cs d).
Proof.
  intros Hcs Hset. split.
  - intros (dv & Hget & Ha). exists dv. split; [|done]. by rewrite get_other_all.
  - intros [(dv & Hget & Hst & Ha) Hin]. split; [|by apply Hset]. exists dv. split_and!; [|done|done]. by rewrite get_other_all.
Qed.
Lemma tombstones_keep org ids agent (d : DB) : r_sismember d (CollaborationRevokedAgents org) agent = true →
  r_sismember (r_exec_all (addRevokedAgentTombstones org ids) d) (CollaborationRevokedAgents org) agent = true.
Proof.
  unfold addRevokedAgentTombstones, r_sismember. intros Hin%bool_decide_eq_true. apply bool_decide_eq_true. revert d Hin.
  generalize (List.filter (λ id, negb (bool_decide (trim_space id = ""))) ids). intros l. induction l as [|x l IH]; intros d Hin; [done|].
  rewrite fmap_cons, r_exec_all_cons. apply IH, smembers_add. by right.
Qed.

(** The transaction of a device revocation. *)
Section revoke.
Context (org deviceID agent : string).
Abbreviation K := (keeps_device org deviceID agent).
Hypothesis Hagent : trim_space agent ≠ "".

Lemma tombstones_cut_off device (d : DB) : dev_AgentID device = agent → dev_Status device = StatusRevoked →
  r_get d (deviceKey org deviceID) = Some (marshal device) →
  cut_off org deviceID agent (r_exec_all (addRevokedAgentTombstones org [agent]) d).
Proof.
  intros Ha Hst Hget. split; [|apply tombstones_exec; [by left|done]]. exists device. split_and!; [|done|done].
  by rewrite get_other_all by (apply other_tombstones; literal_ne).
Qed.
Lemma spec_revoke_device_body o p : p_OrganizationID p = org → validID deviceID "dev_" = true →
  spec K o (λ d wt, named org deviceID agent d ∧ Sees [deviceKey org deviceID; deviceCredentialKey org deviceID] (λ _, True) d wt)
    (revoke_device_body p deviceID : AM _)
    (λ result d _, result = mkRevocationResult org [agent] ∧ cut_off org deviceID agent d).
Proof.
  intros Horg Hid. set (ks := [_; _]).
  assert (∀ k b, k ∈ ks → guarded (DB := DB) ks (λ d, r_get d k = b)) as Hg
    by (intros k b Hk; by apply (guarded_get ks k (λ x, x = b))).
  assert (∀ ks φ, guarded ks φ → stable K (λ d wt, named org deviceID agent d ∧ Sees ks φ d wt)) as Hstable.
  { intros ks' φ Hφ. apply stable_and; [apply stable_closed; by intros d d' [? _]|by apply stable_Sees]. }
  unfold revoke_device_body, readJSON. cbv zeta. rewrite Horg.
  eapply (spec_bind K) with (Q := λ device d wt, dev_AgentID device = agent ∧ named org deviceID agent d ∧
    Sees ks (λ d, r_get d (deviceKey org deviceID) = Some (marshal device)) d wt).
  { eapply (spec_bind K) with (Q := λ raw d wt, (∀ device, raw = Some (marshal device) → dev_AgentID device = agent) ∧
      named org deviceID agent d ∧ Sees ks (λ d, r_get d (deviceKey org deviceID) = raw) d wt).
    - apply (spec_read K); [by apply Hstable, guarded_const|]. intros d wt [(dv & Hget & Ha) (b & -> & _)].
      split; [|split; [by exists dv|exists b; by split]]. intros device. rewrite Hget. by intros [= <-].
    - intros [doc|]; [|apply (spec_throw K)]. destruct (unmarshal doc) as [device|] eqn:Hdoc; [|apply (spec_throw K)].
      apply unmarshal_Some in Hdoc as ->. apply (spec_ret K). intros d wt (Ha & Hrest). split; [by apply Ha|done]. }
  intros device. eapply spec_pure with (φ := dev_AgentID device = agent); [intros d wt Hd; exact Hd|]. intros Ha. rewrite Ha.
  assert (∀ cs, cs ≠ [] → (∀ d, r_get d (deviceKey org deviceID) = Some (marshal device) → cut_off org deviceID agent (r_exec_all cs d)) →
    spec K o (λ d wt, named org deviceID agent d ∧ Sees ks (λ d, r_get d (deviceKey org deviceID) = Some (marshal device)) d wt)
      (tx_pipelined cs : AM ()) (λ _ d _, cut_off org deviceID agent d)) as Htx.
  { intros cs Hne Hcut. eapply spec_post; [apply (spec_tx_sees K) with (P := λ d _, named org deviceID agent d)|]; [done| |by apply Hg; left| |].
    - apply stable_closed. by intros d d' [? _].
    - intros d _ _ Hget. pose proof (Hcut d Hget) as Hc. split; intros _; [|done]. destruct Hc as [(dv & ? & _ & ?) _]. by exists dv.
    - intros u d' wt (_ & d & _ & _ & Hget & ->). by apply Hcut. }
  case_bool_decide as Hst.
  - eapply (spec_bind K); [apply Htx|intros u; apply (spec_ret K); intros d wt Hc; by split].
    + unfold addRevokedAgentTombstones. simpl. by rewrite bool_decide_false.
    + intros d Hget. by eapply tombstones_cut_off.
  - eapply (spec_bind K); [apply (spec_now K)|]. intros t.
    eapply (spec_bind K) with (Q := λ hash d wt, named org deviceID agent d ∧
      Sees ks (λ d, r_get d (deviceKey org deviceID) = Some (marshal device)) d wt).
    { apply (spec_read K); [apply stable_and; [apply stable_const|by apply Hstable, Hg; left]|]. by intros d wt [_ ?]. }
    intros hash. eapply (spec_bind K); [apply (spec_randomID K)|]. intros audID.
    eapply (spec_bind K); [eapply spec_pre; [apply Htx|by intros d wt [_ ?]]|intros u; apply (spec_ret K); intros d wt Hc; by split]; [done|].
    intros d Hget. edestruct (revoke_device_exec org deviceID device) as (Hdev & Htomb & _); [done|]. rewrite Ha in Hdev, Htomb.
    split; [exact Hdev|apply Htomb; [by left|done]].
Qed.

(** Device revocation.  While others keep the device with its agent and take no
    revocation back, a reported success names that agent, the device is stored
    as revoked, and the agent is in the revocation set: [authenticate_correct]
    then refuses its token, and [decide_correct] cancels its queued requests. *)
Theorem revoke_device_correct p (w w' : world DB) result :
  p_OrganizationID p = org → env_ok K w → named org deviceID agent (w_db w) → RevokeDevice p deviceID w = (w', inr result) →
  validID org "org_" = true ∧ env_ok K w' ∧ result = mkRevocationResult org [agent] ∧ cut_off org deviceID agent (w_db w').
Proof.
  intros Horg He Hn Hrun.
  assert (validID org "org_" = true) as Hvalid.
  { unfold RevokeDevice in Hrun. apply bind_inr in Hrun as (w1 & [] & Hadmin & _). unfold requireAdmin, refuse_if in Hadmin.
    apply bind_inr in Hadmin as (w2 & [] & Hadmin & _). destruct (_ || _) eqn:Hor in Hadmin; [done|]. orb_split. by rewrite <- Horg. }
  split; [exact Hvalid|].
  assert (spec K (oracle_of w) (λ d _, named org deviceID agent d) (RevokeDevice p deviceID : AM _)
    (λ result d _, result = mkRevocationResult org [agent] ∧ cut_off org deviceID agent d)) as Hspec.
  { unfold RevokeDevice, refuse_if. eapply (spec_bind K).
    { eapply spec_post; [apply (spec_keep K) with (P := named org deviceID agent)|]; [|by intros d d' [? _]|intros u d wt Hd; exact Hd].
      unfold requireAdmin, found_or, found, readMember, readJSON, refuse_if. guar_auto. }
    intros u. apply (spec_reject_bind K). intros Hid. apply negb_false_iff in Hid.
    eapply spec_post; [apply (spec_retrying K); [by intros d d' wt wt' [? _]|]|].
    - rewrite Horg. apply (spec_watch K); [by intros d d' wt wt' [? _]|]. by apply spec_revoke_device_body.
    - intros result' d wt [? _]. done. }
  eapply (spec_run K) in Hrun as [Hin Hq]; [|exact Hspec|done|done]. split; [apply Hin|done].
Qed.
End revoke.
End revocation.

(** ** Invites are used once *)

Section single_use.
Context {DB : Type} `{RL : RedisLaws DB} `{UT : UnicodeTables}.
Abbreviation AM := (M (world DB) (rerror serr)).
Context (rawToken : string) (i : EnrollInput) (reference : inviteReference) (invite : Invite).
Let inviteHash := Hash rawToken.
Let idemKey := enrollmentIdempotencyKey (to_lower (clean (ei_IdempotencyKeyHash i))).
Let inviteKeyName := inviteKey (ref_OrganizationID reference) (ref_InviteID reference).

(** The invite is no longer pending, and this enrollment has no record. *)
Definition consumed (d : DB) : Prop :=
  r_get d (inviteTokenKey inviteHash) = Some (marshal reference) ∧
  r_get d inviteKeyName = Some (marshal invite) ∧ r_get d idemKey = None.
Definition keeps_consumed (d d' : DB) : Prop := consumed d → consumed d'.
#[export] Instance keeps_consumed_preorder : PreOrder keeps_consumed.
Proof. split; [by intros ? ?|intros ? ? ? H1 H2 H3; auto]. Qed.

Lemma spec_get_consumed o k v :
  (∀ d, consumed d → r_get d k = v) →
  spec keeps_consumed o (λ d _, consumed d) (redis_get k : AM _) (λ raw d _, raw = v ∧ consumed d).
Proof.
  intros Hk. apply (spec_read keeps_consumed); [intros d d' wt Hd ?; by apply Hd|]. intros d wt Hd. split; [by apply Hk|done].
Qed.

Lemma spec_no_record o ih rh :
  spec keeps_consumed o (λ d _, consumed d) (readEnrollmentRecord idemKey ih rh : AM _)
    (λ r d _, r = None ∧ consumed d).
Proof.
  unfold readEnrollmentRecord. eapply (spec_bind keeps_consumed) with (Q := λ r d _, r = None ∧ consumed d).
  - eapply (spec_ext keeps_consumed); [apply found_readJSON|]. unfold read_option.
    eapply (spec_bind keeps_consumed); [by apply (spec_get_consumed _ idemKey None); intros d (_ & _ & ?)|].
    intros raw. eapply spec_pure with (φ := raw = None) (P' := λ d _, consumed d); [done|]. intros ->.
    by apply (spec_ret keeps_consumed).
  - intros r. eapply spec_pure with (φ := r = None) (P' := λ d _, consumed d); [done|]. intros ->.
    by apply (spec_ret keeps_consumed).
Qed.

Lemma spec_enroll_body_consumed o requestHash i' memberID deviceID agentID :
  inv_Status invite ≠ StatusPending →
  spec keeps_consumed o (λ d _, consumed d)
    (enroll_body inviteHash requestHash idemKey inviteKeyName (marshal reference) i' memberID deviceID agentID : AM _)
    (λ _ _ _, False).
Proof.
  intros Hst. unfold enroll_body. eapply (spec_bind keeps_consumed); [apply spec_no_record|]. intros r.
  eapply spec_pure with (φ := r = None) (P' := λ d _, consumed d); [done|]. intros ->.
  eapply (spec_bind keeps_consumed).
  { apply (spec_get_consumed _ _ (Some (marshal reference))). by intros d (? & _). }
  intros currentRef. apply (spec_reject_bind keeps_consumed). intros _.
  eapply spec_pre with (P' := λ d _, consumed d); [|by intros d wt [_ ?]].
  eapply (spec_bind keeps_consumed) with (Q := λ inv d _, inv = invite ∧ consumed d).
  { unfold readJSON. eapply (spec_bind keeps_consumed).
    - apply (spec_get_consumed _ inviteKeyName (Some (marshal invite))). by intros d (_ & ? & _).
    - intros raw. eapply spec_pure with (φ := raw = Some (marshal invite)) (P' := λ d _, consumed d); [done|].
      intros ->. rewrite unmarshal_marshal. by apply (spec_ret keeps_consumed). }
  intros inv. eapply spec_pure with (φ := inv = invite) (P' := λ d _, consumed d); [done|]. intros ->.
  eapply (spec_bind keeps_consumed) with (Q := λ _ _ _, False); [|intros u w (_ & _ & _ & [])].
  destruct (inv_Status invite); try done; apply (spec_throw keeps_consumed).
Qed.

Lemma spec_Enroll_consumed o :
  inv_Status invite ≠ StatusPending →
  spec keeps_consumed o (λ d _, consumed d) (Enroll rawToken i : AM _) (λ _ _ _, False).
Proof.
  intros Hst. assert (∀ d d' : DB, keeps_consumed d d' → consumed d → consumed d') as Hclosed by auto.
  unfold Enroll, refuse_if. apply (spec_reject_bind keeps_consumed). intros _.
  eapply (spec_bind keeps_consumed).
  { apply (spec_keep keeps_consumed) with (P := consumed); [|done]. unfold normalizedTime. guar_auto. }
  intros t. cbv zeta. apply (spec_reject_bind keeps_consumed). intros _. cbn [enroll_normalized ei_IdempotencyKeyHash].
  fold inviteHash idemKey. eapply (spec_bind keeps_consumed); [apply spec_no_record|]. intros r.
  eapply spec_pure with (φ := r = None) (P' := λ d _, consumed d); [done|]. intros ->.
  eapply (spec_bind keeps_consumed).
  { apply (spec_get_consumed _ _ (Some (marshal reference))). by intros d (? & _). }
  intros raw. eapply spec_pure with (φ := raw = Some (marshal reference)) (P' := λ d _, consumed d); [done|].
  intros ->. rewrite unmarshal_marshal. apply (spec_reject_bind keeps_consumed). intros _.
  do 3 (eapply (spec_bind keeps_consumed);
    [apply (spec_keep keeps_consumed) with (P := consumed); [apply guar_randomID, _|done]|intros ?]).
  eapply (spec_bind keeps_consumed).
  { apply (spec_attempt_closed keeps_consumed) with (P := consumed) (Q := λ _ _ _, False); [done|].
    apply (spec_retrying keeps_consumed); [by intros d d' wt wt' Hd ?; apply Hd|].
    eapply spec_post; [apply (spec_watch keeps_consumed) with (Q := λ _ _, False);
      [by intros d d' wt wt' Hd ?; apply Hd|]|by intros ? ? ? [[] _]].
    eapply spec_pre; [by apply spec_enroll_body_consumed|by intros d wt [? _]]. }
  intros [e|result]; [|intros w (_ & _ & _ & Hf & _); exfalso; by eapply Hf].
  eapply spec_pre with (P' := λ d _, consumed d); [|by intros d wt [_ ?]].
  unfold enroll_settle. assert (∀ (e' : rerror serr), spec keeps_consumed o (λ d _, consumed d)
    (lift (inl e') : AM EnrollResult) (λ _ _ _, False)) as Hlift by (intros e'; by apply (spec_lift keeps_consumed)).
  destruct e as [[]| |]; try apply Hlift;
    (eapply (spec_bind keeps_consumed); [apply spec_no_record|]; intros r;
     eapply spec_pure with (φ := r = None) (P' := λ d _, consumed d); [done|]; intros ->; apply Hlift).
Qed.
End single_use.

Section enrollment.
Context {DB : Type} `{RL : RedisLaws DB} `{UT : UnicodeTables}.

(** Invites are single-use.  While an invite is used, revoked or otherwise
    not pending, an enrollment with its token that is not the recorded one
    never succeeds, whatever fails or races around it. *)
Theorem enroll_single_use rawToken i reference invite (w w' : world DB) result :
  inv_Status invite ≠ StatusPending →
  env_ok (keeps_consumed rawToken i reference invite) w →
  consumed rawToken i reference invite (w_db w) →
  Enroll rawToken i w ≠ (w', inr result).
Proof.
  intros Hst He Hc Hrun. eapply (spec_run (keeps_consumed rawToken i reference invite)) in Hrun as [_ Hq];
    [exact Hq|by apply spec_Enroll_consumed|done|done].
Qed.
End enrollment.

(** ** Credential rotation *)

Section rotation.
Context {DB : Type} `{RL : RedisLaws DB} `{UT : UnicodeTables}.
Abbreviation AM := (M (world DB) (rerror serr)).

(** Exactly the new credential is live. *)
Definition rotated (p : Principal) (newHash : string) (t : time) (d : DB) : Prop :=
  r_get d (credentialKey (p_CredentialHash p)) = None ∧
  r_get d (credentialKey newHash) =
    Some (marshal (mkCredential TokenAdmin (p_OrganizationID p) (p_MemberID p) "" t)).

Lemma credentialKey_inj h h' : credentialKey h = credentialKey h' → h = h'.
Proof. unfold credentialKey. intros Heq. by do 2 apply append_inj_l in Heq. Qed.

Lemma rotation_exec p newHash t idem digest audit (d : DB) :
  p_CredentialHash p ≠ newHash →
  rotated p newHash t (r_exec_all (rotation_commands p newHash (mkCredential TokenAdmin (p_OrganizationID p) (p_MemberID p) "" t)
    (mkAdminRotationRecord (p_OrganizationID p) (p_MemberID p) idem digest (p_CredentialHash p) newHash t) audit) d).
Proof.
  intros Hne. unfold rotation_commands. rewrite r_exec_all_app, !r_exec_all_cons.
  split; (rewrite get_other_all by (apply other_audit; literal_ne));
    unfold r_exec_all; cbn [foldl]; rewrite get_other by literal_ne; rewrite get_other by literal_ne;
    rewrite get_other by literal_ne.
  - apply get_del.
  - rewrite get_other; [apply get_set|]. simpl. by intros ?%credentialKey_inj.
Qed.

Lemma spec_rotation_body o p newHash idem digest t audit :
  spec anything o (λ _ _, True) (rotation_body p newHash idem digest t audit : AM _)
    (λ result d _, rr_Replayed result = false → rr_RotatedAt result = t ∧ rotated p newHash t d).
Proof.
  unfold rotation_body, refuse_if. eapply (spec_bind anything) with (Q := λ _ _ _, True).
  { apply (spec_guar anything). unfold found, readJSON. guar_auto. }
  intros [existing|].
  - apply (spec_reject_bind anything). intros _. apply (spec_reject_bind anything). intros _.
    by apply (spec_ret anything).
  - apply (spec_reject_bind anything). intros Hne. orb_split.
    eapply (spec_bind anything) with (Q := λ _ _ _, True).
    { apply (spec_guar anything). unfold found, readJSON. guar_auto. }
    intros [current|]; [|apply (spec_throw anything)]. case_match; [apply (spec_throw anything)|].
    eapply (spec_bind anything) with (Q := λ _ _ _, True); [apply (spec_guar anything); auto with guar|].
    intros [|]; [apply (spec_throw anything)|].
    eapply (spec_bind anything) with (Q := λ _ d _, rotated p newHash t d); [|intros u; by apply (spec_ret anything)].
    apply (spec_tx anything); [apply stable_const|done|]. intros d wt _. by apply rotation_exec.
Qed.

(** Rotation.  A rotation that is not a replay ends with the credential it
    was authenticated by deleted and the new one installed for the same
    administrator, both by the last transaction of the call. *)
Theorem rotate_credential_correct p i (w w' : world DB) result :
  RotateAdminCredential p i w = (w', inr result) → rr_Replayed result = false →
  IsAdmin p = true ∧ rotated p (to_lower (ri_NewTokenHash i)) (rr_RotatedAt result) (w_db w').
Proof.
  intros Hrun Hfresh.
  assert (spec anything (oracle_of w) (λ d _, anything (w_db w) d) (RotateAdminCredential p i : AM _)
    (λ result d _, IsAdmin p = true ∧ (rr_Replayed result = false →
       rotated p (to_lower (ri_NewTokenHash i)) (rr_RotatedAt result) d))) as Hspec.
  { unfold RotateAdminCredential, refuse_if. eapply (spec_bind anything); [apply (spec_requireAdmin anything)|]. intros u.
    eapply spec_pure with (φ := IsAdmin p = true) (P' := λ _ _, True); [by intros d wt [[? _] _]|]. intros Hadmin.
    eapply (spec_bind anything) with (Q := λ _ _ _, True).
    { apply (spec_guar anything). unfold normalizedTime. guar_auto. }
    intros t. apply (spec_reject_bind anything). intros _. cbv zeta.
    eapply (spec_bind anything) with (Q := λ _ _ _, True); [apply (spec_guar anything); auto with guar|]. intros audID.
    apply (spec_retrying anything); [done|]. eapply spec_post; [apply (spec_watch anything); [done|]|].
    - eapply spec_pre; [apply spec_rotation_body|done].
    - intros r d wt [Hr _]. split; [done|]. intros Hf. destruct (Hr Hf) as [-> ?]. done. }
  eapply (spec_run anything) in Hrun as [_ Hq]; [|exact Hspec|apply env_ok_anything|done].
  destruct Hq as [? Hr]. split; [done|]. by apply Hr.
Qed.
End rotation.
