(* ===== verification/AdminWitness.v ===== *)
(** * The administration theorems at concrete inputs

    A sample history of the administration store: a relay is bootstrapped, an
    invite is created and used, the device is revoked, the administrator's
    credential is rotated.  Each theorem with hypotheses is applied on it. *)

From S2P Require Import Prelude GoString Sha256 Protocol Auth Records Json Redis RedisLogic MemRedis.
From S2P Require Import AdminStore AdminProofs.

Local Open Scope Z_scope.
#[local] Existing Instance ascii_tables.

Abbreviation mem_world := (world memdb).
Abbreviation AM := (M mem_world (rerror serr)).

Definition minted (kind : TokenKind) (seed : nat) : string := default "" (NewToken (test_rand seed +:+ test_rand seed) kind).
Definition admin_token : string := Eval vm_compute in minted TokenAdmin 101.
Definition invite_token : string := Eval vm_compute in minted TokenInvite 102.
Definition device_token : string := Eval vm_compute in minted TokenDevice 103.
Definition hash_of (s : string) : string := sha256_hex s.

Definition sample_bootstrap : BootstrapInput :=
  mkBootstrapInput "Acme" "Root" "root@acme.test" (Hash admin_token) (hash_of "boot") (test_clock 0).
Definition a_empty : mem_world := sample_world (mkSnapshot [] [] []) 0 0.
Definition s_bootstrapped : snapshot := Eval vm_compute in snapshot_of (Bootstrap sample_bootstrap a_empty).1.
Definition a_bootstrapped : mem_world := sample_world s_bootstrapped 10 10.

Definition nobody : Principal :=
  {| p_OrganizationID := ""; p_MemberID := ""; p_DeviceID := ""; p_AgentID := "";
     p_DisplayName := ""; p_DeviceName := ""; p_Runtime := "";
     p_PermissionMode := ""; p_CredentialHash := ""; p_Role := RoleMember;
     p_TokenKind := TokenDevice; p_IssuedAt := 0 |}.
Definition root : Principal := Eval vm_compute in result_of nobody (Authenticate admin_token) a_bootstrapped.

Definition sample_invite : CreateInviteInput :=
  mkCreateInviteInput "Dana" "dana@acme.test" "" (test_clock 3600) (Hash invite_token) (test_clock 10).
Definition s_invited : snapshot := Eval vm_compute in snapshot_of (CreateInvite root sample_invite a_bootstrapped).1.
Definition a_invited : mem_world := sample_world s_invited 20 20.

Definition sample_enroll : EnrollInput :=
  mkEnrollInput "Dana" "desk" "claude" "read_only" (Hash device_token) (hash_of "enroll") (test_clock 20).
Definition s_enrolled : snapshot := Eval vm_compute in snapshot_of (Enroll invite_token sample_enroll a_invited).1.
Definition a_enrolled : mem_world := sample_world s_enrolled 30 30.
Definition dana : Principal := Eval vm_compute in result_of nobody (Authenticate device_token) a_enrolled.

Example sample_admin_history :
  (IsAdmin root, p_TokenKind dana, p_Runtime dana, (Authenticate device_token a_invited).2) =
  (true, TokenDevice, "claude", inl (Sentinel ErrUnauthorized)).
Proof. vm_compute. reflexivity. Qed.


Lemma authenticate_correct_witness :
  p_DisplayName dana = "Dana" ∧
  authenticated anything device_token dana (w_db a_enrolled) (w_db (Authenticate device_token a_enrolled).1).
Proof.
  split; [vm_compute; reflexivity|].
  apply (authenticate_correct (DB := memdb) anything device_token); [quiet|by_run].
Defined.

(** The device Dana enrolled. *)
Lemma dana_stored : named (DB := memdb) (p_OrganizationID root) (p_DeviceID dana) (p_AgentID dana) (w_db a_enrolled).
Proof.
  assert (match r_get (w_db a_enrolled) (deviceKey (p_OrganizationID root) (p_DeviceID dana)) with
    | Some d => match unmarshal d with Some dv => bool_decide (dev_AgentID dv = p_AgentID dana) | None => false end
    | None => false end = true) as H by (vm_compute; reflexivity).
  unfold named. destruct (r_get _ _) as [d|]; [|discriminate H]. destruct (unmarshal d) as [dv|] eqn:Hd; [|discriminate H].
  apply unmarshal_Some in Hd as ->. exists dv. split; [reflexivity|]. by apply bool_decide_eq_true in H.
Defined.
Definition dana_revoked : RevocationResult :=
  result_of (mkRevocationResult "" []) (RevokeDevice root (p_DeviceID dana)) a_enrolled.
Lemma revoke_device_correct_witness :
  rv_AgentIDs dana_revoked = [p_AgentID dana] ∧
  cut_off (p_OrganizationID root) (p_DeviceID dana) (p_AgentID dana) (w_db (RevokeDevice root (p_DeviceID dana) a_enrolled).1).
Proof.
  split; [vm_compute; reflexivity|].
  apply (revoke_device_correct (DB := memdb) (p_OrganizationID root) (p_DeviceID dana) (p_AgentID dana)
    ltac:(vm_compute; discriminate) root a_enrolled (RevokeDevice root (p_DeviceID dana) a_enrolled).1 dana_revoked);
    [reflexivity|quiet|exact dana_stored|by_run].
Defined.

(** The invite Dana used, and somebody else trying it again. *)
Definition used_reference : inviteReference :=
  default (mkInviteReference "" "") (r_get (w_db a_enrolled) (inviteTokenKey (Hash invite_token)) ≫= unmarshal).
Definition used_invite : Invite :=
  default (mkInvite "" "" "" "" "" "" StatusPending 0 0 None "" None)
    (r_get (w_db a_enrolled) (inviteKey (ref_OrganizationID used_reference) (ref_InviteID used_reference)) ≫= unmarshal).
Definition second_enroll : EnrollInput :=
  mkEnrollInput "Eve" "desk" "claude" "read_only" (Hash device_token) (hash_of "second") (test_clock 30).
Lemma enroll_single_use_witness :
  inv_Status used_invite = StatusUsed ∧
  Enroll invite_token second_enroll a_enrolled ≠
    ((Enroll invite_token second_enroll a_enrolled).1,
     inr (mkEnrollResult (mkOrganization "" "" 0) (mkMember "" "" "" "" RoleMember StatusActive 0 None)
            (mkDevice "" "" "" "" "" "" "" StatusActive 0 None None))).
Proof.
  split; [vm_compute; reflexivity|].
  apply (enroll_single_use (DB := memdb) invite_token second_enroll used_reference used_invite).
  - vm_compute. discriminate.
  - quiet.
  - split_and!; vm_compute; reflexivity.
Defined.

Definition sample_rotation : RotateAdminCredentialInput :=
  mkRotateInput (hash_of "new admin token") (hash_of "rotate") (test_clock 30).
Definition rotation : RotateAdminCredentialResult :=
  result_of (mkRotateResult 0 true) (RotateAdminCredential root sample_rotation) a_enrolled.
Lemma rotate_credential_correct_witness :
  rr_Replayed rotation = false ∧
  rotated root (to_lower (ri_NewTokenHash sample_rotation)) (rr_RotatedAt rotation)
    (w_db (RotateAdminCredential root sample_rotation a_enrolled).1).
Proof.
  split; [vm_compute; reflexivity|].
  apply (rotate_credential_correct (DB := memdb) root sample_rotation a_enrolled); [by_run|vm_compute; reflexivity].
Defined.
