(* ===== verification/Http.v ===== *)
(** * Requests and responses of the relay

    What the handlers see of an HTTP exchange.  Parsing the connection, the
    URL and the JSON text is the work of [net/http] and [encoding/json]: a
    request arrives with the decoded segments of its path, and its body is the
    value of its first JSON document for the Go type it is decoded into. *)

From S2P Require Import Prelude GoString Protocol Auth Records CollabStore.
From Stdlib Require Import Ascii.

Local Open Scope Z_scope.

(** ** Requests *)

(** The bodies the handlers decode, one constructor per Go type. *)
Record rotateRequest := mkRotateRequest { rt_NewTokenHash : string; rt_IdempotencyKey : string }.
Record bootstrapRequest := mkBootstrapRequest {
  bq_OrganizationName : string; bq_AdminDisplayName : string; bq_AdminEmail : string;
  bq_AdminTokenHash : string; bq_IdempotencyKey : string }.
Record enrollRequest := mkEnrollRequest {
  eq_DisplayName : string; eq_DeviceName : string; eq_Runtime : string; eq_PermissionProfile : string;
  eq_DeviceTokenHash : string; eq_IdempotencyKey : string }.
Record inviteRequest := mkInviteRequest {
  iq_DisplayName : string; iq_Email : string; iq_MemberID : string; iq_ExpiresInSeconds : Z }.
(** [protocol.ExecutionClaimPayload] *)
Record ExecutionClaimPayload := mkExecutionClaimPayload { xc_ExecutionClaimID : string }.

Inductive input :=
  | InHeartbeat (v : AgentHeartbeat) | InCreate (v : CreateRequest) | InDecision (v : DecisionPayload)
  | InClaim (v : ExecutionClaimPayload) | InResult (v : ResultPayload) | InRotate (v : rotateRequest)
  | InBootstrap (v : bootstrapRequest) | InEnroll (v : enrollRequest) | InInvite (v : inviteRequest) | InEmpty.

(** The Go type a handler decodes into. *)
Class Input (A : Type) := { to_input : A → input; of_input : input → option A; of_to_input v : of_input (to_input v) = Some v }.
#[export] Instance Input_heartbeat : Input AgentHeartbeat.
Proof. refine {| to_input := InHeartbeat; of_input i := match i with InHeartbeat v => Some v | _ => None end |}. done. Defined.
#[export] Instance Input_create : Input CreateRequest.
Proof. refine {| to_input := InCreate; of_input i := match i with InCreate v => Some v | _ => None end |}. done. Defined.
#[export] Instance Input_decision : Input DecisionPayload.
Proof. refine {| to_input := InDecision; of_input i := match i with InDecision v => Some v | _ => None end |}. done. Defined.
#[export] Instance Input_claim : Input ExecutionClaimPayload.
Proof. refine {| to_input := InClaim; of_input i := match i with InClaim v => Some v | _ => None end |}. done. Defined.
#[export] Instance Input_result : Input ResultPayload.
Proof. refine {| to_input := InResult; of_input i := match i with InResult v => Some v | _ => None end |}. done. Defined.
#[export] Instance Input_rotate : Input rotateRequest.
Proof. refine {| to_input := InRotate; of_input i := match i with InRotate v => Some v | _ => None end |}. done. Defined.
#[export] Instance Input_bootstrap : Input bootstrapRequest.
Proof. refine {| to_input := InBootstrap; of_input i := match i with InBootstrap v => Some v | _ => None end |}. done. Defined.
#[export] Instance Input_enroll : Input enrollRequest.
Proof. refine {| to_input := InEnroll; of_input i := match i with InEnroll v => Some v | _ => None end |}. done. Defined.
#[export] Instance Input_invite : Input inviteRequest.
Proof. refine {| to_input := InInvite; of_input i := match i with InInvite v => Some v | _ => None end |}. done. Defined.

(** A body: unreadable as JSON, or [size] bytes whose first document is [v],
    followed by nothing but white space or not. *)
Inductive body := BodyBad | BodyJSON (size : Z) (v : input) (alone : bool).

Inductive http_method := GET | HEAD | POST | DELETE | MethodOther (name : string).
#[export] Instance http_method_eq_dec : EqDecision http_method.
Proof. solve_decision. Defined.

Record http_request := mkHttpRequest {
  hr_Method : http_method;
  hr_Path : list string;                  (** decoded segments *)
  hr_Authorization : list string;         (** [r.Header.Values(Authorization)] *)
  hr_ContentType : string;
  hr_Query : list (string * string);
  hr_Body : body }.

(** [url.Values.Get] and indexing *)
Definition query_values (key : string) (q : list (string * string)) : list string :=
  (List.filter (λ kv, bool_decide (kv.1 = key)) q).*2.
Definition query_get (key : string) (q : list (string * string)) : string := default "" (head (query_values key q)).

(** The part of [decodeJSON] after the content type. *)
Definition read_json (A : Type) `{Input A} (maximum : Z) (b : body) : option A :=
  match b with
  | BodyJSON size v alone => if (maximum <? size) || negb alone then None else of_input v
  | BodyBad => None
  end.

(** [strconv.Atoi] *)
Fixpoint atoi_digits (acc : Z) (s : string) : option Z :=
  match s with
  | EmptyString => Some acc
  | String c s' => let b := byte_val c in if in_range 48 57 b then atoi_digits (acc * 10 + (b - 48)) s' else None
  end.
Definition Atoi (s : string) : option Z :=
  let parse d := if bool_decide (d = "") then None else atoi_digits 0 d in
  let r := if has_prefix s "-" then Z.opp <$> parse (drop_bytes 1 s)
           else if has_prefix s "+" then parse (drop_bytes 1 s) else parse s in
  n ← r; if in_range (- 2 ^ 63) (2 ^ 63 - 1) n then Some n else None.

(** ** Responses *)

Inductive frame := FrameReady | FrameNotice (n : RequestNotice) | FrameCancelled (requestID conversationID : string) | FrameKeepalive.
#[export] Instance frame_eq_dec : EqDecision frame.
Proof. solve_decision. Defined.

Inductive reply :=
  | ReplyError (code : string)     (** [protocol.ErrorResponse], the collaboration routes *)
  | ReplyFailure (code : string)   (** an object under [error], the administrative routes *)
  | ReplyText (text : string)      (** the plain text of [net/http] *)
  | ReplyStatus (status : string) | ReplyInfo (initialized : bool)
  | ReplyRotated (r : RotateAdminCredentialResult) | ReplyBootstrapped (o : Organization) (admin : Member)
  | ReplyEnrolled (r : EnrollResult) | ReplyPrincipal (p : Principal) | ReplyInvite (i : Invite) (token : string)
  | ReplyInvites (l : list Invite) | ReplyMembers (l : list Member) | ReplyDevices (l : list Device) | ReplyEvents (l : list AuditEvent)
  | ReplyCard (c : AgentCard) | ReplyAgents (d : AgentDirectoryResponse) | ReplyMutation (m : MutationResponse)
  | ReplyRequest (r : Request) | ReplyInbox (l : list RequestNotice) (observed_at : time)
  | ReplyProposal (p : ProposalPayload) | ReplyExecution (p : ExecutionPayload) | ReplyArtifact (a : ArtifactContent)
  | ReplyEmpty
  | ReplyStream (frames : list frame).

Record response := mkResponse { rs_Status : Z; rs_Headers : gmap string string; rs_Reply : reply }.

(** [http.Header.Set] of the response *)
Definition set_header (k v : string) (r : response) : response := mkResponse (rs_Status r) (<[k := v]> (rs_Headers r)) (rs_Reply r).
Definition no_store (r : response) : response := set_header "Cache-Control" "no-store" r.

(** What the exchange ends with; [net/http] closes the connection on a panic. *)
Inductive outcome := Answered (r : response) | Panicked.

Definition writeJSON (status : Z) (value : reply) : response := mkResponse status {["Content-Type" := "application/json"]} value.
Definition writeError (status : Z) (code : string) : response := writeJSON status (ReplyError code).

(** ** [http.ServeMux] *)

Inductive segment := Lit (s : string) | Wild.
(** The values of the wildcards of a pattern that matches. *)
Fixpoint match_path (pattern : list segment) (path : list string) : option (list string) :=
  match pattern, path with
  | [], [] => Some []
  | Lit l :: pattern, s :: path => if bool_decide (l = s) then match_path pattern path else None
  | Wild :: pattern, s :: path => if bool_decide (s = "") then None else cons s <$> match_path pattern path
  | _, _ => None
  end.
(** A pattern for GET matches HEAD as well. *)
Definition match_method (pattern m : http_method) : bool :=
  bool_decide (pattern = m) || (bool_decide (pattern = GET) && bool_decide (m = HEAD)).

Record route (H : Type) := mkRoute { rt_Method : http_method; rt_Pattern : list segment; rt_Handler : list string → H }.
Arguments mkRoute {_}. Arguments rt_Method {_}. Arguments rt_Pattern {_}. Arguments rt_Handler {_}.

Inductive routed (H : Type) := Routed (h : H) | MethodNotAllowed | NoRoute.
Arguments Routed {_}. Arguments MethodNotAllowed {_}. Arguments NoRoute {_}.
(** The patterns of the relay never match the same request twice (see
    [Relay]), so the order of registration does not matter. *)
Fixpoint dispatch {H} (routes : list (route H)) (m : http_method) (path : list string) : routed H :=
  match routes with
  | [] => NoRoute
  | r :: routes =>
    match match_path (rt_Pattern r) path with
    | None => dispatch routes m path
    | Some values =>
      if match_method (rt_Method r) m then Routed (rt_Handler r values) else
      match dispatch routes m path with NoRoute => MethodNotAllowed | x => x end
    end
  end.

Example atoi_samples : Atoi <$> ["50"; "+7"; "-3"; ""; "5x"; "007"; "9223372036854775808"] = [Some 50; Some 7; Some (-3); None; None; Some 7; None].
Proof. vm_compute. reflexivity. Qed.

(** ** What a relay process works on

    The Redis world of the stores, the notification hub, and the other
    goroutines.  Before each call a handler makes to the hub, the others have
    done any sequence of hub actions; before each Redis command, the world
    takes a step of its own (see [Redis]). *)

From S2P Require Import Redis Hub.

(** The payload of a hub event: [peer_request] or [peer_cancelled]. *)
Abbreviation hub_event := (event (payload := frame)).
Abbreviation hub_state := (Hub (payload := frame)).
Abbreviation hub_action := (action (payload := frame)).

Record relay (DB : Type) := mkRelay {
  rl_world : world DB;
  rl_hub : hub_state;
  rl_others : list (list hub_action) }.   (** exhausted: the others are idle *)
Arguments mkRelay {_}. Arguments rl_world {_}. Arguments rl_hub {_}. Arguments rl_others {_}.

Section handlers.
Context {DB : Type}.

(** A handler that has answered returns early, whatever remains of its body. *)
Abbreviation HM := (M (relay DB) outcome).

Definition set_world (w : world DB) (s : relay DB) : relay DB := mkRelay w (rl_hub s) (rl_others s).
Definition set_hub (h : hub_state) (s : relay DB) : relay DB := mkRelay (rl_world s) h (rl_others s).

Definition respond {A} (r : response) : HM A := throw (Answered r).
Definition respond_if (b : bool) (r : response) : HM () := if b then respond r else mret ().

(** A call of a store, with the answer its errors are given. *)
Definition store_call {E A} (answer : rerror E → response) (m : M (world DB) (rerror E) A) : HM A := λ s,
  let (w, r) := m (rl_world s) in
  (set_world w s, match r with inl e => inl (Answered (answer e)) | inr a => inr a end).

(** The others act; a panic of theirs is not ours. *)
Definition others_step (s : relay DB) : relay DB :=
  match rl_others s with
  | [] => s
  | l :: rest => mkRelay (rl_world s) (default (rl_hub s) (acts l (rl_hub s))) rest
  end.
(** A call of the hub, atomic under its lock. *)
Definition hub_call {A} (f : hub_state → option (A * hub_state)) : HM A := λ s,
  let s := others_step s in
  match f (rl_hub s) with
  | None => (s, inl Panicked)
  | Some (a, h) => (set_hub h s, inr a)
  end.

(** [hub.Publish]: the sends, then one drop for each channel that was full. *)
Definition publish (organizationID agentID : string) (e : hub_event) : HM () :=
  over ← hub_call (Publish_send organizationID agentID e);
  mapM_ (λ c, hub_call (λ h, (λ h', ((), h')) <$> dropSubscriber (hub_key organizationID agentID) c h)) over.

(** The end of a handler that wrote [r]. *)
Definition finish (m : HM response) (s : relay DB) : relay DB * outcome :=
  let (s', r) := m s in (s', match r with inl o => o | inr r => Answered r end).
End handlers.
