(* ===== verification/AdminHttp.v ===== *)
(** * The administrative routes ([internal/server/server.go])

    Bearer credentials, administrators only, one call of the administration
    store, and the eviction of what was revoked.  The texts of error messages
    are left out; their codes and statuses are kept. *)

From S2P Require Import Prelude GoString Sha256 Protocol Auth Records Json Redis CollabStore Redact Hub Http.
From S2P Require AdminStore.
From Stdlib Require Import Ascii.

Local Open Scope Z_scope.

Definition maximumJSONBody : Z := 65536.   (** [64 << 10] *)

Section admin_http.
Context {DB : Type} `{RS : RedisServer DB} `{UT : UnicodeTables}.
Abbreviation HM := (M (relay DB) outcome).
Abbreviation serr := AdminStore.serr.

(** [Config] and [Handler]; the evicter is a method of another component. *)
Record Config := mkAdminConfig {
  ac_BootstrapToken : string;
  ac_RevocationEvicter : option (string → list string → HM bool) }.   (** [false]: an error *)
Variable config : Config.
(** [bootstrapConfigured] and [bootstrapTokenHash] of [NewHandler] *)
Definition bootstrapToken : string := trim_space (ac_BootstrapToken config).
Definition bootstrapConfigured : bool := negb (bool_decide (bootstrapToken = "")).

(** ** Errors *)

Definition writeError (status : Z) (code : string) : response := writeJSON status (ReplyFailure code).

Definition writeStoreError (e : serr) : response :=
  match e with
  | AdminStore.ErrUnauthorized => set_header "WWW-Authenticate" ("Bearer realm=" +:+ dquote +:+ "team-relay" +:+ dquote) (writeError 401 "unauthorized")
  | AdminStore.ErrForbidden => writeError 403 "forbidden"
  | AdminStore.ErrNotFound => writeError 404 "not_found"
  | AdminStore.ErrInviteExpired => writeError 410 "invite_expired"
  | AdminStore.ErrInviteUsed => writeError 409 "invite_used"
  | AdminStore.ErrInviteRevoked => writeError 409 "invite_revoked"
  | AdminStore.ErrAlreadyBootstrapped => writeError 409 "already_bootstrapped"
  | AdminStore.ErrConflict => writeError 409 "conflict"
  | AdminStore.ErrInvalid => writeError 400 "invalid_request"
  end.
Definition internalError : response := writeError 500 "internal_error".
(** Every sentinel of the store is known. *)
Definition handleStoreError (e : rerror serr) : response :=
  match e with Sentinel e => writeStoreError e | _ => internalError end.
Definition admin_call {A} (m : M (world DB) (rerror serr) A) : HM A := store_call handleStoreError m.

(** ** Credentials *)

Definition bearerToken (r : http_request) : option string :=
  match hr_Authorization r with
  | [value] =>
    match fields value with
    | [scheme; token] => if equal_fold scheme "Bearer" && (len token <=? 256) then Some token else None
    | _ => None
    end
  | _ => None
  end.

Definition AuthenticateRequest (r : http_request) : M (world DB) (rerror serr) Principal :=
  match bearerToken r with
  | None => reject! AdminStore.ErrUnauthorized
  | Some token => AdminStore.Authenticate token
  end.

Definition requireAdmin (r : http_request) : HM Principal :=
  principal ← admin_call (AuthenticateRequest r);
  respond_if (negb (IsAdmin principal)) (writeStoreError AdminStore.ErrForbidden) ≫= λ _,
  mret principal.

Definition validBootstrapToken (rawToken : string) : bool :=
  match Kind rawToken with
  | Some TokenBootstrap => bool_decide (sha256_hex (trim_space rawToken) = sha256_hex bootstrapToken)
  | _ => false
  end.

Definition validIdempotencyKey (value prefix : string) : bool :=
  let value := trim_space value in
  has_prefix value prefix && (len value =? len prefix + 64) &&
  bool_decide (is_Some (hex_decode (drop_bytes (String.length prefix) value))).
Definition validEnrollmentIdempotencyKey (value : string) : bool := validIdempotencyKey value "tr_enroll_".

Definition decodeJSON (A : Type) `{Input A} (r : http_request) : option A :=
  if negb (bool_decide (hr_ContentType r = "")) &&
     negb (bool_decide (parse_media_type (hr_ContentType r) = Some "application/json")) then None
  else read_json A maximumJSONBody (hr_Body r).
Definition decoded (A : Type) `{Input A} (r : http_request) : HM A :=
  match decodeJSON A r with None => respond (writeError 400 "invalid_request") | Some v => mret v end.

(** ** Handlers *)

Definition live : HM response := mret (writeJSON 200 (ReplyStatus "ok")).
(** [Ping] is one command that reads nothing. *)
Definition ready : HM response :=
  store_call (λ _ : rerror serr, writeError 503 "not_ready") (redis_read (λ _, ())) ≫= λ _,
  mret (writeJSON 200 (ReplyStatus "ready")).
Definition serverInfo : HM response :=
  initialized ← store_call (λ _ : rerror serr, internalError) AdminStore.IsBootstrapped;
  mret (writeJSON 200 (ReplyInfo initialized)).

Definition clock_now : HM time := store_call (λ _ : rerror serr, internalError) now.

Definition bootstrap (r : http_request) : HM response :=
  respond_if (negb bootstrapConfigured) (writeError 503 "bootstrap_not_configured") ≫= λ _,
  respond_if (negb (match bearerToken r with Some t => validBootstrapToken t | None => false end))
    (writeStoreError AdminStore.ErrUnauthorized) ≫= λ _,
  request ← decoded bootstrapRequest r;
  respond_if (negb (validIdempotencyKey (bq_IdempotencyKey request) "tr_bootstrap_"))
    (writeStoreError AdminStore.ErrInvalid) ≫= λ _,
  t ← clock_now;
  result ← admin_call (AdminStore.Bootstrap (mkBootstrapInput (bq_OrganizationName request) (bq_AdminDisplayName request)
    (bq_AdminEmail request) (bq_AdminTokenHash request) (Hash (bq_IdempotencyKey request)) t));
  mret (no_store (writeJSON 201 (ReplyBootstrapped (br_Organization result) (br_Admin result)))).

Definition enroll (r : http_request) : HM response :=
  match bearerToken r with
  | None => respond (writeStoreError AdminStore.ErrUnauthorized)
  | Some inviteToken =>
    request ← decoded enrollRequest r;
    respond_if (negb (validEnrollmentIdempotencyKey (eq_IdempotencyKey request))) (writeStoreError AdminStore.ErrInvalid) ≫= λ _,
    t ← clock_now;
    result ← admin_call (AdminStore.Enroll inviteToken (mkEnrollInput (eq_DisplayName request) (eq_DeviceName request)
      (eq_Runtime request) (eq_PermissionProfile request) (eq_DeviceTokenHash request) (Hash (eq_IdempotencyKey request)) t));
    mret (no_store (writeJSON 201 (ReplyEnrolled result)))
  end.

Definition me (r : http_request) : HM response :=
  principal ← admin_call (AuthenticateRequest r);
  mret (writeJSON 200 (ReplyPrincipal principal)).

Definition rotateAdminCredential (r : http_request) : HM response :=
  principal ← requireAdmin r;
  request ← decoded rotateRequest r;
  respond_if (negb (validIdempotencyKey (rt_IdempotencyKey request) "tr_rotate_")) (writeStoreError AdminStore.ErrInvalid) ≫= λ _,
  t ← clock_now;
  result ← admin_call (AdminStore.RotateAdminCredential principal
    (mkRotateInput (rt_NewTokenHash request) (Hash (rt_IdempotencyKey request)) t));
  mret (no_store (writeJSON 201 (ReplyRotated result))).

(** [auth.NewToken], whose random bytes are the next draw *)
Definition new_invite_token : HM string :=
  random ← store_call (λ _ : rerror serr, internalError) (λ w,
    (mkWorld (w_db w) (w_env w) (w_watch w) (w_clock w) (w_ticks w) (w_rand w) (S (w_draws w)), inr (w_rand w (w_draws w))));
  match NewToken random TokenInvite with Some token => mret token | None => respond internalError end.

Definition createInvite (r : http_request) : HM response :=
  principal ← requireAdmin r;
  request ← decoded inviteRequest r;
  let expires := if iq_ExpiresInSeconds request =? 0 then 24 * 3600 else iq_ExpiresInSeconds request in
  respond_if ((expires <? 60) || (30 * 24 * 3600 <? expires)) (writeError 400 "invalid_request") ≫= λ _,
  inviteToken ← new_invite_token;
  t ← clock_now;
  invite ← admin_call (AdminStore.CreateInvite principal (mkCreateInviteInput (iq_DisplayName request) (iq_Email request)
    (iq_MemberID request) (t + expires * second) (Hash inviteToken) t));
  mret (no_store (writeJSON 201 (ReplyInvite invite inviteToken))).

Definition listInvites (r : http_request) : HM response :=
  principal ← requireAdmin r;
  invites ← admin_call (AdminStore.ListInvites principal);
  mret (writeJSON 200 (ReplyInvites invites)).

Definition no_content : response := mkResponse 204 ∅ ReplyEmpty.
Definition revokeInvite (inviteID : string) (r : http_request) : HM response :=
  principal ← requireAdmin r;
  admin_call (AdminStore.RevokeInvite principal inviteID) ≫= λ _,
  mret no_content.

Definition listMembers (r : http_request) : HM response :=
  principal ← requireAdmin r;
  members ← admin_call (AdminStore.ListMembers principal);
  mret (writeJSON 200 (ReplyMembers members)).

(** Cancelling the request does not cancel the eviction; its own time limit
    is one more way in which it may fail. *)
Definition evictRevokedAgents (result : RevocationResult) : HM () :=
  match ac_RevocationEvicter config with
  | Some evict =>
    if bool_decide (rv_AgentIDs result = []) then mret () else
    done ← evict (rv_OrganizationID result) (rv_AgentIDs result);
    respond_if (negb done) internalError
  | None => mret ()
  end.

Definition revokeMember (memberID : string) (r : http_request) : HM response :=
  principal ← requireAdmin r;
  result ← admin_call (AdminStore.RevokeMember principal memberID);
  evictRevokedAgents result ≫= λ _,
  mret no_content.

Definition listDevices (r : http_request) : HM response :=
  principal ← requireAdmin r;
  devices ← admin_call (AdminStore.ListDevices principal (query_get "member_id" (hr_Query r)));
  mret (writeJSON 200 (ReplyDevices devices)).

Definition revokeDevice (deviceID : string) (r : http_request) : HM response :=
  principal ← requireAdmin r;
  result ← admin_call (AdminStore.RevokeDevice principal deviceID);
  evictRevokedAgents result ≫= λ _,
  mret no_content.

Definition listAudit (r : http_request) : HM response :=
  principal ← requireAdmin r;
  limit ← (let raw := query_get "limit" (hr_Query r) in
    if bool_decide (raw = "") then mret 100 else
    match Atoi raw with
    | Some n => if in_range 1 500 n then mret n else respond (writeError 400 "invalid_request")
    | None => respond (writeError 400 "invalid_request")
    end);
  events ← admin_call (AdminStore.ListAuditEvents principal limit);
  mret (writeJSON 200 (ReplyEvents events)).

(** ** Routes *)

Definition path_param (values : list string) : string := default "" (head values).
Definition RegisterRoutes : list (route (http_request → HM response)) :=
  [mkRoute GET [Lit "health"; Lit "live"] (λ _ _, live);
   mkRoute GET [Lit "health"; Lit "ready"] (λ _ _, ready);
   mkRoute GET [Lit "v1"; Lit "server-info"] (λ _ _, serverInfo);
   mkRoute POST [Lit "v1"; Lit "bootstrap"] (λ _, bootstrap);
   mkRoute POST [Lit "v1"; Lit "enroll"] (λ _, enroll);
   mkRoute GET [Lit "v1"; Lit "me"] (λ _, me);
   mkRoute POST [Lit "v1"; Lit "admin"; Lit "credential"; Lit "rotate"] (λ _, rotateAdminCredential);
   mkRoute POST [Lit "v1"; Lit "admin"; Lit "invites"] (λ _, createInvite);
   mkRoute GET [Lit "v1"; Lit "admin"; Lit "invites"] (λ _, listInvites);
   mkRoute DELETE [Lit "v1"; Lit "admin"; Lit "invites"; Wild] (λ v, revokeInvite (path_param v));
   mkRoute GET [Lit "v1"; Lit "admin"; Lit "members"] (λ _, listMembers);
   mkRoute DELETE [Lit "v1"; Lit "admin"; Lit "members"; Wild] (λ v, revokeMember (path_param v));
   mkRoute GET [Lit "v1"; Lit "admin"; Lit "devices"] (λ _, listDevices);
   mkRoute DELETE [Lit "v1"; Lit "admin"; Lit "devices"; Wild] (λ v, revokeDevice (path_param v));
   mkRoute GET [Lit "v1"; Lit "admin"; Lit "audit"] (λ _, listAudit)].
End admin_http.
Arguments mkAdminConfig {_}. Arguments ac_BootstrapToken {_}. Arguments ac_RevocationEvicter {_}.
