(* ===== verification/CollabHttp.v ===== *)
(** * The collaboration routes ([internal/collaboration/handler.go])

    Device credentials only, one call of the collaboration store, and the
    notifications that follow from it.  A stream of events is a sequence of
    iterations of the loop of [events]; which of its channels is ready, and
    whether a write still reaches the client, is decided outside. *)

From S2P Require Import Prelude GoString Protocol Auth Records Redis CollabStore Hub Http.
From S2P Require AdminStore.
From Stdlib Require Import Ascii.

Local Open Scope Z_scope.

Definition maximumJSONBody : Z := 4194304.   (** [4 << 20] *)

(** An iteration of the loop: the context is done, the channel is ready, or
    the ticker fired.  [true]: the write that follows succeeds. *)
Inductive select := SelectDone | SelectEvent (written : bool) | SelectKeepalive (written : bool).
(** A stream: whether the first writes succeed (the ready frame, then one for
    each pending request), and the iterations of its loop. *)
Record stream := mkStream { st_Ready : bool; st_Pending : list bool; st_Loop : list select }.

Section collab_http.
Context {DB : Type} `{RS : RedisServer DB} `{UT : UnicodeTables}.
Abbreviation HM := (M (relay DB) outcome).

(** [Authenticator]; a handler without one answers nothing. *)
Variable authenticate : option (http_request → M (world DB) (rerror AdminStore.serr) Principal).

Definition writeStoreError (e : rerror cerr) : response :=
  match e with
  | Sentinel ErrUnauthorized => writeError 401 "unauthorized"
  | Sentinel ErrForbidden => writeError 403 "forbidden"
  | Sentinel ErrNotFound => writeError 404 "not_found"
  | Sentinel ErrInvalid => writeError 400 "invalid_request"
  | Sentinel ErrConflict => writeError 409 "conflict"
  | _ => writeError 500 "server_error"
  end.
Definition collab_call {A} (m : M (world DB) (rerror cerr) A) : HM A := store_call writeStoreError m.

Definition principal (r : http_request) : HM Principal :=
  match authenticate with
  | None => respond (writeError 500 "server_error")
  | Some authenticate =>
    p ← store_call (λ _, writeError 401 "unauthorized") (authenticate r);
    respond_if (negb (bool_decide (p_TokenKind p = TokenDevice))) (writeError 403 "forbidden") ≫= λ _,
    mret p
  end.

Definition decodeJSON (A : Type) `{Input A} (r : http_request) : HM A :=
  respond_if (negb (bool_decide (hr_ContentType r = "")) && negb (has_prefix (to_lower (hr_ContentType r)) "application/json"))
    (writeError 415 "unsupported_media_type") ≫= λ _,
  match read_json A maximumJSONBody (hr_Body r) with
  | Some v => mret v
  | None => respond (writeError 400 "invalid_request")
  end.

(** ** Handlers *)

Definition inspectProposal (requestID : string) (r : http_request) : HM response :=
  p ← principal r;
  result ← collab_call (InspectProposal p requestID);
  mret (no_store (writeJSON 200 (ReplyProposal result))).

Definition heartbeat (r : http_request) : HM response :=
  p ← principal r;
  hb ← decodeJSON AgentHeartbeat r;
  card ← collab_call (Heartbeat p hb);
  mret (writeJSON 200 (ReplyCard card)).

Definition listAgents (r : http_request) : HM response :=
  p ← principal r;
  limit ← (let raw := trim_space (query_get "limit" (hr_Query r)) in
    if bool_decide (raw = "") then mret 50 else
    match Atoi raw with
    | Some n => if in_range 1 50 n then mret n else respond (writeError 400 "invalid_request")
    | None => respond (writeError 400 "invalid_request")
    end);
  let q := hr_Query r in
  result ← collab_call (ListAgents p (mkAgentQuery (query_get "need" q) (query_values "capability" q)
    (query_values "workspace_alias" q) (bool_decide (query_get "online_only" q = "true"))
    (bool_decide (query_get "accepting_only" q = "true")) limit));
  mret (writeJSON 200 (ReplyAgents result)).

(** Whom the notification of a created request is for. *)
Definition created_target (p : Principal) (input : CreateRequest) (result : MutationResponse) : HM string :=
  let target := trim_space (cr_TargetAgentID input) in
  if negb (bool_decide (target = "")) then mret target else
  stored ← collab_call (GetRequest p (mr_RequestID result));
  mret (rq_TargetAgentID stored).
Definition createRequest (r : http_request) : HM response :=
  p ← principal r;
  input ← decodeJSON CreateRequest r;
  '(result, requestNotice, created) ← collab_call (CreateRequest_ p input);
  (if (created : bool) then
     target ← created_target p input result;
     publish (p_OrganizationID p) target (mkEvent "peer_request" (FrameNotice requestNotice))
   else mret ()) ≫= λ _,
  mret (writeJSON 201 (ReplyMutation result)).

Definition getRequest (requestID : string) (r : http_request) : HM response :=
  p ← principal r;
  result ← collab_call (GetRequest p requestID);
  mret (writeJSON 200 (ReplyRequest result)).

Definition inbox (r : http_request) : HM response :=
  p ← principal r;
  result ← collab_call (Inbox p);
  t ← store_call (λ _ : rerror cerr, writeError 500 "server_error") now;
  mret (writeJSON 200 (ReplyInbox result t)).

Definition decide (requestID : string) (r : http_request) : HM response :=
  p ← principal r;
  input ← decodeJSON DecisionPayload r;
  result ← collab_call (Decide p requestID input);
  mret (writeJSON 200 (ReplyMutation result)).

Definition fetchExecution (requestID : string) (r : http_request) : HM response :=
  p ← principal r;
  result ← collab_call (FetchExecution p requestID);
  mret (no_store (writeJSON 200 (ReplyExecution result))).

Definition markRunning (requestID : string) (r : http_request) : HM response :=
  p ← principal r;
  input ← decodeJSON ExecutionClaimPayload r;
  result ← collab_call (MarkRunning p requestID (xc_ExecutionClaimID input));
  mret (writeJSON 200 (ReplyMutation result)).

Definition submitResult (requestID : string) (r : http_request) : HM response :=
  p ← principal r;
  input ← decodeJSON ResultPayload r;
  result ← collab_call (SubmitResult p requestID input);
  mret (writeJSON 200 (ReplyMutation result)).

Definition cancel (requestID : string) (r : http_request) : HM response :=
  p ← principal r;
  request ← collab_call (GetRequest p requestID);
  '(result, changed) ← collab_call (Cancel p requestID);
  (if (changed : bool) then
     publish (p_OrganizationID p) (rq_TargetAgentID request)
       (mkEvent "peer_cancelled" (FrameCancelled requestID (rq_ConversationID request)))
   else mret ()) ≫= λ _,
  mret (writeJSON 200 (ReplyMutation result)).

Definition fetchArtifact (artifactID : string) (r : http_request) : HM response :=
  p ← principal r;
  result ← collab_call (FetchArtifact p artifactID);
  mret (no_store (writeJSON 200 (ReplyArtifact result))).

(** ** The event stream *)

(** The next value of the channel: [None] when it is empty, [Some None] when
    it is closed and drained. *)
Definition channel_next (c : nat) (h : hub_state) : option (option hub_event) :=
  match channels h !! c with
  | Some (mkChannel (e :: _) _) => Some (Some e)
  | Some (mkChannel [] true) => Some None
  | _ => None
  end.
Definition take_event (c : nat) : HM (option (option hub_event)) := hub_call (λ h, Some (channel_next c h, receive c h)).

(** The loop of [events]: the frames it writes. *)
Fixpoint events_loop (c : nat) (choices : list select) : HM (list frame) :=
  match choices with
  | [] | SelectDone :: _ => mret []
  | SelectKeepalive written :: choices =>
    if written then rest ← events_loop c choices; mret (FrameKeepalive :: rest) else mret []
  | SelectEvent written :: choices =>
    next ← take_event c;
    match next with
    | None => events_loop c choices          (** the channel was not ready after all *)
    | Some None => mret []
    | Some (Some e) =>
      if written then rest ← events_loop c choices; mret (ev_Payload e :: rest) else mret []
    end
  end.
(** The replay of the inbox: whether all was written. *)
Fixpoint write_pending (oks : list bool) (l : list RequestNotice) : bool * list frame :=
  match l with
  | [] => (true, [])
  | n :: l =>
    if default true (head oks) then let (ok, fs) := write_pending (tail oks) l in (ok, FrameNotice n :: fs) else (false, [])
  end.

Definition stream_headers : gmap string string :=
  {["Content-Type" := "text/event-stream"; "Cache-Control" := "no-cache, no-transform";
    "Connection" := "keep-alive"; "X-Accel-Buffering" := "no"]}.
Definition events_body (s : stream) (p : Principal) (c : nat) : HM (list frame) :=
  revoked ← hub_call (λ h, Some (IsRevoked (p_OrganizationID p) (p_AgentID p) h, h));
  if (revoked : bool) then mret [] else
  if negb (st_Ready s) then mret [] else
  pending ← attempt (collab_call (Inbox p));
  match pending with
  | inl _ => mret [FrameReady]               (** logged, and the stream ends *)
  | inr pending =>
    let (ok, frames) := write_pending (st_Pending s) pending in
    if ok then rest ← events_loop c (st_Loop s); mret (FrameReady :: frames ++ rest) else mret (FrameReady :: frames)
  end.
(** [events], of a writer that can flush; the cancellation of the
    subscription is deferred. *)
Definition events (s : stream) (r : http_request) : HM response :=
  p ← principal r;
  let key := hub_key (p_OrganizationID p) (p_AgentID p) in
  c ← hub_call (λ h, Some (Subscribe (p_OrganizationID p) (p_AgentID p) h));
  frames ← events_body s p c;
  hub_call (λ h, (λ h', ((), h')) <$> dropSubscriber key c h) ≫= λ _,
  mret (mkResponse 200 stream_headers (ReplyStream frames)).

(** ** Routes *)

Definition path_param (values : list string) : string := default "" (head values).
Definition RegisterRoutes (s : stream) : list (route (http_request → HM response)) :=
  let peer l := [Lit "v1"; Lit "peer-requests"; Wild] ++ l in
  [mkRoute POST [Lit "v1"; Lit "agents"; Lit "heartbeat"] (λ _, heartbeat);
   mkRoute GET [Lit "v1"; Lit "agents"] (λ _, listAgents);
   mkRoute GET [Lit "v1"; Lit "events"] (λ _, events s);
   mkRoute GET [Lit "v1"; Lit "inbox"] (λ _, inbox);
   mkRoute POST [Lit "v1"; Lit "peer-requests"] (λ _, createRequest);
   mkRoute GET (peer []) (λ v, getRequest (path_param v));
   mkRoute GET (peer [Lit "proposal"]) (λ v, inspectProposal (path_param v));
   mkRoute POST (peer [Lit "decision"]) (λ v, decide (path_param v));
   mkRoute GET (peer [Lit "execution"]) (λ v, fetchExecution (path_param v));
   mkRoute POST (peer [Lit "running"]) (λ v, markRunning (path_param v));
   mkRoute POST (peer [Lit "result"]) (λ v, submitResult (path_param v));
   mkRoute POST (peer [Lit "cancel"]) (λ v, cancel (path_param v));
   mkRoute GET [Lit "v1"; Lit "artifacts"; Wild] (λ v, fetchArtifact (path_param v))].
End collab_http.
