(* ===== verification/Relay.v ===== *)
(** * The relay process ([cmd/team-relay-server/main.go])

    The administrative and the collaboration routes on one multiplexer, the
    evicter that joins the two, and the security headers around both.  The
    start of the process, its signals and its listener are outside. *)

From S2P Require Import Prelude GoString Protocol Auth Records Redis CollabStore Hub Eviction Http.
From S2P Require AdminStore AdminHttp CollabHttp.
From Stdlib Require Import Ascii.

Local Open Scope Z_scope.

(** [WithSecurityHeaders]: what the handler sets itself wins. *)
Definition WithSecurityHeaders (r : response) : response :=
  mkResponse (rs_Status r)
    (rs_Headers r ∪ {["X-Content-Type-Options" := "nosniff"; "Referrer-Policy" := "no-referrer"; "Cache-Control" := "no-store"]})
    (rs_Reply r).

Section relay.
Context {DB : Type} `{RS : RedisServer DB} `{UT : UnicodeTables}.
Abbreviation HM := (M (relay DB) outcome).

(** [NewRevocationEvicter(collaborationStore, hub)] *)
Definition evicter (organizationID : string) (agentIDs : list string) : HM bool := λ s,
  let s := others_step s in
  match EvictRevokedAgents organizationID agentIDs (rl_hub s, rl_world s) with
  | None => (s, inl Panicked)
  | Some ((h, w), r) => (mkRelay w h (rl_others s), inr (is_ok r))
  end.

Variable bootstrapToken : string.
Definition admin_config : AdminHttp.Config := AdminHttp.mkAdminConfig bootstrapToken (Some evicter).

(** The routes of [run], in the order of registration. *)
Definition relay_routes (st : CollabHttp.stream) : list (route (http_request → HM response)) :=
  AdminHttp.RegisterRoutes admin_config ++ CollabHttp.RegisterRoutes (Some AdminHttp.AuthenticateRequest) st.

Definition plain_error (status : Z) : response := mkResponse status {["Content-Type" := "text/plain; charset=utf-8"]} (ReplyText "").
(** One exchange; [st] says how a stream of events goes on. *)
Definition serve (st : CollabHttp.stream) (r : http_request) (s : relay DB) : relay DB * outcome :=
  let (s', o) :=
    match dispatch (relay_routes st) (hr_Method r) (hr_Path r) with
    | Routed h => finish (h r) s
    | MethodNotAllowed => (s, Answered (plain_error 405))
    | NoRoute => (s, Answered (plain_error 404))
    end in
  (s', match o with Answered resp => Answered (WithSecurityHeaders resp) | Panicked => Panicked end).
End relay.

(** ** Routing is unambiguous *)

(** Could two patterns match the same path? *)
Fixpoint overlap (p q : list segment) : bool :=
  match p, q with
  | [], [] => true
  | Lit a :: p, Lit b :: q => bool_decide (a = b) && overlap p q
  | _ :: p, _ :: q => overlap p q
  | _, _ => false
  end.
Lemma match_overlap p q path a b : match_path p path = Some a → match_path q path = Some b → overlap p q = true.
Proof.
  revert q path a b. induction p as [|[l|] p IH]; intros [|[l'|] q] [|s path] a b; simpl; try done.
  - repeat case_bool_decide; try done; [by apply IH|subst; done].
  - repeat case_bool_decide; try done. intros Ha (b' & Hb & _)%fmap_Some. by eapply IH.
  - repeat case_bool_decide; try done. intros (a' & Ha & _)%fmap_Some Hb. by eapply IH.
  - repeat case_bool_decide; try done. intros (a' & Ha & _)%fmap_Some (b' & Hb & _)%fmap_Some. by eapply IH.
Qed.

Fixpoint unambiguous (l : list (http_method * list segment)) : bool :=
  match l with
  | [] => true
  | (m, p) :: l => forallb (λ r, negb (bool_decide (m = r.1)) || negb (overlap p r.2)) l && unambiguous l
  end.
Lemma match_same_method m n x : m ≠ HEAD → n ≠ HEAD → match_method m x = true → match_method n x = true → m = n.
Proof. unfold match_method. intros. orb_split. repeat case_bool_decide; naive_solver congruence. Qed.

Section routes.
Context {H : Type}.
Definition heads (l : list (route H)) : list (http_method * list segment) := (λ r, (rt_Method r, rt_Pattern r)) <$> l.
Definition matches (m : http_method) (path : list string) (r : route H) (values : list string) : Prop :=
  match_path (rt_Pattern r) path = Some values ∧ match_method (rt_Method r) m = true.

(** A request is handled by the one route that matches it, wherever that
    stands in the list. *)
Lemma dispatch_matches l m path r values :
  unambiguous (heads l) = true → Forall (λ r, rt_Method r ≠ HEAD) l →
  r ∈ l → matches m path r values → dispatch l m path = Routed (rt_Handler r values).
Proof.
  induction l as [|q l IH]; [by intros _ _ Hr%elem_of_nil|]. cbn [heads fmap list_fmap unambiguous dispatch].
  intros [Hq Hl]%andb_true_iff [Hqm Hlm]%Forall_cons Hin [Hp Hm].
  apply elem_of_cons in Hin as [->|Hin]; [by rewrite Hp, Hm|].
  rewrite (IH Hl Hlm Hin) by done. destruct (match_path (rt_Pattern q) path) as [vs|] eqn:Hqp; [|done].
  destruct (match_method (rt_Method q) m) eqn:Hqm'; [|done]. exfalso.
  rewrite forallb_forall in Hq. specialize (Hq (rt_Method r, rt_Pattern r)). simpl in Hq.
  rewrite bool_decide_true, (match_overlap _ _ path vs values) in Hq; [|done|done|].
  - assert (false || false = true) as Hf; [apply Hq|done]. apply list_elem_of_In, list_elem_of_fmap. by exists r.
  - rewrite Forall_forall in Hlm. by eapply (match_same_method _ _ m); [..|done|done]; [|apply Hlm].
Qed.
(** What is handled is one of the routes. *)
Lemma dispatch_inv l m path h : dispatch l m path = Routed h → ∃ r values, r ∈ l ∧ matches m path r values ∧ h = rt_Handler r values.
Proof.
  induction l as [|q l IH]; [done|]. cbn [dispatch]. destruct (match_path (rt_Pattern q) path) as [vs|] eqn:Hq.
  - destruct (match_method (rt_Method q) m) eqn:Hm.
    + intros [= <-]. exists q, vs. split_and!; [by left|done|done].
    + intros Hd. destruct IH as (r & values & ? & ? & ?); [by destruct (dispatch l m path)|]. exists r, values. split_and!; [by right|done|done].
  - intros (r & values & ? & ? & ?)%IH. exists r, values. split_and!; [by right|done|done].
Qed.
End routes.

(** The routes of the relay. *)
Section relay_routing.
Context {DB : Type} `{RS : RedisServer DB} `{UT : UnicodeTables}.
Variable bootstrapToken : string.
Lemma serve_route st r s rt values :
  rt ∈ relay_routes bootstrapToken st → matches (hr_Method r) (hr_Path r) rt values →
  serve bootstrapToken st r s =
  let (s', o) := finish (rt_Handler rt values r) s in
  (s', match o with Answered resp => Answered (WithSecurityHeaders resp) | Panicked => Panicked end).
Proof.
  intros Hin Hm. unfold serve. rewrite (dispatch_matches (relay_routes bootstrapToken st) _ _ rt values); [done|reflexivity| |done|done].
  unfold relay_routes, AdminHttp.RegisterRoutes, CollabHttp.RegisterRoutes. cbn [app]. repeat apply Forall_cons_2; done.
Qed.
End relay_routing.
