(* ===== verification/RelayAccess.v ===== *)
(** * Who may do what over HTTP

    Whatever a request asks for, the relay first decides who is asking.  A
    request that does not carry the credential its path needs is refused
    before anything is written: Redis moves only as the others move it, and
    the hub not at all. *)

From S2P Require Import Prelude GoString Protocol Auth Records Redis RedisLogic CollabStore CollabMachine CollabDirectory Hub Eviction Http Relay.
From S2P Require AdminStore AdminProofs AdminHttp CollabHttp.
From Stdlib Require Import Ascii.

Local Open Scope Z_scope.

(** The credential a path needs. *)
Inductive need := NeedNothing | NeedBootstrapToken | NeedInvite | NeedCredential | NeedAdmin | NeedDevice.
Definition required (path : list string) : need :=
  match path with
  | [a; b] =>
    if (a =? "health")%string then (if (b =? "live")%string || (b =? "ready")%string then NeedNothing else NeedDevice) else
    if (a =? "v1")%string then
      (if (b =? "admin")%string then NeedAdmin else if (b =? "server-info")%string then NeedNothing else
       if (b =? "bootstrap")%string then NeedBootstrapToken else if (b =? "enroll")%string then NeedInvite else
       if (b =? "me")%string then NeedCredential else NeedDevice)
    else NeedDevice
  | a :: b :: _ => if (a =? "v1")%string && (b =? "admin")%string then NeedAdmin else NeedDevice
  | _ => NeedDevice
  end.

(** Membership in a list of literals. *)
Ltac in_list := cbn; apply (bool_decide_unpack _); by vm_compute.

Section access.
Context {DB : Type} `{RL : RedisLaws DB} `{UT : UnicodeTables}.
Context (R : relation DB) `{!PreOrder R}.
Abbreviation HM := (M (relay DB) outcome).

(** Nothing is done: the hub stays, and Redis moves as [R] allows the others. *)
Definition inert (s s' : relay DB) : Prop :=
  rl_hub s' = rl_hub s ∧ rl_others s' = rl_others s ∧ WR R (rl_world s) (rl_world s').
#[export] Instance inert_preorder : PreOrder inert.
Proof.
  split; [intros s; by split_and!|]. intros s1 s2 s3 (? & ? & H12) (? & ? & H23).
  split_and!; [congruence|congruence|by etrans].
Qed.

Lemma guar_store_call {E A} (answer : rerror E → response) (m : M (world DB) (rerror E) A) :
  guar (WR R) m → guar inert (store_call answer m : HM A).
Proof. intros Hm s. unfold store_call. specialize (Hm (rl_world s)). destruct (m (rl_world s)) as [w r]. by split_and!. Qed.

Definition is_error (r : reply) : bool := match r with ReplyError _ | ReplyFailure _ | ReplyText _ => true | _ => false end.
(** A refusal: an error, without anything done. *)
Definition refusal (resp : response) : Prop :=
  is_error (rs_Reply resp) = true ∧ rs_Status resp ∈ [400; 401; 403; 404; 405; 409; 410; 500; 503].
Definition refuses {A} (m : HM A) (s : relay DB) : Prop :=
  ∃ s' resp, m s = (s', inl (Answered resp)) ∧ inert s s' ∧ refusal resp.
Lemma refuses_bind {A B} (m : HM A) (k : A → HM B) s : refuses m s → refuses (m ≫= k) s.
Proof. intros (s' & resp & Hm & Hs & Hr). exists s', resp. split; [|done]. unfold mbind, M_bind. by rewrite Hm. Qed.
Lemma refuses_later {A B} (m : HM A) (k : A → HM B) s s' a : m s = (s', inr a) → inert s s' → refuses (k a) s' → refuses (m ≫= k) s.
Proof.
  intros Hm Hs (s2 & resp & Hk & Hs2 & Hr). exists s2, resp. unfold mbind, M_bind. rewrite Hm. split_and!; [done|by etrans|by apply Hr..].
Qed.
Lemma refuses_respond {A} resp s : refusal resp → refuses (respond resp : HM A) s.
Proof. intros Hr. by exists s, resp. Qed.
Lemma refusal_error status code : status ∈ [400; 401; 403; 404; 405; 409; 410; 500; 503] → refusal (writeError status code).
Proof. done. Qed.

Lemma admin_error_refuses e : refusal (AdminHttp.handleStoreError e).
Proof. destruct e as [[]| |]; (split; [done|]); in_list. Qed.

Lemma guar_Authenticate token : guar (WR R) (AdminStore.Authenticate token : M (world DB) (rerror AdminStore.serr) _).
Proof. unfold AdminStore.Authenticate, AdminStore.found_or, AdminStore.found, AdminStore.readMember, AdminStore.readDevice, AdminStore.readJSON, AdminStore.refuse_if. guar_auto. Qed.
Lemma guar_AuthenticateRequest r : guar (WR R) (AdminHttp.AuthenticateRequest r : M (world DB) _ _).
Proof. unfold AdminHttp.AuthenticateRequest. destruct (AdminHttp.bearerToken r); [apply guar_Authenticate|apply guar_throw; apply _]. Qed.

(** ** Credentials presented by a request *)

Definition presents (r : http_request) (s : relay DB) (p : Principal) : Prop :=
  ∃ w, AdminHttp.AuthenticateRequest r (rl_world s) = (w, inr p).
Variable bootstrapToken : string.
Abbreviation config := (admin_config (DB := DB) bootstrapToken).
(** What a path needs is there. *)
Definition permitted (n : need) (r : http_request) (s : relay DB) : Prop :=
  match n with
  | NeedNothing => True
  | NeedBootstrapToken => ∃ token, AdminHttp.bearerToken r = Some token ∧ AdminHttp.bootstrapConfigured config = true ∧
      AdminHttp.validBootstrapToken config token = true
  | NeedInvite => is_Some (AdminHttp.bearerToken r)
  | NeedCredential => ∃ p, presents r s p
  | NeedAdmin => ∃ p, presents r s p ∧ IsAdmin p = true
  | NeedDevice => ∃ p, presents r s p ∧ p_TokenKind p = TokenDevice
  end.

(** Authentication fails without effect, or gives the principal presented. *)
Lemma authenticate_call (answer : rerror AdminStore.serr → response) r s :
  (∀ e, refusal (answer e)) →
  let m : HM Principal := store_call answer (AdminHttp.AuthenticateRequest r) in
  refuses m s ∨ ∃ s' p, m s = (s', inr p) ∧ inert s s' ∧ presents r s p.
Proof.
  intros Hans m. pose proof (guar_store_call answer _ (guar_AuthenticateRequest r) s) as Hin. fold m in Hin.
  unfold refuses, presents. unfold m, store_call in *. cbn beta in *. destruct (AdminHttp.AuthenticateRequest r (rl_world s)) as [w [e|p]]; [left|right].
  - eexists _, _. split; [done|]. split; [exact Hin|apply Hans].
  - eexists _, p. split_and!; [done|done|by exists w].
Qed.
Lemma admin_refuses {A} (k : Principal → HM A) r s :
  ¬ permitted NeedAdmin r s → refuses (AdminHttp.requireAdmin r ≫= k) s.
Proof.
  intros Hno. apply refuses_bind. unfold AdminHttp.requireAdmin, AdminHttp.admin_call.
  destruct (authenticate_call AdminHttp.handleStoreError r s admin_error_refuses) as [Href|(s1 & p & Hm & Hs & Hp)]; [by apply refuses_bind|].
  eapply refuses_later; [exact Hm|exact Hs|]. apply refuses_bind. unfold respond_if. destruct (IsAdmin p) eqn:Hadmin; [|by apply refuses_respond, (admin_error_refuses (Sentinel AdminStore.ErrForbidden))].
  exfalso. apply Hno. by exists p.
Qed.
Lemma device_refuses {A} (k : Principal → HM A) r s :
  ¬ permitted NeedDevice r s → refuses (CollabHttp.principal (Some AdminHttp.AuthenticateRequest) r ≫= k) s.
Proof.
  intros Hno. apply refuses_bind. unfold CollabHttp.principal.
  destruct (authenticate_call (λ _, writeError 401 "unauthorized") r s) as [Href|(s1 & p & Hm & Hs & Hp)];
    [intros e; apply refusal_error; in_list|by apply refuses_bind|].
  eapply refuses_later; [exact Hm|exact Hs|]. apply refuses_bind. unfold respond_if. destruct (decide (p_TokenKind p = TokenDevice)) as [Hk|Hk].
  - exfalso. apply Hno. by exists p.
  - rewrite bool_decide_false by done. apply refuses_respond, refusal_error. in_list.
Qed.

Definition guarded (rt : route (http_request → HM response)) : Prop :=
  ∀ path values r s, match_path (rt_Pattern rt) path = Some values → hr_Path r = path →
    ¬ permitted (required path) r s → refuses (rt_Handler rt values r) s.

(** The paths a pattern matches. *)
Lemma match_path_inv pattern path values : match_path pattern path = Some values →
  Forall2 (λ p s, match p with Lit x => s = x | Wild => True end) pattern path.
Proof.
  revert path values. induction pattern as [|[x|] pattern IH]; intros [|s path] values; simpl; try done.
  - case_bool_decide as Hx; [|done]. intros Hm. constructor; [done|by eapply IH].
  - case_bool_decide; [done|]. intros (vs & Hm & _)%fmap_Some. constructor; [done|by eapply IH].
Qed.
Ltac path_shape H :=
  apply match_path_inv in H;
  repeat match type of H with
  | Forall2 _ (_ :: _) _ => let s := fresh "s" in let l := fresh "l" in let Hs := fresh "Hs" in
      apply Forall2_cons_inv_l in H as (s & l & Hs & H & ->); cbn in Hs; try subst s
  | Forall2 _ [] _ => apply Forall2_nil_inv_l in H as ->
  end.

Lemma routes_guarded st : Forall guarded (relay_routes bootstrapToken st).
Proof.
  unfold relay_routes, AdminHttp.RegisterRoutes, CollabHttp.RegisterRoutes. cbn [app].
  repeat apply Forall_cons_2; try apply Forall_nil_2; intros path values r s Hm Hr Hno; cbn [rt_Pattern rt_Handler app] in *; path_shape Hm;
    cbn in Hno; try (by apply admin_refuses); try (by apply device_refuses); try (by exfalso; apply Hno).
  - unfold AdminHttp.bootstrap, respond_if. destruct (AdminHttp.bootstrapConfigured _) eqn:Hc; cbn [negb].
    2: { apply refuses_bind, refuses_respond. split; [done|in_list]. }
    eapply refuses_later; [done..|]. apply refuses_bind. destruct (AdminHttp.bearerToken r) as [token|] eqn:Ht; [|by apply refuses_respond, (admin_error_refuses (Sentinel AdminStore.ErrUnauthorized))].
    destruct (AdminHttp.validBootstrapToken _ token) eqn:Hv; [|by apply refuses_respond, (admin_error_refuses (Sentinel AdminStore.ErrUnauthorized))].
    exfalso. apply Hno. by exists token.
  - unfold AdminHttp.enroll. destruct (AdminHttp.bearerToken r) as [token|] eqn:Ht; [exfalso; apply Hno; by exists token|].
    by apply refuses_respond, (admin_error_refuses (Sentinel AdminStore.ErrUnauthorized)).
  - unfold AdminHttp.me. destruct (authenticate_call AdminHttp.handleStoreError r s admin_error_refuses) as [Href|(s1 & p & _ & _ & Hp)]; [by apply refuses_bind|].
    exfalso. apply Hno. by exists p.
Qed.

(** C17. Who may do what over HTTP.  Unless a request carries what its path
    needs (an administrator's credential under [/v1/admin], the configured
    bootstrap token, a bearer token to enroll with, any live credential for
    [/v1/me], a live device credential everywhere else but on the three public
    paths), the relay answers with an error and does nothing: the hub stays as
    it was, and Redis moves only as the others move it. *)
Theorem relay_refuses_strangers st r s :
  ¬ permitted (required (hr_Path r)) r s →
  ∃ s' resp, serve bootstrapToken st r s = (s', Answered resp) ∧ inert s s' ∧ refusal resp.
Proof.
  intros Hno. unfold serve. destruct (dispatch _ _ _) as [h| |] eqn:Hd.
  - apply dispatch_inv in Hd as (rt & values & Hin & [Hp _] & ->). pose proof (routes_guarded st) as Hall. rewrite Forall_forall in Hall.
    destruct (Hall rt Hin _ values r s Hp eq_refl Hno) as (s' & resp & Hrun & Hs & Hr).
    exists s', (WithSecurityHeaders resp). unfold finish. by rewrite Hrun.
  - eexists s, _. split_and!; [done|done|]. split; [done|]. in_list.
  - eexists s, _. split_and!; [done|done|]. split; [done|]. in_list.
Qed.
End access.

(** ** Revocation of a device *)

Local Open Scope Z_scope.

Section revocation.
Context {DB : Type} `{RL : RedisLaws DB} `{UT : UnicodeTables}.
Variable bootstrapToken : string.
Abbreviation HM := (M (relay DB) outcome).
Abbreviation config := (admin_config (DB := DB) bootstrapToken).

(** ** Inverting a handler that answered *)

Lemma store_call_inr {E A} (answer : rerror E → response) (m : M (world DB) (rerror E) A) s s' a :
  (store_call answer m : HM A) s = (s', inr a) → ∃ w, m (rl_world s) = (w, inr a) ∧ s' = set_world w s.
Proof. unfold store_call. destruct (m (rl_world s)) as [w [e|b]]; [done|]. intros [= <- <-]. by exists w. Qed.
Lemma respond_if_inr b resp (s s' : relay DB) u : (respond_if b resp : HM ()) s = (s', inr u) → b = false ∧ s' = s.
Proof. destruct b; [done|]. by intros [= <-]. Qed.
Lemma requireAdmin_inr r s s' p : (AdminHttp.requireAdmin r : HM Principal) s = (s', inr p) →
  presents r s p ∧ IsAdmin p = true ∧ rl_hub s' = rl_hub s ∧ rl_others s' = rl_others s.
Proof.
  unfold AdminHttp.requireAdmin. intros (s1 & q & (w & Hq & ->)%store_call_inr & (s2 & u & [Hadmin ->]%respond_if_inr & [= <- <-])%bind_inr)%bind_inr.
  apply negb_false_iff in Hadmin. split_and!; [by exists w|done|done|done].
Qed.

(** Every early answer of a computation has a property. *)
Definition answers (P : response → Prop) {A} (m : HM A) : Prop := ∀ s s' resp, m s = (s', inl (Answered resp)) → P resp.
Lemma answers_bind P {A B} (m : HM A) (k : A → HM B) : answers P m → (∀ a, answers P (k a)) → answers P (m ≫= k).
Proof.
  intros Hm Hk s s' resp. unfold mbind, M_bind. destruct (m s) as [s1 [o|a]] eqn:Hrun; [|by apply Hk].
  intros [= <- ->]. by eapply Hm.
Qed.
Lemma answers_ret P {A} (a : A) : answers P (mret a : HM A).
Proof. by intros s s' resp [=]. Qed.
Lemma answers_respond_if (P : response → Prop) b resp : P resp → answers P (respond_if b resp : HM ()).
Proof. intros HP s s' r. destruct b; [|done]. by intros [= _ <-]. Qed.
Lemma answers_store (P : response → Prop) {E A} (answer : rerror E → response) (m : M (world DB) (rerror E) A) :
  (∀ e, P (answer e)) → answers P (store_call answer m : HM A).
Proof. intros HP s s' resp. unfold store_call. destruct (m (rl_world s)) as [w [e|a]]; [|done]. by intros [= _ <-]. Qed.
Lemma answers_evict P org ids : answers P (evicter org ids : HM bool).
Proof. intros s s' resp. unfold evicter. cbv zeta. destruct (EvictRevokedAgents _ _ _) as [[[h w] r]|]; by intros [=]. Qed.

Definition not_done (resp : response) : Prop := rs_Status resp ≠ 204.
Lemma admin_error_not_done e : not_done (AdminHttp.handleStoreError e).
Proof. by destruct e as [[]| |]. Qed.
Lemma answers_requireAdmin r : answers not_done (AdminHttp.requireAdmin r : HM Principal).
Proof.
  apply answers_bind; [apply answers_store, admin_error_not_done|]. intros p.
  apply answers_bind; [by apply answers_respond_if|]. intros _. apply answers_ret.
Qed.
Lemma answers_evictRevoked result : answers not_done (AdminHttp.evictRevokedAgents config result).
Proof.
  unfold AdminHttp.evictRevokedAgents. cbn [AdminHttp.ac_RevocationEvicter config admin_config]. case_bool_decide; [apply answers_ret|].
  apply answers_bind; [apply answers_evict|]. intros done. by apply answers_respond_if.
Qed.

(** ** Revoking a device *)

Definition device_path (deviceID : string) : list string := ["v1"; "admin"; "devices"; deviceID].
Lemma serve_revoke_device st deviceID r s : deviceID ≠ "" → hr_Method r = DELETE → hr_Path r = device_path deviceID →
  serve bootstrapToken st r s =
  let (s', o) := finish (AdminHttp.revokeDevice config deviceID r) s in
  (s', match o with Answered resp => Answered (WithSecurityHeaders resp) | Panicked => Panicked end).
Proof.
  intros Hne Hm Hp.
  apply (serve_route bootstrapToken st r s (mkRoute DELETE [Lit "v1"; Lit "admin"; Lit "devices"; Wild] (λ v, AdminHttp.revokeDevice config (AdminHttp.path_param v))) [deviceID]).
  - unfold relay_routes. apply elem_of_app. left. do 13 right. left.
  - rewrite Hm, Hp. split; [|done]. unfold device_path. cbn. by rewrite (bool_decide_false (deviceID = "")).
Qed.

#[local] Existing Instance AdminProofs.keeps_device_preorder.
(** The commands of an eviction leave a device alone, and its revocation. *)
Lemma evict_keeps_device org deviceID agent ids (d : DB) :
  AdminProofs.keeps_device org deviceID agent d (r_exec_all (concat (evict_commands org <$> ids)) d).
Proof.
  apply AdminProofs.keeps_device_other.
  - induction ids as [|id ids IH]; [by constructor|]. rewrite fmap_cons. cbn [concat]. apply Forall_app. split; [|exact IH].
    unfold evict_commands. AdminProofs.other_keys.
  - revert d. induction ids as [|id ids IH]; intros d Hin; [done|]. rewrite fmap_cons. cbn [concat]. rewrite r_exec_all_app. apply IH.
    unfold evict_commands, r_sismember in *. apply bool_decide_eq_true in Hin. apply bool_decide_eq_true. rewrite !r_exec_all_cons.
    change (CollaborationRevokedAgents org) with (revokedAgentsKey org) in *. unfold r_exec_all. cbn [foldl].
    rewrite smembers_other by (simpl; eapply key_kind_ne; [eauto with keys..|done]). rewrite smembers_other by (simpl; eapply key_kind_ne; [eauto with keys..|done]). apply smembers_add. by right.
Qed.

Lemma eviction_keeps_device org deviceID agent org' ids (h h' : hub_state) (w w' : world DB) r :
  (∀ ids d, AdminProofs.keeps_device org deviceID agent d (r_exec_all (concat (evict_commands org' <$> ids)) d)) →
  env_ok (AdminProofs.keeps_device org deviceID agent) w →
  EvictRevokedAgents org' ids (h, w) = Some ((h', w'), r) → AdminProofs.keeps_device org deviceID agent (w_db w) (w_db w').
Proof.
  intros Hkeep He. unfold EvictRevokedAgents. destruct (_ || _); [by intros [= <- <- <-]|].
  destruct (revoke_streams _ _ _) as [h1|]; [|done]. cbn. destruct (evictPresence org' (cleanAgentIDs ids) w) as [w1 r1] eqn:Hrun. intros [= <- <- <-].
  assert (guar (WR (AdminProofs.keeps_device org deviceID agent)) (evictPresence org' (cleanAgentIDs ids) : M (world DB) (rerror cerr) ())) as Hg
    by (apply (guar_tx (AdminProofs.keeps_device org deviceID agent)), Hkeep).
  specialize (Hg w). rewrite Hrun in Hg. by destruct (Hg He).
Qed.

(** The call of the administrator, while the device keeps its agent. *)
Lemma requireAdmin_named org deviceID agent r s s1 q :
  (AdminHttp.requireAdmin r : HM Principal) s = (s1, inr q) → env_ok (AdminProofs.keeps_device org deviceID agent) (rl_world s) →
  AdminProofs.named org deviceID agent (w_db (rl_world s)) →
  presents r s q ∧ IsAdmin q = true ∧ rl_hub s1 = rl_hub s ∧
  env_ok (AdminProofs.keeps_device org deviceID agent) (rl_world s1) ∧ AdminProofs.named org deviceID agent (w_db (rl_world s1)).
Proof.
  intros Hrun He Hn. destruct (requireAdmin_inr _ _ _ _ Hrun) as (Hpres & Hadmin & Hhub & _). do 3 (split; [done|]).
  unfold AdminHttp.requireAdmin in Hrun. apply bind_inr in Hrun as (s2 & q' & (w & Hq & ->)%store_call_inr & Hrun).
  apply bind_inr in Hrun as (s3 & u & [_ ->]%respond_if_inr & [= <- _]). cbn.
  pose proof (guar_AuthenticateRequest (AdminProofs.keeps_device org deviceID agent) r (rl_world s)) as Hg. rewrite Hq in Hg.
  destruct (Hg He) as [He' [HR _] _ _ _]. split; [done|by apply HR].
Qed.
(** The eviction that follows a stored revocation. *)
Lemma evicts_cut_off org deviceID agent w s s' u : hub_ok (rl_hub s) → trim_space org ≠ "" → trim_space agent ≠ "" →
  env_ok (AdminProofs.keeps_device org deviceID agent) w → AdminProofs.cut_off org deviceID agent (w_db w) →
  AdminHttp.evictRevokedAgents config (mkRevocationResult org [agent]) (set_world w s) = (s', inr u) →
  AdminProofs.cut_off org deviceID agent (w_db (rl_world s')) ∧
  IsRevoked org (trim_space agent) (rl_hub s') = true ∧ subs (rl_hub s') (hub_key org (trim_space agent)) = ∅ ∧
  evicted org (trim_space agent) (w_db (rl_world s')).
Proof.
  intros Hok Horg Hagent He Hcut Hevict. unfold AdminHttp.evictRevokedAgents in Hevict.
  cbn [AdminHttp.ac_RevocationEvicter config admin_config rv_OrganizationID rv_AgentIDs] in Hevict.
  rewrite bool_decide_false in Hevict by done. apply bind_inr in Hevict as (s5 & ok & Hevict & [Hdone ->]%respond_if_inr).
  apply negb_false_iff in Hdone as ->. unfold evicter in Hevict.
  assert (hub_ok (rl_hub (others_step (set_world w s))) ∧ rl_world (others_step (set_world w s)) = w) as [Hok3 Hw].
  { unfold others_step. cbn. destruct (rl_others s) as [|l rest]; cbn; [done|]. by destruct (acts_ok l (rl_hub s) Hok) as (h & -> & ?). }
  set (s3 := others_step (set_world w s)) in *. rewrite Hw in Hevict.
  destruct (evict_revoked_agents_correct org [agent] (rl_hub s3) w Hok3 Horg) as (h & w' & res & Hrun & _ & Hall).
  pose proof (eviction_keeps_device org deviceID agent org [agent] _ _ _ _ _ (evict_keeps_device org deviceID agent) He Hrun) as [_ Hkeep].
  rewrite Hrun in Hevict. injection Hevict as <- Hres. destruct res as [|[]]; [done|].
  destruct (Hall agent) as (? & ? & Hev); [by left|done|]. split; [by apply Hkeep|]. split_and!; [done|done|by apply Hev].
Qed.

(** C16. A revocation cuts the device off.  Take a device of the caller's
    organisation that is stored as the device of an agent, while the other
    processes give it to no other agent and take no revocation back.  When the
    relay answers 204 to its revocation, an administrator asked for it, and at
    the answer the device is stored as revoked and that agent is in the set of
    revoked agents, which refuses its credential and its queued requests; the
    agent is revoked in the hub without a stream left, out of the directory,
    and without a published card. *)
Theorem device_revocation_cuts_off st deviceID agent r s s' resp p :
  deviceID ≠ "" → hr_Method r = DELETE → hr_Path r = device_path deviceID → hub_ok (rl_hub s) →
  let org := p_OrganizationID p in
  presents r s p → AdminProofs.named org deviceID agent (w_db (rl_world s)) → trim_space agent ≠ "" →
  env_ok (AdminProofs.keeps_device org deviceID agent) (rl_world s) →
  serve bootstrapToken st r s = (s', Answered resp) → rs_Status resp = 204 →
  IsAdmin p = true ∧ AdminProofs.cut_off org deviceID agent (w_db (rl_world s')) ∧
  IsRevoked org (trim_space agent) (rl_hub s') = true ∧ subs (rl_hub s') (hub_key org (trim_space agent)) = ∅ ∧
  evicted org (trim_space agent) (w_db (rl_world s')).
Proof.
  intros Hne Hm Hp Hok org Hpres Hnamed Hagent Henv Hserve Hst.
  rewrite (serve_revoke_device st deviceID r s Hne Hm Hp) in Hserve. unfold finish in Hserve.
  destruct (AdminHttp.revokeDevice config deviceID r s) as [s2 [o|resp']] eqn:Hrun.
  { destruct o as [resp'|]; [|done]. injection Hserve as <- <-. exfalso.
    assert (not_done resp') as Hnd; [|by apply Hnd]. revert Hrun. apply answers_bind; [apply answers_requireAdmin|]. intros q.
    apply answers_bind; [apply answers_store, admin_error_not_done|]. intros result.
    apply answers_bind; [apply answers_evictRevoked|]. intros _. apply answers_ret. }
  injection Hserve as <- <-. unfold AdminHttp.revokeDevice in Hrun.
  apply bind_inr in Hrun as (s1 & q & Hadmin & Hrun).
  destruct (requireAdmin_named org deviceID agent r s s1 q Hadmin Henv Hnamed) as (Hq & Hisadmin & Hhub & Henv1 & Hnamed1).
  assert (q = p) as -> by (destruct Hpres as [? Hpres], Hq as [? Hq]; congruence). clear Hq.
  apply bind_inr in Hrun as (s3 & result & (w1 & Hrevoke & ->)%store_call_inr & Hrun).
  apply bind_inr in Hrun as (s4 & u & Hevict & [= <- <-]).
  destruct (AdminProofs.revoke_device_correct org deviceID agent Hagent p (rl_world s1) w1 result eq_refl Henv1 Hnamed1 Hrevoke)
    as (Horg & Henv2 & -> & Hcut). apply AdminProofs.validID_not_blank in Horg as Horg_ne. split; [done|].
  eapply (evicts_cut_off org deviceID agent w1 s1); [by rewrite Hhub|done..|exact Hevict].
Qed.
End revocation.
