(* ===== verification/StreamReplay.v ===== *)
(** * A stream of events misses nothing

    An agent that opens a stream is first sent what its inbox lists, then what
    is published for it.  The subscription is made before the inbox is read, so
    a request is in one or the other, whatever the other goroutines do. *)

From S2P Require Import Prelude GoString GoStringFacts Protocol Auth Records Redis RedisLogic CollabStore CollabMachine CollabLifecycle Hub Http CollabHttp.
From S2P Require AdminStore.
From Stdlib Require Import Ascii.

(** ** Channels of the hub *)

Section streams.
Context {payload : Type}.
Abbreviation hub := (Hub (payload := payload)).
Abbreviation hub_act := (action (payload := payload)).
Abbreviation hub_ev := (event (payload := payload)).

(** ** Interleavings with their debts *)

Abbreviation debts := (gset (string * nat)).
Definition owed_after (a : hub_act) (h : hub) (owed : debts) : debts :=
  match a with
  | APublishSend org agent e =>
    match Publish_send org agent e h with
    | Some (over, _) => owed ∪ list_to_set (pair (hub_key org agent) <$> over)
    | None => owed
    end
  | ADrop key c => owed ∖ {[(key, c)]}
  | _ => owed
  end.
Fixpoint trace (l : list hub_act) (h : hub) (owed : debts) : option (hub * debts) :=
  match l with
  | [] => Some (h, owed)
  | a :: l => h' ← act a h; trace l h' (owed_after a h owed)
  end.
(** The events published to an agent, and those taken from a channel. *)
Definition published (key : string) (l : list hub_act) : list hub_ev :=
  omap (λ a, match a with APublishSend org agent e => if base.decide (hub_key org agent = key) then Some e else None | _ => None end) l.
Lemma published_app key l1 l2 : published key (l1 ++ l2) = published key l1 ++ published key l2.
Proof. apply omap_app. Qed.
Definition next_of (c : nat) (h : hub) : option hub_ev := channels h !! c ≫= λ ch, head (ch_buffer ch).
Fixpoint taken (c : nat) (l : list hub_act) (h : hub) : list hub_ev :=
  match l with
  | [] => []
  | a :: l =>
    let rest := match act a h with Some h' => taken c l h' | None => [] end in
    match a with AReceive c' => if base.decide (c' = c) then option_list (next_of c h) ++ rest else rest | _ => rest end
  end.

Lemma trace_acts l h owed : trace l h owed = (λ h', (h', default owed (snd <$> trace l h owed))) <$> acts l h.
Proof.
  revert h owed. induction l as [|a l IH]; intros h owed; [done|]. cbn [trace acts]. destruct (act a h) as [h'|]; [|done]. simpl.
  rewrite IH. by destruct (acts l h').
Qed.

(** ** A channel is served, or lost for good *)

Definition served (key : string) (c : nat) (h : hub) (owed : debts) : Prop := c ∈ subs h key ∧ (key, c) ∉ owed.
Definition lost (key : string) (c : nat) (h : hub) (owed : debts) : Prop := c < next_channel h ∧ (c ∉ subs h key ∨ (key, c) ∈ owed).

Lemma subscribed_allocated key c (h : hub) : hub_ok h → c ∈ subs h key → c < next_channel h.
Proof.
  intros Hok Hc. destruct (base.decide (c < next_channel h)) as [|Hge]; [done|]. destruct (ok_open h Hok key c Hc) as (ch & Hch & _).
  rewrite (ok_fresh h Hok) in Hch by lia. done.
Qed.
Lemma send_all_next e cs (h : hub) over h' : send_all e cs h = Some (over, h') → next_channel h' = next_channel h.
Proof.
  revert h over. induction cs as [|c cs IH]; intros h over; cbn [send_all]; [by intros [= _ <-]|].
  intros ([full h1] & H1 & ([over2 h2] & H2 & [= _ <-])%bind_Some)%bind_Some. apply IH in H2 as ->.
  unfold send_one in H1. apply bind_Some in H1 as (ch & _ & H1). repeat case_match; by simplify_eq/=.
Qed.
Lemma drop_subs c key' (h h' : hub) : hub_ok h → dropSubscriber key' c h = Some h' →
  next_channel h' = next_channel h ∧ ∀ k, subs h' k = if base.decide (k = key' ∧ c ∈ subs h key') then subs h k ∖ {[c]} else subs h k.
Proof.
  intros Hok. unfold dropSubscriber. case_decide as Hc.
  - destruct (ok_open h Hok key' c Hc) as (ch & Hch & Ho). rewrite (close_channel_open c ch) by done. intros [= <-]. split; [done|].
    intros k. rewrite (subs_same (set_subs key' (subs h key' ∖ {[c]}) h)) by done. rewrite subs_set_subs.
    destruct (base.decide (key' = k)) as [<-|Hne]; [by rewrite decide_True|]. rewrite decide_False; [done|]. by intros [-> _].
  - intros [= <-]. split; [done|]. intros k. rewrite decide_False; [done|]. by intros [-> ?].
Qed.

(** What one action does to the subscriptions of an allocated channel. *)
Lemma act_subs (a : hub_act) h h' key c : hub_ok h → act a h = Some h' → c < next_channel h →
  next_channel h ≤ next_channel h' ∧ (c ∈ subs h' key → c ∈ subs h key) ∧
  (a = ADrop key c ∨ a = ACancel key c → c ∉ subs h' key).
Proof.
  intros Hok Ha Hc. destruct a as [org agent|k c'|org agent|org agent e|k c'|c']; cbn [act] in Ha.
  - injection Ha as <-. unfold Subscribe. case_bool_decide; cbn [snd]; (split; [simpl; lia|]); (split; [|intros [[=]|[=]]]); [done|].
    rewrite subs_set_subs. case_decide; [|done]. intros [Heq|Hin]%elem_of_union; [|by subst]. apply elem_of_singleton in Heq. subst. lia.
  - apply drop_subs in Ha as [-> Hs]; [|done]. split; [done|]. rewrite Hs. split; [destruct (base.decide _); [by intros [? _]%elem_of_difference|done]|].
    intros [[=]|[= -> ->]]. destruct (base.decide _) as [Hd|Hd]; [by intros [_ []%not_elem_of_singleton]%elem_of_difference|]. intros ?. by apply Hd.
  - destruct (Revoke_ok org agent h Hok) as (h1 & H1 & Hok1). rewrite Ha in H1. injection H1 as <-.
    unfold Revoke in Ha. destruct (close_all_open (elements (subs h (hub_key org agent))) (mkHub (subscribers h) ({[hub_key org agent]} ∪ revoked h) (channels h) (next_channel h)))
      as (m & Hm & _); [apply NoDup_elements|intros x Hx%elem_of_elements; by apply (ok_open h Hok (hub_key org agent))|].
    rewrite Hm in Ha. injection Ha as <-. split; [done|]. split; [|intros [[=]|[=]]]. rewrite subs_set_subs. destruct (base.decide _); [by intros ?%elem_of_empty|done].
  - destruct (Publish_send_ok org agent e h Hok) as (over & h1 & H1 & _ & Hsub & _). rewrite H1 in Ha. injection Ha as <-.
    pose proof (subs_same h h1 key Hsub) as ->. split; [|split; [done|intros [[=]|[=]]]].
    apply send_all_next in H1. lia.
  - apply drop_subs in Ha as [-> Hs]; [|done]. split; [done|]. rewrite Hs. split; [destruct (base.decide _); [by intros [? _]%elem_of_difference|done]|].
    intros [[= -> ->]|[=]]. destruct (base.decide _) as [Hd|Hd]; [by intros [_ []%not_elem_of_singleton]%elem_of_difference|]. intros ?. by apply Hd.
  - injection Ha as <-. unfold receive. destruct (channels h !! c') as [[[|e rest] closed]|]; (split; [done|split; [done|intros [[=]|[=]]]]).
Qed.

(** A channel once lost is never served again. *)
Lemma lost_step a h h' owed key c : hub_ok h → act a h = Some h' → lost key c h owed → lost key c h' (owed_after a h owed).
Proof.
  intros Hok Ha [Hc Hlost]. destruct (act_subs a h h' key c Hok Ha Hc) as (Hn & Hsub & Hgone). split; [lia|].
  destruct Hlost as [Hout|Howed]; [left; by intros ?%Hsub|].
  destruct a; cbn [owed_after]; try (by right); [right; case_match; [case_match|]; set_solver|].
  destruct (base.decide ((key, c) = (key0, c0))) as [[= -> ->]|Hne]; [left; apply Hgone; by left|right; set_solver].
Qed.
Lemma lost_trace l h owed h' owed' key c : hub_ok h → trace l h owed = Some (h', owed') → lost key c h owed → lost key c h' owed'.
Proof.
  revert h owed. induction l as [|a l IH]; intros h owed Hok; [by intros [= <- <-]|]. cbn [trace].
  destruct (act_ok a h Hok) as (h1 & Ha & Hok1). rewrite Ha. simpl. intros Hrun Hl. eapply IH; [exact Hok1|exact Hrun|]. by eapply lost_step.
Qed.

(** A channel that stays subscribed is not touched by what detaches others. *)
Lemma drop_keeps k c2 (h h' : hub) key c : hub_ok h → dropSubscriber k c2 h = Some h' → c ∈ subs h key → c ∈ subs h' key →
  channels h' !! c = channels h !! c.
Proof.
  intros Hok Hd Hc Hc'. destruct (drop_subs c2 k h h' Hok Hd) as [_ Hs]. rewrite Hs in Hc'. unfold dropSubscriber in Hd.
  destruct (base.decide (c2 ∈ subs h k)) as [Hin|Hin]; [|by injection Hd as <-]. destruct (ok_open h Hok k c2 Hin) as (ch & Hch & Ho).
  rewrite (close_channel_open c2 ch) in Hd by done. injection Hd as <-. simpl. apply lookup_insert_ne. intros ->.
  rewrite (ok_owner h Hok key k c Hc Hin) in Hc'. rewrite decide_True in Hc' by done. by apply elem_of_difference in Hc' as [_ []%not_elem_of_singleton].
Qed.
Lemma revoke_keeps org agent (h h' : hub) key c : hub_ok h → Revoke org agent h = Some h' → c ∈ subs h key → c ∈ subs h' key →
  channels h' !! c = channels h !! c.
Proof.
  intros Hok Hr Hc Hc'. unfold Revoke in Hr.
  destruct (close_all_open (elements (subs h (hub_key org agent))) (mkHub (subscribers h) ({[hub_key org agent]} ∪ revoked h) (channels h) (next_channel h)))
    as (m & Hm & Hout & _); [apply NoDup_elements|intros x Hx%elem_of_elements; by apply (ok_open h Hok (hub_key org agent))|].
  rewrite Hm in Hr. injection Hr as <-. rewrite subs_set_subs in Hc'. destruct (base.decide (hub_key org agent = key)) as [Heq|Hne]; [by apply elem_of_empty in Hc'|].
  apply Hout. intros Hin%elem_of_elements. by apply Hne, (ok_owner h Hok _ _ c).
Qed.

(** One action on a channel that is served before and after it. *)
Definition buffer (c : nat) (h : hub) : list hub_ev := default [] (ch_buffer <$> channels h !! c).
Lemma buffer_same c (h h' : hub) : channels h' !! c = channels h !! c → buffer c h' = buffer c h.
Proof. unfold buffer. by intros ->. Qed.
Lemma served_step a h h' owed key c : hub_ok h → act a h = Some h' → served key c h owed → served key c h' (owed_after a h owed) →
  buffer c h ++ published key [a] = taken c [a] h ++ buffer c h'.
Proof.
  intros Hok Ha [Hc Ho] [Hc' Ho']. pose proof (subscribed_allocated key c h Hok Hc) as Hlt.
  destruct (ok_open h Hok key c Hc) as (ch & Hch & Hopen). cbn [taken]. rewrite Ha.
  destruct a as [org agent|k c2|org agent|org agent e|k c2|c2]; cbn [act published omap list_omap taken app] in *; rewrite ?app_nil_r.
  - injection Ha as <-. symmetry. apply buffer_same. unfold Subscribe. case_bool_decide; simpl; apply lookup_insert_ne; lia.
  - symmetry. apply buffer_same. by eapply drop_keeps.
  - symmetry. apply buffer_same. by eapply revoke_keeps.
  - destruct (Publish_send_ok org agent e h Hok) as (over & h1 & H1 & _ & _ & _ & Hother & _ & _ & Hdel).
    cbn [owed_after] in Ho'. rewrite H1 in Ha, Ho'. injection Ha as <-. destruct (base.decide (hub_key org agent = key)) as [Hkey|Hkey].
    + subst key. destruct (Hdel c Hc) as (ch' & Hch' & Hf). rewrite Hch in Hch'. injection Hch' as <-.
      case_bool_decide as Hov; [exfalso; apply Ho', elem_of_union_r, elem_of_list_to_set, list_elem_of_fmap; by exists c|].
      unfold buffer. by rewrite Hch, Hf.
    + rewrite app_nil_r. symmetry. apply buffer_same, Hother. intros Hin. by apply Hkey, (ok_owner h Hok _ _ c).
  - symmetry. apply buffer_same. by eapply drop_keeps.
  - injection Ha as <-. unfold next_of, receive, buffer. destruct (base.decide (c2 = c)) as [->|Hne].
    + rewrite Hch. destruct ch as [[|e rest] closed]; simpl; [by rewrite Hch|]. by rewrite lookup_insert_eq.
    + destruct (channels h !! c2) as [[[|e rest] closed]|]; simpl; try done. by rewrite lookup_insert_ne.
Qed.

(** A stream that stays open has missed nothing.  Take any interleaving of
    subscriptions, cancellations, revocations, publications, overflow handling
    and reads.  A channel that is still subscribed at its end, and is not about
    to be closed for an overflow, has been given every event published to its
    agent meanwhile: what was taken from it and what it still holds are what
    it held and what was published, in the order of publication. *)
Lemma served_gapless l (h h' : hub) owed owed' key c :
  hub_ok h → served key c h owed → trace l h owed = Some (h', owed') → served key c h' owed' →
  buffer c h ++ published key l = taken c l h ++ buffer c h'.
Proof.
  revert h owed. induction l as [|a l IH]; intros h owed Hok Hs; cbn [trace].
  { intros [= <- <-] _. by rewrite app_nil_r. }
  destruct (act_ok a h Hok) as (h1 & Ha & Hok1). intros Hrun Hs'. rewrite Ha in Hrun. simpl in Hrun.
  assert (served key c h1 (owed_after a h owed)) as Hs1.
  { destruct (base.decide (served key c h1 (owed_after a h owed))) as [|Hno]; [done|]. exfalso.
    assert (lost key c h1 (owed_after a h owed)) as Hl.
    { split; [|by apply not_and_l in Hno as [?|?%dec_stable]; [left|right]].
      eapply Nat.lt_le_trans; [by eapply subscribed_allocated; [|apply Hs]|]. eapply (act_subs a h h1 key c); [done..|]. by eapply subscribed_allocated; [|apply Hs]. }
    apply (lost_trace l h1 _ h' owed') in Hl as [_ [Hl|Hl]]; [by destruct Hs'|by destruct Hs'|done|done]. }
  pose proof (served_step a h h1 owed key c Hok Ha Hs Hs1) as Hstep. specialize (IH h1 _ Hok1 Hs1 Hrun Hs').
  change (published key (a :: l)) with (published key ([a] ++ l)). rewrite (published_app key [a] l), app_assoc, Hstep, <- app_assoc, IH, app_assoc. f_equal.
  cbn [taken]. rewrite Ha. destruct a; try done. case_decide; [by rewrite app_nil_r|done].
Qed.
End streams.

(** ** The inbox *)

Local Open Scope Z_scope.

Section replay.
Context {DB : Type} `{RL : RedisLaws DB} `{UT : UnicodeTables}.
Abbreviation CM := (M (world DB) (rerror cerr)).
Context (p : Principal) (s : storedRequest).
Let org := p_OrganizationID p.
Let id := rq_RequestID (sr_Request s).
Hypothesis Htrim : trim_space id = id.

(** The request is pending for the agent of [p]. *)
Definition pending (d : DB) : Prop :=
  r_get d (requestKey org id) = Some (marshal s) ∧ id ∈ r_smembers d (inboxKey org (p_AgentID p)).
Definition stays_pending (d d' : DB) : Prop := pending d → pending d'.
#[export] Instance stays_pending_preorder : PreOrder stays_pending.
Proof. split; [by intros ? ?|intros ? ? ? H1 H2 H3; auto]. Qed.
Abbreviation R := stays_pending.
Lemma pending_closed d d' : R d d' → pending d → pending d'.
Proof. auto. Qed.

Lemma keeps_get_smembers d d' : r_get d' (requestKey org id) = r_get d (requestKey org id) →
  (id ∈ r_smembers d (inboxKey org (p_AgentID p)) → id ∈ r_smembers d' (inboxKey org (p_AgentID p))) → R d d'.
Proof. intros Hg Hs [Hget Hin]. split; [by rewrite Hg|auto]. Qed.
Lemma get_expire_any k k' ttl (d : DB) : 0 < ttl → r_get (r_exec (CExpire k ttl) d) k' = r_get d k'.
Proof. intros Ht. destruct (base.decide (k = k')) as [->|Hne]; [by apply get_expire|by apply get_other]. Qed.
Lemma keeps_forget id' d : id' ≠ id → R d (r_exec (CSRem (inboxKey org (p_AgentID p)) id') d).
Proof.
  intros Hne. apply keeps_get_smembers; [apply get_other; simpl; eapply key_kind_ne; eauto with keys; done|].
  intros Hin. apply smembers_rem. by split.
Qed.
Lemma keeps_transition id' touched d : id' ≠ id → R d (r_exec_all (transition_commands (requestKey org id') touched) d).
Proof.
  intros Hne. assert (requestKey org id' ≠ requestKey org id) as Hk by (by intros [_ ?]%requestKey_inj).
  assert (requestKey org id' ≠ inboxKey org (p_AgentID p)) as Hi by (eapply key_kind_ne; eauto with keys; done).
  assert (0 < requestRetention) by (unfold requestRetention, second; lia).
  unfold transition_commands. apply keeps_get_smembers; rewrite r_exec_all_cons; case_bool_decide; unfold r_exec_all; simpl.
  - by apply get_other.
  - rewrite get_expire_any by done. by apply get_other.
  - intros Hin. by apply smembers_other.
  - intros Hin. apply smembers_expire_any; [done|]. by apply smembers_other.
Qed.

(** ** Items of other requests *)

Lemma guar_forget id' : id' ≠ id → guar (WR R) (inbox_forget p id').
Proof. intros Hne. unfold inbox_forget, ignore. apply guar_bind; [typeclasses eauto| |intros r; apply guar_ret; typeclasses eauto]. apply guar_attempt, guar_write; [typeclasses eauto|]. intros d. by apply keeps_forget. Qed.
Lemma guar_found id' : guar (WR R) (found (readStoredRequest org id') : CM _).
Proof. unfold found, readStoredRequest. guar_auto. Qed.
Lemma guar_expire id' : trim_space id' ≠ id → guar (WR R) (expireAwaiting p id').
Proof.
  intros Hne. unfold expireAwaiting, transition, transitionStored, transitionStoredWatching.
  apply guar_bind; [typeclasses eauto|apply guar_attempt|intros r; guar_auto].
  apply guar_bind; [typeclasses eauto|unfold checked; guar_auto|intros _].
  apply guar_bind; [typeclasses eauto| |intros [r x]; guar_auto].
  apply guar_retry_watch; [typeclasses eauto|]. intros o. apply (spec_guar R).
  unfold transition_body, readStoredRequest, expire_update, refuse_if. guar_auto. apply guar_tx; [typeclasses eauto|]. intros d. by apply keeps_transition.
Qed.
Lemma guar_item id' : trim_space id' ≠ id → guar (WR R) (inbox_item p id').
Proof.
  intros Hne. assert (id' ≠ id) as Hne' by (intros ->; apply Hne, Htrim). unfold inbox_item. guar_auto; auto using guar_found, guar_forget, guar_expire.
Qed.

(** ** The item of the request *)

Hypothesis Hawaiting : rq_Status (sr_Request s) = StatusAwaitingApproval.

(** The clock readings between two moments came before the expiry. *)
Definition live_until (w w' : world DB) : Prop :=
  ∀ n, (w_ticks w ≤ n < w_ticks w')%nat → w_clock w n < rq_ExpiresAt (sr_Request s).

(** While the request is pending and alive, it stays pending, and what [m]
    answers has a property. *)
Definition gives {A} (m : CM A) (Q : A → Prop) : Prop :=
  guar (WR anything) m ∧
  ∀ w w' a, env_ok R w → pending (w_db w) → live_until w w' → m w = (w', inr a) → env_ok R w' ∧ pending (w_db w') ∧ Q a.

Lemma gives_bind {A B} (m : CM A) (f : A → CM B) Q T :
  gives m Q → (∀ a, guar (WR anything) (f a)) → (∀ a, Q a → gives (f a) T) → gives (m ≫= f) T.
Proof.
  intros [Gm Hm] Gf Hf. split; [apply guar_bind; [typeclasses eauto|done|done]|].
  intros w w' b He Hp Hlive (w1 & a & Hrun1 & Hrun2)%bind_inr.
  pose proof (Gm w (env_ok_anything w)) as W1. pose proof (Gf a w1 (env_ok_anything w1)) as W2. rewrite Hrun1 in W1. rewrite Hrun2 in W2.
  destruct W1 as [_ _ Hc1 _ Ht1], W2 as [_ _ _ _ Ht2]. cbn [fst] in *.
  destruct (Hm w w1 a He Hp) as (He1 & Hp1 & Ha); [intros n Hn; apply Hlive; lia|done|].
  apply (Hf a Ha) with (w := w1); [done|done| |done]. intros n Hn. rewrite Hc1. apply Hlive. lia.
Qed.
Lemma gives_guar {A} (m : CM A) : guar (WR anything) m → guar (WR R) m → gives m (λ _, True).
Proof.
  intros Ga Gr. split; [done|]. intros w w' a He Hp _ Hrun. pose proof (Gr w He) as W. rewrite Hrun in W. destruct W as [He' HR _ _ _].
  split_and!; [done|by apply HR|done].
Qed.
Lemma gives_ret {A} (a : A) (Q : A → Prop) : Q a → gives (mret a) Q.
Proof. intros HQ. split; [apply guar_ret; typeclasses eauto|]. by intros w w' b He Hp _ [= <- <-]. Qed.
Lemma gives_read {A} (f : DB → A) (Q : A → Prop) : (∀ d, pending d → Q (f d)) → gives (redis_read f) Q.
Proof.
  intros HQ. split; [apply guar_read; typeclasses eauto|]. intros w w' a He Hp _. unfold redis_read, redis_call.
  destruct (next_env w) as [e w1] eqn:Hne. destruct (next_env_within R w e w1 He Hne) as [[He1 HR _ _ _] _].
  destruct e; [|done|done]. intros [= <- <-]. split_and!; [done|by apply HR|by apply HQ, HR].
Qed.
Lemma gives_reject b e : gives (reject_if b e : CM ()) (λ _, b = false).
Proof. split; [apply guar_reject_if; typeclasses eauto|]. intros w w' a He Hp _. destruct b; [done|]. by intros [= <- _]. Qed.
Lemma gives_lift {A} (r : rerror cerr + A) : gives (lift r) (λ _, True).
Proof. split; [apply guar_lift; typeclasses eauto|]. intros w w' a He Hp _. unfold lift. by intros [= <- _]. Qed.

(** The item reads its clock once before it decides. *)
Lemma gives_now {A} (k : time → CM A) Q : (∀ t, guar (WR anything) (k t)) →
  (∀ t, t < rq_ExpiresAt (sr_Request s) → gives (k t) Q) → gives (now ≫= k) Q.
Proof.
  intros Gk Hk. split; [apply guar_bind; [typeclasses eauto|apply guar_now; typeclasses eauto|done]|].
  intros w w' b He Hp Hlive (w1 & t & [= <- <-] & Hrun)%bind_inr. match type of Hrun with k _ ?w1 = _ => pose proof (Gk (w_clock w (w_ticks w)) w1 (env_ok_anything w1)) as W end.
  rewrite Hrun in W. destruct W as [_ _ _ _ Ht]. simpl in Ht.
  eapply (Hk (w_clock w (w_ticks w))); [apply Hlive; lia| | | |exact Hrun]; [done|done|]. intros n Hn. apply Hlive. simpl in Hn. lia.
Qed.

Lemma guar_anything_forget id' : guar (WR anything) (inbox_forget p id').
Proof. unfold inbox_forget, ignore. guar_auto. by apply guar_write; [typeclasses eauto|]. Qed.
Lemma guar_anything_expire id' : guar (WR anything) (expireAwaiting p id').
Proof.
  unfold expireAwaiting, transition, transitionStored, transitionStoredWatching, checked. guar_auto.
  apply guar_retry_watch; [typeclasses eauto|]. intros o. apply (spec_guar anything).
  unfold transition_body, readStoredRequest, expire_update, refuse_if. guar_auto. by apply guar_tx; [typeclasses eauto|].
Qed.
Lemma guar_anything_found id' : guar (WR anything) (found (readStoredRequest org id') : CM _).
Proof. unfold found, readStoredRequest. guar_auto. Qed.
#[local] Hint Resolve guar_anything_forget guar_anything_expire guar_anything_found : guar.
Lemma guar_anything_item id' : guar (WR anything) (inbox_item p id').
Proof. unfold inbox_item. guar_auto. Qed.
#[local] Hint Resolve guar_anything_item : guar.
Lemma gives_found_read {A} (f : DB → option doc) (k : option doc → CM A) Q T :
  gives (redis_read f) Q → (∀ raw, guar (WR anything) (found (k raw))) → (∀ raw, Q raw → gives (found (k raw)) T) →
  gives (found (redis_read f ≫= k)) T.
Proof.
  intros Hread Gk Hk. assert (∀ w, found (redis_read f ≫= k) w = ((redis_read f : CM _) ≫= λ raw, found (k raw)) w) as Heq.
  { intros w. unfold found, redis_read, redis_call, mbind, M_bind, attempt. by destruct (next_env w) as [[] w1]. }
  destruct (gives_bind _ _ Q T Hread Gk Hk) as [G HG]. split; intros w; rewrite Heq; [apply G|apply HG].
Qed.
Lemma gives_read_mine id' : trim_space id' = id → gives (found (readStoredRequest org id')) (λ r, r = Some s).
Proof.
  intros Hid. apply gives_found_read with (Q := λ raw, raw = Some (marshal s)); rewrite ?Hid; [by apply gives_read; intros d []|intros raw; unfold found; guar_auto|].
  intros raw ->. change (Some (marshal s) ≫= unmarshal) with (unmarshal (marshal s) : option storedRequest).
  rewrite unmarshal_marshal, bool_decide_true by done. by apply gives_ret.
Qed.
Lemma gives_item id' : gives (inbox_item p id') (λ r, trim_space id' = id → r = Some (notice (sr_Request s))).
Proof.
  destruct (base.decide (trim_space id' = id)) as [Hid|Hid].
  2: { destruct (gives_guar (inbox_item p id') (guar_anything_item id') (guar_item id' Hid)) as [G HG]. split; [done|].
       intros w w' a He Hp Hl Hrun. by destruct (HG w w' a He Hp Hl Hrun) as (? & ? & _). }
  unfold inbox_item. eapply gives_bind; [by apply gives_read_mine|intros r; guar_auto|]. intros r ->.
  rewrite Hawaiting, bool_decide_true by done. cbn [Terminal negb]. apply gives_now; [intros t; guar_auto|].
  intros t ->%Z.ltb_lt. by apply gives_ret.
Qed.
Lemma gives_items ids : gives (collectM (inbox_item p) ids) (λ l, id ∈ ids → notice (sr_Request s) ∈ l).
Proof.
  induction ids as [|id' ids IH]; cbn [collectM]; [apply gives_ret; by intros ?%elem_of_nil|].
  eapply gives_bind; [apply gives_item|intros r; guar_auto|]. intros r Hr.
  eapply gives_bind; [exact IH|intros l; guar_auto|]. intros l Hl. apply gives_ret.
  intros [<-|Hin]%elem_of_cons; [rewrite Hr by done; by left|]. destruct r; [right|]; auto.
Qed.

(** The inbox lists what is pending. *)
Lemma gives_Inbox : gives (Inbox p) (λ l, notice (sr_Request s) ∈ l).
Proof.
  unfold Inbox, checked, refuse_if.
  eapply gives_bind; [apply gives_lift|intros r; guar_auto|]. intros _ _.
  eapply gives_bind; [by apply (gives_read _ (λ _, True))|intros r; guar_auto|]. intros revoked _.
  eapply gives_bind; [apply gives_reject|intros r; guar_auto|]. intros _ _.
  eapply gives_bind; [apply gives_read with (Q := λ ids, id ∈ ids); by intros d []|intros r; guar_auto|]. intros ids Hids.
  eapply gives_bind; [apply gives_items|intros r; guar_auto|]. intros l Hl. apply gives_ret.
  rewrite (merge_sort_Permutation notice_le l). auto.
Qed.
End replay.

Local Open Scope nat_scope.

(** ** Sequences of hub actions *)

Section sequences.
Context {payload : Type}.
Abbreviation hub := (Hub (payload := payload)).
Abbreviation hub_act := (action (payload := payload)).

Lemma acts_app l1 l2 (h : hub) : acts (l1 ++ l2) h = acts l1 h ≫= acts l2.
Proof. revert h. induction l1 as [|a l1 IH]; intros h; [done|]. cbn [acts app]. destruct (act a h); [apply IH|done]. Qed.
Lemma taken_app c l1 l2 (h h1 : hub) : acts l1 h = Some h1 → taken c (l1 ++ l2) h = taken c l1 h ++ taken c l2 h1.
Proof.
  revert h. induction l1 as [|a l1 IH]; intros h; cbn [acts app taken]; [intros [= ->]; done|].
  destruct (act a h) as [h2|]; [|done]. cbn [mbind option_bind]. intros Hrun. rewrite (IH h2 Hrun).
  destruct a; try done. case_decide; [by rewrite app_assoc|done].
Qed.
(** The others leave the channel alone. *)
Definition leaves (c : nat) (l : list hub_act) : Prop := AReceive c ∉ l.
Lemma taken_leaves c l (h : hub) : leaves c l → taken c l h = [].
Proof.
  revert h. induction l as [|a l IH]; intros h; [done|]. intros [Ha Hl]%not_elem_of_cons. cbn [taken].
  destruct (act a h) as [h1|]; destruct a; try by rewrite ?IH.
  all: case_decide; [by subst|]. all: by rewrite ?IH.
Qed.
End sequences.

Section stream.
Context {DB : Type} `{RL : RedisLaws DB} `{UT : UnicodeTables}.
Abbreviation HM := (M (relay DB) outcome).
Implicit Types s : relay DB.

(** ** One call of the hub *)

Definition batch (s : relay DB) : list hub_action := default [] (head (rl_others s)).
Lemma others_step_acts s : hub_ok (rl_hub s) →
  acts (batch s) (rl_hub s) = Some (rl_hub (others_step s)) ∧ hub_ok (rl_hub (others_step s)) ∧
  rl_others (others_step s) = drop 1 (rl_others s) ∧ rl_world (others_step s) = rl_world s.
Proof.
  intros Hok. unfold batch, others_step. destruct (rl_others s) as [|l rest] eqn:Ho; cbn; [by rewrite Ho|].
  destruct (acts_ok l (rl_hub s) Hok) as (h & Hh & Hok'). by rewrite Hh.
Qed.
Lemma hub_call_run {A} (f : hub_state → option (A * hub_state)) s a h : f (rl_hub (others_step s)) = Some (a, h) →
  (hub_call f : HM A) s = (set_hub h (others_step s), inr a).
Proof. intros Hf. unfold hub_call. by rewrite Hf. Qed.


(** ** The loop *)

Definition ongoing (x : select) : bool := match x with SelectDone => true | SelectEvent w | SelectKeepalive w => w end.
(** What a stream delivers besides its keep-alives. *)
Definition delivered (l : list frame) : list frame := filter (λ f, f ≠ FrameKeepalive) l.

(** What the hub sees while the loop waits [n] times for its channel: each time
    one batch of the others, then the read of the loop. *)
Fixpoint reads (c : nat) (n : nat) (others : list (list hub_action)) : list hub_action :=
  match n with
  | 0 => []
  | S n => default [] (head others) ++ AReceive c :: reads c n (tail others)
  end.
(** How often a loop that is not ended by its channel waits for it. *)
Fixpoint waits (choices : list select) : nat :=
  match choices with
  | [] | SelectDone :: _ => 0
  | SelectKeepalive _ :: choices => waits choices
  | SelectEvent _ :: choices => S (waits choices)
  end.

Lemma tail_drop {A} (l : list A) : tail l = drop 1 l.
Proof. by destruct l. Qed.
Lemma head_leaves c (others : list (list hub_action)) : Forall (leaves c) others → leaves c (default [] (head others)).
Proof. intros Hl. destruct Hl; [by intros ?%elem_of_nil|done]. Qed.
Lemma set_hub_others h s : rl_others (set_hub h s) = rl_others s.
Proof. done. Qed.

(** From [s] to [s'] the loop read its channel [n] times and wrote [live]: it
    wrote what it took, and left what remains to the others. *)
Record streamed (c : nat) (s s' : relay DB) (n : nat) (live : list frame) : Prop := mkStreamed {
  sm_world : rl_world s' = rl_world s;
  sm_acts : acts (reads c n (rl_others s)) (rl_hub s) = Some (rl_hub s');
  sm_others : rl_others s' = drop n (rl_others s);
  sm_delivered : delivered live = delivered (ev_Payload <$> taken c (reads c n (rl_others s)) (rl_hub s)) }.

Lemma streamed_nil c s : streamed c s s 0 [].
Proof. by split. Qed.
(** The channel is closed: it has no subscriber any more. *)
Definition ended (c : nat) (h : hub_state) : Prop := ∀ key, c ∉ subs h key.
Lemma closed_ended c (h : hub_state) : hub_ok h → channel_next c h = Some None → ended c h.
Proof.
  intros Hok Hn key Hc. destruct (ok_open h Hok key c Hc) as (ch & Hch & Ho). unfold channel_next in Hn. rewrite Hch in Hn.
  destruct ch as [[|e rest] []]; done.
Qed.
Lemma receive_subs c (h : hub_state) key : subs (receive c h) key = subs h key.
Proof. unfold receive. destruct (channels h !! c) as [[[|e rest] closed]|]; done. Qed.

(** One read. *)
Lemma take_run c s : hub_ok (rl_hub s) → Forall (leaves c) (rl_others s) →
  let s1 := others_step s in let s2 := set_hub (receive c (rl_hub s1)) s1 in
  (take_event c : HM _) s = (s2, inr (channel_next c (rl_hub s1))) ∧ hub_ok (rl_hub s1) ∧ hub_ok (rl_hub s2) ∧
  streamed c s s2 1 (match channel_next c (rl_hub s1) with Some (Some e) => [ev_Payload e] | _ => [] end).
Proof.
  intros Hok Hl. cbv zeta. destruct (others_step_acts s Hok) as (Ha & Hok1 & Ho & Hw). unfold batch in Ha.
  pose proof (head_leaves c _ Hl) as Hb. set (s1 := others_step s) in *. split; [unfold take_event; by apply hub_call_run|].
  do 2 (split; [first [done|by apply receive_ok]|]). split; cbn [reads]; [done|by rewrite acts_app, Ha|done|].
  rewrite (taken_app c _ _ _ _ Ha), (taken_leaves c _ _ Hb). cbn [app taken act].
  rewrite decide_True, app_nil_r by done. unfold channel_next, next_of.
  by destruct (channels (rl_hub s1) !! c) as [[[|e rest] []]|].
Qed.
Lemma streamed_cons c s1 s2 s3 n f1 f2 :
  streamed c s1 s2 1 f1 → streamed c s2 s3 n f2 → streamed c s1 s3 (S n) (f1 ++ f2).
Proof.
  intros [Hw1 Ha1 Ho1 Hd1] [Hw2 Ha2 Ho2 Hd2]. rewrite Ho1, <- tail_drop in *.
  assert (reads c (S n) (rl_others s1) = reads c 1 (rl_others s1) ++ reads c n (tail (rl_others s1))) as Hr
    by (cbn [reads]; by rewrite <- app_assoc).
  split; rewrite ?Hr; [congruence|by rewrite acts_app, Ha1|by rewrite Ho2, tail_drop, drop_drop|].
  unfold delivered in *. by rewrite (taken_app c _ _ _ _ Ha1), fmap_app, !filter_app, Hd1, Hd2.
Qed.
Lemma streamed_loop c choices s : hub_ok (rl_hub s) → Forall (leaves c) (rl_others s) → forallb ongoing choices = true →
  ∃ s' live n, (events_loop c choices : HM _) s = (s', inr live) ∧ streamed c s s' n live ∧ hub_ok (rl_hub s') ∧
    (n = waits choices ∨ ended c (rl_hub s')).
Proof.
  revert s. induction choices as [|x choices IH]; intros s Hok Hl Hc; [exists s, [], 0; split_and!; [done|apply streamed_nil|done|by left]|].
  simpl in Hc. apply andb_true_iff in Hc as [Hx Hc]. destruct x as [|w|w]; cbn [events_loop ongoing waits] in *; subst.
  - exists s, [], 0. split_and!; [done|apply streamed_nil|done|by left].
  - destruct (take_run c s Hok Hl) as (Hrun & Hok1 & Hok2 & Hs1). set (s1 := others_step s) in *. set (s2 := set_hub _ s1) in *.
    unfold mbind, M_bind. rewrite Hrun. cbv beta iota.
    assert (Forall (leaves c) (rl_others s2)) as Hl2 by (destruct Hs1 as [_ _ -> _]; by apply Forall_drop).
    destruct (channel_next c (rl_hub s1)) as [[e|]|] eqn:Hnext; cbv beta iota.
    + destruct (IH s2 Hok2 Hl2 Hc) as (s3 & live & n & Hrun2 & Hs3 & Hok3 & Hn). rewrite Hrun2. eexists s3, _, (S n).
      split_and!; [done|by eapply (streamed_cons c s s2 s3 n [_])|done|destruct Hn as [->|]; auto].
    + exists s2, [], 1. split_and!; [done|done|done|]. right. intros key. unfold s2. simpl. rewrite receive_subs. by apply closed_ended.
    + destruct (IH s2 Hok2 Hl2 Hc) as (s3 & live & n & Hrun2 & Hs3 & Hok3 & Hn). exists s3, live, (S n).
      split_and!; [done|by eapply (streamed_cons c s s2 s3 n [])|done|destruct Hn as [->|]; auto].
  - destruct (IH s Hok Hl Hc) as (s1 & live & n & Hrun & Hs & Hok1 & Hn). unfold mbind, M_bind. rewrite Hrun.
    exists s1, (FrameKeepalive :: live), n. split_and!; [done| |done|done]. destruct Hs as [? ? ? Hd]. by split.
Qed.

(** ** The whole stream *)

Lemma write_pending_all oks l : forallb id oks = true → write_pending oks l = (true, FrameNotice <$> l).
Proof.
  revert oks. induction l as [|n l IH]; intros [|b oks] Hoks; cbn [write_pending]; [done|done|by rewrite IH|].
  simpl in Hoks. apply andb_true_iff in Hoks as [Hb Hoks]. unfold id in Hb. subst b. cbn [head tail default]. by rewrite (IH oks Hoks).
Qed.
Lemma revoked_stays org agent l (h h' : hub_state) : hub_ok h → acts l h = Some h' → IsRevoked org agent h = true → IsRevoked org agent h' = true.
Proof.
  unfold IsRevoked. intros Hok Hacts Hr%bool_decide_eq_true. apply bool_decide_eq_true.
  assert (silenced (hub_key org agent) ∅ h) as Hs by (split; [done|]; split; [by apply (ok_revoked h Hok)|intros c ?%elem_of_empty; done]).
  by apply (silenced_acts _ _ l h h' Hok Hacts) in Hs as [? _].
Qed.

(** Every write of the stream succeeds. *)
Definition client_reads (st : stream) : Prop :=
  st_Ready st = true ∧ forallb id (st_Pending st) = true ∧ forallb ongoing (st_Loop st) = true.
(** A request that was pending at the subscription, and stayed so, is replayed. *)
Definition replays (p : Principal) (w w' : world DB) (l : list RequestNotice) : Prop :=
  ∀ sr, trim_space (rq_RequestID (sr_Request sr)) = rq_RequestID (sr_Request sr) → rq_Status (sr_Request sr) = StatusAwaitingApproval →
    pending p sr (w_db w) → env_ok (stays_pending p sr) w → live_until sr w w' → notice (sr_Request sr) ∈ l.
(** What the hub sees from the subscription of a channel to the end of its
    loop: the others act before the check of the revocation, then before each
    of the [n] reads. *)
Definition history (c n : nat) (others : list (list hub_action)) : list hub_action :=
  default [] (head others) ++ reads c n (tail others).
(** The loop ran from the hub [h] with the batches [others] and the choices
    [choices], to the hub [h']; then the others act once more, the channel is
    cancelled and the hub is [h_end].  Whatever was taken from the channel was
    sent.  If the channel is open at the end of the loop, the loop has waited
    for it every time it could, and what is published to the agent meanwhile
    was sent in order or is still in the channel. *)
Definition gapless (key : string) (c : nat) (choices : list select) (h : hub_state) (others : list (list hub_action))
    (h_end : hub_state) (live : list frame) : Prop :=
  ∃ n h' owed, let l := history c n others in
    trace l h ∅ = Some (h', owed) ∧ acts (default [] (others !! S n) ++ [ACancel key c]) h' = Some h_end ∧
    delivered live = delivered (ev_Payload <$> taken c l h) ∧
    (served key c h' owed → n = waits choices ∧
       delivered live ++ delivered (ev_Payload <$> buffer c h') = delivered (ev_Payload <$> published key l)).

Lemma history_gapless key c (l : list hub_action) (h h' : hub_state) : hub_ok h → buffer c h = [] → (c < next_channel h)%nat →
  acts l h = Some h' → ∃ owed, trace l h ∅ = Some (h', owed) ∧
    (served key c h' owed → delivered (ev_Payload <$> taken c l h) ++ delivered (ev_Payload <$> buffer c h') = delivered (ev_Payload <$> published key l)).
Proof.
  intros Hok Hb Hc Ha. assert (∃ owed, trace l h ∅ = Some (h', owed)) as [owed Ht] by (rewrite trace_acts, Ha; by eexists).
  exists owed. split; [done|]. intros Hserved.
  assert (served key c h ∅) as Hserved0.
  { split; [|set_solver]. destruct (base.decide (c ∈ subs h key)) as [|Hno]; [done|]. exfalso.
    destruct (lost_trace l h ∅ h' owed key c Hok Ht) as [_ [Hl|Hl]]; [split; [done|by left]|by destruct Hserved..]. }
  pose proof (served_gapless l h h' ∅ owed key c Hok Hserved0 Ht Hserved) as Hg.
  rewrite Hb in Hg. cbn [app] in Hg. rewrite Hg, fmap_app. unfold delivered. by rewrite filter_app.
Qed.

Variable authenticate : http_request → M (world DB) (rerror AdminStore.serr) Principal.

Lemma principal_run r s w1 p : authenticate r (rl_world s) = (w1, inr p) → p_TokenKind p = TokenDevice →
  principal (Some authenticate) r s = (set_world w1 s, inr p).
Proof.
  intros Hauth Hkind. unfold principal. erewrite bind_run; [|unfold store_call; rewrite Hauth; done]. by rewrite bool_decide_true.
Qed.
(** The others act, then one of our calls that leaves the hub as it is. *)
Lemma hub_look_run {A} (f : hub_state → A) s :
  (hub_call (λ h, Some (f h, h)) : HM A) s = (others_step s, inr (f (rl_hub (others_step s)))).
Proof. unfold hub_call. cbv zeta. by destruct (others_step s). Qed.

Lemma drop_run key c s : hub_ok (rl_hub s) →
  ∃ s', (hub_call (λ h, (λ h', ((), h')) <$> dropSubscriber key c h) : HM ()) s = (s', inr ()) ∧ rl_world s' = rl_world s ∧
    acts (batch s ++ [ACancel key c]) (rl_hub s) = Some (rl_hub s') ∧
    ∀ org agent, IsRevoked org agent (rl_hub s) = true → IsRevoked org agent (rl_hub s') = true.
Proof.
  intros Hok. destruct (others_step_acts s Hok) as (Ha & Hok1 & _ & Hw). destruct (dropSubscriber_ok key c _ Hok1) as (h' & Hd & _).
  exists (set_hub h' (others_step s)). split; [apply hub_call_run; by rewrite Hd|]. split; [done|].
  assert (acts (batch s ++ [ACancel key c]) (rl_hub s) = Some h') as Hacts by (rewrite acts_app, Ha; cbn; by rewrite Hd).
  split; [done|]. intros org agent Hr. by apply (revoked_stays org agent (batch s ++ [ACancel key c]) (rl_hub s)).
Qed.
Lemma subscribed_channel org agent (h : hub_state) : hub_ok h → let h' := (Subscribe org agent h).2 in
  hub_ok h' ∧ (Subscribe org agent h).1 = next_channel h ∧ buffer (next_channel h) h' = [] ∧ (next_channel h < next_channel h')%nat.
Proof.
  intros Hok. split; [by apply Subscribe_ok|]. split; [done|]. unfold Subscribe, buffer.
  case_bool_decide; simpl; rewrite lookup_insert_eq; (split; [done|lia]).
Qed.

(** What the body of a stream writes, from a fresh subscription on, and the
    hub seen since. *)
Lemma events_body_run st p c s : hub_ok (rl_hub s) → client_reads st → Forall (leaves c) (rl_others s) →
  ∃ s' frames, events_body st p c s = (s', inr frames) ∧ hub_ok (rl_hub s') ∧
    (frames = [] ∧ IsRevoked (p_OrganizationID p) (p_AgentID p) (rl_hub s') = true ∨
     frames = [FrameReady] ∧ (∃ w e, Inbox p (rl_world s) = (w, inl e)) ∨
     ∃ l live n, frames = FrameReady :: (FrameNotice <$> l) ++ live ∧ Inbox p (rl_world s) = (rl_world s', inr l) ∧
       acts (history c n (rl_others s)) (rl_hub s) = Some (rl_hub s') ∧ rl_others s' = drop (S n) (rl_others s) ∧
       delivered live = delivered (ev_Payload <$> taken c (history c n (rl_others s)) (rl_hub s)) ∧
       (n = waits (st_Loop st) ∨ ended c (rl_hub s'))).
Proof.
  intros Hok (Hready & Hpend & Hloop) Hl. unfold events_body. rewrite (bind_run _ _ _ _ _ (hub_look_run _ s)).
  destruct (others_step_acts s Hok) as (Ha & Hok1 & Ho & Hw). unfold batch in Ha. pose proof (head_leaves c _ Hl) as Hb. set (s1 := others_step s) in *.
  assert (Forall (leaves c) (rl_others s1)) as Hl1 by (rewrite Ho; by apply Forall_drop).
  destruct (IsRevoked _ _ (rl_hub s1)) eqn:Hrev; [exists s1, []; split_and!; [done|done|by left]|].
  rewrite Hready. cbn [negb]. destruct (Inbox p (rl_world s)) as [w [e|l]] eqn:Hinbox.
  - erewrite bind_run by (unfold attempt, collab_call, store_call; rewrite Hw, Hinbox; done). eexists _, _. split; [done|]. split; [done|].
    right; left. split; [done|by exists w, e].
  - erewrite bind_run by (unfold attempt, collab_call, store_call; rewrite Hw, Hinbox; done). cbv beta iota.
    rewrite (write_pending_all _ _ Hpend). cbv beta iota. set (s2 := set_world w s1).
    destruct (streamed_loop c (st_Loop st) s2 Hok1 Hl1 Hloop) as (s3 & live & n & Hrun & [Hw3 Ha3 Ho3 Hd3] & Hok3 & Hn). rewrite (bind_run _ _ _ _ _ Hrun).
    change (rl_hub s2) with (rl_hub s1) in *. change (rl_others s2) with (rl_others s1) in *. rewrite Ho, <- tail_drop in *.
    exists s3, (FrameReady :: (FrameNotice <$> l) ++ live). split; [done|]. split; [done|]. right; right.
    exists l, live, n. split_and!; [done|by rewrite Hw3|unfold history; by rewrite acts_app, Ha|by rewrite Ho3, tail_drop, drop_drop| |done].
    unfold history. by rewrite (taken_app c _ _ _ _ Ha), (taken_leaves c _ _ Hb), Hd3.
Qed.

(** C19. A stream of events misses nothing.  A device opens a stream, its
    writes succeed, and other goroutines and other Redis clients act meanwhile
    in any order.  The exchange ends without a panic, and either its agent is
    revoked, or the inbox could not be read and the stream was ended at once,
    or: every request that was pending at the subscription, and stayed so and
    alive, was sent first; after that, every event taken from the channel was
    sent; and if the channel was not closed or overflowed by the end of the
    loop, the loop has waited for it each time it was ready, and every event
    published to the agent since the subscription was sent, in order, or is
    still in the channel. *)
Theorem stream_misses_nothing st r s w1 p :
  hub_ok (rl_hub s) → authenticate r (rl_world s) = (w1, inr p) → p_TokenKind p = TokenDevice → client_reads st →
  Forall (leaves (next_channel (rl_hub (others_step s)))) (drop 1 (rl_others s)) →
  let key := hub_key (p_OrganizationID p) (p_AgentID p) in
  let c := next_channel (rl_hub (others_step s)) in
  ∃ s' frames, events (Some authenticate) st r s = (s', inr (mkResponse 200 stream_headers (ReplyStream frames))) ∧
    (frames = [] ∧ IsRevoked (p_OrganizationID p) (p_AgentID p) (rl_hub s') = true ∨
     frames = [FrameReady] ∧ (∃ w e, Inbox p w1 = (w, inl e)) ∨
     ∃ l live, frames = FrameReady :: (FrameNotice <$> l) ++ live ∧ replays p w1 (rl_world s') l ∧
       gapless key c (st_Loop st) (Subscribe (p_OrganizationID p) (p_AgentID p) (rl_hub (others_step s))).2 (drop 1 (rl_others s))
         (rl_hub s') live).
Proof.
  intros Hok Hauth Hkind Hreads Hleave key c.
  unfold events. rewrite (bind_run _ _ _ _ _ (principal_run r s w1 p Hauth Hkind)).
  set (s1 := set_world w1 s). destruct (others_step_acts s1 Hok) as (_ & Hok1 & Ho1 & Hw1).
  assert (others_step s1 = set_world w1 (others_step s)) as He by (unfold others_step, s1; cbn; by destruct (rl_others s)).
  erewrite bind_run by (unfold hub_call; done). rewrite He in *. cbv zeta in *. fold c.
  destruct (subscribed_channel (p_OrganizationID p) (p_AgentID p) _ Hok1) as (Hok2 & _ & Hb & Hc).
  set (s2 := set_hub _ (set_world w1 (others_step s))).
  assert (rl_others s2 = drop 1 (rl_others s)) as Ho2 by exact Ho1.
  destruct (events_body_run st p c s2) as (s3 & frames & Hrun & Hok3 & Hout); [done|done|by rewrite Ho2|].
  change ((Subscribe _ _ _).1) with c. rewrite (bind_run _ _ _ _ _ Hrun).
  destruct (drop_run key c s3 Hok3) as (s' & Hdrop & Hw' & Hend & Hrev). rewrite (bind_run _ _ _ _ _ Hdrop).
  exists s', frames. split; [done|].
  destruct Hout as [[-> Hr]|[Hout|(l & live & n & -> & Hinbox & Ha & Ho3 & Hd & Hn)]]; [left; auto|by right; left|right; right].
  exists l, live. split; [done|]. rewrite Ho2 in *. split.
  - intros sr Htrim Hst Hp Henv Hlive. rewrite Hw' in Hlive. by eapply (gives_Inbox p sr Htrim Hst).
  - destruct (history_gapless key c _ (rl_hub s2) _ Hok2 Hb Hc Ha) as (owed & Ht & Hserved).
    exists n, (rl_hub s3), owed. cbv zeta. split; [done|]. split.
    { rewrite <- Hend. unfold batch. by rewrite Ho3, head_lookup, !lookup_drop, Nat.add_0_r. }
    split; [done|]. intros Hs. rewrite Hd. split; [|auto]. destruct Hn as [|Hn]; [done|]. destruct Hs as [Hs _]. by destruct (Hn key).
Qed.
End stream.
