(* ===== verification/Sse.v ===== *)
(** * The event stream as text

    The frames a stream of events writes ([writeSSE] and [events] of
    [collaboration/handler.go]), and the reader of the client ([StreamEvents]
    of [client/client.go]), which cuts the text into lines as [bufio.Scanner]
    does. *)

From S2P Require Import Prelude GoString Protocol Json Http.
From Stdlib Require Import Ascii.

Local Open Scope Z_scope.

Definition newline : string := String.String (byte_of 10) "".

(** ** Writing *)

(** What one write of the stream sends. *)
Inductive sse_item := SseEvent (event_type : string) (payload : json) | SseComment (text : string).
Definition writeSSE (event_type : string) (payload : json) : string :=
  "event: " +:+ event_type +:+ newline +:+ "data: " +:+ json_text payload +:+ newline +:+ newline.
Definition item_text (i : sse_item) : string :=
  match i with
  | SseEvent event_type payload => writeSSE event_type payload
  | SseComment text => ": " +:+ text +:+ newline +:+ newline
  end.
(** The first frame and the keep-alive of [events]. *)
Definition ready_item : sse_item := SseEvent "ready" (JObj [("api_version", JStr "v1")]).
Definition keepalive_item : sse_item := SseComment "keepalive".

(** The payloads of the relay; [time_text] is the [RFC3339Nano] text of a
    [time.Time]. *)
Section frames.
Variable time_text : time → string.
Definition json_descriptor (a : ArtifactDescriptor) : json :=
  JObj [("artifact_id", JStr (ad_ArtifactID a)); ("name", JStr (ad_Name a)); ("mime_type", JStr (ad_MIMEType a));
        ("size_bytes", JNum (ad_SizeBytes a)); ("sha256", JStr (ad_SHA256 a))].
Definition json_notice (n : RequestNotice) : json :=
  JObj ([("request_id", JStr (nt_RequestID n)); ("conversation_id", JStr (nt_ConversationID n));
         ("status", JStr (status_string (nt_Status n))); ("requester_agent_id", JStr (nt_RequesterAgentID n))]
        ++ opt_str "requester_member_id" (nt_RequesterMemberID n)
        ++ [("requester_display_name", JStr (nt_RequesterDisplayName n)); ("title", JStr (nt_Title n));
            ("prompt_preview", JStr (nt_PromptPreview n)); ("prompt_bytes", JNum (nt_PromptBytes n));
            ("prompt_sha256", JStr (nt_PromptSHA256 n))]
        ++ opt_arr "requested_access" (json_access <$> nt_RequestedAccess n)
        ++ opt_arr "attachments" (json_descriptor <$> nt_Attachments n)
        ++ [("created_at", JStr (time_text (nt_CreatedAt n))); ("expires_at", JStr (time_text (nt_ExpiresAt n)))]
        ++ (if nt_ResumesSession n then [("resumes_session", JBool true)] else [])).
(** A Go map is encoded in the order of its keys. *)
Definition json_cancelled (requestID conversationID : string) : json :=
  JObj [("conversation_id", JStr conversationID); ("request_id", JStr requestID)].
Definition frame_item (f : frame) : sse_item :=
  match f with
  | FrameReady => ready_item
  | FrameNotice n => SseEvent "peer_request" (json_notice n)
  | FrameCancelled requestID conversationID => SseEvent "peer_cancelled" (json_cancelled requestID conversationID)
  | FrameKeepalive => keepalive_item
  end.
(** The body of a response that streams these frames. *)
Definition stream_text (frames : list frame) : string := concat_strings (item_text <$> (frame_item <$> frames)).
End frames.

(** ** Lines *)

(** [scanner.Buffer(make([]byte, 4096), 1<<20)] *)
Definition maximum_line : Z := 1048576.
(** [io.LimitReader(resp.Body, 64<<20)] *)
Definition maximum_stream : Z := 67108864.

(** [bufio.ScanLines]: a line without its end; [line] is in reverse. *)
Definition drop_cr (line : list ascii) : list ascii :=
  match line with c :: line' => if byte_val c =? 13 then line' else line | [] => [] end.
Definition line_text (line : list ascii) : string := String.string_of_list_ascii (reverse (drop_cr line)).
(** The lines of a text that ends, and whether every line fits the buffer.
    The last line may lack its end. *)
Fixpoint scan_lines (n : Z) (line : list ascii) (s : string) : list string * bool :=
  match s with
  | EmptyString => (match line with [] => [] | _ => [line_text line] end, true)
  | String.String c s' =>
    if byte_val c =? 10 then let (lines, fit) := scan_lines 0 [] s' in (line_text line :: lines, fit)
    else if n + 1 =? maximum_line then ([], false) else scan_lines (n + 1) (c :: line) s'
  end.

(** [io.LimitReader] *)
Fixpoint limit_reader (left : Z) (s : string) : string :=
  match s with
  | EmptyString => EmptyString
  | String.String c s' => if left <=? 0 then EmptyString else String.String c (limit_reader (left - 1) s')
  end.

(** ** Reading *)

Record Event := mkEvent { ev_Type : string; ev_Data : string }.
#[export] Instance Event_eq_dec : EqDecision Event.
Proof. solve_decision. Defined.

(** [eventType] and [data] of the loop. *)
Record partial := mkPartial { pt_Type : string; pt_Data : string }.
Definition nothing : partial := mkPartial "" "".

(** [StreamEvents] ends with an error of its callback, of the scanner, or of
    the connection. *)
Inductive stream_error (E : Type) := CallbackError (e : E) | LineTooLong | ReadError.
Arguments CallbackError {_}. Arguments LineTooLong {_}. Arguments ReadError {_}.

Section reader.
Context {St E : Type}.
Variable onEvent : Event → M St E ().
Abbreviation SM := (M St (stream_error E)).

Definition deliver (e : Event) : SM () := λ s, let (s', r) := onEvent e s in (s', match r with inl e => inl (CallbackError e) | inr u => inr u end).
(** The closure [flush]. *)
Definition flush (pt : partial) : SM partial :=
  if bool_decide (pt_Data pt = "") then mret nothing else
  deliver (mkEvent (if bool_decide (pt_Type pt = "") then "message" else pt_Type pt) (pt_Data pt)) ≫= λ _,
  mret nothing.
(** One iteration of the loop. *)
Definition take_line (line : string) (pt : partial) : SM partial :=
  if bool_decide (line = "") then flush pt else
  if has_prefix line ":" then mret pt else
  if has_prefix line "event:" then mret (mkPartial (trim_space (drop_bytes 6 line)) (pt_Data pt)) else
  if has_prefix line "data:" then
    let fragment := trim_space (drop_bytes 5 line) in
    mret (mkPartial (pt_Type pt) (if bool_decide (pt_Data pt = "") then fragment else pt_Data pt +:+ newline +:+ fragment))
  else mret pt.
Fixpoint take_lines (lines : list string) (pt : partial) : SM partial :=
  match lines with [] => mret pt | line :: lines => take_line line pt ≫= take_lines lines end.

(** The body of a response, until it ends or, with [broken], fails. *)
Definition StreamEvents (body : string) (broken : bool) : SM () :=
  let (lines, fit) := scan_lines 0 [] (limit_reader maximum_stream body) in
  pt ← take_lines lines nothing;
  if negb fit then throw LineTooLong else
  if broken && (len body <? maximum_stream) then throw ReadError else
  flush pt ≫= λ _, mret ().
End reader.

(** The callback that records what it is given. *)
Definition record_event (e : Event) : M (list Event) False () := λ l, (l ++ [e], inr ()).
Definition received (body : string) (broken : bool) : list Event * (stream_error False + ()) := StreamEvents record_event body broken [].

Example stream_sample :
  received (item_text ready_item +:+ item_text keepalive_item +:+ item_text (SseEvent "peer_cancelled" (JObj [("request_id", JStr "r")]))) false =
  ([mkEvent "ready" (json_text (JObj [("api_version", JStr "v1")])); mkEvent "peer_cancelled" (json_text (JObj [("request_id", JStr "r")]))], inr ()).
Proof. vm_compute. reflexivity. Qed.
