(* ===== verification/SseProofs.v ===== *)
(** * What is written to a stream is what is received

    The reader of the client on the text of the relay: line by line, message
    by message, and when the connection ends anywhere. *)

From S2P Require Import Prelude GoString Sha256 GoStringFacts Protocol Json RedactFacts Http Sse.
From stdpp Require Import pretty.
From Stdlib Require Import Ascii.

Local Open Scope Z_scope.

(** ** JSON text is one line *)

Definition visible (c : ascii) : Prop := 32 <= byte_val c.
Definition one_row (s : string) : Prop := Forall visible (bytes s).
Lemma one_row_app a b : one_row (a +:+ b) ↔ one_row a ∧ one_row b.
Proof. unfold one_row. by rewrite bytes_app, Forall_app. Qed.
Lemma one_row_concat l : one_row (concat_strings l) ↔ Forall one_row l.
Proof.
  induction l as [|s l IH]; [split; constructor|]. change (concat_strings (s :: l)) with (s +:+ concat_strings l).
  by rewrite one_row_app, IH, Forall_cons.
Qed.
Lemma one_row_join sep l : one_row sep → Forall one_row l → one_row (GoString.join sep l).
Proof.
  intros Hsep. induction l as [|s l IH]; intros Hl; [constructor|]. apply Forall_cons in Hl as [Hs Hl]. destruct l as [|s' l]; [done|].
  change (GoString.join sep (s :: s' :: l)) with (s +:+ sep +:+ GoString.join sep (s' :: l)). rewrite !one_row_app. auto.
Qed.
Lemma visible_byte z : 32 <= z < 256 → visible (byte_of z).
Proof. intros Hz. unfold visible. rewrite byte_val_of; lia. Qed.
Lemma hex_visible z : 0 <= z < 16 → visible (hex_digit z).
Proof. intros Hz. unfold hex_digit. apply visible_byte. case_match; lia. Qed.

(** A rune of a string is one byte below 128, or made of bytes above. *)
Lemma rune_bytes s : s ≠ EmptyString →
  (∃ c, take_bytes (decode_rune s).2 s = String.String c "" ∧ (decode_rune s).1 = byte_val c) ∨
  Forall (λ c, 128 <= byte_val c) (bytes (take_bytes (decode_rune s).2 s)).
Proof.
  intros Hs. destruct s as [|c0 [|c1 [|c2 [|c3 s4]]]]; [done|..]; unfold decode_rune, is_cont, in_range;
    repeat case_match; orb_split; cbn [snd fst take_bytes]; try (left; by eexists); right;
    repeat apply Forall_cons_2; try apply Forall_nil_2; lia.
Qed.
Lemma masked_digit z : 0 <= Z.land z 15 < 16.
Proof. change 15 with (Z.ones 4). rewrite Z.land_ones by lia. apply Z.mod_pos_bound. lia. Qed.
Lemma escape_u_row r : one_row (escape_u r).
Proof.
  unfold escape_u. rewrite !one_row_app. split_and!; (repeat apply Forall_cons_2; try apply Forall_nil_2);
    try (apply hex_visible, masked_digit); by vm_compute.
Qed.
Lemma escape_row s : s ≠ EmptyString → one_row (escape_rune ((decode_rune s).1, take_bytes (decode_rune s).2 s)).
Proof.
  intros Hs. unfold escape_rune. destruct (rune_bytes s Hs) as [(c & -> & ->)|Hhigh].
  - repeat (case_match; [try apply escape_u_row; apply (bool_decide_unpack _); by vm_compute|]). orb_split.
    apply Forall_cons_2; [unfold visible; lia|apply Forall_nil_2].
  - repeat (case_match; [try apply escape_u_row; apply (bool_decide_unpack _); by vm_compute|]).
    eapply Forall_impl; [exact Hhigh|]. unfold visible. intros c. simpl. lia.
Qed.
Lemma json_string_row s : one_row (json_string s).
Proof.
  unfold json_string. rewrite !one_row_app, one_row_concat. split_and!; try (apply Forall_cons_2; [by vm_compute|apply Forall_nil_2]).
  induction s as [|s Hs IH] using segments_ind; [constructor|]. rewrite segments_cons by done. constructor; [by apply escape_row|done].
Qed.
Lemma digit_row (n : N) s : one_row s → one_row (pretty_N_go n s).
Proof.
  revert s. induction (N.lt_wf_0 n) as [n _ IH]. intros s Hs. destruct (N.eq_dec n 0%N) as [->|Hn]; [done|].
  rewrite pretty_N_go_step by lia. apply IH; [apply N.div_lt; lia|]. apply Forall_cons_2; [|done].
  unfold pretty_N_char. repeat case_match; by vm_compute.
Qed.
Lemma pretty_row (z : Z) : one_row (pretty z).
Proof.
  assert (∀ n : N, one_row (pretty n)) as Hn.
  { intros n. unfold pretty, pretty_N. case_decide; [apply Forall_cons_2; [by vm_compute|apply Forall_nil_2]|]. apply digit_row, Forall_nil_2. }
  unfold pretty, pretty_Z. destruct z; [apply Forall_cons_2; [by vm_compute|apply Forall_nil_2]|apply Hn|].
  apply Forall_cons_2; [by vm_compute|apply Hn].
Qed.

Lemma json_text_row : ∀ j, one_row (json_text j).
Proof.
  fix IH 1. intros [b|z|s| |l|fs]; cbn [json_text].
  - apply (bool_decide_unpack _). destruct b; by vm_compute.
  - apply pretty_row.
  - apply json_string_row.
  - apply (bool_decide_unpack _). by vm_compute.
  - rewrite !one_row_app. split_and!; [apply (bool_decide_unpack _); by vm_compute| |apply (bool_decide_unpack _); by vm_compute].
    apply one_row_join; [apply (bool_decide_unpack _); by vm_compute|]. induction l as [|j l IHl]; constructor; [apply IH|apply IHl].
  - rewrite !one_row_app. split_and!; [apply (bool_decide_unpack _); by vm_compute| |apply (bool_decide_unpack _); by vm_compute].
    apply one_row_join; [apply (bool_decide_unpack _); by vm_compute|]. induction fs as [|[k j] fs IHl]; constructor; [|apply IHl].
    cbn [fst snd]. rewrite !one_row_app. split_and!; [apply json_string_row|apply (bool_decide_unpack _); by vm_compute|apply IH].
Qed.

(** ** Trimming *)

Definition solid (c : ascii) : Prop := byte_val c < 128 ∧ is_space (byte_val c) = false.
(** A text between two solid bytes has nothing to trim. *)
Lemma trim_solid c m d : solid c → solid d → trim_space (String.String c (m +:+ String.String d "")) = String.String c (m +:+ String.String d "").
Proof.
  intros [Hc Hcs] [Hd Hds]. unfold trim_space.
  assert (segments (String.String c (m +:+ String.String d "")) = (byte_val c, String.String c "") :: segments m ++ [(byte_val d, String.String d "")]) as Hseg.
  { rewrite segments_ascii, segments_app by done. by rewrite segments_ascii. }
  rewrite Hseg.
  rewrite drop_while_id by done. rewrite app_comm_cons, drop_while_end_snoc. cbn [fst]. rewrite Hds, <- app_comm_cons, <- Hseg.
  apply concat_segments.
Qed.
Lemma trim_blank s : trim_space (String.String " " s) = trim_space s.
Proof. unfold trim_space. rewrite segments_ascii by (by vm_compute). done. Qed.
Lemma trim_blank_app s : trim_space (" " +:+ s) = trim_space s.
Proof. apply trim_blank. Qed.
Lemma trim_object fs : trim_space (json_text (JObj fs)) = json_text (JObj fs).
Proof. apply (trim_solid (byte_of 123) _ (byte_of 125)); by vm_compute. Qed.

(** ** Lines *)

Abbreviation scan := (scan_lines 0 []).
Lemma line_text_row line : one_row (String.string_of_list_ascii (reverse line)) → line_text line = String.string_of_list_ascii (reverse line).
Proof.
  unfold line_text. destruct line as [|c line]; [done|]. intros Hl. cbn [drop_cr]. case_match eqn:Hc; [|done]. exfalso.
  unfold one_row, bytes in Hl. rewrite String.list_ascii_of_string_of_list_ascii, reverse_cons, Forall_app, Forall_singleton in Hl.
  destruct Hl as [_ Hl]. unfold visible in Hl. lia.
Qed.
(** The line read so far, then the rest of it. *)
Definition grown (line : list ascii) (l : string) : list ascii := reverse (bytes l) ++ line.
Lemma grown_cons line c l : grown line (String.String c l) = grown (c :: line) l.
Proof. unfold grown, bytes. cbn [String.list_ascii_of_string]. by rewrite reverse_cons, <- app_assoc. Qed.
Lemma grown_text l : String.string_of_list_ascii (reverse (grown [] l)) = l.
Proof. unfold grown, bytes. by rewrite app_nil_r, reverse_involutive, String.string_of_list_ascii_of_string. Qed.

Lemma scan_grow l n line s : one_row l → 0 <= n → n + len l < maximum_line →
  scan_lines n line (l +:+ String.String (byte_of 10) s) = (line_text (grown line l) :: (scan s).1, (scan s).2).
Proof.
  revert n line. induction l as [|c l IH]; intros n line Hl Hn Hlen.
  - change ("" +:+ String.String (byte_of 10) s) with (String.String (byte_of 10) s). cbn [scan_lines]. rewrite byte_val_of by lia.
    cbn [Z.eqb Pos.eqb]. by destruct (scan s).
  - apply Forall_cons in Hl as [Hc Hl]. change (String.String c l +:+ ?x) with (String.String c (l +:+ x)). cbn [scan_lines].
    unfold visible in Hc. rewrite (proj2 (Z.eqb_neq (byte_val c) 10)) by lia. unfold len in *. cbn [String.length] in Hlen.
    rewrite (proj2 (Z.eqb_neq (n + 1) maximum_line)) by lia. rewrite IH by (try done; unfold len; lia). by rewrite grown_cons.
Qed.
Lemma scan_row l s : one_row l → len l < maximum_line → scan (l +:+ String.String (byte_of 10) s) = (l :: (scan s).1, (scan s).2).
Proof. intros Hl Hlen. rewrite scan_grow by (unfold len in *; done || lia). by rewrite line_text_row, grown_text; [|rewrite grown_text]. Qed.
Lemma scan_grow_end l n line : one_row l → 0 <= n → n + len l < maximum_line →
  scan_lines n line l = (match grown line l with [] => [] | x => [line_text x] end, true).
Proof.
  revert n line. induction l as [|c l IH]; intros n line Hl Hn Hlen; [by destruct line|]. apply Forall_cons in Hl as [Hc Hl]. cbn [scan_lines].
  unfold visible in Hc. rewrite (proj2 (Z.eqb_neq (byte_val c) 10)) by lia. unfold len in *. cbn [String.length] in Hlen.
  rewrite (proj2 (Z.eqb_neq (n + 1) maximum_line)) by lia. rewrite IH by (try done; unfold len; lia). by rewrite grown_cons.
Qed.
Lemma scan_end l : one_row l → len l < maximum_line → scan l = (if bool_decide (l = "") then [] else [l], true).
Proof.
  intros Hl Hlen. rewrite scan_grow_end by (unfold len in *; done || lia). destruct l as [|c l]; [done|]. rewrite bool_decide_false by done.
  destruct (grown [] (String.String c l)) as [|x y] eqn:Hg.
  - exfalso. pose proof (grown_text (String.String c l)) as Ht. by rewrite Hg in Ht.
  - rewrite <- Hg. by rewrite line_text_row, grown_text; [|rewrite grown_text].
Qed.

(** ** Messages *)

(** The loop with the recording callback, as a function. *)
Definition flush_events (pt : partial) : list Event :=
  if bool_decide (pt_Data pt = "") then [] else [mkEvent (if bool_decide (pt_Type pt = "") then "message" else pt_Type pt) (pt_Data pt)].
Definition line_step (line : string) (pt : partial) : partial * list Event :=
  if bool_decide (line = "") then (nothing, flush_events pt) else
  if has_prefix line ":" then (pt, []) else
  if has_prefix line "event:" then (mkPartial (trim_space (drop_bytes 6 line)) (pt_Data pt), []) else
  if has_prefix line "data:" then
    let fragment := trim_space (drop_bytes 5 line) in
    (mkPartial (pt_Type pt) (if bool_decide (pt_Data pt = "") then fragment else pt_Data pt +:+ newline +:+ fragment), [])
  else (pt, []).
Fixpoint line_steps (lines : list string) (pt : partial) : partial * list Event :=
  match lines with
  | [] => (pt, [])
  | line :: lines => let (pt1, e1) := line_step line pt in let (pt2, e2) := line_steps lines pt1 in (pt2, e1 ++ e2)
  end.
Lemma flush_record pt l : flush record_event pt l = (l ++ flush_events pt, inr nothing).
Proof. unfold flush, flush_events. case_bool_decide; [by rewrite app_nil_r|done]. Qed.
Lemma take_line_record line pt l : take_line record_event line pt l = (l ++ (line_step line pt).2, inr (line_step line pt).1).
Proof. unfold take_line, line_step. repeat (case_bool_decide || case_match); rewrite ?flush_record; simpl; by rewrite ?app_nil_r. Qed.
Lemma take_lines_record lines pt l : take_lines record_event lines pt l = (l ++ (line_steps lines pt).2, inr (line_steps lines pt).1).
Proof.
  revert pt l. induction lines as [|line lines IH]; intros pt l; cbn [take_lines line_steps]; [by rewrite app_nil_r|].
  unfold mbind, M_bind. rewrite take_line_record. destruct (line_step line pt) as [pt1 e1]. cbn [fst snd]. rewrite IH.
  destruct (line_steps lines pt1) as [pt2 e2]. cbn [fst snd]. by rewrite app_assoc.
Qed.
Lemma line_steps_app l1 l2 pt : line_steps (l1 ++ l2) pt =
  ((line_steps l2 (line_steps l1 pt).1).1, (line_steps l1 pt).2 ++ (line_steps l2 (line_steps l1 pt).1).2).
Proof.
  revert pt. induction l1 as [|line l1 IH]; intros pt; cbn [app line_steps fst snd]; [by destruct (line_steps l2 pt)|].
  destruct (line_step line pt) as [pt1 e1]. rewrite IH. destruct (line_steps l1 pt1) as [pt2 e2]. cbn [fst snd]. by rewrite app_assoc.
Qed.

(** Items that fit. *)
Definition item_ok (i : sse_item) : Prop :=
  match i with
  | SseEvent event_type payload => one_row event_type ∧ trim_space event_type = event_type ∧ event_type ≠ "" ∧ (∃ fs, payload = JObj fs) ∧
      len event_type + 7 < maximum_line ∧ len (json_text payload) + 6 < maximum_line
  | SseComment text => one_row text ∧ len text + 2 < maximum_line
  end.
Definition item_lines (i : sse_item) : list string :=
  match i with
  | SseEvent event_type payload => ["event: " +:+ event_type; "data: " +:+ json_text payload; ""]
  | SseComment text => [": " +:+ text; ""]
  end.
Definition item_events (i : sse_item) : list Event :=
  match i with SseEvent event_type payload => [mkEvent event_type (json_text payload)] | SseComment _ => [] end.

Lemma literal_row s x : forallb (λ c, 32 <=? byte_val c) (bytes s) = true → one_row x → one_row (s +:+ x).
Proof. intros Hs Hx. apply one_row_app. split; [|done]. apply Forall_forall. intros c Hc. rewrite forallb_forall in Hs. apply list_elem_of_In, Hs in Hc. unfold visible. lia. Qed.
Lemma len_app a b : len (a +:+ b) = len a + len b.
Proof. unfold len. rewrite length_string_app. lia. Qed.
Lemma app_empty (a : string) : a +:+ "" = a.
Proof. induction a as [|c a IH]; [done|]. by rewrite string_cons_app, IH. Qed.
(** The part of the data that a cut line still holds. *)
Lemma data_step pt m x : pt_Data pt = "" →
  line_step (take_bytes m ("data: " +:+ x)) pt = (nothing, []) ∧ m = 0%nat ∨
  line_step (take_bytes m ("data: " +:+ x)) pt = (mkPartial (pt_Type pt) (trim_space (take_bytes (m - 6) x)), []) ∨
  line_step (take_bytes m ("data: " +:+ x)) pt = (pt, []).
Proof.
  intros Hpt. destruct m as [|[|[|[|[|[|m]]]]]]; [left|by right; right|by right; right|by right; right|by right; right|right; left|right; left].
  - split; [|done]. unfold line_step, flush_events. by rewrite (bool_decide_true (pt_Data pt = "")) by done.
  - unfold line_step. simpl. by rewrite (bool_decide_true (pt_Data pt = "")).
  - unfold line_step. simpl. by rewrite (bool_decide_true (pt_Data pt = "")), trim_blank, Nat.sub_0_r.
Qed.

Lemma take_bytes_app_gt n a b : (String.length a < n)%nat →
  take_bytes n (a +:+ b) = a +:+ take_bytes (n - String.length a) b.
Proof.
  revert n. induction a as [|c a IH]; intros n Hn; simpl in Hn; [by rewrite Nat.sub_0_r|].
  destruct n as [|n]; [lia|]. change (String.String c a +:+ b) with (String.String c (a +:+ b)). simpl. by rewrite IH by lia.
Qed.
Lemma one_row_take n s : one_row s → one_row (take_bytes n s).
Proof. intros Hs. rewrite <- (take_drop_bytes n s), one_row_app in Hs. by destruct Hs. Qed.
Lemma len_take n s : len (take_bytes n s) <= len s.
Proof. unfold len. rewrite length_take_bytes. lia. Qed.
Lemma newline_app s : newline +:+ s = String.String (byte_of 10) s.
Proof. done. Qed.

Lemma event_line t : one_row t → trim_space t = t → t ≠ "" → ∀ m pt, line_step (take_bytes m ("event: " +:+ t)) pt =
  (nothing, flush_events pt) ∧ m = 0%nat ∨ ∃ t', line_step (take_bytes m ("event: " +:+ t)) pt = (mkPartial t' (pt_Data pt), []).
Proof.
  intros Hrow Htrim Hne m pt. destruct m as [|[|[|[|[|[|[|m]]]]]]]; [left|right..];
    try (exists (pt_Type pt); by destruct pt); try (split; [|done]; done); eexists; unfold line_step; by simpl.
Qed.
Lemma event_line_full t pt : trim_space t = t → line_step ("event: " +:+ t) pt = (mkPartial t (pt_Data pt), []).
Proof. intros Ht. unfold line_step. simpl. by rewrite trim_blank_app, Ht. Qed.
Lemma data_line_full j pt : pt_Data pt = "" → trim_space (json_text j) = json_text j →
  line_step ("data: " +:+ json_text j) pt = (mkPartial (pt_Type pt) (json_text j), []).
Proof. intros Hpt Hj. unfold line_step. simpl. by rewrite (bool_decide_true (pt_Data pt = "")), trim_blank_app, Hj. Qed.
Lemma blank_line pt : line_step "" pt = (nothing, flush_events pt).
Proof. done. Qed.

Lemma object_ne fs : json_text (JObj fs) ≠ "".
Proof. done. Qed.
Lemma item_steps i : item_ok i → line_steps (item_lines i) nothing = (nothing, item_events i).
Proof.
  destruct i as [t p|c]; cbn [item_ok item_lines item_events line_steps].
  - intros (_ & Ht & Hne & (fs & ->) & _). rewrite event_line_full by done. cbn [pt_Data nothing].
    rewrite data_line_full by (done || apply trim_object). rewrite blank_line. unfold flush_events. cbn [pt_Type pt_Data].
    by rewrite !bool_decide_false by (done || apply object_ne).
  - intros _. done.
Qed.
(** *** The lines of a text, whole or cut *)

Definition rows (lines : list string) (s : string) : string := foldr (λ line r, line +:+ String.String (byte_of 10) r) s lines.
Definition row_ok (line : string) : Prop := one_row line ∧ len line < maximum_line.
Lemma scan_rows lines s : Forall row_ok lines → scan (rows lines s) = (lines ++ (scan s).1, (scan s).2).
Proof. induction 1 as [|line lines [Hr Hl] _ IH]; cbn [rows foldr app]; [by destruct (scan s)|]. rewrite scan_row by done. fold (rows lines s). by rewrite IH. Qed.
Lemma scan_cut lines n : Forall row_ok lines → (n < String.length (rows lines ""))%nat → ∃ l1 line l2 m, lines = l1 ++ line :: l2 ∧
  scan (take_bytes n (rows lines "")) = (l1 ++ (if bool_decide (take_bytes m line = "") then [] else [take_bytes m line]), true).
Proof.
  intros Hok. revert n. induction Hok as [|line lines [Hr Hl] Hok IH]; intros n; cbn [rows foldr]; [simpl; lia|]. fold (rows lines "").
  rewrite length_string_app. cbn [String.length]. intros Hn. destruct (decide (n ≤ String.length line)%nat) as [Hle|Hgt].
  - exists [], line, lines, n. split; [done|]. rewrite take_app_le_bytes by done. rewrite scan_end; [done|by apply one_row_take|].
    pose proof (len_take n line). lia.
  - rewrite take_bytes_app_gt by lia. destruct (n - String.length line)%nat as [|k] eqn:Hk; [lia|]. cbn [take_bytes].
    destruct (IH k) as (l1 & line' & l2 & m & -> & Hscan); [lia|]. exists (line :: l1), line', l2, m. split; [done|].
    rewrite scan_row by done. by rewrite Hscan.
Qed.

Lemma item_rows i : item_text i = rows (item_lines i) "".
Proof. destruct i as [t p|c]; cbn; unfold writeSSE; by rewrite ?string_app_assoc. Qed.
Lemma rows_app lines s : rows lines "" +:+ s = rows lines s.
Proof.
  induction lines as [|line lines IH]; [done|]. cbn [rows foldr]. fold (rows lines "") (rows lines s). rewrite string_app_assoc, string_cons_app.
  by rewrite IH.
Qed.
Lemma item_rows_ok i : item_ok i → Forall row_ok (item_lines i).
Proof.
  assert (row_ok "") as Hempty by (split; [constructor|done]).
  destruct i as [t p|c]; cbn [item_ok item_lines].
  - intros (Ht & _ & _ & _ & Hlt & Hlp). repeat apply Forall_cons_2; [..|done|apply Forall_nil_2];
      (split; [by apply literal_row, json_text_row || by apply literal_row|rewrite len_app; unfold len in *; cbn [String.length] in *; lia]).
  - intros [Hc Hl]. repeat apply Forall_cons_2; [..|done|apply Forall_nil_2]. split; [by apply literal_row|rewrite len_app; unfold len in *; cbn [String.length] in *; lia].
Qed.
Lemma item_scan i s : item_ok i → scan (item_text i +:+ s) = (item_lines i ++ (scan s).1, (scan s).2).
Proof. intros Hi. rewrite item_rows, rows_app. by apply scan_rows, item_rows_ok. Qed.

(** *** A message cut short delivers nothing, or the start of itself *)

Definition cut_of (i : sse_item) (evs : list Event) : Prop :=
  evs = [] ∨ ∃ t p k, i = SseEvent t p ∧ evs = [mkEvent t (trim_space (take_bytes k (json_text p)))].
Lemma flush_nothing pt : pt_Data pt = "" → flush_events pt = [].
Proof. intros Hd. unfold flush_events. by rewrite bool_decide_true. Qed.
Lemma flush_cut t p k : t ≠ "" → cut_of (SseEvent t p) (flush_events (mkPartial t (trim_space (take_bytes k (json_text p))))).
Proof.
  intros Ht. unfold flush_events. cbn [pt_Type pt_Data]. case_bool_decide; [by left|]. rewrite bool_decide_false by done. right. by eexists _, _, _.
Qed.
(** The lines before the cut, and what is left of the line cut. *)
Definition partial_lines (l1 : list string) (line : string) (m : nat) : list string :=
  l1 ++ (if bool_decide (take_bytes m line = "") then [] else [take_bytes m line]).
Lemma item_cut i l1 line l2 m : item_ok i → item_lines i = l1 ++ line :: l2 →
  ∃ pt, line_steps (partial_lines l1 line m) nothing = (pt, []) ∧ cut_of i (flush_events pt).
Proof.
  unfold partial_lines. destruct i as [t p|c]; cbn [item_ok item_lines]; intros Hok Hlines.
  - destruct Hok as (Hrow & Ht & Hne & (fs & ->) & _). destruct l1 as [|a [|b [|d l1]]]; cbn [app] in Hlines; simplify_eq; [..|by destruct l1]; cbn [app line_steps].
    + case_bool_decide as Hb; [exists nothing; split; [done|by left]|]. cbn [line_steps].
      destruct (event_line t Hrow Ht Hne m nothing) as [[_ ->]|(t' & ->)]; [done|]. eexists. split; [done|]. left. by apply flush_nothing.
    + rewrite event_line_full by done. cbn [pt_Data nothing]. case_bool_decide as Hb; [eexists; split; [done|]; left; by apply flush_nothing|].
      cbn [line_steps]. destruct (data_step (mkPartial t "") m (json_text (JObj fs)) eq_refl) as [[_ ->]|[->| ->]]; [done| |];
        (eexists; split; [done|]); [by apply flush_cut|left; by apply flush_nothing].
    + rewrite event_line_full by done. cbn [pt_Data nothing]. rewrite data_line_full by (done || apply trim_object). cbn [pt_Type].
      assert (take_bytes m "" = "") as -> by (by destruct m). rewrite bool_decide_true by done. eexists; split; [done|].
      pose proof (flush_cut t (JObj fs) (String.length (json_text (JObj fs))) Hne) as Hcut. by rewrite take_bytes_ge, trim_object in Hcut by lia.
  - exists nothing. split; [|by left]. destruct l1 as [|a [|b l1]]; cbn [app] in Hlines; simplify_eq; [..|by destruct l1]; cbn [app line_steps].
    + destruct m as [|m]; [done|]. rewrite bool_decide_false by done. cbn [line_steps]. unfold line_step. rewrite bool_decide_false by done. by destruct m.
    + by destruct m.
Qed.

(** ** A stream *)

Definition items_text (items : list sse_item) : string := concat_strings (item_text <$> items).
Definition items_events (items : list sse_item) : list Event := concat (item_events <$> items).
Lemma items_text_cons i items : items_text (i :: items) = item_text i +:+ items_text items.
Proof. done. Qed.

(** The lines read before the cut, seen from the start of any message. *)
Lemma stream_cut items n : Forall item_ok items → ∃ k lines pt evs,
  scan (take_bytes n (items_text items)) = (lines, true) ∧ line_steps lines nothing = (pt, items_events (take k items)) ∧
  evs = flush_events pt ∧ (String.length (items_text (take k items)) ≤ n)%nat ∧
  (k = length items ∧ evs = [] ∨ ∃ i, items !! k = Some i ∧ (n < String.length (items_text (take (S k) items)))%nat ∧ cut_of i evs).
Proof.
  intros Hok. revert n. induction Hok as [|i items Hi Hok IH]; intros n.
  - exists 0%nat, [], nothing, []. split_and!; [by destruct n|done|done|simpl; lia|by left].
  - rewrite items_text_cons. destruct (decide (n < String.length (item_text i))%nat) as [Hlt|Hge].
    + rewrite take_app_le_bytes by lia. rewrite item_rows in Hlt |- *.
      destruct (scan_cut (item_lines i) n (item_rows_ok i Hi) Hlt) as (l1 & line & l2 & m & Hlines & Hscan).
      destruct (item_cut i l1 line l2 m Hi Hlines) as (pt & Hsteps & Hcut).
      exists 0%nat, (partial_lines l1 line m), pt, (flush_events pt). split_and!; [exact Hscan|exact Hsteps|done|simpl; lia|]. right. exists i. split; [done|]. split; [|done].
      cbn [take]. rewrite items_text_cons, length_string_app, item_rows. lia.
    + assert (take_bytes n (item_text i +:+ items_text items) = item_text i +:+ take_bytes (n - String.length (item_text i)) (items_text items)) as ->.
      { destruct (decide (n = String.length (item_text i))) as [->|Hne]; [|rewrite take_bytes_app_gt by lia; done].
        rewrite take_app_bytes, Nat.sub_diag. cbn [take_bytes]. by rewrite app_empty. }
      destruct (IH (n - String.length (item_text i))%nat) as (k & lines & pt & evs & Hscan & Hsteps & Hevs & Hk & Hcut).
      exists (S k), (item_lines i ++ lines), pt, evs. rewrite item_scan, Hscan by done. split_and!; [done| |done| |].
      * rewrite line_steps_app, item_steps by done. cbn [fst snd]. by rewrite Hsteps.
      * cbn [take]. rewrite items_text_cons, length_string_app. lia.
      * destruct Hcut as [[-> ->]|(j & Hj & Hn & Hcut)]; [by left|right]. exists j. split; [done|]. split; [|done].
        cbn [take] in Hn |- *. rewrite items_text_cons, length_string_app. cbn [take] in Hn. lia.
Qed.

(** ** The frames of the relay *)

Lemma limit_short s n : len s <= n → limit_reader n s = s.
Proof.
  revert n. induction s as [|c s IH]; intros n Hs; [done|]. unfold len in *. cbn [String.length] in Hs. cbn [limit_reader].
  rewrite (proj2 (Z.leb_gt n 0)) by lia. by rewrite IH by lia.
Qed.

Section frames.
Variable time_text : time → string.
Definition frame_fits (f : frame) : Prop :=
  match f with
  | FrameNotice n => len (json_text (json_notice time_text n)) + 6 < maximum_line
  | FrameCancelled requestID conversationID => len (json_text (json_cancelled requestID conversationID)) + 6 < maximum_line
  | _ => True
  end.
Lemma frame_item_ok f : frame_fits f → item_ok (frame_item time_text f).
Proof.
  destruct f as [|n|r c|]; cbn [frame_fits frame_item item_ok ready_item keepalive_item]; intros Hf; split_and!;
    try done; try (apply (bool_decide_unpack _); by vm_compute); try (by eexists); try (unfold json_notice, json_cancelled in *; done).
Qed.
Definition frame_events (frames : list frame) : list Event := items_events (frame_item time_text <$> frames).

(** C20. What the relay writes to a stream is what the client receives.  If
    the notices fit the client's line buffer and the stream its limit, then
    wherever the connection ends, the callback has been given exactly the
    events of the frames that had arrived whole, in order, with their JSON
    texts unchanged and without the keep-alives; and after that at most the
    start of the one frame that was cut, and only if the end looked regular. *)
Theorem stream_text_received frames n broken :
  Forall frame_fits frames → len (stream_text time_text frames) < maximum_stream →
  ∃ k evs, received (take_bytes n (stream_text time_text frames)) broken =
      (frame_events (take k frames) ++ evs, if (broken : bool) then inl ReadError else inr ()) ∧
    (String.length (stream_text time_text (take k frames)) ≤ n)%nat ∧ (broken = true → evs = []) ∧
    (k = length frames ∧ evs = [] ∨
     ∃ f, frames !! k = Some f ∧ (n < String.length (stream_text time_text (take (S k) frames)))%nat ∧ cut_of (frame_item time_text f) evs).
Proof.
  intros Hfit Hlen. assert (Forall item_ok (frame_item time_text <$> frames)) as Hok by (apply Forall_fmap; eapply Forall_impl; [done|apply frame_item_ok]).
  destruct (stream_cut _ n Hok) as (k & lines & pt & evs & Hscan & Hsteps & -> & Hk & Hcut). change (items_text (frame_item time_text <$> frames)) with (stream_text time_text frames) in Hscan.
  pose proof (len_take n (stream_text time_text frames)) as Htake. rewrite <- fmap_take in Hsteps, Hk.
  exists k, (if broken then [] else flush_events pt). unfold received, StreamEvents. rewrite limit_short by lia.
  rewrite Hscan. unfold mbind, M_bind. rewrite take_lines_record, Hsteps. cbn [fst snd negb app].
  assert ((len (take_bytes n (stream_text time_text frames)) <? maximum_stream) = true) as -> by lia. rewrite andb_true_r.
  split; [|split; [exact Hk|split; [by intros ->|]]].
  - destruct broken; [by rewrite app_nil_r|]. rewrite flush_record. done.
  - destruct Hcut as [[-> Hc]|(i & Hi & Hn & Hc)].
    + left. rewrite length_fmap. split; [done|]. by destruct broken.
    + right. rewrite list_lookup_fmap in Hi. apply fmap_Some in Hi as (f & Hf & ->). exists f. split; [done|]. rewrite <- fmap_take in Hn.
      split; [done|]. destruct broken; [by left|done].
Qed.
End frames.

(** A stream of three frames that breaks in the third. *)
Definition sample_frames : list frame := [FrameReady; FrameKeepalive; FrameCancelled "req_1" "conv_1"].
Definition no_time : time → string := λ _, "2026-01-01T00:00:00Z".
Lemma stream_text_received_witness :
  received (take_bytes 90 (stream_text no_time sample_frames)) true = (frame_events no_time [FrameReady; FrameKeepalive], inl ReadError) ∧
  ∃ k, received (take_bytes 90 (stream_text no_time sample_frames)) true = (frame_events no_time (take k sample_frames), inl ReadError).
Proof.
  split; [vm_compute; reflexivity|].
  destruct (stream_text_received no_time sample_frames 90 true) as (k & evs & Hrun & _ & Hevs & _).
  - repeat (apply Forall_cons_2; [vm_compute; exact eq_refl || exact I|]). apply Forall_nil_2.
  - vm_compute. reflexivity.
  - exists k. rewrite Hrun, (Hevs eq_refl), app_nil_r. reflexivity.
Defined.
