(* ===== verification/Client.v ===== *)
(** * The relay client ([internal/client/client.go])

    One method per route of the relay: it builds a request, sends it, and
    decodes what it reads of the answer.  Bodies pass through [encoding/json],
    which repairs text that is not UTF-8.  The connection is a parameter;
    [Loopback] is the relay process itself.  [New] is in [Address].  The event
    stream is in [Sse]. *)

From S2P Require Import Prelude GoString GoStringFacts Protocol Auth Records Json Redis CollabStore Http Relay.
From S2P Require Sandbox AdminStore CollabHttp.
From stdpp Require Import pretty.
From Stdlib Require Import Ascii.

Local Open Scope Z_scope.

(** ** URLs *)

(** [shouldEscape] for a path segment *)
Definition segment_safe (b : Z) : bool :=
  in_range 97 122 b || in_range 65 90 b || in_range 48 57 b ||
  (b =? 45) || (b =? 95) || (b =? 46) || (b =? 126) ||
  (b =? 36) || (b =? 38) || (b =? 43) || (b =? 58) || (b =? 61) || (b =? 64).
Definition upper_hex (z : Z) : ascii := byte_of (if z <? 10 then 48 + z else 55 + z).
(** [url.PathEscape] *)
Fixpoint PathEscape (s : string) : string :=
  match s with
  | EmptyString => EmptyString
  | String.String c s' =>
    let b := byte_val c in
    if segment_safe b then String.String c (PathEscape s') else
    "%" +:+ String.String (upper_hex (b / 16)) (String.String (upper_hex (b mod 16)) (PathEscape s'))
  end.
(** [path.Join] has the rules of [path/filepath] on Unix. *)
Definition requestPath (requestID : string) : string :=
  Sandbox.path_Join ["/v1/peer-requests"; PathEscape (trim_space requestID)].

(** [u.Path], written to the wire escaped and decoded by the server. *)
Definition path_segments (p : string) : list string :=
  split_byte "/"%char (if has_prefix p "/" then drop_bytes 1 p else p).

(** ** The client *)

Record Client := mkClient { cl_BasePath : string; cl_token : string }.

Record AgentQuery := mkAgentQuery {
  aq_Need : string; aq_Capabilities : list string; aq_WorkspaceAliases : list string;
  aq_OnlineOnly : bool; aq_AcceptingOnly : bool; aq_Limit : Z }.

(** [EnrollmentRequest] has the fields of the body the relay decodes. *)
Record EnrollmentResponse := mkEnrollmentResponse {
  er_MemberID : string; er_MemberDisplayName : string; er_DeviceID : string; er_AgentID : string; er_DeviceName : string }.

(** The message of [Error] is left out. *)
Inductive client_error := RelayError (StatusCode : Z) (Code : string) | CallFailed | DecodeFailed.
#[export] Instance client_error_eq_dec : EqDecision client_error.
Proof. solve_decision. Defined.

(** ** Text in JSON *)

(** What the decoder gives back of a value that was encoded: each byte of a
    string that is not part of UTF-8 text arrives as the replacement
    character. *)
Class Coerced (A : Type) := coerce : A → A.
Definition coerce_string (s : string) : string :=
  concat_strings ((λ p, if (p.1 =? RuneError) && bool_decide (String.length p.2 = 1%nat) then encode_rune RuneError else p.2) <$> segments s).
#[global] Instance Coerced_string : Coerced string := coerce_string.
#[global] Instance Coerced_list A `{Coerced A} : Coerced (list A) := fmap coerce.
#[global] Instance Coerced_mode : Coerced PermissionMode := λ m, match m with PermissionOther raw => PermissionOther (coerce raw) | _ => m end.
#[global] Instance Coerced_availability : Coerced Availability := λ a, match a with AvailabilityOther raw => AvailabilityOther (coerce raw) | _ => a end.
#[global] Instance Coerced_status : Coerced RequestStatus := λ x, match x with StatusOther raw => StatusOther (coerce raw) | _ => x end.
#[global] Instance Coerced_decision : Coerced Decision_ := λ d, match d with DecisionOther raw => DecisionOther (coerce raw) | _ => d end.
#[global] Instance Coerced_runtime : Coerced RuntimeDescriptor := λ r,
  mkRuntimeDescriptor (coerce (rd_ID r)) (coerce (rd_DisplayName r)) (coerce (rd_Version r)) (rd_Capabilities r).
#[global] Instance Coerced_card : Coerced AgentCard := λ c,
  mkAgentCard (coerce (card_AgentID c)) (coerce (card_MemberID c)) (coerce (card_DisplayName c)) (coerce (card_DeviceName c))
    (coerce (card_Availability c)) (card_AcceptingRequests c) (coerce (card_Runtime c)) (coerce (card_PermissionMode c))
    (coerce (card_Capabilities c)) (coerce (card_WorkspaceAliases c)) (card_Online c) (card_LastSeen c).
#[global] Instance Coerced_heartbeat : Coerced AgentHeartbeat := λ h,
  mkAgentHeartbeat (coerce (hb_DisplayName h)) (coerce (hb_DeviceName h)) (coerce (hb_Availability h)) (hb_AcceptingRequests h)
    (coerce (hb_Runtime h)) (coerce (hb_PermissionMode h)) (coerce (hb_Capabilities h)) (coerce (hb_WorkspaceAliases h)).
#[global] Instance Coerced_directory : Coerced AgentDirectoryResponse := λ d, mkAgentDirectoryResponse (coerce (dir_Agents d)) (dir_ObservedAt d).
#[global] Instance Coerced_access : Coerced RequestedAccess := λ a, mkRequestedAccess (coerce (ra_WorkspaceAlias a)) (coerce (ra_Mode a)).
#[global] Instance Coerced_attachment : Coerced AttachmentInput := λ a,
  mkAttachmentInput (coerce (ai_Name a)) (coerce (ai_MIMEType a)) (coerce (ai_Encoding a)) (ai_SizeBytes a) (coerce (ai_SHA256 a)) (coerce (ai_ContentBase64 a)).
#[global] Instance Coerced_descriptor : Coerced ArtifactDescriptor := λ d,
  mkArtifactDescriptor (coerce (ad_ArtifactID d)) (coerce (ad_Name d)) (coerce (ad_MIMEType d)) (ad_SizeBytes d) (coerce (ad_SHA256 d)).
#[global] Instance Coerced_artifact : Coerced ArtifactContent := λ a,
  mkArtifactContent (coerce (ac_Descriptor a)) (coerce (ac_Encoding a)) (coerce (ac_ContentBase64 a)).
#[global] Instance Coerced_create : Coerced CreateRequest := λ r,
  mkCreateRequest (coerce (cr_TargetAgentID r)) (coerce (cr_ConversationID r)) (coerce (cr_Title r)) (coerce (cr_Prompt r))
    (coerce (cr_RequestedAccess r)) (coerce (cr_Attachments r)) (cr_ExpiresInSeconds r) (coerce (cr_IdempotencyKey r)).
#[global] Instance Coerced_request : Coerced Request := λ r,
  mkRequest (coerce (rq_APIVersion r)) (coerce (rq_RequestID r)) (coerce (rq_ConversationID r)) (coerce (rq_RequesterAgentID r))
    (coerce (rq_RequesterMemberID r)) (coerce (rq_RequesterDisplayName r)) (coerce (rq_TargetAgentID r)) (coerce (rq_Title r))
    (coerce (rq_Prompt r)) (coerce (rq_PromptPreview r)) (rq_PromptBytes r) (coerce (rq_PromptSHA256 r)) (coerce (rq_RequestedAccess r))
    (coerce (rq_Attachments r)) (coerce (rq_ResultFiles r)) (coerce (rq_Status r)) (coerce (rq_Answer r)) (coerce (rq_Error r))
    (rq_CreatedAt r) (rq_UpdatedAt r) (rq_ExpiresAt r) (rq_Version r).
#[global] Instance Coerced_notice : Coerced RequestNotice := λ n,
  mkRequestNotice (coerce (nt_RequestID n)) (coerce (nt_ConversationID n)) (coerce (nt_Status n)) (coerce (nt_RequesterAgentID n))
    (coerce (nt_RequesterMemberID n)) (coerce (nt_RequesterDisplayName n)) (coerce (nt_Title n)) (coerce (nt_PromptPreview n))
    (nt_PromptBytes n) (coerce (nt_PromptSHA256 n)) (coerce (nt_RequestedAccess n)) (coerce (nt_Attachments n))
    (nt_CreatedAt n) (nt_ExpiresAt n) (nt_ResumesSession n).
#[global] Instance Coerced_execution : Coerced ExecutionPayload := λ e,
  mkExecutionPayload (coerce (ep_RequestID e)) (coerce (ep_ConversationID e)) (coerce (ep_RequesterAgentID e)) (coerce (ep_RequesterMemberID e))
    (coerce (ep_RequesterDisplayName e)) (coerce (ep_Title e)) (coerce (ep_Prompt e)) (coerce (ep_RequestedAccess e))
    (coerce (ep_Attachments e)) (ep_ExpiresAt e).
#[global] Instance Coerced_proposal : Coerced ProposalPayload := λ e,
  mkProposalPayload (coerce (pp_RequestID e)) (coerce (pp_ConversationID e)) (coerce (pp_RequesterAgentID e)) (coerce (pp_RequesterMemberID e))
    (coerce (pp_RequesterDisplayName e)) (coerce (pp_Title e)) (coerce (pp_Prompt e)) (coerce (pp_RequestedAccess e))
    (coerce (pp_Attachments e)) (pp_ExpiresAt e).
#[global] Instance Coerced_decision_payload : Coerced DecisionPayload := λ d, mkDecisionPayload (coerce (dp_Decision d)) (coerce (dp_DecisionID d)).
#[global] Instance Coerced_claim : Coerced ExecutionClaimPayload := λ c, mkExecutionClaimPayload (coerce (xc_ExecutionClaimID c)).
#[global] Instance Coerced_result : Coerced ResultPayload := λ r,
  mkResultPayload (coerce (rp_ExecutionClaimID r)) (coerce (rp_State r)) (coerce (rp_Answer r)) (coerce (rp_Error r)) (coerce (rp_ResultFiles r)).
#[global] Instance Coerced_mutation : Coerced MutationResponse := λ m,
  mkMutationResponse (coerce (mr_RequestID m)) (coerce (mr_ConversationID m)) (coerce (mr_Status m)).
#[global] Instance Coerced_enroll : Coerced enrollRequest := λ e,
  mkEnrollRequest (coerce (eq_DisplayName e)) (coerce (eq_DeviceName e)) (coerce (eq_Runtime e)) (coerce (eq_PermissionProfile e))
    (coerce (eq_DeviceTokenHash e)) (coerce (eq_IdempotencyKey e)).
#[global] Instance Coerced_enrolled : Coerced EnrollmentResponse := λ e,
  mkEnrollmentResponse (coerce (er_MemberID e)) (coerce (er_MemberDisplayName e)) (coerce (er_DeviceID e)) (coerce (er_AgentID e)) (coerce (er_DeviceName e)).
#[global] Instance Coerced_inbox : Coerced (list RequestNotice * time) := λ x, (coerce x.1, x.2).
(** A body of the client; the others are not its. *)
Definition coerce_input (v : input) : input :=
  match v with
  | InHeartbeat v => InHeartbeat (coerce v) | InCreate v => InCreate (coerce v) | InDecision v => InDecision (coerce v)
  | InClaim v => InClaim (coerce v) | InResult v => InResult (coerce v) | InEnroll v => InEnroll (coerce v) | _ => v
  end.

(** UTF-8 text arrives as it was sent. *)
Lemma coerce_valid s : valid_utf8 s = true → coerce s = s.
Proof.
  intros Hv. unfold coerce, Coerced_string, coerce_string. rewrite <- (concat_segments s) at 2. f_equal. apply list_fmap_ext. intros i p Hp.
  unfold valid_utf8 in Hv. rewrite forallb_forall in Hv. specialize (Hv p (proj1 (list_elem_of_In _ _) (list_elem_of_lookup_2 _ _ _ Hp))).
  apply negb_true_iff in Hv. destruct (p.1 =? RuneError); [|done]. cbn [andb] in *. apply Nat.eqb_neq in Hv. by rewrite bool_decide_false.
Qed.
Example coerce_samples : (coerce "héllo", coerce (String (byte_of 255) "a")) = ("héllo", "�a").
Proof. vm_compute. reflexivity. Qed.

(** ** The types of the answers *)

(** The Go type a method decodes a reply into, and its zero value. *)
Class Output (A : Type) := of_reply : reply → option A.
Class Zero (A : Type) := zero_value : A.
#[export] Instance Output_agents : Output AgentDirectoryResponse := λ r, match r with ReplyAgents d => Some d | _ => None end.
#[export] Instance Output_card : Output AgentCard := λ r, match r with ReplyCard c => Some c | _ => None end.
#[export] Instance Output_enrolled : Output EnrollmentResponse := λ r,
  match r with
  | ReplyEnrolled e => let m := er_Member e in let d := er_Device e in
      Some (mkEnrollmentResponse (mem_ID m) (mem_DisplayName m) (dev_ID d) (dev_AgentID d) (dev_Name d))
  | _ => None
  end.
#[export] Instance Output_inbox : Output (list RequestNotice * time) := λ r, match r with ReplyInbox l t => Some (l, t) | _ => None end.
#[export] Instance Output_mutation : Output MutationResponse := λ r, match r with ReplyMutation m => Some m | _ => None end.
#[export] Instance Output_request : Output Request := λ r, match r with ReplyRequest m => Some m | _ => None end.
#[export] Instance Output_execution : Output ExecutionPayload := λ r, match r with ReplyExecution m => Some m | _ => None end.
#[export] Instance Output_proposal : Output ProposalPayload := λ r, match r with ReplyProposal m => Some m | _ => None end.
#[export] Instance Output_artifact : Output ArtifactContent := λ r, match r with ReplyArtifact m => Some m | _ => None end.
#[export] Instance Zero_agents : Zero AgentDirectoryResponse := mkAgentDirectoryResponse [] zero_time.
#[export] Instance Zero_card : Zero AgentCard :=
  mkAgentCard "" "" "" "" (AvailabilityOther "") false
    (mkRuntimeDescriptor "" "" "" (mkRuntimeCapabilities false false false false false false false)) (PermissionOther "") [] [] false zero_time.
#[export] Instance Zero_enrolled : Zero EnrollmentResponse := mkEnrollmentResponse "" "" "" "" "".
#[export] Instance Zero_inbox : Zero (list RequestNotice * time) := ([], zero_time).
#[export] Instance Zero_mutation : Zero MutationResponse := mkMutationResponse "" "" (StatusOther "").
#[export] Instance Zero_request : Zero Request :=
  mkRequest "" "" "" "" "" "" "" "" "" "" 0 "" [] [] [] (StatusOther "") "" "" zero_time zero_time zero_time 0.
#[export] Instance Zero_execution : Zero ExecutionPayload := mkExecutionPayload "" "" "" "" "" "" "" [] [] zero_time.
#[export] Instance Zero_proposal : Zero ProposalPayload := mkProposalPayload "" "" "" "" "" "" "" [] [] zero_time.
#[export] Instance Zero_artifact : Zero ArtifactContent := mkArtifactContent (mkArtifactDescriptor "" "" "" 0 "") "" "".

(** [decodeError]: only [protocol.ErrorResponse] carries its code at the top. *)
Definition decodeError (r : response) : client_error :=
  RelayError (rs_Status r) (match rs_Reply r with ReplyError code => code | _ => "" end).

Section client.
Context {St : Type}.
Abbreviation KM := (M St client_error).
(** [c.http.Do]; any failure is the same to the callers. *)
Variable Do : http_request → M St () response.
(** The lengths of a body and of an answer in JSON. *)
Variables (json_size : input → Z) (reply_size : reply → Z).
Variable c : Client.

Definition request (m : http_method) (endpoint : string) (query : list (string * string)) (b : option input) : http_request :=
  mkHttpRequest m (path_segments (trim_suffix (cl_BasePath c) "/" +:+ endpoint)) ["Bearer " +:+ cl_token c]
    (match b with Some _ => "application/json" | None => "" end) query
    (match b with Some v => BodyJSON (json_size v) (coerce_input v) true | None => BodyBad end).

Definition maxResponseBytes : Z := 6 * 2 ^ 20.
(** A document that is cut at the limit does not decode. *)
Definition doJSON {A} `{Output A, Zero A, Coerced A} (m : http_method) (endpoint : string) (query : list (string * string)) (b : option input) : KM A := λ s,
  match Do (request m endpoint query b) s with
  | (s', inl _) => (s', inl CallFailed)
  | (s', inr resp) =>
    if negb (in_range 200 299 (rs_Status resp)) then (s', inl (decodeError resp)) else
    if rs_Status resp =? 204 then (s', inr zero_value) else
    if maxResponseBytes <? reply_size (rs_Reply resp) then (s', inl DecodeFailed) else
    match of_reply (rs_Reply resp) with Some a => (s', inr (coerce a)) | None => (s', inl DecodeFailed) end
  end.

(** [values.Encode] sorts the keys. *)
Definition query_of (q : AgentQuery) : list (string * string) :=
  (if aq_AcceptingOnly q then [("accepting_only", "true")] else []) ++
  (pair "capability" <$> aq_Capabilities q) ++
  (if 0 <? aq_Limit q then [("limit", pretty (aq_Limit q))] else []) ++
  (if bool_decide (aq_Need q = "") then [] else [("need", aq_Need q)]) ++
  (if aq_OnlineOnly q then [("online_only", "true")] else []) ++
  (pair "workspace_alias" <$> aq_WorkspaceAliases q).
Definition ListAgents (q : AgentQuery) : KM AgentDirectoryResponse := doJSON GET "/v1/agents" (query_of q) None.
Definition Heartbeat (heartbeat : AgentHeartbeat) : KM AgentCard := doJSON POST "/v1/agents/heartbeat" [] (Some (to_input heartbeat)).
Definition Enroll (r : enrollRequest) : KM EnrollmentResponse := doJSON POST "/v1/enroll" [] (Some (to_input r)).
Definition Inbox : KM (list RequestNotice * time) := doJSON GET "/v1/inbox" [] None.
Definition CreateRequest (r : Protocol.CreateRequest) : KM MutationResponse := doJSON POST "/v1/peer-requests" [] (Some (to_input r)).
Definition GetRequest (requestID : string) : KM Request := doJSON GET (requestPath requestID) [] None.
Definition Decide (requestID : string) (d : DecisionPayload) : KM MutationResponse :=
  doJSON POST (requestPath requestID +:+ "/decision") [] (Some (to_input d)).
Definition FetchExecution (requestID : string) : KM ExecutionPayload := doJSON GET (requestPath requestID +:+ "/execution") [] None.
Definition InspectProposal (requestID : string) : KM ProposalPayload := doJSON GET (requestPath requestID +:+ "/proposal") [] None.
Definition MarkRunning (requestID executionClaimID : string) : KM MutationResponse :=
  doJSON POST (requestPath requestID +:+ "/running") [] (Some (to_input (mkExecutionClaimPayload executionClaimID))).
Definition SubmitResult (requestID : string) (result : ResultPayload) : KM MutationResponse :=
  doJSON POST (requestPath requestID +:+ "/result") [] (Some (to_input result)).
Definition CancelRequest (requestID : string) : KM MutationResponse := doJSON POST (requestPath requestID +:+ "/cancel") [] (Some InEmpty).
Definition FetchArtifact (artifactID : string) : KM ArtifactContent :=
  doJSON GET ("/v1/artifacts/" +:+ PathEscape (trim_space artifactID)) [] None.
End client.

(** The relay process at the other end, over a connection that holds. *)
Definition Loopback {DB} `{RedisServer DB} `{UnicodeTables} (bootstrapToken : string) (st : CollabHttp.stream) : http_request → M (relay DB) () response :=
  λ r s, let (s', o) := serve bootstrapToken st r s in (s', match o with Answered resp => inr resp | Panicked => inl () end).

Example request_path_samples :
  requestPath <$> ["req_1"; " req_1 "; "a/b"; ""; ".."] =
  ["/v1/peer-requests/req_1"; "/v1/peer-requests/req_1"; "/v1/peer-requests/a%2Fb"; "/v1/peer-requests"; "/v1"].
Proof. vm_compute. reflexivity. Qed.
