(* ===== verification/ClientProofs.v ===== *)
(** * A call of the client is a call of the store

    The client, the connection, the routes and the handlers together: a method
    of the client behaves as the operation of the collaboration store it
    stands for, run for the principal its token authenticates. *)

From S2P Require Import Prelude GoString GoStringFacts Protocol Auth Records Redis CollabStore Hub Http Relay RelayAccess StreamReplay.
From S2P Require AdminStore AdminHttp CollabHttp Client SandboxProofs.
From stdpp Require Import pretty.
From Stdlib Require Import Ascii.

Local Open Scope Z_scope.

(** ** Paths *)

(** A name the client sends as it is. *)
Definition plain_name (s : string) : Prop :=
  s ≠ "" ∧ s ≠ "." ∧ s ≠ ".." ∧ trim_space s = s ∧ Forall (λ c, Client.segment_safe (byte_val c) = true) (bytes s).
Lemma plain_escape s : plain_name s → Client.PathEscape s = s.
Proof. intros (_ & _ & _ & _ & Hs). induction s as [|c s IH]; [done|]. apply Forall_cons in Hs as [Hc Hs]. simpl. by rewrite Hc, IH. Qed.
Lemma plain_proper s : plain_name s → SandboxProofs.proper s.
Proof.
  intros (H1 & H2 & H3 & _ & Hs). split_and!; [done|done|done|]. eapply Forall_impl; [exact Hs|]. intros c Hc ->. discriminate Hc.
Qed.
Lemma requestPath_plain id : plain_name id → Client.requestPath id = "/v1/peer-requests/" +:+ id.
Proof.
  intros Hid. unfold Client.requestPath. pose proof Hid as (Hne & _ & _ & -> & _). rewrite plain_escape by done.
  unfold Sandbox.path_Join. cbn [List.filter]. rewrite !bool_decide_false by done. cbn [negb].
  apply (SandboxProofs.Clean_id ["v1"; "peer-requests"; id]). repeat apply Forall_cons_2; [| |by apply plain_proper|apply Forall_nil_2];
    (split_and!; [done|done|done|apply (bool_decide_unpack _); by vm_compute]).
Qed.
Lemma segments_join l : l ≠ [] → Forall SandboxProofs.slash_free l → Client.path_segments ("/" +:+ GoString.join "/" l) = l.
Proof.
  intros Hne Hl. unfold Client.path_segments. change ("/" +:+ GoString.join "/" l) with (String "/" (GoString.join "/" l)).
  assert (has_prefix (String "/" (GoString.join "/" l)) "/" = true) as -> by (unfold has_prefix; simpl; by destruct (GoString.join "/" l)).
  by apply (split_join "/"%char).
Qed.
Definition peer_path (id : string) (rest : list string) : list string := "v1" :: "peer-requests" :: id :: rest.
Lemma peer_segments id rest : plain_name id → Forall SandboxProofs.slash_free rest →
  Client.path_segments ("/" +:+ GoString.join "/" (peer_path id rest)) = peer_path id rest.
Proof.
  intros (_ & _ & _ & Hid)%plain_proper Hrest. apply segments_join; [done|].
  repeat apply Forall_cons_2; [apply (bool_decide_unpack _); by vm_compute..|done|done].
Qed.
Lemma peer_endpoint id : plain_name id → Client.requestPath id = "/" +:+ GoString.join "/" (peer_path id []).
Proof. intros Hid. by rewrite requestPath_plain. Qed.
Lemma peer_endpoint_1 id x : plain_name id → Client.requestPath id +:+ String "/" x = "/" +:+ GoString.join "/" (peer_path id [x]).
Proof. intros Hid. rewrite requestPath_plain by done. by rewrite string_app_assoc. Qed.

(** ** One call over the loop *)

Section calls.
Context {DB : Type} `{RL : RedisLaws DB} `{UT : UnicodeTables}.
Abbreviation HM := (M (relay DB) outcome).
Variable (bootstrapToken : string) (st : CollabHttp.stream) (json_size : input → Z) (reply_size : reply → Z).
Variable (token : string) (p : Principal).
Let c := Client.mkClient "" token.
Let Do := Client.Loopback (DB := DB) bootstrapToken st.
Abbreviation principal := (CollabHttp.principal (Some AdminHttp.AuthenticateRequest)).

(** What identifies the caller. *)
Definition bearer_request : http_request := mkHttpRequest GET [] ["Bearer " +:+ token] "" [] BodyBad.
Definition authenticates (s : relay DB) (w1 : world DB) : Prop := AdminHttp.AuthenticateRequest bearer_request (rl_world s) = (w1, inr p).
Lemma bearer_only r : hr_Authorization r = hr_Authorization bearer_request →
  AdminHttp.AuthenticateRequest r = (AdminHttp.AuthenticateRequest bearer_request : M (world DB) _ _).
Proof. intros Hr. unfold AdminHttp.AuthenticateRequest, AdminHttp.bearerToken. by rewrite Hr. Qed.

(** What the client makes of the answer of [body], which the relay writes as
    [R] of it: text is repaired, and an answer longer than the client reads is
    an error. *)
Definition client_result {A} `{Client.Coerced A} (R : A → reply) (r : outcome + A) : Client.client_error + A :=
  match r with
  | inr a => if Client.maxResponseBytes <? reply_size (R a) then inl Client.DecodeFailed else inr (Client.coerce a)
  | inl (Answered resp) => inl (Client.decodeError resp)
  | inl Panicked => inl Client.CallFailed
  end.
(** Once the caller is known, the call is [body], run on the relay. *)
Definition reaches {A} `{Client.Coerced A} (R : A → reply) (m : M (relay DB) Client.client_error A) (body : HM A) : Prop :=
  ∀ s w1, authenticates s w1 → m s = let (s', r) := body (set_world w1 s) in (s', client_result R r).

Definition not_success (resp : response) : Prop := in_range 200 299 (rs_Status resp) = false.
Lemma store_error_not_success e : not_success (CollabHttp.writeStoreError e).
Proof. by destruct e as [[]| |]. Qed.

Lemma call_reaches {A} `{Client.Output A, Client.Zero A, Client.Coerced A} (R' : A → reply) m endpoint query b rt values (k : Principal → HM response) (body : HM A) (R : A → response) :
  p_TokenKind p = TokenDevice →
  let r := Client.request json_size c m endpoint query b in
  rt ∈ relay_routes bootstrapToken st → matches m (hr_Path r) rt values →
  rt_Handler rt values r = (principal r ≫= k) →
  (∀ s, k p s = (body ≫= λ a, mret (R a)) s) →
  answers not_success body →
  (∀ a, in_range 200 299 (rs_Status (R a)) = true ∧ rs_Status (R a) ≠ 204 ∧ rs_Reply (R a) = R' a ∧ Client.of_reply (R' a) = Some a) →
  reaches R' (Client.doJSON Do json_size reply_size c m endpoint query b) body.
Proof.
  intros Hkind r Hin Hm Hh Hk Hans HR s w1 Hauth. unfold Client.doJSON. fold r. unfold Do, Client.Loopback.
  rewrite (serve_route bootstrapToken st r s rt values Hin Hm), Hh. unfold finish.
  rewrite (bind_run _ _ _ _ _ (principal_run AdminHttp.AuthenticateRequest r s w1 p ltac:(by rewrite (bearer_only r)) Hkind)), Hk.
  unfold mbind, M_bind. specialize (Hans (set_world w1 s)). destruct (body (set_world w1 s)) as [s' [[resp|]|a]]; cbn [client_result].
  - specialize (Hans s' resp eq_refl). unfold not_success in Hans. cbn [rs_Status WithSecurityHeaders]. by rewrite Hans.
  - done.
  - destruct (HR a) as (Hs1 & Hs2 & Hs3 & Hs4). change ((mret (R a) : HM response) s') with (s', inr (R a) : outcome + response). cbn [rs_Status rs_Reply WithSecurityHeaders]. rewrite Hs1, Hs3, Hs4, (proj2 (Z.eqb_neq _ _) Hs2). cbn [negb]. by destruct (_ <? _).
Qed.

Lemma decode_sent {A} `{Input A, Client.Coerced A} (v : A) m endpoint query s :
  json_size (to_input v) <= CollabHttp.maximumJSONBody → Client.coerce_input (to_input v) = to_input (Client.coerce v) →
  (CollabHttp.decodeJSON A (Client.request json_size c m endpoint query (Some (to_input v))) : HM A) s = (s, inr (Client.coerce v)).
Proof.
  intros Hsize Hco. unfold CollabHttp.decodeJSON. cbn [hr_ContentType hr_Body Client.request read_json].
  rewrite (proj2 (Z.ltb_ge CollabHttp.maximumJSONBody (json_size (to_input v)))) by done. cbn [orb negb]. by rewrite Hco, of_to_input.
Qed.

(** The path of a request to a plain name, and the route it matches. *)
Lemma peer_request_path m id x query b : plain_name id → SandboxProofs.slash_free x →
  hr_Path (Client.request json_size c m (Client.requestPath id +:+ String "/" x) query b) = peer_path id [x].
Proof. intros Hid Hx. cbn [hr_Path Client.request Client.cl_BasePath c]. rewrite peer_endpoint_1 by done. apply peer_segments; [done|by constructor]. Qed.
Lemma peer_root_path m id query b : plain_name id →
  hr_Path (Client.request json_size c m (Client.requestPath id) query b) = peer_path id [].
Proof. intros Hid. cbn [hr_Path Client.request Client.cl_BasePath c]. rewrite peer_endpoint by done. by apply peer_segments. Qed.
Lemma match_peer id : plain_name id → match_path [Lit "v1"; Lit "peer-requests"; Wild] (peer_path id []) = Some [id].
Proof. intros (Hne & _). cbn. by rewrite (bool_decide_false (id = "")). Qed.
Lemma match_peer_1 id x : plain_name id → match_path [Lit "v1"; Lit "peer-requests"; Wild; Lit x] (peer_path id [x]) = Some [id].
Proof. intros (Hne & _). cbn. by rewrite (bool_decide_false (id = "")), (bool_decide_true (x = x)). Qed.

Lemma answers_collab {A} (m : M (world DB) (rerror cerr) A) : answers not_success (CollabHttp.collab_call m : HM A).
Proof. apply answers_store, store_error_not_success. Qed.

(** A route of the relay, by its place in [relay_routes]: [path] shows that it
    matches, [body] what its handler does for the caller. *)
Ltac by_route i path body := eapply call_reaches;
  [done|apply (list_elem_of_lookup_2 _ i); reflexivity|split; [cbn [rt_Pattern app]; path|reflexivity]|reflexivity|intros s; cbv beta; body|try apply answers_collab|done].
Ltac peer_root := rewrite peer_root_path by done; by apply match_peer.
Ltac peer_leaf := rewrite peer_request_path by (done || (apply (bool_decide_unpack _); by vm_compute)); by apply match_peer_1.
Ltac sent Hfit := by rewrite (bind_run _ _ _ _ _ (decode_sent _ _ _ _ _ Hfit eq_refl)).

Hypothesis device : p_TokenKind p = TokenDevice.
Definition fits {A} `{Input A} (v : A) : Prop := json_size (to_input v) <= CollabHttp.maximumJSONBody.

(** Every method of a device, and what it does for the caller. *)
Lemma heartbeat_reaches hb : fits hb → reaches ReplyCard (Client.Heartbeat Do json_size reply_size c hb) (CollabHttp.collab_call (Heartbeat p (Client.coerce hb))).
Proof. intros Hfit. by_route 15%nat ltac:(reflexivity) ltac:(sent Hfit). Qed.
Lemma get_request_reaches id : plain_name id → reaches ReplyRequest (Client.GetRequest Do json_size reply_size c id) (CollabHttp.collab_call (GetRequest p id)).
Proof. intros Hid. by_route 20%nat ltac:(peer_root) ltac:(reflexivity). Qed.
Lemma inspect_reaches id : plain_name id → reaches ReplyProposal (Client.InspectProposal Do json_size reply_size c id) (CollabHttp.collab_call (InspectProposal p id)).
Proof. intros Hid. by_route 21%nat ltac:(peer_leaf) ltac:(reflexivity). Qed.
Lemma decide_reaches id d : plain_name id → fits d → reaches ReplyMutation (Client.Decide Do json_size reply_size c id d) (CollabHttp.collab_call (Decide p id (Client.coerce d))).
Proof. intros Hid Hfit. by_route 22%nat ltac:(peer_leaf) ltac:(sent Hfit). Qed.
Lemma execution_reaches id : plain_name id → reaches ReplyExecution (Client.FetchExecution Do json_size reply_size c id) (CollabHttp.collab_call (FetchExecution p id)).
Proof. intros Hid. by_route 23%nat ltac:(peer_leaf) ltac:(reflexivity). Qed.
Lemma running_reaches id claim : plain_name id → fits (mkExecutionClaimPayload claim) →
  reaches ReplyMutation (Client.MarkRunning Do json_size reply_size c id claim) (CollabHttp.collab_call (MarkRunning p id (Client.coerce claim))).
Proof. intros Hid Hfit. by_route 24%nat ltac:(peer_leaf) ltac:(sent Hfit). Qed.
Lemma result_reaches id res : plain_name id → fits res →
  reaches ReplyMutation (Client.SubmitResult Do json_size reply_size c id res) (CollabHttp.collab_call (SubmitResult p id (Client.coerce res))).
Proof. intros Hid Hfit. by_route 25%nat ltac:(peer_leaf) ltac:(sent Hfit). Qed.

(** *** Calls that do more than one operation *)

Definition inbox_call : HM (list RequestNotice * time) :=
  l ← CollabHttp.collab_call (Inbox p); t ← store_call (λ _ : rerror cerr, writeError 500 "server_error") now; mret (l, t).
Definition notify (agentID : string) (e : hub_event) (b : bool) : HM () := if b then publish (p_OrganizationID p) agentID e else mret ().
Definition create_call (input : Protocol.CreateRequest) : HM MutationResponse :=
  '(result, requestNotice, created) ← CollabHttp.collab_call (CreateRequest_ p input);
  (if (created : bool) then
     target ← CollabHttp.created_target p input result; notify target (mkEvent "peer_request" (FrameNotice requestNotice)) true
   else mret ()) ≫= λ _, mret result.
Definition cancel_call (requestID : string) : HM MutationResponse :=
  request ← CollabHttp.collab_call (GetRequest p requestID);
  '(result, changed) ← CollabHttp.collab_call (CollabStore.Cancel p requestID);
  notify (rq_TargetAgentID request) (mkEvent "peer_cancelled" (FrameCancelled requestID (rq_ConversationID request))) changed ≫= λ _, mret result.

Lemma answers_hub {A} P (f : hub_state → option (A * hub_state)) : answers P (hub_call f : HM A).
Proof. intros s s' resp. unfold hub_call. cbv zeta. by destruct (f _) as [[a h]|]. Qed.
Lemma answers_notify agentID e b : answers not_success (notify agentID e b).
Proof.
  destruct b; [|apply answers_ret]. unfold notify, publish. apply answers_bind; [apply answers_hub|]. intros over.
  induction over as [|x over IH]; cbn [mapM_]; [apply answers_ret|]. apply answers_bind; [apply answers_hub|done].
Qed.
Lemma answers_target input result : answers not_success (CollabHttp.created_target p input result : HM _).
Proof.
  unfold CollabHttp.created_target. cbv zeta. destruct (negb _); [apply answers_ret|]. apply answers_bind; [apply answers_collab|]. intros r. apply answers_ret.
Qed.

Definition inbox_reply (x : list RequestNotice * time) : reply := ReplyInbox x.1 x.2.
Lemma inbox_reaches : reaches inbox_reply (Client.Inbox Do json_size reply_size c) inbox_call.
Proof.
  eapply (call_reaches _ _ _ _ _ _ _ _ _ (λ a, writeJSON 200 (ReplyInbox a.1 a.2)));
    [done|apply (list_elem_of_lookup_2 _ 18); reflexivity|split; [cbn [rt_Pattern app]; reflexivity|reflexivity]|reflexivity| | |by intros []].
  - intros s. cbv beta. unfold inbox_call, mbind, M_bind. destruct (CollabHttp.collab_call (Inbox p) s) as [s1 [e|l]]; [done|].
    by destruct (store_call _ now s1) as [s2 [e|t]].
  - apply answers_bind; [apply answers_collab|]. intros l. apply answers_bind; [by apply answers_store|]. intros t. apply answers_ret.
Qed.
Lemma create_reaches input : fits input → reaches ReplyMutation (Client.CreateRequest Do json_size reply_size c input) (create_call (Client.coerce input)).
Proof.
  intros Hfit. eapply (call_reaches _ _ _ _ _ _ _ _ _ (λ a, writeJSON 201 (ReplyMutation a)));
    [done|apply (list_elem_of_lookup_2 _ 19); reflexivity|split; [cbn [rt_Pattern app]; reflexivity|reflexivity]|reflexivity| | |done].
  - intros s. cbv beta. rewrite (bind_run _ _ _ _ _ (decode_sent _ _ _ _ _ Hfit eq_refl)). unfold create_call, notify, mbind, M_bind.
    destruct (CollabHttp.collab_call (CreateRequest_ p (Client.coerce input)) s) as [s1 [e|[[result n] []]]]; [done| |done].
    destruct (CollabHttp.created_target p (Client.coerce input) result s1) as [s2 [e|target]]; [done|]. by destruct (publish _ _ _ s2) as [s3 [e|[]]].
  - apply answers_bind; [apply answers_collab|]. intros [[result n] created]. apply answers_bind; [|intros _; apply answers_ret].
    destruct created; [|apply answers_ret]. apply answers_bind; [apply answers_target|]. intros target. apply answers_notify.
Qed.
Lemma cancel_reaches id : plain_name id → reaches ReplyMutation (Client.CancelRequest Do json_size reply_size c id) (cancel_call id).
Proof.
  intros Hid. eapply (call_reaches _ _ _ _ _ _ _ _ _ (λ a, writeJSON 200 (ReplyMutation a)));
    [done|apply (list_elem_of_lookup_2 _ 26); reflexivity|split; [cbn [rt_Pattern app]; peer_leaf|reflexivity]|reflexivity| | |done].
  - intros s. cbv beta. change (CollabHttp.path_param [id]) with id. unfold cancel_call, notify, mbind, M_bind.
    destruct (CollabHttp.collab_call (GetRequest p id) s) as [s1 [e|request]]; [done|].
    destruct (CollabHttp.collab_call (CollabStore.Cancel p id) s1) as [s2 [e|[result []]]]; [done| |done]. by destruct (publish _ _ _ s2) as [s3 [e|[]]].
  - apply answers_bind; [apply answers_collab|]. intros request. apply answers_bind; [apply answers_collab|]. intros [result changed].
    apply answers_bind; [apply answers_notify|]. intros _. apply answers_ret.
Qed.

Lemma artifact_path id b : plain_name id →
  hr_Path (Client.request json_size c GET ("/v1/artifacts/" +:+ Client.PathEscape (trim_space id)) [] b) = ["v1"; "artifacts"; id].
Proof.
  intros Hid. pose proof Hid as (_ & _ & _ & Htrim & _). cbn [hr_Path Client.request Client.cl_BasePath c]. rewrite Htrim, plain_escape by done.
  apply (segments_join ["v1"; "artifacts"; id]); [done|]. apply plain_proper in Hid as (_ & _ & _ & Hfree).
  repeat apply Forall_cons_2; [apply (bool_decide_unpack _); by vm_compute..|done|apply Forall_nil_2].
Qed.
Lemma artifact_reaches id : plain_name id → reaches ReplyArtifact (Client.FetchArtifact Do json_size reply_size c id) (CollabHttp.collab_call (FetchArtifact p id)).
Proof.
  intros Hid. by_route 27%nat ltac:(rewrite artifact_path by done; destruct Hid as (Hne & _); cbn; by rewrite (bool_decide_false (id = ""))) ltac:(reflexivity).
Qed.

(** *** The directory *)

Lemma query_values_app k l1 l2 : query_values k (l1 ++ l2) = query_values k l1 ++ query_values k l2.
Proof. unfold query_values. rewrite List.filter_app. apply fmap_app. Qed.
Lemma query_values_same k l : query_values k (pair k <$> l) = l.
Proof. unfold query_values. induction l as [|x l IH]; [done|]. cbn. rewrite bool_decide_true by done. cbn. by f_equal. Qed.
Lemma query_values_other k k' l : k ≠ k' → query_values k (pair k' <$> l) = [].
Proof. intros Hne. unfold query_values. induction l as [|x l IH]; [done|]. cbn. by rewrite bool_decide_false. Qed.
Ltac read_query := unfold Client.query_of; rewrite !query_values_app, ?query_values_same, ?query_values_other by done; repeat case_match; simpl; rewrite ?app_nil_r; try done.

(** The directory's limit, as the relay understands the client's. *)
Definition asked_limit (n : Z) : Z := if 0 <? n then n else 50.
Lemma small_limits : forallb (λ n, bool_decide (Atoi (pretty n) = Some n) && bool_decide (trim_space (pretty n) = pretty n) && negb (bool_decide (pretty n = "")))
  (seqZ 1 50) = true.
Proof. vm_compute. reflexivity. Qed.
Lemma limit_text n : 1 <= n <= 50 → Atoi (pretty n) = Some n ∧ trim_space (pretty n) = pretty n ∧ pretty n ≠ "".
Proof.
  intros Hn. pose proof small_limits as Hall. rewrite forallb_forall in Hall. specialize (Hall n).
  destruct (andb_prop _ _ (Hall ltac:(apply list_elem_of_In, elem_of_seqZ; lia))) as [[H1 H2]%andb_prop H3].
  apply bool_decide_eq_true in H1, H2. apply negb_true_iff, bool_decide_eq_false in H3. done.
Qed.
Definition asked_query (q : Client.AgentQuery) : AgentQuery :=
  mkAgentQuery (Client.aq_Need q) (Client.aq_Capabilities q) (Client.aq_WorkspaceAliases q) (Client.aq_OnlineOnly q) (Client.aq_AcceptingOnly q)
    (asked_limit (Client.aq_Limit q)).

Lemma query_of_reads q : Client.aq_Limit q <= 50 →
  query_get "need" (Client.query_of q) = Client.aq_Need q ∧ query_values "capability" (Client.query_of q) = Client.aq_Capabilities q ∧
  query_values "workspace_alias" (Client.query_of q) = Client.aq_WorkspaceAliases q ∧
  bool_decide (query_get "online_only" (Client.query_of q) = "true") = Client.aq_OnlineOnly q ∧
  bool_decide (query_get "accepting_only" (Client.query_of q) = "true") = Client.aq_AcceptingOnly q ∧
  query_get "limit" (Client.query_of q) = (if 0 <? Client.aq_Limit q then pretty (Client.aq_Limit q) else "").
Proof.
  intros Hq. destruct q as [need caps ws online accepting limit]. unfold query_get. split_and!; unfold Client.query_of; cbn [Client.aq_Need Client.aq_Capabilities Client.aq_WorkspaceAliases Client.aq_OnlineOnly Client.aq_AcceptingOnly Client.aq_Limit];
    rewrite !query_values_app, ?query_values_same, ?query_values_other by done.
  all: destruct accepting, online, (0 <? limit), (bool_decide (need = "")) eqn:Hneed; try apply bool_decide_eq_true in Hneed as ->; cbn; by rewrite ?app_nil_r.
Qed.
Lemma agents_reaches q : Client.aq_Limit q <= 50 →
  reaches ReplyAgents (Client.ListAgents Do json_size reply_size c q) (CollabHttp.collab_call (ListAgents p (asked_query q))).
Proof.
  intros Hq. destruct (query_of_reads q Hq) as (H1 & H2 & H3 & H4 & H5 & H6).
  eapply (call_reaches _ _ _ _ _ _ _ _ _ (λ a, writeJSON 200 (ReplyAgents a)));
    [done|apply (list_elem_of_lookup_2 _ 16); reflexivity|split; [cbn [rt_Pattern app]; reflexivity|reflexivity]|reflexivity| |apply answers_collab|done].
  intros s. cbv beta. cbn [hr_Query Client.request]. rewrite H1, H2, H3, H4, H5, H6. unfold asked_query, asked_limit.
  destruct (0 <? Client.aq_Limit q) eqn:Hpos; [|done]. destruct (limit_text (Client.aq_Limit q)) as (Hatoi & Htrim & Hne); [lia|].
  rewrite Htrim, bool_decide_false, Hatoi by done. assert (in_range 1 50 (Client.aq_Limit q) = true) as -> by (unfold in_range; lia). done.
Qed.

(** C21. A call of the client is a call of the store.  A device's client talks
    to the relay process over a connection that holds, the names it sends are
    ones a path carries as they are, and its bodies fit the relay's limit.  Then
    each method does exactly what the operation of the collaboration store does
    for the principal its token authenticates, on the body with its text
    repaired to UTF-8, with the notifications that follow: the same effect on
    Redis and the hub; the same answer, repaired likewise, unless it is longer
    than the 6 MiB the client reads, which is then an error although the store
    has done its work; and the same error under its HTTP status and code. *)
Theorem client_calls_reach_store id : plain_name id →
  (∀ hb, fits hb → reaches ReplyCard (Client.Heartbeat Do json_size reply_size c hb) (CollabHttp.collab_call (Heartbeat p (Client.coerce hb)))) ∧
  (∀ q, Client.aq_Limit q <= 50 → reaches ReplyAgents (Client.ListAgents Do json_size reply_size c q) (CollabHttp.collab_call (ListAgents p (asked_query q)))) ∧
  reaches inbox_reply (Client.Inbox Do json_size reply_size c) inbox_call ∧
  (∀ input, fits input → reaches ReplyMutation (Client.CreateRequest Do json_size reply_size c input) (create_call (Client.coerce input))) ∧
  reaches ReplyRequest (Client.GetRequest Do json_size reply_size c id) (CollabHttp.collab_call (GetRequest p id)) ∧
  reaches ReplyProposal (Client.InspectProposal Do json_size reply_size c id) (CollabHttp.collab_call (InspectProposal p id)) ∧
  (∀ d, fits d → reaches ReplyMutation (Client.Decide Do json_size reply_size c id d) (CollabHttp.collab_call (Decide p id (Client.coerce d)))) ∧
  reaches ReplyExecution (Client.FetchExecution Do json_size reply_size c id) (CollabHttp.collab_call (FetchExecution p id)) ∧
  (∀ claim, fits (mkExecutionClaimPayload claim) → reaches ReplyMutation (Client.MarkRunning Do json_size reply_size c id claim) (CollabHttp.collab_call (MarkRunning p id (Client.coerce claim)))) ∧
  (∀ res, fits res → reaches ReplyMutation (Client.SubmitResult Do json_size reply_size c id res) (CollabHttp.collab_call (SubmitResult p id (Client.coerce res)))) ∧
  reaches ReplyMutation (Client.CancelRequest Do json_size reply_size c id) (cancel_call id) ∧
  reaches ReplyArtifact (Client.FetchArtifact Do json_size reply_size c id) (CollabHttp.collab_call (FetchArtifact p id)).
Proof.
  intros Hid. split_and!; auto using heartbeat_reaches, agents_reaches, inbox_reaches, create_reaches, get_request_reaches, inspect_reaches,
    decide_reaches, execution_reaches, running_reaches, result_reaches, cancel_reaches, artifact_reaches.
Qed.
End calls.
