(* ===== verification/HttpWitness.v ===== *)
(** * The theorems about the relay at concrete inputs

    The relay process on the sample histories of the two stores. *)

From S2P Require Import Prelude GoString Sha256 Protocol Auth Records Redis RedisLogic MemRedis CollabStore CollabScenario Hub Http Relay RelayAccess StreamReplay ClientProofs.
From S2P Require AdminStore AdminProofs AdminHttp CollabHttp AdminWitness CollabWitness Client.
From Stdlib Require Import Ascii.

Local Open Scope Z_scope.

Definition plain_request (m : http_method) (path : list string) (token : string) : http_request :=
  mkHttpRequest m path ["Bearer " +:+ token] "application/json" [] BodyBad.
Definition quiet_stream : CollabHttp.stream := CollabHttp.mkStream true [] [].
Definition boot : string := "tr_boot_secret".

(** Dana's device credential, asked to list the invites, is refused. *)
Definition dana_asks : http_request := plain_request GET ["v1"; "admin"; "invites"] AdminWitness.device_token.
Definition enrolled_relay : relay memdb := mkRelay AdminWitness.a_enrolled NewHub [].
Lemma relay_refuses_strangers_witness :
  presents dana_asks enrolled_relay AdminWitness.dana ∧
  ∃ s' resp, serve boot quiet_stream dana_asks enrolled_relay = (s', Answered resp) ∧
    inert anything enrolled_relay s' ∧ refusal resp.
Proof.
  split; [exists (AdminHttp.AuthenticateRequest dana_asks (rl_world enrolled_relay)).1; by_run|].
  apply (relay_refuses_strangers (DB := memdb) anything boot quiet_stream dana_asks enrolled_relay).
  intros (p & [w Hw] & Hadmin). apply (f_equal snd) in Hw. vm_compute in Hw. injection Hw as <-. discriminate Hadmin.
Defined.

(** The administrator revokes Dana's device while Dana has a stream. *)
Definition root_revokes : http_request :=
  plain_request DELETE (device_path (p_DeviceID AdminWitness.dana)) AdminWitness.admin_token.
Definition dana_key : string := hub_key (p_OrganizationID AdminWitness.root) (p_AgentID AdminWitness.dana).
Definition dana_online : relay memdb :=
  mkRelay AdminWitness.a_enrolled (Subscribe (p_OrganizationID AdminWitness.root) (p_AgentID AdminWitness.dana) NewHub).2 [].
Definition served_status (x : relay memdb * outcome) : Z := match x.2 with Answered r => rs_Status r | Panicked => 0 end.
Definition answer_of (x : relay memdb * outcome) : response := match x.2 with Answered r => r | Panicked => writeError 0 "" end.
Lemma served_pair (x : relay memdb * outcome) : served_status x ≠ 0 → x = (x.1, Answered (answer_of x)).
Proof. by destruct x as [s []]. Qed.
Definition revoked_relay : relay memdb * outcome := serve boot quiet_stream root_revokes dana_online.
Lemma device_revocation_cuts_off_witness :
  elements (subs (rl_hub dana_online) dana_key) = [0%nat] ∧ served_status revoked_relay = 204 ∧
  IsRevoked (p_OrganizationID AdminWitness.root) (p_AgentID AdminWitness.dana) (rl_hub revoked_relay.1) = true ∧
  AdminProofs.cut_off (p_OrganizationID AdminWitness.root) (p_DeviceID AdminWitness.dana) (p_AgentID AdminWitness.dana)
    (w_db (rl_world revoked_relay.1)).
Proof.
  split; [vm_compute; reflexivity|]. split; [vm_compute; reflexivity|].
  destruct (device_revocation_cuts_off (DB := memdb) boot quiet_stream (p_DeviceID AdminWitness.dana) (p_AgentID AdminWitness.dana) root_revokes dana_online
    revoked_relay.1 (answer_of revoked_relay) AdminWitness.root) as (_ & Hcut & Hrev & _).
  - vm_compute. discriminate.
  - reflexivity.
  - reflexivity.
  - apply Subscribe_ok, NewHub_ok.
  - exists (AdminHttp.AuthenticateRequest root_revokes (rl_world dana_online)).1. by_run.
  - exact AdminWitness.dana_stored.
  - vm_compute. discriminate.
  - apply Forall_nil_2.
  - apply (served_pair revoked_relay). vm_compute. discriminate.
  - vm_compute. reflexivity.
  - split; [|exact Hcut]. replace (trim_space (p_AgentID AdminWitness.dana)) with (p_AgentID AdminWitness.dana) in Hrev by (vm_compute; reflexivity). exact Hrev.
Defined.

(** Bob opens a stream while Alice's request is pending; another goroutine
    publishes a cancellation and another replica writes to Redis meanwhile. *)
Definition cancelled : hub_event := mkEvent "peer_cancelled" (FrameCancelled "req_other" "conv_other").
Definition two_events : CollabHttp.stream :=
  CollabHttp.mkStream true [true] [CollabHttp.SelectKeepalive true; CollabHttp.SelectEvent true; CollabHttp.SelectDone].
Definition bob_auth : http_request → M mem_world (rerror AdminStore.serr) Principal := λ _, mret bob.
Definition bob_asks : http_request := plain_request GET ["v1"; "events"] "".
Definition created_world : mem_world := mkWorld (w_db w_created) [EnvOk id; EnvOk id] None test_clock 10 test_rand 10.
Definition created_relay : relay memdb :=
  mkRelay created_world NewHub [[]; [APublishSend "acme" "agent_bob" cancelled]; []].
Definition frames_of (x : relay memdb * (outcome + response)) : list frame :=
  match x.2 with inr (mkResponse _ _ (ReplyStream l)) => l | _ => [] end.
Definition bob_stream : relay memdb * (outcome + response) := CollabHttp.events (Some bob_auth) two_events bob_asks created_relay.
Definition pending_now : storedRequest := CollabWitness.stored_now w_created.
Lemma stream_misses_nothing_witness :
  frames_of bob_stream = [FrameReady; FrameNotice (notice (sr_Request pending_now)); FrameKeepalive; FrameCancelled "req_other" "conv_other"] ∧
  ∃ l live, frames_of bob_stream = FrameReady :: (FrameNotice <$> l) ++ live ∧ notice (sr_Request pending_now) ∈ l.
Proof.
  assert (frames_of bob_stream = [FrameReady; FrameNotice (notice (sr_Request pending_now)); FrameKeepalive; FrameCancelled "req_other" "conv_other"]) as Hf
    by (vm_compute; reflexivity).
  split; [exact Hf|].
  destruct (stream_misses_nothing (DB := memdb) bob_auth two_events bob_asks created_relay created_world bob) as (s' & frames & Hrun & Hcase).
  - apply NewHub_ok.
  - reflexivity.
  - reflexivity.
  - repeat split.
  - cbn. apply Forall_cons_2; [|apply Forall_cons_2; [apply not_elem_of_nil|apply Forall_nil_2]].
    intros [Ha|Ha%elem_of_nil]%elem_of_cons; [discriminate Ha|exact Ha].
  - change (bob_stream = (s', inr (mkResponse 200 CollabHttp.stream_headers (ReplyStream frames)))) in Hrun.
    rewrite Hrun in Hf |- *. cbn [frames_of snd] in Hf |- *. destruct Hcase as [[-> _]|[[-> _]|(l & live & -> & Hrep & _)]]; [discriminate Hf|discriminate Hf|].
    exists l, live. split; [reflexivity|]. apply Hrep.
    + vm_compute. reflexivity.
    + vm_compute. reflexivity.
    + apply (bool_decide_unpack _). vm_compute. exact I.
    + repeat (apply Forall_cons_2; [intros d Hd; exact Hd|]). apply Forall_nil_2.
    + assert (w_ticks (rl_world bob_stream.1) = 11%nat) as Ht by (vm_compute; reflexivity). rewrite Hrun in Ht. cbn [fst] in Ht.
      intros n' [H1 H2]. rewrite Ht in H2. assert (n' = 10%nat) as -> by (cbn in H1; lia). vm_compute. reflexivity.
Defined.

(** Dana's client asks for a request that does not exist. *)
Definition dana_client : Client.Client := Client.mkClient "" AdminWitness.device_token.
Definition small_bodies (_ : input) : Z := 100.
Definition small_answers (_ : reply) : Z := 1000.
Definition loop : http_request → M (relay memdb) () response := Client.Loopback boot quiet_stream.
Definition request_asked : relay memdb * (Client.client_error + Request) :=
  Client.GetRequest loop small_bodies small_answers dana_client "req_1" enrolled_relay.
Lemma client_calls_reach_store_witness :
  request_asked.2 = inl (Client.RelayError 404 "not_found") ∧
  request_asked = (let (s', r) := CollabHttp.collab_call (GetRequest AdminWitness.dana "req_1")
      (set_world (AdminHttp.AuthenticateRequest (bearer_request AdminWitness.device_token) AdminWitness.a_enrolled).1 enrolled_relay) in
    (s', client_result small_answers ReplyRequest r)).
Proof.
  split; [vm_compute; reflexivity|].
  destruct (client_calls_reach_store (DB := memdb) boot quiet_stream small_bodies small_answers AdminWitness.device_token AdminWitness.dana
    eq_refl "req_1") as (_ & _ & _ & _ & Hget & _).
  - split_and!; [discriminate|discriminate|discriminate|vm_compute; reflexivity|apply (bool_decide_unpack _); vm_compute; exact I].
  - apply Hget. unfold authenticates. by_run.
Defined.

(** The relay answers an administrative route with an object under [error],
    whose code the client does not read. *)
Example enroll_error_loses_its_code :
  ((AdminHttp.handleStoreError (Sentinel AdminStore.ErrUnauthorized)).(rs_Reply),
   (Client.Enroll loop small_bodies small_answers dana_client (mkEnrollRequest "Dana" "desk" "claude" "" "" ("tr_enroll_" +:+ GoString.concat_strings (repeat "0" 64))) enrolled_relay).2) =
  (ReplyFailure "unauthorized", inl (Client.RelayError 401 "")).
Proof. vm_compute. reflexivity. Qed.
