(* ===== verification/Adapters.v ===== *)
(** * The local runtimes ([internal/runtime/process.go], [approval_fingerprint.go],
    [claude/adapter.go], [codex/adapter.go], [external/adapter.go])

    How an approved request becomes one child process: its command line, its
    environment, its private files, and how its output becomes an answer.  The
    child is arbitrary: a function of everything it is started with.  A line of
    its output arrives as the value of its JSON for the Go type of its events,
    [None] standing for a blank line, for one that is no JSON, and for JSON of
    another shape, which are all skipped. *)

From S2P Require Import Prelude GoString Sha256 GoStringFacts Json Policy Redact Artifact Sandbox.
From Stdlib Require Import Ascii.

Local Open Scope Z_scope.

(** ** Strings and paths *)

Definition has_byte (c : ascii) (s : string) : bool := bool_decide (c ∈ bytes s).
Fixpoint map_bytes (f : ascii → ascii) (s : string) : string :=
  match s with EmptyString => EmptyString | String c s' => String (f c) (map_bytes f s') end.
(** [strings.ReplaceAll] of one byte by another *)
Definition replace_byte (old new : ascii) (s : string) : string := map_bytes (λ c, if Ascii.eqb c old then new else c) s.

(** [filepath.Base] and [filepath.Dir] on Unix *)
Definition path_Base (p : string) : string :=
  if bool_decide (p = "") then "." else
  default "/" (last (List.filter (λ c, negb (bool_decide (c = ""))) (split_byte "/"%char p))).
Definition path_Dir (p : string) : string :=
  match reverse (split_byte "/"%char p) with
  | _ :: (_ :: _) as directory => Clean (join "/" (reverse directory) +:+ "/")
  | _ => Clean ""
  end.

(** [strconv.IsPrint] beyond ASCII *)
Class PrintTable := uni_print : Z → bool.
Definition hex_byte (c : ascii) : string := hex_encode (String c "").
Section quote.
Context `{PT : PrintTable}.
Definition is_print (r : Z) : bool := if r <? 128 then in_range 32 126 r else uni_print r.
(** [strconv.Quote] *)
Definition quote_rune (p : Z * string) : string :=
  let (r, raw) := p in
  let h n := String (hex_digit (Z.land (Z.shiftr r n) 15)) "" in
  if (r =? RuneError) && bool_decide (String.length raw = 1%nat) then backslash +:+ "x" +:+ hex_encode raw else
  if (r =? 34) || (r =? 92) then backslash +:+ raw else
  if is_print r then raw else
  if r =? 7 then backslash +:+ "a" else if r =? 8 then backslash +:+ "b" else
  if r =? 12 then backslash +:+ "f" else if r =? 10 then backslash +:+ "n" else
  if r =? 13 then backslash +:+ "r" else if r =? 9 then backslash +:+ "t" else
  if r =? 11 then backslash +:+ "v" else
  if (r <? 32) || (r =? 127) then backslash +:+ "x" +:+ hex_encode raw else
  if r <? 65536 then escape_u r else
  backslash +:+ "U" +:+ h 28 +:+ h 24 +:+ h 20 +:+ h 16 +:+ h 12 +:+ h 8 +:+ h 4 +:+ h 0.
Definition Quote (s : string) : string := dquote +:+ concat_strings (quote_rune <$> segments s) +:+ dquote.
End quote.
(** ASCII only, for evaluating concrete inputs. *)
Definition ascii_print : PrintTable := λ _, false.

(** ** Events and results *)

Inductive EventType :=
  | EventStarting | EventSession | EventProgress | EventToolStarted | EventToolFinished
  | EventFinishing | EventCompleted | EventWarning | EventTypeOther (raw : string).
(** [CostUSD] is the bit pattern of a float64. *)
Record Usage := mkUsage {
  us_InputTokens : Z; us_OutputTokens : Z; us_CachedTokens : Z; us_CostUSD : Z; us_Duration : Z }.
Definition no_usage : Usage := mkUsage 0 0 0 0 0.
(** [Event], without the time it is stamped with. *)
Record RuntimeEvent := mkRuntimeEvent {
  re_Type : EventType; re_Summary : string; re_Tool : string; re_Session : option SessionRef; re_Usage : option Usage }.
Definition event (type : EventType) (summary : string) : RuntimeEvent := mkRuntimeEvent type summary "" None None.

(** [RunResult] with all its fields; the receiver reads the first two. *)
Record RuntimeResult := mkRuntimeResult {
  ar_FinalText : string; ar_Session : option SessionRef; ar_Usage : Usage; ar_EffectivePolicy : Policy }.
Definition run_result (r : RuntimeResult) : RunResult := mkRunResult (ar_FinalText r) (ar_Session r).
Definition ar_set_text (text : string) (r : RuntimeResult) : RuntimeResult :=
  mkRuntimeResult text (ar_Session r) (ar_Usage r) (ar_EffectivePolicy r).
Definition ar_set_session (s : option SessionRef) (r : RuntimeResult) : RuntimeResult :=
  mkRuntimeResult (ar_FinalText r) s (ar_Usage r) (ar_EffectivePolicy r).
Definition ar_set_usage (u : Usage) (r : RuntimeResult) : RuntimeResult :=
  mkRuntimeResult (ar_FinalText r) (ar_Session r) u (ar_EffectivePolicy r).

(** [time.Duration(ms) * time.Millisecond] in 64 bits *)
Definition milliseconds (ms : Z) : Z := (ms * 1000000 + 2 ^ 63) mod 2 ^ 64 - 2 ^ 63.

(** The texts of errors are left out, but for what a runtime wrote. *)
Inductive adapter_error :=
  | ErrRequest (e : run_request_error) | ErrPolicyInvalid (e : policy_error) | ErrBashWithoutWrites | ErrPrefixArgs
  | ErrProfile | ErrRunnerID | ErrExecutableRequired | ErrShell | ErrWorkDir | ErrMCPConfig | ErrMCPUnsupported
  | ErrContainment | ErrPreflight | ErrResidualMCP | ErrUnavailable | ErrVersion | ErrModelOverride | ErrNoCapabilities
  | ErrSink | ErrEnvironment | ErrStart | ErrReadOutput (e : adapter_error) | ErrScan | ErrContext | ErrExited (diagnostic : string)
  | ErrTooLong | ErrProtocol | ErrEmptyResult | ErrReported (summary : string) | ErrNoFinalAnswer.

(** ** The machine *)

Definition mcp_servers : Type := gmap string json.
(** What [readBoundedRegularFile] observes of a file, in its order. *)
Inductive lookup_result := LookupMissing | LookupFailed | LookupFound (regular : bool) (file : nat).
Inductive open_result := OpenMissing | OpenFailed | Opened (file : option nat).
Record claudeProjectState := mkProject { pj_MCPServers : mcp_servers; pj_DisabledMCPServers : list string }.
Record claudeConfig := mkClaudeConfig { cc_MCPServers : mcp_servers; cc_Projects : gmap string claudeProjectState }.
Record file_view := mkFileView {
  fv_before : lookup_result; fv_open : open_result;
  fv_payload : option (Z * option claudeConfig);   (** length and JSON value of the content *)
  fv_closed : bool; fv_after : lookup_result }.
Inductive create_result := DirectoryCreated | DirectoryExists | DirectoryFailed.

(** The operating system as one operation of an adapter finds it. *)
Record host := mkHost {
  ho_environ : list string;                    (** [os.Environ] *)
  ho_LookPath : string → bool;
  ho_Abs : string → option string;             (** [filepath.Abs] *)
  ho_EvalSymlinks : string → option string;
  ho_IsDir : string → option bool;             (** [os.Stat] *)
  ho_HomeDir : option string;
  ho_File : string → file_view;
  ho_HasGit : string → bool;                   (** [.git] there is a directory or a regular file *)
  ho_Stat : string → option nat;               (** the file a path names *)
  ho_TempDir : string;
  ho_Random : nat → option string;             (** [crypto/rand] *)
  ho_CreateDirectory : string → create_result;
  ho_WriteNewFile : string → bool;
  ho_MkdirTemp : option string }.

(** ** Running a child ([process.go]) *)

Record CommandSpec := mkCommandSpec {
  sp_Executable : string; sp_Args : list string; sp_Directory : string; sp_Stdin : string;
  sp_EnvironmentAllowlist : list string; sp_Environment : gmap string string }.
(** What the operating system is asked to start, and the private files the
    child finds there. *)
Record launch := mkLaunch {
  la_Executable : string; la_Args : list string; la_Directory : string; la_Stdin : string;
  la_Env : list string; la_Files : gmap string mcp_servers }.
(** What the child does. *)
Record process (E : Type) := mkProcess {
  pc_starts : bool; pc_lines : list (option E);
  pc_scanned : bool;                           (** no line too long, no read error *)
  pc_exits : bool;                             (** exit status 0 *)
  pc_cancelled : bool; pc_stderr : string }.
Arguments mkProcess {_}. Arguments pc_starts {_}. Arguments pc_lines {_}. Arguments pc_scanned {_}.
Arguments pc_exits {_}. Arguments pc_cancelled {_}. Arguments pc_stderr {_}.

(** The state of one operation of an adapter; [X] is the adapter's own. *)
Record run_state (X : Type) := mkRun {
  rn_events : list RuntimeEvent;               (** given to the sink *)
  rn_launched : list launch;
  rn_files : gmap string mcp_servers;          (** private configuration files *)
  rn_result : RuntimeResult;
  rn_extra : X }.
Arguments mkRun {_}. Arguments rn_events {_}. Arguments rn_launched {_}. Arguments rn_files {_}.
Arguments rn_result {_}. Arguments rn_extra {_}.
Abbreviation RM X := (M (run_state X) adapter_error).

(** [ValidateWorkDir] *)
Definition ValidateWorkDir (h : host) (path : string) : adapter_error + string :=
  if bool_decide (trim_space path = "") then inl ErrWorkDir else
  match ho_Abs h path with
  | None => inl ErrWorkDir
  | Some abs =>
    match ho_EvalSymlinks h (Clean abs) with
    | None => inl ErrWorkDir
    | Some canonical =>
      match ho_IsDir h canonical with
      | Some true => inr (Clean canonical)
      | _ => inl ErrWorkDir
      end
    end
  end.

(** ** The environment of a child ([process.go]) *)

Section adapters.
Context `{UT : UnicodeTables} `{PT : PrintTable}.

Definition default_environment : list string :=
  ["ALL_PROXY"; "APPDATA"; "CLAUDE_CONFIG_DIR"; "CODEX_HOME"; "COLORTERM"; "COMSPEC"; "CURL_CA_BUNDLE"; "HOME";
   "HTTPS_PROXY"; "HTTP_PROXY"; "LANG"; "LANGUAGE"; "LOCALAPPDATA"; "LOGNAME"; "NODE_EXTRA_CA_CERTS"; "NO_COLOR";
   "NO_PROXY"; "PATH"; "PATHEXT"; "PROGRAMDATA"; "REQUESTS_CA_BUNDLE"; "SHELL"; "SSL_CERT_DIR"; "SSL_CERT_FILE";
   "SYSTEMROOT"; "TEMP"; "TERM"; "TMP"; "TMPDIR"; "USER"; "USERPROFILE"; "WINDIR"; "XDG_CACHE_HOME";
   "XDG_CONFIG_HOME"; "XDG_DATA_HOME"; "XDG_STATE_HOME"].
Definition relayAuthorityVariable (upper : string) : bool := has_prefix upper "TEAM_RELAY_".
(** One turn of the loops over [additionalAllowed] and [values]. *)
Definition add_allowed (allowed : gset string) (name : string) : gset string :=
  let name := to_upper (trim_space name) in
  if negb (bool_decide (name = "")) && negb (relayAuthorityVariable name) then {[name]} ∪ allowed else allowed.
(** [strings.Cut(item, "=")] *)
Definition variable_name (item : string) : string := before_byte "="%char item.
Definition environment_keeps (allowed : gset string) (item : string) : bool :=
  has_byte "="%char item &&
  let upper := to_upper (variable_name item) in
  negb (relayAuthorityVariable upper) && (bool_decide (upper ∈ allowed) || has_prefix upper "LC_").
Definition SanitizedEnvironment (environment additionalAllowed : list string) : list string :=
  let allowed := fold_left add_allowed additionalAllowed (list_to_set default_environment) in
  List.filter (environment_keeps allowed) environment.
Definition CanonicalEnvironmentAllowlist (values : list string) : list string :=
  sort_strings (elements (fold_left add_allowed values ∅)).

Definition nul : ascii := byte_of 0.
Definition bad_override (name value : string) : bool :=
  bool_decide (name = "") || has_byte "="%char name || has_byte nul name || has_byte nul value ||
  relayAuthorityVariable (to_upper name).
(** One turn of the second loop of [trustedEnvironment]. *)
Definition override (extra : gmap string string) (result : list string) (name : string) : list string :=
  List.filter (λ item, negb (has_byte "="%char item) || negb (bool_decide (to_upper (variable_name item) = to_upper name))) result
  ++ [name +:+ "=" +:+ default "" (extra !! name)].
Definition trustedEnvironment (base : list string) (extra : gmap string string) : adapter_error + list string :=
  if existsb (λ kv, bad_override kv.1 kv.2) (map_to_list extra) then inl ErrEnvironment else
  inr (fold_left (override extra) (sort_strings (map_to_list extra).*1) base).

(** *** Execution *)

(** Whether the sink takes the last of the events it was given. *)
Variable sink : list RuntimeEvent → bool.

Section steps.
Context {X : Type}.
Definition add_launch (l : launch) (s : run_state X) : run_state X :=
  mkRun (rn_events s) (rn_launched s ++ [l]) (rn_files s) (rn_result s) (rn_extra s).
Definition set_result (r : RuntimeResult) (s : run_state X) : run_state X :=
  mkRun (rn_events s) (rn_launched s) (rn_files s) r (rn_extra s).
Definition set_extra (x : X) (s : run_state X) : run_state X :=
  mkRun (rn_events s) (rn_launched s) (rn_files s) (rn_result s) x.
Definition set_files (f : gmap string mcp_servers) (s : run_state X) : run_state X :=
  mkRun (rn_events s) (rn_launched s) f (rn_result s) (rn_extra s).
Definition update_result (f : RuntimeResult → RuntimeResult) : RM X () := modify (λ s, set_result (f (rn_result s)) s).
Definition update_extra (f : X → X) : RM X () := modify (λ s, set_extra (f (rn_extra s)) s).
(** [Emit] *)
Definition safe_event (e : RuntimeEvent) : RuntimeEvent :=
  mkRuntimeEvent (re_Type e) (SafeSummary (re_Summary e)) (SafeSummary (re_Tool e)) (re_Session e) (re_Usage e).
Definition Emit (e : RuntimeEvent) : RM X () := λ s,
  let events := rn_events s ++ [safe_event e] in
  (mkRun events (rn_launched s) (rn_files s) (rn_result s) (rn_extra s), if sink events then inr () else inl ErrSink).
(** [defer] *)
Definition finally {A} (cleanup : run_state X → run_state X) (m : RM X A) : RM X A :=
  λ s, let (s', r) := m s in (cleanup s', r).
Definition checked {E A} (f : E → adapter_error) (r : E + A) : RM X A :=
  match r with inl e => throw (f e) | inr a => mret a end.

(** From [cmd.Start] on; what the reader of [stderr] keeps is its start. *)
Definition consume {E} (p : process E) (onLine : E → RM X ()) : RM X () :=
  reject_if (negb (pc_starts p)) ErrStart ≫= λ _,
  scanned ← attempt (mapM_ (λ line, match line with Some e => onLine e | None => mret () end) (pc_lines p));
  match scanned with
  | inl e => throw (ErrReadOutput e)
  | inr _ =>
    reject_if (negb (pc_scanned p)) (ErrReadOutput ErrScan) ≫= λ _,
    if pc_exits p then mret () else
    if pc_cancelled p then throw ErrContext else
    throw (ErrExited (Diagnostic (take_bytes (Z.to_nat MaxDiagnosticBytes) (pc_stderr p))))
  end.
Definition ExecuteJSONLines {E} (h : host) (child : launch → process E) (spec : CommandSpec) (onLine : E → RM X ()) : RM X () :=
  environment ← lift (trustedEnvironment (SanitizedEnvironment (ho_environ h) (sp_EnvironmentAllowlist spec)) (sp_Environment spec));
  files ← gets rn_files;
  let l := mkLaunch (sp_Executable spec) (sp_Args spec) (sp_Directory spec) (sp_Stdin spec) environment files in
  modify (add_launch l) ≫= λ _,
  consume (child l) onLine.
(** [ProbeCommand]; the child answers with its whole output. *)
Definition ProbeCommand (h : host) (child : launch → option string) (executable : string)
    (prefixArgs environmentAllowlist versionArgs : list string) : RM X string :=
  reject_if (negb (ho_LookPath h executable)) ErrUnavailable ≫= λ _,
  let l := mkLaunch executable (prefixArgs ++ versionArgs) "" "" (SanitizedEnvironment (ho_environ h) environmentAllowlist) ∅ in
  modify (add_launch l) ≫= λ _,
  match child l with None => throw ErrVersion | Some output => mret (SafeSummary output) end.
End steps.

Definition recipientRunEnvironment : gmap string string := {[ "AGENT_RELAY_RECIPIENT_RUN" := "1" ]}.
Definition not_resumed : RuntimeEvent :=
  event EventWarning "Previous session was not resumed because its runtime, directory, or permission profile changed".
(** [sessionRef] of every adapter *)
Definition sessionRef (runtimeID workDir id : string) (p : Policy) : SessionRef :=
  mkSessionRef runtimeID id (PolicyFingerprint p) (WorkDirFingerprint workDir).
Definition set_session (s : option SessionRef) {X} : RM X () := update_result (ar_set_session s).
Definition set_text (text : string) {X} : RM X () := update_result (ar_set_text text).
Definition blank (s : string) : bool := bool_decide (trim_space s = "").

(** [ApprovalConfigFingerprint]: decoding makes maps of objects, encoding
    sorts their keys, and a text that is no UTF-8 is repaired on the way. *)
Definition utf8_text (s : string) : string := string_of_runes (runes s).
Definition key_le (x y : string * json) : Prop := str_le x.1 y.1.
#[export] Instance key_le_dec : RelDecision key_le := λ x y, str_le_dec x.1 y.1.
Fixpoint canonical (j : json) : json :=
  match j with
  | JStr s => JStr (utf8_text s)
  | JArr l => JArr (map canonical l)
  | JObj fields =>
    let members := map (λ f, (utf8_text f.1, canonical f.2)) fields in
    JObj (merge_sort key_le (map_to_list (list_to_map (M := gmap string json) (reverse members))))
  | _ => j
  end.
Definition ApprovalConfigFingerprint (configuration : json) : string := json_digest (canonical configuration).
(** A slice that may be nil; [append([]string(nil), ...)] of nothing is. *)
Definition json_strings (l : list string) : json := JArr (JStr <$> l).
Definition json_slice (l : list string) : json := match l with [] => JNull | _ => json_strings l end.

(** ** Claude Code ([claude/adapter.go]) *)

Definition claude_RuntimeID : string := "claude-code".
Definition maxClaudeConfigBytes : Z := 16777216.
Definition temporaryNameAttempts : nat := 100.

Record claude_Config := mkClaudeSetup {
  cg_Executable : string; cg_PrefixArgs : list string; cg_WorkDir : string; cg_Model : string;
  cg_EnvironmentAllowlist : list string; cg_Policy : Policy; cg_Timeout : Z }.
(** [Adapter], but for its frozen servers. *)
Record claude_Adapter := mkClaude {
  cl_executable : string; cl_prefixArgs : list string; cl_workDir : string; cl_model : string;
  cl_environmentAllowlist : list string; cl_policy : Policy; cl_timeout : Z }.
(** The frozen servers ([mcpOnce]), and the variables of one run. *)
Record claude_state := mkClaudeState {
  cx_frozen : option (adapter_error + mcp_servers); cx_toolNames : gmap string string; cx_providerError : bool }.
Definition cx_set_frozen v (x : claude_state) : claude_state := mkClaudeState (Some v) (cx_toolNames x) (cx_providerError x).
Definition cx_set_tools t (x : claude_state) : claude_state := mkClaudeState (cx_frozen x) t (cx_providerError x).
Definition cx_set_error b (x : claude_state) : claude_state := mkClaudeState (cx_frozen x) (cx_toolNames x) b.

Definition default_timeout (timeout : Z) : Z := if timeout <=? 0 then 30 * 60 * 1000000000 else timeout.
Definition or_default (s default : string) : string := if bool_decide (s = "") then default else s.

Definition validateClaudePrefixArgs (args : list string) : adapter_error + () :=
  fail_if (existsb (λ argument, bool_decide (before_byte "="%char (trim_space argument) ∈ ["--mcp-config"; "--strict-mcp-config"])) args)
    ErrPrefixArgs.
Definition claude_capabilities (p : Policy) : Capabilities :=
  mkCapabilities claude_RuntimeID "Claude Code" "" false "" true true true true (po_AllowMCPs p)
    (mkPolicyCapabilities EnforcementToolLevel EnforcementBestEffort EnforcementBestEffort EnforcementBestEffort
       EnforcementToolLevel EnforcementToolLevel EnforcementBestEffort).
Definition map_error {E A} (f : E → adapter_error) (r : E + A) : adapter_error + A :=
  match r with inl e => inl (f e) | inr a => inr a end.
Definition validateClaudePolicy (p : Policy) (c : Capabilities) : adapter_error + () :=
  map_error ErrPolicyInvalid (ValidatePolicySupport c p) ≫= λ _,
  fail_if (negb (po_AllowWrites p) && po_AllowShell p) ErrBashWithoutWrites.
Definition claude_New (h : host) (c : claude_Config) : adapter_error + claude_Adapter :=
  validateClaudePrefixArgs (cg_PrefixArgs c) ≫= λ _,
  workDir ← ValidateWorkDir h (cg_WorkDir c);
  policy ← map_error ErrPolicyInvalid (ValidatePolicy (cg_Policy c));
  let adapter := mkClaude (or_default (cg_Executable c) "claude") (cg_PrefixArgs c) workDir (cg_Model c)
    (cg_EnvironmentAllowlist c) policy (default_timeout (cg_Timeout c)) in
  validateClaudePolicy policy (claude_capabilities policy) ≫= λ _,
  mret adapter.

(** *** The recipient's MCP servers *)

Definition readBoundedRegularFile (h : host) (path : string) (limit : Z) : adapter_error + option (option claudeConfig) :=
  let v := ho_File h path in
  match fv_before v with
  | LookupMissing => inr None
  | LookupFailed | LookupFound false _ => inl ErrMCPConfig
  | LookupFound true before =>
    match fv_open v with
    | OpenMissing => inr None
    | OpenFailed => inl ErrMCPConfig
    | Opened opened =>
      fail_if (negb (bool_decide (opened = Some before))) ErrMCPConfig ≫= λ _,
      match fv_payload v with
      | None => inl ErrMCPConfig
      | Some (size, value) =>
        fail_if (negb (fv_closed v)) ErrMCPConfig ≫= λ _,
        fail_if (limit <? size) ErrMCPConfig ≫= λ _,
        match fv_after v with
        | LookupFound _ after => fail_if (negb (bool_decide (before = after))) ErrMCPConfig ≫= λ _, mret (Some value)
        | _ => inl ErrMCPConfig
        end
      end
    end
  end.

(** [os.Getenv]: the first entry of the name. *)
Definition getenv (h : host) (name : string) : string :=
  default "" (first_some (λ item, if has_prefix item (name +:+ "=") then Some (drop_bytes (S (String.length name)) item) else None)
    (ho_environ h)).
Definition claudeConfigPath (h : host) : adapter_error + string :=
  let directory := trim_space (getenv h "CLAUDE_CONFIG_DIR") in
  if bool_decide (directory = "") then
    match ho_HomeDir h with Some home => inr (path_Join [home; ".claude.json"]) | None => inl ErrMCPConfig end
  else match ho_Abs h directory with Some absolute => inr (path_Join [absolute; ".claude.json"]) | None => inl ErrMCPConfig end.

(** The loop of [claudeProjectRoot]. *)
Fixpoint project_root (h : host) (fuel : nat) (workDir current : string) : string :=
  match fuel with
  | O => workDir
  | S fuel =>
    if ho_HasGit h current then current else
    let parent := path_Dir current in
    if bool_decide (parent = current) then workDir else project_root h fuel workDir parent
  end.
Definition claudeProjectRoot (h : host) (workDir : string) : string :=
  let current := Clean workDir in project_root h (S (String.length current)) workDir current.
Definition no_project : claudeProjectState := mkProject ∅ [].
Definition matchingClaudeProject (h : host) (projects : gmap string claudeProjectState) (workDir : string) : claudeProjectState :=
  let root := claudeProjectRoot h workDir in
  match projects !! root with
  | Some project => project
  | None =>
    match ho_Stat h root with
    | None => no_project
    | Some rootInfo =>
      default no_project (first_some (λ path, if bool_decide (ho_Stat h path = Some rootInfo) then projects !! path else None)
        (sort_strings (map_to_list projects).*1))
    end
  end.

(** [json.Unmarshal] into [claudeMCPIdentity]: members in order, the names
    without case, null changing nothing but a slice. *)
Record claudeMCPIdentity := mkMCPIdentity { mi_Command : string; mi_Args : list string; mi_URL : string }.
Definition string_member (old : string) (j : json) : option string :=
  match j with JStr s => Some s | JNull => Some old | _ => None end.
Fixpoint string_elements (old : list string) (l : list json) : option (list string) :=
  match l with
  | [] => Some []
  | j :: l' => s ← string_member (default "" (head old)) j; r ← string_elements (tail old) l'; Some (s :: r)
  end.
Definition identity_member (i : claudeMCPIdentity) (f : string * json) : option claudeMCPIdentity :=
  if equal_fold f.1 "command" then s ← string_member (mi_Command i) f.2; Some (mkMCPIdentity s (mi_Args i) (mi_URL i)) else
  if equal_fold f.1 "args" then
    l ← (match f.2 with JArr l => string_elements (mi_Args i) l | JNull => Some [] | _ => None end);
    Some (mkMCPIdentity (mi_Command i) l (mi_URL i)) else
  if equal_fold f.1 "url" then s ← string_member (mi_URL i) f.2; Some (mkMCPIdentity (mi_Command i) (mi_Args i) s) else
  Some i.
Definition mcp_identity (fields : list (string * json)) : option claudeMCPIdentity :=
  fold_left (λ i f, i ≫= λ i, identity_member i f) fields (Some (mkMCPIdentity "" [] "")).

Definition relay_value (value : string) : bool :=
  let normalized := replace_byte (byte_of 92) "/"%char (to_lower (replace_byte "_"%char "-"%char (trim_space value))) in
  let base := path_Base normalized in
  bool_decide (base = "team-relay-mcp") || bool_decide (base = "team-relay-mcp.exe") ||
  contains normalized "team-relay-mcp" || contains normalized "team-relay/team-relay" || contains normalized "/team-relay/".
Definition relay_alias (name : string) : bool :=
  let alias := replace_byte " "%char "-"%char (replace_byte "_"%char "-"%char (to_lower (trim_space name))) in
  bool_decide (alias = "team-relay") || bool_decide (alias = "team-relay-mcp").
Definition isTeamRelayMCPServer (name : string) (raw : json) : adapter_error + bool :=
  if relay_alias name then inr true else
  match raw with
  | JObj fields =>
    match mcp_identity fields with
    | None => inl ErrMCPConfig
    | Some i => inr (existsb relay_value (mi_Command i :: mi_URL i :: mi_Args i))
    end
  | _ => inl ErrMCPConfig
  end.

Definition foreign_server (name : string) (raw : json) : bool :=
  match isTeamRelayMCPServer name raw with inr blocked => negb blocked | inl _ => false end.
(** The last loop of [recipientMCPServers] visits a map; it fails as soon as
    one entry does, whichever comes first. *)
Definition recipientMCPServers (h : host) (workDir : string) : adapter_error + mcp_servers :=
  path ← claudeConfigPath h;
  file ← readBoundedRegularFile h path maxClaudeConfigBytes;
  match file with
  | None => inr ∅
  | Some None => inl ErrMCPConfig
  | Some (Some configured) =>
    let project := matchingClaudeProject h (cc_Projects configured) workDir in
    let servers := pj_MCPServers project ∪ cc_MCPServers configured in
    let servers := fold_left (λ servers name, delete name servers) (pj_DisabledMCPServers project) servers in
    if existsb (λ kv, negb (is_ok (isTeamRelayMCPServer kv.1 kv.2))) (map_to_list servers) then inl ErrMCPConfig else
    inr (filter (λ kv, Is_true (foreign_server kv.1 kv.2)) servers)
  end.
Definition claude_inventory (h : host) (a : claude_Adapter) : adapter_error + mcp_servers :=
  if negb (po_AllowMCPs (cl_policy a)) then inr ∅ else recipientMCPServers h (cl_workDir a).
(** [frozenRecipientMCPServers] *)
Definition frozenRecipientMCPServers (h : host) (a : claude_Adapter) : RM claude_state mcp_servers :=
  x ← gets rn_extra;
  let frozen := match cx_frozen x with Some frozen => frozen | None => claude_inventory h a end in
  update_extra (cx_set_frozen frozen) ≫= λ _,
  lift frozen.

(** *** The private configuration file *)

Fixpoint write_attempts (h : host) (payload : mcp_servers) (remaining attempt : nat) : RM claude_state string :=
  match remaining with
  | O => throw ErrMCPConfig
  | S remaining =>
    match ho_Random h attempt with
    | None => throw ErrMCPConfig
    | Some random =>
      let directory := path_Join [ho_TempDir h; "team-relay-claude-mcp-" +:+ hex_encode random] in
      match ho_CreateDirectory h directory with
      | DirectoryExists => write_attempts h payload remaining (S attempt)
      | DirectoryFailed => throw ErrMCPConfig
      | DirectoryCreated =>
        let path := path_Join [directory; "mcp.json"] in
        reject_if (negb (ho_WriteNewFile h path)) ErrMCPConfig ≫= λ _,
        modify (λ s, set_files (<[path := payload]> (rn_files s)) s) ≫= λ _,
        mret path
      end
    end
  end.
Definition writePrivateMCPConfig (h : host) (payload : mcp_servers) : RM claude_state string :=
  write_attempts h payload temporaryNameAttempts 0.
(** The function it returns. *)
Definition remove_config {X} (path : string) (s : run_state X) : run_state X := set_files (delete path (rn_files s)) s.
Definition prepareMCPConfig (h : host) (a : claude_Adapter) (p : Policy) : RM claude_state string :=
  configured ← frozenRecipientMCPServers h a;
  writePrivateMCPConfig h (if po_AllowMCPs p then configured else ∅).

(** *** The command line *)

Definition additionalDirectories (r : RunRequest) : list string :=
  let seen : gset string := list_to_set (wk_Path <$> rr_Workspaces r) ∪ list_to_set (path_Dir <$> rr_Attachments r) ∪
    (if bool_decide (rr_ReturnDirectory r = "") then ∅ else {[rr_ReturnDirectory r]}) in
  sort_strings (elements seen).
Definition teamRelayTools : list string :=
  ["find_teammates"; "request_teammate_help"; "get_request_status"; "continue_teammate_conversation"; "cancel_request";
   "download_teammate_file"].
(** The loop over the aliases of the relay's own MCP server. *)
Definition nestedRelayTools : list string :=
  concat ((λ alias, ("mcp__" +:+ alias) :: ((λ tool, "mcp__" +:+ alias +:+ "__" +:+ tool) <$> teamRelayTools))
          <$> ["team-relay"; "team_relay"]).
Fixpoint compact_loop (last : option string) (values : list string) : list string :=
  match values with
  | [] => []
  | v :: values' => if bool_decide (last = Some v) then compact_loop last values' else v :: compact_loop (Some v) values'
  end.
Definition compact (values : list string) : list string := compact_loop None values.
Definition claudeDeniedTools (p : Policy) : list string :=
  compact (sort_strings (
    po_DeniedTools p
    ++ nestedRelayTools
    ++ (if po_AllowShell p then [] else ["Bash"])
    ++ (if po_AllowWrites p then [] else ["Edit"; "Write"; "NotebookEdit"])
    ++ (if po_AllowNetwork p then [] else ["WebFetch"; "WebSearch"])
    ++ ((λ command, "Bash(" +:+ command +:+ " *)") <$> po_DeniedCommands p))).
Definition claude_session (a : claude_Adapter) (r : RunRequest) (p : Policy) : option SessionRef :=
  if CompatibleSession (rr_Session r) claude_RuntimeID p (cl_workDir a) then rr_Session r else None.
Definition claude_commandArgs (a : claude_Adapter) (r : RunRequest) (p : Policy) (mcpConfigPath : string) : list string * option SessionRef :=
  let session := claude_session a r p in
  (cl_prefixArgs a
   ++ ["-p"; "--output-format"; "stream-json"; "--verbose"]
   ++ ["--settings"; "{" +:+ dquote +:+ "disableAllHooks" +:+ dquote +:+ ":true}"]
   ++ (if bool_decide (cl_model a = "") then [] else ["--model"; cl_model a])
   ++ (if bool_decide (po_Mode p = PolicyReadOnly) then
         ["--permission-mode"; "dontAsk"; "--tools";
          join "," (["Read"; "Glob"; "Grep"] ++ (if po_AllowNetwork p then ["WebFetch"; "WebSearch"] else []))]
       else
         ["--permission-mode"; "auto"; "--tools"; "default"] ++
         match claudeDeniedTools p with [] => [] | denied => ["--disallowedTools"; join "," denied] end)
   ++ ["--strict-mcp-config"; "--mcp-config"; mcpConfigPath]
   ++ ["--append-system-prompt"; RecipientResponseContract]
   ++ concat ((λ path, ["--add-dir"; path]) <$> additionalDirectories r)
   ++ (match session with Some s => ["--resume"; ss_OpaqueID s] | None => [] end), session).

(** *** The output *)

Record claude_content := mkClaudeContent {
  ct_ID : string; ct_Type : string; ct_Text : string; ct_Name : string; ct_ToolUseID : string; ct_IsError : bool }.
Record claudeEvent := mkClaudeEvent {
  ce_Type : string; ce_SessionID : string; ce_Result : string; ce_IsError : bool; ce_DurationMS : Z; ce_TotalCostUSD : Z;
  ce_Content : list claude_content }.

Definition toolSummary (name : string) : string := "Running " +:+ SafeSummary name.
Definition claude_assistant (c : claude_content) : RM claude_state () :=
  if bool_decide (ct_Type c = "text") then
    if blank (ct_Text c) then mret () else
    reject_if (MaxFinalTextBytes <? len (ct_Text c)) ErrTooLong ≫= λ _,
    set_text (ct_Text c) ≫= λ _,
    Emit (event EventProgress "Claude Code produced response text")
  else if bool_decide (ct_Type c = "tool_use") then
    let name := SafeSummary (ct_Name c) in
    (if bool_decide (ct_ID c = "") then mret () else
     update_extra (λ x, cx_set_tools (<[ct_ID c := name]> (cx_toolNames x)) x)) ≫= λ _,
    Emit (mkRuntimeEvent EventToolStarted (toolSummary (ct_Name c)) name None None)
  else mret ().
Definition claude_tool_result (c : claude_content) : RM claude_state () :=
  if negb (bool_decide (ct_Type c = "tool_result")) then mret () else
  x ← gets rn_extra;
  let name := or_default (default "" (cx_toolNames x !! ct_ToolUseID c)) "Tool" in
  let status := if ct_IsError c then "failed" else "completed" in
  Emit (mkRuntimeEvent EventToolFinished (name +:+ " " +:+ status) name None None).
Definition claude_result (e : claudeEvent) : RM claude_state () :=
  (if blank (ce_Result e) then mret () else
   reject_if (MaxFinalTextBytes <? len (ce_Result e)) ErrTooLong ≫= λ _,
   set_text (ce_Result e)) ≫= λ _,
  update_extra (cx_set_error (ce_IsError e)) ≫= λ _,
  update_result (λ r, ar_set_usage (mkUsage (us_InputTokens (ar_Usage r)) (us_OutputTokens (ar_Usage r))
    (us_CachedTokens (ar_Usage r)) (ce_TotalCostUSD e) (milliseconds (ce_DurationMS e))) r) ≫= λ _,
  s ← gets rn_result;
  Emit (mkRuntimeEvent EventFinishing "Claude Code finished; returning result" "" None (Some (ar_Usage s))).
Definition new_session (s : option SessionRef) (id : string) : bool :=
  negb (bool_decide (id = "")) && negb (bool_decide (ss_OpaqueID <$> s = Some id)).
Definition claude_line (a : claude_Adapter) (effective : Policy) (e : claudeEvent) : RM claude_state () :=
  s ← gets rn_result;
  (if new_session (ar_Session s) (ce_SessionID e) then
     let session := Some (sessionRef claude_RuntimeID (cl_workDir a) (ce_SessionID e) effective) in
     set_session session ≫= λ _,
     Emit (mkRuntimeEvent EventSession "Claude Code session connected" "" session None)
   else mret ()) ≫= λ _,
  if bool_decide (ce_Type e = "assistant") then mapM_ claude_assistant (ce_Content e) else
  if bool_decide (ce_Type e = "user") then mapM_ claude_tool_result (ce_Content e) else
  if bool_decide (ce_Type e = "result") then claude_result e else
  mret ().

(** *** One run *)

(** The end of every [Run]: an answer, and the event that says so. *)
Definition finish_run {X} (summary : string) : RM X RuntimeResult :=
  result ← gets rn_result;
  reject_if (blank (ar_FinalText result)) ErrNoFinalAnswer ≫= λ _,
  Emit (mkRuntimeEvent EventCompleted summary "" (ar_Session result) (Some (ar_Usage result))) ≫= λ _,
  mret result.
Definition start_result {X} (effective : Policy) (session : option SessionRef) : RM X () :=
  update_result (λ _, mkRuntimeResult "" session no_usage effective).
Definition run_prompt (r : RunRequest) (effective : Policy) : string :=
  BuildPrompt r RecipientResponseContract +:+ PolicyInstructions effective.
Definition warn_not_resumed {X} (r : RunRequest) (session : option SessionRef) : RM X () :=
  match rr_Session r, session with Some _, None => Emit not_resumed | _, _ => mret () end.

Definition claude_execute (h : host) (child : launch → process claudeEvent) (a : claude_Adapter) (request : RunRequest)
    (effective : Policy) (mcpConfigPath : string) : RM claude_state RuntimeResult :=
  let '(args, session) := claude_commandArgs a request effective mcpConfigPath in
  warn_not_resumed request session ≫= λ _,
  Emit (event EventStarting "Starting Claude Code") ≫= λ _,
  start_result effective session ≫= λ _,
  update_extra (λ x, mkClaudeState (cx_frozen x) ∅ false) ≫= λ _,
  ExecuteJSONLines h child
    (mkCommandSpec (cl_executable a) args (cl_workDir a) (run_prompt request effective) (cl_environmentAllowlist a) recipientRunEnvironment)
    (claude_line a effective) ≫= λ _,
  x ← gets rn_extra;
  reject_if (cx_providerError x) (ErrReported "") ≫= λ _,
  finish_run "Claude Code response ready".
Definition claude_Run (h : host) (child : launch → process claudeEvent) (a : claude_Adapter) (request : RunRequest) : RM claude_state RuntimeResult :=
  checked ErrRequest (ValidateRunRequest request) ≫= λ _,
  effective ← checked ErrPolicyInvalid (EffectivePolicy (cl_policy a) (rr_RequestedPolicy request));
  lift (validateClaudePolicy effective (claude_capabilities (cl_policy a))) ≫= λ _,
  let request := ConstrainRequest request effective in
  mcpConfigPath ← prepareMCPConfig h a effective;
  finally (remove_config mcpConfigPath) (claude_execute h child a request effective mcpConfigPath).

(** [Probe]; the text of [Detail] is left out. *)
Definition with_version (c : Capabilities) (version : string) : Capabilities :=
  mkCapabilities (cap_RuntimeID c) (cap_DisplayName c) version true (cap_Detail c) (cap_SupportsResume c) (cap_SupportsStreaming c)
    (cap_SupportsModelSelection c) (cap_PreservesLocalContext c) (cap_LoadsLocalMCPs c) (cap_Policy c).
(** What follows [ProbeCommand]: a runtime that is not installed is no error. *)
Definition probed {X} (c : Capabilities) (version : adapter_error + string) (rest : string → RM X Capabilities) : RM X Capabilities :=
  match version with
  | inr version => rest version
  | inl ErrUnavailable => mret c
  | inl e => throw e
  end.
Definition claude_Probe (h : host) (child : launch → option string) (a : claude_Adapter) : RM claude_state Capabilities :=
  let capabilities := claude_capabilities (cl_policy a) in
  lift (validateClaudePolicy (cl_policy a) capabilities) ≫= λ _,
  version ← attempt (ProbeCommand h child (cl_executable a) (cl_prefixArgs a) (cl_environmentAllowlist a) ["--version"]);
  probed capabilities version (λ version, mret (with_version capabilities version)).

Definition json_fingerprint (version : Z) (runtimeID : string) (rest : list (string * json)) : json :=
  JObj ([("version", JNum version); ("runtime_id", JStr runtimeID)] ++ rest).
Definition claude_ApprovalFingerprint (h : host) (a : claude_Adapter) : RM claude_state string :=
  servers ← frozenRecipientMCPServers h a;
  mret (ApprovalConfigFingerprint (json_fingerprint 1 claude_RuntimeID
    [("executable", JStr (cl_executable a)); ("prefix_args", json_slice (cl_prefixArgs a)); ("work_dir", JStr (cl_workDir a));
     ("model", JStr (cl_model a)); ("environment_allowlist", json_strings (CanonicalEnvironmentAllowlist (cl_environmentAllowlist a)));
     ("policy", json_policy (cl_policy a)); ("timeout", JNum (cl_timeout a)); ("mcp_servers", JObj (map_to_list servers))])).

(** ** Codex ([codex/adapter.go]) *)

Definition codex_RuntimeID : string := "codex".
Definition codexIntegrationFeatures : list string :=
  ["plugins"; "remote_plugin"; "apps"; "enable_mcp_apps"; "external_migration"; "skill_mcp_dependency_install"; "tool_suggest";
   "hooks"].
Record codex_Config := mkCodexSetup {
  xg_Executable : string; xg_PrefixArgs : list string; xg_WorkDir : string; xg_Model : string; xg_Profile : string;
  xg_EnvironmentAllowlist : list string; xg_Policy : Policy; xg_Timeout : Z }.
Record codex_Adapter := mkCodex {
  cd_executable : string; cd_prefixArgs : list string; cd_workDir : string; cd_model : string; cd_profile : string;
  cd_environmentAllowlist : list string; cd_policy : Policy; cd_timeout : Z }.

Definition config_flags : list string := ["--config"; "-c"; "--profile"; "-p"; "--enable"; "--disable"].
Definition forbidden_codex_argument (argument : string) : bool :=
  bool_decide (before_byte "="%char argument ∈ config_flags) ||
  (has_prefix argument "-c" && negb (has_prefix argument "--")) || (has_prefix argument "-p" && negb (has_prefix argument "--")).
Definition validateCodexPrefixArgs (args : list string) : adapter_error + () := fail_if (existsb forbidden_codex_argument args) ErrPrefixArgs.
Definition codex_New (h : host) (c : codex_Config) : adapter_error + codex_Adapter :=
  workDir ← ValidateWorkDir h (xg_WorkDir c);
  policy ← map_error ErrPolicyInvalid (ValidatePolicy (xg_Policy c));
  fail_if (negb (blank (xg_Profile c))) ErrProfile ≫= λ _,
  validateCodexPrefixArgs (xg_PrefixArgs c) ≫= λ _,
  mret (mkCodex (or_default (xg_Executable c) "codex") (xg_PrefixArgs c) workDir (xg_Model c) (xg_Profile c)
    (xg_EnvironmentAllowlist c) policy (default_timeout (xg_Timeout c))).
Definition codex_capabilities : Capabilities :=
  mkCapabilities codex_RuntimeID "Codex" "" false "" true true true true false
    (mkPolicyCapabilities EnforcementNative EnforcementNative EnforcementBestEffort EnforcementNative
       EnforcementUnsupported EnforcementNative EnforcementBestEffort).
Definition requireIsolatedCodexMCPPolicy (p : Policy) : adapter_error + () := fail_if (po_AllowMCPs p) ErrMCPUnsupported.

(** *** The command line *)

Definition codexIntegrationDisableArgs : list string :=
  concat ((λ feature, ["--config"; "features." +:+ feature +:+ "=false"]) <$> codexIntegrationFeatures).
Definition canonicalCodexIntegrationFeatures : list string := sort_strings codexIntegrationFeatures.
Definition codexConfigIsolationArgs : list string := "--ignore-user-config" :: codexIntegrationDisableArgs.
(** The paths of the loop of [codexUntrustedProjectConfig]. *)
Fixpoint ancestors (fuel : nat) (current : string) : list string :=
  current ::
  match fuel with
  | O => []
  | S fuel => let parent := path_Dir current in if bool_decide (parent = current) then [] else ancestors fuel parent
  end.
Definition project_paths (workDir : string) : list string := let current := Clean workDir in ancestors (String.length current) current.
Definition codexUntrustedProjectConfig (workDir : string) : list string :=
  concat ((λ path, ["--config"; "projects." +:+ Quote path +:+ ".trust_level=" +:+ dquote +:+ "untrusted" +:+ dquote]) <$> project_paths workDir).
Definition codexWritableDirectories (r : RunRequest) (p : Policy) : list string :=
  if negb (po_AllowWrites p) then [] else
  let seen : gset string := list_to_set (wk_Path <$> List.filter (λ w, bool_decide (wk_Mode w = WorkspaceWritable)) (rr_Workspaces r)) ∪
    (if bool_decide (rr_ReturnDirectory r = "") then ∅ else {[rr_ReturnDirectory r]}) in
  sort_strings (elements seen).
Definition sandbox_mode (p : Policy) : string := if po_AllowWrites p then "workspace-write" else "read-only".
Definition codexPolicyConfig (p : Policy) (writableDirectories : list string) (workDir : string) : list string :=
  ["--config"; "sandbox_mode=" +:+ Quote (sandbox_mode p);
   "--config"; "sandbox_workspace_write.network_access=" +:+ (if po_AllowNetwork p then "true" else "false");
   "--config"; "shell_environment_policy.inherit=" +:+ dquote +:+ "core" +:+ dquote;
   "--config"; "shell_environment_policy.ignore_default_excludes=false"]
  ++ codexUntrustedProjectConfig workDir
  ++ (if po_AllowWrites p then
        ["--config"; "sandbox_workspace_write.writable_roots=[" +:+ join "," (Quote <$> writableDirectories) +:+ "]"] else []).
Definition codex_model_args (a : codex_Adapter) : list string := if bool_decide (cd_model a = "") then [] else ["--model"; cd_model a].
Definition codex_commandArgs (a : codex_Adapter) (r : RunRequest) (p : Policy) : list string * option SessionRef :=
  let writable := codexWritableDirectories r p in
  match (if CompatibleSession (rr_Session r) codex_RuntimeID p (cd_workDir a) then rr_Session r else None) with
  | Some session =>
    (cd_prefixArgs a ++ ["exec"; "resume"] ++ codexConfigIsolationArgs ++ ["--json"] ++ codex_model_args a
     ++ codexPolicyConfig p writable (cd_workDir a) ++ ["--skip-git-repo-check"; ss_OpaqueID session; "-"], Some session)
  | None =>
    (cd_prefixArgs a ++ ["exec"] ++ codexConfigIsolationArgs
     ++ ["--json"; "--color"; "never"; "--cd"; cd_workDir a; "--skip-git-repo-check"] ++ codex_model_args a
     ++ ["--sandbox"; sandbox_mode p] ++ codexPolicyConfig p writable (cd_workDir a)
     ++ concat ((λ path, ["--add-dir"; path]) <$> writable) ++ ["-"], None)
  end.

(** *** Isolation checks *)

Definition codexCommandEnvironment (h : host) (additionalAllowed : list string) (codexHome : string) : list string :=
  List.filter (λ item, negb (has_byte "="%char item && equal_fold (variable_name item) "CODEX_HOME"))
    (SanitizedEnvironment (ho_environ h) additionalAllowed) ++ ["CODEX_HOME=" +:+ codexHome].
Definition codex_launch (h : host) (a : codex_Adapter) (home : string) (args : list string) : launch :=
  mkLaunch (cd_executable a) (cd_prefixArgs a ++ args) (cd_workDir a) "" (codexCommandEnvironment h (cd_environmentAllowlist a) home) ∅.

(** The tokens of the output of [mcp list]: an array, whether each entry
    decodes as an object, whether it is closed, and what follows it. *)
Inductive inventory_text := NotArray | ArrayText (entries : list bool) (closed trailing : bool).
Record inventory_output := mkInventory {
  iv_starts : bool; iv_text : inventory_text; iv_tooLarge : bool; iv_ok : bool (** exit, reading and time *) }.
(** The loop: [valid] and [residual]. *)
Fixpoint inventory_entries (residual : bool) (entries : list bool) : bool * bool :=
  match entries with
  | [] => (true, residual)
  | decodes :: entries' => if decodes then inventory_entries true entries' else (false, residual)
  end.
Definition inventory_read (t : inventory_text) : bool * bool :=
  match t with
  | NotArray => (false, false)
  | ArrayText entries closed trailing =>
    let '(valid, residual) := inventory_entries false entries in (valid && closed && negb trailing, residual)
  end.
Definition preflight_args (a : codex_Adapter) : list string :=
  codexIntegrationDisableArgs ++ codexUntrustedProjectConfig (cd_workDir a) ++ ["mcp"; "list"; "--json"].
Definition preflightNoResidualMCP {X} (h : host) (mcp_list : launch → inventory_output) (a : codex_Adapter) : RM X () :=
  match ho_MkdirTemp h with
  | None => throw ErrPreflight
  | Some home =>
    let l := codex_launch h a home (preflight_args a) in
    modify (add_launch l) ≫= λ _,
    let o := mcp_list l in
    reject_if (negb (iv_starts o)) ErrPreflight ≫= λ _,
    let '(valid, residual) := inventory_read (iv_text o) in
    reject_if (negb (iv_ok o) || iv_tooLarge o || negb valid) ErrPreflight ≫= λ _,
    reject_if residual ErrResidualMCP
  end.

(** [runMetadataCommand]; the child answers with its whole output. *)
Definition runMetadataCommand {X} (h : host) (metadata : launch → option string) (a : codex_Adapter) (home : string) (args : list string) : RM X string :=
  let l := codex_launch h a home args in
  modify (add_launch l) ≫= λ _,
  match metadata l with Some output => mret output | None => throw ErrContainment end.
Definition feature_line (effective : gmap string string) (line : string) : gmap string string :=
  match fields line with
  | name :: (_ :: _) as words => <[name := default "" (last words)]> effective
  | _ => effective
  end.
Definition reported_features (output : string) : gmap string string := fold_left feature_line (split_byte (byte_of 10) output) ∅.
Definition validateContainmentSupport {X} (h : host) (metadata : launch → option string) (a : codex_Adapter) : RM X () :=
  match ho_MkdirTemp h with
  | None => throw ErrContainment
  | Some home =>
    help ← runMetadataCommand h metadata a home ["exec"; "--help"];
    reject_if (negb (contains help "--ignore-user-config")) ErrContainment ≫= λ _,
    output ← runMetadataCommand h metadata a home (codexIntegrationDisableArgs ++ ["features"; "list"]);
    reject_if (negb (forallb (λ feature, bool_decide (reported_features output !! feature = Some "false")) codexIntegrationFeatures))
      ErrContainment
  end.

(** *** The output, and one run *)

Record codex_item := mkCodexItem { it_Type : string; it_Text : string; it_Name : string; it_ExitCode : option Z }.
Record codexEvent := mkCodexEvent {
  xe_Type : string; xe_ThreadID : string; xe_Message : string; xe_ErrorMessage : string;
  xe_InputTokens : Z; xe_CachedInputTokens : Z; xe_OutputTokens : Z; xe_Item : codex_item }.

Definition tool_event (type : EventType) (tool summary : string) : RuntimeEvent := mkRuntimeEvent type summary tool None None.
(** The state of a run of Codex is [providerError]. *)
Definition handleItem (e : codexEvent) : RM string () :=
  let item := xe_Item e in
  let completed := bool_decide (xe_Type e = "item.completed") in
  let kind := if completed then EventToolFinished else EventToolStarted in
  if bool_decide (it_Type item = "agent_message") then
    if negb completed || blank (it_Text item) then mret () else
    reject_if (MaxFinalTextBytes <? len (it_Text item)) ErrTooLong ≫= λ _,
    set_text (it_Text item) ≫= λ _,
    Emit (event EventProgress "Codex produced response text")
  else if bool_decide (it_Type item = "command_execution") then
    let failed := match it_ExitCode item with Some code => negb (code =? 0) | None => false end in
    Emit (tool_event kind "shell" (if negb completed then "Running a command" else if failed then "Command failed" else "Command completed"))
  else if bool_decide (it_Type item = "mcp_tool_call") then
    Emit (tool_event kind (it_Name item) (if completed then "MCP tool completed" else "Running MCP tool"))
  else if bool_decide (it_Type item = "file_change") then
    Emit (tool_event kind "file_change" "Applying approved workspace changes")
  else if bool_decide (it_Type item = "reasoning") then Emit (event EventProgress "Codex is reasoning")
  else mret ().
Definition codex_line (a : codex_Adapter) (effective : Policy) (e : codexEvent) : RM string () :=
  if bool_decide (xe_Type e = "thread.started") then
    if bool_decide (xe_ThreadID e = "") then mret () else
    let session := Some (sessionRef codex_RuntimeID (cd_workDir a) (xe_ThreadID e) effective) in
    set_session session ≫= λ _,
    Emit (mkRuntimeEvent EventSession "Codex session connected" "" session None)
  else if bool_decide (xe_Type e ∈ ["item.started"; "item.updated"; "item.completed"]) then handleItem e
  else if bool_decide (xe_Type e = "turn.completed") then
    update_result (λ r, ar_set_usage (mkUsage (xe_InputTokens e) (xe_OutputTokens e) (xe_CachedInputTokens e)
      (us_CostUSD (ar_Usage r)) (us_Duration (ar_Usage r))) r) ≫= λ _,
    s ← gets rn_result;
    Emit (mkRuntimeEvent EventFinishing "Codex finished; returning result" "" None (Some (ar_Usage s)))
  else if bool_decide (xe_Type e ∈ ["turn.failed"; "error"]) then
    update_extra (λ _, or_default (xe_ErrorMessage e) (xe_Message e))
  else mret ().

Definition codex_execute (h : host) (mcp_list : launch → inventory_output) (child : launch → process codexEvent)
    (a : codex_Adapter) (request : RunRequest) (effective : Policy) : RM string RuntimeResult :=
  let '(args, session) := codex_commandArgs a request effective in
  warn_not_resumed request session ≫= λ _,
  Emit (event EventStarting "Starting Codex") ≫= λ _,
  start_result effective session ≫= λ _,
  update_extra (λ _, "") ≫= λ _,
  preflightNoResidualMCP h mcp_list a ≫= λ _,
  ExecuteJSONLines h child
    (mkCommandSpec (cd_executable a) args (cd_workDir a) (run_prompt request effective) (cd_environmentAllowlist a) recipientRunEnvironment)
    (codex_line a effective) ≫= λ _,
  providerError ← gets rn_extra;
  reject_if (negb (bool_decide (providerError = ""))) (ErrReported (SafeSummary providerError)) ≫= λ _,
  finish_run "Codex response ready".
Definition codex_Run (h : host) (mcp_list : launch → inventory_output) (child : launch → process codexEvent)
    (a : codex_Adapter) (request : RunRequest) : RM string RuntimeResult :=
  checked ErrRequest (ValidateRunRequest request) ≫= λ _,
  effective ← checked ErrPolicyInvalid (EffectivePolicy (cd_policy a) (rr_RequestedPolicy request));
  lift (requireIsolatedCodexMCPPolicy effective) ≫= λ _,
  checked ErrPolicyInvalid (ValidatePolicySupport codex_capabilities effective) ≫= λ _,
  codex_execute h mcp_list child a (ConstrainRequest request effective) effective.

Definition codex_Probe (h : host) (child metadata : launch → option string) (mcp_list : launch → inventory_output) (a : codex_Adapter) : RM string Capabilities :=
  version ← attempt (ProbeCommand h child (cd_executable a) (cd_prefixArgs a) (cd_environmentAllowlist a) ["--version"]);
  probed codex_capabilities version (λ version,
    validateContainmentSupport h metadata a ≫= λ _,
    preflightNoResidualMCP h mcp_list a ≫= λ _,
    lift (requireIsolatedCodexMCPPolicy (cd_policy a)) ≫= λ _,
    mret (with_version codex_capabilities version)).

Definition codex_ApprovalFingerprint (h : host) (mcp_list : launch → inventory_output) (a : codex_Adapter) : RM string string :=
  lift (requireIsolatedCodexMCPPolicy (cd_policy a)) ≫= λ _,
  preflightNoResidualMCP h mcp_list a ≫= λ _,
  mret (ApprovalConfigFingerprint (json_fingerprint 3 codex_RuntimeID
    [("executable", JStr (cd_executable a)); ("prefix_args", json_slice (cd_prefixArgs a)); ("work_dir", JStr (cd_workDir a));
     ("model", JStr (cd_model a)); ("profile", JStr (cd_profile a));
     ("environment_allowlist", json_strings (CanonicalEnvironmentAllowlist (cd_environmentAllowlist a)));
     ("policy", json_policy (cd_policy a)); ("timeout", JNum (cd_timeout a));
     ("mcp_isolation", JStr "empty-home-preflight-and-ignore-user-config");
     ("disabled_integration_features", json_strings canonicalCodexIntegrationFeatures); ("mcp_servers", json_strings [])])).

(** ** External runners ([external/adapter.go]) *)

Definition RunnerProtocolV1 : string := "team-relay-runner/v1".
Record external_Config := mkExternalSetup {
  eg_ID : string; eg_Name : string; eg_Executable : string; eg_PrefixArgs : list string; eg_WorkDir : string; eg_Model : string;
  eg_EnvironmentAllowlist : list string; eg_Policy : Policy; eg_Timeout : Z }.
Record external_Adapter := mkExternal {
  xt_id : string; xt_name : string; xt_executable : string; xt_prefixArgs : list string; xt_workDir : string; xt_model : string;
  xt_environmentAllowlist : list string; xt_policy : Policy; xt_timeout : Z }.

Definition runner_id_start (c : ascii) : bool := in_range 97 122 (byte_val c) || in_range 48 57 (byte_val c).
Definition runner_id_char (c : ascii) : bool := runner_id_start c || bool_decide (c ∈ bytes "._-").
Definition validRunnerID (id : string) : bool :=
  match id with
  | EmptyString => false
  | String c rest => runner_id_start c && forallb runner_id_char (bytes rest) && (len rest <=? 63)
  end.
Definition shell_names : list string := ["sh"; "bash"; "zsh"; "fish"; "cmd"; "powershell"; "pwsh"].
Definition isShellExecutable (executable : string) : bool :=
  let name := to_lower (path_Base executable) in
  bool_decide (trim_suffix name (file_ext name) ∈ shell_names).
Definition external_New (h : host) (c : external_Config) : adapter_error + external_Adapter :=
  fail_if (negb (validRunnerID (eg_ID c))) ErrRunnerID ≫= λ _,
  fail_if (blank (eg_Executable c)) ErrExecutableRequired ≫= λ _,
  fail_if (isShellExecutable (eg_Executable c)) ErrShell ≫= λ _,
  workDir ← ValidateWorkDir h (eg_WorkDir c);
  policy ← map_error ErrPolicyInvalid (ValidatePolicy (eg_Policy c));
  mret (mkExternal ("external:" +:+ eg_ID c) (or_default (eg_Name c) (eg_ID c)) (eg_Executable c) (eg_PrefixArgs c) workDir
    (trim_space (eg_Model c)) (eg_EnvironmentAllowlist c) policy (default_timeout (eg_Timeout c))).

Record runnerCapabilities := mkRunnerCapabilities {
  rc_Version : string; rc_SupportsResume : bool; rc_SupportsStreaming : bool; rc_SupportsModelSelection : bool;
  rc_PreservesLocalContext : bool; rc_LoadsLocalMCPs : bool; rc_Policy : PolicyCapabilities }.
Record runnerUsage := mkRunnerUsage {
  ru_InputTokens : Z; ru_OutputTokens : Z; ru_CachedTokens : Z; ru_CostUSD : Z; ru_DurationMS : Z }.
Record runnerEvent := mkRunnerEvent { rv_Type : EventType; rv_Summary : string; rv_Tool : string; rv_Usage : option runnerUsage }.
Record runnerResult := mkRunnerResult { rl_FinalText : string; rl_SessionID : string; rl_Usage : runnerUsage }.
Record runnerOutput := mkRunnerOutput {
  ro_Protocol : string; ro_Type : string; ro_Message : string; ro_SessionID : string;
  ro_Capabilities : option runnerCapabilities; ro_Event : option runnerEvent; ro_Result : option runnerResult }.

Definition validEnforcement (e : Enforcement) : Enforcement :=
  match e with
  | EnforcementNative | EnforcementToolLevel | EnforcementBestEffort | EnforcementUnsupported => e
  | EnforcementOther _ => EnforcementUnsupported
  end.
Definition sanitizeCapabilities (id name : string) (p : Policy) (i : runnerCapabilities) : Capabilities :=
  let c := rc_Policy i in
  mkCapabilities id name (SafeSummary (rc_Version i)) false "" (rc_SupportsResume i) (rc_SupportsStreaming i)
    (rc_SupportsModelSelection i) (rc_PreservesLocalContext i) (rc_LoadsLocalMCPs i && po_AllowMCPs p)
    (mkPolicyCapabilities (validEnforcement (pc_ReadOnly c)) (validEnforcement (pc_GuardedWrite c))
       (validEnforcement (pc_FilesystemIsolation c)) (validEnforcement (pc_NetworkIsolation c)) (validEnforcement (pc_ShellControl c))
       (validEnforcement (pc_MCPControl c)) (validEnforcement (pc_DestructiveCommandDeny c))).
Definition runtimeUsage (u : runnerUsage) : Usage :=
  mkUsage (ru_InputTokens u) (ru_OutputTokens u) (ru_CachedTokens u) (ru_CostUSD u) (milliseconds (ru_DurationMS u)).
Definition runtimeEvent (e : runnerEvent) : RuntimeEvent :=
  mkRuntimeEvent (rv_Type e) (rv_Summary e) (rv_Tool e) None (runtimeUsage <$> rv_Usage e).
Definition genericRunnerEvent (i : RuntimeEvent) : RuntimeEvent :=
  let say type summary := mkRuntimeEvent type summary (re_Tool i) None (re_Usage i) in
  match re_Type i with
  | EventStarting => say EventStarting "External runtime started"
  | EventSession => say EventSession "External runtime session connected"
  | EventToolStarted => say EventToolStarted "External runtime tool started"
  | EventToolFinished => say EventToolFinished "External runtime tool finished"
  | EventFinishing => say EventFinishing "External runtime is finishing"
  | EventCompleted => say EventCompleted "External runtime response ready"
  | EventWarning => say EventWarning "External runtime reported a warning"
  | EventProgress | EventTypeOther _ => say EventProgress "External runtime is working"
  end.

(** [runnerInput]: a structure is never empty for [omitempty], so that the
    policy is written even when it is the zero value of a probe. *)
Definition json_workspace (w : Workspace) : json := JObj [("path", JStr (wk_Path w)); ("mode", JStr (workspace_mode_string (wk_Mode w)))].
Definition no_policy : Policy := mkPolicy (PolicyModeOther "") false false false false [] [].
Definition probe_input : json := JObj [("protocol", JStr RunnerProtocolV1); ("type", JStr "probe"); ("policy", json_policy no_policy)].
Definition run_input (a : external_Adapter) (r : RunRequest) (effective : Policy) (session : option SessionRef) : json :=
  JObj ([("protocol", JStr RunnerProtocolV1); ("type", JStr "run")]
    ++ opt_str "request_id" (rr_RequestID r) ++ opt_str "conversation_id" (rr_ConversationID r)
    ++ opt_str "title" (rr_Title r) ++ opt_str "requester" (rr_Requester r) ++ opt_str "prompt" (run_prompt r effective)
    ++ opt_str "model" (xt_model a) ++ opt_str "work_dir" (xt_workDir a)
    ++ opt_arr "attachments" (JStr <$> rr_Attachments r) ++ opt_arr "workspaces" (json_workspace <$> rr_Workspaces r)
    ++ opt_str "return_directory" (rr_ReturnDirectory r) ++ [("policy", json_policy effective)]
    ++ opt_str "session_id" (match session with Some s => ss_OpaqueID s | None => "" end)).
(** What one operation of a runner keeps: the capabilities of a probe, and
    [runnerErr] of a run. *)
Record external_state := mkExternalState { xx_base : Capabilities; xx_received : bool; xx_runnerErr : string }.
Definition xx_receive c (x : external_state) : external_state := mkExternalState c true (xx_runnerErr x).
Definition xx_fail m (x : external_state) : external_state := mkExternalState (xx_base x) (xx_received x) m.

Definition no_enforcement : PolicyCapabilities :=
  let e := EnforcementOther "" in mkPolicyCapabilities e e e e e e e.
Definition base_capabilities (a : external_Adapter) : Capabilities :=
  mkCapabilities (xt_id a) (xt_name a) "" false "" false false false false false no_enforcement.
Definition available (c : Capabilities) : Capabilities := with_version c (cap_Version c).
Definition probe_line (a : external_Adapter) (e : runnerOutput) : RM external_state () :=
  if negb (bool_decide (ro_Protocol e = RunnerProtocolV1)) then throw ErrProtocol else
  if bool_decide (ro_Type e = "error") then throw (ErrReported (SafeSummary (ro_Message e))) else
  if negb (bool_decide (ro_Type e = "capabilities")) then mret () else
  match ro_Capabilities e with
  | None => mret ()
  | Some c => update_extra (xx_receive (available (sanitizeCapabilities (xt_id a) (xt_name a) (xt_policy a) c)))
  end.
Definition external_Probe (h : host) (child : launch → process runnerOutput) (a : external_Adapter) : RM external_state Capabilities :=
  if negb (ho_LookPath h (xt_executable a)) then mret (base_capabilities a) else
  update_extra (λ x, mkExternalState (base_capabilities a) false (xx_runnerErr x)) ≫= λ _,
  ExecuteJSONLines h child
    (mkCommandSpec (xt_executable a) (xt_prefixArgs a) (xt_workDir a) (json_text probe_input +:+ newline) (xt_environmentAllowlist a) ∅)
    (probe_line a) ≫= λ _,
  x ← gets rn_extra;
  reject_if (negb (xx_received x)) ErrNoCapabilities ≫= λ _,
  reject_if (negb (bool_decide (xt_model a = "")) && negb (cap_SupportsModelSelection (xx_base x))) ErrModelOverride ≫= λ _,
  mret (xx_base x).

Definition external_session (a : external_Adapter) (id : string) (effective : Policy) : option SessionRef :=
  Some (sessionRef (xt_id a) (xt_workDir a) id effective).
Definition external_line (a : external_Adapter) (effective : Policy) (e : runnerOutput) : RM external_state () :=
  if negb (bool_decide (ro_Protocol e = RunnerProtocolV1)) then throw ErrProtocol else
  if bool_decide (ro_Type e = "started") then
    if bool_decide (ro_SessionID e = "") then mret () else
    let session := external_session a (ro_SessionID e) effective in
    set_session session ≫= λ _,
    Emit (mkRuntimeEvent EventSession (xt_name a +:+ " session connected") "" session None)
  else if bool_decide (ro_Type e = "event") then
    match ro_Event e with
    | None => mret ()
    | Some event => Emit (genericRunnerEvent (runtimeEvent event))
    end
  else if bool_decide (ro_Type e = "result") then
    match ro_Result e with
    | None => throw ErrEmptyResult
    | Some r =>
      reject_if (MaxFinalTextBytes <? len (rl_FinalText r)) ErrTooLong ≫= λ _,
      set_text (rl_FinalText r) ≫= λ _,
      update_result (ar_set_usage (runtimeUsage (rl_Usage r))) ≫= λ _,
      if bool_decide (rl_SessionID r = "") then mret () else set_session (external_session a (rl_SessionID r) effective)
    end
  else if bool_decide (ro_Type e = "error") then update_extra (xx_fail (ro_Message e))
  else mret ().
Definition external_execute (h : host) (child : launch → process runnerOutput) (a : external_Adapter) (request : RunRequest)
    (effective : Policy) (capabilities : Capabilities) : RM external_state RuntimeResult :=
  let session := if cap_SupportsResume capabilities && CompatibleSession (rr_Session request) (xt_id a) effective (xt_workDir a)
                 then rr_Session request else None in
  warn_not_resumed request session ≫= λ _,
  Emit (event EventStarting ("Starting " +:+ xt_name a)) ≫= λ _,
  start_result effective session ≫= λ _,
  update_extra (xx_fail "") ≫= λ _,
  ExecuteJSONLines h child
    (mkCommandSpec (xt_executable a) (xt_prefixArgs a) (xt_workDir a) (json_text (run_input a request effective session) +:+ newline)
       (xt_environmentAllowlist a) recipientRunEnvironment)
    (external_line a effective) ≫= λ _,
  x ← gets rn_extra;
  reject_if (negb (bool_decide (xx_runnerErr x = ""))) (ErrReported (SafeSummary (xx_runnerErr x))) ≫= λ _,
  finish_run (xt_name a +:+ " response ready").
Definition external_Run (h : host) (probe child : launch → process runnerOutput) (a : external_Adapter) (request : RunRequest) : RM external_state RuntimeResult :=
  checked ErrRequest (ValidateRunRequest request) ≫= λ _,
  effective ← checked ErrPolicyInvalid (EffectivePolicy (xt_policy a) (rr_RequestedPolicy request));
  let request := ConstrainRequest request effective in
  capabilities ← external_Probe h probe a;
  checked ErrPolicyInvalid (ValidatePolicySupport capabilities effective) ≫= λ _,
  external_execute h child a request effective capabilities.
Definition external_ApprovalFingerprint (a : external_Adapter) : string :=
  ApprovalConfigFingerprint (JObj
    [("version", JNum 1); ("protocol", JStr RunnerProtocolV1); ("runtime_id", JStr (xt_id a)); ("name", JStr (xt_name a));
     ("executable", JStr (xt_executable a)); ("prefix_args", json_slice (xt_prefixArgs a)); ("work_dir", JStr (xt_workDir a));
     ("model", JStr (xt_model a)); ("environment_allowlist", json_strings (CanonicalEnvironmentAllowlist (xt_environmentAllowlist a)));
     ("policy", json_policy (xt_policy a)); ("timeout", JNum (xt_timeout a))]).

(** ** The interface of the runtimes ([Adapter] in [types.go]) *)

Class RuntimeAdapter (A X : Type) := {
  adapter_ID : A → string; adapter_ConfiguredPolicy : A → Policy; adapter_WorkDir : A → string;
  adapter_Run : A → RunRequest → M (run_state X) adapter_error RuntimeResult }.
Definition claude_runtime (h : host) (child : launch → process claudeEvent) : RuntimeAdapter claude_Adapter claude_state :=
  {| adapter_ID := λ _, claude_RuntimeID; adapter_ConfiguredPolicy := cl_policy; adapter_WorkDir := cl_workDir; adapter_Run := claude_Run h child |}.
Definition codex_runtime (h : host) (mcp_list : launch → inventory_output) (child : launch → process codexEvent) : RuntimeAdapter codex_Adapter string :=
  {| adapter_ID := λ _, codex_RuntimeID; adapter_ConfiguredPolicy := cd_policy; adapter_WorkDir := cd_workDir; adapter_Run := codex_Run h mcp_list child |}.
Definition external_runtime (h : host) (probe child : launch → process runnerOutput) : RuntimeAdapter external_Adapter external_state :=
  {| adapter_ID := xt_id; adapter_ConfiguredPolicy := xt_policy; adapter_WorkDir := xt_workDir; adapter_Run := external_Run h probe child |}.
End adapters.
