(* ===== verification/AdapterLogic.v ===== *)
(** * Running a child process

    What the three adapters share: the environment a child inherits, the options
    of a command line, what a run starts and what its events and its answer are. *)

From S2P Require Import Prelude GoString Sha256 GoStringFacts Json Policy Redact RedactFacts Artifact Sandbox SandboxProofs Adapters.
From Stdlib Require Import Ascii.

Local Open Scope Z_scope.

Lemma compatible_none id q workDir : CompatibleSession None id q workDir = false.
Proof. done. Qed.
Lemma compatible_ref id workDir opaque q : opaque ≠ "" → CompatibleSession (Some (sessionRef id workDir opaque q)) id q workDir = true.
Proof. 
  intros H. unfold CompatibleSession, sessionRef. cbn [ss_OpaqueID ss_RuntimeID ss_PolicyFingerprint ss_WorkDirFingerprint].
  rewrite bool_decide_false by exact H. rewrite !bool_decide_true by reflexivity. reflexivity.
Qed.
#[local] Opaque CompatibleSession PolicyFingerprint sha256 SafeSummary.

(** ** Lists of words *)

(** A word without separators is found in the text of its list. *)
Lemma split_join_elem sep l t : t ∈ l → Forall (λ c, c ≠ sep) (bytes t) → t ∈ split_byte sep (join (String sep "") l).
Proof.
  intros Ht Hfree. induction l as [|x l IH]; [by apply elem_of_nil in Ht|].
  assert (t ∈ split_byte sep x ∨ t ∈ l) as Hcase.
  { apply elem_of_cons in Ht as [->|Ht]; [left|by right]. rewrite split_byte_free by done. by apply list_elem_of_singleton. }
  destruct l as [|y l]; [destruct Hcase as [H|H]; [done|by apply elem_of_nil in H]|].
  change (join (String sep "") (x :: y :: l)) with (x +:+ String sep (join (String sep "") (y :: l))).
  rewrite split_byte_snoc. apply elem_of_app. destruct Hcase; [by left|right; by apply IH].
Qed.

Lemma elem_sort_strings v l : v ∈ sort_strings l ↔ v ∈ l.
Proof. unfold sort_strings. by rewrite merge_sort_Permutation. Qed.
Lemma compact_loop_spec v l : ∀ last,
  (v ∈ compact_loop last l → v ∈ l) ∧ (v ∈ l → last = Some v ∨ v ∈ compact_loop last l).
Proof.
  induction l as [|x l IH]; intros last; cbn [compact_loop]; [by split; intros ?%elem_of_nil|].
  rewrite elem_of_cons. case_bool_decide as Hlast.
  - destruct (IH last) as [H1 H2]. split; [auto|]. intros [->|Hv]; [by left|auto].
  - rewrite elem_of_cons. destruct (IH (Some x)) as [H1 H2]. split; [naive_solver|].
    intros [->|Hv]; [by right; left|]. destruct (H2 Hv) as [[= ->]|?]; [by right; left|by right; right].
Qed.
Lemma elem_compact v l : v ∈ compact l ↔ v ∈ l.
Proof. destruct (compact_loop_spec v l None) as [H1 H2]. split; [done|]. intros Hv. by destruct (H2 Hv). Qed.

Lemma elem_filter {A} (f : A → bool) (l : list A) x : x ∈ List.filter f l ↔ x ∈ l ∧ f x = true.
Proof. by rewrite !list_elem_of_In, filter_In. Qed.

(** ** The environment *)

Section environment.
Context `{UT : UnicodeTables}.

Definition marker : string := "AGENT_RELAY_RECIPIENT_RUN=1".
Definition upper_name (item : string) : string := to_upper (variable_name item).
(** The names the recipient lets through. *)
Definition permitted (allowlist : list string) (upper : string) : Prop :=
  upper ∈ default_environment ∨ has_prefix upper "LC_" = true ∨ ∃ name, name ∈ allowlist ∧ upper = to_upper (trim_space name).
(** Every variable is one of the recipient's, of a name the recipient lets
    through and no name of the relay. *)
Definition inherited (h : host) (allowlist : list string) (item : string) : Prop :=
  item ∈ ho_environ h ∧ permitted allowlist (upper_name item) ∧ relayAuthorityVariable (upper_name item) = false.
(** The environment of a run: what is inherited, and the marker that keeps
    the relay's own tools from starting inside it. *)
Definition run_environment (h : host) (allowlist env : list string) : Prop :=
  ∃ l, env = l ++ [marker] ∧ Forall (λ item, inherited h allowlist item ∧ upper_name item ≠ "AGENT_RELAY_RECIPIENT_RUN") l.

Lemma add_allowed_spec values allowed u :
  u ∈ fold_left add_allowed values allowed ↔
  u ∈ allowed ∨ u ≠ "" ∧ relayAuthorityVariable u = false ∧ ∃ v, v ∈ values ∧ u = to_upper (trim_space v).
Proof.
  revert allowed. induction values as [|v values IH]; intros allowed; cbn [fold_left].
  { split; [by left|]. intros [?|(_ & _ & v & ?%elem_of_nil & _)]; done. }
  rewrite IH. unfold add_allowed. set (n := to_upper (trim_space v)).
  destruct (negb _ && negb _) eqn:Hok.
  - orb_split. rewrite elem_of_union, elem_of_singleton. split.
    + intros [[->|?]|(? & ? & w & ? & ->)]; [right; split_and!; [done|done|exists v; split; [by left|done]]|by left|].
      right. split_and!; [done|done|]. exists w. split; [by right|done].
    + intros [?|(? & ? & w & Hw & ->)]; [by left; right|]. apply elem_of_cons in Hw as [->|Hw]; [by left; left|right; eauto].
  - split; [intros [?|(? & ? & w & ? & ->)]; [by left|right; split_and!; [done|done|exists w; split; [by right|done]]]|].
    intros [?|(Hne & Hauth & w & Hw & ->)]; [by left|]. apply elem_of_cons in Hw as [->|Hw]; [|right; eauto].
    exfalso. fold n in Hne, Hauth. rewrite bool_decide_false, Hauth in Hok by done. done.
Qed.

Lemma sanitized_spec h allowlist item :
  item ∈ SanitizedEnvironment (ho_environ h) allowlist → inherited h allowlist item.
Proof.
  unfold SanitizedEnvironment. rewrite elem_filter. intros [Hin Hk].
  unfold environment_keeps in Hk. fold (upper_name item) in Hk. orb_split. split_and!; [done| |done].
  match goal with H : _ || _ = true |- _ => apply orb_true_iff in H as [H|H] end; [|by right; left].
  match goal with H : bool_decide _ = true |- _ => apply bool_decide_eq_true in H; rewrite add_allowed_spec, elem_of_list_to_set in H;
    destruct H as [?|(_ & _ & ?)] end; [by left|by right; right].
Qed.

Lemma trusted_marker base : trustedEnvironment base recipientRunEnvironment =
  inr (List.filter (λ item, negb (has_byte "="%char item) || negb (bool_decide (upper_name item = "AGENT_RELAY_RECIPIENT_RUN"))) base ++ [marker]).
Proof.
  unfold trustedEnvironment, recipientRunEnvironment. rewrite map_to_list_singleton. cbn [existsb fst snd fmap list_fmap].
  assert (bad_override "AGENT_RELAY_RECIPIENT_RUN" "1" = false) as -> by (vm_compute; reflexivity).
  cbn [orb]. change (sort_strings ["AGENT_RELAY_RECIPIENT_RUN"]) with ["AGENT_RELAY_RECIPIENT_RUN"]. cbn [fold_left]. unfold override.
  rewrite lookup_singleton_eq. do 3 f_equal.
Qed.
Lemma trusted_none base : trustedEnvironment base ∅ = inr base.
Proof. done. Qed.

Lemma run_environment_ok h allowlist env :
  trustedEnvironment (SanitizedEnvironment (ho_environ h) allowlist) recipientRunEnvironment = inr env → run_environment h allowlist env.
Proof.
  rewrite trusted_marker. intros [= <-]. eexists. split; [reflexivity|]. apply Forall_forall. intros item.
  rewrite elem_filter. intros [Hin Hk]. split; [by apply sanitized_spec|].
  unfold SanitizedEnvironment in Hin. apply elem_filter in Hin as [_ Hin].
  unfold environment_keeps in Hin. orb_split. match goal with H : has_byte _ _ = true |- _ => rewrite H in Hk end. simpl in Hk.
  by apply negb_true_iff, bool_decide_eq_false in Hk.
Qed.

(** The canonical allowlist determines what a child inherits: it is the form
    the approval fingerprint digests. *)
Lemma canonical_allowlist_correct environment l k :
  CanonicalEnvironmentAllowlist l = CanonicalEnvironmentAllowlist k → SanitizedEnvironment environment l = SanitizedEnvironment environment k.
Proof.
  intros Heq. assert (∀ l u, u ∈ CanonicalEnvironmentAllowlist l ↔ u ∈ fold_left add_allowed l ∅) as Helem.
  { intros l' u. unfold CanonicalEnvironmentAllowlist. by rewrite elem_sort_strings, elem_of_elements. }
  unfold SanitizedEnvironment. generalize (list_to_set (C := gset string) default_environment) as base. intros base.
  enough (fold_left add_allowed l base = fold_left add_allowed k base) as -> by done.
  apply set_eq. intros u. pose proof (Helem l u) as Hl. pose proof (Helem k u) as Hk. rewrite Heq in Hl.
  rewrite add_allowed_spec in Hl, Hk |- *. rewrite add_allowed_spec. rewrite elem_of_empty in Hl, Hk. tauto.
Qed.
End environment.

#[local] Opaque trustedEnvironment SanitizedEnvironment.

(** ** Command lines *)

(** Reads a command line of options: [switches] stand alone, every other word
    takes the next one as its value. *)
Fixpoint read_options (switches args : list string) : option (list (string * string)) :=
  match args with
  | [] => Some []
  | flag :: rest =>
    if bool_decide (flag ∈ switches) then cons (flag, "") <$> read_options switches rest else
    match rest with value :: rest' => cons (flag, value) <$> read_options switches rest' | [] => None end
  end.
Lemma read_options_app sw a : ∀ b o, read_options sw a = Some o → read_options sw (a ++ b) = app o <$> read_options sw b.
Proof.
  induction a as [a IH] using (induction_ltof1 _ length). intros b o. unfold ltof in IH.
  destruct a as [|flag rest]; cbn [read_options app]; [intros [= <-]; by destruct (read_options sw b)|].
  case_match.
  - destruct (read_options sw rest) as [o'|] eqn:Ho; [|done]. intros [= <-]. rewrite (IH rest (Nat.lt_succ_diag_r _) b o' Ho).
    by destruct (read_options sw b).
  - destruct rest as [|value rest]; [done|]. cbn [app]. destruct (read_options sw rest) as [o'|] eqn:Ho; [|done]. intros [= <-].
    rewrite (IH rest ltac:(cbn; lia) b o' Ho). by destruct (read_options sw b).
Qed.
Lemma read_options_repeat sw flag values : flag ∉ sw →
  read_options sw (concat ((λ v, [flag; v]) <$> values)) = Some ((λ v, (flag, v)) <$> values).
Proof.
  intros Hf. induction values as [|v values IH]; [done|]. cbn. rewrite bool_decide_false by done. cbn in IH. by rewrite IH.
Qed.
(** The options of a command line given in parts. *)
Lemma read_options_parts sw (parts : list (list string * list (string * string))) :
  Forall (λ p, read_options sw p.1 = Some p.2) parts → read_options sw (concat parts.*1) = Some (concat parts.*2).
Proof. induction 1 as [|[a o] parts Ha _ IH]; [done|]. cbn. by rewrite (read_options_app _ _ _ _ Ha), IH. Qed.

(** ** What a run starts *)

Section launches.
Context `{UT : UnicodeTables} `{PT : PrintTable} {X : Type}.
Variable sink : list RuntimeEvent → bool.
Implicit Types s : run_state X.

(** Starts nothing and leaves the private files alone. *)
Definition quiet (s s' : run_state X) : Prop := rn_launched s' = rn_launched s ∧ rn_files s' = rn_files s.
#[export] Instance quiet_preorder : PreOrder quiet.
Proof. split; [done|]. intros ? ? ? [? ?] [? ?]. split; etrans; eassumption. Qed.
Lemma quiet_emit e : guar quiet (Emit sink e : M (run_state X) adapter_error ()).
Proof. done. Qed.
Lemma quiet_modify_result f : guar quiet (update_result f : M (run_state X) adapter_error ()).
Proof. done. Qed.
Lemma quiet_modify_extra f : guar quiet (update_extra f : M (run_state X) adapter_error ()).
Proof. done. Qed.
Lemma quiet_warn r session : guar quiet (warn_not_resumed sink r session : M (run_state X) adapter_error ()).
Proof. unfold warn_not_resumed. destruct (rr_Session r), session; done. Qed.
Lemma quiet_finish summary : guar quiet (finish_run sink summary : M (run_state X) adapter_error RuntimeResult).
Proof. unfold finish_run. apply guar_bind; [apply _|apply guar_gets; apply _|]. intros r.
  apply guar_reject_bind; [apply _|]. intros _. apply guar_bind; [apply _|done|]. intros _. apply guar_ret, _.
Qed.

Lemma quiet_consume {E} (p : process E) onLine : (∀ e, guar quiet (onLine e)) → guar quiet (consume p onLine : M (run_state X) adapter_error ()).
Proof. intros Hline. unfold consume. guar_auto; apply _ || apply Hline. Qed.

Definition launch_of (spec : CommandSpec) (env : list string) (files : gmap string mcp_servers) : launch :=
  mkLaunch (sp_Executable spec) (sp_Args spec) (sp_Directory spec) (sp_Stdin spec) env files.
Lemma execute_launched {E} h (child : launch → process E) spec onLine s s' r : (∀ e, guar quiet (onLine e)) →
  ExecuteJSONLines h child spec onLine s = (s', r) →
  rn_files s' = rn_files s ∧
  match trustedEnvironment (SanitizedEnvironment (ho_environ h) (sp_EnvironmentAllowlist spec)) (sp_Environment spec) with
  | inl _ => rn_launched s' = rn_launched s
  | inr env => rn_launched s' = rn_launched s ++ [launch_of spec env (rn_files s)]
  end.
Proof.
  intros Hline. unfold ExecuteJSONLines, lift, mbind, M_bind. destruct (trustedEnvironment _ _) as [e|env]; [by intros [= <- _]|].
  cbn [gets modify]. fold (launch_of spec env (rn_files s)). intros Hrun.
  pose proof (quiet_consume (child (launch_of spec env (rn_files s))) onLine Hline (add_launch (launch_of spec env (rn_files s)) s)) as [H1 H2].
  rewrite Hrun in H1, H2. cbn [fst] in H1, H2. by rewrite H1, H2.
Qed.

(** The checks a [Run] begins with. *)
Lemma checked_step {E A B} (f : E → adapter_error) (v : E + A) (k : A → M (run_state X) adapter_error B) s :
  (checked f v ≫= k) s = match v with inl e => (s, inl (f e)) | inr a => k a s end.
Proof. by destruct v. Qed.
Lemma lift_step {A B} (v : adapter_error + A) (k : A → M (run_state X) adapter_error B) s :
  (lift v ≫= k) s = match v with inl e => (s, inl e) | inr a => k a s end.
Proof. by destruct v. Qed.

(** At most one child was started, as its specification says. *)
Definition started (h : host) (spec : CommandSpec) s s' : Prop :=
  rn_files s' = rn_files s ∧
  (rn_launched s' = rn_launched s ∨
   ∃ env, trustedEnvironment (SanitizedEnvironment (ho_environ h) (sp_EnvironmentAllowlist spec)) (sp_Environment spec) = inr env ∧
     rn_launched s' = rn_launched s ++ [launch_of spec env (rn_files s)]).
Lemma started_quiet h spec s1 s2 s3 s4 : quiet s1 s2 → started h spec s2 s3 → quiet s3 s4 → started h spec s1 s4.
Proof.
  intros [HL1 HF1] [HF2 HL2] [HL3 HF3]. unfold started. rewrite HL3, HF3, HF2, HF1. split; [done|]. rewrite HF1, HL1 in HL2. done.
Qed.
Lemma started_none h spec s s' : quiet s s' → started h spec s s'.
Proof. intros [? ?]. split; [done|by left]. Qed.
Lemma wp_quiet {A} (m : M (run_state X) adapter_error A) (Q : A → run_state X → Prop) Y s :
  guar quiet m → (∀ a s', quiet s s' → Q a s') → (∀ e s', quiet s s' → Y e s') → wp m Q Y s.
Proof. intros Hm HQ HY. unfold wp. specialize (Hm s). destruct (m s) as [s' [e|a]]; auto. Qed.
Lemma wp_execute {E} h (child : launch → process E) spec onLine (Q : () → run_state X → Prop) Y s :
  (∀ e, guar quiet (onLine e)) → (∀ s', started h spec s s' → Q () s') → (∀ e s', started h spec s s' → Y e s') →
  wp (ExecuteJSONLines h child spec onLine) Q Y s.
Proof.
  intros Hline HQ HY. unfold wp. destruct (ExecuteJSONLines _ _ _ _ s) as [s' r] eqn:Hrun.
  assert (started h spec s s') as Hs; [|destruct r as [e|[]]; auto].
  apply execute_launched in Hrun as [HF HL]; [|done]. split; [done|]. destruct (trustedEnvironment _ _) as [e|env]; [by left|right; eauto].
Qed.
(** The shape of every [Run]: quiet steps, one child, quiet steps. *)
Abbreviation starting h spec s m := (wp m (λ _ s', started h spec s s') (λ _ s', started h spec s s')).
Lemma quiet_step {A B} s s1 (m : M (run_state X) adapter_error A) (f : A → M (run_state X) adapter_error B) (Q : B → run_state X → Prop) Y :
  guar quiet m → quiet s s1 → (∀ a s2, quiet s s2 → wp (f a) Q Y s2) → (∀ e s2, quiet s s2 → Y e s2) → wp (m ≫= f) Q Y s1.
Proof. intros Hm Hq Hf HY. apply wp_bind, wp_quiet; [done| |]; intros ? s2 H2; [apply Hf|apply HY]; by etrans. Qed.
Lemma starting_step {A B} h spec s s1 (m : M (run_state X) adapter_error A) (f : A → M (run_state X) adapter_error B) :
  guar quiet m → quiet s s1 → (∀ a s2, quiet s s2 → starting h spec s (f a) s2) → starting h spec s (m ≫= f) s1.
Proof. intros Hm Hq Hf. eapply quiet_step; [done|done|done|]. intros e s2 H2. by apply started_none. Qed.
Lemma starting_execute {A E} h (child : launch → process E) spec onLine s s1 (f : () → M (run_state X) adapter_error A) :
  (∀ e, guar quiet (onLine e)) → (∀ u, guar quiet (f u)) → quiet s s1 →
  starting h spec s (ExecuteJSONLines h child spec onLine ≫= f) s1.
Proof.
  intros Hline Hf Hq. apply wp_bind, wp_execute; [done|intros s2 H2|intros e s2 H2; by eapply started_quiet].
  apply wp_quiet; [done| |]; intros ? s3 H3; by eapply started_quiet.
Qed.
End launches.
#[export] Hint Resolve quiet_emit quiet_modify_result quiet_modify_extra quiet_warn quiet_finish : guar.

(** The values a flag is given. *)
Definition option_values (flag : string) (options : list (string * string)) : list string :=
  omap (λ o, if String.eqb o.1 flag then Some o.2 else None) options.
Lemma option_values_app flag a b : option_values flag (a ++ b) = option_values flag a ++ option_values flag b.
Proof. apply omap_app. Qed.
Lemma option_values_repeat flag f l : option_values flag ((λ v, (f, v)) <$> l) = if String.eqb f flag then l else [].
Proof.
  unfold option_values. induction l as [|v l IH]; cbn; [by destruct (String.eqb f flag)|].
  destruct (String.eqb f flag); cbn; by rewrite IH.
Qed.

