(* ===== verification/AdapterProofs.v ===== *)
(** * Claude Code and Codex are confined ([claude/adapter.go], [codex/adapter.go])

    Whatever is asked and whatever the child answers, the one process a run
    starts has the command line, the environment and the files that the
    effective policy allows. *)

From S2P Require Import Prelude GoString Sha256 GoStringFacts Json Policy Redact RedactFacts Artifact Sandbox SandboxProofs Adapters AdapterLogic.
From Stdlib Require Import Ascii.

Local Open Scope Z_scope.

#[local] Opaque CompatibleSession PolicyFingerprint sha256 SafeSummary trustedEnvironment SanitizedEnvironment.

(** ** Claude Code *)

Section claude.
Context `{UT : UnicodeTables} `{PT : PrintTable}.
Variable sink : list RuntimeEvent → bool.
Implicit Types (s : run_state claude_state) (a : claude_Adapter) (q : Policy) (r : RunRequest).

Definition claude_switches : list string := ["-p"; "--verbose"; "--strict-mcp-config"].
Definition tool_options q : list (string * string) :=
  if bool_decide (po_Mode q = PolicyReadOnly) then
    [("--permission-mode", "dontAsk");
     ("--tools", join "," (["Read"; "Glob"; "Grep"] ++ (if po_AllowNetwork q then ["WebFetch"; "WebSearch"] else [])))]
  else
    [("--permission-mode", "auto"); ("--tools", "default")]
    ++ match claudeDeniedTools q with [] => [] | denied => [("--disallowedTools", join "," denied)] end.
Definition hooks_disabled : string := "{" +:+ dquote +:+ "disableAllHooks" +:+ dquote +:+ ":true}".
Definition claude_options a r q path : list (string * string) :=
  [("-p", ""); ("--output-format", "stream-json"); ("--verbose", ""); ("--settings", hooks_disabled)]
  ++ (if bool_decide (cl_model a = "") then [] else [("--model", cl_model a)])
  ++ tool_options q
  ++ [("--strict-mcp-config", ""); ("--mcp-config", path); ("--append-system-prompt", RecipientResponseContract)]
  ++ ((λ d, ("--add-dir", d)) <$> additionalDirectories r)
  ++ (match claude_session a r q with Some s => [("--resume", ss_OpaqueID s)] | None => [] end).
Lemma claude_args_read a r q path : ∃ words,
  (claude_commandArgs a r q path).1 = cl_prefixArgs a ++ words ∧ read_options claude_switches words = Some (claude_options a r q path).
Proof.
  pose proof (read_options_parts claude_switches
    [(["-p"; "--output-format"; "stream-json"; "--verbose"; "--settings"; hooks_disabled],
      [("-p", ""); ("--output-format", "stream-json"); ("--verbose", ""); ("--settings", hooks_disabled)]);
     (if bool_decide (cl_model a = "") then ([], []) else (["--model"; cl_model a], [("--model", cl_model a)]));
     (concat ((λ o, [o.1; o.2]) <$> tool_options q), tool_options q);
     (["--strict-mcp-config"; "--mcp-config"; path; "--append-system-prompt"; RecipientResponseContract],
      [("--strict-mcp-config", ""); ("--mcp-config", path); ("--append-system-prompt", RecipientResponseContract)]);
     (concat ((λ d, ["--add-dir"; d]) <$> additionalDirectories r), (λ d, ("--add-dir", d)) <$> additionalDirectories r);
     (match claude_session a r q with Some s => ["--resume"; ss_OpaqueID s] | None => [] end,
      match claude_session a r q with Some s => [("--resume", ss_OpaqueID s)] | None => [] end)]) as H.
  eexists. split; [|etrans; [apply H|]].
  - unfold claude_commandArgs, tool_options, claude_options. cbn [fst fmap list_fmap]. 
    destruct (bool_decide (cl_model a = "")), (bool_decide (po_Mode q = PolicyReadOnly)), (claudeDeniedTools q); cbn; by rewrite ?app_nil_r.
  - repeat (apply Forall_cons; split); [done| | |done|apply read_options_repeat; apply (bool_decide_unpack _); by vm_compute| |by apply Forall_nil].
    + by destruct (bool_decide (cl_model a = "")).
    + unfold tool_options. destruct (bool_decide (po_Mode q = PolicyReadOnly)), (claudeDeniedTools q); done.
    + by destruct (claude_session a r q).
  - f_equal. unfold claude_options. cbn [fmap list_fmap snd concat]. rewrite app_nil_r.
    by destruct (bool_decide (cl_model a = "")).
Qed.

(** *** The tools on offer *)

(** Whether Claude Code, given these options, offers a tool: it is in the list
    of tools, [default] being every tool, and not in the list of denied ones. *)
Definition listed (tool : string) (value : string) : bool := bool_decide (tool ∈ split_byte ","%char value).
Definition offered (options : list (string * string)) (tool : string) : bool :=
  existsb (λ v, String.eqb v "default" || listed tool v) (option_values "--tools" options)
  && negb (existsb (listed tool) (option_values "--disallowedTools" options)).
(** What a policy withholds in every mode. *)
Definition withheld q : list string :=
  nestedRelayTools ++ (if po_AllowShell q then [] else ["Bash"]) ++
  (if po_AllowWrites q then [] else ["Edit"; "Write"; "NotebookEdit"]) ++
  (if po_AllowNetwork q then [] else ["WebFetch"; "WebSearch"]).
(** What the recipient denies by name. *)
Definition denied_by_name q : list string := po_DeniedTools q ++ ((λ command, "Bash(" +:+ command +:+ " *)") <$> po_DeniedCommands q).
Definition comma_free (t : string) : Prop := Forall (λ c, c ≠ ","%char) (bytes t).

Definition inspection_tools (network : bool) : list string :=
  ["Read"; "Glob"; "Grep"] ++ (if network then ["WebFetch"; "WebSearch"] else []).

Lemma claude_values flag a r q path : option_values flag (claude_options a r q path) =
  option_values flag [("-p", ""); ("--output-format", "stream-json"); ("--verbose", ""); ("--settings", hooks_disabled)]
  ++ (if String.eqb "--model" flag then if bool_decide (cl_model a = "") then [] else [cl_model a] else [])
  ++ option_values flag (tool_options q)
  ++ option_values flag [("--strict-mcp-config", ""); ("--mcp-config", path); ("--append-system-prompt", RecipientResponseContract)]
  ++ (if String.eqb "--add-dir" flag then additionalDirectories r else [])
  ++ (if String.eqb "--resume" flag then match claude_session a r q with Some s => [ss_OpaqueID s] | None => [] end else []).
Proof.
  unfold claude_options. rewrite !option_values_app, option_values_repeat. repeat f_equal.
  - unfold option_values. destruct (bool_decide (cl_model a = "")); cbn [omap list_omap fst snd]; by destruct (String.eqb "--model" flag).
  - unfold option_values. destruct (claude_session a r q); cbn [omap list_omap fst snd]; by destruct (String.eqb "--resume" flag).
Qed.
Lemma tool_values flag q : option_values flag (tool_options q) =
  if bool_decide (po_Mode q = PolicyReadOnly) then
    option_values flag [("--permission-mode", "dontAsk");
      ("--tools", join "," (["Read"; "Glob"; "Grep"] ++ (if po_AllowNetwork q then ["WebFetch"; "WebSearch"] else [])))]
  else
    option_values flag [("--permission-mode", "auto"); ("--tools", "default")]
    ++ (if String.eqb "--disallowedTools" flag then match claudeDeniedTools q with [] => [] | denied => [join "," denied] end else []).
Proof.
  unfold tool_options. case_match; [done|]. rewrite option_values_app. f_equal. unfold option_values.
  destruct (claudeDeniedTools q); cbn [omap list_omap fst snd]; by destruct (String.eqb "--disallowedTools" flag).
Qed.
Lemma offered_read_only a r q path tool : po_Mode q = PolicyReadOnly → offered (claude_options a r q path) tool =
  bool_decide (tool ∈ inspection_tools (po_AllowNetwork q)).
Proof.
  intros Hro. unfold offered. rewrite !claude_values, !tool_values, (bool_decide_true (po_Mode q = PolicyReadOnly)) by done. cbn [option_values omap list_omap fst snd String.eqb Ascii.eqb Bool.eqb app existsb].
  unfold listed. destruct (po_AllowNetwork q); cbn; by rewrite orb_false_r, andb_true_r.
Qed.
Lemma offered_others a r q path tool : po_Mode q ≠ PolicyReadOnly → tool ∈ claudeDeniedTools q → comma_free tool →
  offered (claude_options a r q path) tool = false.
Proof.
  intros Hro Hin Hfree. unfold offered. rewrite !claude_values, !tool_values, (bool_decide_false (po_Mode q = PolicyReadOnly)) by done.
  apply andb_false_iff. right. apply negb_false_iff. cbn [option_values omap list_omap fst snd String.eqb Ascii.eqb Bool.eqb app existsb].
  destruct (claudeDeniedTools q) as [|t l] eqn:Hd; [by apply elem_of_nil in Hin|]. cbn [app existsb]. unfold listed.
  rewrite bool_decide_true; [done|]. by apply split_join_elem.
Qed.
Lemma elem_denied q t : t ∈ claudeDeniedTools q ↔ t ∈ withheld q ++ denied_by_name q.
Proof.
  unfold claudeDeniedTools. rewrite elem_compact, elem_sort_strings. unfold withheld, denied_by_name. rewrite !elem_of_app. tauto.
Qed.
Definition always_withheld (network : bool) : list string :=
  nestedRelayTools ++ ["Bash"; "Edit"; "Write"; "NotebookEdit"] ++ (if network then [] else ["WebFetch"; "WebSearch"]).
Lemma withheld_always q t : t ∈ withheld q → t ∈ always_withheld (po_AllowNetwork q).
Proof.
  unfold withheld, always_withheld. rewrite !elem_of_app.
  destruct (po_AllowShell q), (po_AllowWrites q), (po_AllowNetwork q); rewrite ?elem_of_cons, ?elem_of_nil; tauto.
Qed.
Lemma always_withheld_names network : Forall (λ t, comma_free t ∧
  t ∉ inspection_tools network) (always_withheld network).
Proof. unfold comma_free. apply (bool_decide_unpack _). destruct network; by vm_compute. Qed.
Lemma withheld_not_offered a r q path t : t ∈ withheld q → offered (claude_options a r q path) t = false.
Proof.
  intros Ht. pose proof (always_withheld_names (po_AllowNetwork q)) as Hall. rewrite Forall_forall in Hall.
  destruct (Hall t (withheld_always q t Ht)) as [Hfree Hname].
  destruct (decide (po_Mode q = PolicyReadOnly)) as [Hro|Hro]; [|apply offered_others; [done| |done]; apply elem_denied, elem_of_app; by left].
  rewrite offered_read_only by done. by apply bool_decide_eq_false.
Qed.

(** *** The MCP servers *)

Definition no_relay_server (m : mcp_servers) : Prop := map_Forall (λ name raw, isTeamRelayMCPServer name raw = inr false) m.
(** An inventory an adapter may freeze. *)
Definition inventory_ok (p : Policy) (m : mcp_servers) : Prop := no_relay_server m ∧ (po_AllowMCPs p = false → m = ∅).
Definition frozen_ok (p : Policy) (x : claude_state) : Prop := ∀ m, cx_frozen x = Some (inr m) → inventory_ok p m.

Lemma recipient_servers_ok h workDir m : recipientMCPServers h workDir = inr m → no_relay_server m.
Proof.
  unfold recipientMCPServers. destruct (claudeConfigPath h) as [e|path]; [done|]. cbn [mbind sum_bind].
  destruct (readBoundedRegularFile _ _ _) as [e|[[configured|]|]]; [done| |done|by intros [= <-]; apply map_Forall_empty].
  cbn [mbind sum_bind]. case_match; [done|]. intros [= <-]. intros name raw [_ Hf]%map_lookup_filter_Some.
  unfold foreign_server in Hf. cbn [fst snd] in Hf. destruct (isTeamRelayMCPServer name raw) as [e|[]]; [done|done|done].
Qed.
Lemma inventory_frozen h a m : claude_inventory h a = inr m → inventory_ok (cl_policy a) m.
Proof.
  unfold claude_inventory. destruct (po_AllowMCPs (cl_policy a)) eqn:Hm; cbn [negb]; intros H.
  - split; [by eapply recipient_servers_ok|]. by rewrite Hm.
  - injection H as <-. split; [apply map_Forall_empty|done].
Qed.

Lemma write_attempts_ok h payload n i s s' res : write_attempts h payload n i s = (s', res) →
  rn_launched s' = rn_launched s ∧ rn_extra s' = rn_extra s ∧
  match res with inl _ => rn_files s' = rn_files s | inr path => rn_files s' = <[path := payload]> (rn_files s) end.
Proof.
  revert i. induction n as [|n IH]; intros i; cbn [write_attempts]; [by intros [= <- <-]|].
  destruct (ho_Random h i); [|by intros [= <- <-]]. destruct (ho_CreateDirectory _ _); [|apply IH|by intros [= <- <-]].
  unfold mbind, M_bind, reject_if. destruct (ho_WriteNewFile _ _); [|by intros [= <- <-]]. by intros [= <- <-].
Qed.
Lemma prepare_ok h a q s s' res : frozen_ok (cl_policy a) (rn_extra s) → prepareMCPConfig h a q s = (s', res) →
  rn_launched s' = rn_launched s ∧ frozen_ok (cl_policy a) (rn_extra s') ∧
  match res with
  | inl _ => rn_files s' = rn_files s
  | inr path => ∃ servers, rn_files s' = <[path := servers]> (rn_files s) ∧ no_relay_server servers ∧ (po_AllowMCPs q = false → servers = ∅)
  end.
Proof.
  intros Hok. unfold prepareMCPConfig, frozenRecipientMCPServers, update_extra, lift. unfold mbind, M_bind, gets, modify.
  set (frozen := match cx_frozen (rn_extra s) with Some frozen => frozen | None => claude_inventory h a end).
  assert (∀ m, frozen = inr m → inventory_ok (cl_policy a) m) as Hf.
  { intros m. unfold frozen, frozen_ok in *. destruct (cx_frozen (rn_extra s)) as [v|]; [intros ->; by apply Hok|apply inventory_frozen]. }
  set (s1 := set_extra _ s). assert (frozen_ok (cl_policy a) (rn_extra s1)) as Hok1.
  { intros m. cbn. intros [= Hm]. by apply Hf. }
  destruct frozen as [e|m] eqn:Hfrozen; [by intros [= <- <-]|]. specialize (Hf m eq_refl) as [Hsafe _].
  intros (H1 & H2 & H3)%write_attempts_ok. rewrite H1, H2. split_and!; [done|done|].
  destruct res as [e|path]; [by rewrite H3|]. eexists. split; [exact H3|]. destruct (po_AllowMCPs q); [by split|]. split; [apply map_Forall_empty|done].
Qed.

(** *** A run *)

Lemma quiet_claude_line a q (e : claudeEvent) : guar quiet (claude_line sink a q e).
Proof.
  unfold claude_line, claude_assistant, claude_tool_result, claude_result, set_text, set_session. guar_auto; apply _ || done.
Qed.

Definition granted r q d : Prop :=
  d ∈ (wk_Path <$> rr_Workspaces r) ∨ d ∈ (path_Dir <$> rr_Attachments r) ∨ (po_AllowWrites q = true ∧ d = rr_ReturnDirectory r ∧ d ≠ "").
Lemma additional_directories r q d : d ∈ additionalDirectories (ConstrainRequest r q) → granted r q d.
Proof.
  unfold additionalDirectories, granted. rewrite elem_sort_strings, elem_of_elements, !elem_of_union, !elem_of_list_to_set.
  cbn [ConstrainRequest rr_Workspaces rr_Attachments rr_ReturnDirectory]. intros [[H|H]|H].
  - left. destruct (po_AllowWrites q); [done|]. by rewrite <- list_fmap_compose in H.
  - by right; left.
  - right; right. destruct (po_AllowWrites q); case_bool_decide; first [by apply elem_of_empty in H|done|by apply elem_of_singleton in H as ->].
Qed.

Definition claude_spec a r q path : CommandSpec :=
  mkCommandSpec (cl_executable a) (claude_commandArgs a r q path).1 (cl_workDir a) (run_prompt r q) (cl_environmentAllowlist a) recipientRunEnvironment.
Lemma claude_execute_started h child a r q path s :
  let s' := (claude_execute sink h child a r q path s).1 in
  started h (claude_spec a r q path) s s' ∧ cx_frozen (rn_extra s') = cx_frozen (rn_extra s).
Proof.
  enough (wp (claude_execute sink h child a r q path) (λ _ s', started h (claude_spec a r q path) s s')
    (λ _ s', started h (claude_spec a r q path) s s') s ∧ guar (λ s s', cx_frozen (rn_extra s') = cx_frozen (rn_extra s)) (claude_execute sink h child a r q path)) as [H1 H2].
  { split; [|apply H2]. unfold wp in H1. by destruct (claude_execute _ _ _ _ _ _ _ s) as [s' []]. }
  split.
  - unfold claude_execute, claude_spec. destruct (claude_commandArgs a r q path) as [args session]. cbn [fst].
    do 4 (apply starting_step; [try done; apply quiet_warn|done|intros ? ? ?]).
    apply starting_execute; [apply quiet_claude_line| |done]. intros _. guar_auto; apply _ || apply quiet_finish.
  - assert (PreOrder (λ s s' : run_state claude_state, cx_frozen (rn_extra s') = cx_frozen (rn_extra s))) by (split; [done|intros ? ? ? ? ?; by etrans]).
    unfold claude_execute. destruct (claude_commandArgs a r q path) as [args session].
    unfold warn_not_resumed, ExecuteJSONLines, consume, claude_line, claude_assistant, claude_tool_result, claude_result, set_text, set_session, finish_run.
    guar_auto; apply _ || done.
Qed.

Definition hooks_off (options : list (string * string)) : Prop := option_values "--settings" options = [hooks_disabled].
(** What Claude Code is allowed when it runs under an effective policy. *)
Definition claude_confined (h : host) (c : claude_Config) (workDir : string) r q (l : launch) : Prop :=
  la_Executable l = or_default (cg_Executable c) "claude" ∧ la_Directory l = workDir ∧
  la_Stdin l = run_prompt (ConstrainRequest r q) q ∧ run_environment h (cg_EnvironmentAllowlist c) (la_Env l) ∧
  (po_AllowShell q = true → po_AllowWrites q = true) ∧
  ∃ words options path servers, la_Args l = cg_PrefixArgs c ++ words ∧ read_options claude_switches words = Some options ∧
    (∀ t, t ∈ withheld q → offered options t = false) ∧
    (po_Mode q ≠ PolicyReadOnly → ∀ t, t ∈ denied_by_name q → comma_free t → offered options t = false) ∧
    (po_Mode q = PolicyReadOnly → ∀ t, offered options t = true → t ∈ inspection_tools (po_AllowNetwork q)) ∧
    hooks_off options ∧
    option_values "--strict-mcp-config" options = [""] ∧ option_values "--mcp-config" options = [path] ∧
    la_Files l !! path = Some servers ∧ no_relay_server servers ∧ (po_AllowMCPs q = false → servers = ∅) ∧
    (∀ d, d ∈ option_values "--add-dir" options → granted r q d) ∧
    (∀ id, id ∈ option_values "--resume" options →
       ∃ session, rr_Session r = Some session ∧ ss_OpaqueID session = id ∧ CompatibleSession (Some session) claude_RuntimeID q workDir = true).

Lemma claude_new_inv h c a : claude_New h c = inr a →
  cl_executable a = or_default (cg_Executable c) "claude" ∧ cl_prefixArgs a = cg_PrefixArgs c ∧
  cl_environmentAllowlist a = cg_EnvironmentAllowlist c ∧ ValidatePolicy (cg_Policy c) = inr (cl_policy a) ∧
  ValidateWorkDir h (cg_WorkDir c) = inr (cl_workDir a).
Proof.
  unfold claude_New. destruct (validateClaudePrefixArgs _); [done|]. destruct (ValidateWorkDir _ _) as [|workDir]; [done|].
  destruct (ValidatePolicy _) as [|policy]; [done|]. cbn [map_error mbind sum_bind]. destruct (validateClaudePolicy _ _); [done|].
  by intros [= <-].
Qed.
Lemma effective_of_valid p q requested : ValidatePolicy p = inr q → EffectivePolicy q requested = EffectivePolicy p requested.
Proof. intros H. unfold EffectivePolicy. by rewrite H, (validate_policy_idem _ _ H). Qed.

Lemma compatible_session a r q session : claude_session a (ConstrainRequest r q) q = Some session →
  rr_Session r = Some session ∧ CompatibleSession (Some session) claude_RuntimeID q (cl_workDir a) = true.
Proof.
  unfold claude_session, ConstrainRequest. cbn [rr_Session]. case_match eqn:Hc; [|done]. intros Hs. by rewrite Hs in Hc.
Qed.
Lemma bash_needs_writes q c : validateClaudePolicy q c = inr () → po_AllowShell q = true → po_AllowWrites q = true.
Proof.
  unfold validateClaudePolicy. destruct (ValidatePolicySupport c q); [done|]. cbn [map_error mbind sum_bind].
  intros H Hshell. rewrite Hshell, andb_true_r in H. by destruct (po_AllowWrites q).
Qed.
Lemma claude_launch_confined h h0 c a r q env files path servers :
  claude_New h0 c = inr a → validateClaudePolicy q (claude_capabilities (cl_policy a)) = inr () →
  trustedEnvironment (SanitizedEnvironment (ho_environ h) (cl_environmentAllowlist a)) recipientRunEnvironment = inr env →
  files !! path = Some servers → no_relay_server servers → (po_AllowMCPs q = false → servers = ∅) →
  claude_confined h c (cl_workDir a) r q (launch_of (claude_spec a (ConstrainRequest r q) q path) env files).
Proof.
  intros (He & Hp & Ha & _)%claude_new_inv Hpolicy Henv Hfile Hsafe Hempty.
  destruct (claude_args_read a (ConstrainRequest r q) q path) as (words & Hwords & Hread).
  unfold claude_confined, launch_of, claude_spec. cbn [sp_Executable sp_Args sp_Directory sp_Stdin la_Executable la_Args la_Directory la_Stdin la_Env la_Files].
  split; [done|]. split; [done|]. split; [done|]. split; [rewrite <- Ha; by apply run_environment_ok|]. split.
  { by eapply bash_needs_writes. }
  clear Hpolicy Henv.
  exists words, (claude_options a (ConstrainRequest r q) q path), path, servers. rewrite <- Hp. split; [exact Hwords|]. split; [exact Hread|].
  split; [intros t; apply withheld_not_offered|].
  split; [intros Hro t Ht Hfree; apply offered_others; [done| |done]; apply elem_denied, elem_of_app; by right|].
  split; [intros Hro t; rewrite offered_read_only by done; apply bool_decide_eq_true|].
  assert (∀ f, String.eqb "--permission-mode" f = false → String.eqb "--tools" f = false → String.eqb "--disallowedTools" f = false →
    option_values f (tool_options q) = []) as Htools.
  { intros f H1 H2 H3. rewrite tool_values. unfold option_values. rewrite H3. cbn [omap list_omap fst snd]. rewrite H1, H2. by case_match. }
  unfold hooks_off. rewrite !claude_values, !Htools by done. split; [by destruct (bool_decide _)|]. split; [done|]. split; [done|].
  split; [done|]. split; [done|]. split; [done|]. split.
  - intros d. cbn [option_values omap list_omap fst snd String.eqb Ascii.eqb Bool.eqb app]. rewrite app_nil_r. apply additional_directories.
  - intros id. cbn [option_values omap list_omap fst snd String.eqb Ascii.eqb Bool.eqb app].
    destruct (claude_session a (ConstrainRequest r q) q) as [session|] eqn:Hs; [|intros []%elem_of_nil].
    intros ->%list_elem_of_singleton. apply compatible_session in Hs as [? ?]. by exists session.
Qed.

(** A run started at most one process, confined by the effective policy; its
    private files are gone and what it froze is safe. *)
Definition claude_run_confined (h : host) (c : claude_Config) a r s : Prop :=
  (length (rn_launched s) <= 1)%nat ∧ rn_files s = ∅ ∧ frozen_ok (cl_policy a) (rn_extra s) ∧
  ∀ l, l ∈ rn_launched s → ∃ q, EffectivePolicy (cg_Policy c) (rr_RequestedPolicy r) = inr q ∧ claude_confined h c (cl_workDir a) r q l.
Lemma claude_none h c a r s :
  rn_launched s = [] → rn_files s = ∅ → frozen_ok (cl_policy a) (rn_extra s) → claude_run_confined h c a r s.
Proof. intros HL HF Hok. unfold claude_run_confined. rewrite HL. split_and!; [cbn; lia|done|done|]. intros l []%elem_of_nil. Qed.

(** C33. Whatever is asked and whatever the child answers, one run of Claude Code
    starts at most one process, and only under a policy that is the narrowing of
    the configured one by the request.  Its executable and first arguments are
    the configured ones and its directory is the recipient's.  Its environment
    holds only variables that the recipient lets through and none of the
    relay's, and the marker against nested requests.  On its command line, no
    tool that the policy withholds is on offer, a read-only policy offers only
    inspection tools, hooks are off, and only directories of the request are
    added.  MCP servers come from one private file alone, which holds no server
    of the relay, and none at all unless the policy allows them.  A session is
    resumed only when it is compatible.  Afterwards the private file is gone, and
    the inventory of servers that was frozen is one the configured policy allows. *)
Theorem claude_runs_confined h0 c a (Hnew : claude_New h0 c = inr a) h child r s
    (Hstart : rn_launched s = [] ∧ rn_files s = ∅ ∧ frozen_ok (cl_policy a) (rn_extra s)) :
  claude_run_confined h c a r (claude_Run sink h child a r s).1.
Proof.
  destruct Hstart as (HL & HF & Hok). pose proof (claude_new_inv _ _ _ Hnew) as (_ & _ & _ & Hvalid & _).
  pose proof (claude_none h c a r s HL HF Hok) as Hnone.
  unfold claude_Run. rewrite checked_step. destruct (ValidateRunRequest r) as [e|u]; [exact Hnone|].
  rewrite checked_step, (effective_of_valid _ _ _ Hvalid).
  destruct (EffectivePolicy (cg_Policy c) (rr_RequestedPolicy r)) as [e|q] eqn:Hq; [exact Hnone|].
  rewrite lift_step. destruct (validateClaudePolicy q (claude_capabilities (cl_policy a))) as [e|[]] eqn:Hpolicy; [exact Hnone|].
  unfold mbind, M_bind.
  destruct (prepareMCPConfig h a q s) as [s1 [e|path]] eqn:Hprep; apply prepare_ok in Hprep as (HL1 & Hok1 & HF1); try exact Hok; cbn [fst].
  { apply claude_none; [by rewrite HL1|by rewrite HF1|exact Hok1]. }
  destruct HF1 as (servers & HF1 & Hsafe & Hempty). unfold finally.
  destruct (claude_execute_started h child a (ConstrainRequest r q) q path s1) as [[HF2 HL2] Hfr].
  destruct (claude_execute _ _ _ _ _ _ _ s1) as [s2 res]. cbn [fst] in *. unfold claude_run_confined, remove_config, set_files. cbn [rn_launched rn_files rn_extra].
  rewrite HL1, HL in HL2. split; [destruct HL2 as [->|(env & _ & ->)]; cbn; lia|].
  split; [by rewrite HF2, HF1, HF, delete_insert_eq, delete_empty|]. split; [intros m; rewrite Hfr; apply Hok1|].
  intros l Hl. destruct HL2 as [HL2|(env & Henv & HL2)]; rewrite HL2 in Hl; [by apply elem_of_nil in Hl|].
  apply list_elem_of_singleton in Hl as ->. exists q. split; [exact Hq|].
  apply (claude_launch_confined h h0 c a r q env _ path servers Hnew Hpolicy Henv); [by rewrite HF1, lookup_insert_eq|exact Hsafe|exact Hempty].
Qed.
End claude.

(** ** Codex *)

(** *** The ancestors of a directory *)

Definition rooted (l : list string) : string := "/" +:+ join "/" l.
Lemma join_cons x l : l ≠ [] → join "/" (x :: l) = x +:+ "/" +:+ join "/" l.
Proof. by destruct l. Qed.
Lemma split_rooted l : Forall proper l → l ≠ [] → split_byte "/"%char (rooted l) = "" :: l.
Proof.
  intros Hl Hne. unfold rooted. change ("/" +:+ join "/" l) with (String "/" (join "/" l)). cbn [split_byte]. rewrite Ascii.eqb_refl.
  f_equal. apply split_join; [done|]. eapply Forall_impl; [exact Hl|]. by intros x (_ & _ & _ & ?).
Qed.
Lemma clean_loop_slash out l : Forall proper l → clean_loop true out (l ++ [""]) = reverse l ++ out.
Proof.
  intros Hl. revert out. induction Hl as [|c l (H1 & H2 & H3 & _) _ IH]; intros out; [done|]. cbn [app clean_loop].
  rewrite !bool_decide_false by done. cbn [orb]. by rewrite IH, reverse_cons, <- app_assoc.
Qed.
Lemma path_Dir_rooted l x : Forall proper (l ++ [x]) → path_Dir (rooted (l ++ [x])) = rooted l.
Proof.
  intros Hl. unfold path_Dir. rewrite split_rooted by (done || by destruct l).
  rewrite app_comm_cons, reverse_app. change (reverse [x]) with [x]. cbn [app].
  assert (∃ y k, reverse ("" :: l) = y :: k) as (y & k & Hr).
  { destruct (reverse ("" :: l)) as [|y k] eqn:Hr; [|eauto]. apply (f_equal length) in Hr. by rewrite length_reverse in Hr. }
  rewrite Hr, <- Hr, reverse_involutive. apply Forall_app in Hl as [Hl _]. unfold Clean.
  destruct (decide (l = [])) as [->|Hn]; [reflexivity|].
  assert (join "/" ("" :: l) +:+ "/" = rooted l +:+ String "/" "") as -> by (by rewrite join_cons).
  rewrite bool_decide_false by done. change (has_prefix (rooted l +:+ String "/" "") "/") with (String.prefix "" (join "/" l +:+ String "/" "")).
  assert (∀ t, String.prefix "" t = true) as -> by (by intros []). rewrite split_byte_snoc, split_rooted by done. cbn [app clean_loop].
  rewrite bool_decide_true by done. cbn [orb]. change (split_byte "/"%char "") with [""]. by rewrite clean_loop_slash, app_nil_r, reverse_involutive.
Qed.
Lemma length_rooted l : Forall proper l → (length l ≤ String.length (rooted l))%nat.
Proof.
  intros Hl. unfold rooted. rewrite length_string_app. induction Hl as [|x l (Hx & _) _ IH]; [cbn; lia|].
  destruct l as [|y l]; [cbn; lia|]. rewrite join_cons, !length_string_app by done. destruct x; [done|]. cbn in *. lia.
Qed.
Lemma rooted_snoc_ne l x : Forall proper (l ++ [x]) → rooted l ≠ rooted (l ++ [x]).
Proof.
  intros Hl Heq. apply (f_equal (split_byte "/"%char)) in Heq. rewrite (split_rooted (l ++ [x])) in Heq by (done || by destruct l).
  apply Forall_app in Hl as [Hl [(Hx & _) _]%Forall_cons]. destruct l as [|y l]; [injection Heq as <-; done|].
  rewrite split_rooted in Heq by done. injection Heq as Heq. apply (f_equal length) in Heq. rewrite length_app in Heq. cbn in Heq. lia.
Qed.
Lemma ancestors_all fuel l n : Forall proper l → (length l ≤ fuel)%nat → Nat.iter n path_Dir (rooted l) ∈ ancestors fuel (rooted l).
Proof.
  revert fuel n. induction l as [|x l IH] using rev_ind; intros fuel n Hl Hlen.
  - assert (Nat.iter n path_Dir (rooted []) = rooted []) as -> by (induction n as [|n IHn]; [done|]; by rewrite Nat.iter_succ, IHn).
    destruct fuel; left.
  - rewrite length_app in Hlen. cbn in Hlen. destruct fuel as [|fuel]; [lia|]. cbn [ancestors].
    destruct n as [|n]; [left|]. right. rewrite Nat.iter_succ_r, path_Dir_rooted by done.
    rewrite bool_decide_false by (by apply rooted_snoc_ne). apply IH; [by apply Forall_app in Hl as [? _]|lia].
Qed.
Lemma project_paths_all workDir n : has_prefix workDir "/" = true → Nat.iter n path_Dir (Clean workDir) ∈ project_paths workDir.
Proof.
  intros (l & Hl & Heq)%Clean_rooted. unfold project_paths. rewrite Heq. change ("/" +:+ join "/" l) with (rooted l).
  apply ancestors_all; [done|by apply length_rooted].
Qed.

Section codex.
Context `{UT : UnicodeTables} `{PT : PrintTable}.
Variable sink : list RuntimeEvent → bool.
Implicit Types (s : run_state string) (a : codex_Adapter) (q : Policy) (r : RunRequest).

(** *** Settings *)

Definition codex_switches : list string := ["--ignore-user-config"; "--json"; "--skip-git-repo-check"].
Definition strip_prefix (prefix s : string) : option string :=
  if has_prefix s prefix then Some (drop_bytes (String.length prefix) s) else None.
(** The value Codex gives a setting: that of its last [--config]. *)
Definition setting (options : list (string * string)) (key : string) : option string :=
  last (omap (strip_prefix (key +:+ "=")) (option_values "--config" options)).
Definition quoted (s : string) : string := dquote +:+ s +:+ dquote.
Definition untrusted_project (path : string) : string := "projects." +:+ Quote path +:+ ".trust_level=" +:+ quoted "untrusted".

Definition isolation_values : list string := (λ f, "features." +:+ f +:+ "=false") <$> codexIntegrationFeatures.
Definition policy_values q writable workDir : list string :=
  ["sandbox_mode=" +:+ Quote (sandbox_mode q);
   "sandbox_workspace_write.network_access=" +:+ (if po_AllowNetwork q then "true" else "false");
   "shell_environment_policy.inherit=" +:+ quoted "core"; "shell_environment_policy.ignore_default_excludes=false"]
  ++ (untrusted_project <$> project_paths workDir)
  ++ (if po_AllowWrites q then ["sandbox_workspace_write.writable_roots=[" +:+ join "," (Quote <$> writable) +:+ "]"] else []).
Definition configs (values : list string) : list (string * string) := (λ v, ("--config", v)) <$> values.
Lemma config_words values : read_options codex_switches (concat ((λ v, ["--config"; v]) <$> values)) = Some (configs values).
Proof. apply read_options_repeat. apply (bool_decide_unpack _). by vm_compute. Qed.
Lemma untrusted_words workDir : codexUntrustedProjectConfig workDir = concat ((λ v, ["--config"; v]) <$> (untrusted_project <$> project_paths workDir)).
Proof. unfold codexUntrustedProjectConfig. by rewrite <- list_fmap_compose. Qed.
Lemma policy_words q writable workDir : codexPolicyConfig q writable workDir = concat ((λ v, ["--config"; v]) <$> policy_values q writable workDir).
Proof.
  unfold codexPolicyConfig, policy_values. rewrite untrusted_words, !fmap_app, !concat_app. cbn [fmap list_fmap concat app].
  do 9 f_equal. by destruct (po_AllowWrites q).
Qed.

Definition model_options a : list (string * string) := if bool_decide (cd_model a = "") then [] else [("--model", cd_model a)].
Definition codex_options (fresh : bool) a q writable : list (string * string) :=
  ("--ignore-user-config", "") :: configs isolation_values ++ [("--json", "")]
  ++ (if fresh then [("--color", "never"); ("--cd", cd_workDir a); ("--skip-git-repo-check", "")] else [])
  ++ model_options a ++ (if fresh then [("--sandbox", sandbox_mode q)] else [])
  ++ configs (policy_values q writable (cd_workDir a))
  ++ (if fresh then (λ d, ("--add-dir", d)) <$> writable else [("--skip-git-repo-check", "")]).
Lemma model_words a : read_options codex_switches (codex_model_args a) = Some (model_options a).
Proof. unfold codex_model_args, model_options. by destruct (bool_decide _). Qed.
Definition codex_words (fresh : bool) a q writable : list string :=
  codexConfigIsolationArgs ++ ["--json"]
  ++ (if fresh then ["--color"; "never"; "--cd"; cd_workDir a; "--skip-git-repo-check"] else [])
  ++ codex_model_args a ++ (if fresh then ["--sandbox"; sandbox_mode q] else [])
  ++ codexPolicyConfig q writable (cd_workDir a)
  ++ (if fresh then concat ((λ d, ["--add-dir"; d]) <$> writable) else ["--skip-git-repo-check"]).
Lemma codex_read fresh a q writable : read_options codex_switches (codex_words fresh a q writable) = Some (codex_options fresh a q writable).
Proof.
  pose proof (read_options_parts codex_switches
    [(codexConfigIsolationArgs, ("--ignore-user-config", "") :: configs isolation_values); (["--json"], [("--json", "")]);
     ((if fresh then ["--color"; "never"; "--cd"; cd_workDir a; "--skip-git-repo-check"] else []),
      (if fresh then [("--color", "never"); ("--cd", cd_workDir a); ("--skip-git-repo-check", "")] else []));
     (codex_model_args a, model_options a);
     ((if fresh then ["--sandbox"; sandbox_mode q] else []), (if fresh then [("--sandbox", sandbox_mode q)] else []));
     (codexPolicyConfig q writable (cd_workDir a), configs (policy_values q writable (cd_workDir a)));
     ((if fresh then concat ((λ d, ["--add-dir"; d]) <$> writable) else ["--skip-git-repo-check"]),
      (if fresh then (λ d, ("--add-dir", d)) <$> writable else [("--skip-git-repo-check", "")]))]) as H.
  cbn [fmap list_fmap fst snd concat] in H. rewrite !app_nil_r in H. apply H.
  repeat (apply Forall_cons; split); [done|done|by destruct fresh|apply model_words|by destruct fresh| | |by apply Forall_nil]; cbn [fst snd].
  - rewrite policy_words. apply config_words.
  - destruct fresh; [|done]. apply read_options_repeat. apply (bool_decide_unpack _). by vm_compute.
Qed.
Lemma codex_args a r q :
  let writable := codexWritableDirectories r q in
  let fresh := negb (CompatibleSession (rr_Session r) codex_RuntimeID q (cd_workDir a)) in
  (codex_commandArgs a r q).1 = cd_prefixArgs a ++ "exec" :: (if fresh then [] else ["resume"]) ++ codex_words fresh a q writable ++
    (match rr_Session r with Some session => if fresh then ["-"] else [ss_OpaqueID session; "-"] | None => ["-"] end).
Proof.
  unfold codex_commandArgs, codex_words. destruct (CompatibleSession (rr_Session r) codex_RuntimeID q (cd_workDir a)) eqn:Hc; cbn [negb].
  - destruct (rr_Session r) as [session|]; [|by rewrite compatible_none in Hc].
    cbn [fst app]. rewrite <- !app_assoc. cbn [app]. by rewrite <- !app_assoc.
  - cbn [fst app]. rewrite <- !app_assoc. cbn [app]. rewrite <- !app_assoc. cbn [app]. rewrite <- !app_assoc. by destruct (rr_Session r).
Qed.

Lemma config_values flag values : option_values flag (configs values) = if String.eqb "--config" flag then values else [].
Proof. apply option_values_repeat. Qed.
Lemma codex_values flag fresh a q writable : option_values flag (codex_options fresh a q writable) =
  (if String.eqb "--ignore-user-config" flag then [""] else [])
  ++ (if String.eqb "--config" flag then isolation_values else []) ++ option_values flag [("--json", "")]
  ++ option_values flag (if fresh then [("--color", "never"); ("--cd", cd_workDir a); ("--skip-git-repo-check", "")] else [])
  ++ option_values flag (model_options a) ++ option_values flag (if fresh then [("--sandbox", sandbox_mode q)] else [])
  ++ (if String.eqb "--config" flag then policy_values q writable (cd_workDir a) else [])
  ++ (if fresh then if String.eqb "--add-dir" flag then writable else [] else option_values flag [("--skip-git-repo-check", "")]).
Proof.
  unfold codex_options. change (?x :: ?l) with ([x] ++ l) at 1. rewrite !option_values_app, !config_values.
  f_equal; [unfold option_values; cbn [omap list_omap fst snd]; by destruct (String.eqb _ flag)|]. do 6 f_equal.
  destruct fresh; [apply option_values_repeat|done].
Qed.
Lemma model_values flag a : String.eqb "--model" flag = false → option_values flag (model_options a) = [].
Proof. intros H. unfold model_options, option_values. case_match; [done|]. cbn [omap list_omap fst snd]. by rewrite H. Qed.

Lemma strip_projects c key paths : c ≠ "p"%char → omap (strip_prefix (String c key +:+ "=")) (untrusted_project <$> paths) = [].
Proof.
  intros Hc. induction paths as [|p paths IH]; [done|]. cbn [fmap list_fmap omap list_omap]. change (strip_prefix _ (untrusted_project p)) with
    (if (if ascii_dec c "p" then String.prefix (key +:+ "=") ("rojects." +:+ Quote p +:+ ".trust_level=" +:+ quoted "untrusted") else false)
     then Some (drop_bytes (String.length (String c key +:+ "=")) (untrusted_project p)) else None).
  destruct (ascii_dec c "p"); [done|]. exact IH.
Qed.
Lemma codex_config_values fresh a q writable :
  option_values "--config" (codex_options fresh a q writable) = isolation_values ++ policy_values q writable (cd_workDir a).
Proof.
  rewrite codex_values, model_values by done. cbn [String.eqb Ascii.eqb Bool.eqb]. destruct fresh;
  cbn [option_values omap list_omap fst snd String.eqb Ascii.eqb Bool.eqb app]; by rewrite app_nil_r.
Qed.
Definition fixed_settings q writable : list string :=
  isolation_values ++
  ["sandbox_mode=" +:+ Quote (sandbox_mode q);
   "sandbox_workspace_write.network_access=" +:+ (if po_AllowNetwork q then "true" else "false");
   "shell_environment_policy.inherit=" +:+ quoted "core"; "shell_environment_policy.ignore_default_excludes=false"]
  ++ (if po_AllowWrites q then ["sandbox_workspace_write.writable_roots=[" +:+ join "," (Quote <$> writable) +:+ "]"] else []).
Lemma codex_setting c key fresh a q writable : c ≠ "p"%char → setting (codex_options fresh a q writable) (String c key) =
  last (omap (strip_prefix (String c key +:+ "=")) (fixed_settings q writable)).
Proof.
  intros Hc. unfold setting. rewrite codex_config_values. unfold fixed_settings, policy_values.
  by rewrite !omap_app, strip_projects.
Qed.
Lemma codex_sandbox fresh a q writable : setting (codex_options fresh a q writable) "sandbox_mode" =
  Some (quoted (if po_AllowWrites q then "workspace-write" else "read-only")).
Proof. rewrite codex_setting by done. unfold fixed_settings, sandbox_mode. destruct (po_AllowWrites q); reflexivity. Qed.
Lemma codex_network fresh a q writable : setting (codex_options fresh a q writable) "sandbox_workspace_write.network_access" =
  Some (if po_AllowNetwork q then "true" else "false").
Proof. rewrite codex_setting by done. unfold fixed_settings. destruct (po_AllowWrites q), (po_AllowNetwork q); reflexivity. Qed.
Lemma codex_roots fresh a q writable : setting (codex_options fresh a q writable) "sandbox_workspace_write.writable_roots" =
  if po_AllowWrites q then Some ("[" +:+ join "," (Quote <$> writable) +:+ "]") else None.
Proof. rewrite codex_setting by done. unfold fixed_settings. destruct (po_AllowWrites q), (po_AllowNetwork q); reflexivity. Qed.
Lemma codex_shell fresh a q writable : setting (codex_options fresh a q writable) "shell_environment_policy.inherit" = Some (quoted "core").
Proof. rewrite codex_setting by done. unfold fixed_settings. destruct (po_AllowWrites q); reflexivity. Qed.
Lemma codex_features fresh a q writable :
  Forall (λ f, setting (codex_options fresh a q writable) ("features." +:+ f) = Some "false") codexIntegrationFeatures.
Proof.
  unfold codexIntegrationFeatures. repeat (apply Forall_cons; split; [match goal with |- setting _ ?k = _ => let k' := eval vm_compute in k in change k with k' end; rewrite codex_setting by done; unfold fixed_settings; destruct (po_AllowWrites q); reflexivity|]).
  apply Forall_nil_2.
Qed.

(** *** A run *)

Definition empty_inventory (o : inventory_output) : Prop :=
  iv_starts o = true ∧ iv_ok o = true ∧ iv_tooLarge o = false ∧ iv_text o = ArrayText [] true false.
Lemma inventory_entries_ok residual entries : inventory_entries residual entries = (true, false) → entries = [] ∧ residual = false.
Proof.
  revert residual. induction entries as [|[] entries IH]; intros residual; cbn [inventory_entries]; [by intros [= ->]| |done].
  intros [_ H]%IH. done.
Qed.
Lemma inventory_read_ok t residual : inventory_read t = (true, residual) → residual = false → t = ArrayText [] true false.
Proof.
  destruct t as [|entries closed trailing]; [done|]. cbn [inventory_read]. destruct (inventory_entries false entries) as [valid residual'] eqn:He.
  intros [= Hv ->] ->. orb_split. subst. by apply inventory_entries_ok in He as [-> _].
Qed.
Definition preflight h a home : launch := codex_launch h a home (preflight_args a).
Lemma preflight_run h mcp_list a s s' res : preflightNoResidualMCP h mcp_list a s = (s', res) →
  rn_files s' = rn_files s ∧
  ((rn_launched s' = rn_launched s ∧ is_ok res = false) ∨
   ∃ home, ho_MkdirTemp h = Some home ∧ rn_launched s' = rn_launched s ++ [preflight h a home] ∧
     (is_ok res = true → empty_inventory (mcp_list (preflight h a home)))).
Proof.
  unfold preflightNoResidualMCP. destruct (ho_MkdirTemp h) as [home|]; [|by intros [= <- <-]; split; [|left]].
  fold (preflight h a home). set (l := preflight h a home). unfold modify. unfold mbind at 1, M_bind at 1. intros Hrun.
  assert (rn_files s' = rn_files s ∧ rn_launched s' = rn_launched s ++ [l] ∧ (is_ok res = true → empty_inventory (mcp_list l))) as (HF & HL & Hok);
    [|split; [done|right; by exists home]].
  revert Hrun. unfold empty_inventory. unfold mbind, M_bind, reject_if, mret, M_ret, throw.
  destruct (iv_starts (mcp_list l)); cbn [negb]; [|by intros [= <- <-]].
  destruct (inventory_read (iv_text (mcp_list l))) as [valid residual] eqn:Hr.
  destruct (iv_ok (mcp_list l)); cbn [negb orb]; [|by intros [= <- <-]].
  destruct (iv_tooLarge (mcp_list l)); cbn [orb]; [by intros [= <- <-]|].
  destruct valid; cbn [negb]; [|by intros [= <- <-]]. destruct residual; intros [= <- <-]; split_and!; try done.
  intros _. split_and!; try done. by eapply inventory_read_ok.
Qed.

Lemma quiet_codex_line a q (e : codexEvent) : guar quiet (codex_line sink a q e).
Proof. unfold codex_line, handleItem, set_text, set_session. guar_auto; apply _ || done. Qed.

(** A directory the approval lets Codex write. *)
Definition writable_grant r q d : Prop :=
  po_AllowWrites q = true ∧
  ((∃ w, w ∈ rr_Workspaces r ∧ wk_Mode w = WorkspaceWritable ∧ wk_Path w = d) ∨ (d = rr_ReturnDirectory r ∧ d ≠ "")).
Lemma writable_granted r q d : d ∈ codexWritableDirectories (ConstrainRequest r q) q → writable_grant r q d.
Proof.
  unfold codexWritableDirectories, writable_grant, ConstrainRequest. cbn [rr_Workspaces rr_ReturnDirectory].
  destruct (po_AllowWrites q); cbn [negb]; [|by intros ?%elem_of_nil].
  rewrite elem_sort_strings, elem_of_elements, elem_of_union, elem_of_list_to_set. intros [H|H]; (split; [done|]).
  - left. apply list_elem_of_fmap in H as (w & -> & [Hw Hm]%elem_filter). exists w. split; [done|]. split; [by apply bool_decide_eq_true in Hm|done].
  - right. case_bool_decide; [by apply elem_of_empty in H|]. by apply elem_of_singleton in H as ->.
Qed.

(** What Codex is allowed when it runs under an effective policy. *)
Definition codex_confined (h : host) (c : codex_Config) (workDir : string) r q (l : launch) : Prop :=
  la_Executable l = or_default (xg_Executable c) "codex" ∧ la_Directory l = workDir ∧
  la_Stdin l = run_prompt (ConstrainRequest r q) q ∧ run_environment h (xg_EnvironmentAllowlist c) (la_Env l) ∧
  po_AllowMCPs q = false ∧ Forall (λ arg, forbidden_codex_argument arg = false) (xg_PrefixArgs c) ∧
  ∃ command words options tail,
    la_Args l = xg_PrefixArgs c ++ "exec" :: command ++ words ++ tail ∧ read_options codex_switches words = Some options ∧
    ((command = [] ∧ tail = ["-"]) ∨
     ∃ session, command = ["resume"] ∧ tail = [ss_OpaqueID session; "-"] ∧ rr_Session r = Some session ∧
       CompatibleSession (Some session) codex_RuntimeID q workDir = true) ∧
    option_values "--ignore-user-config" options = [""] ∧
    setting options "sandbox_mode" = Some (quoted (if po_AllowWrites q then "workspace-write" else "read-only")) ∧
    setting options "sandbox_workspace_write.network_access" = Some (if po_AllowNetwork q then "true" else "false") ∧
    setting options "shell_environment_policy.inherit" = Some (quoted "core") ∧
    Forall (λ f, setting options ("features." +:+ f) = Some "false") codexIntegrationFeatures ∧
    (has_prefix workDir "/" = true → ∀ n, untrusted_project (Nat.iter n path_Dir (Clean workDir)) ∈ option_values "--config" options) ∧
    (∀ v, v ∈ option_values "--sandbox" options → v = sandbox_mode q) ∧
    (∀ d, d ∈ option_values "--add-dir" options → writable_grant r q d) ∧
    (if po_AllowWrites q
     then ∃ roots, setting options "sandbox_workspace_write.writable_roots" = Some ("[" +:+ join "," (Quote <$> roots) +:+ "]") ∧
          Forall (writable_grant r q) roots
     else setting options "sandbox_workspace_write.writable_roots" = None).

Definition codex_spec a r q : CommandSpec :=
  mkCommandSpec (cd_executable a) (codex_commandArgs a r q).1 (cd_workDir a) (run_prompt r q) (cd_environmentAllowlist a) recipientRunEnvironment.
Lemma codex_new_inv h c a : codex_New h c = inr a →
  cd_executable a = or_default (xg_Executable c) "codex" ∧ cd_prefixArgs a = xg_PrefixArgs c ∧
  cd_environmentAllowlist a = xg_EnvironmentAllowlist c ∧ ValidatePolicy (xg_Policy c) = inr (cd_policy a) ∧
  Forall (λ arg, forbidden_codex_argument arg = false) (xg_PrefixArgs c).
Proof.
  unfold codex_New. destruct (ValidateWorkDir _ _) as [|workDir]; [done|]. destruct (ValidatePolicy _) as [|policy]; [done|].
  cbn [map_error mbind sum_bind]. destruct (fail_if (negb (blank (xg_Profile c))) ErrProfile); [done|]. cbn [mbind sum_bind].
  unfold validateCodexPrefixArgs, fail_if. destruct (existsb forbidden_codex_argument (xg_PrefixArgs c)) eqn:Hf; [done|]. intros [= <-].
  split_and!; try done. apply Forall_forall. intros arg Harg. destruct (forbidden_codex_argument arg) eqn:Ha; [|done].
  rewrite <- Hf. symmetry. apply existsb_exists. exists arg. by rewrite <- list_elem_of_In.
Qed.

Lemma codex_launch_confined h h0 c a r q env files :
  codex_New h0 c = inr a → po_AllowMCPs q = false →
  trustedEnvironment (SanitizedEnvironment (ho_environ h) (cd_environmentAllowlist a)) recipientRunEnvironment = inr env →
  codex_confined h c (cd_workDir a) r q (launch_of (codex_spec a (ConstrainRequest r q) q) env files).
Proof.
  intros (He & Hp & Ha & _ & Hf)%codex_new_inv Hmcp Henv.
  unfold codex_confined, launch_of, codex_spec. cbn [sp_Executable sp_Args sp_Directory sp_Stdin la_Executable la_Args la_Directory la_Stdin la_Env].
  split; [done|]. split; [done|]. split; [done|]. split; [rewrite <- Ha; by apply run_environment_ok|]. clear Henv.
  split; [done|]. split; [done|]. rewrite codex_args, Hp. cbn [ConstrainRequest rr_Session].
  set (fresh := negb (CompatibleSession (rr_Session r) codex_RuntimeID q (cd_workDir a))).
  set (writable := codexWritableDirectories (ConstrainRequest r q) q).
  eexists _, (codex_words fresh a q writable), (codex_options fresh a q writable), _. split; [reflexivity|]. split; [apply codex_read|]. split.
  { destruct fresh eqn:Hfresh; [left; by destruct (rr_Session r)|right]. unfold fresh in Hfresh. apply negb_false_iff in Hfresh.
    destruct (rr_Session r) as [session|]; [by exists session|by rewrite compatible_none in Hfresh]. }
  assert (∀ d, d ∈ writable → writable_grant r q d) as Hgrant by (intros d; apply writable_granted).
  split; [|split; [apply codex_sandbox|split; [apply codex_network|split; [apply codex_shell|split; [apply codex_features|]]]]].
  { rewrite codex_values, model_values by done. by destruct fresh. }
  split; [intros Hroot n; rewrite codex_config_values; unfold policy_values; rewrite !elem_of_app; right; right; left;
          apply list_elem_of_fmap; eexists; split; [reflexivity|by apply project_paths_all]|].
  split; [intros v; rewrite codex_values, model_values by done; destruct fresh;
          cbn [option_values omap list_omap fst snd String.eqb Ascii.eqb Bool.eqb app]; [by intros ->%list_elem_of_singleton|intros []%elem_of_nil]|].
  split; [intros d; rewrite codex_values, model_values by done; destruct fresh;
          cbn [option_values omap list_omap fst snd String.eqb Ascii.eqb Bool.eqb app]; [apply Hgrant|intros []%elem_of_nil]|].
  rewrite codex_roots. destruct (po_AllowWrites q); [|done]. exists writable. split; [done|]. by apply Forall_forall.
Qed.

(** What may have been started when a run of Codex ends. *)
Definition codex_started h mcp_list c a r q (launched : list launch) : Prop :=
  launched = [] ∨
  ∃ home, ho_MkdirTemp h = Some home ∧
    (launched = [preflight h a home] ∨
     ∃ l, launched = [preflight h a home; l] ∧ empty_inventory (mcp_list (preflight h a home)) ∧ codex_confined h c (cd_workDir a) r q l).
Lemma codex_execute_started h h0 mcp_list child c a r q s :
  codex_New h0 c = inr a → po_AllowMCPs q = false → rn_launched s = [] →
  codex_started h mcp_list c a r q (rn_launched (codex_execute sink h mcp_list child a (ConstrainRequest r q) q s).1).
Proof.
  intros Hnew Hmcp HL. set (Post := λ s' : run_state string, codex_started h mcp_list c a r q (rn_launched s')).
  enough (wp (codex_execute sink h mcp_list child a (ConstrainRequest r q) q) (λ _, Post) (λ _, Post) s) as H.
  { unfold wp in H. by destruct (codex_execute _ _ _ _ _ _ _ s) as [s' []]. }
  assert (∀ s', quiet s s' → Post s') as Hquiet by (intros s' [HL' _]; left; by rewrite HL', HL).
  pose proof (λ env files, codex_launch_confined h h0 c a r q env files Hnew Hmcp) as Hconf. unfold codex_spec in Hconf. clear Hnew.
  unfold codex_execute. destruct (codex_commandArgs a (ConstrainRequest r q) q) as [args session]. cbn [fst] in Hconf.
  do 4 (eapply quiet_step; [try done; apply quiet_warn|done|intros ? ? ?|by intros; apply Hquiet]).
  match goal with H : quiet s ?s4 |- wp _ _ _ ?s4 => destruct H as [HL4 HF4]; apply wp_bind; unfold wp at 1;
    destruct (preflightNoResidualMCP h mcp_list a s4) as [s5 res] eqn:Hpre end.
  apply preflight_run in Hpre as [HF5 [[HL5 Hno]|(home & Hhome & HL5 & Hempty)]].
  { destruct res; [|discriminate Hno]. left. rewrite HL5, HL4. exact HL. }
  rewrite HL4, HL in HL5. destruct res as [e|u]; [right; exists home; split; [exact Hhome|by left]|]. specialize (Hempty eq_refl).
  assert (∀ s6, started h (mkCommandSpec (cd_executable a) args (cd_workDir a) (run_prompt (ConstrainRequest r q) q) (cd_environmentAllowlist a)
    recipientRunEnvironment) s5 s6 → Post s6) as Hpost.
  { intros s6 [_ HL6]. right. exists home. split; [exact Hhome|]. rewrite HL5 in HL6. destruct HL6 as [HL6|(env & Henv & HL6)]; [by left|right].
    eexists. split; [exact HL6|]. split; [exact Hempty|]. by apply Hconf. }
  eapply wp_mono; [apply starting_execute; [apply quiet_codex_line| |reflexivity]|intros ? ?; apply Hpost|intros ? ?; apply Hpost].
  intros _. guar_auto; apply _ || apply quiet_finish.
Qed.

(** C34. Whatever is asked and whatever the children answer, one run of Codex
    starts nothing, or a preflight in an empty home, or after it one process -
    the latter only when the preflight printed a complete and empty inventory of
    MCP servers.  That process runs under the narrowed policy, which allows no
    MCP server.  Its settings name the sandbox and the network access of the
    policy, switch every integration off, ignore the user's configuration and
    distrust every ancestor of the working directory.  Writable directories are
    those of writable workspaces and the return directory, when the policy allows
    writes.  Its environment is as for Claude Code, and a session is resumed only
    when it is compatible. *)
Theorem codex_runs_confined h0 c a (Hnew : codex_New h0 c = inr a) h mcp_list child r s (Hstart : rn_launched s = []) :
  let launched := rn_launched (codex_Run sink h mcp_list child a r s).1 in
  launched = [] ∨
  ∃ q, EffectivePolicy (xg_Policy c) (rr_RequestedPolicy r) = inr q ∧ codex_started h mcp_list c a r q launched.
Proof.
  cbv zeta. pose proof (codex_new_inv _ _ _ Hnew) as (_ & _ & _ & Hvalid & _).
  unfold codex_Run. rewrite checked_step. destruct (ValidateRunRequest r) as [e|u]; [by left|].
  rewrite checked_step, (effective_of_valid _ _ _ Hvalid). destruct (EffectivePolicy (xg_Policy c) (rr_RequestedPolicy r)) as [e|q]; [by left|].
  rewrite lift_step. destruct (requireIsolatedCodexMCPPolicy q) as [e|[]] eqn:Hmcp; [by left|]. apply fail_if_inr in Hmcp.
  rewrite checked_step. destruct (ValidatePolicySupport codex_capabilities q) as [e|[]]; [by left|].
  right. exists q. split; [done|]. exact (codex_execute_started h h0 mcp_list child c a r q s Hnew Hmcp Hstart).
Qed.
End codex.

