(* ===== verification/AdapterContract.v ===== *)
(** * What a runtime promises the receiver ([types.go], [external/adapter.go])

    The contract of [Adapter.Run] and its three implementations; the
    confinement of external runners; concrete runs. *)

From S2P Require Import Prelude GoString Sha256 GoStringFacts Json Policy Redact RedactFacts Artifact Sandbox SandboxProofs Adapters AdapterLogic AdapterProofs.
From Stdlib Require Import Ascii.

Local Open Scope Z_scope.

#[local] Opaque CompatibleSession PolicyFingerprint sha256 SafeSummary trustedEnvironment SanitizedEnvironment.

(** ** The contract of a run *)

Section contract.
Context `{UT : UnicodeTables} `{PT : PrintTable}.
Variable sink : list RuntimeEvent → bool.

Definition short_line (v : string) : Prop := one_line v ∧ len v <= 1283.
(** A session that the same runtime resumes under the same policy. *)
Definition local_session (id workDir : string) (q : Policy) (o : option SessionRef) : Prop :=
  ∀ session, o = Some session → CompatibleSession (Some session) id q workDir = true.
Definition presentable (id workDir : string) (q : Policy) (e : RuntimeEvent) : Prop :=
  short_line (re_Summary e) ∧ short_line (re_Tool e) ∧ local_session id workDir q (re_Session e).
Definition good_answer (id workDir : string) (q : Policy) (events : list RuntimeEvent) (result : RuntimeResult) : Prop :=
  ar_EffectivePolicy result = q ∧ blank (ar_FinalText result) = false ∧ len (ar_FinalText result) <= MaxFinalTextBytes ∧
  local_session id workDir q (ar_Session result) ∧
  ∃ e, last events = Some e ∧ re_Type e = EventCompleted ∧ re_Session e = ar_Session result.
(** What a runtime promises the receiver. *)
Definition honours {A X} (RA : RuntimeAdapter A X) : Prop := ∀ (a : A) (r : RunRequest) (s s' : run_state X) res,
  rn_events s = [] → adapter_Run a r s = (s', res) →
  match EffectivePolicy (adapter_ConfiguredPolicy a) (rr_RequestedPolicy r) with
  | inl _ => rn_events s' = [] ∧ is_ok res = false
  | inr q => Forall (presentable (adapter_ID a) (adapter_WorkDir a) q) (rn_events s') ∧
      ∀ result, res = inr result → good_answer (adapter_ID a) (adapter_WorkDir a) q (rn_events s') result
  end.

Section run.
Context {X : Type} (id workDir : string) (q : Policy).
Implicit Types s : run_state X.
Definition events_ok s : Prop := Forall (presentable id workDir q) (rn_events s).
Definition answer_ok s : Prop :=
  events_ok s ∧ ar_EffectivePolicy (rn_result s) = q ∧ len (ar_FinalText (rn_result s)) <= MaxFinalTextBytes ∧
  local_session id workDir q (ar_Session (rn_result s)).
Definition keeps (I : run_state X → Prop) (s s' : run_state X) : Prop := I s → I s'.
#[export] Instance keeps_preorder I : PreOrder (keeps I).
Proof. split; [by intros ? ?|]. intros ? ? ? H1 H2 H. by apply H2, H1. Qed.

Lemma short_summary v : short_line (SafeSummary v).
Proof. destruct (safe_summary_bounded v). by split. Qed.
Lemma events_emit e s : events_ok s → local_session id workDir q (re_Session e) → events_ok (Emit sink e s).1.
Proof.
  intros Hs He. unfold events_ok, Emit. cbn [fst rn_events]. apply Forall_app. split; [done|]. apply Forall_singleton.
  split; [apply short_summary|]. split; [apply short_summary|done].
Qed.
Lemma keeps_emit e : local_session id workDir q (re_Session e) → guar (keeps answer_ok) (Emit sink e : M (run_state X) adapter_error ()).
Proof. intros He s [Hs Hr]. split; [by apply events_emit|done]. Qed.
Lemma keeps_event e : local_session id workDir q (re_Session e) → guar (keeps events_ok) (Emit sink e : M (run_state X) adapter_error ()).
Proof. intros He s Hs. by apply events_emit. Qed.
Lemma keeps_text t : len t <= MaxFinalTextBytes → guar (keeps answer_ok) (set_text t : M (run_state X) adapter_error ()).
Proof. intros Ht s (Hs & Hq & _ & Hl). by split_and!. Qed.
Lemma keeps_session o : local_session id workDir q o → guar (keeps answer_ok) (set_session o : M (run_state X) adapter_error ()).
Proof. intros Ho s (Hs & Hq & Ht & _). by split_and!. Qed.
Lemma keeps_usage u : guar (keeps answer_ok) (update_result (λ r, ar_set_usage (u r) r) : M (run_state X) adapter_error ()).
Proof. intros s (Hs & Hq & Ht & Hl). by split_and!. Qed.
Lemma keeps_extra I f : (∀ s x, I s → I (set_extra x s)) → guar (keeps I) (update_extra f : M (run_state X) adapter_error ()).
Proof. intros HI s Hs. by apply HI. Qed.
Lemma local_none : local_session id workDir q None.
Proof. by intros ? ?. Qed.
Lemma local_ref opaque : opaque ≠ "" → local_session id workDir q (Some (sessionRef id workDir opaque q)).
Proof. intros Ho ? [= <-]. by apply compatible_ref. Qed.
Lemma keeps_warn r session : guar (keeps events_ok) (warn_not_resumed sink r session : M (run_state X) adapter_error ()).
Proof.
  unfold warn_not_resumed. destruct (rr_Session r), session; try apply guar_ret, _. apply keeps_event, local_none.
Qed.
Lemma keeps_execute {E} I h (child : launch → process E) spec onLine :
  (∀ l s, I s → I (add_launch l s)) → (∀ e, guar (keeps I) (onLine e)) →
  guar (keeps I) (ExecuteJSONLines h child spec onLine : M (run_state X) adapter_error ()).
Proof.
  intros HI Hline. unfold ExecuteJSONLines, consume. guar_auto; try (apply _ || apply Hline). all: intros s Hs; by apply HI.
Qed.

Lemma keeping_step {A B} I (m : M (run_state X) adapter_error A) (f : A → M (run_state X) adapter_error B) Q Y s :
  guar (keeps I) m → I s → (∀ e s', I s' → Y e s') → (∀ a s', I s' → wp (f a) Q Y s') → wp (m ≫= f) Q Y s.
Proof.
  intros Hm Hs HY Hf. apply wp_bind. specialize (Hm s Hs). unfold wp at 1. destruct (m s) as [s' [e|a]]; [by apply HY|by apply Hf].
Qed.
Definition run_post (result : RuntimeResult) s : Prop := events_ok s ∧ good_answer id workDir q (rn_events s) result.
Lemma wp_finish summary s : answer_ok s → wp (finish_run sink summary) run_post (λ _, events_ok) s.
Proof.
  intros (Hs & Hq & Ht & Hl). unfold finish_run. apply wp_bind, wp_gets, wp_bind, wp_reject_if; [intros Hb|done].
  set (e := mkRuntimeEvent EventCompleted summary "" (ar_Session (rn_result s)) (Some (ar_Usage (rn_result s)))).
  assert (events_ok (Emit sink e s).1) as Hs' by (by apply events_emit). apply wp_bind. unfold wp at 1. unfold Emit in *. cbn [fst] in Hs'.
  destruct (sink _); [|exact Hs']. split; [exact Hs'|]. split_and!; try done. cbn [rn_events]. exists (safe_event e). by rewrite last_snoc.
Qed.
(** The shape of every [Run] after its checks. *)
Lemma wp_run_start r session starting (f : X → X) (rest : () → M (run_state X) adapter_error RuntimeResult) s :
  events_ok s → local_session id workDir q session → (∀ u s1, answer_ok s1 → wp (rest u) run_post (λ _, events_ok) s1) →
  wp (warn_not_resumed sink r session ≫= λ _, Emit sink (event EventStarting starting) ≫= λ _, start_result q session ≫= λ _,
      update_extra f ≫= rest) run_post (λ _, events_ok) s.
Proof.
  intros Hs Hsession Hrest.
  eapply (keeping_step events_ok); [apply keeps_warn|done|done|intros _ s1 H1].
  eapply (keeping_step events_ok); [apply keeps_event, local_none|done|done|intros _ s2 H2].
  apply wp_bind, wp_modify. eapply (keeping_step answer_ok); [by apply keeps_extra|by split_and!|by intros _ ? []|intros u s3 H3]. by apply Hrest.
Qed.
Lemma wp_run_execute {E} h (child : launch → process E) spec onLine (rest : () → M (run_state X) adapter_error RuntimeResult) s :
  answer_ok s → (∀ e, guar (keeps answer_ok) (onLine e)) → (∀ u s1, answer_ok s1 → wp (rest u) run_post (λ _, events_ok) s1) →
  wp (ExecuteJSONLines h child spec onLine ≫= rest) run_post (λ _, events_ok) s.
Proof.
  intros Hs Hline Hrest. eapply (keeping_step answer_ok); [by apply keeps_execute|done|by intros _ ? []|intros u s4 H4]. by apply Hrest.
Qed.
(** Its last checks, of what the runtime reported. *)
Lemma wp_reported {B} (g : run_state X → B) bad (err : B → adapter_error) summary s : answer_ok s →
  wp (gets g ≫= λ x, reject_if (bad x) (err x) ≫= λ _, finish_run sink summary) run_post (λ _, events_ok) s.
Proof.
  intros Hs. apply wp_bind, wp_gets, wp_bind, wp_reject_if; intros _; [by apply wp_finish|apply Hs].
Qed.
End run.

(** The sums end in one of two ways. *)
Lemma honours_run {X} id workDir q (m : M (run_state X) adapter_error RuntimeResult) s s' res :
  wp m (run_post id workDir q) (λ _, events_ok id workDir q) s → m s = (s', res) →
  Forall (presentable id workDir q) (rn_events s') ∧ ∀ result, res = inr result → good_answer id workDir q (rn_events s') result.
Proof.
  intros Hm Hrun. unfold wp in Hm. rewrite Hrun in Hm. destruct res as [e|result]; [split; [exact Hm|discriminate]|].
  destruct Hm as [H1 H2]. split; [exact H1|]. by intros ? [= <-].
Qed.
Lemma events_none {X} id workDir q (s : run_state X) : rn_events s = [] → events_ok id workDir q s.
Proof. intros H. unfold events_ok. rewrite H. apply Forall_nil_2. Qed.

Ltac keeps_auto := repeat first
  [ apply guar_reject_bind; [apply _|intros ?] | apply keeps_emit, local_none | apply keeps_usage | apply keeps_extra; done
  | guar_step | apply _ ].

Lemma claude_line_keeps (a : claude_Adapter) q e : guar (keeps (answer_ok claude_RuntimeID (cl_workDir a) q)) (claude_line sink a q e).
Proof.
  unfold claude_line. apply guar_bind; [apply _|apply guar_gets, _|intros result].
  apply guar_bind; [apply _| |intros _].
  - unfold new_session. destruct (_ && _) eqn:Hn; [|apply guar_ret, _]. orb_split. apply guar_bind; [apply _| |intros _];
    [apply keeps_session|apply keeps_emit]; by apply local_ref.
  - unfold claude_assistant, claude_tool_result, claude_result. keeps_auto; apply keeps_text; lia.
Qed.
Lemma codex_line_keeps (a : codex_Adapter) q e : guar (keeps (answer_ok codex_RuntimeID (cd_workDir a) q)) (codex_line sink a q e).
Proof.
  unfold codex_line, handleItem. case_bool_decide; [|keeps_auto; apply keeps_text; lia].
  case_bool_decide; [apply guar_ret, _|]. apply guar_bind; [apply _| |intros _]; [apply keeps_session|apply keeps_emit]; by apply local_ref.
Qed.
Lemma generic_session e : re_Session (genericRunnerEvent (runtimeEvent e)) = None.
Proof. unfold genericRunnerEvent. by destruct (re_Type _). Qed.
Lemma external_line_keeps (a : external_Adapter) q e : guar (keeps (answer_ok (xt_id a) (xt_workDir a) q)) (external_line sink a q e).
Proof.
  unfold external_line, external_session. destruct (negb _); [apply guar_throw, _|]. case_bool_decide.
  { case_bool_decide; [apply guar_ret, _|]. apply guar_bind; [apply _| |intros _]; [apply keeps_session|apply keeps_emit]; by apply local_ref. }
  case_bool_decide; [destruct (ro_Event e); [|apply guar_ret, _]; apply keeps_emit; rewrite generic_session; apply local_none|].
  case_bool_decide; [|keeps_auto]. destruct (ro_Result e) as [result|]; [|apply guar_throw, _].
  apply guar_reject_bind; [apply _|intros Hlen]. apply guar_bind; [apply _|apply keeps_text; lia|intros _].
  apply guar_bind; [apply _|apply (keeps_usage _ _ _ (λ _, _))|intros _]. case_bool_decide; [apply guar_ret, _|]. by apply keeps_session, local_ref.
Qed.

Definition same_events {X} (s s' : run_state X) : Prop := rn_events s' = rn_events s.
#[local] Instance same_events_preorder {X} : PreOrder (@same_events X).
Proof. split; [done|]. intros ? ? ? H1 H2. unfold same_events in *. by rewrite H2. Qed.
Lemma prepare_events h a q : guar same_events (prepareMCPConfig h a q).
Proof.
  unfold prepareMCPConfig, frozenRecipientMCPServers. guar_auto; try (apply _ || done).
  unfold writePrivateMCPConfig. generalize 0%nat. generalize temporaryNameAttempts as n.
  induction n as [|n IH]; intros i; cbn [write_attempts]; guar_auto; apply _ || done || apply IH.
Qed.
Lemma preflight_events {X} h mcp_list a : guar same_events (preflightNoResidualMCP h mcp_list a : M (run_state X) adapter_error ()).
Proof. unfold preflightNoResidualMCP. guar_auto; apply _ || done. Qed.
Lemma probe_events h probe a : guar same_events (external_Probe h probe a).
Proof. unfold external_Probe, ExecuteJSONLines, consume, probe_line. guar_auto; apply _ || done. Qed.

Lemma claude_session_local a r q : local_session claude_RuntimeID (cl_workDir a) q (claude_session a r q).
Proof. intros session. unfold claude_session. case_match eqn:Hc; [|done]. intros Hs. by rewrite <- Hs. Qed.
Lemma claude_honours h child : honours (claude_runtime sink h child).
Proof.
  intros a r s s' res Hs. cbn [claude_runtime adapter_Run adapter_ConfiguredPolicy adapter_ID adapter_WorkDir]. unfold claude_Run.
  rewrite checked_step. destruct (ValidateRunRequest r) as [e|u].
  { intros [= <- <-]. destruct (EffectivePolicy _ _); [done|]. split; [rewrite Hs; apply Forall_nil_2|discriminate]. }
  rewrite checked_step. destruct (EffectivePolicy (cl_policy a) (rr_RequestedPolicy r)) as [e|q]; [by intros [= <- <-]|].
  apply honours_run. pose proof (events_none claude_RuntimeID (cl_workDir a) q s Hs) as Hev.
  apply wp_bind, wp_lift; [intros _ _|intros; exact Hev]. apply wp_bind. pose proof (prepare_events h a q s) as Hp. unfold wp at 1.
  destruct (prepareMCPConfig h a q s) as [s1 [e|path]]; unfold same_events in Hp; cbn [fst] in Hp; [unfold events_ok; by rewrite Hp|].
  assert (events_ok claude_RuntimeID (cl_workDir a) q s1) as Hev1 by (unfold events_ok; by rewrite Hp). clear Hp Hev.
  enough (wp (claude_execute sink h child a (ConstrainRequest r q) q path) (run_post claude_RuntimeID (cl_workDir a) q)
    (λ _, events_ok claude_RuntimeID (cl_workDir a) q) s1) as H.
  { unfold wp, finally in *. by destruct (claude_execute _ _ _ _ _ _ _ s1) as [s2 []]. }
  unfold claude_execute. pose proof (claude_session_local a (ConstrainRequest r q) q) as Hsession.
  unfold claude_commandArgs. apply wp_run_start; [exact Hev1|exact Hsession|intros _ s2 H2].
  apply wp_run_execute; [exact H2|apply claude_line_keeps|intros _ s3 H3]. by apply (wp_reported _ _ _ rn_extra cx_providerError (λ _, ErrReported "")).
Qed.
Lemma codex_session_local a r q : local_session codex_RuntimeID (cd_workDir a) q (codex_commandArgs a r q).2.
Proof.
  intros session. unfold codex_commandArgs. destruct (CompatibleSession (rr_Session r) codex_RuntimeID q (cd_workDir a)) eqn:Hc; [|done].
  destruct (rr_Session r) as [session'|]; [|done]. cbn [snd]. by intros [= <-].
Qed.
Lemma codex_honours h mcp_list child : honours (codex_runtime sink h mcp_list child).
Proof.
  intros a r s s' res Hs. cbn [codex_runtime adapter_Run adapter_ConfiguredPolicy adapter_ID adapter_WorkDir]. unfold codex_Run.
  rewrite checked_step. destruct (ValidateRunRequest r) as [e|u].
  { intros [= <- <-]. destruct (EffectivePolicy _ _); [done|]. split; [rewrite Hs; apply Forall_nil_2|discriminate]. }
  rewrite checked_step. destruct (EffectivePolicy (cd_policy a) (rr_RequestedPolicy r)) as [e|q]; [by intros [= <- <-]|].
  apply honours_run. pose proof (events_none codex_RuntimeID (cd_workDir a) q s Hs) as Hev.
  apply wp_bind, wp_lift; [intros _ _|intros; exact Hev]. unfold checked at 1. destruct (ValidatePolicySupport _ q); [exact Hev|].
  apply wp_bind, wp_ret. unfold codex_execute. pose proof (codex_session_local a (ConstrainRequest r q) q) as Hsession.
  destruct (codex_commandArgs a (ConstrainRequest r q) q) as [args session]. cbn [snd] in Hsession.
  apply wp_run_start; [exact Hev|exact Hsession|intros _ s1 H1].
  eapply (keeping_step (answer_ok codex_RuntimeID (cd_workDir a) q)); [|exact H1|by intros _ ? []|intros _ s2 H2].
  { intros s2 H2. unfold preflightNoResidualMCP. destruct (ho_MkdirTemp h); [|exact H2]. unfold modify, mbind, M_bind, reject_if.
    destruct (negb _); [exact H2|]. destruct (inventory_read _) as [valid residual]. destruct (_ || _); [exact H2|]. destruct residual; exact H2. }
  apply wp_run_execute; [exact H2|apply codex_line_keeps|intros _ s3 H3].
  by apply (wp_reported _ _ _ rn_extra (λ e, negb (bool_decide (e = ""))) (λ e, ErrReported (SafeSummary e))).
Qed.
Lemma external_honours h probe child : honours (external_runtime sink h probe child).
Proof.
  intros a r s s' res Hs. cbn [external_runtime adapter_Run adapter_ConfiguredPolicy adapter_ID adapter_WorkDir]. unfold external_Run.
  rewrite checked_step. destruct (ValidateRunRequest r) as [e|u].
  { intros [= <- <-]. destruct (EffectivePolicy _ _); [done|]. split; [rewrite Hs; apply Forall_nil_2|discriminate]. }
  rewrite checked_step. destruct (EffectivePolicy (xt_policy a) (rr_RequestedPolicy r)) as [e|q]; [by intros [= <- <-]|].
  apply honours_run. pose proof (events_none (xt_id a) (xt_workDir a) q s Hs) as Hev.
  apply wp_bind. pose proof (probe_events h probe a s) as Hp. unfold wp at 1.
  destruct (external_Probe h probe a s) as [s1 [e|capabilities]]; unfold same_events in Hp; cbn [fst] in Hp; [unfold events_ok; by rewrite Hp|].
  assert (events_ok (xt_id a) (xt_workDir a) q s1) as Hev1 by (unfold events_ok; by rewrite Hp). clear Hp Hev.
  unfold checked at 1. destruct (ValidatePolicySupport capabilities q); [exact Hev1|]. apply wp_bind, wp_ret. unfold external_execute.
  set (session := if _ && _ then _ else _).
  assert (local_session (xt_id a) (xt_workDir a) q session) as Hsession.
  { intros v. unfold session. destruct (_ && _) eqn:Hc; [|done]. orb_split. intros Hv. by rewrite <- Hv. }
  apply wp_run_start; [exact Hev1|exact Hsession|intros _ s2 H2].
  apply wp_run_execute; [exact H2|apply external_line_keeps|intros _ s3 H3].
  by apply (wp_reported _ _ _ rn_extra (λ x, negb (bool_decide (xx_runnerErr x = ""))) (λ x, ErrReported (SafeSummary (xx_runnerErr x)))).
Qed.

(** C36. Every runtime honours the contract of [Adapter.Run], whatever the
    operating system and the child do.  A request that the configured policy
    refuses reports no event and fails.  Otherwise every event given to the sink
    has a short summary on one line, and a session in it was made for this
    runtime, directory and effective policy.  An answer is not blank and
    within [MaxFinalTextBytes], it carries the effective policy, its session is
    the recipient's own, and the last event says that the run completed. *)
Theorem adapters_honour_contract h claude codex mcp_list runner probe :
  honours (claude_runtime sink h claude) ∧ honours (codex_runtime sink h mcp_list codex) ∧ honours (external_runtime sink h probe runner).
Proof. split; [apply claude_honours|]. split; [apply codex_honours|apply external_honours]. Qed.
End contract.

(** ** External runners *)

Section external.
Context `{UT : UnicodeTables} `{PT : PrintTable}.
Variable sink : list RuntimeEvent → bool.
Implicit Types (s : run_state external_state) (a : external_Adapter) (q : Policy) (r : RunRequest).

Lemma quiet_probe_line a e : guar quiet (probe_line a e : M (run_state external_state) adapter_error ()).
Proof. unfold probe_line. guar_auto; apply _ || done. Qed.
Lemma quiet_external_line a q e : guar quiet (external_line sink a q e).
Proof. unfold external_line, set_text, set_session. guar_auto; apply _ || done. Qed.

Definition probe_spec a : CommandSpec :=
  mkCommandSpec (xt_executable a) (xt_prefixArgs a) (xt_workDir a) (json_text probe_input +:+ newline) (xt_environmentAllowlist a) ∅.
Definition probe_launch h a : launch :=
  launch_of (probe_spec a) (SanitizedEnvironment (ho_environ h) (xt_environmentAllowlist a)) ∅.
(** The runner answered the probe with these capabilities. *)
Definition reported (probe : launch → process runnerOutput) h a (i : runnerCapabilities) : Prop :=
  ∃ e, Some e ∈ pc_lines (probe (probe_launch h a)) ∧ ro_Protocol e = RunnerProtocolV1 ∧ ro_Type e = "capabilities" ∧ ro_Capabilities e = Some i.

Lemma keeps_mapM_in {X A} (I : run_state X → Prop) (f : A → M (run_state X) adapter_error ()) l :
  (∀ e, e ∈ l → guar (keeps I) (f e)) → guar (keeps I) (mapM_ f l).
Proof.
  induction l as [|e l IH]; intros Hf; [apply guar_ret, _|]. cbn [mapM_]. apply guar_bind; [apply _|apply Hf; left|].
  intros _. apply IH. intros e' He. apply Hf. by right.
Qed.
(** What a probe that succeeds has found. *)
Definition known h probe a (x : external_state) : Prop :=
  xx_received x = true → ∃ i, reported probe h a i ∧ xx_base x = available (sanitizeCapabilities (xt_id a) (xt_name a) (xt_policy a) i).
Lemma probe_line_known h probe a e : Some e ∈ pc_lines (probe (probe_launch h a)) →
  guar (keeps (λ s, known h probe a (rn_extra s))) (probe_line a e : M (run_state external_state) adapter_error ()).
Proof.
  intros He. unfold probe_line. case_bool_decide as Hp; cbn [negb]; [|apply guar_throw, _]. case_bool_decide; [apply guar_throw, _|].
  case_bool_decide as Ht; cbn [negb]; [|apply guar_ret, _]. destruct (ro_Capabilities e) as [i|] eqn:Hi; [|apply guar_ret, _].
  intros s _ _. exists i. split; [|done]. by exists e.
Qed.
Lemma probe_run h probe a s s' res : rn_files s = ∅ → external_Probe h probe a s = (s', res) →
  rn_files s' = ∅ ∧ (rn_launched s' = rn_launched s ∨ rn_launched s' = rn_launched s ++ [probe_launch h a]) ∧
  ∀ c, res = inr c → c = base_capabilities a ∨
    (rn_launched s' = rn_launched s ++ [probe_launch h a] ∧
     ∃ i, reported probe h a i ∧ c = available (sanitizeCapabilities (xt_id a) (xt_name a) (xt_policy a) i)).
Proof.
  intros HF. unfold external_Probe. destruct (ho_LookPath h (xt_executable a)); cbn [negb]; [|by intros [= <- <-]; split_and!; [|left|left; congruence]].
  unfold update_extra, modify. unfold mbind at 1, M_bind at 1. set (s1 := set_extra _ s).
  unfold mbind at 1, M_bind at 1. destruct (ExecuteJSONLines h probe _ _ s1) as [s2 [e|u]] eqn:Hex.
  all: pose proof Hex as Hrun; apply (execute_launched h probe) in Hrun as [HF2 HL2]; [|apply quiet_probe_line];
    cbn [sp_Environment] in HL2; rewrite trusted_none in HL2; change (rn_launched s1) with (rn_launched s) in HL2;
    change (rn_files s1) with (rn_files s) in HL2, HF2; rewrite HF in HL2, HF2.
  { intros [= <- <-]. split_and!; [done|by right|discriminate]. }
  assert (known h probe a (rn_extra s2)) as Hknown.
  { revert Hex. unfold ExecuteJSONLines, lift, mbind, M_bind, gets, modify. cbn [sp_Environment sp_EnvironmentAllowlist]. rewrite trusted_none.
    change (rn_files s1) with (rn_files s). rewrite HF. change (mkLaunch _ _ _ _ _ _) with (probe_launch h a).
    intros Hex. assert (guar (keeps (λ s, known h probe a (rn_extra s))) (consume (probe (probe_launch h a)) (probe_line a))) as Hk.
    { unfold consume. apply guar_bind; [apply _|apply guar_reject_if, _|intros _]. apply guar_bind; [apply _|apply guar_attempt|intros scanned; guar_auto; apply _].
      apply keeps_mapM_in. intros [e|] He; [by apply probe_line_known|apply guar_ret, _]. }
    specialize (Hk (add_launch (probe_launch h a) s1)). rewrite Hex in Hk. apply Hk. intros Hrec. done. }
  unfold gets, mbind, M_bind, reject_if. destruct (xx_received (rn_extra s2)) eqn:Hrec; cbn [negb].
  2: { intros [= <- <-]. split_and!; [done|by right|discriminate]. }
  destruct (_ && _); intros [= <- <-]; (split_and!; [done|by right|]); [discriminate|]. intros c [= <-]. right. split; [done|]. by apply Hknown.
Qed.

Lemma support_enforces c q : ValidatePolicySupport c q = inr () → ∃ p, ValidatePolicy q = inr p ∧ enforces (cap_Policy c) p.
Proof.
  intros H. assert (SupportsPolicy c q = true) as Hs by (unfold SupportsPolicy; by rewrite H).
  unfold SupportsPolicy, ValidatePolicySupport in Hs. destruct (ValidatePolicy q) as [e|p]; [done|]. cbn [mbind sum_bind is_ok] in Hs.
  exists p. split; [done|]. apply missing_controls_nil. by destruct (missing_controls _ p).
Qed.
Lemma base_enforces_nothing a p : ¬ enforces (cap_Policy (base_capabilities a)) p.
Proof. intros (_ & H & _). done. Qed.
Lemma valid_enforcement e : availableEnforcement (validEnforcement e) = availableEnforcement e.
Proof. by destruct e. Qed.
Lemma sanitized_enforces a p i q :
  enforces (cap_Policy (available (sanitizeCapabilities (xt_id a) (xt_name a) p i))) q ↔ enforces (rc_Policy i) q.
Proof. unfold enforces. cbn. destruct (po_AllowWrites q); by rewrite !valid_enforcement. Qed.

(** What a runner is given when it runs under an effective policy: it has said
    that it enforces what the policy denies. *)
Definition external_confined (h : host) (c : external_Config) a probe r q (l : launch) : Prop :=
  la_Executable l = eg_Executable c ∧ isShellExecutable (eg_Executable c) = false ∧ la_Args l = eg_PrefixArgs c ∧ la_Directory l = xt_workDir a ∧
  run_environment h (eg_EnvironmentAllowlist c) (la_Env l) ∧
  (∃ i, reported probe h a i ∧ enforces (rc_Policy i) q) ∧
  ∃ session, la_Stdin l = json_text (run_input a (ConstrainRequest r q) q session) +:+ newline ∧
    ∀ v, session = Some v → rr_Session r = Some v ∧ CompatibleSession (Some v) (xt_id a) q (xt_workDir a) = true.
Definition external_started h c a probe r q (launched : list launch) : Prop :=
  launched = [] ∨ launched = [probe_launch h a] ∨ ∃ l, launched = [probe_launch h a; l] ∧ external_confined h c a probe r q l.

Lemma external_new_inv h c a : external_New h c = inr a →
  xt_executable a = eg_Executable c ∧ isShellExecutable (eg_Executable c) = false ∧ xt_prefixArgs a = eg_PrefixArgs c ∧
  xt_environmentAllowlist a = eg_EnvironmentAllowlist c ∧ ValidatePolicy (eg_Policy c) = inr (xt_policy a).
Proof.
  unfold external_New. destruct (fail_if (negb (validRunnerID _)) _); [done|]. cbn [mbind sum_bind].
  destruct (fail_if (blank _) _); [done|]. cbn [mbind sum_bind]. destruct (isShellExecutable (eg_Executable c)); [done|].
  cbn [fail_if mbind sum_bind]. destruct (ValidateWorkDir _ _) as [|workDir]; [done|]. destruct (ValidatePolicy _) as [|policy]; [done|].
  by intros [= <-].
Qed.
Lemma effective_valid p requested q : EffectivePolicy p requested = inr q → ValidatePolicy q = inr q.
Proof.
  unfold EffectivePolicy. destruct (ValidatePolicy p) as [e|l] eqn:Hl; [done|]. apply validate_policy_idem in Hl. cbn [mbind sum_bind].
  destruct requested as [r|]; [destruct (empty_request r); [|destruct (request_limit r)]|]; cbn [mbind sum_bind mret sum_ret];
  [by intros [= <-]|discriminate| |by intros [= <-]]. intros [= <-]. by apply narrowed_valid.
Qed.
Lemma external_execute_started h child a r q c s s' res : external_execute sink h child a r q c s = (s', res) →
  ∃ session, (∀ v, session = Some v → rr_Session r = Some v ∧ CompatibleSession (Some v) (xt_id a) q (xt_workDir a) = true) ∧
    started h (mkCommandSpec (xt_executable a) (xt_prefixArgs a) (xt_workDir a) (json_text (run_input a r q session) +:+ newline)
      (xt_environmentAllowlist a) recipientRunEnvironment) s s'.
Proof.
  unfold external_execute. set (session := if _ && _ then _ else _). intros Hrun. exists session. split.
  { intros v. unfold session. destruct (_ && _) eqn:Hc; [|done]. orb_split. intros Hv. split; [done|]. by rewrite <- Hv. }
  set (spec := mkCommandSpec _ _ _ _ _ _) in *.
  match type of Hrun with ?run s = _ => enough (wp run (λ _ s', started h spec s s') (λ _ s', started h spec s s') s) as H end.
  { unfold wp in H. rewrite Hrun in H. by destruct res. }
  do 4 (apply starting_step; [try done; apply quiet_warn|done|intros ? ? ?]).
  apply starting_execute; [apply quiet_external_line| |done]. intros _. guar_auto; apply _ || apply quiet_finish.
Qed.

(** C35. One run of an external runner starts nothing, or a probe, or after it
    one process - the latter only when the probe reported capabilities that
    enforce everything the effective policy denies.  The executable and its
    arguments are the configured ones and it is no shell, its environment holds
    no variable of the relay, and its input is the JSON text of the constrained
    request with the effective policy, with a session only if it is compatible. *)
Theorem external_runs_confined h0 c a (Hnew : external_New h0 c = inr a) h probe child r s
    (Hstart : rn_launched s = [] ∧ rn_files s = ∅) :
  let launched := rn_launched (external_Run sink h probe child a r s).1 in
  launched = [] ∨ ∃ q, EffectivePolicy (eg_Policy c) (rr_RequestedPolicy r) = inr q ∧ external_started h c a probe r q launched.
Proof.
  cbv zeta. destruct Hstart as [HL HF]. destruct (external_new_inv _ _ _ Hnew) as (He & Hshell & Hp & Ha & Hvalid). clear Hnew.
  unfold external_Run. rewrite checked_step. destruct (ValidateRunRequest r) as [e|u]; [by left|].
  rewrite checked_step, (effective_of_valid _ _ _ Hvalid). destruct (EffectivePolicy (eg_Policy c) (rr_RequestedPolicy r)) as [e|q] eqn:Hq; [by left|].
  right. exists q. split; [done|]. apply effective_valid in Hq. unfold mbind at 1, M_bind at 1.
  destruct (external_Probe h probe a s) as [s1 res1] eqn:Hprobe. apply probe_run in Hprobe as (HF1 & HL1 & Hcaps); [|exact HF]. rewrite HL in HL1, Hcaps.
  destruct res1 as [e|caps]; [unfold external_started; tauto|]. rewrite checked_step.
  destruct (ValidatePolicySupport caps q) as [e|[]] eqn:Hsup; [unfold external_started; tauto|].
  apply support_enforces in Hsup as (q' & Hq' & Henf). rewrite Hq in Hq'. injection Hq' as <-.
  destruct (Hcaps caps eq_refl) as [->|(HL1' & i & Hi & ->)]; [by apply base_enforces_nothing in Henf|]. clear HL1 Hcaps.
  destruct (external_execute _ _ _ _ _ _ _ s1) as [s2 res2] eqn:Hex. apply external_execute_started in Hex as (session & Hsession & _ & HL2). cbn [fst].
  right. destruct HL2 as [HL2|(env & Henv & HL2)]; rewrite HL2, HL1'; [by left|right]. eexists. split; [reflexivity|].
  unfold external_confined, launch_of. cbn [sp_Executable sp_Args sp_Directory sp_Stdin la_Executable la_Args la_Directory la_Stdin la_Env].
  split; [exact He|]. split; [exact Hshell|]. split; [exact Hp|]. split; [reflexivity|]. split; [rewrite <- Ha; by apply run_environment_ok|].
  split; [exists i; split; [exact Hi|by apply sanitized_enforces in Henf]|]. exists session. split; [reflexivity|exact Hsession].
Qed.
End external.

(** ** Concrete runs *)

#[local] Instance adapter_tables : UnicodeTables := ascii_tables.
#[local] Instance adapter_print : PrintTable := ascii_print.

Definition sample_config : claudeConfig :=
  mkClaudeConfig {[ "notes" := JObj [("command", JStr "/usr/bin/notes-mcp")]; "Team_Relay" := JObj [("command", JStr "relay")];
                    "renamed" := JObj [("Command", JStr "/opt/team-relay-mcp"); ("args", JArr [])] ]}
    {[ "/work" := mkProject {[ "local" := JObj [("url", JStr "https://example.com/mcp")]; "off" := JObj [] ]} ["off"] ]}.
Definition sample_host : host :=
  mkHost ["PATH=/bin"; "TEAM_RELAY_DEVICE_TOKEN=x"; "EDITOR=vi"; "LC_ALL=C"; "KEY=k"; "agent_relay_recipient_run=0"] (λ _, true)
    Some Some (λ _, Some true) (Some "/home/u")
    (λ _, mkFileView (LookupFound true 1) (Opened (Some 1%nat)) (Some (100, Some sample_config)) true (LookupFound true 1))
    (λ p, bool_decide (p = "/work")) (λ _, None) "/tmp" (λ _, Some "0123456789abcdef") (λ _, DirectoryCreated) (λ _, true) (Some "/tmp/home").
Definition sample_request (session : option SessionRef) : RunRequest :=
  mkRunRequest "req" "conv" "Title" "Alice" "Please look." ["/box/in/a.txt"] [mkWorkspace "/work/src" WorkspaceWritable] "/box/out"
    (Some (mkPolicyRequest empty_mode None None (Some false) None)) session.
Definition fresh_run {X} (x : X) : run_state X := mkRun [] [] ∅ (mkRuntimeResult "" None no_usage no_policy) x.
Definition take_all : list RuntimeEvent → bool := λ _, true.

Definition sample_claude_config : claude_Config :=
  mkClaudeSetup "" ["--dangerous-profile"] "/work/src" "opus" ["key"] (mkPolicy PolicyGuardedWrite true true true true ["Task"] []) 0.
Definition sample_claude : claude_Adapter :=
  match claude_New sample_host sample_claude_config with inr a => a | inl _ => mkClaude "" [] "" "" [] no_policy 0 end.
Definition claude_child : launch → process claudeEvent := λ _,
  mkProcess true [None; Some (mkClaudeEvent "system" "s-1" "" false 0 0 []);
    Some (mkClaudeEvent "assistant" "s-1" "" false 0 0 [mkClaudeContent "t1" "tool_use" "" "Read" "" false; mkClaudeContent "" "text" "Looks fine." "" "" false]);
    Some (mkClaudeEvent "result" "s-1" "Looks fine." false 1500 0 [])] true true false "".
Definition claude_start : run_state claude_state := fresh_run (mkClaudeState None ∅ false).
Lemma sample_claude_new : claude_New sample_host sample_claude_config = inr sample_claude.
Proof. vm_compute. reflexivity. Qed.

(** The servers that are the relay's own, whatever they are called, and the
    disabled one are gone; so is what the environment may not pass on. *)
Example claude_sample_run :
  let (s, r) := claude_Run take_all sample_host claude_child sample_claude (sample_request None) claude_start in
  match r with inr result => ar_FinalText result = "Looks fine." ∧ ss_OpaqueID <$> ar_Session result = Some "s-1" | inl _ => False end ∧
  (λ l, ((λ m, (map_to_list m).*1) <$> (la_Files l !! "/tmp/team-relay-claude-mcp-30313233343536373839616263646566/mcp.json"), la_Env l)) <$> rn_launched s =
  [(Some ["notes"; "local"], ["PATH=/bin"; "LC_ALL=C"; "KEY=k"; "AGENT_RELAY_RECIPIENT_RUN=1"])].
Proof. vm_compute. by split_and!. Qed.
Lemma claude_runs_confined_witness :
  let s' := (claude_Run take_all sample_host claude_child sample_claude (sample_request None) claude_start).1 in
  length (rn_launched s') = 1%nat ∧ claude_run_confined sample_host sample_claude_config sample_claude (sample_request None) s'.
Proof.
  split; [vm_compute; reflexivity|].
  apply (claude_runs_confined take_all sample_host sample_claude_config sample_claude sample_claude_new).
  split; [reflexivity|]. split; [reflexivity|]. intros m Hm. discriminate Hm.
Defined.

Definition custom_shell : Policy := mkPolicy PolicyCustom true true false false [] [].
Definition sample_codex_config : codex_Config := mkCodexSetup "" ["--quiet"] "/work/src" "" "" ["KEY"] custom_shell 0.
Definition sample_codex : codex_Adapter :=
  match codex_New sample_host sample_codex_config with inr a => a | inl _ => mkCodex "" [] "" "" "" [] no_policy 0 end.
Lemma sample_codex_new : codex_New sample_host sample_codex_config = inr sample_codex.
Proof. vm_compute. reflexivity. Qed.
Definition empty_list : launch → inventory_output := λ _, mkInventory true (ArrayText [] true false) false true.
Definition no_item : codex_item := mkCodexItem "" "" "" None.
Definition codex_answer : codexEvent := mkCodexEvent "item.completed" "" "" "" 0 0 0 (mkCodexItem "agent_message" "Done." "" None).
Definition codex_child : launch → process codexEvent := λ _,
  mkProcess true [Some (mkCodexEvent "thread.started" "th-1" "" "" 0 0 0 no_item); Some codex_answer;
    Some (mkCodexEvent "turn.completed" "" "" "" 10 2 5 no_item)] true true false "".
Lemma codex_runs_confined_witness :
  let launched := rn_launched (codex_Run take_all sample_host empty_list codex_child sample_codex (sample_request None) (fresh_run "")).1 in
  length launched = 2%nat ∧
  (launched = [] ∨ ∃ q, EffectivePolicy custom_shell (rr_RequestedPolicy (sample_request None)) = inr q ∧
     codex_started sample_host empty_list sample_codex_config sample_codex (sample_request None) q launched).
Proof.
  split; [vm_compute; reflexivity|].
  apply (codex_runs_confined take_all sample_host sample_codex_config sample_codex sample_codex_new). reflexivity.
Defined.

Definition sample_external_config : external_Config := mkExternalSetup "local-agent" "" "/opt/runner" ["serve"] "/work/src" "" ["KEY"] custom_shell 0.
Definition sample_external : external_Adapter :=
  match external_New sample_host sample_external_config with inr a => a | inl _ => mkExternal "" "" "" [] "" "" [] no_policy 0 end.
Lemma sample_external_new : external_New sample_host sample_external_config = inr sample_external.
Proof. vm_compute. reflexivity. Qed.
Definition says (type message : string) (c : option runnerCapabilities) (r : option runnerResult) : runnerOutput :=
  mkRunnerOutput RunnerProtocolV1 type message "" c None r.
Definition all_native : PolicyCapabilities :=
  let e := EnforcementNative in mkPolicyCapabilities e e e e e e e.
Definition runner_probe : launch → process runnerOutput := λ _,
  mkProcess true [Some (says "capabilities" "" (Some (mkRunnerCapabilities "1.0" true true true true true all_native)) None)] true true false "".
Definition runner_answer : runnerOutput := says "result" "" None (Some (mkRunnerResult "Done." "x-1" (mkRunnerUsage 1 1 0 0 5))).
Definition runner_child : launch → process runnerOutput := λ _, mkProcess true [Some runner_answer] true true false "".
Definition external_start : run_state external_state := fresh_run (mkExternalState (base_capabilities sample_external) false "").
Lemma external_runs_confined_witness :
  let launched := rn_launched (external_Run take_all sample_host runner_probe runner_child sample_external (sample_request None) external_start).1 in
  length launched = 2%nat ∧
  (launched = [] ∨ ∃ q, EffectivePolicy custom_shell (rr_RequestedPolicy (sample_request None)) = inr q ∧
     external_started sample_host sample_external_config sample_external runner_probe (sample_request None) q launched).
Proof.
  split; [vm_compute; reflexivity|].
  apply (external_runs_confined take_all sample_host sample_external_config sample_external sample_external_new). by split.
Defined.

(** *** What the contract leaves open *)

(** An error without a text is no error: an answer given before it is returned
    as the answer of the run. *)
Example silent_runner_error :
  match (external_Run take_all sample_host runner_probe (λ _, mkProcess true [Some runner_answer; Some (says "error" "" None None)] true true false "")
           sample_external (sample_request None) external_start).2 with
  | inr result => ar_FinalText result = "Done." | inl _ => False end.
Proof. vm_compute. reflexivity. Qed.
Example silent_codex_failure :
  match (codex_Run take_all sample_host empty_list (λ _, mkProcess true [Some codex_answer; Some (mkCodexEvent "turn.failed" "" "" "" 0 0 0 no_item)] true true false "")
           sample_codex (sample_request None) (fresh_run "")).2 with
  | inr result => ar_FinalText result = "Done." | inl _ => False end.
Proof. vm_compute. reflexivity. Qed.

(** A probe carries a policy: the zero value. *)
Definition bare_probe : json := JObj [("protocol", JStr RunnerProtocolV1); ("type", JStr "probe")].
Example probe_text : json_text probe_input ≠ json_text bare_probe.
Proof. vm_compute. discriminate. Qed.

(** The deny list by name is not consulted in read-only mode, so that a request
    that asks for less is offered a tool which the same recipient denies to a
    request that asks for everything. *)
Definition denies_web : Policy := mkPolicy PolicyGuardedWrite true true true true ["WebFetch"] [].
Definition asks_less : PolicyRequest := mkPolicyRequest empty_mode (Some false) (Some false) None (Some false).
Definition offers_web (requested : option PolicyRequest) : option bool :=
  match EffectivePolicy denies_web requested with
  | inr q => Some (offered (claude_options sample_claude (sample_request None) q "") "WebFetch")
  | inl _ => None
  end.
Example denied_by_name_offered : offers_web None = Some false ∧ offers_web (Some asks_less) = Some true.
Proof. vm_compute. by split. Qed.
