(* ===== verification/Address.v ===== *)
(** * Addresses that may be used without encryption

    [internal/transportpolicy/http.go], the address of the receiver's control
    endpoint ([receiver/control.go]) and the construction of a relay client
    ([client/client.go]), with the parsers of [net] and [net/netip] that they
    use: a bearer token goes over plain HTTP only to this machine or to a
    literal address of a private network, never to a name. *)

From stdpp Require Import pretty.
From S2P Require Import Prelude GoString Sha256 GoStringFacts.
From S2P Require Client.
From Stdlib Require Import Ascii ZifyBool.

Local Open Scope Z_scope.

(** ** [netip] *)

Definition dot : ascii := "."%char.
Definition colon : ascii := ":"%char.
Definition percent : ascii := "%"%char.
Definition is_digit (c : ascii) : bool := in_range 48 57 (byte_val c).

(** [parseIPv4Fields]: the value and the number of digits of the current octet,
    and the octets before it. *)
Fixpoint ipv4_fields (val : Z) (digLen : nat) (fields : list Z) (s : string) : option (list Z) :=
  match s with
  | EmptyString => if bool_decide (length fields = 3%nat) then Some (fields ++ [val]) else None
  | String c s' =>
    if is_digit c then
      if bool_decide (digLen = 1%nat) && (val =? 0) then None else
      let val := val * 10 + (byte_val c - 48) in
      if 255 <? val then None else ipv4_fields val (S digLen) fields s'
    else if Ascii.eqb c dot then
      if bool_decide (digLen = 0%nat) || bool_decide (s' = "") then None else
      if bool_decide (length fields = 3%nat) then None else ipv4_fields 0 0 (fields ++ [val]) s'
    else None
  end.
Definition parseIPv4 (s : string) : option (list Z) := ipv4_fields 0 0 [] s.

(** The digits of a group: its value, how many they are, and the rest. *)
Fixpoint hex_group (acc : Z) (off : nat) (s : string) : option (Z * nat * string) :=
  match s with
  | EmptyString => Some (acc, off, s)
  | String c s' =>
    match hex_val c with
    | None => Some (acc, off, s)
    | Some d => if bool_decide (3 < off)%nat then None else hex_group (acc * 16 + d) (S off) s'
    end
  end.
(** The loop of [parseIPv6], with the groups that are left as fuel. *)
Fixpoint ipv6_groups (n : nat) (ip : list Z) (ellipsis : option nat) (s : string) : option (list Z * option nat * string) :=
  match n with
  | O => Some (ip, ellipsis, s)
  | S n' =>
    match hex_group 0 0 s with
    | None => None
    | Some (acc, off, rest) =>
      if bool_decide (off = 0%nat) then None else
      let ip' := ip ++ [acc / 256; acc mod 256] in
      match rest with
      | EmptyString => Some (ip', ellipsis, "")
      | String c rest' =>
        if Ascii.eqb c dot then
          if (bool_decide (ellipsis = None) && negb (bool_decide (length ip = 12%nat))) || bool_decide (12 < length ip)%nat then None
          else match parseIPv4 s with Some l => Some (ip ++ l, ellipsis, "") | None => None end
        else if negb (Ascii.eqb c colon) || bool_decide (rest' = "") then None
        else match rest' with
          | String c2 rest2 =>
            if Ascii.eqb c2 colon then
              match ellipsis with
              | Some _ => None
              | None => if bool_decide (rest2 = "") then Some (ip', Some (length ip'), "") else ipv6_groups n' ip' (Some (length ip')) rest2
              end
            else ipv6_groups n' ip' ellipsis rest'
          | EmptyString => None
          end
      end
    end
  end.
Definition zeros (n : nat) : list Z := replicate n 0.
Definition parse_ipv6_bytes (s : string) : option (list Z) :=
  let leading := has_prefix s "::" in
  let s := if leading then drop_bytes 2 s else s in
  if leading && bool_decide (s = "") then Some (zeros 16) else
  match ipv6_groups 8 [] (if leading then Some 0%nat else None) s with
  | Some (ip, ellipsis, "") =>
    match ellipsis with
    | Some e => if bool_decide (length ip < 16)%nat then Some (take e ip ++ zeros (16 - length ip) ++ drop e ip) else None
    | None => if bool_decide (length ip < 16)%nat then None else Some ip
    end
  | _ => None
  end.

(** [netip.Addr], valid *)
Inductive Addr := Addr4 (l : list Z) | Addr6 (l : list Z) (zone : string).
Definition parseIPv6 (s : string) : option Addr :=
  if bool_decide (percent ∈ bytes s) then
    let zone := drop_bytes (S (String.length (before_byte percent s))) s in
    if bool_decide (zone = "") then None else (λ l, Addr6 l zone) <$> parse_ipv6_bytes (before_byte percent s)
  else (λ l, Addr6 l "") <$> parse_ipv6_bytes s.
Fixpoint parse_addr (whole s : string) : option Addr :=
  match s with
  | EmptyString => None
  | String c s' =>
    if Ascii.eqb c dot then Addr4 <$> parseIPv4 whole
    else if Ascii.eqb c colon then parseIPv6 whole
    else if Ascii.eqb c percent then None else parse_addr whole s'
  end.
Definition ParseAddr (s : string) : option Addr := parse_addr s s.
Definition Zone (a : Addr) : string := match a with Addr4 _ => "" | Addr6 _ z => z end.
Definition Unmap (a : Addr) : Addr :=
  match a with
  | Addr6 l _ => if bool_decide (take 12 l = zeros 10 ++ [255; 255]) then Addr4 (drop 12 l) else a
  | Addr4 _ => a
  end.
Definition IsLoopback (a : Addr) : bool :=
  match Unmap a with
  | Addr4 l => bool_decide (head l = Some 127)
  | Addr6 l _ => bool_decide (l = zeros 15 ++ [1])
  end.
(** An address as a number, and its width in bits. *)
Definition number (l : list Z) : Z := foldl (λ n b, n * 256 + b) 0 l.
Definition Contains (prefix : Addr * Z) (a : Addr) : bool :=
  match prefix.1, a with
  | Addr4 p, Addr4 l => Z.shiftr (number l) (32 - prefix.2) =? Z.shiftr (number p) (32 - prefix.2)
  | Addr6 p _, Addr6 l z => bool_decide (z = "") && (Z.shiftr (number l) (128 - prefix.2) =? Z.shiftr (number p) (128 - prefix.2))
  | _, _ => false
  end.

(** ** The policy *)

Definition privateLANPrefixes : list (Addr * Z) :=
  [(Addr4 [10; 0; 0; 0], 8); (Addr4 [172; 16; 0; 0], 12); (Addr4 [192; 168; 0; 0], 16); (Addr6 (252 :: zeros 15) "", 7)].
Definition literalIP (host : string) : option Addr :=
  match ParseAddr host with
  | Some ip => if bool_decide (Zone ip = "") then Some (Unmap ip) else None
  | None => None
  end.
Definition privateLANIP (ip : Addr) : bool := existsb (λ prefix, Contains prefix ip) privateLANPrefixes.
Definition PrivateLANHost (host : string) : bool :=
  match literalIP host with Some ip => privateLANIP ip | None => false end.

(** A parsed URL ([net/url]), as far as it is looked at. *)
Record URL := mkURL {
  u_Scheme : string; u_Host : string; u_Hostname : string; u_HasUser : bool; u_Path : string;
  u_RawQuery : string; u_ForceQuery : bool; u_Fragment : string }.

Section policy.
Context `{UT : UnicodeTables}.

Definition PlainHTTPAllowed (host : string) : bool :=
  if equal_fold host "localhost" then true else
  match literalIP host with Some ip => IsLoopback ip || privateLANIP ip | None => false end.
(** What is written, if anything. *)
Definition warns_private_lan (u : option URL) : bool :=
  match u with Some u => bool_decide (u_Scheme u = "http") && PrivateLANHost (u_Hostname u) | None => false end.

(** *** The client ([client.New]) *)

Inductive client_setup_error := URLRequired | TokenRequired | URLInvalid | URLScheme | URLPlain | URLExtra.
(** The new client, which follows no redirect, and the URL of its relay. *)
Definition New (rawURL : string) (parsed : option URL) (token : string) : client_setup_error + Client.Client * URL :=
  if bool_decide (trim_space rawURL = "") then inl URLRequired else
  if bool_decide (trim_space token = "") then inl TokenRequired else
  match parsed with
  | None => inl URLInvalid
  | Some u =>
    if bool_decide (u_Scheme u = "") || bool_decide (u_Host u = "") || bool_decide (u_Hostname u = "") then inl URLInvalid else
    if negb (bool_decide (u_Scheme u = "http")) && negb (bool_decide (u_Scheme u = "https")) then inl URLScheme else
    if bool_decide (u_Scheme u = "http") && negb (PlainHTTPAllowed (u_Hostname u)) then inl URLPlain else
    if u_HasUser u || negb (bool_decide (u_RawQuery u = "")) || u_ForceQuery u || negb (bool_decide (u_Fragment u = "")) ||
       contains (trim_space rawURL) "#" then inl URLExtra else
    inr (Client.mkClient (trim_suffix (u_Path u) "/") (trim_space token), u)
  end.

(** *** The control endpoint *)

Fixpoint index_byte (c : ascii) (s : string) : option nat :=
  match s with
  | EmptyString => None
  | String a s' => if Ascii.eqb a c then Some 0%nat else S <$> index_byte c s'
  end.
Fixpoint last_index_byte (c : ascii) (s : string) : option nat :=
  match s with
  | EmptyString => None
  | String a s' =>
    match last_index_byte c s' with
    | Some i => Some (S i)
    | None => if Ascii.eqb a c then Some 0%nat else None
    end
  end.
Definition open_bracket : ascii := "["%char.
Definition close_bracket : ascii := "]"%char.
(** [net.SplitHostPort] *)
Definition SplitHostPort (hostport : string) : option (string * string) :=
  match last_index_byte colon hostport with
  | None => None
  | Some i =>
    let port := drop_bytes (S i) hostport in
    if has_prefix hostport "[" then
      match index_byte close_bracket hostport with
      | None => None
      | Some e =>
        if bool_decide (S e = i) && negb (bool_decide (open_bracket ∈ bytes (drop_bytes 1 hostport))) &&
           negb (bool_decide (close_bracket ∈ bytes (drop_bytes (S e) hostport)))
        then Some (drop_bytes 1 (take_bytes e hostport), port) else None
      end
    else
      let host := take_bytes i hostport in
      if bool_decide (colon ∈ bytes host) || bool_decide (open_bracket ∈ bytes hostport) || bool_decide (close_bracket ∈ bytes hostport)
      then None else Some (host, port)
  end.
(** [net.ParseIP] takes what [netip.ParseAddr] does, without a zone. *)
Inductive control_address_error := NotHostPort | NotLoopback.
Definition ValidateControlAddress (address : string) : control_address_error + () :=
  match SplitHostPort address with
  | None => inl NotHostPort
  | Some (host, _) =>
    if equal_fold host "localhost" then inr () else
    match literalIP host with
    | Some ip => if IsLoopback ip then inr () else inl NotLoopback
    | None => inl NotLoopback
    end
  end.
End policy.

(** ** Dotted quads *)

Definition octet (n : Z) : Prop := 0 <= n <= 255.
Definition dotted (l : list Z) : string := GoString.join "." (pretty <$> l).

(** The digits of one octet. *)
Fixpoint octet_digits (val : Z) (digLen : nat) (s : string) : option (Z * nat) :=
  match s with
  | EmptyString => Some (val, digLen)
  | String c s' =>
    if is_digit c then
      if bool_decide (digLen = 1%nat) && (val =? 0) then None else
      let val := val * 10 + (byte_val c - 48) in
      if 255 <? val then None else octet_digits val (S digLen) s'
    else None
  end.
Lemma string_app_nil (s : string) : s +:+ "" = s.
Proof. induction s as [|c s IH]; [done|]. by rewrite string_cons_app, IH. Qed.
Lemma ipv4_consume ds f rest : ∀ val dl v n, octet_digits val dl ds = Some (v, n) →
  ipv4_fields val dl f (ds +:+ rest) = ipv4_fields v n f rest.
Proof.
  induction ds as [|c ds IH]; intros val dl v n; cbn [octet_digits]; [by intros [= <- <-]|].
  rewrite string_cons_app. cbn [ipv4_fields]. destruct (is_digit c); [|done]. destruct (_ && _); [done|].
  cbv zeta. destruct (255 <? _); [done|]. apply IH.
Qed.
Lemma ipv4_split s f l : ∀ val dl, ipv4_fields val dl f s = Some l → ∃ ds v n, octet_digits val dl ds = Some (v, n) ∧
  ((s = ds ∧ length f = 3%nat ∧ l = f ++ [v]) ∨
   (∃ s', s = ds +:+ String dot s' ∧ n ≠ 0%nat ∧ s' ≠ "" ∧ length f ≠ 3%nat ∧ ipv4_fields 0 0 (f ++ [v]) s' = Some l)).
Proof.
  induction s as [|c s IH]; intros val dl; cbn [ipv4_fields].
  { case_bool_decide; [|done]. intros [= <-]. exists "", val, dl. split; [done|]. by left. }
  destruct (is_digit c) eqn:Hc.
  - destruct (_ && _) eqn:Hz; [done|]. cbv zeta. destruct (255 <? _) eqn:Hv; [done|]. intros (ds & v & n & Hds & Hs)%IH.
    exists (String c ds), v, n. cbn [octet_digits]. rewrite Hc, Hz. cbv zeta. rewrite Hv. split; [done|].
    destruct Hs as [(-> & Hs)|(s' & -> & Hs)]; [by left|right; by exists s'].
  - destruct (Ascii.eqb c dot) eqn:Hd; [|done]. apply Ascii.eqb_eq in Hd as ->. destruct (_ || _) eqn:Hor; [done|].
    destruct (bool_decide (length f = 3%nat)) eqn:Hf; [done|]. intros Hl. orb_split. exists "", val, dl. split; [done|]. right. exists s. split_and!; done.
Qed.
Definition digit (d : Z) : ascii := byte_of (48 + d).
Definition octet_text (n : Z) : string :=
  if n <? 10 then String (digit n) ""
  else if n <? 100 then String (digit (n / 10)) (String (digit (n mod 10)) "")
  else String (digit (n / 100)) (String (digit (n / 10 mod 10)) (String (digit (n mod 10)) "")).
Definition octet_ok (n : Z) : bool :=
  bool_decide (pretty n = octet_text n) &&
  match octet_digits 0 0 (octet_text n) with Some (v, k) => (v =? n) && bool_decide (0 < k)%nat | None => false end.
Lemma octets_ok : forallb octet_ok (seqZ 0 256) = true.
Proof. vm_compute. reflexivity. Qed.
Lemma octet_pretty n : octet n → pretty n = octet_text n ∧ ∃ k, octet_digits 0 0 (octet_text n) = Some (n, S k).
Proof.
  intros Hn. pose proof octets_ok as Hall. rewrite forallb_forall in Hall. specialize (Hall n).
  rewrite <- list_elem_of_In, elem_of_seqZ in Hall. unfold octet in Hn. assert (octet_ok n = true) as H by (apply Hall; lia). clear Hall.
  unfold octet_ok in H. apply andb_true_iff in H as [Hp%bool_decide_eq_true H]. destruct (octet_digits 0 0 (octet_text n)) as [[v k]|]; [|done]. orb_split.
  split; [done|]. exists (pred k). do 2 f_equal; lia.
Qed.
Lemma digit_char c : is_digit c = true → c = digit (byte_val c - 48) ∧ 0 <= byte_val c - 48 <= 9.
Proof.
  unfold is_digit, in_range. intros H. orb_split. split; [|lia]. unfold digit. rewrite <- (byte_of_val c) at 1. f_equal. lia.
Qed.
Lemma octet_step val dl c ds v n : octet_digits val dl (String c ds) = Some (v, n) → ∃ d, c = digit d ∧ 0 <= d <= 9 ∧
  (dl = 1%nat → val ≠ 0) ∧ val * 10 + d <= 255 ∧ octet_digits (val * 10 + d) (S dl) ds = Some (v, n).
Proof.
  cbn [octet_digits]. destruct (is_digit c) eqn:Hc; [|done]. apply digit_char in Hc as [Ec Hd]. destruct (_ && _) eqn:Hz; [done|]. cbv zeta.
  destruct (255 <? _) eqn:Hv; [done|]. intros H. exists (byte_val c - 48). split_and!; [done|lia|lia|by intros -> ->|lia|done].
Qed.
Lemma octet_digits_text ds v n : octet_digits 0 0 ds = Some (v, n) → n ≠ 0%nat → octet v ∧ ds = octet_text v.
Proof.
  unfold octet_text, octet. destruct ds as [|c1 ds]; [by intros [= <- <-]|]. intros (d1 & -> & H1 & _ & Hv1 & H)%octet_step Hn.
  destruct ds as [|c2 ds]; [injection H as <- <-; rewrite (proj2 (Z.ltb_lt _ _)) by lia; split; [lia|by do 2 f_equal; lia]|].
  apply octet_step in H as (d2 & -> & H2 & Hz & Hv2 & H). specialize (Hz eq_refl).
  destruct ds as [|c3 ds].
  { injection H as <- <-. rewrite (proj2 (Z.ltb_ge _ 10)), (proj2 (Z.ltb_lt _ 100)) by lia. split; [lia|].
    f_equal; [f_equal; div_lia|]. f_equal. f_equal. div_lia. }
  apply octet_step in H as (d3 & -> & H3 & _ & Hv3 & H).
  destruct ds as [|c4 ds]; [|apply octet_step in H as (d4 & _ & H4 & _ & Hv4 & _); lia].
  injection H as <- <-. rewrite (proj2 (Z.ltb_ge _ 10)), (proj2 (Z.ltb_ge _ 100)) by lia. split; [lia|].
  f_equal; [f_equal; div_lia|]. f_equal; [f_equal; div_lia|]. f_equal. f_equal. div_lia.
Qed.

(** The dotted quads are exactly what [parseIPv4] takes. *)
Lemma ipv4_sound k : ∀ s f l, (String.length s ≤ k)%nat → s ≠ "" → ipv4_fields 0 0 f s = Some l →
  ∃ l', l = f ++ l' ∧ s = dotted l' ∧ Forall octet l' ∧ l' ≠ [] ∧ length l = 4%nat.
Proof.
  induction k as [|k IH]; intros s f l Hk Hs Hl; [destruct s; [done|cbn in Hk; lia]|].
  destruct (ipv4_split s f l 0 0%nat Hl) as (ds & v & n & Hds & [(-> & Hf & ->)|(s' & -> & Hn & Hs' & Hf & Hrest)]).
  - assert (n ≠ 0%nat) as Hn.
    { destruct ds as [|c ds]; [done|]. apply octet_step in Hds as (d & _ & _ & _ & _ & Hds). intros ->. clear -Hds.
      assert (∀ t val dl v n, octet_digits val dl t = Some (v, n) → (dl ≤ n)%nat) as Hmono.
      { induction t as [|a t IH]; intros val dl v' n' Ht; [injection Ht as <- <-; done|]. apply octet_step in Ht as (? & _ & _ & _ & _ & Ht%IH). lia. }
      apply Hmono in Hds. lia. }
    destruct (octet_digits_text _ _ _ Hds Hn) as [Hv ->]. exists [v]. split_and!; [done| |by constructor|done|rewrite length_app; cbn; lia].
    unfold dotted. cbn. symmetry. by apply octet_pretty.
  - destruct (octet_digits_text _ _ _ Hds Hn) as [Hv ->]. rewrite length_string_app in Hk. cbn in Hk.
    apply IH in Hrest as (l' & -> & -> & Hall & Hne & Hlen); [|lia|done]. exists (v :: l'). rewrite <- app_assoc in Hlen |- *.
    split_and!; [done| |by constructor|done|done]. unfold dotted. destruct l' as [|x l']; [done|].
    change (octet_text v +:+ String dot (GoString.join "." (pretty <$> x :: l')) = pretty v +:+ "." +:+ GoString.join "." (pretty <$> x :: l')).
    by rewrite (proj1 (octet_pretty v Hv)).
Qed.
Lemma ipv4_complete l : ∀ f, Forall octet l → l ≠ [] → (length f + length l = 4)%nat → ipv4_fields 0 0 f (dotted l) = Some (f ++ l).
Proof.
  induction l as [|v l IH]; intros f Hall Hne Hlen; [done|]. apply Forall_cons in Hall as [Hv Hall].
  destruct (octet_pretty v Hv) as [Hp (k & Hk)]. destruct l as [|x l].
  - change (dotted [v]) with (pretty v). rewrite Hp. rewrite <- (string_app_nil (octet_text v)). erewrite ipv4_consume by exact Hk. cbn [ipv4_fields].
    cbn in Hlen. by rewrite bool_decide_true by lia.
  - change (dotted (v :: x :: l)) with (pretty v +:+ String dot (dotted (x :: l))). rewrite Hp. erewrite ipv4_consume by exact Hk.
    cbn [ipv4_fields]. change (is_digit dot) with false. rewrite Ascii.eqb_refl. cbn [orb bool_decide].
    rewrite (bool_decide_false (S k = 0%nat)) by done. rewrite (bool_decide_false (dotted (x :: l) = "")).
    2: { apply Forall_cons in Hall as [Hx _]. destruct (octet_pretty x Hx) as [Hpx (kx & Hkx)]. intros He.
         assert (pretty x = "") as Hx0; [|rewrite Hpx in Hx0; by rewrite Hx0 in Hkx].
         unfold dotted in He. cbn in He. destruct l; [done|]. by destruct (pretty x). }
    cbn [orb]. cbn [length] in Hlen. rewrite (bool_decide_false (length f = 3%nat)) by lia. rewrite IH; [by rewrite <- app_assoc|done|done|rewrite length_app; cbn; lia].
Qed.
Lemma parseIPv4_spec s l : parseIPv4 s = Some l ↔ s = dotted l ∧ Forall octet l ∧ length l = 4%nat.
Proof.
  unfold parseIPv4. split.
  - intros Hl. destruct (decide (s = "")) as [->|Hs]; [done|]. destruct (ipv4_sound (String.length s) s [] l) as (l' & -> & H1 & H2 & _ & H3); done.
  - intros (-> & Hall & Hlen). apply (ipv4_complete l []); [done|by destruct l|done].
Qed.

(** ** Which addresses are local *)

Definition private_quad (l : list Z) : Prop :=
  match l with [a; b; _; _] => a = 10 ∨ (a = 172 ∧ 16 <= b <= 31) ∨ (a = 192 ∧ b = 168) | _ => False end.
Definition loopback_quad (l : list Z) : Prop := head l = Some 127.
Definition local_address (a : Addr) : Prop :=
  match a with
  | Addr4 l => length l = 4%nat ∧ Forall octet l ∧ (loopback_quad l ∨ private_quad l)
  | Addr6 l _ => length l = 16%nat ∧ Forall octet l ∧ (l = zeros 15 ++ [1] ∨ head l = Some 252 ∨ head l = Some 253)
  end.

Lemma shiftr_number l k : Z.shiftr (number l) (Z.of_nat k) = number l / 2 ^ Z.of_nat k.
Proof. apply Z.shiftr_div_pow2. lia. Qed.
Lemma private_quad_spec l : length l = 4%nat → Forall octet l → privateLANIP (Addr4 l) = true ↔ private_quad l.
Proof.
  intros Hlen Hall. destruct l as [|a [|b [|c [|d [|]]]]]; try done. apply Forall_cons in Hall as [Ha Hall]. apply Forall_cons in Hall as [Hb Hall].
  apply Forall_cons in Hall as [Hc Hall]. apply Forall_cons in Hall as [Hd _]. unfold octet in *.
  unfold privateLANIP, privateLANPrefixes. cbn [existsb Contains fst snd]. rewrite !Z.shiftr_div_pow2 by lia. unfold number. cbn [foldl].
  change (2 ^ (32 - 8)) with 16777216. change (2 ^ (32 - 12)) with 1048576. change (2 ^ (32 - 16)) with 65536.
  change ((((0 * 256 + 10) * 256 + 0) * 256 + 0) * 256 + 0) with 167772160. change ((((0 * 256 + 172) * 256 + 16) * 256 + 0) * 256 + 0) with 2886729728.
  change ((((0 * 256 + 192) * 256 + 168) * 256 + 0) * 256 + 0) with 3232235520.
  change (167772160 / 16777216) with 10. change (2886729728 / 1048576) with 2753. change (3232235520 / 65536) with 49320.
  rewrite !orb_true_iff, !Z.eqb_eq. unfold private_quad. split.
  - intros [H|[H|[H|[H|H]]]]; [left|right; left|right; right|done|done]; Z.to_euclidean_division_equations; lia.
  - intros [->|[[-> H]|[-> ->]]]; [left|right; left|right; right; left]; Z.to_euclidean_division_equations; lia.
Qed.
Lemma loopback_quad_spec l : IsLoopback (Addr4 l) = true ↔ loopback_quad l.
Proof. unfold IsLoopback, loopback_quad. cbn [Unmap]. by rewrite bool_decide_eq_true. Qed.

(** *** IPv4 *)

Lemma parse_addr_quad whole ds rest : ∀ val dl v n, octet_digits val dl ds = Some (v, n) →
  parse_addr whole (ds +:+ String dot rest) = Addr4 <$> parseIPv4 whole.
Proof.
  induction ds as [|c ds IH]; intros val dl v n H; [done|]. apply octet_step in H as (d & -> & Hd & _ & _ & H). rewrite string_cons_app.
  cbn [parse_addr]. assert (∀ a, byte_val a < 48 ∨ 57 < byte_val a → Ascii.eqb (digit d) a = false) as Hne.
  { intros a Ha. apply Ascii.eqb_neq. intros <-. unfold digit in Ha. rewrite byte_val_of in Ha by lia. lia. }
  rewrite !Hne by (vm_compute; auto). by eapply IH.
Qed.
Lemma dotted_split l : Forall octet l → length l = 4%nat → ∃ ds rest v n, dotted l = ds +:+ String dot rest ∧ octet_digits 0 0 ds = Some (v, n).
Proof.
  intros Hall Hlen. destruct l as [|a [|b l]]; try done. apply Forall_cons in Hall as [Ha _]. destruct (octet_pretty a Ha) as [Hp (k & Hk)].
  exists (octet_text a), (dotted (b :: l)), a, (S k). split; [|done]. rewrite <- Hp. done.
Qed.
Lemma parse_addr_dotted l : Forall octet l → length l = 4%nat → ParseAddr (dotted l) = Some (Addr4 l).
Proof.
  intros Hall Hlen. destruct (dotted_split l Hall Hlen) as (ds & rest & v & n & Hd & Hds). unfold ParseAddr. rewrite Hd at 2.
  rewrite (parse_addr_quad _ _ _ _ _ _ _ Hds). by rewrite (proj2 (parseIPv4_spec _ l)).
Qed.
Lemma parse_addr_four whole s a : colon ∉ bytes s → parse_addr whole s = Some a → ∃ l, a = Addr4 l ∧ parseIPv4 whole = Some l.
Proof.
  induction s as [|c s IH]; intros Hc H; [done|]. cbn [parse_addr] in H. change (bytes (String c s)) with (c :: bytes s) in Hc.
  destruct (Ascii.eqb c dot); [destruct (parseIPv4 whole) as [l|]; [injection H as <-; by exists l|done]|].
  destruct (Ascii.eqb c colon) eqn:E; [apply Ascii.eqb_eq in E as ->; set_solver|]. destruct (Ascii.eqb c percent); [done|]. apply IH; [set_solver|done].
Qed.
Lemma literal_four host : colon ∉ bytes host → ∀ a, literalIP host = Some a ↔ ∃ l, a = Addr4 l ∧ host = dotted l ∧ Forall octet l ∧ length l = 4%nat.
Proof.
  intros Hc a. unfold literalIP. split.
  - destruct (ParseAddr host) as [x|] eqn:Hp; [|done]. unfold ParseAddr in Hp. destruct (parse_addr_four _ _ _ Hc Hp) as (l & -> & Hl).
    cbn. intros [= <-]. exists l. split; [done|]. by apply parseIPv4_spec.
  - intros (l & -> & -> & Hall & Hlen). by rewrite parse_addr_dotted.
Qed.

(** *** IPv6 *)

Lemma hex_digit_range c d : hex_val c = Some d → 0 <= d <= 15.
Proof. unfold hex_val, in_range. intros H. repeat case_match; simplify_eq; lia. Qed.
Lemma hex_group_range s : ∀ acc off v n rest, (off ≤ 4)%nat → 0 <= acc < 16 ^ Z.of_nat off → hex_group acc off s = Some (v, n, rest) → 0 <= v < 65536.
Proof.
  assert (∀ (off : nat) acc, (off ≤ 4)%nat → acc < 16 ^ Z.of_nat off → acc < 65536) as Hend.
  { intros off acc Ho Ha. assert (16 ^ Z.of_nat off <= 16 ^ 4) by (apply Z.pow_le_mono_r; lia). change (16 ^ 4) with 65536 in *. lia. }
  induction s as [|c s IH]; intros acc off v n rest Ho Ha; cbn [hex_group].
  { intros [= <- _ _]. split; [lia|]. eapply Hend; [exact Ho|lia]. }
  destruct (hex_val c) as [d|] eqn:Hd; [|intros [= <- _ _]; split; [lia|]; eapply Hend; [exact Ho|lia]].
  apply hex_digit_range in Hd. case_bool_decide as H3; [done|]. apply IH; [lia|]. rewrite Nat2Z.inj_succ, Z.pow_succ_r by lia. lia.
Qed.
Definition bytes_ok (ip : list Z) (ellipsis : option nat) : Prop :=
  (length ip ≤ 16)%nat ∧ Forall octet ip ∧ match ellipsis with Some e => (e ≤ length ip)%nat | None => True end.
Lemma ipv6_groups_ok n : ∀ ip ellipsis s ip' ellipsis' rest, (length ip + 2 * n ≤ 16)%nat → bytes_ok ip ellipsis →
  ipv6_groups n ip ellipsis s = Some (ip', ellipsis', rest) → bytes_ok ip' ellipsis'.
Proof.
  induction n as [|n IH]; intros ip ellipsis s ip' ellipsis' rest Hn Hok; cbn [ipv6_groups]; [by intros [= <- <- _]|].
  destruct (hex_group 0 0 s) as [[[acc off] r]|] eqn:Hg; [|done]. apply hex_group_range in Hg; [|lia|cbn; lia].
  case_bool_decide; [done|]. destruct Hok as (Hl & Hall & He).
  assert (length (ip ++ [acc / 256; acc mod 256]) = S (S (length ip))) as Hlen by (rewrite length_app; cbn; lia).
  assert (∀ e, match e with Some e => (e ≤ S (S (length ip)))%nat | None => True end → bytes_ok (ip ++ [acc / 256; acc mod 256]) e) as Hnew.
  { intros e Hb. split; [lia|]. split; [|by rewrite Hlen]. apply Forall_app. split; [done|]. unfold octet. repeat constructor; div_lia. }
  assert (match ellipsis with Some e => (e ≤ S (S (length ip)))%nat | None => True end) as He2 by (destruct ellipsis; lia || done).
  destruct r as [|c r]; [intros [= <- <- _]; by apply Hnew|]. destruct (Ascii.eqb c dot).
  - destruct (_ || _) eqn:Hor; [done|]. destruct (parseIPv4 s) as [l|] eqn:Hp; [|done]. apply parseIPv4_spec in Hp as (_ & Ho & H4). intros [= <- <- _].
    apply orb_false_iff in Hor as [_ Hor%bool_decide_eq_false]. unfold bytes_ok. rewrite length_app, H4. split; [lia|]. split; [by apply Forall_app|]. destruct ellipsis; lia || done.
  - destruct (_ || _); [done|]. destruct r as [|c2 r2]; [done|]. destruct (Ascii.eqb c2 colon).
    + destruct ellipsis; [done|]. case_bool_decide; [intros [= <- <- _]; apply Hnew; lia|]. apply IH; [lia|]. apply Hnew. lia.
    + apply IH; [lia|]. by apply Hnew.
Qed.
Lemma zeros_octets n : Forall octet (zeros n).
Proof. apply Forall_replicate. unfold octet. lia. Qed.
Lemma parse_ipv6_ok s l : parse_ipv6_bytes s = Some l → length l = 16%nat ∧ Forall octet l.
Proof.
  unfold parse_ipv6_bytes. cbv zeta. destruct (_ && _); [intros [= <-]; split; [done|apply zeros_octets]|].
  destruct (ipv6_groups _ _ _ _) as [[[ip e] rest]|] eqn:Hg; [|done]. apply ipv6_groups_ok in Hg as (Hl & Hall & He); [|cbn; lia|split; [cbn; lia|split; [constructor|by case_match]]].
  destruct rest; [|done]. destruct e as [e|]; case_bool_decide; try done; intros [= <-].
  - split; [rewrite !length_app, length_take, length_drop; unfold zeros; rewrite length_replicate; lia|].
    rewrite !Forall_app. split_and!; [by apply Forall_take|apply zeros_octets|by apply Forall_drop].
  - split; [lia|done].
Qed.
Lemma number_app l : ∀ n, foldl (λ n b, n * 256 + b) n l = n * 256 ^ Z.of_nat (length l) + number l.
Proof.
  unfold number. induction l as [|b l IH]; intros n; [cbn; lia|]. cbn [foldl]. rewrite IH, (IH (0 * 256 + b)). cbn [length].
  rewrite Nat2Z.inj_succ, Z.pow_succ_r by lia. lia.
Qed.
Lemma number_range l : Forall octet l → 0 <= number l < 256 ^ Z.of_nat (length l).
Proof.
  induction 1 as [|b l Hb _ IH]; [cbn; lia|]. unfold number. cbn [foldl length]. rewrite number_app, Nat2Z.inj_succ, Z.pow_succ_r by lia. unfold octet in Hb. nia.
Qed.
Lemma private_six_spec l : length l = 16%nat → Forall octet l → privateLANIP (Addr6 l "") = true ↔ head l = Some 252 ∨ head l = Some 253.
Proof.
  intros Hlen Hall. destruct l as [|b l]; [done|]. apply Forall_cons in Hall as [Hb Hall]. injection Hlen as Hlen.
  unfold privateLANIP, privateLANPrefixes. cbn [existsb Contains fst snd orb]. rewrite orb_false_r. change (bool_decide ("" = "")) with true. cbn [andb].
  change (128 - 7) with 121. change (Z.shiftr (number (252 :: zeros 15)) 121) with 126. rewrite Z.eqb_eq, Z.shiftr_div_pow2 by lia.
  unfold number. cbn [foldl]. rewrite number_app, Hlen. pose proof (number_range l Hall) as Hr. rewrite Hlen in Hr. unfold octet in Hb.
  change (256 ^ Z.of_nat 15) with (2 ^ 120) in *. change (2 ^ 121) with (2 * 2 ^ 120). cbn [head].
  assert (((0 * 256 + b) * 2 ^ 120 + number l) / (2 * 2 ^ 120) = b / 2) as ->.
  { rewrite (Z.mul_comm 2), <- Z.div_div by lia. rewrite Z.div_add_l, (Z.div_small (number l)) by lia. f_equal. lia. }
  split; [intros H|intros [[= ->]|[= ->]]; done]. assert (b = 252 ∨ b = 253) as [-> | ->] by div_lia; auto.
Qed.
Lemma literal_shape host a : literalIP host = Some a → match a with Addr4 l => length l = 4%nat ∧ Forall octet l | Addr6 l z => length l = 16%nat ∧ Forall octet l ∧ z = "" end.
Proof.
  unfold literalIP. destruct (ParseAddr host) as [x|] eqn:Hp; [|done]. case_bool_decide as Hz; [|done]. intros [= <-].
  assert (match x with Addr4 l => length l = 4%nat ∧ Forall octet l | Addr6 l z => length l = 16%nat ∧ Forall octet l end) as Hx.
  { unfold ParseAddr in Hp. clear Hz. revert Hp. generalize host at 2 as t. induction t as [|c t IH]; [done|]. cbn [parse_addr].
    destruct (Ascii.eqb c dot).
    { destruct (parseIPv4 host) as [l|] eqn:H; [|done]. intros [= <-]. by apply parseIPv4_spec in H as (_ & ? & ?). }
    destruct (Ascii.eqb c colon); [|by destruct (Ascii.eqb c percent)].
    unfold parseIPv6. destruct (bool_decide _).
    - cbv zeta. destruct (bool_decide _); [done|]. destruct (parse_ipv6_bytes _) as [l|] eqn:H; [|done]. intros [= <-]. by apply parse_ipv6_ok in H.
    - destruct (parse_ipv6_bytes _) as [l|] eqn:H; [|done]. intros [= <-]. by apply parse_ipv6_ok in H. }
  destruct x as [l|l z]; [done|]. cbn in Hz. subst z. cbn [Unmap]. destruct Hx as [Hlen Hall]. case_bool_decide; [|done].
  split; [rewrite length_drop; lia|by apply Forall_drop].
Qed.

(** *** Both *)

Lemma IsLoopback_six l z : length l = 16%nat → take 12 l ≠ zeros 10 ++ [255; 255] → IsLoopback (Addr6 l z) = true ↔ l = zeros 15 ++ [1].
Proof. intros _ Hm. unfold IsLoopback. cbn [Unmap]. rewrite bool_decide_false by done. by rewrite bool_decide_eq_true. Qed.
Lemma literal_unmapped host l z : literalIP host = Some (Addr6 l z) → take 12 l ≠ zeros 10 ++ [255; 255].
Proof.
  unfold literalIP. destruct (ParseAddr host) as [x|]; [|done]. case_bool_decide; [|done]. destruct x as [q|q y]; cbn [Unmap]; [done|].
  case_bool_decide; [done|]. by intros [= <- _].
Qed.
Lemma literal_local host a : literalIP host = Some a → (IsLoopback a || privateLANIP a) = true ↔ local_address a.
Proof.
  intros Ha. pose proof (literal_shape _ _ Ha) as Hs. rewrite orb_true_iff. destruct a as [l|l z]; cbn [local_address].
  - destruct Hs as [Hlen Hall]. rewrite loopback_quad_spec, private_quad_spec by done. tauto.
  - destruct Hs as (Hlen & Hall & ->). rewrite IsLoopback_six, private_six_spec by (done || by eapply literal_unmapped). tauto.
Qed.

Section split.
Lemma last_index_spec c s : match last_index_byte c s with
  | Some i => s = take_bytes i s +:+ String c (drop_bytes (S i) s) ∧ c ∉ bytes (drop_bytes (S i) s)
  | None => c ∉ bytes s
  end.
Proof.
  induction s as [|a s IH]; cbn [last_index_byte]; [apply not_elem_of_nil|]. destruct (last_index_byte c s) as [i|].
  - destruct IH as [Hs Hc]. cbn [take_bytes drop_bytes]. split; [|done]. rewrite string_cons_app. f_equal. exact Hs.
  - change (bytes (String a s)) with (a :: bytes s). destruct (Ascii.eqb a c) eqn:He.
    + apply Ascii.eqb_eq in He as ->. cbn [take_bytes drop_bytes]. destruct s; split; done.
    + apply Ascii.eqb_neq in He. rewrite not_elem_of_cons. auto.
Qed.
Lemma index_spec c s i : index_byte c s = Some i → s = take_bytes i s +:+ String c (drop_bytes (S i) s).
Proof.
  revert i. induction s as [|a s IH]; intros i; cbn [index_byte]; [done|]. destruct (Ascii.eqb a c) eqn:He.
  - intros [= <-]. apply Ascii.eqb_eq in He as ->. cbn [take_bytes drop_bytes]. by destruct s.
  - destruct (index_byte c s) as [j|]; [|done]. intros [= <-]. cbn [take_bytes drop_bytes]. rewrite string_cons_app. f_equal. by apply IH.
Qed.
Lemma string_cons_inj a b s t : String a s = String b t → s = t.
Proof. by intros [= _ ->]. Qed.
Lemma has_prefix_char c a t : has_prefix (String a t) (String c "") = true → a = c.
Proof. unfold has_prefix. cbn [String.prefix]. by destruct (ascii_dec c a). Qed.
Lemma split_host_port_sound address host port : SplitHostPort address = Some (host, port) →
  colon ∉ bytes port ∧ (address = host +:+ ":" +:+ port ∧ colon ∉ bytes host ∨ address = "[" +:+ host +:+ "]:" +:+ port).
Proof.
  unfold SplitHostPort. pose proof (last_index_spec colon address) as Hi. destruct (last_index_byte colon address) as [i|]; [|done].
  destruct Hi as [Hs Hc]. destruct (has_prefix address "[") eqn:Hb.
  - destruct (index_byte close_bracket address) as [e|] eqn:He; [|done]. destruct (_ && _) eqn:Hand; [|done]. intros [= <- <-].
    apply andb_true_iff in Hand as [[Hei%bool_decide_eq_true _]%andb_true_iff _]. split; [done|right]. subst i.
    pose proof (index_spec _ _ _ He) as Hs2. destruct e as [|e].
    { destruct address as [|a t]; [done|]. cbn [take_bytes drop_bytes] in Hs2. rewrite string_nil_app in Hs2. injection Hs2 as ->.
      by apply has_prefix_char in Hb. }
    destruct address as [|a t]; [done|]. assert (a = open_bracket) as ->.
    { by apply has_prefix_char in Hb. }
    change (take_bytes (S (S e)) (String open_bracket t)) with (String open_bracket (take_bytes (S e) t)) in Hs.
    change (drop_bytes (S (S (S e))) (String open_bracket t)) with (drop_bytes (S (S e)) t) in Hs |- *.
    change (take_bytes (S e) (String open_bracket t)) with (String open_bracket (take_bytes e t)) in Hs2 |- *.
    change (drop_bytes (S (S e)) (String open_bracket t)) with (drop_bytes (S e) t) in Hs2.
    change (drop_bytes 1 (String open_bracket (take_bytes e t))) with (take_bytes e t).
    rewrite string_cons_app in Hs, Hs2. apply string_cons_inj in Hs, Hs2.
    change ("[" +:+ take_bytes e t +:+ "]:" +:+ drop_bytes (S (S e)) t) with (String open_bracket (take_bytes e t +:+ "]:" +:+ drop_bytes (S (S e)) t)).
    f_equal.
    assert (∀ n q r, t = take_bytes n t +:+ String q (drop_bytes (S n) t) → t = take_bytes (S n) t +:+ String r (drop_bytes (S (S n)) t) →
      drop_bytes (S n) t = String r (drop_bytes (S (S n)) t)) as Hdrop.
    { clear. induction t as [|b t IH]; intros n q r H1 H2; [by destruct n|]. destruct n as [|n].
      - cbn [take_bytes drop_bytes] in *. rewrite string_cons_app in H2. injection H2 as H2. destruct t; [done|]. cbn [take_bytes drop_bytes] in *. exact H2.
      - cbn [take_bytes drop_bytes] in *. rewrite string_cons_app in H1, H2. injection H1 as H1. injection H2 as H2. by eapply IH. }
    change ("]:" +:+ drop_bytes (S (S e)) t) with (String close_bracket (String colon (drop_bytes (S (S e)) t))).
    rewrite <- (Hdrop e close_bracket colon Hs2 Hs). exact Hs2.
  - destruct (_ || _) eqn:Hor; [done|]. intros [= <- <-]. split; [done|left]. orb_split. split; [exact Hs|done].
Qed.
End split.

(** ** What may go in the clear *)

Section cleartext.
Context `{UT : UnicodeTables}.

(** This machine, by its name or a loopback address *)
Definition this_machine (host : string) : Prop :=
  equal_fold host "localhost" = true ∨
  ∃ a, literalIP host = Some a ∧ match a with Addr4 l => loopback_quad l | Addr6 l _ => l = zeros 15 ++ [1] end.

(** C22. What may go in the clear.  Exactly: a host may be reached over plain
    HTTP if it is localhost up to case or a literal address without a zone
    that is loopback or of a private network (10/8, 172.16/12, 192.168/16,
    fc00::/7, or one of the first four mapped into IPv6); and a host without a
    colon is such an address exactly when it is a dotted quad in canonical
    decimal, so that no other name, and no other spelling of a number, passes.
    A client is only made for an https URL or an http URL of such a host,
    without credentials or a query; and the address of the control endpoint is
    a host and a port of which the host is this machine. *)
Theorem cleartext_stays_local :
  (∀ host, PlainHTTPAllowed host = true ↔ equal_fold host "localhost" = true ∨ ∃ a, literalIP host = Some a ∧ local_address a) ∧
  (∀ host, colon ∉ bytes host → PlainHTTPAllowed host = true ↔
     equal_fold host "localhost" = true ∨
     ∃ l, host = dotted l ∧ length l = 4%nat ∧ Forall octet l ∧ (loopback_quad l ∨ private_quad l)) ∧
  (∀ rawURL u token c u', New rawURL u token = inr (c, u') → u = Some u' ∧ Client.cl_token c = trim_space token ∧
     (u_Scheme u' = "https" ∨ u_Scheme u' = "http" ∧ PlainHTTPAllowed (u_Hostname u') = true) ∧
     u_HasUser u' = false ∧ u_RawQuery u' = "" ∧ u_Fragment u' = "") ∧
  (∀ address, ValidateControlAddress address = inr () → ∃ host port, this_machine host ∧ colon ∉ bytes port ∧
     (address = host +:+ ":" +:+ port ∨ address = "[" +:+ host +:+ "]:" +:+ port)).
Proof.
  assert (∀ host, PlainHTTPAllowed host = true ↔ equal_fold host "localhost" = true ∨ ∃ a, literalIP host = Some a ∧ local_address a) as Hall.
  { intros host. unfold PlainHTTPAllowed. destruct (equal_fold host "localhost"); [tauto|].
    destruct (literalIP host) as [a|] eqn:Ha; [|naive_solver]. rewrite (literal_local host a Ha). naive_solver. }
  split; [exact Hall|]. split; [|split].
  - intros host Hc. rewrite Hall. apply or_iff_compat_l. setoid_rewrite (literal_four host Hc). cbn. naive_solver.
  - intros rawURL u token c u'. unfold New. destruct (bool_decide (trim_space rawURL = "")); [done|]. destruct (bool_decide (trim_space token = "")); [done|].
    destruct u as [u|]; [|done]. case_match; [done|]. case_match eqn:H1; [done|]. case_match eqn:H2; [done|]. case_match eqn:H3; [done|].
    intros [= <- <-]. split; [done|]. split; [done|].
    rewrite !orb_false_iff, !negb_false_iff, !bool_decide_eq_true in H3. destruct H3 as ((((Hu & Hq) & _) & Hf) & _). split; [|done].
    destruct (bool_decide_reflect (u_Scheme u = "http")) as [Hs|Hs].
    + right. split; [done|]. cbn [andb] in H2. by apply negb_false_iff in H2.
    + left. cbn [negb andb] in H1. by apply negb_false_iff, bool_decide_eq_true in H1.
  - intros address. unfold ValidateControlAddress. destruct (SplitHostPort address) as [[host port]|] eqn:Hs; [|done]. intros H. exists host, port.
    apply split_host_port_sound in Hs as [Hp Hs]. split; [|split; [done|tauto]]. unfold this_machine. destruct (equal_fold host "localhost"); [by left|right].
    destruct (literalIP host) as [a|] eqn:Ha; [|done]. destruct (IsLoopback a) eqn:Hl; [|done]. exists a. split; [done|].
    pose proof (literal_shape _ _ Ha) as Hshape. destruct a as [l|l z]; [by apply loopback_quad_spec|].
    destruct Hshape as (Hlen & _ & _). eapply IsLoopback_six; [done|by eapply literal_unmapped|exact Hl].
Qed.
End cleartext.

(** Addresses as they are written *)
Example addresses : let a := @PlainHTTPAllowed ascii_tables in
  a "LocalHost" = true ∧ a "127.0.0.1" = true ∧ a "172.31.255.1" = true ∧ a "172.32.0.1" = false ∧ a "010.0.0.1" = false ∧ a "8.8.8.8" = false ∧
  a "::1" = true ∧ a "fd00::7" = true ∧ a "::ffff:192.168.1.5" = true ∧ a "::ffff:8.8.8.8" = false ∧ a "fe80::1%eth0" = false ∧ a "relay.example" = false.
Proof. vm_compute. done. Qed.
Example control_addresses : let v := @ValidateControlAddress ascii_tables in
  v "127.0.0.1:8787" = inr () ∧ v "[::1]:8787" = inr () ∧ v "0.0.0.0:8787" = inl NotLoopback ∧ v "::1:8787" = inl NotHostPort ∧ v ":8787" = inl NotLoopback.
Proof. vm_compute. done. Qed.
