(* ===== verification/AdminCli.v ===== *)
(** * The administration command ([cmd/team-relay-admin])

    [main.go]: the commands, their credentials, and the client they call the
    relay with.  [recovery.go]: how a credential that the command makes is kept
    on disk from before the relay learns of it until it is saved.  Arguments
    arrive as the [flag] package leaves them; what a command prints is its
    result.  Any operation of the system may be refused, take effect only in
    part, or be the last that the process does. *)

From S2P Require Import Prelude GoString Sha256 Protocol Auth Records Json Http.
From S2P Require Client Address.
From stdpp Require Import pretty.
From Stdlib Require Import Ascii.

Local Open Scope Z_scope.

(** ** Files *)

Definition recoveryVersion : Z := 1.
Record bootstrapAttempt := mkBootstrapAttempt {
  ba_Version : Z; ba_ServerURL : string; ba_OrganizationName : string; ba_AdminDisplayName : string;
  ba_AdminEmail : string; ba_AdminToken : string; ba_IdempotencyKey : string }.
Record rotationAttempt := mkRotationAttempt {
  ra_Version : Z; ra_ServerURL : string; ra_SourceTokenHash : string; ra_NewAdminToken : string; ra_IdempotencyKey : string }.

(** Text, or the JSON document of an attempt. *)
Inductive content := Text (s : string) | BootstrapDoc (a : bootstrapAttempt) | RotationDoc (a : rotationAttempt).
Definition newline : string := String.String (byte_of 10) "".
Definition content_text (c : content) : string :=
  match c with
  | Text s => s
  | BootstrapDoc a => json_text (JObj [("version", JNum (ba_Version a)); ("server_url", JStr (ba_ServerURL a));
      ("organization_name", JStr (ba_OrganizationName a)); ("admin_display_name", JStr (ba_AdminDisplayName a));
      ("admin_email", JStr (ba_AdminEmail a)); ("admin_token", JStr (ba_AdminToken a));
      ("idempotency_key", JStr (ba_IdempotencyKey a))]) +:+ newline
  | RotationDoc a => json_text (JObj [("version", JNum (ra_Version a)); ("server_url", JStr (ra_ServerURL a));
      ("source_token_hash", JStr (ra_SourceTokenHash a)); ("new_admin_token", JStr (ra_NewAdminToken a));
      ("idempotency_key", JStr (ra_IdempotencyKey a))]) +:+ newline
  end.

(** What goes wrong with one operation of the system: how far it gets, and
    whether the process outlives it to see it fail. *)
Inductive reach := NotAtAll | Partly (s : string) | Undone | Fully.
Inductive fate := Fine | Fault (r : reach) (dies : bool).

Record cli (St : Type) := mkCli {
  cl_files : gmap string content;
  cl_fates : list fate;                       (** exhausted: nothing goes wrong *)
  cl_random : nat → option string; cl_draws : nat;   (** 32 bytes each *)
  cl_relay : St }.
Arguments mkCli {_}. Arguments cl_files {_}. Arguments cl_fates {_}. Arguments cl_random {_}.
Arguments cl_draws {_}. Arguments cl_relay {_}.

Inductive cli_error :=
  | Died
  | Usage | CredentialSource | CredentialRead | CredentialEmpty | CredentialInvalid
  | ServerInvalid | ServerExtra | ServerPlain
  | DestinationRequired | DestinationDirectory | DestinationExists | DestinationUnknown | DestinationRead | DestinationDiffers | DestinationWrite
  | AttemptMismatch | AttemptRead | AttemptWrite | AttemptRemove | DirectorySync
  | RandomFailed | Relay (e : Client.client_error).
Definition isUnauthorizedResponse (e : cli_error) : bool :=
  match e with Relay (Client.RelayError status _) => status =? 401 | _ => false end.

(** The replies the commands decode. *)
#[export] Instance Output_rotated : Client.Output RotateAdminCredentialResult := λ r, match r with ReplyRotated v => Some v | _ => None end.
#[export] Instance Output_bootstrapped : Client.Output (Organization * Member) := λ r, match r with ReplyBootstrapped o m => Some (o, m) | _ => None end.
#[export] Instance Output_invite : Client.Output (Invite * string) := λ r, match r with ReplyInvite i t => Some (i, t) | _ => None end.
#[export] Instance Output_invites : Client.Output (list Invite) := λ r, match r with ReplyInvites l => Some l | _ => None end.
#[export] Instance Output_members : Client.Output (list Member) := λ r, match r with ReplyMembers l => Some l | _ => None end.
#[export] Instance Output_devices : Client.Output (list Device) := λ r, match r with ReplyDevices l => Some l | _ => None end.
#[export] Instance Output_events : Client.Output (list AuditEvent) := λ r, match r with ReplyEvents l => Some l | _ => None end.

Section cli.
Context {St : Type} `{UT : UnicodeTables}.
Abbreviation CM := (M (cli St) cli_error).

(** ** Operations of the system *)

Definition next_fate : CM fate := λ w,
  match cl_fates w with
  | [] => (w, inr Fine)
  | f :: l => (mkCli (cl_files w) l (cl_random w) (cl_draws w) (cl_relay w), inr f)
  end.
Definition change_files (f : gmap string content → gmap string content) : CM () :=
  modify (λ w, mkCli (f (cl_files w)) (cl_fates w) (cl_random w) (cl_draws w) (cl_relay w)).
(** One operation: what it does to the files, as far as it gets. *)
Definition operation (effect : reach → gmap string content → gmap string content) : CM bool :=
  f ← next_fate;
  match f with
  | Fine => change_files (effect Fully) ≫= λ _, mret true
  | Fault r dies => change_files (effect r) ≫= λ _, if dies : bool then throw Died else mret false
  end.
Definition look : CM bool := operation (λ _ files, files).

Inductive found := Found (c : content) | NotExist | Unreadable.
(** [os.Lstat], [os.ReadFile] and [privatefs.ReadFile] *)
Definition read_path (path : string) : CM found :=
  ok ← look;
  c ← gets (λ w, cl_files w !! path);
  mret (if ok : bool then match c with Some c => Found c | None => NotExist end else Unreadable).

(** [privatefs.WriteNewFile]: exclusive, but not atomic *)
Definition WriteNewFile (path : string) (c : content) : CM bool :=
  exists_ ← gets (λ w, bool_decide (is_Some (cl_files w !! path)));
  ok ← operation (λ r files,
    if exists_ : bool then files else
    match r with
    | NotAtAll | Undone => files
    | Partly s => <[path := Text s]> files
    | Fully => <[path := c]> files
    end);
  mret (ok && negb exists_).
(** [privatefs.AtomicWriteFile]: a file that did not stay private is removed. *)
Definition AtomicWriteFile (path : string) (c : content) : CM bool :=
  operation (λ r files, match r with NotAtAll | Partly _ => files | Undone => delete path files | Fully => <[path := c]> files end).
(** [os.Remove], a file that does not exist being no error *)
Definition Remove (path : string) : CM bool :=
  operation (λ r files, match r with Fully => delete path files | _ => files end).

Definition draw : CM string := λ w,
  (mkCli (cl_files w) (cl_fates w) (cl_random w) (S (cl_draws w)) (cl_relay w),
   match cl_random w (cl_draws w) with Some s => inr s | None => inl RandomFailed end).

(** ** [recovery.go] *)

Definition bootstrapAttemptPath (tokenPath : string) : string := trim_space tokenPath +:+ ".bootstrap-attempt".
Definition rotationAttemptPath (tokenPath : string) : string := trim_space tokenPath +:+ ".rotation-attempt".

Definition new_token (kind : TokenKind) : CM string :=
  random ← draw;
  match NewToken random kind with Some token => mret token | None => throw RandomFailed end.
Definition newRecoveryID (prefix : string) : CM string := random ← draw; mret (prefix +:+ hex_encode random).
Definition validRecoveryID (value prefix : string) : bool :=
  has_prefix value prefix && (len value =? len prefix + 64) &&
  bool_decide (is_Some (hex_decode (drop_bytes (String.length prefix) value))).
Definition validRecoveryToken (value : string) (kind : TokenKind) : bool := bool_decide (Kind value = Some kind).

(** The directory is made when it is not there. *)
Definition ensurePrivateOutputDirectory (path : string) : CM () :=
  reject_if (bool_decide (trim_space path = "")) DestinationRequired ≫= λ _,
  ok ← look;
  reject_if (negb ok) DestinationDirectory.

Definition ensureFinalTokenMatchesOrAbsent (path expected : string) : CM () :=
  stat ← read_path path;
  match stat with
  | NotExist => mret ()
  | Unreadable => throw DestinationUnknown
  | Found _ =>
    payload ← read_path path;
    match payload with
    | Found c => reject_if (negb (Equal (content_text c) expected)) DestinationDiffers
    | _ => throw DestinationRead
    end
  end.
Definition ensureRotationTokenMatchesOrAbsent (path sourceHash replacement : string) : CM () :=
  stat ← read_path path;
  match stat with
  | NotExist => mret ()
  | Unreadable => throw DestinationUnknown
  | Found _ =>
    payload ← read_path path;
    match payload with
    | Found c => reject_if (negb (Equal (content_text c) replacement) && negb (bool_decide (Hash (content_text c) = sourceHash))) DestinationDiffers
    | _ => throw DestinationRead
    end
  end.

Definition prepareBootstrapAttempt (tokenPath serverURL organization displayName email : string) : CM bootstrapAttempt :=
  let tokenPath := trim_space tokenPath in
  let organization := trim_space organization in
  let displayName := trim_space displayName in
  let email := to_lower (trim_space email) in
  ensurePrivateOutputDirectory tokenPath ≫= λ _,
  let attemptPath := bootstrapAttemptPath tokenPath in
  existing ← read_path attemptPath;
  match existing with
  | Found (BootstrapDoc a) =>
    reject_if (negb (ba_Version a =? recoveryVersion) || negb (bool_decide (ba_ServerURL a = serverURL)) ||
      negb (bool_decide (ba_OrganizationName a = organization)) || negb (bool_decide (ba_AdminDisplayName a = displayName)) ||
      negb (bool_decide (ba_AdminEmail a = email)) || negb (validRecoveryToken (ba_AdminToken a) TokenAdmin) ||
      negb (validRecoveryID (ba_IdempotencyKey a) "tr_bootstrap_")) AttemptMismatch ≫= λ _,
    ensureFinalTokenMatchesOrAbsent tokenPath (ba_AdminToken a) ≫= λ _,
    mret a
  | Found _ | Unreadable => throw AttemptRead
  | NotExist =>
    stat ← read_path tokenPath;
    match stat with
    | Found _ => throw DestinationExists
    | Unreadable => throw DestinationUnknown
    | NotExist =>
      token ← new_token TokenAdmin;
      key ← newRecoveryID "tr_bootstrap_";
      let attempt := mkBootstrapAttempt recoveryVersion serverURL organization displayName email token key in
      ok ← WriteNewFile attemptPath (BootstrapDoc attempt);
      reject_if (negb ok) AttemptWrite ≫= λ _,
      mret attempt
    end
  end.

Definition prepareRotationAttempt (tokenPath serverURL currentToken : string) : CM rotationAttempt :=
  let tokenPath := trim_space tokenPath in
  ensurePrivateOutputDirectory tokenPath ≫= λ _,
  let attemptPath := rotationAttemptPath tokenPath in
  existing ← read_path attemptPath;
  match existing with
  | Found (RotationDoc a) =>
    let currentHash := Hash currentToken in
    reject_if (negb (ra_Version a =? recoveryVersion) || negb (bool_decide (ra_ServerURL a = serverURL)) ||
      (negb (bool_decide (currentHash = ra_SourceTokenHash a)) && negb (bool_decide (currentHash = Hash (ra_NewAdminToken a)))) ||
      negb (validRecoveryToken (ra_NewAdminToken a) TokenAdmin) ||
      negb (validRecoveryID (ra_IdempotencyKey a) "tr_rotate_")) AttemptMismatch ≫= λ _,
    ensureRotationTokenMatchesOrAbsent tokenPath (ra_SourceTokenHash a) (ra_NewAdminToken a) ≫= λ _,
    mret a
  | Found _ | Unreadable => throw AttemptRead
  | NotExist =>
    token ← new_token TokenAdmin;
    key ← newRecoveryID "tr_rotate_";
    let attempt := mkRotationAttempt recoveryVersion serverURL (Hash currentToken) token key in
    ok ← WriteNewFile attemptPath (RotationDoc attempt);
    reject_if (negb ok) AttemptWrite ≫= λ _,
    mret attempt
  end.

Definition finalizeAdminToken (tokenPath attemptPath rawToken replaceTokenHash : string) : CM () :=
  ensurePrivateOutputDirectory tokenPath ≫= λ _,
  stat ← read_path tokenPath;
  match stat with
  | NotExist => ok ← WriteNewFile tokenPath (Text (rawToken +:+ newline)); reject_if (negb ok) DestinationWrite
  | Unreadable => throw DestinationUnknown
  | Found _ =>
    payload ← read_path tokenPath;
    match payload with
    | Found c =>
      if Equal (content_text c) rawToken then mret () else
      reject_if (bool_decide (replaceTokenHash = "") || negb (bool_decide (Hash (content_text c) = replaceTokenHash))) DestinationDiffers ≫= λ _,
      ok ← AtomicWriteFile tokenPath (Text (rawToken +:+ newline));
      reject_if (negb ok) DestinationWrite
    | _ => throw DestinationRead
    end
  end ≫= λ _,
  removed ← Remove attemptPath;
  reject_if (negb removed) AttemptRemove ≫= λ _,
  synced ← look;
  reject_if (negb synced) DirectorySync.

(** ** The client *)

Record apiClient := mkApiClient { ap_baseURL : string; ap_basePath : list string; ap_token : string }.

Definition trim_right_slash (s : string) : string :=
  String.string_of_list_ascii (drop_while_end (Ascii.eqb "/"%char) (bytes s)).

(** [net/url]: a URL as it is parsed, and the text it has once its path lost
    the slashes at its end; [TEAM_RELAY_ALLOW_HTTP_HOST]. *)
Variable Parse : string → option (Address.URL * string).
Variable allowedHTTPHost : string.
(** [c.http.Do], and the length of a body in JSON *)
Variable Do : http_request → M St () response.
Variable json_size : input → Z.

Definition newAPIClient (rawURL token : string) : cli_error + apiClient :=
  match Parse (trim_space rawURL) with
  | None => inl ServerInvalid
  | Some (u, text) =>
    if (negb (bool_decide (Address.u_Scheme u = "http")) && negb (bool_decide (Address.u_Scheme u = "https"))) ||
       bool_decide (Address.u_Host u = "") || bool_decide (Address.u_Hostname u = "") || Address.u_HasUser u then inl ServerInvalid else
    if negb (bool_decide (Address.u_RawQuery u = "")) || Address.u_ForceQuery u || negb (bool_decide (Address.u_Fragment u = "")) ||
       contains rawURL "#" then inl ServerExtra else
    let allowedHost := trim_space allowedHTTPHost in
    if bool_decide (Address.u_Scheme u = "http") && negb (Address.PlainHTTPAllowed (Address.u_Hostname u)) &&
       (bool_decide (allowedHost = "") || negb (equal_fold (Address.u_Hostname u) allowedHost)) then inl ServerPlain else
    let path := trim_right_slash (Address.u_Path u) in
    inr (mkApiClient text (if bool_decide (path = "") then [] else Client.path_segments path) (trim_space token))
  end.

(** The error envelope of either half of the relay. *)
Definition apiError (r : response) : Client.client_error :=
  Client.RelayError (rs_Status r) (match rs_Reply r with ReplyError code | ReplyFailure code => code | _ => "" end).

(** One exchange: a request may be lost, or its answer. *)
Definition exchange (r : http_request) : CM response :=
  f ← next_fate;
  let send : CM (() + response) := λ w,
    let (s, o) := Do r (cl_relay w) in (mkCli (cl_files w) (cl_fates w) (cl_random w) (cl_draws w) s, inr o) in
  match f with
  | Fine => o ← send; match o with inr resp => mret resp | inl _ => throw (Relay Client.CallFailed) end
  | Fault NotAtAll dies => throw (if dies : bool then Died else Relay Client.CallFailed)
  | Fault _ dies => send ≫= λ _, throw (if dies : bool then Died else Relay Client.CallFailed)
  end.

Definition api_request (c : apiClient) (m : http_method) (path : list string) (query : list (string * string)) (body : option input) : http_request :=
  mkHttpRequest m (ap_basePath c ++ path) ["Bearer " +:+ ap_token c]
    (match body with Some _ => "application/json" | None => "" end) query
    (match body with Some v => BodyJSON (json_size v) v true | None => BodyBad end).
Definition succeeded (resp : response) : bool := in_range 200 299 (rs_Status resp).
(** [request] with a destination, which 204 leaves as it is, and without.  The
    answer is taken to be within [maximumResponseBody]. *)
Definition request (A : Type) `{Client.Output A} (c : apiClient) (m : http_method) (path : list string) (query : list (string * string)) (body : option input) : CM (option A) :=
  resp ← exchange (api_request c m path query body);
  if negb (succeeded resp) then throw (Relay (apiError resp)) else
  if rs_Status resp =? 204 then mret None else
  match Client.of_reply (rs_Reply resp) with Some a => mret (Some a) | None => throw (Relay Client.DecodeFailed) end.
Definition request_only (c : apiClient) (m : http_method) (path : list string) : CM () :=
  resp ← exchange (api_request c m path [] None);
  if negb (succeeded resp) then throw (Relay (apiError resp)) else mret ().

(** ** Credentials *)

(** The file, or [direct], the value of an environment variable *)
Definition readCredential (filePath direct : string) : CM string :=
  let filePath := trim_space filePath in
  let direct := trim_space direct in
  reject_if (negb (bool_decide (filePath = "")) && negb (bool_decide (direct = ""))) CredentialSource ≫= λ _,
  if bool_decide (filePath = "") then
    reject_if (bool_decide (direct = "")) CredentialSource ≫= λ _, mret direct
  else
    value ← read_path filePath;
    match value with
    | Found c =>
      let text := trim_space (content_text c) in
      reject_if (bool_decide (text = "")) CredentialEmpty ≫= λ _, mret text
    | _ => throw CredentialRead
    end.

(** [TEAM_RELAY_ADMIN_TOKEN] and [TEAM_RELAY_BOOTSTRAP_TOKEN] *)
Variables (adminTokenVariable bootstrapTokenVariable : string).

Definition adminClient (serverURL tokenFile : string) : CM apiClient :=
  token ← readCredential tokenFile adminTokenVariable;
  reject_if (negb (bool_decide (Kind token = Some TokenAdmin))) CredentialInvalid ≫= λ _,
  lift (newAPIClient serverURL token).

(** ** Commands *)

Definition rotate_path : list string := ["v1"; "admin"; "credential"; "rotate"].
Definition rotate_input (a : rotationAttempt) : input :=
  to_input (mkRotateRequest (Hash (ra_NewAdminToken a)) (ra_IdempotencyKey a)).

(** [credential rotate] *)
Definition credentialCommand (server tokenFile replacementTokenFile : string) (narg : nat) : CM string :=
  reject_if (negb (bool_decide (narg = 0%nat))) Usage ≫= λ _,
  client ← adminClient server tokenFile;
  let outputPath := if bool_decide (trim_space replacementTokenFile = "") then trim_space tokenFile else trim_space replacementTokenFile in
  reject_if (bool_decide (outputPath = "")) DestinationRequired ≫= λ _,
  a ← prepareRotationAttempt outputPath (ap_baseURL client) (ap_token client);
  let rotate c := request RotateAdminCredentialResult c POST rotate_path [] (Some (rotate_input a)) in
  first ← attempt (rotate client);
  match first with
  | inl e =>
    if isUnauthorizedResponse e && negb (Equal (ap_token client) (ra_NewAdminToken a)) then
      recoveryClient ← lift (newAPIClient (ap_baseURL client) (ra_NewAdminToken a));
      rotate recoveryClient
    else throw e
  | inr r => mret r
  end ≫= λ _,
  finalizeAdminToken outputPath (rotationAttemptPath outputPath) (ra_NewAdminToken a) (ra_SourceTokenHash a) ≫= λ _,
  mret outputPath.

Definition bootstrapCommand (server tokenFile organization displayName email adminTokenFile : string) (narg : nat)  : CM (option (Organization * Member) * string) :=
  reject_if (negb (bool_decide (narg = 0%nat)) || bool_decide (organization = "") || bool_decide (displayName = "") ||
             bool_decide (email = "") || bool_decide (trim_space adminTokenFile = "")) Usage ≫= λ _,
  token ← readCredential tokenFile bootstrapTokenVariable;
  client ← lift (newAPIClient server token);
  a ← prepareBootstrapAttempt adminTokenFile (ap_baseURL client) organization displayName email;
  response ← request (Organization * Member) client POST ["v1"; "bootstrap"] []
    (Some (to_input (mkBootstrapRequest organization displayName email (Hash (ba_AdminToken a)) (ba_IdempotencyKey a))));
  finalizeAdminToken adminTokenFile (bootstrapAttemptPath adminTokenFile) (ba_AdminToken a) "" ≫= λ _,
  mret (response, adminTokenFile).

(** [expires.Seconds()] is exact for every lifetime the relay accepts. *)
Definition inviteCreate (server tokenFile name email memberID : string) (expires : Z) (narg : nat) : CM (option (Invite * string)) :=
  reject_if (negb (bool_decide (narg = 0%nat)) || (bool_decide (memberID = "") && bool_decide (name = "") && bool_decide (email = ""))) Usage ≫= λ _,
  client ← adminClient server tokenFile;
  request (Invite * string) client POST ["v1"; "admin"; "invites"] []
    (Some (to_input (mkInviteRequest name email memberID (Z.quot expires second)))).
Definition list_command (A : Type) `{Client.Output A} (server tokenFile : string) (path : list string) (query : list (string * string)) : CM (option A) :=
  client ← adminClient server tokenFile;
  request A client GET path query None.
Definition inviteList (server tokenFile : string) : CM (option (list Invite)) := list_command (list Invite) server tokenFile ["v1"; "admin"; "invites"] [].
Definition memberList (server tokenFile : string) : CM (option (list Member)) := list_command (list Member) server tokenFile ["v1"; "admin"; "members"] [].
Definition deviceList (server tokenFile memberID : string) : CM (option (list Device)) :=
  list_command (list Device) server tokenFile ["v1"; "admin"; "devices"] (if bool_decide (memberID = "") then [] else [("member_id", memberID)]).
Definition auditCommand (server tokenFile : string) (limit : Z) : CM (option (list AuditEvent)) :=
  list_command (list AuditEvent) server tokenFile ["v1"; "admin"; "audit"] [("limit", pretty limit)].

Inductive noun := NounInvite | NounMember | NounDevice.
Definition noun_path (n : noun) : string := match n with NounInvite => "invites" | NounMember => "members" | NounDevice => "devices" end.
(** The identifier is escaped in the URL and decoded by the relay. *)
Definition revokeCommand (n : noun) (server tokenFile : string) (arguments : list string) : CM string :=
  match arguments with
  | [id] =>
    client ← adminClient server tokenFile;
    request_only client DELETE ["v1"; "admin"; noun_path n; id] ≫= λ _,
    mret id
  | _ => throw Usage
  end.
Definition generateBootstrapToken : CM string := new_token TokenBootstrap.
End cli.
