(* ===== verification/AdminRelay.v ===== *)
(** * What the relay does with a rotation of the administrator's credential

    A rotation that is asked for with the old credential or the new one, any
    number of times and whatever happens to each request, is done at most once
    and for good; a success means that it is done.  [Rotates] is this promise
    as the administration command relies on it. *)

From S2P Require Import Prelude GoString Sha256 GoStringFacts Redact RedactFacts Protocol BindingFacts Auth Records Json Redis RedisLogic Http Relay RelayAccess AdminCli.
From S2P Require AdminStore AdminProofs AdminHttp CollabHttp Client ClientProofs Address.
From Stdlib Require Import Ascii.

Local Open Scope Z_scope.

(** ** Tokens *)

Section tokens.
Context `{UT : UnicodeTables}.

Abbreviation plain s := (Forall visible (bytes s)).
Lemma plain_low s : plain s → Forall (λ c, byte_val c < 128) (bytes s).
Proof. intros Hs. eapply Forall_impl; [exact Hs|]. unfold visible. lia. Qed.
Lemma plain_trim s : plain s → trim_space s = s.
Proof.
  intros Hs. apply trim_space_plain. unfold runes. rewrite ascii_segments by by apply plain_low. rewrite forallb_forall.
  intros r Hr%list_elem_of_In. rewrite <- list_fmap_compose in Hr. apply list_elem_of_fmap in Hr as (c & -> & Hc). rewrite Forall_forall in Hs.
  cbn. by rewrite visible_not_space by by apply Hs.
Qed.
Lemma fields_plain s w : plain s → w +:+ s ≠ "" → fields_of w ((λ c, (byte_val c, String c "")) <$> bytes s) = [w +:+ s].
Proof.
  revert w. induction s as [|c s IH]; intros w.
  - rewrite Address.string_app_nil. cbn. intros _ Hw. by rewrite bool_decide_false.
  - change (bytes (String c s)) with (c :: bytes s). intros [Hc Hs]%Forall_cons Hne. cbn [fmap list_fmap fields_of fst snd].
    rewrite visible_not_space by done. rewrite (IH (w +:+ String c "")); [|done|].
    + by rewrite string_app_assoc.
    + by rewrite string_app_assoc.
Qed.
Lemma bearer_fields token : plain token → token ≠ "" → fields ("Bearer " +:+ token) = ["Bearer"; token].
Proof.
  intros Hv Hne. unfold fields. rewrite ascii_segments.
  - rewrite bytes_app, fmap_app.
    assert (∀ l, fields_of "" (((λ c, (byte_val c, String c "")) <$> bytes "Bearer ") ++ l) = "Bearer" :: fields_of "" l) as -> by done.
    by rewrite (fields_plain token "").
  - rewrite bytes_app. apply Forall_app. split; [by repeat constructor|by apply plain_low].
Qed.

Lemma hex_plain s x : hex_decode s = Some x → plain s.
Proof.
  revert s x. apply (hex_pair_ind (λ s _, plain s)); [constructor|]. intros a b u v s r Ha Hb _ IH.
  assert (∀ c w, hex_val c = Some w → visible c) as Hin.
  { intros c w. unfold hex_val, in_range, visible. repeat case_match; intros [= <-]; orb_split; rewrite ?Z.leb_le in *; lia. }
  apply Forall_cons_2; [by eapply Hin|]. apply Forall_cons_2; [by eapply Hin|done].
Qed.
Lemma kind_visible token kind : kind_matches token kind = true → plain token ∧ token ≠ "" ∧ len token <= 256.
Proof.
  unfold kind_matches. destruct (token_prefix kind) as [p|] eqn:Hp; [|done]. intros H. orb_split.
  match goal with H : has_prefix _ _ = true |- _ => apply has_prefix_split in H as (rest & Hs & Hrest) end.
  match goal with H : is_Some (hex_decode _) |- _ => destruct H as [x Hx%hex_plain]; rewrite Hrest in Hx end.
  match goal with H : len _ = _ |- _ => rename H into Hl end.
  assert (plain p ∧ len p <= 10 ∧ p ≠ "") as (Hvp & Hlp & Hne).
  { destruct kind; simplify_eq/=; (split; [repeat constructor; by vm_compute|split; [by apply Z.leb_le|discriminate]]). }
  split_and!; [|intros ->; destruct p; [by destruct Hne|done]|lia]. rewrite Hs, bytes_app. by apply Forall_app.
Qed.
Lemma Kind_visible token kind : Kind token = Some kind → let t := trim_space token in plain t ∧ t ≠ "" ∧ len t <= 256.
Proof. intros [_ Hk]%List.find_some. by apply (kind_visible _ kind). Qed.
Lemma Kind_trim token : Kind (trim_space token) = Kind token.
Proof. unfold Kind. by rewrite trim_space_idem. Qed.
Lemma Hash_trim token : Hash (trim_space token) = Hash token.
Proof. unfold Hash. by rewrite trim_space_idem. Qed.

Lemma to_lower_hex x : to_lower (hex_encode x) = hex_encode x.
Proof.
  unfold to_lower. pose proof (hex_decode_encode x) as Hx. rewrite runes_ascii by by eapply hex_is_ascii.
  rewrite <- (string_of_ascii_runes (hex_encode x)) at 2 by by eapply hex_is_ascii. f_equal.
  clear Hx. induction x as [|c x IH]; [done|]. cbn [hex_encode bytes String.list_ascii_of_string fmap list_fmap].
  assert (∀ z, 0 <= z < 16 → rune_lower (byte_val (hex_digit z)) = byte_val (hex_digit z)) as Hd.
  { assert (Forall (λ z, rune_lower (byte_val (hex_digit z)) = byte_val (hex_digit z)) (seqZ 0 16)) as Hall
      by (apply (bool_decide_unpack _); by vm_compute).
    intros z Hz. rewrite Forall_forall in Hall. apply Hall, elem_of_seqZ. lia. }
  pose proof (byte_val_range c). rewrite !Hd by div_lia. by f_equal; f_equal.
Qed.
Lemma to_lower_Hash token : to_lower (Hash token) = Hash token.
Proof. apply to_lower_hex. Qed.
End tokens.

(** ** What the relay does with a rotation *)

(** What one rotation is about: the credential it replaces, the one it brings,
    and its key. *)
Record rotation := mkRotation { x_old : string; x_token : string; x_key : string }.
Lemma rotation_eta x : mkRotation (x_old x) (x_token x) (x_key x) = x.
Proof. by destruct x. Qed.
Definition rotation_of (a : rotationAttempt) : rotation := mkRotation (ra_SourceTokenHash a) (ra_NewAdminToken a) (ra_IdempotencyKey a).
Definition rotation_request `{UT : UnicodeTables} (json_size : input → Z) (x : rotation) (c : apiClient) : http_request :=
  api_request json_size c POST rotate_path [] (Some (to_input (mkRotateRequest (Hash (x_token x)) (x_key x)))).

Section relay.
Context {DB : Type} `{RL : RedisLaws DB} `{UT : UnicodeTables}.
Abbreviation AM := (M (world DB) (rerror AdminStore.serr)).
Abbreviation HM := (M (relay DB) outcome).

(** The administrator, and the rotation. *)
Variables (org m : string) (x : rotation).
Abbreviation old_hash := (x_old x).
Abbreviation new_hash := (Hash (x_token x)).
Definition rotation_record : string := AdminStore.adminRotationKey (Hash (x_key x)).

Definition of_admin (c : credential) : Prop := cred_Kind c = TokenAdmin ∧ cred_OrganizationID c = org ∧ cred_MemberID c = m.
(** The relay holds this hash as the credential of the administrator; of
    nobody else. *)
Definition live (hash : string) (d : DB) : Prop := ∃ c, r_get d (AdminStore.credentialKey hash) = Some (marshal c) ∧ of_admin c.
Definition owned (hash : string) (d : DB) : Prop := ∀ c, r_get d (AdminStore.credentialKey hash) = Some (marshal c) → of_admin c.

Definition not_rotated (d : DB) : Prop := live old_hash d ∧ owned new_hash d ∧ r_get d rotation_record = None.
Definition is_rotated (d : DB) : Prop := owned old_hash d ∧ live new_hash d.
Definition pending (d : DB) : Prop := not_rotated d ∨ is_rotated d.
(** The others may finish this rotation, and nothing else about it. *)
Definition keeps_rotation (d d' : DB) : Prop := (pending d → pending d') ∧ (is_rotated d → is_rotated d').
#[local] Instance keeps_rotation_preorder : PreOrder keeps_rotation.
Proof. split; [by split|]. intros d1 d2 d3 [H1 H2] [H3 H4]. split; auto. Qed.
Abbreviation R := keeps_rotation.

Lemma live_owned hash d : live hash d → owned hash d.
Proof. intros (c & Hc & Hadmin) c' Hc'. rewrite Hc in Hc'. by injection Hc' as <-. Qed.
Lemma pending_owned hash d : pending d → hash = old_hash ∨ hash = new_hash → owned hash d.
Proof. intros [(H1 & H2 & _)|(H1 & H2)] [-> | ->]; auto using live_owned. Qed.

Section handler.
Variable d0 : DB.
Hypothesis Hd0 : pending d0.

Lemma reached d : R d0 d → pending d.
Proof. intros [Hr _]. by apply Hr. Qed.
Lemma keep {A} o (mm : AM A) : guar (WR R) mm → spec R o (λ d _, R d0 d) mm (λ _ d _, R d0 d).
Proof. intros Hg. apply (spec_keep R); [done|]. intros d d' ? ?. by etrans. Qed.

Variable p : Principal.
Hypothesis Hp : p_OrganizationID p = org ∧ p_MemberID p = m ∧ (p_CredentialHash p = old_hash ∨ p_CredentialHash p = new_hash).

Lemma spec_rotation o t digest audit :
  spec R o (λ d _, R d0 d) (AdminStore.rotation_body p new_hash (Hash (x_key x)) digest t audit) (λ _ d _, is_rotated d).
Proof.
  destruct Hp as (Horg & Hm & Hhash). unfold AdminStore.rotation_body, AdminStore.refuse_if. eapply (spec_bind R).
  { eapply (AdminProofs.spec_ext R); [apply AdminProofs.found_readJSON|].
    apply (AdminProofs.spec_read_option R) with (d0 := d0) (P := R d0); [intros d d' ? ?; by etrans|done]. }
  intros [existing|].
  - apply (spec_reject_bind R). intros _. apply (spec_reject_bind R). intros _. apply (spec_ret R).
    intros d wt [(d1 & H01 & H1 & Hget) _]. apply H1. apply reached in H01 as [(_ & _ & Hnone)|?]; [|done]. unfold rotation_record in Hnone. congruence.
  - apply (spec_reject_bind R). intros Hne. orb_split.
    eapply (spec_bind R) with (Q := λ _ d _, R d0 d).
    { eapply spec_pre; [apply keep|by intros d wt [_ ?]]. unfold AdminStore.found, AdminStore.readJSON. guar_auto. }
    intros [current|]; [|apply (spec_throw R)]. case_match; [apply (spec_throw R)|].
    eapply (spec_bind R); [apply keep; auto with guar|]. intros [|]; [apply (spec_throw R)|].
    eapply (spec_bind R) with (Q := λ _ d _, is_rotated d); [|intros u; by apply (spec_ret R)].
    assert (∀ d, is_rotated (r_exec_all (AdminStore.rotation_commands p new_hash (mkCredential TokenAdmin (p_OrganizationID p) (p_MemberID p) "" t)
      (mkAdminRotationRecord (p_OrganizationID p) (p_MemberID p) (Hash (x_key x)) digest (p_CredentialHash p) new_hash t) audit) d)) as Hdone.
    { intros d. destruct (AdminProofs.rotation_exec p new_hash t (Hash (x_key x)) digest audit d Hne) as [Hold Hnew]. split.
      - destruct Hhash as [Hh|Hh]; [|by rewrite Hh in Hne]. intros c. rewrite <- Hh, Hold. done.
      - eexists. split; [exact Hnew|]. by rewrite Horg, Hm. }
    apply (spec_tx R); [|intros d wt _; split; [intros _; right|intros _]; apply Hdone|intros d wt _; apply Hdone].
    apply stable_closed. intros d d' ? ?. by etrans.
Qed.

Lemma spec_rotate o t : spec R o (λ d _, R d0 d)
  (AdminStore.RotateAdminCredential p (mkRotateInput new_hash (Hash (x_key x)) t)) (λ _ d _, is_rotated d).
Proof.
  unfold AdminStore.RotateAdminCredential, AdminStore.refuse_if. cbn [ri_NewTokenHash ri_IdempotencyHash ri_Now].
  cbv zeta. rewrite !to_lower_Hash.
  eapply (spec_bind R) with (Q := λ _ d _, R d0 d); [eapply spec_post; [apply (AdminProofs.spec_requireAdmin R)|by intros ? ? ? [_ ?]]|]. intros _.
  eapply (spec_bind R); [apply keep; unfold AdminStore.normalizedTime; guar_auto|]. intros t'. cbv zeta.
  apply (spec_reject_bind R). intros _. eapply (spec_bind R); [apply keep; auto with guar|]. intros audID.
  apply (spec_retrying R); [intros d d' ? ? ? ?; by etrans|]. eapply spec_post; [apply (spec_watch R); [intros d d' ? ? ? ?; by etrans|]|].
  - eapply spec_pre; [apply spec_rotation|]. by intros d wt [? _].
  - by intros r d wt [? _].
Qed.
End handler.

(** Triples of handlers: [spec] on the world of a relay. *)
Definition hspec {A} (P : DB → Prop) (mm : HM A) (Q : A → DB → Prop) : Prop := ∀ s,
  env_ok R (rl_world s) → P (w_db (rl_world s)) →
  within R (rl_world s) (rl_world (mm s).1) ∧ ∀ v, (mm s).2 = inr v → Q v (w_db (rl_world (mm s).1)).
Lemma hspec_bind {A B} P (mm : HM A) (k : A → HM B) Q T : hspec P mm Q → (∀ v, hspec (Q v) (k v) T) → hspec P (mm ≫= k) T.
Proof.
  intros Hm Hk s He HP. destruct (Hm s He HP) as [Hin HQ]. unfold mbind, M_bind. destruct (mm s) as [s1 [e|v]]; cbn [fst snd] in *; [by split|].
  destruct (Hk v s1) as [Hin' HT]; [by eapply within_env|by apply HQ|]. split; [|exact HT].
  by apply (WR_preorder R).(PreOrder_Transitive) with (rl_world s1); [intros _|intros _|].
Qed.
Lemma hspec_ret {A} (P : DB → Prop) (v : A) (Q : A → DB → Prop) : (∀ d, P d → Q v d) → hspec P (mret v) Q.
Proof. intros HQ s He HP. split; [by apply (WR_preorder R)|]. intros ? [= <-]. by apply HQ. Qed.
Lemma hspec_ret_bind {A B} P (v : A) (k : A → HM B) Q : hspec P (k v) Q → hspec P (mret v ≫= k) Q.
Proof. done. Qed.
Lemma hspec_respond {A} P resp (Q : A → DB → Prop) : hspec P (respond resp) Q.
Proof. intros s He HP. split; [by apply (WR_preorder R)|]. done. Qed.
Lemma hspec_respond_if P b resp : hspec P (respond_if b resp) (λ _ d, b = false ∧ P d).
Proof. destruct b; [apply hspec_respond|]. intros s He HP. split; [by apply (WR_preorder R)|]. done. Qed.
Lemma hspec_store {E A} (answer : rerror E → response) (P : DB → Prop) (mm : M (world DB) (rerror E) A) (Q : A → DB → Prop) :
  (∀ o, spec R o (λ d _, P d) mm (λ v d _, Q v d)) → hspec P (store_call answer mm) Q.
Proof.
  intros Hm s He HP. destruct (Hm (oracle_of (rl_world s)) (rl_world s)) as [Hin HQ]; [done|]. unfold store_call.
  destruct (mm (rl_world s)) as [w [e|v]]; cbn in *; split; try done. intros ? [= <-]. by apply HQ.
Qed.
Lemma hspec_pure {A} (φ : Prop) (P : DB → Prop) (mm : HM A) Q : (φ → hspec P mm Q) → hspec (λ d, φ ∧ P d) mm Q.
Proof. intros Hm s He [? HP]. by apply Hm. Qed.
Lemma hspec_pre {A} (P P' : DB → Prop) (mm : HM A) Q : hspec P' mm Q → (∀ d, P d → P' d) → hspec P mm Q.
Proof. intros Hm HP s He ?. apply Hm; auto. Qed.

(** Only this administrator passes with one of the two tokens. *)
Lemma authenticated_admin token p d0 d : pending d0 → Hash token = old_hash ∨ Hash token = new_hash →
  AdminProofs.authenticated R token p d0 d →
  p_OrganizationID p = org ∧ p_MemberID p = m ∧ (p_CredentialHash p = old_hash ∨ p_CredentialHash p = new_hash).
Proof.
  intros Hd0 Htok (cred & member & (d1 & H01 & _ & Hget) & _ & _ & _ & Horg & Hm & _ & _ & Hh & _).
  destruct (pending_owned _ d1 (reached d0 Hd0 d1 H01) Htok cred Hget) as (_ & Ho & Hmm). rewrite Horg, Hm, Hh. done.
Qed.

(** No route is longer than four segments. *)
Lemma match_path_length pattern : ∀ path values, match_path pattern path = Some values → length path = length pattern.
Proof.
  induction pattern as [|[l|] pattern IH]; intros [|q path] values; cbn [match_path]; try done.
  - case_bool_decide; [|done]. intros Hm%IH. cbn. by rewrite Hm.
  - case_bool_decide; [done|]. intros (v & Hm%IH & _)%fmap_Some. cbn. by rewrite Hm.
Qed.
Lemma unrouted {T} (l : list (route T)) mth path : Forall (λ rt, length (rt_Pattern rt) ≤ 4)%nat l → (4 < length path)%nat →
  dispatch l mth path = NoRoute.
Proof.
  intros Hl Hlen. induction Hl as [|rt l Hrt _ IH]; [done|]. cbn [dispatch].
  destruct (match_path (rt_Pattern rt) path) as [values|] eqn:Hm; [|done]. apply match_path_length in Hm. lia.
Qed.
Lemma relay_routes_short bootstrapToken st : Forall (λ rt, length (rt_Pattern rt) ≤ 4)%nat (relay_routes (DB := DB) bootstrapToken st).
Proof. unfold relay_routes, AdminHttp.RegisterRoutes, CollabHttp.RegisterRoutes. cbn [app]. repeat (apply Forall_cons_2; [cbn; lia|]). apply Forall_nil_2. Qed.

Section served.
Variables (bootstrapToken : string) (st : CollabHttp.stream) (json_size : input → Z) (baseURL : string) (base : list string) (token : string).
Hypothesis Htoken : trim_space token = token ∧ is_Some (Kind token) ∧ (Hash token = old_hash ∨ Hash token = new_hash).
Abbreviation request := (rotation_request json_size x (mkApiClient baseURL base token)).

Lemma rotation_authenticates : AdminHttp.AuthenticateRequest request = (AdminStore.Authenticate token : AM Principal).
Proof.
  destruct Htoken as (Htrim & [kind Hkind] & _). apply Kind_visible in Hkind. cbv zeta in Hkind. rewrite Htrim in Hkind.
  destruct Hkind as (Hv & Hne & Hlen). unfold AdminHttp.AuthenticateRequest, AdminHttp.bearerToken. cbn [hr_Authorization rotation_request api_request ap_token].
  rewrite bearer_fields by done. assert (equal_fold "Bearer" "Bearer" = true) as -> by (unfold equal_fold; by rewrite bool_decide_true).
  by rewrite (proj2 (Z.leb_le (len token) 256)).
Qed.
Lemma hspec_rotate d0 : pending d0 → hspec (R d0) (AdminHttp.rotateAdminCredential request) (λ _, is_rotated).
Proof.
  intros Hd0. unfold AdminHttp.rotateAdminCredential.
  eapply hspec_bind with (Q := λ p d, (p_OrganizationID p = org ∧ p_MemberID p = m ∧ (p_CredentialHash p = old_hash ∨ p_CredentialHash p = new_hash)) ∧ R d0 d).
  { unfold AdminHttp.requireAdmin. eapply hspec_bind with (Q := λ p d, (p_OrganizationID p = org ∧ p_MemberID p = m ∧ (p_CredentialHash p = old_hash ∨ p_CredentialHash p = new_hash)) ∧ R d0 d).
    - apply hspec_store. rewrite rotation_authenticates. intros o.
      eapply (spec_conseq R); [apply (spec_frame R) with (F := R d0) (P := λ d _, R d0 d);
        [intros d d' ? ?; by etrans|apply (AdminProofs.spec_Authenticate R) with (d0 := d0)]|done|].
      intros p d wt [Hauth ?]. split; [|done]. by eapply authenticated_admin; [..|apply Htoken|].
    - intros p. apply hspec_pure. intros Hp. eapply hspec_bind; [apply hspec_respond_if|]. intros u. apply hspec_pure. intros _.
      by apply hspec_ret. }
  intros p. apply hspec_pure. intros Hp. unfold AdminHttp.decoded.
  destruct (AdminHttp.decodeJSON rotateRequest request) as [v|] eqn:Hv; [|by eapply hspec_bind with (Q := λ _ _, False); [apply hspec_respond|]].
  assert (v = mkRotateRequest new_hash (x_key x)) as ->.
  { unfold AdminHttp.decodeJSON in Hv. case_match; [done|]. unfold read_json in Hv. cbn in Hv. case_match; [done|]. injection Hv as Hv. by rewrite <- Hv. }
  apply hspec_ret_bind. cbn [rt_NewTokenHash rt_IdempotencyKey].
  eapply hspec_bind; [apply hspec_respond_if|]. intros u. apply hspec_pure. intros _.
  eapply hspec_bind with (Q := λ _, R d0); [unfold AdminHttp.clock_now; apply hspec_store; intros o; apply keep; auto with guar|]. intros t.
  eapply hspec_bind; [apply hspec_store; intros o; by apply spec_rotate|]. intros result.
  by apply hspec_ret.
Qed.

Lemma answers_rotate : answers ClientProofs.not_success (AdminHttp.rotateAdminCredential request : HM response).
Proof.
  assert (∀ e, ClientProofs.not_success (AdminHttp.handleStoreError e)) as Herr by (by intros [[]| |]).
  apply answers_bind; [apply answers_bind; [by apply answers_store|]; intros p; apply answers_bind; [by apply answers_respond_if|]; intros _; apply answers_ret|]. intros p.
  apply answers_bind; [unfold AdminHttp.decoded; destruct (AdminHttp.decodeJSON _ _); [apply answers_ret|by intros s s' resp [= _ <-]]|]. intros v.
  apply answers_bind; [by apply answers_respond_if|]. intros _.
  apply answers_bind; [by apply answers_store|]. intros t. apply answers_bind; [by apply answers_store|]. intros r. apply answers_ret.
Qed.
Lemma rotation_served s : env_ok R (rl_world s) → pending (w_db (rl_world s)) →
  let (s', o) := serve bootstrapToken st request s in
  within R (rl_world s) (rl_world s') ∧ (∀ resp, o = Answered resp → succeeded resp = true → is_rotated (w_db (rl_world s'))).
Proof.
  intros He Hd0.
  destruct (decide (base = [])) as [Hbase|Hbase].
  2: { unfold serve. cbn [hr_Path hr_Method rotation_request api_request ap_basePath].
    rewrite unrouted; [|apply relay_routes_short|rewrite length_app; destruct base; [done|cbn; lia]].
    split; [by apply (WR_preorder R)|]. by intros ? [= <-]. }
  rewrite (serve_route bootstrapToken st request s (mkRoute POST [Lit "v1"; Lit "admin"; Lit "credential"; Lit "rotate"] (λ _, AdminHttp.rotateAdminCredential)) []).
  - unfold finish. cbn [rt_Handler]. destruct (hspec_rotate (w_db (rl_world s)) Hd0 s He) as [Hin HQ]; [done|]. pose proof (answers_rotate s) as Hno.
    destruct (AdminHttp.rotateAdminCredential request s) as [s' [[resp|]|resp]]; cbn [fst snd] in *; (split; [done|]).
    + intros ? [= <-]. unfold succeeded. cbn [rs_Status WithSecurityHeaders]. by rewrite (Hno s' resp).
    + done.
    + intros ? [= <-] _. by apply (HQ resp).
  - unfold relay_routes. apply elem_of_app. left. do 6 right. left.
  - by rewrite Hbase.
Qed.
End served.
End relay.

(** ** The relay, as the command relies on it *)

(** Until the rotation is done the old credential counts, and afterwards the
    new one; a success means that it is done. *)
Class Rotates `{UT : UnicodeTables} {St : Type} (Do : http_request → M St () response) (json_size : input → Z) (x : rotation) := {
  before_rotation : St → Prop;
  after_rotation : St → Prop;
  rotates c s : trim_space (ap_token c) = ap_token c → is_Some (Kind (ap_token c)) →
    Hash (ap_token c) = x_old x ∨ Hash (ap_token c) = Hash (x_token x) → before_rotation s ∨ after_rotation s →
    let (s', o) := Do (rotation_request json_size x c) s in
    (before_rotation s' ∨ after_rotation s') ∧ (after_rotation s → after_rotation s') ∧
    (∀ resp, o = inr resp → succeeded resp = true → after_rotation s') }.

(** The relay process keeps this promise, over Redis and among others that do
    at most what [keeps_rotation] allows. *)
#[export] Instance relay_rotates {DB} `{RL : RedisLaws DB} `{UT : UnicodeTables} (org m bootstrapToken : string) (st : CollabHttp.stream) json_size x :
  Rotates (Client.Loopback (DB := DB) bootstrapToken st) json_size x.
Proof.
  refine {| before_rotation s := env_ok (keeps_rotation org m x) (rl_world s) ∧ not_rotated org m x (w_db (rl_world s));
            after_rotation s := env_ok (keeps_rotation org m x) (rl_world s) ∧ is_rotated org m x (w_db (rl_world s)) |}.
  intros [url base token] s Htrim Hkind Htok Hs. cbn [ap_token] in *.
  assert (env_ok (keeps_rotation org m x) (rl_world s) ∧ pending org m x (w_db (rl_world s))) as [He Hp] by (unfold pending; tauto).
  pose proof (rotation_served org m x bootstrapToken st json_size url base token (conj Htrim (conj Hkind Htok)) s He Hp) as Hrun.
  unfold Client.Loopback. destruct (serve bootstrapToken st _ s) as [s' o]. destruct Hrun as [[He' [HR1 HR2] _ _ _] Hok].
  split_and!; [specialize (HR1 Hp); unfold pending in HR1; tauto|tauto|].
  intros resp Ho Hsucc. split; [done|]. destruct o as [r|]; [|done]. injection Ho as ->. by apply (Hok resp).
Defined.
