(* ===== verification/AdminRecovery.v ===== *)
(** * A credential is never lost

    What the relay may hold as the administrator's credential is on the disk of
    the administrator, whatever fails and wherever the command stops; and the
    command, repeated, completes. *)

From S2P Require Import Prelude GoString Sha256 GoStringFacts RedactFacts Protocol Auth Records Redis RedisLogic MemRedis Http Relay AdminCli AdminRelay.
From S2P Require Hub AdminStore AdminProofs AdminWitness AdminHttp CollabHttp Client Address.
From Stdlib Require Import Ascii.

Local Open Scope Z_scope.

(** ** One run of the command *)

Section rules.
Context {St : Type}.
Implicit Types w : cli St.

Definition with_files (files : gmap string content) (fates : list fate) w : cli St :=
  mkCli files fates (cl_random w) (cl_draws w) (cl_relay w).
(** Only time passes. *)
Definition quiet_step w w' : Prop :=
  cl_files w' = cl_files w ∧ cl_random w' = cl_random w ∧ cl_draws w' = cl_draws w ∧ cl_relay w' = cl_relay w.
#[export] Instance quiet_preorder : PreOrder quiet_step.
Proof. split; [done|]. intros w1 w2 w3 (? & ? & ? & ?) (? & ? & ? & ?). split_and!; congruence. Qed.

Lemma wp_timeless {A} (mm : M (cli St) cli_error A) (Q : A → cli St → Prop) X w : guar quiet_step mm →
  (∀ v w', quiet_step w w' → mm w = (w', inr v) → Q v w') → (∀ e w', quiet_step w w' → X e w') → wp mm Q X w.
Proof. intros Hg HQ HX. specialize (Hg w). unfold wp. destruct (mm w) as [w' [e|v]]; auto. Qed.
Lemma wp_operation effect (Q : bool → cli St → Prop) (X : cli_error → cli St → Prop) w :
  (∀ l, Q true (with_files (effect Fully (cl_files w)) l w)) →
  (∀ r l, Q false (with_files (effect r (cl_files w)) l w)) →
  (∀ r l, X Died (with_files (effect r (cl_files w)) l w)) → wp (operation effect) Q X w.
Proof.
  intros HQ1 HQ2 HX. unfold wp, operation, next_fate, mbind, M_bind. destruct w as [files [|[|r dies] l] random draws rel]; cbn.
  - apply HQ1.
  - apply HQ1.
  - destruct dies; [apply HX|apply HQ2].
Qed.
Lemma guar_look : guar quiet_step (look : M (cli St) cli_error bool).
Proof. intros [files [|[|r []] l] random draws rel]; done. Qed.
Lemma guar_read_path path : guar quiet_step (read_path path : M (cli St) cli_error found).
Proof. unfold read_path. apply guar_bind; [apply _|apply guar_look|]. intros ok. guar_auto. Qed.
Lemma read_path_found path w w' c : read_path path w = (w', inr (Found c)) → cl_files w !! path = Some c.
Proof.
  unfold read_path. intros Hr. apply bind_inr in Hr as (w1 & ok & Hl & Hr). pose proof (guar_look w) as (Hf & _). rewrite Hl in Hf. cbn in Hf.
  cbv [gets mbind M_bind mret M_ret] in Hr. rewrite Hf in Hr. destruct ok; [|done]. destruct (cl_files w !! path); [|done]. by injection Hr as _ <-.
Qed.
Lemma read_path_absent path w w' : read_path path w = (w', inr NotExist) → cl_files w !! path = None.
Proof.
  unfold read_path. intros Hr. apply bind_inr in Hr as (w1 & ok & Hl & Hr). pose proof (guar_look w) as (Hf & _). rewrite Hl in Hf. cbn in Hf.
  cbv [gets mbind M_bind mret M_ret] in Hr. rewrite Hf in Hr. destruct ok; [|done]. by destruct (cl_files w !! path).
Qed.
End rules.
#[export] Hint Resolve guar_look guar_read_path : guar.

Section quiet.
Context {St : Type} `{UT : UnicodeTables}.
Abbreviation CM := (M (cli St) cli_error).
Lemma guar_ensure path : guar quiet_step (ensurePrivateOutputDirectory path : CM ()).
Proof. unfold ensurePrivateOutputDirectory. guar_auto. Qed.
Lemma guar_ensureRotation path h token : guar quiet_step (ensureRotationTokenMatchesOrAbsent path h token : CM ()).
Proof. unfold ensureRotationTokenMatchesOrAbsent. guar_auto. Qed.
Lemma guar_readCredential path direct : guar quiet_step (readCredential path direct : CM string).
Proof. unfold readCredential. guar_auto. Qed.
Lemma guar_adminClient Parse allowed variable server tokenFile : guar quiet_step (adminClient Parse allowed variable server tokenFile : CM apiClient).
Proof. unfold adminClient. apply guar_bind; [apply _|apply guar_readCredential|]. intros t. guar_auto. Qed.
End quiet.
#[export] Hint Resolve guar_ensure guar_ensureRotation guar_readCredential guar_adminClient : guar.

Section command.
Context {St : Type} `{UT : UnicodeTables}.
Variables (Do : http_request → M St () response) (json_size : input → Z) (x : rotation).
Context `{RT : !Rotates Do json_size x}.
Variables (Parse : string → option (Address.URL * string)) (allowedHTTPHost adminTokenVariable : string).
Variables (server tokenFile replacementTokenFile : string).
Abbreviation CM := (M (cli St) cli_error).
Implicit Types w : cli St.

(** Where the new credential goes, and the attempt. *)
Definition destination : string := if bool_decide (trim_space replacementTokenFile = "") then trim_space tokenFile else trim_space replacementTokenFile.
Abbreviation attempt_path := (rotationAttemptPath destination).
Abbreviation run := (credentialCommand Parse allowedHTTPHost Do json_size adminTokenVariable server tokenFile replacementTokenFile).

(** The credential the command is called with. *)
Definition presented (files : gmap string content) (token : string) : Prop :=
  (trim_space tokenFile ≠ "" ∧ ∃ c, files !! trim_space tokenFile = Some c ∧ token = trim_space (content_text c)) ∨
  (trim_space tokenFile = "" ∧ token = trim_space adminTokenVariable).
Definition holds_old (files : gmap string content) : Prop := ∃ token, presented files token ∧ Hash token = x_old x.
Definition no_attempt (files : gmap string content) : Prop := ∀ a, files !! attempt_path ≠ Some (RotationDoc a).
Definition minted (token : string) : Prop := Forall visible (bytes token) ∧ is_Some (Kind token).
(** What a run would draw. *)
Definition will_draw w : Prop := ∀ r1 r2, cl_random w (cl_draws w) = Some r1 → cl_random w (S (cl_draws w)) = Some r2 →
  String.length r1 = 32%nat ∧ NewToken r1 TokenAdmin = Some (x_token x) ∧ x_key x = "tr_rotate_" +:+ hex_encode r2.

(** Nothing was sent yet. *)
Definition fresh w : Prop := no_attempt (cl_files w) ∧ holds_old (cl_files w) ∧ before_rotation (cl_relay w).
(** The new credential is on disk, and the old one as long as it counts. *)
Definition staged w : Prop :=
  (∃ a, cl_files w !! attempt_path = Some (RotationDoc a) ∧ rotation_of a = x) ∧ minted (x_token x) ∧
  (before_rotation (cl_relay w) ∧ holds_old (cl_files w) ∨ after_rotation (cl_relay w)).
Definition completed w : Prop :=
  cl_files w !! attempt_path = None ∧ (∃ c, cl_files w !! destination = Some c ∧ Hash (content_text c) = Hash (x_token x)) ∧
  after_rotation (cl_relay w).

Lemma fresh_data w w' : cl_files w' = cl_files w → cl_relay w' = cl_relay w → fresh w → fresh w'.
Proof. unfold fresh. by intros -> ->. Qed.
Lemma staged_data w w' : cl_files w' = cl_files w → cl_relay w' = cl_relay w → staged w → staged w'.
Proof. unfold staged. by intros -> ->. Qed.
Lemma completed_data w w' : cl_files w' = cl_files w → cl_relay w' = cl_relay w → completed w → completed w'.
Proof. unfold completed. by intros -> ->. Qed.
Definition ongoing w : Prop := fresh w ∨ staged w.
Lemma ongoing_quiet w w' : quiet_step w w' → ongoing w → ongoing w'.
Proof. intros (Hf & _ & _ & Hr) [H|H]; [left; by eapply fresh_data|right; by eapply staged_data]. Qed.
Lemma presented_unique files t t' : presented files t → presented files t' → t = t'.
Proof. intros [[? (c & Hc & ->)]|[? ->]] [[? (c' & Hc' & ->)]|[? ->]]; try done. rewrite Hc in Hc'. by injection Hc' as ->. Qed.

Lemma destination_trim : trim_space destination = destination.
Proof. unfold destination. case_bool_decide; apply trim_space_idem. Qed.
Lemma attempt_path_eq : attempt_path = destination +:+ ".rotation-attempt".
Proof. unfold rotationAttemptPath. by rewrite destination_trim. Qed.
Lemma attempt_path_ne : attempt_path ≠ destination.
Proof. rewrite attempt_path_eq. intros H%(f_equal String.length). rewrite length_string_app in H. cbn in H. lia. Qed.

Lemma NewToken_minted r token : String.length r = 32%nat → NewToken r TokenAdmin = Some token → minted token.
Proof.
  intros Hlen Hnew. pose proof (NewToken_kind_matches r TokenAdmin token Hlen Hnew) as Hk. destruct (kind_visible _ _ Hk) as (Hv & _).
  split; [done|]. unfold Kind. rewrite plain_trim by done. destruct (List.find (kind_matches token) _) eqn:Hf; [done|].
  pose proof (List.find_none _ _ Hf TokenAdmin) as Hn. rewrite Hn in Hk; [done|]. cbn. tauto.
Qed.
(** A newline after a token is not part of it. *)
Lemma Hash_newline token : Forall visible (bytes token) → Hash (token +:+ newline) = Hash token.
Proof. intros Hv. unfold Hash. rewrite (plain_trim token) by done. f_equal. by apply trim_line. Qed.

(** *** The credential and the client *)

Lemma newAPIClient_token rawURL token c : newAPIClient Parse allowedHTTPHost rawURL token = inr c → ap_token c = trim_space token.
Proof. unfold newAPIClient. repeat case_match; try done; by intros [= <-]. Qed.
Lemma adminClient_run w w' c : adminClient Parse allowedHTTPHost adminTokenVariable server tokenFile w = (w', inr c) →
  presented (cl_files w) (ap_token c) ∧ trim_space (ap_token c) = ap_token c ∧ is_Some (Kind (ap_token c)).
Proof.
  unfold adminClient. intros (w1 & token & Hread & Hrun)%bind_inr.
  apply bind_inr in Hrun as (w2 & u & [Hk ->]%reject_if_inr & [Hc ->]%lift_inr). orb_split.
  assert (presented (cl_files w) token ∧ trim_space token = token) as [Hp Ht].
  { unfold readCredential in Hread. apply bind_inr in Hread as (w3 & u' & [Hor ->]%reject_if_inr & Hread). unfold presented. case_bool_decide as Hf.
    - apply bind_inr in Hread as (w4 & u2 & [_ ->]%reject_if_inr & [= _ <-]). split; [by right|apply trim_space_idem].
    - apply bind_inr in Hread as (w4 & fnd & Hr & Hread). destruct fnd as [k| |]; [|done|done].
      apply bind_inr in Hread as (w5 & u2 & [_ ->]%reject_if_inr & [= _ <-]). split; [|apply trim_space_idem]. left. split; [done|].
      exists k. split; [|done]. by eapply read_path_found. }
  rewrite (newAPIClient_token _ _ _ Hc), Ht. split_and!; [done|done|by rewrite Hk].
Qed.

(** *** Staging *)

Lemma wp_new_token (Q : string → cli St → Prop) X w :
  (∀ r t, cl_random w (cl_draws w) = Some r → NewToken r TokenAdmin = Some t → Q t (mkCli (cl_files w) (cl_fates w) (cl_random w) (S (cl_draws w)) (cl_relay w))) →
  (∀ e, X e (mkCli (cl_files w) (cl_fates w) (cl_random w) (S (cl_draws w)) (cl_relay w))) → wp (new_token TokenAdmin) Q X w.
Proof.
  intros HQ HX. unfold new_token. apply wp_bind. unfold wp, draw. destruct (cl_random w (cl_draws w)) as [r|] eqn:Hr; [|apply HX].
  destruct (NewToken r TokenAdmin) as [t|] eqn:Ht; [by apply (HQ r)|apply HX].
Qed.
Lemma wp_recovery_id prefix (Q : string → cli St → Prop) X w :
  (∀ r, cl_random w (cl_draws w) = Some r → Q (prefix +:+ hex_encode r) (mkCli (cl_files w) (cl_fates w) (cl_random w) (S (cl_draws w)) (cl_relay w))) →
  (∀ e, X e (mkCli (cl_files w) (cl_fates w) (cl_random w) (S (cl_draws w)) (cl_relay w))) → wp (newRecoveryID prefix) Q X w.
Proof.
  intros HQ HX. unfold newRecoveryID. apply wp_bind. unfold wp, draw. destruct (cl_random w (cl_draws w)) as [r|] eqn:Hr; [|apply HX].
  by apply HQ.
Qed.
(** A new file appears whole, in part, or not at all. *)
Lemma wp_write_new path c (Q : bool → cli St → Prop) (X : cli_error → cli St → Prop) w : cl_files w !! path = None →
  (∀ l, Q true (with_files (<[path := c]> (cl_files w)) l w)) →
  (∀ files l, files = cl_files w ∨ files = <[path := c]> (cl_files w) ∨ (∃ s, files = <[path := Text s]> (cl_files w)) →
     Q false (with_files files l w) ∧ X Died (with_files files l w)) → wp (WriteNewFile path c) Q X w.
Proof.
  intros Hnone HQ HX. unfold WriteNewFile. apply wp_bind, wp_gets. rewrite Hnone, bool_decide_false by (by intros [? [=]]).
  apply wp_bind, wp_operation; [intros l; apply HQ|intros r l; apply wp_ret|intros r l]; apply HX; destruct r; naive_solver.
Qed.

Lemma wp_prepare base token w : presented (cl_files w) token → (fresh w ∧ will_draw w) ∨ staged w →
  wp (prepareRotationAttempt destination base token)
    (λ a w', staged w' ∧ rotation_of a = x ∧ (Hash token = x_old x ∨ Hash token = Hash (x_token x))) (λ _ w', ongoing w') w.
Proof.
  intros Htok Hw. assert (ongoing w) as Hon by (unfold ongoing; tauto).
  unfold prepareRotationAttempt. cbv zeta. rewrite destination_trim.
  apply wp_bind, wp_timeless; [apply guar_ensure| |intros; by eapply ongoing_quiet]. intros _ w1 Hw1 _.
  apply wp_bind, wp_timeless; [apply guar_read_path| |intros; by eapply ongoing_quiet; [|eapply ongoing_quiet]]. intros existing w2 Hw2 Hread.
  assert (quiet_step w w2) as H2 by (by etrans). pose proof (ongoing_quiet _ _ H2 Hon) as Hon2. destruct existing as [[| |a]| |]; [by apply wp_throw|by apply wp_throw| | |by apply wp_throw].
  - apply read_path_found in Hread. rewrite (proj1 Hw1) in Hread.
    assert (rotation_of a = x ∧ staged w2) as [Ha Hst].
    { destruct Hw as [[[Hno _] _]|Hst]; [by destruct (Hno a)|]. pose proof Hst as ((a' & Ha' & Hx) & _). rewrite Hread in Ha'. injection Ha' as <-.
      split; [done|]. by eapply staged_data; [apply H2..|]. }
    apply wp_bind, wp_reject_if; [|done]. intros Hok. apply wp_bind, wp_timeless; [apply guar_ensureRotation| |intros; by eapply ongoing_quiet]. intros _ w3 Hw3 _.
    apply wp_ret. split; [by eapply staged_data; [apply Hw3..|]|]. split; [done|]. rewrite <- Ha. cbn [rotation_of x_old x_token].
    rewrite !orb_false_iff, andb_false_iff in Hok. destruct Hok as [[[_ Hh] _] _]. destruct Hh as [Hh|Hh]; apply negb_false_iff, bool_decide_eq_true in Hh; auto.
  - apply read_path_absent in Hread. rewrite (proj1 Hw1) in Hread.
    destruct Hw as [[Hfresh Hdraw]|((a & Ha & _) & _)]; [|congruence]. destruct Hfresh as (Hno & (told & Htold & Hold) & Hb).
    rewrite (presented_unique _ _ _ Htold Htok) in Hold. destruct H2 as (Hf & Hr & Hd & Hrel).
    assert (∀ w', cl_files w' = cl_files w → cl_relay w' = cl_relay w → ongoing w') as Hongo.
    { intros w' H1 H2. left. unfold fresh. rewrite H1, H2. split_and!; [done|by exists token|done]. }
    apply wp_bind, wp_new_token; [|intros e; by apply Hongo]. intros r1 token1 Hr1 Ht. apply wp_bind, wp_recovery_id; [|intros e; by apply Hongo]. cbn [cl_random cl_draws cl_files cl_fates cl_relay].
    intros r2 Hr2. rewrite Hr, Hd in Hr1, Hr2. destruct (Hdraw r1 r2 Hr1 Hr2) as (Hlen & Hx & Hkey). rewrite Ht in Hx. injection Hx as Hx.
    set (attempt := mkRotationAttempt _ _ _ _ _). assert (rotation_of attempt = x) as Hrot.
    { change (mkRotation (Hash token) token1 ("tr_rotate_" +:+ hex_encode r2) = x). rewrite Hold, Hx, <- Hkey. apply rotation_eta. }
    apply wp_bind. set (w3 := mkCli _ _ _ _ _).
    assert (∀ l, staged (with_files (<[attempt_path := RotationDoc attempt]> (cl_files w3)) l w3)) as Hstaged.
    { intros l. split; [exists attempt; split; [apply lookup_insert_eq|done]|]. split; [rewrite <- Hx; by eapply NewToken_minted|]. left. cbn [cl_files cl_relay with_files w3]. rewrite Hf, Hrel. split; [done|].
      exists token. split; [|done]. destruct Htok as [(Hne & c & Hc & ->)|?]; [left|by right]. split; [done|]. exists c. split; [|done].
      rewrite lookup_insert_ne; [done|]. intros Heq. congruence. }
    apply wp_write_new; [cbn; by rewrite Hf|intros l; apply wp_bind, wp_ret, wp_ret; split; [apply Hstaged|split; [done|auto]]|].
    intros files l Hfiles. assert (ongoing (with_files files l w3)) as Hend; [|split; [by apply wp_bind, wp_throw|done]].
    destruct Hfiles as [->|[->|[s ->]]]; [apply Hongo; [exact Hf|exact Hrel]|right; apply Hstaged|left].
    unfold fresh. cbn [cl_files cl_relay with_files w3]. rewrite Hf, Hrel. split_and!; [intros a; cbn [cl_files with_files]; by rewrite lookup_insert_eq| |done].
    exists token. split; [|done]. destruct Htok as [(Hne & c & Hc & ->)|?]; [left|by right]. split; [done|]. exists c. split; [|done].
    rewrite lookup_insert_ne; [done|]. intros Heq. congruence.
Qed.

(** *** The exchange *)

Lemma wp_exchange c w : trim_space (ap_token c) = ap_token c → is_Some (Kind (ap_token c)) →
  Hash (ap_token c) = x_old x ∨ Hash (ap_token c) = Hash (x_token x) → staged w →
  wp (exchange Do (rotation_request json_size x c)) (λ resp w', staged w' ∧ (succeeded resp = true → after_rotation (cl_relay w'))) (λ _ w', staged w') w.
Proof.
  intros Htrim Hkind Hh (Ha & Hmint & Hphase).
  assert (before_rotation (cl_relay w) ∨ after_rotation (cl_relay w)) as Hp by tauto.
  pose proof (rotates c (cl_relay w) Htrim Hkind Hh Hp) as Hdo.
  unfold wp, exchange, next_fate, mbind, M_bind. destruct w as [files fates random draws rel]. cbn [cl_relay cl_files cl_fates] in *.
  assert (∀ fates', staged (mkCli files fates' random draws rel)) as Hsame by (intros; split_and!; done).
  assert (∀ fates' s', (before_rotation s' ∨ after_rotation s') → (after_rotation rel → after_rotation s') → staged (mkCli files fates' random draws s')) as Hnext.
  { intros fates' s' H1 H2. split_and!; [done|done|]. cbn. tauto. }
  revert Hdo. destruct fates as [|[|[|p| |] dies] l]; cbn; try (intros _; by destruct dies; apply Hsame).
  3-5: destruct (Do (rotation_request json_size x c) rel) as [s' o]; intros (H1 & H2 & H3); by destruct dies; apply Hnext.
  all: destruct (Do (rotation_request json_size x c) rel) as [s' o]; intros (H1 & H2 & H3).
  all: destruct o as [u|resp]; [by apply Hnext|split; [by apply Hnext|intros Hs; by apply (H3 resp)]].
Qed.
Lemma wp_rotate_request a c w : rotation_of a = x → trim_space (ap_token c) = ap_token c → is_Some (Kind (ap_token c)) →
  Hash (ap_token c) = x_old x ∨ Hash (ap_token c) = Hash (x_token x) → staged w →
  wp (request Do json_size RotateAdminCredentialResult c POST rotate_path [] (Some (rotate_input a)))
    (λ _ w', staged w' ∧ after_rotation (cl_relay w')) (λ _ w', staged w') w.
Proof.
  intros Ha Htrim Hkind Hh Hst. unfold request. apply wp_bind.
  assert (api_request json_size c POST rotate_path [] (Some (rotate_input a)) = rotation_request json_size x c) as -> by by rewrite <- Ha.
  eapply wp_mono; [by apply wp_exchange|cbn beta|done]. intros resp w' [Hst' Hsucc]. destruct (succeeded resp); [|by apply wp_throw].
  cbn [negb]. destruct (_ =? 204); [by apply wp_ret; auto|]. destruct (Client.of_reply _); [by apply wp_ret; auto|by apply wp_throw].
Qed.

(** *** Saving *)

Lemma staged_files w w' : cl_files w' !! attempt_path = cl_files w !! attempt_path → cl_relay w' = cl_relay w →
  after_rotation (cl_relay w) → staged w → staged w'.
Proof. intros Hf Hr Hafter (Ha & Hm & _). unfold staged. rewrite Hf, Hr. auto. Qed.
Definition saved w : Prop := staged w ∧ after_rotation (cl_relay w) ∧ ∃ c, cl_files w !! destination = Some c ∧ Hash (content_text c) = Hash (x_token x).
Definition over w : Prop := staged w ∨ completed w.

Lemma wp_save w (Q : () → cli St → Prop) (X : cli_error → cli St → Prop) (write : CM bool) : staged w → after_rotation (cl_relay w) →
  (∀ w', saved w' → Q () w') → (∀ e w', staged w' → X e w') →
  (∀ Q' X', (∀ l, Q' true (with_files (<[destination := Text (x_token x +:+ newline)]> (cl_files w)) l w)) →
     (∀ files l, files !! attempt_path = cl_files w !! attempt_path → Q' false (with_files files l w) ∧ X' Died (with_files files l w)) → wp write Q' X' w) →
  wp (write ≫= λ ok, reject_if (negb ok) DestinationWrite) Q X w.
Proof.
  intros Hst Hafter HQ HX Hwrite. pose proof Hst as (_ & [Hv _] & _). apply wp_bind, Hwrite.
  - intros l. apply wp_reject_if; [|done]. intros _. apply HQ. split_and!; [|done|].
    + apply (staged_files w); [|done..]. apply lookup_insert_ne, not_eq_sym, attempt_path_ne.
    + eexists. split; [apply lookup_insert_eq|]. by apply Hash_newline.
  - intros files l Hf. assert (staged (with_files files l w)) as Hst' by by apply (staged_files w).
    split; [apply wp_reject_if; [done|]; intros _|]; by apply HX.
Qed.

Lemma wp_finalize w : staged w → after_rotation (cl_relay w) →
  wp (finalizeAdminToken destination attempt_path (x_token x) (x_old x)) (λ _, completed) (λ _, over) w.
Proof.
  intros Hst Hafter. unfold finalizeAdminToken.
  assert (∀ w', quiet_step w w' → staged w' ∧ after_rotation (cl_relay w')) as Hquiet.
  { intros w' (Hf & _ & _ & Hr). split; [by eapply staged_data|by rewrite Hr]. }
  apply wp_bind, wp_timeless; [apply guar_ensure| |intros e w' Hw'; left; by apply Hquiet]. intros _ w1 Hw1 _.
  apply wp_bind, wp_timeless; [apply guar_read_path| |intros e w' Hw'; left; apply Hquiet; by etrans]. intros stat w2 Hw2 Hread.
  assert (quiet_step w w2) as H2 by by etrans. destruct (Hquiet w2 H2) as [Hst2 Hafter2].
  apply wp_bind. eapply wp_mono with (Q := λ _, saved) (X := λ _, staged); [|cbn beta; intros _ w3 Hsaved|by intros e w' ?; left].
  - destruct stat as [c| |]; [| |by apply wp_throw].
    + apply wp_bind, wp_timeless; [apply guar_read_path| |intros e w' Hw'; apply Hquiet; by etrans]. intros payload w3 Hw3 Hread2.
      destruct (Hquiet w3) as [Hst3 Hafter3]; [by etrans|]. destruct payload as [c'| |]; [|by apply wp_throw..].
      apply read_path_found in Hread2. rewrite <- (proj1 Hw3) in Hread2. destruct (Equal (content_text c') (x_token x)) eqn:Heq.
      * apply wp_ret. split_and!; [done|done|]. exists c'. split; [done|]. unfold Equal in Heq. orb_split. unfold Hash, sha256_hex. by rewrite Heq.
      * apply wp_bind, wp_reject_if; [intros _|done]. apply wp_save; [done|done|done|done|]. intros Q' X' H1 H3. apply wp_operation; [done|..].
        all: intros r l; apply H3; destruct r; [done|done|apply lookup_delete_ne|apply lookup_insert_ne]; apply not_eq_sym, attempt_path_ne.
    + apply read_path_absent in Hread. rewrite <- (proj1 Hw2) in Hread. apply wp_save; [done|done|done|done|]. intros Q' X' H1 H3.
      apply wp_write_new; [done|done|]. intros files l Hfiles. apply H3.
      destruct Hfiles as [->|[->|[s ->]]]; [done|apply lookup_insert_ne..]; apply not_eq_sym, attempt_path_ne.
  - destruct Hsaved as (Hst3 & Hafter3 & c & Hc & Hh).
    assert (∀ l, completed (with_files (delete attempt_path (cl_files w3)) l w3)) as Hdone.
    { intros l. split_and!; [apply lookup_delete_eq|exists c; split; [|done]; cbn; rewrite lookup_delete_ne; [done|apply attempt_path_ne]|done]. }
    assert (∀ r l, over (with_files (match r with Fully => delete attempt_path (cl_files w3) | _ => cl_files w3 end) l w3)) as Hover.
    { intros r l. destruct r; [left; by eapply staged_data..|right; apply Hdone]. }
    apply wp_bind, wp_operation; [intros l|intros r l; by apply wp_bind, wp_throw|intros r l; apply Hover].
    apply wp_bind, wp_reject_if; [intros _|done]. apply wp_bind, wp_timeless; [apply guar_look| |].
    + intros ok w4 (Hf & _ & _ & Hr) _. apply wp_reject_if; intros _; [|right]; by eapply completed_data, (Hdone l).
    + intros e w4 (Hf & _ & _ & Hr). right. by eapply completed_data, (Hdone l).
Qed.

(** *** The command *)

Lemma wp_credential narg w : (fresh w ∧ will_draw w) ∨ staged w →
  wp (run narg) (λ path w', path = destination ∧ completed w') (λ _ w', fresh w' ∨ over w') w.
Proof.
  intros Hw. assert (ongoing w) as Hon by (unfold ongoing; tauto).
  assert (∀ w', ongoing w' → fresh w' ∨ over w') as Herr by (intros w' [|]; [by left|by right; left]).
  unfold credentialCommand. apply wp_bind, wp_reject_if; [intros _|intros _; by apply Herr].
  apply wp_bind, wp_timeless; [apply guar_adminClient| |intros e w' Hw'; by eapply Herr, ongoing_quiet]. intros c w1 Hq Hclient.
  apply adminClient_run in Hclient as (Hpres & Htrim & Hkind). rewrite <- (proj1 Hq) in Hpres.
  assert ((fresh w1 ∧ will_draw w1) ∨ staged w1) as Hw1.
  { destruct Hq as (Hf & Hr & Hd & Hrel). destruct Hw as [[Hfr Hdr]|Hst]; [left|right; by eapply staged_data].
    split; [by eapply fresh_data|]. intros r1 r2. rewrite Hr, Hd. apply Hdr. }
  cbv zeta. fold destination. apply wp_bind, wp_reject_if; [intros _|intros _; apply Herr; by eapply ongoing_quiet].
  apply wp_bind. eapply wp_mono; [by apply wp_prepare|cbn beta; intros a w2 (Hst & Ha & Hh)|intros e w'; apply Herr].
  assert (∀ (k : CM string) w3, staged w3 → after_rotation (cl_relay w3) →
    (k = (finalizeAdminToken destination attempt_path (ra_NewAdminToken a) (ra_SourceTokenHash a) ≫= λ _, mret destination)) →
    wp k (λ path w', path = destination ∧ completed w') (λ _ w', fresh w' ∨ over w') w3) as Hfin.
  { intros k w3 Hst3 Hafter ->. apply wp_bind. assert (ra_NewAdminToken a = x_token x ∧ ra_SourceTokenHash a = x_old x) as [-> ->] by by rewrite <- Ha.
    eapply wp_mono; [by apply wp_finalize|intros ? w' Hc; by apply wp_ret|intros e w' Ho; by right]. }
  apply wp_bind, wp_attempt. eapply wp_mono; [by apply (wp_rotate_request a)|cbn beta|cbn beta].
  - intros r w3 [Hst3 Hafter]. apply wp_bind, wp_ret. by apply Hfin.
  - intros e w3 Hst3. apply wp_bind. destruct (_ && _); [|apply wp_throw; by right; left].
    apply wp_bind, wp_lift; [|intros ? _; by right; left]. intros c2 Hc2. pose proof Hst3 as (_ & [Hv Hk] & _).
    assert (ap_token c2 = x_token x) as Ht2.
    { rewrite (newAPIClient_token _ _ _ Hc2). assert (ra_NewAdminToken a = x_token x) as -> by by rewrite <- Ha. by apply plain_trim. }
    eapply wp_mono; [apply (wp_rotate_request a); [done|rewrite Ht2; by apply plain_trim|by rewrite Ht2|rewrite Ht2; by right|done]|cbn beta|intros e' w' ?; by right; left].
    intros r w4 [Hst4 Hafter]. by apply Hfin.
Qed.
End command.

(** ** Any number of runs *)

Section rounds.
Context {DB : Type} `{RL : RedisLaws DB} `{UT : UnicodeTables}.
Variables (org m bootstrapToken : string) (st : CollabHttp.stream) (json_size : input → Z).
Variables (Parse : string → option (Address.URL * string)) (allowedHTTPHost server tokenFile : string).
Implicit Types w : cli (relay DB).

Abbreviation token_path := (trim_space tokenFile).
Abbreviation attempt_path := (rotationAttemptPath (destination tokenFile "")).
(** [credential rotate] with the file of the credential, which it replaces *)
Definition rotate_in_place : M (cli (relay DB)) cli_error string :=
  credentialCommand Parse allowedHTTPHost (Client.Loopback bootstrapToken st) json_size "" server tokenFile "" 0.

(** The rotation a run is about: the one it finds, or else draws. *)
Definition rotation_at w : rotation :=
  match cl_files w !! attempt_path with
  | Some (RotationDoc a) => rotation_of a
  | _ => mkRotation (match cl_files w !! token_path with Some c => Hash (content_text c) | None => "" end)
      (default "" (r ← cl_random w (cl_draws w); NewToken r TokenAdmin))
      ("tr_rotate_" +:+ hex_encode (default "" (cl_random w (S (cl_draws w)))))
  end.

Definition redis_of w : DB := w_db (rl_world (cl_relay w)).
(** What goes wrong in a run, and what the others do meanwhile. *)
Definition refate (fates : list fate) (env : list (env_step DB)) w : cli (relay DB) :=
  let s := cl_relay w in let rw := rl_world s in
  mkCli (cl_files w) fates (cl_random w) (cl_draws w)
    (set_world (mkWorld (w_db rw) env (w_watch rw) (w_clock rw) (w_ticks rw) (w_rand rw) (w_draws rw)) s).
(** One run, to its end or to where it stops.  The others leave the rotation to
    this command, and what it draws is new to the relay. *)
Definition round w w' : Prop := ∃ fates env, let w1 := refate fates env w in let x := rotation_at w1 in
  (∀ n r, cl_random w n = Some r → String.length r = 32%nat) ∧
  Forall (λ e, ∀ d, keeps_rotation org m x d (env_fun e d)) env ∧
  (no_attempt tokenFile "" (cl_files w) → owned org m (Hash (x_token x)) (redis_of w) ∧ r_get (redis_of w) (rotation_record x) = None) ∧
  w' = (rotate_in_place w1).1.

(** Nothing is under way and the file holds the credential; or a rotation is. *)
Definition settled w : Prop := no_attempt tokenFile "" (cl_files w) ∧
  ∃ c, cl_files w !! token_path = Some c ∧ live org m (Hash (content_text c)) (redis_of w).
Definition under_way w : Prop := ∃ a, cl_files w !! attempt_path = Some (RotationDoc a) ∧ minted (ra_NewAdminToken a) ∧
  (not_rotated org m (rotation_of a) (redis_of w) ∧ (∃ c, cl_files w !! token_path = Some c ∧ Hash (content_text c) = ra_SourceTokenHash a) ∨
   is_rotated org m (rotation_of a) (redis_of w)).

(** A credential that the files hold *)
Definition on_disk (files : gmap string content) (token : string) : Prop :=
  (∃ c, files !! token_path = Some c ∧ token = trim_space (content_text c)) ∨
  (∃ a, files !! attempt_path = Some (RotationDoc a) ∧ token = ra_NewAdminToken a).

Hypothesis Htokenfile : token_path ≠ "".

Lemma in_place_destination : destination tokenFile "" = token_path.
Proof. done. Qed.
Lemma holds_old_file x files : holds_old x "" tokenFile files ↔ ∃ c, files !! token_path = Some c ∧ Hash (content_text c) = x_old x.
Proof.
  unfold holds_old, presented. split.
  - intros (token & [(_ & c & Hc & ->)|[? _]] & Hh); [|done]. exists c. by rewrite <- Hash_trim.
  - intros (c & Hc & Hh). exists (trim_space (content_text c)). rewrite Hash_trim. split; [|done]. left. eauto.
Qed.

Lemma round_keeps w w' : round w w' → settled w ∨ under_way w → settled w' ∨ under_way w'.
Proof.
  intros (fates & env & Hlen & Henv & Hnew & ->) Hw. set (w1 := refate fates env w) in *. set (x := rotation_at w1) in *.
  assert (fresh (RT := relay_rotates org m bootstrapToken st json_size x) _ _ x "" tokenFile "" w1 ∧ will_draw x w1 ∨
          staged (RT := relay_rotates org m bootstrapToken st json_size x) _ _ x "" tokenFile "" w1) as Hpre.
  { destruct Hw as [(Hno & c & Hc & Hl)|(a & Ha & Hm & Hphase)]; [left|right].
    - assert (x = mkRotation (Hash (content_text c)) (default "" (r ← cl_random w (cl_draws w); NewToken r TokenAdmin))
        ("tr_rotate_" +:+ hex_encode (default "" (cl_random w (S (cl_draws w)))))) as Hx.
      { unfold x, rotation_at. cbn [cl_files w1 refate cl_random cl_draws]. rewrite Hc. destruct (cl_files w !! attempt_path) as [[| |a]|] eqn:Ha; try done.
        by destruct (Hno a). }
      split; [split_and!; [done|apply holds_old_file; exists c; by rewrite Hx|]|].
      + destruct (Hnew Hno) as [Hown Hrec]. split; [exact Henv|]. split_and!; [by rewrite Hx|done|done].
      + intros r1 r2. cbn [cl_random cl_draws w1 refate]. intros H1 H2. split; [by eapply Hlen|]. rewrite Hx, H1, H2. cbn [x_token x_key default].
        cbn. by eexists.
    - assert (x = rotation_of a) as Hx by (unfold x, rotation_at; cbn [cl_files w1 refate]; by rewrite Ha).
      split; [by exists a|]. rewrite Hx. split; [done|]. destruct Hphase as [[Hb Hc]|Hafter]; [left|right]. 
      + split; [split; [by rewrite <- Hx|done]|]. by apply holds_old_file.
      + split; [by rewrite <- Hx|done]. }
  apply (wp_credential (RT := relay_rotates org m bootstrapToken st json_size x) _ _ x Parse allowedHTTPHost "" server tokenFile "" 0) in Hpre.
  set (w2 := (rotate_in_place w1).1).
  assert (fresh (RT := relay_rotates org m bootstrapToken st json_size x) _ _ x "" tokenFile "" w2 ∨
          over (RT := relay_rotates org m bootstrapToken st json_size x) _ _ x "" tokenFile "" w2) as Hpost.
  { unfold w2. revert Hpre. unfold wp, rotate_in_place. destruct (credentialCommand _ _ _ _ _ _ _ _ _ w1) as [w3 [e|path]]; [done|]. intros [_ Hc]. by right; right. }
  clearbody w2. clear Hpre. destruct Hpost as [(Hno & Hold & _ & Hb)|[((a & Ha & Hx) & Hm & Hphase)|(Hnone & (c & Hc & Hh) & _ & Hafter)]].
  - left. split; [done|]. apply holds_old_file in Hold as (c & Hc & Hh). exists c. rewrite Hh. split; [done|apply Hb].
  - right. exists a. rewrite Hx. split; [done|]. rewrite <- Hx in Hm. split; [done|].
    destruct Hphase as [[[_ Hb] Hold]|[_ Hafter]]; [left|by right]. split; [done|]. apply holds_old_file in Hold. by rewrite <- Hx in Hold.
  - left. split; [intros a; by rewrite Hnone|]. exists c. rewrite Hh. split; [done|apply Hafter].
Qed.

(** C14. A credential is never lost.  An administrator keeps a credential in a
    file and rotates it in place: any number of runs, each stopped anywhere or
    to its end, with any operation of the system refused or half done, any
    request or answer lost, over Redis and among other clients that leave the
    rotation to this command.  At every point one of the two files, the
    credential's and the attempt's, holds a token that the relay holds as the
    administrator's. *)
Theorem credential_never_lost w w' : settled w ∨ under_way w → rtc round w w' →
  ∃ token, on_disk (cl_files w') token ∧ live org m (Hash token) (redis_of w').
Proof.
  intros Hw Hrounds. assert (settled w' ∨ under_way w') as Hend.
  { revert Hw. induction Hrounds as [|w1 w2 w3 Hr _ IH]; [done|]. intros Hw. apply IH. by eapply round_keeps. }
  destruct Hend as [(_ & c & Hc & Hl)|(a & Ha & _ & [[(Hl & _) (c & Hc & Hh)]|(_ & Hl)])].
  - exists (trim_space (content_text c)). rewrite Hash_trim. split; [left; eauto|done].
  - exists (trim_space (content_text c)). rewrite Hash_trim, Hh. split; [left; eauto|exact Hl].
  - exists (ra_NewAdminToken a). split; [right; eauto|exact Hl].
Qed.
End rounds.

(** ** A repeated run completes *)

Section recovery.
Context {St : Type} `{UT : UnicodeTables}.
Variables (Do : http_request → M St () response) (json_size : input → Z).
Variables (Parse : string → option (Address.URL * string)) (allowedHTTPHost server tokenFile : string).
Implicit Types w : cli St.
Abbreviation token_path := (trim_space tokenFile).
Abbreviation attempt_path := (rotationAttemptPath (destination tokenFile "")).
Abbreviation run := (credentialCommand Parse allowedHTTPHost Do json_size "" server tokenFile "" 0).

(** Nothing goes wrong. *)
Lemma read_fine path w : cl_fates w = [] → read_path path w = (w, inr (match cl_files w !! path with Some c => Found c | None => NotExist end)).
Proof. destruct w as [files fates random draws rel]. cbn. by intros ->. Qed.
Lemma operation_fine effect w : cl_fates w = [] →
  operation effect w = (mkCli (effect Fully (cl_files w)) [] (cl_random w) (cl_draws w) (cl_relay w), inr true).
Proof. destruct w as [files fates random draws rel]. cbn. by intros ->. Qed.
Lemma look_fine w : cl_fates w = [] → look w = (w, inr true).
Proof. destruct w as [files fates random draws rel]. cbn. by intros ->. Qed.
Lemma ensure_fine path w : cl_fates w = [] → trim_space path ≠ "" → ensurePrivateOutputDirectory path w = (w, inr ()).
Proof. intros Hf Hp. unfold ensurePrivateOutputDirectory, mbind, M_bind. rewrite bool_decide_false by done. cbn. by rewrite look_fine. Qed.
Lemma exchange_fine r w : cl_fates w = [] →
  exchange Do r w = let (s, o) := Do r (cl_relay w) in
    (mkCli (cl_files w) [] (cl_random w) (cl_draws w) s, match o with inr resp => inr resp | inl _ => inl (Relay Client.CallFailed) end).
Proof. destruct w as [files fates random draws rel]. cbn. intros ->. unfold exchange, mbind, M_bind. cbn. by destruct (Do r rel) as [s [u|resp]]. Qed.

(** A confirmation *)
Definition confirms (resp : response) : Prop :=
  succeeded resp = true ∧ (rs_Status resp = 204 ∨ ∃ v, rs_Reply resp = ReplyRotated v).
Definition refuses_token (resp : response) : Prop := rs_Status resp = 401.
Lemma request_confirmed c a w s resp : cl_fates w = [] →
  Do (rotation_request json_size (rotation_of a) c) (cl_relay w) = (s, inr resp) → confirms resp →
  ∃ v, request Do json_size RotateAdminCredentialResult c POST rotate_path [] (Some (rotate_input a)) w =
    (mkCli (cl_files w) [] (cl_random w) (cl_draws w) s, inr v).
Proof.
  intros Hf Hdo [Hs Hc]. unfold request, mbind, M_bind. change (api_request json_size c POST rotate_path [] (Some (rotate_input a))) with (rotation_request json_size (rotation_of a) c).
  rewrite exchange_fine, Hdo by done. rewrite Hs. cbn [negb]. destruct Hc as [->|[v Hv]]; [by eexists|]. case_match; [by eexists|]. rewrite Hv. by eexists.
Qed.
Lemma request_refused c a w s resp : cl_fates w = [] →
  Do (rotation_request json_size (rotation_of a) c) (cl_relay w) = (s, inr resp) → refuses_token resp →
  ∃ e, isUnauthorizedResponse e = true ∧ request Do json_size RotateAdminCredentialResult c POST rotate_path [] (Some (rotate_input a)) w =
    (mkCli (cl_files w) [] (cl_random w) (cl_draws w) s, inl e).
Proof.
  intros Hf Hdo Hs. unfold request, mbind, M_bind. change (api_request json_size c POST rotate_path [] (Some (rotate_input a))) with (rotation_request json_size (rotation_of a) c).
  rewrite exchange_fine, Hdo by done. unfold succeeded. rewrite Hs. eexists. split; [|done]. unfold isUnauthorizedResponse, apiError. by rewrite Hs.
Qed.

(** What is found on disk, and the files at the end *)
Record interrupted (w : cli St) (c : content) (a : rotationAttempt) (client recoveryClient : apiClient) : Prop := mkInterrupted {
  in_fine : cl_fates w = [];
  in_path : token_path ≠ "";
  in_token : cl_files w !! token_path = Some c;
  in_attempt : cl_files w !! attempt_path = Some (RotationDoc a);
  in_kind : Kind (content_text c) = Some TokenAdmin;
  in_hash : Hash (content_text c) = ra_SourceTokenHash a ∨ Hash (content_text c) = Hash (ra_NewAdminToken a);
  in_client : newAPIClient Parse allowedHTTPHost server (trim_space (content_text c)) = inr client;
  in_recovery : newAPIClient Parse allowedHTTPHost (ap_baseURL client) (ra_NewAdminToken a) = inr recoveryClient;
  in_version : ra_Version a = recoveryVersion;
  in_server : ra_ServerURL a = ap_baseURL client;
  in_new : Kind (ra_NewAdminToken a) = Some TokenAdmin;
  in_key : validRecoveryID (ra_IdempotencyKey a) "tr_rotate_" = true }.
Definition replaced (c : content) (a : rotationAttempt) (files : gmap string content) : gmap string content :=
  delete attempt_path (if Equal (content_text c) (ra_NewAdminToken a) then files else <[token_path := Text (ra_NewAdminToken a +:+ newline)]> files).

Section interrupted.
Variables (w : cli St) (c : content) (a : rotationAttempt) (client recoveryClient : apiClient).
Hypothesis Hin : interrupted w c a client recoveryClient.

Lemma Hash_Equal s t : Hash s = Hash t → Equal s t = true.
Proof. unfold Hash, Equal, sha256_hex. intros Heq%hex_encode_inj. by apply bool_decide_eq_true. Qed.
Lemma pass_guard {A} b e (k : () → M (cli St) cli_error A) w1 : b = false → (reject_if b e ≫= k) w1 = k () w1.
Proof. by intros ->. Qed.
Lemma client_found : adminClient Parse allowedHTTPHost "" server tokenFile w = (w, inr client).
Proof.
  destruct Hin. unfold adminClient.
  assert (readCredential tokenFile "" w = (w, inr (trim_space (content_text c)))) as Hread.
  { unfold readCredential. rewrite pass_guard by by rewrite (bool_decide_true (trim_space "" = "")), andb_false_r.
    rewrite bool_decide_false by done. erewrite bind_run by by apply read_fine. rewrite in_token0.
    rewrite pass_guard; [done|]. apply bool_decide_eq_false. intros He. apply Kind_visible in in_kind0. cbv zeta in in_kind0. rewrite He in in_kind0. naive_solver. }
  erewrite bind_run by done. rewrite pass_guard; [|by rewrite Kind_trim, in_kind0, bool_decide_true].
  unfold lift. by rewrite in_client0.
Qed.
Lemma attempt_found : prepareRotationAttempt token_path (ap_baseURL client) (ap_token client) w = (w, inr a).
Proof.
  destruct Hin. assert (ap_token client = trim_space (content_text c)) as Ht by (by rewrite (newAPIClient_token _ _ _ _ _ in_client0), trim_space_idem).
  unfold prepareRotationAttempt. cbv zeta. erewrite bind_run by (apply ensure_fine; [done|by rewrite !trim_space_idem]).
  erewrite bind_run by by apply read_fine. rewrite !trim_space_idem.
  change (rotationAttemptPath token_path) with attempt_path. rewrite in_attempt0.
  rewrite pass_guard.
  - erewrite bind_run; [done|]. unfold ensureRotationTokenMatchesOrAbsent. erewrite bind_run by by apply read_fine. rewrite in_token0.
    erewrite bind_run by by apply read_fine. rewrite in_token0. unfold reject_if. destruct in_hash0 as [->|Hh].
    + by rewrite bool_decide_true, andb_false_r.
    + by rewrite (Hash_Equal _ _ Hh).
  - unfold validRecoveryToken. rewrite Ht, Hash_trim, !orb_false_iff, andb_false_iff, !negb_false_iff, !bool_decide_eq_true, Z.eqb_eq. by split_and!.
Qed.
Lemma finalize_fine (s : St) : let w1 := mkCli (cl_files w) [] (cl_random w) (cl_draws w) s in
  finalizeAdminToken token_path attempt_path (ra_NewAdminToken a) (ra_SourceTokenHash a) w1 =
  (mkCli (replaced c a (cl_files w)) [] (cl_random w) (cl_draws w) s, inr ()).
Proof.
  destruct Hin. intros w1. unfold finalizeAdminToken. erewrite bind_run by (apply ensure_fine; [done|by rewrite trim_space_idem]).
  erewrite bind_run by by apply read_fine. cbn [cl_files w1]. rewrite in_token0.
  assert (∀ files, (Remove attempt_path ≫= λ removed, reject_if (negb removed) AttemptRemove ≫= λ _, look ≫= λ synced, reject_if (negb synced) DirectorySync)
    (mkCli files [] (cl_random w) (cl_draws w) s) = (mkCli (delete attempt_path files) [] (cl_random w) (cl_draws w) s, inr ())) as Hrest by done.
  unfold replaced. destruct (Equal (content_text c) (ra_NewAdminToken a)) eqn:Heq.
  - erewrite bind_run; [apply Hrest|]. erewrite bind_run by by apply read_fine. cbn [cl_files w1]. rewrite in_token0. by rewrite Heq.
  - erewrite bind_run; [apply Hrest|]. erewrite bind_run by by apply read_fine. cbn [cl_files w1]. rewrite in_token0. rewrite Heq. rewrite pass_guard; [done|].
    assert (Hash (content_text c) = ra_SourceTokenHash a) as Hh by (destruct in_hash0 as [?|Hh]; [done|]; by rewrite (Hash_Equal _ _ Hh) in Heq).
    rewrite Hh, bool_decide_false, bool_decide_true; [done|done|]. rewrite <- Hh. unfold Hash. intros He%(f_equal String.length). by rewrite length_sha256_hex in He.
Qed.
End interrupted.

(** C15. A repeated run completes.  Where a rotation was interrupted, with the
    old credential in the file or the new one, the command repeated without
    further trouble sends the request of the attempt again, first with the
    credential of the file and, if the relay refuses that one as no longer
    its own, with the new one; and when the relay confirms it to either, the
    file holds the new credential and the attempt is gone. *)
Theorem rotation_recovers w c a client recoveryClient : interrupted w c a client recoveryClient →
  let req := rotation_request json_size (rotation_of a) in
  let finished s := (mkCli (replaced c a (cl_files w)) [] (cl_random w) (cl_draws w) s, inr token_path) in
  (∀ s resp, Do (req client) (cl_relay w) = (s, inr resp) → confirms resp → run w = finished s) ∧
  (∀ s resp s' resp', Do (req client) (cl_relay w) = (s, inr resp) → refuses_token resp →
     Hash (content_text c) ≠ Hash (ra_NewAdminToken a) →
     Do (req recoveryClient) s = (s', inr resp') → confirms resp' → run w = finished s').
Proof.
  intros Hin req finished. pose proof Hin as Hin'. destruct Hin'.
  assert (ap_token client = trim_space (content_text c)) as Ht by (by rewrite (newAPIClient_token _ _ _ _ _ in_client0), trim_space_idem).
  assert (run w = (first ← attempt (request Do json_size RotateAdminCredentialResult client POST rotate_path [] (Some (rotate_input a)));
    match first with
    | inl e => if isUnauthorizedResponse e && negb (Equal (ap_token client) (ra_NewAdminToken a)) then
        c2 ← lift (newAPIClient Parse allowedHTTPHost (ap_baseURL client) (ra_NewAdminToken a));
        request Do json_size RotateAdminCredentialResult c2 POST rotate_path [] (Some (rotate_input a)) else throw e
    | inr r => mret r
    end ≫= λ _, finalizeAdminToken token_path attempt_path (ra_NewAdminToken a) (ra_SourceTokenHash a) ≫= λ _, mret token_path) w) as Hrun.
  { unfold credentialCommand. rewrite pass_guard by by rewrite bool_decide_true. erewrite bind_run by by apply (client_found w c a client recoveryClient).
    cbv zeta. rewrite (bool_decide_true (trim_space "" = "")) by done. rewrite pass_guard by by apply bool_decide_eq_false.
    erewrite bind_run by by apply (attempt_found w c a client recoveryClient). done. }
  split.
  - intros s resp Hdo Hc. destruct (request_confirmed client a w s resp in_fine0 Hdo Hc) as [v Hv]. rewrite Hrun.
    erewrite bind_run by (unfold attempt; rewrite Hv; reflexivity). erewrite bind_run by reflexivity.
    by erewrite bind_run by by apply (finalize_fine w c a client recoveryClient).
  - intros s resp s' resp' Hdo Hr Hne Hdo2 Hc. destruct (request_refused client a w s resp in_fine0 Hdo Hr) as (e & He & Hv). rewrite Hrun.
    erewrite bind_run by (unfold attempt; rewrite Hv; reflexivity). cbn beta iota. rewrite He. cbn [andb].
    assert (Equal (ap_token client) (ra_NewAdminToken a) = false) as ->.
    { apply not_true_iff_false. intros Heq. apply Hne. rewrite <- (Hash_trim (content_text c)), <- Ht. unfold Equal in Heq. orb_split. unfold Hash, sha256_hex. by rewrite Heq. }
    cbn [negb]. rewrite in_recovery0.
    destruct (request_confirmed recoveryClient a (mkCli (cl_files w) [] (cl_random w) (cl_draws w) s) s' resp' eq_refl Hdo2 Hc) as [v Hv2].
    erewrite bind_run by (erewrite bind_run by reflexivity; exact Hv2). cbn [cl_files cl_random cl_draws].
    by erewrite bind_run by by apply (finalize_fine w c a client recoveryClient).
Qed.
End recovery.

(** ** At concrete inputs *)

Section sample.
#[local] Existing Instance ascii_tables.

Definition sample_url : Address.URL := Address.mkURL "http" "127.0.0.1:8080" "127.0.0.1" false "" "" false "".
Definition sample_parse (s : string) : option (Address.URL * string) := Some (sample_url, "http://127.0.0.1:8080").
Definition sample_stream : CollabHttp.stream := CollabHttp.mkStream true [] [].
Definition small_body (_ : input) : Z := 100.
Definition random_bytes (n : nat) : option string := Some (test_rand (200 + n) +:+ test_rand n).
(** The administrator of a relay, with the credential in a file *)
Definition rotating : cli (relay memdb) :=
  mkCli {["admin.token" := Text (AdminWitness.admin_token +:+ newline)]} [] random_bytes 0
    (mkRelay AdminWitness.a_bootstrapped Hub.NewHub []).
Definition rotate_sample : M (cli (relay memdb)) cli_error string :=
  rotate_in_place "" sample_stream small_body sample_parse "" "http://127.0.0.1:8080" "admin.token".
(** The relay does the rotation, and the command does not live to hear of it;
    then it is run again, and cannot write; then again. *)
Definition stopped : list fate := [Fine; Fine; Fine; Fine; Fault Fully true].
Definition unwritable : list fate := [Fine; Fine; Fine; Fine; Fine; Fine; Fine; Fine; Fine; Fine; Fault NotAtAll false].
Definition after_stop : cli (relay memdb) := (rotate_sample (refate stopped [] rotating)).1.
Definition after_retry : cli (relay memdb) := (rotate_sample (refate unwritable [] after_stop)).1.

Definition org_of : string := Eval vm_compute in p_OrganizationID AdminWitness.root.
Definition member_of : string := Eval vm_compute in p_MemberID AdminWitness.root.
Lemma random_length (n : nat) r : random_bytes n = Some r → String.length r = 32%nat.
Proof. by intros [= <-]. Qed.
Lemma rotating_settled : settled org_of member_of "admin.token" rotating.
Proof.
  split; [intros a; discriminate|]. exists (Text (AdminWitness.admin_token +:+ newline)). split; [reflexivity|].
  exists (mkCredential TokenAdmin org_of member_of "" (test_clock 0)). split; [vm_compute; reflexivity|done].
Qed.
Abbreviation sample_round := (round org_of member_of "" sample_stream small_body sample_parse "" "http://127.0.0.1:8080" "admin.token").
Lemma stopped_round : sample_round rotating after_stop.
Proof.
  exists stopped, []. split; [exact random_length|]. split; [apply Forall_nil_2|]. split; [|reflexivity].
  intros _. split; [intros c Hc; vm_compute in Hc; discriminate Hc|vm_compute; reflexivity].
Qed.
Lemma retried_round : sample_round after_stop after_retry.
Proof.
  exists unwritable, []. split; [exact random_length|]. split; [apply Forall_nil_2|]. split; [|reflexivity].
  intros Hno. exfalso. assert (∃ a, cl_files after_stop !! rotationAttemptPath (destination "admin.token" "") = Some (RotationDoc a)) as [a Ha]
    by (eexists; vm_compute; reflexivity). exact (Hno a Ha).
Qed.
Lemma credential_never_lost_witness :
  (rotate_sample (refate stopped [] rotating)).2 = inl Died ∧ (rotate_sample (refate unwritable [] after_stop)).2 = inl DestinationWrite ∧
  ∃ token, on_disk "admin.token" (cl_files after_retry) token ∧ live org_of member_of (Hash token) (redis_of after_retry).
Proof.
  split; [vm_compute; reflexivity|]. split; [vm_compute; reflexivity|].
  apply (credential_never_lost org_of member_of "" sample_stream small_body sample_parse "" "http://127.0.0.1:8080" "admin.token" ltac:(discriminate) rotating after_retry).
  - left. exact rotating_settled.
  - eapply rtc_l; [exact stopped_round|]. eapply rtc_l; [exact retried_round|]. apply rtc_refl.
Defined.

(** The third run, which is left alone: refused with the old credential, it
    is confirmed with the new one. *)
Definition quiet_retry : cli (relay memdb) := refate [] [] after_retry.
Definition sample_attempt : rotationAttempt := Eval vm_compute in
  match cl_files quiet_retry !! rotationAttemptPath "admin.token" with Some (RotationDoc a) => a | _ => mkRotationAttempt 0 "" "" "" "" end.
Definition old_file : content := Text (AdminWitness.admin_token +:+ newline).
Definition old_client : apiClient := mkApiClient "http://127.0.0.1:8080" [] AdminWitness.admin_token.
Definition new_client : apiClient := mkApiClient "http://127.0.0.1:8080" [] (ra_NewAdminToken sample_attempt).
Definition sample_do : http_request → M (relay memdb) () response := Client.Loopback "" sample_stream.
Definition no_response : response := mkResponse 0 ∅ ReplyEmpty.
Definition refused_call : relay memdb * (() + response) := sample_do (rotation_request small_body (rotation_of sample_attempt) old_client) (cl_relay quiet_retry).
Definition confirmed_call : relay memdb * (() + response) := sample_do (rotation_request small_body (rotation_of sample_attempt) new_client) refused_call.1.
Definition answered (x : relay memdb * (() + response)) : response := match x.2 with inr r => r | inl _ => no_response end.
Lemma answered_pair x : rs_Status (answered x) ≠ 0 → x = (x.1, inr (answered x)).
Proof. destruct x as [s [u|r]]; [by intros []|done]. Qed.
Lemma rotation_recovers_witness :
  rs_Status (answered refused_call) = 401 ∧ rs_Status (answered confirmed_call) = 201 ∧
  rotate_sample quiet_retry = (mkCli (replaced "admin.token" old_file sample_attempt (cl_files quiet_retry)) [] random_bytes (cl_draws quiet_retry) confirmed_call.1, inr "admin.token").
Proof.
  split; [vm_compute; reflexivity|]. split; [vm_compute; reflexivity|].
  destruct (rotation_recovers sample_do small_body sample_parse "" "http://127.0.0.1:8080" "admin.token" quiet_retry old_file sample_attempt old_client new_client) as [_ H].
  - split; try (vm_compute; reflexivity); [vm_compute; discriminate|left; vm_compute; reflexivity].
  - apply (H refused_call.1 (answered refused_call) confirmed_call.1 (answered confirmed_call)).
    + apply answered_pair. vm_compute. discriminate.
    + vm_compute. reflexivity.
    + vm_compute. discriminate.
    + apply answered_pair. vm_compute. discriminate.
    + split; [vm_compute; reflexivity|]. right. exists (mkRotateResult (test_clock 10) true). vm_compute. reflexivity.
Defined.

(** A destination with blanks around it: [bootstrap] checks and stages for the
    path without them, and saves at the path with them. *)
Definition confirming : http_request → M () () response := λ _ s,
  (s, inr (mkResponse 201 ∅ (ReplyBootstrapped (mkOrganization "org_1" "Acme" 0) (mkMember "mem_1" "org_1" "Root" "root@acme.test" RoleAdmin StatusActive 0 None)))).
Definition bootstrapping : cli () := mkCli {["boot.token" := Text AdminWitness.admin_token]} [] random_bytes 0 ().
Example bootstrap_saves_untrimmed :
  elements (dom (cl_files (bootstrapCommand sample_parse "" confirming small_body "" "http://127.0.0.1:8080" "boot.token" "Acme" "Root" "root@acme.test" " admin.token" 0 bootstrapping).1)) =
  ["boot.token"; " admin.token"].
Proof. vm_compute. reflexivity. Qed.

(** With a file of its own for the replacement, and a directory that cannot be
    synced at the very end: the attempt is gone, and the same command, which
    is to be repeated, is refused by the relay for good. *)
Definition rotate_elsewhere : M (cli (relay memdb)) cli_error string :=
  credentialCommand sample_parse "" sample_do small_body "" "http://127.0.0.1:8080" "admin.token" "next.token" 0.
Definition unsynced : list fate := [Fine; Fine; Fine; Fine; Fine; Fine; Fine; Fine; Fine; Fault NotAtAll false].
Definition after_unsynced : cli (relay memdb) := (rotate_elsewhere (refate unsynced [] rotating)).1.
Example unsynced_rotation_not_resumed :
  (rotate_elsewhere (refate unsynced [] rotating)).2 = inl DirectorySync ∧
  elements (dom (cl_files after_unsynced)) = ["admin.token"; "next.token"] ∧
  (rotate_elsewhere (refate [] [] after_unsynced)).2 = inl (Relay (Client.RelayError 401 "unauthorized")).
Proof. vm_compute. done. Qed.
End sample.
