(* ===== verification/Setup.v ===== *)
(** * The recipient's configuration, and what is built from it

    [internal/config/config.go] and [receiver/factory.go]: the values a
    configuration file may hold, how they are checked and completed, and the
    runtime, policy and directory that they make.  The YAML decoder is a
    parameter; Go visits a map in any order, so that of several errors any may
    be the one that is given. *)

From S2P Require Import Prelude GoString Sha256 GoStringFacts Protocol Policy LocalStore ReceiverStores Adapters.
From S2P Require Sandbox Binding AdapterContract.
From Stdlib Require Import Ascii ZifyBool.

Local Open Scope Z_scope.

(** ** [Config] *)

Record RelayConfig := mkRelayConfig { rl_URL : string; rl_TokenFile : string }.
Record ReceiverConfig := mkReceiverConfig {
  rx_DisplayName : string; rx_DeviceName : string; rx_Profile : string; rx_MaxConcurrent : Z; rx_RuntimeSecs : Z }.
Record PolicyConfig := mkPolicyConfig {
  pg_Mode : string; pg_Network : string; pg_AllowWrites : option bool; pg_AllowShell : option bool; pg_AllowMCPs : option bool;
  pg_DeniedCommands : list string; pg_AllowedMCPs : list string; pg_DenyNestedRelay : option bool }.
Record ContextConfig := mkContextConfig {
  xg_InheritUserConfig : option bool; xg_InheritProjectInstructions : option bool; xg_InheritSkills : option bool; xg_InheritMCPs : option bool }.
(** A value of the free-form options. *)
Inductive option_value := OptString (s : string) | OptStrings (l : list string) | OptList (l : list option_value) | OptOther.
Record ReceiverProfile := mkProfile {
  pf_Runtime : string; pf_Executable : string; pf_Model : string; pf_WorkDir : string; pf_EnvironmentAllowlist : list string;
  pf_Policy : PolicyConfig; pf_Context : ContextConfig; pf_Options : gmap string option_value }.
Record Config := mkConfig {
  cf_Version : Z; cf_Relay : RelayConfig; cf_Receiver : ReceiverConfig; cf_Profiles : gmap string ReceiverProfile;
  cf_Workspaces : gmap string string; cf_OutboundAttachments : bool }.

(** What is asked of the system. *)
Record surroundings := mkSurroundings {
  sr_Getenv : string → string; sr_UserHomeDir : option string; sr_UserConfigDir : option string; sr_Getwd : option string;
  sr_windows : bool; sr_ReadFile : string → option string; sr_Abs : string → option string }.

Inductive setup_error :=
  | CfgHome | CfgDirectory | CfgRead | CfgParse | CfgVersion | CfgURL | CfgAlias | CfgProfileName | CfgRuntime | CfgEnvironment
  | CfgProfileMissing | CfgToken | SetupWorkDir | SetupPolicy (e : policy_error) | SetupNetwork | SetupNestedRelay | SetupAllowedMCPs
  | SetupContext | SetupRuntime | SetupAdapter (e : adapter_error) | SetupSessions (e : store_error) | SetupConcurrency.

Definition setup_of {E A} (f : E → setup_error) (m : E + A) : setup_error + A := match m with inl e => inl (f e) | inr a => inr a end.

Definition validEnvironmentName (value : string) : bool :=
  let letter r := in_range 97 122 r || in_range 65 90 r || (r =? 95) in
  match runes value with
  | [] => false
  | first :: rest => letter first && forallb (λ r, letter r || in_range 48 57 r) rest
  end.

Section setup.
Context `{UT : UnicodeTables}.
Variable env : surroundings.
(** [yaml.v3] with [KnownFields] *)
Variable yaml : string → option Config.

Definition expandHome (value : string) : setup_error + string :=
  let value := trim_space value in
  if bool_decide (value = "~") || has_prefix value "~/" || (sr_windows env && has_prefix value "~\") then
    match sr_UserHomeDir env with
    | None => inl CfgHome
    | Some home => if bool_decide (value = "~") then inr home else inr (Sandbox.path_Join [home; drop_bytes 2 value])
    end
  else inr value.

(** *** [normalize] *)

Fixpoint normalize_workspaces (workspaces : gmap string string) (l : list (string * string)) : setup_error + gmap string string :=
  match l with
  | [] => inr workspaces
  | (alias, root) :: l' =>
    if bool_decide (trim_space alias = "") || contains_any alias "/\" then inl CfgAlias else
    expanded ← expandHome root;
    normalize_workspaces (<[alias := Sandbox.Clean expanded]> workspaces) l'
  end.
Fixpoint normalize_environment (seen : gset string) (l : list string) : setup_error + list string :=
  match l with
  | [] => inr []
  | variable :: l' =>
    let variable := trim_space variable in
    if negb (validEnvironmentName variable) then inl CfgEnvironment else
    let key := to_upper variable in
    if bool_decide (key ∈ seen) then inl CfgEnvironment else
    rest ← normalize_environment ({[key]} ∪ seen) l';
    mret (variable :: rest)
  end.
Definition normalize_profile (name : string) (p : ReceiverProfile) : setup_error + ReceiverProfile :=
  if bool_decide (trim_space name = "") then inl CfgProfileName else
  if bool_decide (trim_space (pf_Runtime p) = "") then inl CfgRuntime else
  workDir ← (if bool_decide (pf_WorkDir p = "") then inr "" else expanded ← expandHome (pf_WorkDir p); mret (Sandbox.Clean expanded));
  allowlist ← normalize_environment ∅ (pf_EnvironmentAllowlist p);
  mret (mkProfile (pf_Runtime p) (pf_Executable p) (pf_Model p) workDir allowlist (pf_Policy p) (pf_Context p) (pf_Options p)).
Fixpoint normalize_profiles (profiles : gmap string ReceiverProfile) (l : list (string * ReceiverProfile)) : setup_error + gmap string ReceiverProfile :=
  match l with
  | [] => inr profiles
  | (name, p) :: l' =>
    p' ← normalize_profile name p;
    normalize_profiles (<[name := p']> profiles) l'
  end.
Definition or_positive (z default : Z) : Z := if z <=? 0 then default else z.
Definition normalize (c : Config) : setup_error + Config :=
  let version := if cf_Version c =? 0 then 1 else cf_Version c in
  if negb (version =? 1) then inl CfgVersion else
  let override := trim_space (sr_Getenv env "TEAM_RELAY_URL") in
  let url := if bool_decide (override = "") then rl_URL (cf_Relay c) else override in
  if bool_decide (trim_space url = "") then inl CfgURL else
  let r := cf_Receiver c in
  let receiver := mkReceiverConfig (rx_DisplayName r) (rx_DeviceName r) (if bool_decide (rx_Profile r = "") then "default" else rx_Profile r)
    (or_positive (rx_MaxConcurrent r) 1) (or_positive (rx_RuntimeSecs r) 900) in
  workspaces ← normalize_workspaces (cf_Workspaces c) (map_to_list (cf_Workspaces c));
  profiles ← normalize_profiles (cf_Profiles c) (map_to_list (cf_Profiles c));
  if negb (bool_decide (profiles = ∅)) && negb (bool_decide (is_Some (profiles !! rx_Profile receiver))) then inl CfgProfileMissing else
  mret (mkConfig version (mkRelayConfig url (rl_TokenFile (cf_Relay c))) receiver profiles workspaces (cf_OutboundAttachments c)).

Definition DefaultPath : setup_error + string :=
  let override := trim_space (sr_Getenv env "TEAM_RELAY_CONFIG") in
  if negb (bool_decide (override = "")) then expandHome override else
  match sr_UserConfigDir env with None => inl CfgDirectory | Some base => inr (Sandbox.path_Join [base; "team-relay"; "config.yaml"]) end.
Definition Load (path : string) : setup_error + Config :=
  path ← (if bool_decide (trim_space path = "") then DefaultPath else inr path);
  path ← expandHome path;
  match sr_ReadFile env path with
  | None => inl CfgRead
  | Some payload => match yaml payload with None => inl CfgParse | Some cfg => normalize cfg end
  end.
Definition DeviceToken (c : Config) : setup_error + string :=
  let token := trim_space (sr_Getenv env "TEAM_RELAY_DEVICE_TOKEN") in
  if negb (bool_decide (token = "")) then inr token else
  if bool_decide (trim_space (rl_TokenFile (cf_Relay c)) = "") then inl CfgToken else
  path ← expandHome (rl_TokenFile (cf_Relay c));
  match sr_ReadFile env path with
  | None => inl CfgToken
  | Some payload => if bool_decide (trim_space payload = "") then inl CfgToken else inr (trim_space payload)
  end.

(** ** What is built ([factory.go]) *)

Definition policy_mode_of (s : string) : PolicyMode :=
  if bool_decide (s = "read_only") then PolicyReadOnly else if bool_decide (s = "guarded_write") then PolicyGuardedWrite
  else if bool_decide (s = "custom") then PolicyCustom else PolicyModeOther s.
Definition explicitlyFalse (value : option bool) : bool := bool_decide (value = Some false).
(** A permission the configuration may narrow, or set in a custom policy. *)
Definition configured (mode : PolicyMode) (current : bool) (value : option bool) : bool :=
  match value with None => current | Some v => if bool_decide (mode = PolicyCustom) then v else current && v end.
Definition network_setting (current : bool) (value : string) : setup_error + bool :=
  let value := to_lower (trim_space value) in
  if bool_decide (value ∈ [""; "default"; "inherit"]) then inr current
  else if bool_decide (value ∈ ["allow"; "allowed"; "on"; "true"]) then inr true
  else if bool_decide (value ∈ ["deny"; "denied"; "off"; "false"]) then inr false
  else inl SetupNetwork.
Definition policyFromProfile (p : ReceiverProfile) : setup_error + Policy :=
  let pg := pf_Policy p in let xg := pf_Context p in
  let mode := policy_mode_of (trim_space (pg_Mode pg)) in
  let mode := if bool_decide (mode = PolicyModeOther "") then PolicyReadOnly else mode in
  policy ← setup_of SetupPolicy (DefaultPolicy mode);
  network ← network_setting (po_AllowNetwork policy) (pg_Network pg);
  let writes := configured mode (po_AllowWrites policy) (pg_AllowWrites pg) in
  let shell := configured mode (po_AllowShell policy) (pg_AllowShell pg) in
  let mcps := if explicitlyFalse (xg_InheritMCPs xg) then false else configured mode (po_AllowMCPs policy) (pg_AllowMCPs pg) in
  if explicitlyFalse (pg_DenyNestedRelay pg) then inl SetupNestedRelay else
  if bool_decide (0 < length (pg_AllowedMCPs pg))%nat then inl SetupAllowedMCPs else
  if explicitlyFalse (xg_InheritUserConfig xg) || explicitlyFalse (xg_InheritProjectInstructions xg) || explicitlyFalse (xg_InheritSkills xg)
  then inl SetupContext else
  setup_of SetupPolicy (ValidatePolicy (mkPolicy (po_Mode policy) writes shell network mcps (po_DeniedTools policy) (po_DeniedCommands policy ++ pg_DeniedCommands pg))).

Definition stringOption (options : gmap string option_value) (name : string) : string :=
  match options !! name with Some (OptString s) => trim_space s | _ => "" end.
Definition text_items (l : list option_value) : list string :=
  omap (λ v, match v with OptString s => if bool_decide (trim_space s = "") then None else Some s | _ => None end) l.
Definition stringSliceOption (options : gmap string option_value) (name : string) : list string :=
  match options !! name with Some (OptStrings l) => l | Some (OptList l) => text_items l | _ => [] end.

Inductive built := BuiltClaude (a : claude_Adapter) | BuiltCodex (a : codex_Adapter) | BuiltExternal (a : external_Adapter).
Record controller := mkController { bc_adapter : built; bc_slots : Z }.
(** A number of seconds as a [time.Duration], or fifteen minutes. *)
Definition runtime_timeout (seconds : Z) : Z :=
  let timeout := Binding.wrap64 (seconds * 1000000000) in
  if timeout <=? 0 then 15 * 60 * 1000000000 else timeout.
Definition build_adapter (h : host) (profile : ReceiverProfile) (workDir : string) (policy : Policy) (timeout : Z) : setup_error + built :=
  let executable := let e := trim_space (pf_Executable profile) in if bool_decide (e = "auto") then "" else e in
  let args := stringSliceOption (pf_Options profile) "args" in
  let runtime := to_lower (trim_space (pf_Runtime profile)) in
  if bool_decide (runtime = "claude") || bool_decide (runtime = claude_RuntimeID) then
    setup_of SetupAdapter (a ← claude_New h (mkClaudeSetup executable args workDir (pf_Model profile) (pf_EnvironmentAllowlist profile) policy timeout); mret (BuiltClaude a))
  else if bool_decide (runtime = codex_RuntimeID) then
    setup_of SetupAdapter (a ← codex_New h (mkCodexSetup executable args workDir (pf_Model profile) (stringOption (pf_Options profile) "profile")
      (pf_EnvironmentAllowlist profile) policy timeout); mret (BuiltCodex a))
  else if bool_decide (runtime = "external") then
    let id := stringOption (pf_Options profile) "id" in
    setup_of SetupAdapter (a ← external_New h (mkExternalSetup (if bool_decide (id = "") then "external" else id) (stringOption (pf_Options profile) "name")
      executable args workDir (pf_Model profile) (pf_EnvironmentAllowlist profile) policy timeout); mret (BuiltExternal a))
  else inl SetupRuntime.
Definition DefaultStateDir : setup_error + string :=
  let override := trim_space (sr_Getenv env "TEAM_RELAY_STATE_DIR") in
  if negb (bool_decide (override = "")) then match sr_Abs env override with Some a => inr a | None => inl CfgDirectory end else
  match sr_UserConfigDir env with None => inl CfgDirectory | Some base => inr (Sandbox.path_Join [base; "team-relay"]) end.
(** The session store is opened on its file; [directory_ready] says whether
    its directory could be made. *)
Definition BuildController (h : host) (config : Config) (sessionFile : string) (directory_ready : bool) (w : session_world)
    : session_world * (setup_error + controller) :=
  match
    profile ← (match cf_Profiles config !! rx_Profile (cf_Receiver config) with Some p => inr p | None => inl CfgProfileMissing end);
    workDir ← (if bool_decide (pf_WorkDir profile = "") then match sr_Getwd env with Some d => inr d | None => inl SetupWorkDir end else inr (pf_WorkDir profile));
    policy ← policyFromProfile profile;
    adapter ← build_adapter h profile workDir policy (runtime_timeout (rx_RuntimeSecs (cf_Receiver config)));
    path ← (if bool_decide (sessionFile = "") then stateDir ← DefaultStateDir; mret (Sandbox.path_Join [stateDir; "receiver_sessions.json"]) else inr sessionFile);
    mret (adapter, path)
  with
  | inl e => (w, inl e)
  | inr (adapter, path) =>
    let (w', r) := NewFileSessionStore path directory_ready w in
    match r with
    | inl e => (w', inl (SetupSessions e))
    | inr _ =>
      if rx_MaxConcurrent (cf_Receiver config) <=? 0 then (w', inl SetupConcurrency)
      else (w', inr (mkController adapter (rx_MaxConcurrent (cf_Receiver config))))
    end
  end.
End setup.

(** ** What a configuration is, once loaded *)

(** Pass a check that did not fail. *)
Ltac pass H := match goal with |- (if ?b then inl _ else _) = inr _ → _ => destruct b eqn:H; [discriminate|] end.

Section facts.
Context `{UT : UnicodeTables}.
Variable env : surroundings.
Variable yaml : string → option Config.

Definition environment_ok (l : list string) : Prop :=
  Forall (λ v, trim_space v = v ∧ validEnvironmentName v = true) l ∧ NoDup (to_upper <$> l).
Definition workspace_ok (alias root : string) : Prop :=
  trim_space alias ≠ "" ∧ contains_any alias "/\" = false ∧ ∃ r, root = Sandbox.Clean r.
Definition profile_ok (name : string) (p : ReceiverProfile) : Prop :=
  trim_space name ≠ "" ∧ trim_space (pf_Runtime p) ≠ "" ∧ (pf_WorkDir p = "" ∨ ∃ r, pf_WorkDir p = Sandbox.Clean r) ∧
  environment_ok (pf_EnvironmentAllowlist p).
Definition config_ok (c : Config) : Prop :=
  cf_Version c = 1 ∧ trim_space (rl_URL (cf_Relay c)) ≠ "" ∧ rx_Profile (cf_Receiver c) ≠ "" ∧
  1 <= rx_MaxConcurrent (cf_Receiver c) ∧ 1 <= rx_RuntimeSecs (cf_Receiver c) ∧
  map_Forall workspace_ok (cf_Workspaces c) ∧ map_Forall profile_ok (cf_Profiles c) ∧
  (cf_Profiles c ≠ ∅ → is_Some (cf_Profiles c !! rx_Profile (cf_Receiver c))).

Lemma normalize_environment_ok l : ∀ seen r, normalize_environment seen l = inr r →
  environment_ok r ∧ Forall (λ v, to_upper v ∉ seen) r.
Proof.
  induction l as [|v l IH]; intros seen r; cbn [normalize_environment]; [intros [= <-]; repeat constructor|].
  destruct (negb (validEnvironmentName (trim_space v))) eqn:Hv; [done|]. destruct (bool_decide _) eqn:Hs; [done|].
  destruct (normalize_environment _ l) as [e|rest] eqn:Hl; [done|]. intros [= <-]. apply IH in Hl as [[Hall Hdup] Hseen]. orb_split.
  rewrite Forall_forall in Hseen. split; [split|].
  - constructor; [|done]. by rewrite trim_space_idem.
  - rewrite fmap_cons. constructor; [|done]. intros (x & Hx & Hin)%list_elem_of_fmap. apply (Hseen x Hin). rewrite <- Hx. set_solver.
  - constructor; [done|]. apply Forall_forall. intros x Hx Hin. apply (Hseen x Hx). set_solver.
Qed.
Lemma normalize_workspaces_ok l : ∀ acc r, (∀ a root, acc !! a = Some root → a ∉ l.*1 → workspace_ok a root) →
  normalize_workspaces env acc l = inr r → map_Forall workspace_ok r.
Proof.
  induction l as [|[a root] l IH]; intros acc r Hacc; cbn [normalize_workspaces].
  { intros [= <-] b x Hb. apply (Hacc b x Hb). apply not_elem_of_nil. }
  destruct (_ || _) eqn:Hor; [done|]. destruct (expandHome env root) as [e|x]; [done|]. apply IH. orb_split.
  intros b y Hb Hn. apply lookup_insert_Some in Hb as [[<- <-]|[Hne Hb]]; [split_and!; [done|done|by eexists]|]. apply (Hacc b y Hb). set_solver.
Qed.
Lemma normalize_profile_ok name p p' : normalize_profile env name p = inr p' → profile_ok name p'.
Proof.
  unfold normalize_profile. destruct (bool_decide (trim_space name = "")) eqn:H1; [done|]. destruct (bool_decide (trim_space (pf_Runtime p) = "")) eqn:H2; [done|].
  assert (∀ r, (if bool_decide (pf_WorkDir p = "") then inr "" else expanded ← expandHome env (pf_WorkDir p); mret (Sandbox.Clean expanded)) = inr r →
    r = "" ∨ ∃ q, r = Sandbox.Clean q) as Hdir.
  { intros r. destruct (bool_decide (pf_WorkDir p = "")); [intros H; injection H as <-; by left|]. destruct (expandHome env _) as [|x]; [done|].
    intros H. injection H as <-. right. by eexists. }
  destruct (if bool_decide (pf_WorkDir p = "") then _ else _) as [e|dir]; [done|]. cbn [mbind sum_bind].
  destruct (normalize_environment ∅ _) as [e|l] eqn:Hl; [done|]. intros [= <-]. apply normalize_environment_ok in Hl as [Hl _]. orb_split.
  unfold profile_ok. cbn. split_and!; [done|done|by apply Hdir|done].
Qed.
Lemma normalize_profiles_ok l : ∀ acc r, (∀ n p, acc !! n = Some p → n ∉ l.*1 → profile_ok n p) →
  normalize_profiles env acc l = inr r → map_Forall profile_ok r.
Proof.
  induction l as [|[n p] l IH]; intros acc r Hacc; cbn [normalize_profiles].
  { intros [= <-] b x Hb. apply (Hacc b x Hb). apply not_elem_of_nil. }
  destruct (normalize_profile env n p) as [e|p'] eqn:Hp; [done|]. apply normalize_profile_ok in Hp. apply IH.
  intros b y Hb Hn. apply lookup_insert_Some in Hb as [[<- <-]|[Hne Hb]]; [done|]. apply (Hacc b y Hb). set_solver.
Qed.
Lemma listed_key {A} (m : gmap string A) k x : m !! k = Some x → k ∉ (map_to_list m).*1 → False.
Proof. intros Hk Hn. apply Hn, list_elem_of_fmap. exists (k, x). split; [done|]. by apply elem_of_map_to_list. Qed.
Lemma or_positive_ok z default : 1 <= default → 1 <= or_positive z default.
Proof. unfold or_positive. destruct (z <=? 0) eqn:H; lia. Qed.
Lemma normalize_ok c c' : normalize env c = inr c' → config_ok c'.
Proof.
  unfold normalize. cbv zeta. pass H1. pass H2.
  destruct (normalize_workspaces _ _ _) as [e|workspaces] eqn:Hw; [done|]. destruct (normalize_profiles _ _ _) as [e|profiles] eqn:Hp; [done|].
  cbn [mbind sum_bind]. pass H3. intros H; injection H as <-. orb_split.
  unfold config_ok. cbn [cf_Version cf_Relay cf_Receiver cf_Profiles cf_Workspaces rl_URL rx_Profile rx_MaxConcurrent rx_RuntimeSecs] in *.
  split_and!; [lia|done| |by apply or_positive_ok|by apply or_positive_ok| | |].
  - destruct (bool_decide (rx_Profile (cf_Receiver c) = "")) eqn:E; [done|by apply bool_decide_eq_false in E].
  - eapply normalize_workspaces_ok; [|exact Hw]. intros. exfalso. by eapply listed_key.
  - eapply normalize_profiles_ok; [|exact Hp]. intros. exfalso. by eapply listed_key.
  - intros Hne. apply andb_false_iff in H3 as [H3|H3]; [by rewrite negb_false_iff, bool_decide_eq_true in H3|].
    by rewrite negb_false_iff, bool_decide_eq_true in H3.
Qed.
Lemma load_ok path c : Load env yaml path = inr c → config_ok c.
Proof.
  unfold Load. destruct (if bool_decide _ then _ else _) as [e|p]; [done|]. cbn [mbind sum_bind]. destruct (expandHome env p) as [e|q]; [done|].
  cbn [mbind sum_bind]. destruct (sr_ReadFile env q) as [payload|]; [|done]. destruct (yaml payload) as [cfg|]; [|done]. apply normalize_ok.
Qed.
End facts.

(** ** What is built *)

Section building.
Context `{UT : UnicodeTables}.

(** When the policy of a profile allows something. *)
Definition profile_mode (p : ReceiverProfile) : PolicyMode :=
  let mode := policy_mode_of (trim_space (pg_Mode (pf_Policy p))) in if bool_decide (mode = PolicyModeOther "") then PolicyReadOnly else mode.
Definition granted (mode : PolicyMode) (value : option bool) : Prop :=
  mode = PolicyGuardedWrite ∧ value ≠ Some false ∨ mode = PolicyCustom ∧ value = Some true.
Definition network_word (p : ReceiverProfile) : string := to_lower (trim_space (pg_Network (pf_Policy p))).
Definition policy_of (p : ReceiverProfile) (q : Policy) : Prop :=
  po_Mode q = profile_mode p ∧ ValidatePolicy q = inr q ∧
  (po_AllowWrites q = true ↔ granted (profile_mode p) (pg_AllowWrites (pf_Policy p))) ∧
  (po_AllowShell q = true ↔ granted (profile_mode p) (pg_AllowShell (pf_Policy p))) ∧
  (po_AllowMCPs q = true ↔ granted (profile_mode p) (pg_AllowMCPs (pf_Policy p)) ∧ xg_InheritMCPs (pf_Context p) ≠ Some false) ∧
  (po_AllowNetwork q = true ↔ network_word p ∈ ["allow"; "allowed"; "on"; "true"] ∨
     network_word p ∈ [""; "default"; "inherit"] ∧ profile_mode p = PolicyGuardedWrite) ∧
  "team-relay" ∈ po_DeniedTools q ∧
  (∀ command, trim_space command ≠ "" → command ∈ baselineDeniedCommands ++ pg_DeniedCommands (pf_Policy p) → trim_space command ∈ po_DeniedCommands q) ∧
  pg_DenyNestedRelay (pf_Policy p) ≠ Some false ∧ pg_AllowedMCPs (pf_Policy p) = [] ∧
  xg_InheritUserConfig (pf_Context p) ≠ Some false ∧ xg_InheritProjectInstructions (pf_Context p) ≠ Some false ∧ xg_InheritSkills (pf_Context p) ≠ Some false.

Lemma explicitly_false v : explicitlyFalse v = false ↔ v ≠ Some false.
Proof. unfold explicitlyFalse. by rewrite bool_decide_eq_false. Qed.
Lemma network_setting_spec current value b : network_setting current value = inr b →
  b = true ↔ to_lower (trim_space value) ∈ ["allow"; "allowed"; "on"; "true"] ∨
    to_lower (trim_space value) ∈ [""; "default"; "inherit"] ∧ current = true.
Proof.
  unfold network_setting. cbv zeta. generalize (to_lower (trim_space value)) as v. intros v.
  assert (v ∈ [""; "default"; "inherit"] → v ∉ ["allow"; "allowed"; "on"; "true"]) as Hdis by (intros H; set_unfold in H; intros H2; set_unfold in H2; naive_solver).
  destruct (bool_decide_reflect (v ∈ [""; "default"; "inherit"])) as [H1|H1]; [intros [= <-]; specialize (Hdis H1); tauto|].
  destruct (bool_decide_reflect (v ∈ ["allow"; "allowed"; "on"; "true"])) as [H2|H2]; [intros [= <-]; tauto|].
  case_bool_decide; [|done]. intros [= <-]. split; [done|tauto].
Qed.
(** The permissions a mode starts with. *)
Lemma default_policy_mode mode q : DefaultPolicy mode = inr q → po_Mode q = mode ∧ known_mode mode = true ∧
  let all := bool_decide (mode = PolicyGuardedWrite) in
  po_AllowWrites q = all ∧ po_AllowShell q = all ∧ po_AllowNetwork q = all ∧ po_AllowMCPs q = all.
Proof. by destruct mode; [intros [= <-]; vm_compute..|]. Qed.
Lemma configured_granted mode v : known_mode mode = true →
  configured mode (bool_decide (mode = PolicyGuardedWrite)) v && negb (bool_decide (mode = PolicyReadOnly)) = true ↔ granted mode v.
Proof.
  intros Hk. unfold configured, granted. destruct mode; try done; destruct v as [[]|]; cbn; repeat (rewrite bool_decide_true by done || rewrite bool_decide_false by done); cbn; naive_solver.
Qed.
Lemma policy_from_profile p q : policyFromProfile p = inr q → policy_of p q.
Proof.
  unfold policyFromProfile. cbv zeta. change (if bool_decide (policy_mode_of _ = PolicyModeOther "") then _ else _) with (profile_mode p).
  destruct (DefaultPolicy (profile_mode p)) as [e|base] eqn:Hbase; [done|]. apply default_policy_mode in Hbase as (Hmode & Hk & Hw & Hs & Hn & Hm). cbn [setup_of mbind sum_bind].
  destruct (network_setting _ _) as [e|network] eqn:Hnet; [done|]. apply network_setting_spec in Hnet. cbn [mbind sum_bind]. pass H1. pass H2. pass H3.
  destruct (ValidatePolicy _) as [e|q'] eqn:Hv; [done|]. intros H. injection H as <-. pose proof (validate_policy_idem _ _ Hv) as Hidem.
  destruct (baseline_denied _ _ Hv) as [Hrelay _]. rewrite validate_policy_eq in Hv. cbn [po_Mode] in Hv. rewrite Hmode, Hk in Hv. injection Hv as <-.
  unfold normalizePolicy in *. cbn [po_Mode po_AllowWrites po_AllowShell po_AllowNetwork po_AllowMCPs po_DeniedTools po_DeniedCommands] in *.
  rewrite !orb_false_iff, !explicitly_false in *. destruct H3 as ((HU & HP) & HS).
  unfold policy_of. cbn [po_Mode po_AllowWrites po_AllowShell po_AllowNetwork po_AllowMCPs po_DeniedTools po_DeniedCommands].
  split_and!; try done.
  - rewrite Hw. by apply configured_granted.
  - rewrite Hs. by apply configured_granted.
  - rewrite Hm. destruct (explicitlyFalse (xg_InheritMCPs (pf_Context p))) eqn:Hi.
    + split; [done|]. intros [_ Hne]. by apply explicitly_false in Hne; rewrite Hi in Hne.
    + rewrite configured_granted by done. apply explicitly_false in Hi. tauto.
  - rewrite Hnet, Hn, bool_decide_eq_true. done.
  - intros command Hne Hin. apply elem_uniqueSorted. split; [done|]. exists command. split; [|done]. rewrite !elem_of_app in *. tauto.
  - apply bool_decide_eq_false in H2. destruct (pg_AllowedMCPs (pf_Policy p)); [done|]. cbn in H2. lia.
Qed.
End building.

Section controller.
Context `{UT : UnicodeTables}.

Definition built_policy (b : built) : Policy := match b with BuiltClaude a => cl_policy a | BuiltCodex a => cd_policy a | BuiltExternal a => xt_policy a end.
Definition built_directory (b : built) : string := match b with BuiltClaude a => cl_workDir a | BuiltCodex a => cd_workDir a | BuiltExternal a => xt_workDir a end.
Definition built_environment (b : built) : list string :=
  match b with BuiltClaude a => cl_environmentAllowlist a | BuiltCodex a => cd_environmentAllowlist a | BuiltExternal a => xt_environmentAllowlist a end.
Definition built_timeout (b : built) : Z := match b with BuiltClaude a => cl_timeout a | BuiltCodex a => cd_timeout a | BuiltExternal a => xt_timeout a end.
Definition built_runtimes (b : built) : list string :=
  match b with BuiltClaude _ => ["claude"; "claude-code"] | BuiltCodex _ => ["codex"] | BuiltExternal _ => ["external"] end.
(** What one profile makes of an adapter. *)
Definition adapter_of (h : host) (p : ReceiverProfile) (directory : string) (q : Policy) (timeout : Z) (b : built) : Prop :=
  to_lower (trim_space (pf_Runtime p)) ∈ built_runtimes b ∧ built_policy b = q ∧ built_environment b = pf_EnvironmentAllowlist p ∧
  ValidateWorkDir h directory = inr (built_directory b) ∧ built_timeout b = timeout.

Lemma build_adapter_of h p directory q timeout b : ValidatePolicy q = inr q → 0 < timeout →
  build_adapter h p directory q timeout = inr b → adapter_of h p directory q timeout b.
Proof.
  intros Hq Ht. unfold build_adapter. cbv zeta. assert (default_timeout timeout = timeout) as Hd.
  { unfold default_timeout. destruct (timeout <=? 0) eqn:H; [lia|done]. }
  destruct (bool_decide (_ = "claude") || _) eqn:H1; [|destruct (bool_decide (_ = codex_RuntimeID)) eqn:H2; [|destruct (bool_decide (_ = "external")) eqn:H3; [|done]]].
  - unfold claude_New. cbn [cg_PrefixArgs cg_WorkDir cg_Policy cg_Executable cg_Model cg_EnvironmentAllowlist cg_Timeout]. rewrite Hq, Hd.
    destruct (validateClaudePrefixArgs _); [done|]. destruct (ValidateWorkDir h directory) as [e|d] eqn:Hdir; [done|]. cbn [mbind sum_bind map_error].
    destruct (validateClaudePolicy _ _); [done|]. intros H. injection H as <-. split; [|done]. cbn.
    apply orb_true_iff in H1 as [->%bool_decide_eq_true| ->%bool_decide_eq_true]; [left|right; left].
  - unfold codex_New. cbn [xg_PrefixArgs xg_WorkDir xg_Policy xg_Executable xg_Model xg_Profile xg_EnvironmentAllowlist xg_Timeout]. rewrite Hq, Hd.
    destruct (ValidateWorkDir h directory) as [e|d] eqn:Hdir; [done|]. cbn [mbind sum_bind map_error]. destruct (fail_if _ _); [done|]. cbn [mbind sum_bind].
    destruct (validateCodexPrefixArgs _); [done|]. intros H. injection H as <-. split; [|done]. cbn. apply bool_decide_eq_true in H2. rewrite H2. left.
  - unfold external_New. cbn [eg_ID eg_Name eg_PrefixArgs eg_WorkDir eg_Policy eg_Executable eg_Model eg_EnvironmentAllowlist eg_Timeout]. rewrite Hq, Hd.
    destruct (fail_if _ ErrRunnerID); [done|]. cbn [mbind sum_bind]. destruct (fail_if _ ErrExecutableRequired); [done|]. cbn [mbind sum_bind].
    destruct (fail_if _ ErrShell); [done|]. cbn [mbind sum_bind]. destruct (ValidateWorkDir h directory) as [e|d] eqn:Hdir; [done|]. cbn [mbind sum_bind map_error].
    intros H. injection H as <-. split; [|done]. cbn. apply bool_decide_eq_true in H3. rewrite H3. left.
Qed.
Lemma runtime_timeout_range seconds : 0 < runtime_timeout seconds < 2 ^ 63 ∧ (1 <= seconds <= 9223372036 → runtime_timeout seconds = seconds * 1000000000).
Proof.
  unfold runtime_timeout, Binding.wrap64. cbv zeta. change (2 ^ 63) with 9223372036854775808. change (2 ^ 64) with 18446744073709551616.
  pose proof (Z.mod_pos_bound (seconds * 1000000000 + 9223372036854775808) 18446744073709551616).
  split.
  - destruct (_ <=? 0) eqn:Hle; lia.
  - intros Hs. rewrite Z.mod_small by lia. destruct (_ <=? 0) eqn:Hle; lia.
Qed.

(** What is built from a configuration: the adapter of the chosen profile. *)
Definition built_from (env : surroundings) (h : host) (c : Config) (k : controller) : Prop :=
  ∃ p q directory timeout, cf_Profiles c !! rx_Profile (cf_Receiver c) = Some p ∧ policy_of p q ∧
    (if bool_decide (pf_WorkDir p = "") then sr_Getwd env = Some directory else directory = pf_WorkDir p) ∧
    adapter_of h p directory q timeout (bc_adapter k) ∧
    0 < timeout < 2 ^ 63 ∧ (1 <= rx_RuntimeSecs (cf_Receiver c) <= 9223372036 → timeout = rx_RuntimeSecs (cf_Receiver c) * 1000000000) ∧
    bc_slots k = rx_MaxConcurrent (cf_Receiver c) ∧ 1 <= bc_slots k.
Lemma build_controller_from env h c f ready w w' k : BuildController env h c f ready w = (w', inr k) → built_from env h c k.
Proof.
  unfold BuildController. destruct (cf_Profiles c !! _) as [p|] eqn:Hp; [|done]. cbn [mbind sum_bind].
  destruct (if bool_decide (pf_WorkDir p = "") then _ else _) as [e|directory] eqn:Hdir; [done|]. cbn [mbind sum_bind].
  destruct (policyFromProfile p) as [e|q] eqn:Hq; [done|]. apply policy_from_profile in Hq. cbn [mbind sum_bind].
  destruct (runtime_timeout_range (rx_RuntimeSecs (cf_Receiver c))) as [Hr Hsecs].
  destruct (build_adapter _ _ _ _ _) as [e|b] eqn:Hb; [done|]. apply build_adapter_of in Hb; [|by destruct Hq as (_ & ? & _)|lia]. cbn [mbind sum_bind].
  destruct (if bool_decide (f = "") then _ else _) as [e|path]; [done|]. cbn [mbind sum_bind mret sum_ret].
  destruct (NewFileSessionStore path ready w) as [w1 [e|u]]; [done|]. destruct (rx_MaxConcurrent _ <=? 0) eqn:Hm; [done|]. intros [= _ <-].
  exists p, q, directory, (runtime_timeout (rx_RuntimeSecs (cf_Receiver c))). cbn [bc_adapter bc_slots].
  split_and!; try done; try lia. destruct (bool_decide (pf_WorkDir p = "")); [|by injection Hdir].
  destruct (sr_Getwd env); [|done]. by injection Hdir as <-.
Qed.

(** C31. What a configuration makes.  A configuration that loads is of version
    1, names a relay, a profile that exists when there are profiles, positive
    limits, workspaces with aliases that are single names and cleaned paths, and
    profiles whose environment lists hold portable names that differ without
    case.  A controller built from it, on any host, runs the adapter of the
    chosen profile's runtime in the directory of the profile (or the current
    one), with its environment list, for a time that is positive whatever the
    number of seconds overflows to; it has as many slots as configured.  Its
    policy is what the profile says and no more: writing, the shell and MCP
    servers are allowed exactly in guarded-write mode unless they were turned
    off, or in custom mode if they were turned on, the network as it is
    written, the relay's own tool and the baseline commands are denied
    together with the commands listed, and a profile that tries to disable the
    protection against nesting is refused. *)
Theorem configuration_well_formed env yaml path :
  match Load env yaml path with
  | inl _ => True
  | inr c => config_ok c ∧ ∀ h sessionFile ready w,
      match (BuildController env h c sessionFile ready w).2 with inl _ => True | inr k => built_from env h c k end
  end.
Proof.
  destruct (Load env yaml path) as [e|c] eqn:Hl; [done|]. split; [by eapply load_ok|]. intros h f ready w.
  destruct (BuildController env h c f ready w) as [w' [e|k]] eqn:Hk; [done|]. by eapply build_controller_from.
Qed.
End controller.

(** ** A configuration *)

#[local] Instance setup_tables : UnicodeTables := ascii_tables.
Definition home_machine : surroundings :=
  mkSurroundings (λ v, if bool_decide (v = "TEAM_RELAY_URL") then " https://relay.example " else "") (Some "/home/u") (Some "/home/u/.config") (Some "/tmp") false
    (λ p, if bool_decide (p = "/home/u/.config/team-relay/config.yaml") then Some "version: 1" else None) Some.
Definition written_profile : ReceiverProfile :=
  mkProfile " Codex " "auto" "" "~/drafts/../src" [" KEY "; "lang"] (mkPolicyConfig "custom" "off" None (Some true) None ["curl"] [] None)
    (mkContextConfig None None None None) (<["args" := OptList [OptString "--quiet"; OptOther; OptString " "]]> ∅).
Definition written_config : Config :=
  mkConfig 0 (mkRelayConfig "" "~/token") (mkReceiverConfig "" "" "" 0 60) (<["default" := written_profile]> ∅) (<["docs" := "~/docs/"]> ∅) true.
Definition one_file (payload : string) : option Config := if bool_decide (payload = "version: 1") then Some written_config else None.
Definition no_sessions : session_world := mkLocal ∅ FileAbsent [] (λ _, 0) 0%nat.
Example configuration_loaded :
  match Load home_machine one_file "" with
  | inr c => rl_URL (cf_Relay c) = "https://relay.example" ∧ cf_Workspaces c !! "docs" = Some "/home/u/docs" ∧
      match (BuildController home_machine AdapterContract.sample_host c "" true no_sessions).2 with
      | inr k => built_directory (bc_adapter k) = "/home/u/src" ∧ built_environment (bc_adapter k) = ["KEY"; "lang"] ∧
          built_timeout (bc_adapter k) = 60000000000 ∧ po_AllowShell (built_policy (bc_adapter k)) = true ∧
          po_AllowWrites (built_policy (bc_adapter k)) = false ∧ "curl" ∈ po_DeniedCommands (built_policy (bc_adapter k))
      | inl _ => False
      end
  | inl _ => False
  end.
Proof. vm_compute. repeat split; repeat (left; reflexivity) || (repeat first [apply list_elem_of_here | apply list_elem_of_further]). Qed.
