(* ===== verification/Control.v ===== *)
(** * The receiver's local control endpoint

    [internal/receiver/control.go]: the bearer token, the routes, what each
    handler asks of the service and how it answers, and the file that keeps
    the token.  The address is in [Address]; a request arrives as in [Http]. *)

From S2P Require Import Prelude GoString Sha256 GoStringFacts RedactFacts Protocol LocalStore ApprovalStore ReceiverStores Binding MutationStore Prog Service Pool.
From S2P Require Http Relay.
From Stdlib Require Import Ascii.

Local Open Scope Z_scope.
#[local] Existing Instance Http.http_method_eq_dec.

(** ** Requests and answers *)

(** A body: unreadable, or [size] bytes whose first document is an object with
    this level and no other field, followed by nothing or not. *)
Inductive control_body := ControlBad | ControlJSON (size : Z) (level : ApprovalLevel) (alone : bool).
Record control_request := mkControlRequest {
  ct_Method : Http.http_method; ct_Path : list string; ct_Authorization : string; ct_Body : control_body }.
Inductive control_reply :=
  | CtlHealthy | CtlPending (l : list PendingRecord) | CtlProposal (p : ProposalPayload) | CtlApproved (r : ApprovalResult)
  | CtlGrants (l : list ApprovalGrant) | CtlRevoked (grantID : string) | CtlDenied (requestID : string) | CtlError | CtlText.
(** [cs_Private]: marked not to be stored or sniffed. *)
Record control_response := mkControlResponse { cs_Status : Z; cs_Private : bool; cs_Reply : control_reply }.

Definition writeControlJSON (status : Z) (value : control_reply) : control_response := mkControlResponse status true value.
Definition writeControlError (status : Z) : control_response := writeControlJSON status CtlError.

(** [ControlServer], as far as requests see it *)
Record ControlServer := mkControlServer { cn_address : string; cn_tokenHash : string }.

Section control.
Context `{UT : UnicodeTables} (cf : Config).
Abbreviation CP := (prog control_response).

(** A call whose error is a conflict. *)
Definition answered {E A} (p : prog (E + A)) (good : A → control_response) : CP :=
  r ← p; Ret (match r with inl _ => writeControlError 409 | inr a => good a end).
Definition path_id (values : list string) : string := trim_space (default "" (head values)).

Definition health : CP := Ret (writeControlJSON 200 CtlHealthy).
Definition listPending : CP :=
  answered (perform (OPending pending_List)) (λ l, writeControlJSON 200 (CtlPending l)).
Definition inspectProposal (values : list string) : CP :=
  let requestID := path_id values in
  if bool_decide (requestID = "") then Ret (writeControlError 400) else
  answered (InspectProposal requestID) (λ p, writeControlJSON 200 (CtlProposal p)).
(** [Approve] gives a result or an error, beside which a partial result is dropped. *)
Definition approve_call (requestID : string) (level : ApprovalLevel) : CP :=
  r ← Approve cf requestID level; Ret (match r.2 with inl _ => writeControlError 409 | inr a => writeControlJSON 202 (CtlApproved a) end).
Definition allowOnce (values : list string) : CP :=
  let requestID := path_id values in
  if bool_decide (requestID = "") then Ret (writeControlError 400) else
  approve_call requestID ApprovalLevelAskAlways.
(** The level of a body that holds one object of at most 1024 bytes
    ([ensureControlJSONEnd]). *)
Definition approval_level (b : control_body) : option ApprovalLevel :=
  match b with
  | ControlBad => None
  | ControlJSON size level alone => if (1024 <? size) || negb alone then None else if level_valid level then Some level else None
  end.
Definition approve (b : control_body) (values : list string) : CP :=
  let requestID := path_id values in
  if bool_decide (requestID = "") then Ret (writeControlError 400) else
  match approval_level b with
  | None => Ret (writeControlError 400)
  | Some level => approve_call requestID level
  end.
Definition deny (values : list string) : CP :=
  let requestID := path_id values in
  if bool_decide (requestID = "") then Ret (writeControlError 400) else
  answered (Deny requestID) (λ _, writeControlJSON 200 (CtlDenied requestID)).
Definition listApprovalGrants : CP := answered ApprovalGrants (λ l, writeControlJSON 200 (CtlGrants l)).
Definition revokeApprovalGrant (values : list string) : CP :=
  let grantID := path_id values in
  if bool_decide (grantID = "") then Ret (writeControlError 400) else
  answered (RevokeApprovalGrant grantID) (λ _, writeControlJSON 200 (CtlRevoked grantID)).

Definition ControlBusy : prog bool := hasActiveExecution.
(** The credential of a request. *)
Definition authorized (s : ControlServer) (header : string) : bool :=
  has_prefix header "Bearer " &&
  (let provided := trim_space (drop_bytes 7 header) in
   negb (bool_decide (provided = "")) && bool_decide (sha256 provided = cn_tokenHash s)).
Definition authorize (s : ControlServer) (r : control_request) (next : CP) : CP :=
  if negb (authorized s (ct_Authorization r)) then Ret (writeControlError 401) else
  if bool_decide (ct_Path r = ["health"]) then next else
  busy ← ControlBusy;
  if busy : bool then Ret (writeControlError 423) else next.

Definition control_routes (b : control_body) : list (Http.route CP) :=
  let request (last : string) := [Http.Lit "v1"; Http.Lit "requests"; Http.Wild; Http.Lit last] in
  [ Http.mkRoute Http.GET [Http.Lit "health"] (λ _, health);
    Http.mkRoute Http.GET [Http.Lit "v1"; Http.Lit "pending"] (λ _, listPending);
    Http.mkRoute Http.GET (request "proposal") inspectProposal;
    Http.mkRoute Http.POST (request "allow-once") allowOnce;
    Http.mkRoute Http.POST (request "approve") (approve b);
    Http.mkRoute Http.POST (request "deny") deny;
    Http.mkRoute Http.GET [Http.Lit "v1"; Http.Lit "approval-grants"] (λ _, listApprovalGrants);
    Http.mkRoute Http.DELETE [Http.Lit "v1"; Http.Lit "approval-grants"; Http.Wild] revokeApprovalGrant ].
Definition serve_control (s : ControlServer) (r : control_request) : CP :=
  match Http.dispatch (control_routes (ct_Body r)) (ct_Method r) (ct_Path r) with
  | Http.Routed next => authorize s r next
  | Http.MethodNotAllowed => Ret (mkControlResponse 405 false CtlText)
  | Http.NoRoute => Ret (mkControlResponse 404 false CtlText)
  end.
End control.

(** ** The token file

    Other processes may do anything to the file between two looks at it;
    [AtomicWriteNewFile] creates it whole or says that it is there. *)

Record token_file := mkTokenFile { tk_File : file_content string; tk_Others : list (file_content string → file_content string) }.
Inductive token_error := TokenPath | TokenDirectory | TokenEmpty | TokenRead | TokenRandom | TokenCreate.
Inductive created := Created | CreatedExists | CreateFailed.
Abbreviation TM := (M token_file token_error).
Definition others_act : TM () := modify (λ w, match tk_Others w with [] => w | f :: l => mkTokenFile (f (tk_File w)) l end).
Definition read_token_file : TM (file_content string) := others_act ≫= λ _, gets tk_File.
(** Creation is refused, or happens unless the file exists, and may then
    still report a failure. *)
Definition create_token_file (outcome : write_outcome) (content : string) : TM created :=
  others_act ≫= λ _,
  w ← gets id;
  match outcome, tk_File w with
  | WriteRefused, _ => mret CreateFailed
  | _, FileAbsent =>
    modify (λ w, mkTokenFile (FileDoc content) (tk_Others w)) ≫= λ _,
    mret (match outcome with WriteDone => Created | _ => CreateFailed end)
  | _, _ => mret CreatedExists
  end.
(** [base64.RawURLEncoding] *)
Definition raw_url_encode (s : string) : string :=
  String.string_of_list_ascii ((λ c, if Ascii.eqb c "+" then "-"%char else if Ascii.eqb c "/" then "_"%char else c)
    <$> List.filter (λ c, negb (Ascii.eqb c "=")) (bytes (b64_encode s))).
Definition newline : string := String (byte_of 10) "".

Section token.
Variables (path : string) (directory_ready : bool) (random : nat → option string) (outcomes : nat → write_outcome).
(** One look at the file; [again] is the call of the function by itself. *)
Definition look_or_create (attempt : nat) (again : TM string) : TM string :=
  reject_if (bool_decide (path = "")) TokenPath ≫= λ _,
  reject_if (negb directory_ready) TokenDirectory ≫= λ _,
  f ← read_token_file;
  match f with
  | FileDoc data => let token := trim_space data in if bool_decide (token = "") then throw TokenEmpty else mret token
  | FileUnreadable | FileGarbage => throw TokenRead
  | FileAbsent =>
    match random attempt with
    | None => throw TokenRandom
    | Some r =>
      let token := "trl_" +:+ raw_url_encode r in
      made ← create_token_file (outcomes attempt) (token +:+ newline);
      match made with
      | Created => mret token
      | CreateFailed => throw TokenCreate
      | CreatedExists => again
      end
    end
  end.
(** The function calls itself when another process made the file meanwhile:
    at most [fuel] times. *)
Fixpoint LoadOrCreateControlToken (fuel attempt : nat) : TM string :=
  look_or_create attempt (match fuel with O => throw TokenCreate | S fuel => LoadOrCreateControlToken fuel (S attempt) end).
End token.

(** ** What a request does *)

(** The same operations in the same order, whatever they answer. *)
Inductive same_operations {A} : prog A → prog A → Prop :=
  | same_end a : same_operations (Ret a) (Ret a)
  | same_do B (o : op B) k k' : (∀ b, same_operations (k b) (k' b)) → same_operations (Do o k) (Do o k').

Section facts.
Context `{UT : UnicodeTables} (cf : Config) (answer : nat → ∀ B, ext B → B).

Lemma discard_after {A B} (p : prog A) (f : A → B) : same_operations (discard (p ≫= λ a, Ret (f a))) (discard p).
Proof.
  unfold discard. induction p as [a|B' o k IH]; [constructor|]. unfold mbind, prog_bind in *. cbn [pbind]. constructor. exact IH.
Qed.
Lemma discard_answered {E A} (p : prog (E + A)) good : same_operations (discard (answered p good)) (discard p).
Proof. apply discard_after. Qed.

(** The call of the service that a request stands for. *)
Definition reads (m : Http.http_method) : bool := Http.match_method Http.GET m.
Definition control_call (r : control_request) : option origin :=
  let named (id : string) (o : string → origin) := if bool_decide (trim_space id = "") then None else Some (o (trim_space id)) in
  match ct_Path r with
  | [a; b] => if bool_decide (a = "v1") && bool_decide (b = "approval-grants") && reads (ct_Method r) then Some CallGrants else None
  | [a; b; id] =>
    if bool_decide (a = "v1") && bool_decide (b = "approval-grants") && bool_decide (ct_Method r = Http.DELETE) then named id CallRevokeGrant else None
  | [a; b; id; last] =>
    if negb (bool_decide (a = "v1") && bool_decide (b = "requests")) then None
    else if bool_decide (last = "proposal") then if reads (ct_Method r) then named id CallInspect else None
    else if negb (bool_decide (ct_Method r = Http.POST)) then None
    else if bool_decide (last = "allow-once") then named id (λ id, CallApprove id ApprovalLevelAskAlways)
    else if bool_decide (last = "deny") then named id CallDeny
    else if bool_decide (last = "approve") then
      match approval_level (ct_Body r) with Some level => named id (λ id, CallApprove id level) | None => None end
    else None
  | _ => None
  end.
(** The program [q], unless a run is active. *)
Definition unless_busy (q : prog control_response) : prog control_response :=
  busy ← ControlBusy; if busy : bool then Ret (writeControlError 423) else q.
(** The program that does what [o] does, and no more. *)
Definition performs (o : origin) (p : prog control_response) : Prop :=
  callable o = true ∧ ∃ q, p = unless_busy q ∧ same_operations (discard q) (goroutine cf o).
(** An answer that says nothing. *)
Definition refuses (statuses : list Z) (p : prog control_response) : Prop :=
  ∃ resp, p = Ret resp ∧ cs_Status resp ∈ statuses ∧ (cs_Reply resp = CtlError ∨ cs_Reply resp = CtlText).

Lemma first_step q g st : LRun ∉ r_locks st →
  thread_step cf answer (g, discard (unless_busy q)) st =
    Some ([], (g, discard (if bool_decide (r_active st = ∅) then q else Ret (writeControlError 423))), st).
Proof.
  intros Hlock. unfold thread_step, discard, unless_busy, ControlBusy, hasActiveExecution, perform. cbn. rewrite bool_decide_true by done. cbn.
  by destruct (bool_decide (r_active st = ∅)).
Qed.

(** Compare the literals of a pattern and a path. *)
Ltac compare_literals := repeat match goal with
  | |- context [bool_decide (?x = ?y)] => first [rewrite (bool_decide_true (x = y)) by done | rewrite (bool_decide_false (x = y)) by done]
  end.
Ltac dispatched := unfold serve_control, control_routes; cbn [ct_Path ct_Method ct_Body Http.dispatch Http.match_path Http.rt_Method Http.rt_Pattern Http.rt_Handler];
  compare_literals; cbn [fmap option_fmap option_map]; try match goal with H : _ = true |- _ => rewrite H end.
Lemma post_only : Http.match_method Http.POST Http.POST = true ∧ Http.match_method Http.GET Http.POST = false.
Proof. done. Qed.
Lemma named_some id (o : string → origin) x : (if bool_decide (trim_space id = "") then None else Some (o (trim_space id))) = Some x →
  trim_space id ≠ "" ∧ id ≠ "" ∧ x = o (trim_space id).
Proof.
  destruct (bool_decide_reflect (trim_space id = "")) as [|Hne]; [done|]. intros [= <-]. split; [done|]. split; [|done]. by intros ->.
Qed.
Lemma serve_called s r o : control_call r = Some o →
  if authorized s (ct_Authorization r) then performs o (serve_control cf s r) else serve_control cf s r = Ret (writeControlError 401).
Proof.
  intros Ho.
  assert (∃ next, serve_control cf s r = authorize s r next ∧ ct_Path r ≠ ["health"] ∧ callable o = true ∧ same_operations (discard next) (goroutine cf o))
    as (next & Hserve & Hpath & Hcall & Hsame).
  2: { rewrite Hserve. unfold authorize. destruct (authorized s (ct_Authorization r)); [|done]. cbn [negb]. rewrite bool_decide_false by done.
       split; [done|]. by exists next. }
  destruct r as [m path header body]. unfold control_call in Ho. cbn [ct_Path ct_Method ct_Body] in *.
  destruct path as [|a [|b [|id [|last [|]]]]]; try discriminate Ho.
  - destruct (_ && reads m) eqn:Hand; [|done]. injection Ho as <-. rewrite !andb_true_iff, !bool_decide_eq_true in Hand. destruct Hand as [[-> ->] Hm].
    unfold reads in Hm. exists listApprovalGrants. split; [by dispatched|]. split; [done|]. split; [done|]. apply discard_answered.
  - destruct (_ && bool_decide (m = _)) eqn:Hand; [|done]. apply named_some in Ho as (Ht & Hne & ->). rewrite !andb_true_iff, !bool_decide_eq_true in Hand.
    destruct Hand as [[-> ->] ->]. exists (revokeApprovalGrant [id]). split; [by dispatched|]. split; [done|]. split; [done|].
    unfold revokeApprovalGrant, path_id. cbn [default head]. rewrite bool_decide_false by done. apply discard_answered.
  - destruct (bool_decide (a = "v1") && _) eqn:Hand; [|done]. rewrite !andb_true_iff, !bool_decide_eq_true in Hand. destruct Hand as [-> ->]. cbn [negb] in Ho.
    destruct (bool_decide_reflect (last = "proposal")) as [->|H1].
    { destruct (reads m) eqn:Hm; [|done]. apply named_some in Ho as (Ht & Hne & ->). unfold reads in Hm. exists (inspectProposal [id]).
      split; [by dispatched|]. split; [done|]. split; [done|]. unfold inspectProposal, path_id. cbn [default head]. rewrite bool_decide_false by done. apply discard_answered. }
    destruct (bool_decide_reflect (m = Http.POST)) as [->|]; [|done]. cbn [negb] in Ho. destruct (bool_decide_reflect (last = "allow-once")) as [->|H2].
    { apply (named_some id (λ id, CallApprove id ApprovalLevelAskAlways)) in Ho as (Ht & Hne & ->). exists (allowOnce cf [id]). split; [by dispatched|]. split; [done|]. split; [done|].
      unfold allowOnce, path_id. cbn [default head]. rewrite bool_decide_false by done. apply discard_after. }
    destruct (bool_decide_reflect (last = "deny")) as [->|H3].
    { apply named_some in Ho as (Ht & Hne & ->). exists (deny [id]). split; [by dispatched|]. split; [done|]. split; [done|].
      unfold deny, path_id. cbn [default head]. rewrite bool_decide_false by done. apply discard_answered. }
    destruct (bool_decide_reflect (last = "approve")) as [->|H4]; [|done]. destruct (approval_level body) as [level|] eqn:Hl; [|done].
    apply (named_some id (λ id, CallApprove id level)) in Ho as (Ht & Hne & ->). exists (approve cf body [id]). split; [by dispatched|]. split; [done|]. split; [done|].
    unfold approve, path_id. cbn [default head]. rewrite bool_decide_false by done. rewrite Hl. apply discard_after.
Qed.

(** The requests that stand for no call. *)
Definition idle (s : ControlServer) (r : control_request) (p : prog control_response) : Prop :=
  refuses [400; 401; 404; 405] p ∨
  authorized s (ct_Authorization r) = true ∧
  (ct_Path r = ["health"] ∧ p = health ∨ ct_Path r = ["v1"; "pending"] ∧ p = unless_busy listPending ∨ ∃ q, refuses [400] q ∧ p = unless_busy q).
Lemma authorize_refused s r q : refuses [400] q → idle s r (authorize s r q).
Proof.
  intros Hq. unfold authorize. destruct (authorized s (ct_Authorization r)) eqn:Ha; [|left; exists (writeControlError 401); split; [done|split; [set_solver|by left]]].
  cbn [negb]. case_bool_decide; [left|right; split; [done|]; right; right; by exists q].
  destruct Hq as (resp & -> & Hst & Hr). exists resp. split; [done|]. split; [|done]. set_solver.
Qed.
Lemma bad_request : refuses [400] (Ret (writeControlError 400)).
Proof. exists (writeControlError 400). split; [done|]. split; [left|by left]. Qed.
Lemma match_literals l path values : Http.match_path (Http.Lit <$> l) path = Some values → path = l ∧ values = [].
Proof.
  revert path. induction l as [|x l IH]; intros [|y path]; cbn [fmap list_fmap Http.match_path]; try done; [by intros [= <-]|].
  case_bool_decide; [|done]. subst. intros [-> ->]%IH. done.
Qed.
Lemma match_one l k path values : Http.match_path ((Http.Lit <$> l) ++ Http.Wild :: (Http.Lit <$> k)) path = Some values → ∃ id, path = l ++ id :: k ∧ values = [id].
Proof.
  revert path. induction l as [|x l IH]; intros [|y path]; cbn [fmap list_fmap app Http.match_path]; try done.
  - case_bool_decide; [done|]. intros (vs & Hv & ->)%fmap_Some. apply match_literals in Hv as [-> ->]. by exists y.
  - case_bool_decide; [|done]. subst. intros (id & -> & ->)%IH. by exists id.
Qed.
Lemma named_none id (o : string → origin) : (if bool_decide (trim_space id = "") then None else Some (o (trim_space id))) = None → trim_space id = "".
Proof. by case_bool_decide. Qed.
Lemma unnamed_refused id (q : prog control_response) : trim_space id = "" →
  refuses [400] (if bool_decide (path_id [id] = "") then Ret (writeControlError 400) else q).
Proof. intros H. unfold path_id. cbn [default head]. rewrite bool_decide_true by done. apply bad_request. Qed.
Ltac compute_list := cbn; rewrite !elem_of_cons; tauto.
Lemma told_nothing statuses resp : cs_Status resp ∈ statuses → cs_Reply resp = CtlError ∨ cs_Reply resp = CtlText → refuses statuses (Ret resp).
Proof. intros Hs Hr. exists resp. by split_and!. Qed.
Lemma method_only p m : Http.match_method p m = true → p ≠ Http.GET → m = p.
Proof. unfold Http.match_method. intros [H|[H _]%andb_true_iff]%orb_true_iff Hp; by apply bool_decide_eq_true in H. Qed.
Lemma serve_uncalled s r : control_call r = None → idle s r (serve_control cf s r).
Proof.
  intros Ho. unfold serve_control. destruct (Http.dispatch _ _ _) as [next| |] eqn:Hd;
    [|by left; apply told_nothing; [compute_list|right]..].
  destruct r as [m path header body]. cbn [ct_Path ct_Method ct_Body] in *. apply Relay.dispatch_inv in Hd as (rt & values & Hin & [Hp Hm] & ->).
  unfold control_routes in Hin. unfold control_call in Ho. cbn [ct_Path ct_Method ct_Body] in Ho.
  rewrite !elem_of_cons in Hin. destruct Hin as [->|[->|[->|[->|[->|[->|[->|[->|[]%elem_of_nil]]]]]]]]; cbn [Http.rt_Pattern Http.rt_Method Http.rt_Handler] in *.
  - apply (match_literals ["health"]) in Hp as [-> ->]. unfold authorize. cbn [ct_Authorization ct_Path]. destruct (authorized s header) eqn:Ha.
    + right. split; [done|]. by left.
    + left. eexists. split; [done|]. split; [set_solver|by left].
  - apply (match_literals ["v1"; "pending"]) in Hp as [-> ->]. unfold authorize. cbn [ct_Authorization ct_Path]. destruct (authorized s header) eqn:Ha.
    + right. split; [done|]. right. by left.
    + left. eexists. split; [done|]. split; [set_solver|by left].
  - apply (match_one ["v1"; "requests"] ["proposal"]) in Hp as (id & -> & ->). cbn [app] in Ho. revert Ho. compare_literals. cbn [andb negb]. unfold reads. rewrite Hm.
    intros Ho%named_none. apply authorize_refused. unfold inspectProposal. by apply unnamed_refused.
  - apply (match_one ["v1"; "requests"] ["allow-once"]) in Hp as (id & -> & ->). apply method_only in Hm as ->; [|done]. cbn [app] in Ho. revert Ho. compare_literals. cbn [andb negb].
    intros Ho%(named_none id (λ id, CallApprove id ApprovalLevelAskAlways)). apply authorize_refused. by apply unnamed_refused.
  - apply (match_one ["v1"; "requests"] ["approve"]) in Hp as (id & -> & ->). apply method_only in Hm as ->; [|done]. cbn [app] in Ho. revert Ho. compare_literals. cbn [andb negb].
    intros Ho. apply authorize_refused. unfold approve. destruct (approval_level body) as [level|].
    + apply (named_none id (λ id, CallApprove id level)) in Ho. by apply unnamed_refused.
    + cbv zeta. destruct (bool_decide _); apply bad_request.
  - apply (match_one ["v1"; "requests"] ["deny"]) in Hp as (id & -> & ->). apply method_only in Hm as ->; [|done]. cbn [app] in Ho. revert Ho. compare_literals. cbn [andb negb].
    intros Ho%named_none. apply authorize_refused. by apply unnamed_refused.
  - apply (match_literals ["v1"; "approval-grants"]) in Hp as [-> ->]. revert Ho. compare_literals. unfold reads. by rewrite Hm.
  - apply (match_one ["v1"; "approval-grants"] []) in Hp as (id & -> & ->). apply method_only in Hm as ->; [|done]. cbn [app] in Ho. revert Ho. compare_literals. cbn [andb].
    intros Ho%named_none. apply authorize_refused. by apply unnamed_refused.
Qed.
End facts.

(** ** Tokens *)

Lemma digit_visible z : 0 <= z < 64 → visible (b64_digit z).
Proof.
  intros Hz. assert (forallb (λ z, (33 <=? byte_val (b64_digit z)) && (byte_val (b64_digit z) <=? 126)) (seqZ 0 64) = true) as Hall by (vm_compute; reflexivity).
  rewrite forallb_forall in Hall. specialize (Hall z). rewrite <- list_elem_of_In, elem_of_seqZ in Hall. specialize (Hall ltac:(lia)). unfold visible. lia.
Qed.
Lemma encoded_visible l : Forall visible (b64_encode_bytes l).
Proof.
  assert (visible "=") as He by (unfold visible; vm_compute; split; discriminate).
  induction l as [l IH] using (induction_ltof1 _ (@length _)). unfold ltof in IH. destruct l as [|a [|b [|c l]]]; [constructor|..];
    pose proof (byte_val_range a); try pose proof (byte_val_range b); try pose proof (byte_val_range c); cbn [b64_encode_bytes];
    repeat (constructor; [first [exact He|apply digit_visible; div_lia]|]); try constructor. apply IH. simpl. lia.
Qed.
Lemma token_visible r : Forall visible (bytes ("trl_" +:+ raw_url_encode r)).
Proof.
  rewrite bytes_app. apply Forall_app. split; [repeat constructor; vm_compute; discriminate|].
  unfold raw_url_encode, bytes at 1. rewrite String.list_ascii_of_string_of_list_ascii. apply Forall_fmap, Forall_forall. intros c [Hc _]%list_elem_of_In%filter_In.
  unfold b64_encode, bytes in Hc. rewrite String.list_ascii_of_string_of_list_ascii in Hc. apply list_elem_of_In in Hc.
  pose proof (encoded_visible (String.list_ascii_of_string r)) as Hv. rewrite Forall_forall in Hv. specialize (Hv c Hc). cbn.
  unfold visible in *. destruct (Ascii.eqb c "+"); [vm_compute; split; discriminate|]. destruct (Ascii.eqb c "/"); [vm_compute; split; discriminate|done].
Qed.

(** Others only make the file, they do not change or remove it. *)
Definition only_create (f : file_content string → file_content string) : Prop := ∀ x, x ≠ FileAbsent → f x = x.
Definition holds (w : token_file) (token : string) : Prop := token ≠ "" ∧ ∃ data, tk_File w = FileDoc data ∧ trim_space data = token.

Section token_facts.
Variables (path : string) (directory_ready : bool) (random : nat → option string) (outcomes : nat → write_outcome).
Abbreviation load := (LoadOrCreateControlToken path directory_ready random outcomes).

Lemma others_run w : Forall only_create (tk_Others w) → ∃ w1, others_act w = (w1, inr ()) ∧ Forall only_create (tk_Others w1) ∧ (tk_File w ≠ FileAbsent → tk_File w1 = tk_File w).
Proof.
  intros Hw. unfold others_act, modify. destruct w as [file [|f l]]; cbn in *; [by eexists|].
  apply Forall_cons in Hw as [Hf Hl]. eexists. split; [done|]. split; [done|]. apply Hf.
Qed.
Lemma look_present attempt again w : Forall only_create (tk_Others w) → tk_File w ≠ FileAbsent →
  let (w', res) := look_or_create path directory_ready random outcomes attempt again w in
  look_or_create path directory_ready random outcomes attempt (throw TokenCreate) w = (w', res) ∧ match res with inr token => holds w' token | inl _ => True end.
Proof.
  intros Hw Hf. destruct (others_run w Hw) as (w1 & Hr & Hw1 & Hk). specialize (Hk Hf).
  assert (read_token_file w = (w1, inr (tk_File w))) as Hread by (unfold read_token_file, mbind, M_bind; rewrite Hr; unfold gets; by rewrite Hk).
  unfold look_or_create, reject_if, mbind, M_bind. destruct (bool_decide (path = "")); [done|]. cbn. destruct directory_ready; [cbn|done]. rewrite Hread.
  destruct (tk_File w) as [| | |data] eqn:Hdata; try done. cbn. destruct (bool_decide_reflect (trim_space data = "")) as [|Hne]; [done|].
  split; [done|]. split; [done|]. by exists data.
Qed.
Lemma create_run w content attempt : Forall only_create (tk_Others w) → 
  let (w', res) := create_token_file (outcomes attempt) content w in Forall only_create (tk_Others w') ∧
  match res with
  | inr Created => tk_File w' = FileDoc content
  | inr CreatedExists => tk_File w' ≠ FileAbsent
  | inr CreateFailed => True
  | inl _ => False
  end.
Proof.
  intros Hw. destruct (others_run w Hw) as (w1 & Hr & Hw1 & _). unfold create_token_file, mbind, M_bind. rewrite Hr. unfold gets. cbn [id].
  destruct (outcomes attempt), (tk_File w1) eqn:Hf; cbn; split; try done; congruence.
Qed.
Lemma load_run n w : Forall only_create (tk_Others w) →
  let (w', res) := load (S n) 0 w in load 1 0 w = (w', res) ∧ match res with inr token => holds w' token | inl _ => True end.
Proof.
  intros Hw. destruct (others_run w Hw) as (w1 & Hr & Hw1 & _).
  assert (read_token_file w = (w1, inr (tk_File w1))) as Hread by (unfold read_token_file, mbind, M_bind; rewrite Hr; done).
  change (load (S n) 0) with (look_or_create path directory_ready random outcomes 0 (load n 1)). change (load 1 0) with (look_or_create path directory_ready random outcomes 0 (load 0 1)).
  unfold look_or_create, reject_if, mbind, M_bind. destruct (bool_decide (path = "")); [done|]. cbn [negb]. destruct directory_ready eqn:Hready; [|done]. cbn [negb mret M_ret]. rewrite Hread.
  destruct (tk_File w1) as [| | |data] eqn:Hdata; try done.
  2: { cbn. destruct (bool_decide_reflect (trim_space data = "")); [done|]. split; [done|]. split; [done|]. by exists data. }
  destruct (random 0%nat) as [r|]; [|done]. pose proof (create_run w1 (("trl_" +:+ raw_url_encode r) +:+ newline) 0 Hw1) as Hc.
  destruct (create_token_file _ _ w1) as [w2 [e|made]]; destruct Hc as [Hw2 Hc]; [done|]. destruct made; try done.
  - split; [done|]. split; [done|]. eexists. split; [exact Hc|]. apply trim_line, token_visible.
  - assert (∃ again, LoadOrCreateControlToken path true random outcomes n 1 = look_or_create path true random outcomes 1 again) as [again ->] by (by destruct n; eexists).
    rewrite <- Hready. pose proof (look_present 1 again w2 Hw2 Hc) as Hn. destruct (look_or_create _ _ _ _ 1 again w2) as [w3 res]. destruct Hn as [Hn Hres].
    split; [|exact Hres]. exact Hn.
Qed.
End token_facts.

Section endpoint.
Context `{UT : UnicodeTables} (cf : Config) (answer : nat → ∀ B, ext B → B).


(** C7. What a local request does.  A request that names a call of the
    service (inspect, allow once, approve with a level, deny, list or revoke
    grants, by its method and path) runs, if it carries the token and no
    runtime is active, exactly the operations of that call for the trimmed
    identifier, as if the call had arrived in the pool; the test that no
    runtime is active comes first and changes nothing.  Without the token it
    runs nothing and is answered 401.  Every other request runs nothing and is
    told nothing, but that with the token it may learn that the receiver is
    alive, or read the inbox when no runtime is active.  A header carries the
    token exactly when it is Bearer, a space, and a text that trims to
    something with the digest of the token. *)
Theorem control_does_what_is_asked s r :
  match control_call r with
  | Some o => if authorized s (ct_Authorization r) then performs cf o (serve_control cf s r) else serve_control cf s r = Ret (writeControlError 401)
  | None => idle s r (serve_control cf s r)
  end ∧
  (∀ q g st, LRun ∉ r_locks st →
     thread_step cf answer (g, discard (unless_busy q)) st =
       Some ([], (g, discard (if bool_decide (r_active st = ∅) then q else Ret (writeControlError 423))), st)) ∧
  (∀ header, authorized s header = true ↔ ∃ x, header = "Bearer " +:+ x ∧ trim_space x ≠ "" ∧ sha256 (trim_space x) = cn_tokenHash s).
Proof.
  split; [|split].
  - destruct (control_call r) as [o|] eqn:Ho; [by apply serve_called|by apply serve_uncalled].
  - intros q g st. apply first_step.
  - intros header. unfold authorized. cbv zeta. rewrite andb_true_iff, has_prefix_split, andb_true_iff, negb_true_iff, bool_decide_eq_false, bool_decide_eq_true.
    change (String.length "Bearer ") with 7%nat. naive_solver.
Qed.

(** Processes that share the file of the token agree on it: when the others
    only make the file, one more look after losing the race is enough, and the
    token that is returned is what the file holds from then on. *)
Theorem control_token_shared path ready random outcomes w n : Forall only_create (tk_Others w) →
  let (w', res) := LoadOrCreateControlToken path ready random outcomes (S n) 0 w in
  LoadOrCreateControlToken path ready random outcomes 1 0 w = (w', res) ∧ match res with inr token => holds w' token | inl _ => True end.
Proof. apply load_run. Qed.
End endpoint.

(** ** Requests *)

#[local] Instance control_tables : UnicodeTables := ascii_tables.
Definition local_server : ControlServer := mkControlServer "127.0.0.1:8787" (sha256 "trl_secret").
Example control_requests :
  control_call (mkControlRequest Http.POST ["v1"; "requests"; " req_1 "; "approve"] "" (ControlJSON 24 ApprovalLevelTeammateAlways true))
    = Some (CallApprove "req_1" ApprovalLevelTeammateAlways) ∧
  control_call (mkControlRequest Http.POST ["v1"; "requests"; "req_1"; "approve"] "" (ControlJSON 24 (ApprovalLevelOther "always") true)) = None ∧
  control_call (mkControlRequest Http.GET ["v1"; "requests"; "req_1"; "deny"] "" ControlBad) = None ∧
  authorized local_server "Bearer  trl_secret " = true ∧ authorized local_server "trl_secret" = false ∧ authorized local_server "Bearer trl_other" = false.
Proof. vm_compute. done. Qed.
(** Two processes start at once: the slower takes the token of the faster. *)
Example token_race :
  let faster : file_content string → file_content string := λ x, match x with FileAbsent => FileDoc ("trl_first" +:+ newline) | x => x end in
  (LoadOrCreateControlToken "control.token" true (λ _, Some "0123456789abcdef") (λ _, WriteDone) 1 0 (mkTokenFile FileAbsent [λ x, x; faster])).2 = inr "trl_first".
Proof. vm_compute. done. Qed.
