(* ===== verification/Mcp.v ===== *)
(** * The tools of the requesting side ([internal/mcpserver])

    The MCP server gives an agent six tools over the relay client: it checks
    what the agent asks for, reads the files it attaches through handles of
    directories that the owner configured, and saves returned files.  Its
    relay is a class, of which [Client] gives the instance.  The operating
    system is arbitrary: every answer is a function of all that happened
    before, and what happened is a log.  Closing a handle that was only read
    has no effect here. *)

From S2P Require Import Prelude GoString Sha256 Protocol Redact Artifact.
From S2P Require CollabStore Sandbox Client.
From Stdlib Require Import Ascii.

Local Open Scope Z_scope.

(** ** The relay, as the tools use it *)

(** [Relay] of [server.go] *)
Class Relay (R : Type) := {
  relay_ListAgents : Client.AgentQuery → M R Client.client_error AgentDirectoryResponse;
  relay_CreateRequest : CreateRequest → M R Client.client_error MutationResponse;
  relay_GetRequest : string → M R Client.client_error Request;
  relay_CancelRequest : string → M R Client.client_error MutationResponse;
  relay_FetchArtifact : string → M R Client.client_error ArtifactContent }.
Definition client_relay {R} (Do : Http.http_request → M R () Http.response) (json_size : Http.input → Z) (reply_size : Http.reply → Z) (c : Client.Client) : Relay R :=
  {| relay_ListAgents := Client.ListAgents Do json_size reply_size c; relay_CreateRequest := Client.CreateRequest Do json_size reply_size c;
     relay_GetRequest := Client.GetRequest Do json_size reply_size c; relay_CancelRequest := Client.CancelRequest Do json_size reply_size c;
     relay_FetchArtifact := Client.FetchArtifact Do json_size reply_size c |}.

Inductive mcp_error :=
  | ErrWorkspace | ErrOutboundDisabled | ErrTooManyFiles | ErrDuplicateFile | ErrTotalSize | ErrAlias | ErrPath | ErrSensitive
  | ErrOpen | ErrChanged | ErrNotRegular | ErrTooLarge | ErrRead | ErrEncoding | ErrBlockedName | ErrDecode | ErrSize | ErrChecksum
  | ErrDownloadDirectory | ErrCreate | ErrWrite | ErrClose | ErrLimit | ErrNeed | ErrPrompt | ErrTitle | ErrExpiry | ErrAccess | ErrID
  | ErrRelay (e : Client.client_error) | ErrNotCompleted | ErrNotReturned | ErrMetadata.

(** ** The operating system *)

(** Open directories ([os.Root]) and files. *)
Definition handle : Type := nat.
(** What was asked of the system, and its answer. *)
Inductive os_event :=
  | EvAbs (path : string) (o : option string) | EvEvalSymlinks (path : string) (o : option string)
  | EvOpenDirectory (path : string) (o : option handle)                       (** [os.OpenRoot] *)
  | EvLstat (root : handle) (name : string) (o : option FileInfo)
  | EvMissing (root : handle) (name : string) (b : bool)                      (** [errors.Is(err, fs.ErrNotExist)] *)
  | EvOpenRoot (root : handle) (name : string) (o : option handle)
  | EvStatRoot (root : handle) (o : option FileInfo)                          (** [Stat(.)] *)
  | EvMkdir (root : handle) (name : string) (b : bool)                        (** made, or there already *)
  | EvOpen (root : handle) (name : string) (o : option handle)
  | EvStat (file : handle) (o : option FileInfo)
  | EvReadAll (file : handle) (o : option string)
  | EvCreate (root : handle) (name : string) (o : option handle)              (** [O_CREATE|O_EXCL] *)
  | EvWrite (file : handle) (payload : string) (b : bool)
  | EvClose (file : handle) (b : bool)
  | EvRemove (root : handle) (name : string)
  | EvCloseRoot (root : handle).
Record system := mkSystem {
  os_Abs : list os_event → string → option string;
  os_EvalSymlinks : list os_event → string → option string;
  os_OpenDirectory : list os_event → string → option handle;
  os_Lstat : list os_event → handle → string → option FileInfo;
  os_Missing : list os_event → handle → string → bool;
  os_OpenRoot : list os_event → handle → string → option handle;
  os_StatRoot : list os_event → handle → option FileInfo;
  os_Mkdir : list os_event → handle → string → bool;
  os_Open : list os_event → handle → string → option handle;
  os_Stat : list os_event → handle → option FileInfo;
  os_ReadAll : list os_event → handle → option string;
  os_Create : list os_event → handle → string → option handle;
  os_Write : list os_event → handle → string → bool;
  os_Close : list os_event → handle → bool }.

Record attachmentWorkspace := mkWorkspace { aw_root : handle; aw_downloadRoot : option handle }.
(** [attachmentStore] *)
Record attachmentStore := mkStore { as_outboundEnabled : bool; as_roots : gmap string attachmentWorkspace }.
Record mcp_state (R : Type) := mkMcp { mc_log : list os_event; mc_store : attachmentStore; mc_relay : R }.
Arguments mkMcp {_}. Arguments mc_log {_}. Arguments mc_store {_}. Arguments mc_relay {_}.

Record LocalAttachment := mkLocal { la_WorkspaceAlias : string; la_RelativePath : string }.
Record DownloadedFile := mkDownloaded {
  df_WorkspaceAlias : string; df_RelativePath : string; df_Name : string; df_MIMEType : string; df_SizeBytes : Z; df_SHA256 : string }.

Definition serverDefaultExpiry : Z := 1800.
Definition maxListLimit : Z := 50.
Definition MaxNeedBytes : Z := 200.
Definition downloadDirectory : string := "team-relay-downloads".

(** [path.Base] and [path.Ext] of a path without empty components *)
Definition base_name (p : string) : string := default "" (last (split_byte "/"%char p)).
Definition path_ext (p : string) : string := file_ext (base_name p).

Section mcp.
Context `{UT : UnicodeTables} {R : Type}.
Variable os : system.
Variables (TypeByExtension DetectContentType : string → string).
Abbreviation MM := (M (mcp_state R) mcp_error).

Definition asked {A} (answer : list os_event → A) (ev : A → os_event) : MM A := λ s,
  let a := answer (mc_log s) in (mkMcp (mc_log s ++ [ev a]) (mc_store s) (mc_relay s), inr a).
Definition done_event (ev : os_event) : MM () := asked (λ _, ()) (λ _, ev).
Definition need {A} (e : mcp_error) (m : MM (option A)) : MM A := o ← m; match o with Some a => mret a | None => throw e end.
Definition Lstat root name := asked (λ l, os_Lstat os l root name) (EvLstat root name).
Definition OpenRoot root name := asked (λ l, os_OpenRoot os l root name) (EvOpenRoot root name).
Definition StatRoot root := asked (λ l, os_StatRoot os l root) (EvStatRoot root).
Definition Open root name := asked (λ l, os_Open os l root name) (EvOpen root name).
Definition Stat file := asked (λ l, os_Stat os l file) (EvStat file).
Definition set_store (st : attachmentStore) : MM () := modify (λ s, mkMcp (mc_log s) st (mc_relay s)).
Definition call {A} (m : M R Client.client_error A) : MM A := λ s,
  let (r, a) := m (mc_relay s) in
  (mkMcp (mc_log s) (mc_store s) r, match a with inl e => inl (ErrRelay e) | inr a => inr a end).

Definition is_symlink (i : FileInfo) : bool := bool_decide (fi_Kind i = KindSymlink).
(** The checks of a handle that was opened between two looks at its name. *)
Definition unchanged (before : FileInfo) (opened after : option FileInfo) : bool :=
  match opened, after with
  | Some o, Some a => negb (is_symlink a) && same_file before o && same_file before a
  | _, _ => false
  end.

(** ** Workspaces ([newAttachmentStore]) *)

(** One turn of the loop. The workspaces are a map, visited in any order. *)
Definition open_workspace (seen : gset string) (roots : gmap string attachmentWorkspace) (w : string * string)
    : MM (gset string * gmap string attachmentWorkspace) :=
  let alias := trim_space w.1 in
  reject_if (bool_decide (alias = "") || contains_any alias "/\") ErrWorkspace ≫= λ _,
  reject_if (bool_decide (trim_space w.2 = "")) ErrWorkspace ≫= λ _,
  let aliasKey := to_lower alias in
  reject_if (bool_decide (aliasKey ∈ seen)) ErrWorkspace ≫= λ _,
  absolute ← need ErrWorkspace (asked (λ l, os_Abs os l w.2) (EvAbs w.2));
  resolved ← need ErrWorkspace (asked (λ l, os_EvalSymlinks os l absolute) (EvEvalSymlinks absolute));
  root ← need ErrWorkspace (asked (λ l, os_OpenDirectory os l resolved) (EvOpenDirectory resolved));
  mret ({[aliasKey]} ∪ seen, <[alias := mkWorkspace root None]> roots).
(** [close] *)
Definition close_workspace (w : attachmentWorkspace) : MM () :=
  match aw_downloadRoot w with Some d => done_event (EvCloseRoot d) | None => mret () end ≫= λ _,
  done_event (EvCloseRoot (aw_root w)).
Definition close_all (roots : gmap string attachmentWorkspace) : MM () := mapM_ (λ kw, close_workspace kw.2) (map_to_list roots).
Definition close : MM () :=
  st ← gets mc_store;
  close_all (as_roots st) ≫= λ _,
  set_store (mkStore (as_outboundEnabled st) ((λ w, mkWorkspace (aw_root w) None) <$> as_roots st)).
Fixpoint open_workspaces (seen : gset string) (roots : gmap string attachmentWorkspace) (l : list (string * string))
    : MM (gmap string attachmentWorkspace) :=
  match l with
  | [] => mret roots
  | w :: l' =>
    opened ← attempt (open_workspace seen roots w);
    match opened with
    | inl e => close_all roots ≫= λ _, throw e
    | inr (seen, roots) => open_workspaces seen roots l'
    end
  end.
Definition newAttachmentStore (outboundEnabled : bool) (workspaces : list (string * string)) : MM () :=
  roots ← open_workspaces ∅ ∅ workspaces;
  set_store (mkStore outboundEnabled roots).

(** ** Outbound files *)

Definition sensitive_components : list string :=
  [".env"; ".ssh"; ".aws"; ".azure"; ".gnupg"; ".kube"; ".docker"; ".git"; ".hg"; ".svn"; ".claude"; ".codex"; ".team-relay";
   ".netrc"; ".npmrc"; ".pypirc"; ".gitconfig"; ".git-credentials";
   "credentials"; "credentials.json"; "id_rsa"; "id_ed25519"; "known_hosts"; "authorized_keys"].
Definition sensitive_component (component : string) : bool :=
  bool_decide (component ∈ sensitive_components) ||
  has_prefix component ".env." || has_suffix component ".pem" || has_suffix component ".key" || has_suffix component ".p12" ||
  has_suffix component ".pfx" || has_suffix component ".kdbx".
Definition sensitivePath (relativePath : string) : bool := existsb sensitive_component (split_byte "/"%char (to_lower relativePath)).

Definition resolve (alias relativePath : string) : MM (attachmentWorkspace * string) :=
  st ← gets mc_store;
  match as_roots st !! trim_space alias with
  | None => throw ErrAlias
  | Some workspace =>
    reject_if (negb (is_ok (ValidatePortableRelativePath relativePath))) ErrPath ≫= λ _,
    mret (workspace, relativePath)
  end.

(** The directories of [openRegularWithoutSymlinks]. *)
Fixpoint open_directories (current : handle) (components : list string) : MM handle :=
  match components with
  | [] => mret current
  | component :: components' =>
    before ← need ErrOpen (Lstat current component);
    reject_if (is_symlink before || negb (is_dir before)) ErrOpen ≫= λ _,
    next ← need ErrOpen (OpenRoot current component);
    openedInfo ← StatRoot next;
    after ← Lstat current component;
    reject_if (negb (unchanged before openedInfo after)) ErrChanged ≫= λ _,
    open_directories next components'
  end.
Definition open_regular (current : handle) (filename : string) : MM handle :=
  before ← need ErrOpen (Lstat current filename);
  reject_if (is_symlink before || negb (is_regular before)) ErrOpen ≫= λ _,
  file ← need ErrOpen (Open current filename);
  openedInfo ← Stat file;
  after ← Lstat current filename;
  reject_if (negb (unchanged before openedInfo after)) ErrChanged ≫= λ _,
  mret file.
Definition openRegularWithoutSymlinks (root : handle) (relativePath : string) : MM handle :=
  let components := split_byte "/"%char relativePath in
  current ← open_directories root (removelast components);
  open_regular current (default "" (last components)).

Definition prepareOne (input : LocalAttachment) : MM AttachmentInput :=
  '(workspace, relativePath) ← resolve (la_WorkspaceAlias input) (la_RelativePath input);
  reject_if (sensitivePath relativePath) ErrSensitive ≫= λ _,
  file ← openRegularWithoutSymlinks (aw_root workspace) relativePath;
  info ← need ErrRead (Stat file);
  reject_if (negb (is_regular info)) ErrNotRegular ≫= λ _,
  reject_if (MaxAttachmentBytes <? fi_Size info) ErrTooLarge ≫= λ _,
  contents ← need ErrRead (asked (λ l, os_ReadAll os l file) (EvReadAll file));
  let payload := limit_read (MaxAttachmentBytes + 1) contents in
  reject_if (MaxAttachmentBytes <? len payload) ErrTooLarge ≫= λ _,
  let byExtension := TypeByExtension (path_ext relativePath) in
  let mimeType := if bool_decide (byExtension = "") then DetectContentType payload else byExtension in
  mret (mkAttachmentInput (base_name relativePath) mimeType "base64" (len payload) (sha256_hex payload) (b64_encode payload)).
Fixpoint prepare_files (seenNames : gset string) (total : Z) (inputs : list LocalAttachment) : MM (list AttachmentInput) :=
  match inputs with
  | [] => mret []
  | input :: inputs' =>
    item ← prepareOne input;
    let nameKey := to_lower (ai_Name item) in
    reject_if (bool_decide (nameKey ∈ seenNames)) ErrDuplicateFile ≫= λ _,
    let total := total + ai_SizeBytes item in
    reject_if (MaxRequestPayloadBytes <? total) ErrTotalSize ≫= λ _,
    rest ← prepare_files ({[nameKey]} ∪ seenNames) total inputs';
    mret (item :: rest)
  end.
Definition prepare (inputs : list LocalAttachment) : MM (list AttachmentInput) :=
  match inputs with
  | [] => mret []
  | _ =>
    st ← gets mc_store;
    reject_if (negb (as_outboundEnabled st)) ErrOutboundDisabled ≫= λ _,
    reject_if (MaxAttachments <? Z.of_nat (length inputs)) ErrTooManyFiles ≫= λ _,
    prepare_files ∅ 0 inputs
  end.

(** ** Returned files *)

Definition resolveDownload (alias relativePath : string) : MM (attachmentWorkspace * string) :=
  st ← gets mc_store;
  match as_roots st !! trim_space alias with
  | None => throw ErrAlias
  | Some workspace =>
    reject_if (negb (is_ok (ValidatePortableFilename relativePath))) ErrPath ≫= λ _,
    reject_if (sensitivePath relativePath) ErrSensitive ≫= λ _,
    mret (workspace, relativePath)
  end.
Definition validateDownloadRootLocked (w : attachmentWorkspace) (opened : handle) : MM () :=
  openedInfo ← StatRoot opened;
  current ← Lstat (aw_root w) downloadDirectory;
  match openedInfo, current with
  | Some o, Some c =>
    reject_if (is_symlink c || negb (is_dir c) || negb (same_file o c)) ErrDownloadDirectory
  | _, _ => throw ErrDownloadDirectory
  end.
(** The workspaces are shared: their fields are read when they are used. *)
Definition workspace_of (alias : string) : MM attachmentWorkspace :=
  st ← gets mc_store;
  match as_roots st !! trim_space alias with Some w => mret w | None => throw ErrAlias end.
Definition set_download_root (alias : string) (w : attachmentWorkspace) (d : handle) : MM () :=
  st ← gets mc_store;
  set_store (mkStore (as_outboundEnabled st) (<[trim_space alias := mkWorkspace (aw_root w) (Some d)]> (as_roots st))).
(** The first look at the directory, which makes it. *)
Definition inspect_download (root : handle) : MM FileInfo :=
  before ← Lstat root downloadDirectory;
  match before with
  | Some i => mret i
  | None =>
    missing ← asked (λ l, os_Missing os l root downloadDirectory) (EvMissing root downloadDirectory);
    reject_if (negb missing) ErrDownloadDirectory ≫= λ _,
    made ← asked (λ l, os_Mkdir os l root downloadDirectory) (EvMkdir root downloadDirectory);
    reject_if (negb made) ErrDownloadDirectory ≫= λ _,
    need ErrDownloadDirectory (Lstat root downloadDirectory)
  end.
Definition openDownloadRoot (alias : string) : MM handle :=
  w ← workspace_of alias;
  match aw_downloadRoot w with
  | Some d => validateDownloadRootLocked w d ≫= λ _, mret d
  | None =>
    before ← inspect_download (aw_root w);
    reject_if (is_symlink before || negb (is_dir before)) ErrDownloadDirectory ≫= λ _,
    opened ← need ErrDownloadDirectory (OpenRoot (aw_root w) downloadDirectory);
    openedInfo ← StatRoot opened;
    after ← Lstat (aw_root w) downloadDirectory;
    (if unchanged before openedInfo after then mret () else done_event (EvCloseRoot opened) ≫= λ _, throw ErrDownloadDirectory : MM ()) ≫= λ _,
    set_download_root alias w opened ≫= λ _,
    mret opened
  end.
Definition validateDownloadRoot (alias : string) (expected : handle) : MM () :=
  w ← workspace_of alias;
  reject_if (negb (bool_decide (aw_downloadRoot w = Some expected))) ErrDownloadDirectory ≫= λ _,
  validateDownloadRootLocked w expected.

(** What is checked of the content before anything is written. *)
Definition returned_payload (content : ArtifactContent) : mcp_error + string :=
  let d := ac_Descriptor content in
  fail_if (negb (bool_decide (ac_Encoding content = "base64"))) ErrEncoding ≫= λ _,
  fail_if (negb (is_ok (ValidatePortableFilename (ad_Name d))) || sensitivePath (ad_Name d)) ErrBlockedName ≫= λ _,
  match b64_decode (ac_ContentBase64 content) with
  | None => inl ErrDecode
  | Some payload =>
    fail_if (negb (len payload =? ad_SizeBytes d) || (MaxAttachmentBytes <? len payload)) ErrSize ≫= λ _,
    fail_if (negb (equal_fold (sha256_hex payload) (ad_SHA256 d))) ErrChecksum ≫= λ _,
    inr payload
  end.
(** Between the creation of the file and the answer; whatever fails, the file
    is removed. *)
Definition fill_download (alias : string) (downloadRoot file : handle) (payload : string) : MM () :=
  written ← asked (λ l, os_Write os l file payload) (EvWrite file payload);
  (if written : bool then mret () else asked (λ l, os_Close os l file) (EvClose file) ≫= λ _, throw ErrWrite : MM ()) ≫= λ _,
  closed ← asked (λ l, os_Close os l file) (EvClose file);
  reject_if (negb closed) ErrClose ≫= λ _,
  validateDownloadRoot alias downloadRoot.
Definition save (alias relativePath : string) (content : ArtifactContent) : MM DownloadedFile :=
  '(workspace, filename) ← resolveDownload alias relativePath;
  payload ← lift (returned_payload content);
  downloadRoot ← openDownloadRoot alias;
  file ← need ErrCreate (asked (λ l, os_Create os l downloadRoot filename) (EvCreate downloadRoot filename));
  filled ← attempt (fill_download alias downloadRoot file payload);
  match filled with
  | inl e => done_event (EvRemove downloadRoot filename) ≫= λ _, throw e
  | inr _ =>
    let d := ac_Descriptor content in
    mret (mkDownloaded (trim_space alias) (Sandbox.path_Join [downloadDirectory; filename]) (ad_Name d) (ad_MIMEType d) (ad_SizeBytes d) (ad_SHA256 d))
  end.

(** ** The tools ([server.go]) *)

Record FindTeammatesInput := mkFind {
  ft_Need : string; ft_Capabilities : list string; ft_WorkspaceAliases : list string; ft_OnlineOnly : bool; ft_AcceptingOnly : bool; ft_Limit : Z }.
Record RequestHelpInput := mkHelp {
  rh_TargetAgentID : string; rh_Title : string; rh_Prompt : string; rh_RequestedAccess : list RequestedAccess;
  rh_Attachments : list LocalAttachment; rh_ExpiresInSeconds : Z; rh_IdempotencyKey : string }.
Record ContinueInput := mkContinue {
  ci_ConversationID : string; ci_Title : string; ci_Prompt : string; ci_RequestedAccess : list RequestedAccess;
  ci_Attachments : list LocalAttachment; ci_ExpiresInSeconds : Z; ci_IdempotencyKey : string }.
Record DownloadInput := mkDownload { di_RequestID : string; di_ArtifactID : string; di_WorkspaceAlias : string; di_RelativePath : string }.

Definition validateID (value : string) : mcp_error + () :=
  let value := trim_space value in
  fail_if (bool_decide (value = "")) ErrID ≫= λ _,
  fail_if (200 <? len value) ErrID ≫= λ _,
  fail_if (negb (forallb CollabStore.identifier_rune (runes value))) ErrID.
Fixpoint access_loop (seen : gset string) (access : list RequestedAccess) : mcp_error + () :=
  match access with
  | [] => inr ()
  | item :: access' =>
    let alias := trim_space (ra_WorkspaceAlias item) in
    fail_if (bool_decide (alias = "") || contains_any alias "/\") ErrAccess ≫= λ _,
    fail_if (negb (bool_decide (ra_Mode item = PermissionReadOnly)) && negb (bool_decide (ra_Mode item = PermissionGuardedWrite))) ErrAccess ≫= λ _,
    let key := to_lower alias in
    fail_if (bool_decide (key ∈ seen)) ErrAccess ≫= λ _,
    access_loop ({[key]} ∪ seen) access'
  end.
Definition validateAccess (access : list RequestedAccess) : mcp_error + () :=
  fail_if (10 <? Z.of_nat (length access)) ErrAccess ≫= λ _,
  access_loop ∅ access.
Definition cleanList (values : list string) : list string :=
  List.filter (λ v, negb (bool_decide (v = ""))) (trim_space <$> values).

(** [buildRequest], without a target *)
Definition buildRequest (title prompt : string) (access : list RequestedAccess) (files : list LocalAttachment) (expiry : Z) (idempotencyKey : string)
    : MM CreateRequest :=
  let prompt := trim_space prompt in
  reject_if (bool_decide (prompt = "")) ErrPrompt ≫= λ _,
  reject_if (MaxPromptBytes <? len prompt) ErrPrompt ≫= λ _,
  let title := if bool_decide (trim_space title = "") then "Teammate request" else trim_space title in
  reject_if (MaxTitleBytes <? len title) ErrTitle ≫= λ _,
  let expiry := if expiry =? 0 then serverDefaultExpiry else expiry in
  reject_if ((expiry <? 60) || (86400 <? expiry)) ErrExpiry ≫= λ _,
  lift (validateAccess access) ≫= λ _,
  attachments ← prepare files;
  lift (validateID idempotencyKey) ≫= λ _,
  mret (mkCreateRequest "" "" title prompt access attachments expiry (trim_space idempotencyKey)).
Definition with_target (id : string) (r : CreateRequest) : CreateRequest :=
  mkCreateRequest id (cr_ConversationID r) (cr_Title r) (cr_Prompt r) (cr_RequestedAccess r) (cr_Attachments r) (cr_ExpiresInSeconds r) (cr_IdempotencyKey r).
Definition with_conversation (id : string) (r : CreateRequest) : CreateRequest :=
  mkCreateRequest (cr_TargetAgentID r) id (cr_Title r) (cr_Prompt r) (cr_RequestedAccess r) (cr_Attachments r) (cr_ExpiresInSeconds r) (cr_IdempotencyKey r).

Context `{RL : Relay R}.

Definition findTeammates (input : FindTeammatesInput) : MM AgentDirectoryResponse :=
  reject_if ((ft_Limit input <? 0) || (maxListLimit <? ft_Limit input)) ErrLimit ≫= λ _,
  reject_if (MaxNeedBytes <? len (trim_space (ft_Need input))) ErrNeed ≫= λ _,
  call (relay_ListAgents (Client.mkAgentQuery (trim_space (ft_Need input)) (cleanList (ft_Capabilities input))
    (cleanList (ft_WorkspaceAliases input)) (ft_OnlineOnly input) (ft_AcceptingOnly input) (ft_Limit input))).
Definition requestHelp (input : RequestHelpInput) : MM MutationResponse :=
  lift (validateID (rh_TargetAgentID input)) ≫= λ _,
  request ← buildRequest (rh_Title input) (rh_Prompt input) (rh_RequestedAccess input) (rh_Attachments input) (rh_ExpiresInSeconds input)
    (rh_IdempotencyKey input);
  call (relay_CreateRequest (with_target (trim_space (rh_TargetAgentID input)) request)).
Definition continueConversation (input : ContinueInput) : MM MutationResponse :=
  lift (validateID (ci_ConversationID input)) ≫= λ _,
  request ← buildRequest (ci_Title input) (ci_Prompt input) (ci_RequestedAccess input) (ci_Attachments input) (ci_ExpiresInSeconds input)
    (ci_IdempotencyKey input);
  call (relay_CreateRequest (with_conversation (trim_space (ci_ConversationID input)) request)).
Definition getStatus (requestID : string) : MM Request :=
  lift (validateID requestID) ≫= λ _,
  call (relay_GetRequest (trim_space requestID)).
Definition cancel (requestID : string) : MM MutationResponse :=
  lift (validateID requestID) ≫= λ _,
  call (relay_CancelRequest (trim_space requestID)).
Definition download (input : DownloadInput) : MM DownloadedFile :=
  lift (validateID (di_RequestID input)) ≫= λ _,
  lift (validateID (di_ArtifactID input)) ≫= λ _,
  request ← call (relay_GetRequest (trim_space (di_RequestID input)));
  reject_if (negb (bool_decide (rq_Status request = StatusCompleted))) ErrNotCompleted ≫= λ _,
  match List.find (λ d, bool_decide (ad_ArtifactID d = trim_space (di_ArtifactID input))) (rq_ResultFiles request) with
  | None => throw ErrNotReturned
  | Some expected =>
    content ← call (relay_FetchArtifact (ad_ArtifactID expected));
    reject_if (negb (bool_decide (ac_Descriptor content = expected))) ErrMetadata ≫= λ _,
    save (di_WorkspaceAlias input) (di_RelativePath input) content
  end.
End mcp.
