(* ===== verification/McpProofs.v ===== *)
(** * What leaves and enters the requester's disk

    Whatever the operating system answers, the tools attach only files of
    configured workspaces that were checked at every step of their path, and
    save only what the completed request returned, or nothing. *)

From S2P Require Import Prelude GoString Sha256 GoStringFacts Protocol Redact RedactFacts Artifact Mcp.
From S2P Require CollabStore Sandbox Client.
From Stdlib Require Import Ascii.

Local Open Scope Z_scope.

Section proofs.
Context `{UT : UnicodeTables} {R : Type}.
Variable os : system.
Variables (TypeByExtension DetectContentType : string → string).
Implicit Types (s : mcp_state R) (t : list os_event).

(** ** Logs *)

Definition log_more t s : mcp_state R := mkMcp (mc_log s ++ t) (mc_store s) (mc_relay s).
Lemma log_more_nil s : log_more [] s = s.
Proof. unfold log_more. rewrite app_nil_r. by destruct s. Qed.
Lemma log_more_more t1 t2 s : log_more t2 (log_more t1 s) = log_more (t1 ++ t2) s.
Proof. unfold log_more. cbn. by rewrite app_assoc. Qed.
Lemma asked_inr {A} (answer : list os_event → A) ev s s' a : asked answer ev s = (s', inr a) → s' = log_more [ev a] s.
Proof. unfold asked. by intros [= <- <-]. Qed.
Lemma need_inr {A} e (m : M (mcp_state R) mcp_error (option A)) s s' a : need e m s = (s', inr a) → m s = (s', inr (Some a)).
Proof. unfold need. intros (s1 & [x|] & Hm & H)%bind_inr; [|done]. unfold mret, M_ret in H. by simplify_eq. Qed.

(** Only the log grows, and no file is made. *)
Definition makes_none t : Prop := ∀ root name h, EvCreate root name (Some h) ∉ t.
Definition reads s s' : Prop := ∃ t, s' = log_more t s ∧ makes_none t.
#[export] Instance reads_preorder : PreOrder reads.
Proof.
  split; [intros s; exists []; split; [by rewrite log_more_nil|by intros ??? []%elem_of_nil]|].
  intros s1 s2 s3 (t1 & -> & H1) (t2 & -> & H2). exists (t1 ++ t2). split; [apply log_more_more|].
  intros root name h [Hin|Hin]%elem_of_app; [by eapply H1|by eapply H2].
Qed.
Lemma reads_asked {A} (answer : list os_event → A) ev : (∀ a root name h, ev a ≠ EvCreate root name (Some h)) →
  guar reads (asked answer ev : M (mcp_state R) mcp_error A).
Proof.
  intros Hev s. exists [ev (answer (mc_log s))]. split; [done|]. intros root name h Hin%list_elem_of_singleton. by eapply Hev.
Qed.
Lemma reads_need {A} e (m : M (mcp_state R) mcp_error (option A)) : guar reads m → guar reads (need e m).
Proof. intros Hm. apply guar_bind; [apply _|done|]. intros []; [apply guar_ret, _|apply guar_throw, _]. Qed.
Lemma reads_done ev : (∀ root name h, ev ≠ EvCreate root name (Some h)) → guar reads (done_event ev : M (mcp_state R) mcp_error ()).
Proof. intros Hev. by apply reads_asked. Qed.
End proofs.
#[export] Hint Extern 1 (guar reads (asked _ _)) => apply reads_asked; done : guar.
#[export] Hint Extern 1 (guar reads (done_event _)) => apply reads_done; done : guar.
#[export] Hint Extern 1 (guar reads (need _ _)) => apply reads_need : guar.

Ltac mcp_inv := repeat first [progress run_inv | match goal with
  | H : need _ _ _ = (_, inr _) |- _ => apply need_inr in H
  | H : asked _ _ _ = (_, inr _) |- _ => apply asked_inr in H as ->
  | H : gets _ _ = (_, inr _) |- _ => unfold gets in H
  | H : Lstat _ _ _ _ = _ |- _ => unfold Lstat in H
  | H : OpenRoot _ _ _ _ = _ |- _ => unfold OpenRoot in H
  | H : StatRoot _ _ _ = _ |- _ => unfold StatRoot in H
  | H : Open _ _ _ _ = _ |- _ => unfold Open in H
  | H : Stat _ _ _ = _ |- _ => unfold Stat in H
  end].

(** ** Reading a file *)

(** [name] was looked at before and after it was opened, and stayed the same
    object, no link. *)
Definition same_object (before opened after : FileInfo) : Prop :=
  fi_Kind after ≠ KindSymlink ∧ fi_File opened = fi_File before ∧ fi_File after = fi_File before.
Inductive walk : handle → list string → list os_event → handle → Prop :=
  | walk_end root : walk root [] [] root
  | walk_step root name names next last before opened after t :
      fi_Kind before = KindDirectory → same_object before opened after → walk next names t last →
      walk root (name :: names)
        (EvLstat root name (Some before) :: EvOpenRoot root name (Some next) :: EvStatRoot next (Some opened) ::
         EvLstat root name (Some after) :: t) last.
(** The whole of a regular file, reached from a directory without a link. *)
Inductive read_whole (root : handle) (path contents : string) : list os_event → Prop :=
  | read_file names name directory file before opened after info t :
      split_byte "/"%char path = names ++ [name] → walk root names t directory →
      fi_Kind before = KindRegular → same_object before opened after → fi_Kind info = KindRegular →
      read_whole root path contents
        (t ++ [EvLstat directory name (Some before); EvOpen directory name (Some file); EvStat file (Some opened);
               EvLstat directory name (Some after); EvStat file (Some info); EvReadAll file (Some contents)]).

Section read.
Context `{UT : UnicodeTables} {R : Type}.
Variable os : system.
Variables (TypeByExtension DetectContentType : string → string).
Implicit Types (s : mcp_state R) (t : list os_event).
Abbreviation MM := (M (mcp_state R) mcp_error).

Lemma unchanged_spec before opened after : unchanged before opened after = true →
  ∃ o a, opened = Some o ∧ after = Some a ∧ same_object before o a.
Proof.
  unfold unchanged, is_symlink, same_file. destruct opened as [o|], after as [a|]; try done. intros H. orb_split.
  exists o, a. split_and!; [done|done|]. unfold same_object. by split_and!.
Qed.
Lemma open_directories_run names : ∀ s s' root h, open_directories os root names s = (s', inr h) →
  ∃ t, s' = log_more t s ∧ walk root names t h.
Proof.
  induction names as [|name names IH]; intros s s' root h Hrun; cbn [open_directories] in Hrun; mcp_inv.
  { exists []. split; [by rewrite log_more_nil|constructor]. }
  match goal with H : negb (unchanged _ _ _) = false |- _ => apply negb_false_iff, unchanged_spec in H as (o & a & -> & -> & Hsame) end.
  match goal with H : open_directories _ _ _ _ = _ |- _ => apply IH in H as (t & -> & Hwalk) end. orb_split.
  eexists. split; [by rewrite !log_more_more|]. cbn [app]. econstructor; [|exact Hsame|exact Hwalk].
  match goal with H : is_dir _ = true |- _ => unfold is_dir in H; by apply bool_decide_eq_true in H end.
Qed.
Lemma split_last p : split_byte "/"%char p = removelast (split_byte "/"%char p) ++ [base_name p].
Proof.
  unfold base_name. destruct (split_byte "/"%char p) as [|x l] eqn:Hs using rev_ind.
  { exfalso. destruct p as [|c p]; [done|]. cbn [split_byte] in Hs. case_match; [done|]. by destruct (split_byte "/"%char p). }
  by rewrite removelast_last, last_snoc.
Qed.
Lemma open_regular_run s s' directory name file : open_regular os directory name s = (s', inr file) →
  ∃ before opened after, fi_Kind before = KindRegular ∧ same_object before opened after ∧
    s' = log_more [EvLstat directory name (Some before); EvOpen directory name (Some file); EvStat file (Some opened);
                   EvLstat directory name (Some after)] s.
Proof.
  unfold open_regular. intros Hrun. mcp_inv.
  match goal with H : negb (unchanged _ _ _) = false |- _ => apply negb_false_iff, unchanged_spec in H as (o & a & -> & -> & Hsame) end.
  orb_split. eexists _, o, a. split; [|split; [exact Hsame|by rewrite !log_more_more]].
  match goal with H : is_regular _ = true |- _ => unfold is_regular in H; by apply bool_decide_eq_true in H end.
Qed.

(** A file as the agent may attach it. *)
Definition attached (st : attachmentStore) (input : LocalAttachment) (item : AttachmentInput) t : Prop :=
  ∃ w contents, as_roots st !! trim_space (la_WorkspaceAlias input) = Some w ∧
    is_ok (ValidatePortableRelativePath (la_RelativePath input)) = true ∧ sensitivePath (la_RelativePath input) = false ∧
    read_whole (aw_root w) (la_RelativePath input) contents t ∧
    ai_Name item = base_name (la_RelativePath input) ∧ ai_Encoding item = "base64" ∧
    b64_decode (ai_ContentBase64 item) = Some contents ∧ ai_SizeBytes item = len contents ∧ len contents <= MaxAttachmentBytes ∧
    ai_SHA256 item = sha256_hex contents.
Lemma limit_read_whole n contents : len (limit_read (n + 1) contents) <= n → 0 <= n → limit_read (n + 1) contents = contents.
Proof.
  unfold limit_read. destruct (len contents <=? n + 1) eqn:Hl; [done|]. unfold len in *. rewrite length_take_bytes. lia.
Qed.
Lemma resolve_run alias path s s' w p : resolve alias path s = (s', inr (w, p)) →
  s' = s ∧ p = path ∧ as_roots (mc_store s) !! trim_space alias = Some w ∧ is_ok (ValidatePortableRelativePath path) = true.
Proof.
  unfold resolve. intros (s1 & st & H & Hrun)%bind_inr. unfold gets in H. injection H as <- <-.
  destruct (as_roots (mc_store s) !! trim_space alias) as [w'|]; [|done]. mcp_inv. by orb_split.
Qed.
Lemma prepareOne_run input s s' item : prepareOne os TypeByExtension DetectContentType input s = (s', inr item) →
  ∃ t, s' = log_more t s ∧ attached (mc_store s) input item t.
Proof.
  unfold prepareOne. intros (s1 & [w path] & H & Hrun)%bind_inr. apply resolve_run in H as (-> & -> & Hw & Hok). mcp_inv.
  unfold openRegularWithoutSymlinks in *. mcp_inv.
  match goal with H : open_directories _ _ _ _ = _ |- _ => apply open_directories_run in H as (t & -> & Hwalk) end.
  match goal with H : open_regular _ _ _ _ = _ |- _ => apply open_regular_run in H as (before & opened & after & Hk & Hsame & ->) end.
  rewrite limit_read_whole in * by (unfold MaxAttachmentBytes in *; lia). orb_split.
  eexists. split; [by rewrite !log_more_more|]. exists w. eexists. split; [exact Hw|]. split; [exact Hok|]. split; [done|]. split.
  { pose proof (split_last (la_RelativePath input)) as Hsplit. repeat (rewrite <- app_assoc; cbn [app]). econstructor; [exact Hsplit|exact Hwalk|exact Hk|exact Hsame|].
    match goal with H : is_regular _ = true |- _ => unfold is_regular in H; by apply bool_decide_eq_true in H end. }
  cbn. split_and!; try done; [apply b64_decode_encode|lia].
Qed.
End read.

(** ** A request *)

Section request.
Context `{UT : UnicodeTables} {R : Type} `{RL : Relay R}.
Variable os : system.
Variables (TypeByExtension DetectContentType : string → string).
Implicit Types (s : mcp_state R) (t : list os_event).

Definition names_of (l : list AttachmentInput) : list string := to_lower ∘ ai_Name <$> l.
Lemma prepare_files_run inputs : ∀ seen total s s' items, total <= MaxRequestPayloadBytes →
  prepare_files os TypeByExtension DetectContentType seen total inputs s = (s', inr items) →
  ∃ ts, s' = log_more (concat ts) s ∧ Forall3 (attached (mc_store s)) inputs items ts ∧
    NoDup (names_of items) ∧ Forall (.∉ seen) (names_of items) ∧ total + sum_files items <= MaxRequestPayloadBytes.
Proof.
  induction inputs as [|input inputs IH]; intros seen total s s' items Ht Hrun; cbn [prepare_files] in Hrun.
  { mcp_inv. exists []. change (sum_files []) with 0. split_and!; try constructor; [by rewrite log_more_nil|lia]. }
  apply bind_inr in Hrun as (s1 & item & H1 & Hrun). apply prepareOne_run in H1 as (t & -> & Hitem). mcp_inv. orb_split.
  match goal with H : prepare_files _ _ _ _ _ _ _ = _ |- _ => apply IH in H as (ts & -> & Hall & Hdup & Hseen & Hsum); [|lia] end.
  exists (t :: ts). rewrite log_more_more. unfold names_of in *. rewrite !fmap_cons. change (sum_files (?x :: ?y)) with (ai_SizeBytes x + sum_files y).
  rewrite Forall_forall in Hseen. split_and!; [done|by constructor| | |lia].
  - constructor; [|done]. intros Hin%Hseen. set_solver.
  - constructor; [done|]. apply Forall_forall. intros x Hx%Hseen. set_solver.
Qed.

(** The files of a request: none, or as many as the limits allow from
    workspaces of an owner who allows it, each read as [attached] says, in
    this order and with no other access. *)
Definition files_sent (st : attachmentStore) (files : list LocalAttachment) (items : list AttachmentInput) t : Prop :=
  (files ≠ [] → as_outboundEnabled st = true) ∧ Z.of_nat (length files) <= MaxAttachments ∧
  (∃ ts, t = concat ts ∧ Forall3 (attached st) files items ts) ∧
  NoDup (names_of items) ∧ sum_files items <= MaxRequestPayloadBytes.
Lemma prepare_run files s s' items : prepare os TypeByExtension DetectContentType files s = (s', inr items) →
  ∃ t, s' = log_more t s ∧ files_sent (mc_store s) files items t.
Proof.
  unfold prepare. destruct files as [|f files]; intros Hrun.
  { mcp_inv. exists []. split; [by rewrite log_more_nil|]. unfold files_sent. cbn. split_and!; try constructor; try done. exists []. by repeat constructor. }
  apply bind_inr in Hrun as (s1 & st & H & Hrun). unfold gets in H. injection H as <- <-. mcp_inv. orb_split.
  match goal with H : prepare_files _ _ _ _ _ _ _ = _ |- _ => apply prepare_files_run in H as (ts & -> & Hall & Hdup & _ & Hsum); [|done] end.
  exists (concat ts). split; [done|]. unfold files_sent. split_and!; try done; [lia|]. by exists ts.
Qed.

Definition id_ok (id : string) : Prop :=
  id = trim_space id ∧ id ≠ "" ∧ len id <= 200 ∧ forallb CollabStore.identifier_rune (runes id) = true.
Definition access_ok (seen : gset string) (l : list RequestedAccess) : Prop :=
  Forall (λ a, trim_space (ra_WorkspaceAlias a) ≠ "" ∧ contains_any (trim_space (ra_WorkspaceAlias a)) "/\" = false ∧
    (ra_Mode a = PermissionReadOnly ∨ ra_Mode a = PermissionGuardedWrite) ∧ to_lower (trim_space (ra_WorkspaceAlias a)) ∉ seen) l ∧
  NoDup ((λ a, to_lower (trim_space (ra_WorkspaceAlias a))) <$> l).
(** A request the tools send, whoever it is for. *)
Definition sendable (r : CreateRequest) : Prop :=
  cr_Prompt r = trim_space (cr_Prompt r) ∧ cr_Prompt r ≠ "" ∧ len (cr_Prompt r) <= MaxPromptBytes ∧
  cr_Title r = trim_space (cr_Title r) ∧ cr_Title r ≠ "" ∧ len (cr_Title r) <= MaxTitleBytes ∧
  60 <= cr_ExpiresInSeconds r <= 86400 ∧ Z.of_nat (length (cr_RequestedAccess r)) <= 10 ∧ access_ok ∅ (cr_RequestedAccess r) ∧
  id_ok (cr_IdempotencyKey r).

Lemma validateID_ok id u : validateID id = inr u → id_ok (trim_space id).
Proof.
  unfold validateID. destruct (bool_decide (trim_space id = "")) eqn:H1; [done|]. destruct (200 <? len (trim_space id)) eqn:H2; [done|].
  destruct (forallb _ _) eqn:H3; [|done]. intros _. orb_split. unfold id_ok. rewrite trim_space_idem. split_and!; [done|done|lia|done].
Qed.
Lemma access_loop_ok l : ∀ seen u, access_loop seen l = inr u → access_ok seen l.
Proof.
  induction l as [|a l IH]; intros seen u; cbn [access_loop]; [by repeat constructor|].
  destruct (bool_decide (trim_space (ra_WorkspaceAlias a) = "") || _) eqn:H1; [done|]. destruct (_ && _) eqn:H2; [done|].
  destruct (bool_decide (_ ∈ seen)) eqn:H3; [done|]. cbn [fail_if mbind sum_bind]. intros (Hall & Hdup)%IH. orb_split.
  rewrite Forall_forall in Hall. split.
  - constructor.
    + split_and!; try done. apply andb_false_iff in H2 as [H2|H2]; orb_split; auto.
    + apply Forall_forall. intros x Hx. destruct (Hall x Hx) as (? & ? & ? & ?). split_and!; try done. set_solver.
  - rewrite fmap_cons. constructor; [|done]. intros (x & Hx & Hin)%list_elem_of_fmap. destruct (Hall x Hin) as (_ & _ & _ & Hn). apply Hn. rewrite <- Hx. set_solver.
Qed.
Lemma validateAccess_ok l u : validateAccess l = inr u → Z.of_nat (length l) <= 10 ∧ access_ok ∅ l.
Proof.
  unfold validateAccess. destruct (10 <? Z.of_nat (length l)) eqn:H; [done|]. cbn [fail_if mbind sum_bind]. intros Hl%access_loop_ok. split; [lia|done].
Qed.

Lemma buildRequest_run title prompt access files expiry key s s' r :
  buildRequest os TypeByExtension DetectContentType title prompt access files expiry key s = (s', inr r) →
  ∃ t, s' = log_more t s ∧ sendable r ∧ files_sent (mc_store s) files (cr_Attachments r) t.
Proof.
  unfold buildRequest. intros Hrun. mcp_inv.
  match goal with H : prepare _ _ _ _ _ = _ |- _ => apply prepare_run in H as (t & -> & Hfiles) end.
  match goal with H : validateID _ = _ |- _ => apply validateID_ok in H end.
  match goal with H : validateAccess _ = _ |- _ => apply validateAccess_ok in H as [Hlen Haccess] end. orb_split.
  exists t. split; [done|]. split; [|exact Hfiles]. unfold sendable. cbn [cr_Prompt cr_Title cr_ExpiresInSeconds cr_RequestedAccess cr_IdempotencyKey].
  rewrite trim_space_idem. split_and!; try done; try lia; case_bool_decide; rewrite ?trim_space_idem; done || lia.
Qed.
Lemma reads_open_directories names : ∀ root, guar reads (open_directories os root names : M (mcp_state R) mcp_error _).
Proof. induction names as [|name names IH]; intros root; cbn [open_directories]; unfold Lstat, OpenRoot, StatRoot; guar_auto; apply _ || apply IH. Qed.
Lemma reads_prepareOne input : guar reads (prepareOne os TypeByExtension DetectContentType input : M (mcp_state R) mcp_error _).
Proof.
  unfold prepareOne, resolve, openRegularWithoutSymlinks, open_regular, Lstat, Open, Stat.
  guar_auto; apply _ || apply reads_open_directories.
Qed.
Lemma reads_prepare files : guar reads (prepare os TypeByExtension DetectContentType files : M (mcp_state R) mcp_error _).
Proof.
  unfold prepare. destruct files as [|f files]; [apply guar_ret, _|]. guar_auto; try apply _. generalize (f :: files) as l.
  generalize (∅ : gset string) 0. intros seen total l. revert seen total.
  induction l as [|i l IH]; intros seen total; cbn [prepare_files]; guar_auto; apply _ || apply reads_prepareOne || apply IH.
Qed.
Lemma reads_buildRequest title prompt access files expiry key :
  guar reads (buildRequest os TypeByExtension DetectContentType title prompt access files expiry key : M (mcp_state R) mcp_error _).
Proof. unfold buildRequest. guar_auto; apply _ || apply reads_prepare. Qed.

(** A tool that sends a request: nothing reached the relay, or the request of
    [addressed] did, once, and its answer is the answer. *)
Definition sends (files : list LocalAttachment) (addressed : CreateRequest → CreateRequest) s s' (res : mcp_error + MutationResponse) : Prop :=
  (mc_relay s' = mc_relay s ∧ is_ok res = false) ∨
  ∃ r t, sendable r ∧ cr_TargetAgentID r = "" ∧ cr_ConversationID r = "" ∧ files_sent (mc_store s) files (cr_Attachments r) t ∧
    mc_log s' = mc_log s ++ t ∧
    let (after, answer) := relay_CreateRequest (addressed r) (mc_relay s) in
    mc_relay s' = after ∧ res = match answer with inl e => inl (ErrRelay e) | inr a => inr a end.
Lemma sends_run id addressed title prompt access files expiry key s s' res :
  (lift (validateID id) ≫= λ _,
   request ← buildRequest os TypeByExtension DetectContentType title prompt access files expiry key;
   call (relay_CreateRequest (addressed request))) s = (s', res) →
  mc_store s' = mc_store s ∧ makes_none (drop (length (mc_log s)) (mc_log s')) ∧ sends files addressed s s' res ∧
  (is_ok res = true → id_ok (trim_space id)).
Proof.
  unfold mbind, M_bind, lift. destruct (validateID id) as [e|u] eqn:Hid.
  { intros [= <- <-]. split; [done|]. rewrite drop_ge by done. split; [by intros ??? []%elem_of_nil|]. split; [by left|done]. }
  pose proof (reads_buildRequest title prompt access files expiry key s) as (t & Hs & Hnone).
  destruct (buildRequest _ _ _ _ _ _ _ _ _ s) as [s1 [e|r]] eqn:Hbuild; cbn [fst] in Hs.
  { intros [= <- <-]. rewrite Hs. cbn. rewrite drop_app_length. split; [done|]. split; [done|]. split; [by left|done]. }
  assert (cr_TargetAgentID r = "" ∧ cr_ConversationID r = "") as [Ht Hc].
  { unfold buildRequest in Hbuild. mcp_inv. done. }
  apply buildRequest_run in Hbuild as (t' & -> & Hsend & Hfiles). rewrite Hs. unfold call. 
  assert (log_more t' s = log_more t s) as Heq by done. apply (f_equal mc_log) in Heq. cbn in Heq. apply app_inv_head in Heq as ->.
  cbn [mc_relay log_more mc_store mc_log].
  destruct (relay_CreateRequest (addressed r) (mc_relay s)) as [after answer] eqn:Hrelay. intros [= <- <-]. cbn. rewrite drop_app_length.
  split; [done|]. split; [done|]. split; [|intros _; by eapply validateID_ok].
  right. exists r, t. rewrite Hrelay. by split_and!.
Qed.
End request.

(** ** A returned file *)

(** [d] is the directory that was opened as the dedicated one of a workspace,
    no link, the same object around its opening. *)
Definition pinned_root (log : list os_event) (root d : handle) : Prop :=
  ∃ l1 t l2, log = l1 ++ t ++ l2 ∧ walk root [downloadDirectory] t d.
Lemma pinned_more log t root d : pinned_root log root d → pinned_root (log ++ t) root d.
Proof. intros (l1 & u & l2 & -> & H). exists l1, u, (l2 ++ t). by rewrite <- !app_assoc. Qed.
(** Every file that was made was then removed. *)
Definition undone (t : list os_event) : Prop := ∀ root name h, EvCreate root name (Some h) ∈ t → EvRemove root name ∈ t.

Section download.
Context `{UT : UnicodeTables} {R : Type} `{RL : Relay R}.
Variable os : system.
Implicit Types (s : mcp_state R) (t : list os_event).

Definition pinned s : Prop := ∀ alias w d,
  as_roots (mc_store s) !! alias = Some w → aw_downloadRoot w = Some d → pinned_root (mc_log s) (aw_root w) d.
(** No file is made, and the workspaces keep their directories. *)
Definition prepares s s' : Prop :=
  (∃ t, mc_log s' = mc_log s ++ t ∧ makes_none t) ∧ mc_relay s' = mc_relay s ∧
  aw_root <$> as_roots (mc_store s') = aw_root <$> as_roots (mc_store s) ∧ (pinned s → pinned s').
#[export] Instance prepares_preorder : PreOrder prepares.
Proof.
  split.
  - intros s. split_and!; try done. exists []. split; [by rewrite app_nil_r|by intros ??? []%elem_of_nil].
  - intros s1 s2 s3 ((t1 & H1 & N1) & R1 & A1 & P1) ((t2 & H2 & N2) & R2 & A2 & P2). split_and!; [|congruence|congruence|tauto].
    exists (t1 ++ t2). rewrite H2, H1, app_assoc. split; [done|]. intros ??? [Hin|Hin]%elem_of_app; [by eapply N1|by eapply N2].
Qed.
Lemma reads_prepares s s' : reads s s' → prepares s s'.
Proof.
  intros (t & -> & Hn). split_and!; try done; [by exists t|]. intros Hp alias w d H1 H2. apply pinned_more. by eapply Hp.
Qed.
Lemma wp_prepares {A} (m : M (mcp_state R) mcp_error A) (Q : A → mcp_state R → Prop) s0 s :
  guar reads m → prepares s0 s → (∀ a s', m s = (s', inr a) → prepares s0 s' → Q a s') → wp m Q (λ _, prepares s0) s.
Proof.
  intros Hm Hs HQ. unfold wp. specialize (Hm s). destruct (m s) as [s' [e|a]]; cbn [fst] in Hm;
    [|apply HQ; [done|]]; etrans; [exact Hs|by apply reads_prepares|exact Hs|by apply reads_prepares].
Qed.
Lemma inspect_download_run root s s' before : inspect_download os root s = (s', inr before) →
  ∃ t, s' = log_more (t ++ [EvLstat root downloadDirectory (Some before)]) s.
Proof.
  unfold inspect_download. intros (s1 & o & H & Hrun)%bind_inr. unfold Lstat in H. apply asked_inr in H as ->. destruct o as [i|]; mcp_inv; [by exists []|].
  eexists [_; _; _]. by rewrite !log_more_more.
Qed.
Lemma reads_inspect root : guar reads (inspect_download os root : M (mcp_state R) mcp_error FileInfo).
Proof. unfold inspect_download, Lstat. guar_auto; apply _. Qed.
Lemma reads_validate w d : guar reads (validateDownloadRootLocked os w d : M (mcp_state R) mcp_error ()).
Proof. unfold validateDownloadRootLocked, StatRoot, Lstat. guar_auto; apply _. Qed.

Lemma openDownloadRoot_wp alias s : wp (openDownloadRoot os alias)
  (λ d s', prepares s s' ∧ ∃ w, as_roots (mc_store s') !! trim_space alias = Some w ∧ aw_downloadRoot w = Some d) (λ _, prepares s) s.
Proof.
  unfold openDownloadRoot, workspace_of. apply wp_bind, wp_bind, wp_gets. destruct (as_roots (mc_store s) !! trim_space alias) as [w|] eqn:Hw; [|apply wp_throw; reflexivity].
  apply wp_ret. destruct (aw_downloadRoot w) as [d|] eqn:Hd.
  { apply wp_bind. apply wp_prepares; [apply reads_validate|reflexivity|]. intros u s1 Hrun H1. apply wp_ret. split; [exact H1|]. exists w.
    unfold validateDownloadRootLocked in Hrun. apply bind_inr in Hrun as (s2 & o & Ho & Hrun). unfold StatRoot in Ho. apply asked_inr in Ho as ->.
    apply bind_inr in Hrun as (s2 & c & Hc & Hrun). unfold Lstat in Hc. apply asked_inr in Hc as ->. destruct o, c; try done. by apply reject_if_inr in Hrun as [_ ->]. }
  apply wp_bind, wp_prepares; [apply reads_inspect|reflexivity|]. intros before s1 Hi H1. apply inspect_download_run in Hi as (t & ->).
  apply wp_bind, wp_reject_if; [intros Hdir|intros _; exact H1]. apply wp_bind, wp_prepares; [unfold OpenRoot; apply reads_need, reads_asked; done|exact H1|].
  intros opened s2 Ho H2. apply need_inr, asked_inr in Ho as ->. 
  apply wp_bind, wp_prepares; [apply reads_asked; done|exact H2|]. intros openedInfo s3 Ho H3. apply asked_inr in Ho as ->.
  apply wp_bind, wp_prepares; [apply reads_asked; done|exact H3|]. intros after s4 Ha H4. apply asked_inr in Ha as ->.
  destruct (unchanged before openedInfo after) eqn:Hun.
  2: { apply wp_bind, wp_bind. apply wp_prepares; [apply reads_done; done|exact H4|]. intros u s5 _ H5. exact H5. }
  apply wp_bind, wp_ret. unfold set_download_root, set_store. apply wp_bind, wp_bind, wp_gets, wp_modify, wp_ret.
  cbn [mc_store mc_log mc_relay as_roots as_outboundEnabled log_more]. split.
  2: { exists (mkWorkspace (aw_root w) (Some opened)). by rewrite lookup_insert_eq. }
  etrans; [exact H4|]. clear H1 H2 H3 H4. split_and!; cbn [mc_store mc_log mc_relay as_roots log_more]; try done.
  - exists []. split; [by rewrite app_nil_r|by intros ??? []%elem_of_nil].
  - rewrite fmap_insert. cbn. rewrite insert_id; [done|]. by rewrite lookup_fmap, Hw.
  - intros Hp alias' w' d' Hl Hd'. cbn [mc_store mc_log as_roots] in Hl |- *. rewrite lookup_insert_Some in Hl. destruct Hl as [[<- <-]|[_ Hl]]; [|by eapply Hp].
    cbn in Hd' |- *. injection Hd' as <-. apply unchanged_spec in Hun as (o & a & -> & -> & Hsame).
    eexists (mc_log s ++ t), [_; _; _; _], []. split; [by rewrite app_nil_r, <- !app_assoc|].
    econstructor; [|exact Hsame|constructor]. orb_split. unfold is_dir in *. by match goal with H : bool_decide (fi_Kind _ = KindDirectory) = true |- _ => apply bool_decide_eq_true in H end.
Qed.

(** The last five calls of a successful save. *)
Definition fill_trace (root d : handle) (filename payload : string) (file : handle) (opened current : FileInfo) : list os_event :=
  [EvCreate d filename (Some file); EvWrite file payload true; EvClose file true; EvStatRoot d (Some opened); EvLstat root downloadDirectory (Some current)].
Lemma fill_run alias d file payload w s s' u : as_roots (mc_store s) !! trim_space alias = Some w →
  fill_download os alias d file payload s = (s', inr u) →
  ∃ opened current, fi_Kind current = KindDirectory ∧ fi_File opened = fi_File current ∧ aw_downloadRoot w = Some d ∧
    s' = log_more [EvWrite file payload true; EvClose file true; EvStatRoot d (Some opened); EvLstat (aw_root w) downloadDirectory (Some current)] s.
Proof.
  unfold fill_download. intros Hw Hrun. apply bind_inr in Hrun as (s1 & written & Hwr & Hrun). apply asked_inr in Hwr as ->.
  apply bind_inr in Hrun as (s2 & [] & Hwritten & Hrun).
  destruct written; [|apply bind_inr in Hwritten as (? & ? & _ & Ht); discriminate Ht]. unfold mret, M_ret in Hwritten. injection Hwritten as <-.
  apply bind_inr in Hrun as (s3 & closed & Hc & Hrun). apply asked_inr in Hc as ->. run_inv.
  match goal with H : negb closed = false |- _ => apply negb_false_iff in H as -> end.
  unfold validateDownloadRoot, workspace_of in *. mcp_inv. cbn [log_more mc_store] in *. rewrite Hw in *. mcp_inv. orb_split.
  match goal with H : validateDownloadRootLocked _ _ _ _ = _ |- _ => unfold validateDownloadRootLocked in H; rename H into Hv end.
  apply bind_inr in Hv as (s4 & o & Ho & Hv). unfold StatRoot in Ho. apply asked_inr in Ho as ->.
  apply bind_inr in Hv as (s5 & c & Hc & Hv). unfold Lstat in Hc. apply asked_inr in Hc as ->. destruct o as [o|], c as [c|]; try done.
  run_inv. orb_split. exists o, c. unfold is_dir, same_file in *. orb_split. split_and!; try done. by rewrite !log_more_more.
Qed.
Lemma reads_fill alias d file payload : guar reads (fill_download os alias d file payload : M (mcp_state R) mcp_error ()).
Proof. unfold fill_download, validateDownloadRoot, workspace_of. guar_auto; apply _ || apply reads_validate. Qed.

Lemma resolveDownload_same alias path : guar eq (resolveDownload alias path : M (mcp_state R) mcp_error _).
Proof. unfold resolveDownload. guar_auto; apply _. Qed.
Lemma resolveDownload_run alias path s s' w p : resolveDownload alias path s = (s', inr (w, p)) →
  s' = s ∧ p = path ∧ as_roots (mc_store s) !! trim_space alias = Some w ∧ is_ok (ValidatePortableFilename path) = true ∧ sensitivePath path = false.
Proof.
  unfold resolveDownload. intros (s1 & st & H & Hrun)%bind_inr. unfold gets in H. injection H as <- <-.
  destruct (as_roots (mc_store s) !! trim_space alias) as [w'|]; [|done]. mcp_inv. by orb_split.
Qed.
Lemma returned_payload_ok content payload : returned_payload content = inr payload →
  ac_Encoding content = "base64" ∧ is_ok (ValidatePortableFilename (ad_Name (ac_Descriptor content))) = true ∧
  b64_decode (ac_ContentBase64 content) = Some payload ∧ matches_descriptor (ac_Descriptor content) payload.
Proof.
  unfold returned_payload. destruct (bool_decide _) eqn:H1; [|done]. destruct (negb (is_ok _) || _) eqn:H2; [done|]. cbn [negb fail_if mbind sum_bind].
  destruct (b64_decode _) as [q|]; [|done]. destruct (negb (len q =? _) || _) eqn:H3; [done|]. destruct (equal_fold _ _) eqn:H4; [|done].
  cbn [negb fail_if mbind sum_bind]. intros [= <-]. orb_split. unfold matches_descriptor. split_and!; try done; lia.
Qed.

(** What saving a returned file did. *)
Definition saved (alias filename : string) (content : ArtifactContent) (f : DownloadedFile) s s' : Prop :=
  ∃ w d file payload t opened current,
    as_roots (mc_store s) !! trim_space alias = Some w ∧
    is_ok (ValidatePortableFilename filename) = true ∧ sensitivePath filename = false ∧
    ac_Encoding content = "base64" ∧ b64_decode (ac_ContentBase64 content) = Some payload ∧ matches_descriptor (ac_Descriptor content) payload ∧
    mc_log s' = mc_log s ++ t ++ fill_trace (aw_root w) d filename payload file opened current ∧ makes_none t ∧
    pinned_root (mc_log s ++ t) (aw_root w) d ∧ fi_Kind current = KindDirectory ∧ fi_File opened = fi_File current ∧
    f = mkDownloaded (trim_space alias) (Sandbox.path_Join [downloadDirectory; filename]) (ad_Name (ac_Descriptor content))
          (ad_MIMEType (ac_Descriptor content)) (ad_SizeBytes (ac_Descriptor content)) (ad_SHA256 (ac_Descriptor content)).
Definition keeps_workspaces s s' : Prop :=
  mc_relay s' = mc_relay s ∧ aw_root <$> as_roots (mc_store s') = aw_root <$> as_roots (mc_store s) ∧ pinned s'.
Definition failed_clean s s' : Prop := keeps_workspaces s s' ∧ ∃ t, mc_log s' = mc_log s ++ t ∧ undone t.
Lemma prepares_clean s s' : pinned s → prepares s s' → failed_clean s s'.
Proof.
  intros Hp ((t & Ht & Hn) & Hr & Ha & Hpin). split; [split_and!; [done|done|by apply Hpin]|]. exists t. split; [done|].
  intros root name h Hin. by destruct (Hn root name h).
Qed.
Lemma save_wp alias filename content s : pinned s →
  wp (save os alias filename content) (λ f s', keeps_workspaces s s' ∧ saved alias filename content f s s') (λ _, failed_clean s) s.
Proof.
  intros Hp. unfold save. apply wp_bind.
  destruct (resolveDownload alias filename s) as [s0 [e|[w0 q]]] eqn:Hres; unfold wp at 1; rewrite Hres.
  { pose proof (resolveDownload_same alias filename s) as Hs. rewrite Hres in Hs. cbn in Hs. subst. by apply prepares_clean. }
  apply resolveDownload_run in Hres as (-> & -> & Hw0 & Hname & Hsens). apply wp_bind, wp_lift; [intros payload Hpay|intros e _; by apply prepares_clean].
  apply returned_payload_ok in Hpay as (Henc & _ & Hdec & Hmatch).
  apply wp_bind. eapply wp_mono; [apply openDownloadRoot_wp| |intros e s1; by apply prepares_clean].
  intros d s1 (H1 & w & Hw & Hd). apply wp_bind. unfold wp at 1.
  destruct (need ErrCreate _ s1) as [s2 r] eqn:Hcreate. unfold need, mbind, M_bind, asked in Hcreate.
  set (o := os_Create os (mc_log s1) d filename) in *. destruct o as [file|] eqn:Ho; unfold throw, mret, M_ret in Hcreate; simplify_eq.
  2: { apply prepares_clean; [done|]. etrans; [exact H1|]. apply reads_prepares. exists [EvCreate d filename None]. split; [done|].
       intros ??? Hin%list_elem_of_singleton. discriminate Hin. }
  destruct H1 as ((t & Ht & Hn) & Hr & Ha & Hpin). specialize (Hpin Hp).
  assert (pinned (mkMcp (mc_log s1 ++ [EvCreate d filename (Some file)]) (mc_store s1) (mc_relay s1))) as Hp2.
  { intros alias' w' d' Hl Hd'. apply pinned_more. by eapply Hpin. }
  assert (aw_root w0 = aw_root w) as Hroot.
  { apply (f_equal (.!! trim_space alias)) in Ha. rewrite !lookup_fmap, Hw, Hw0 in Ha. cbn in Ha. by injection Ha. }
  apply wp_bind, wp_attempt. unfold wp at 1. set (s2 := mkMcp _ _ _) in *.
  pose proof (reads_fill alias d file payload s2) as (u & Hu & Hnu).
  destruct (fill_download _ _ _ _ _ s2) as [s3 [e|[]]] eqn:Hfill; cbn [fst] in Hu; subst s3.
  - apply wp_bind. unfold wp at 1, done_event, asked. cbn [mc_log mc_store mc_relay log_more]. apply wp_throw. split.
    { split_and!; [done|done|]. intros alias' w' d' Hl Hd'. cbn [mc_log mc_store log_more as_roots] in *. do 2 apply pinned_more. by eapply Hp2. }
    exists (t ++ [EvCreate d filename (Some file)] ++ u ++ [EvRemove d filename]). cbn [mc_log s2]. rewrite Ht. split; [by rewrite <- !app_assoc|].
    intros root name h Hin. rewrite !elem_of_app in Hin |- *. destruct Hin as [Hin|[Hin%list_elem_of_singleton|[Hin|Hin%list_elem_of_singleton]]];
      [by destruct (Hn root name h)| |by destruct (Hnu root name h)|discriminate Hin].
    injection Hin as <- <- _. right. right. right. by apply list_elem_of_singleton.
  - apply (fill_run _ _ _ _ w) in Hfill as (opened & current & Hdir & Hsame & _ & Heq); [|done].
    apply wp_ret. split.
    { split_and!; [done|done|]. intros alias' w' d' Hl Hd'. cbn [mc_log mc_store log_more as_roots] in *. apply pinned_more. by eapply Hp2. }
    exists w0, d, file, payload, t, opened, current. apply (f_equal mc_log) in Heq. rewrite Heq. cbn [log_more mc_log s2]. rewrite Ht, Hroot.
    split_and!; try done; [by rewrite <- !app_assoc|]. rewrite <- Ht. by eapply Hpin.
Qed.

Lemma call_log {A} (m : M R Client.client_error A) s : mc_log (call m s).1 = mc_log s ∧ mc_store (call m s).1 = mc_store s.
Proof. unfold call. by destruct (m (mc_relay s)). Qed.
Lemma call_pinned {A} (m : M R Client.client_error A) s : pinned s → pinned (call m s).1.
Proof. intros Hp alias w d. destruct (call_log m s) as [-> ->]. by apply Hp. Qed.

(** What a download did.  The relay was asked for the request and then for
    the content of one of its files, and nothing else. *)
Definition asked_relay (input : DownloadInput) (r r' : R) (content : ArtifactContent) : Prop :=
  ∃ r1 request, relay_GetRequest (trim_space (di_RequestID input)) r = (r1, inr request) ∧
    rq_Status request = StatusCompleted ∧ ac_Descriptor content ∈ rq_ResultFiles request ∧
    ad_ArtifactID (ac_Descriptor content) = trim_space (di_ArtifactID input) ∧
    relay_FetchArtifact (trim_space (di_ArtifactID input)) r1 = (r', inr content).
Definition undone_since s s' : Prop :=
  pinned s' ∧ aw_root <$> as_roots (mc_store s') = aw_root <$> as_roots (mc_store s) ∧ ∃ t, mc_log s' = mc_log s ++ t ∧ undone t.
Definition downloaded (input : DownloadInput) (f : DownloadedFile) s s' : Prop :=
  ∃ content s1, asked_relay input (mc_relay s) (mc_relay s') content ∧ mc_log s1 = mc_log s ∧ mc_store s1 = mc_store s ∧
    keeps_workspaces s1 s' ∧ saved (di_WorkspaceAlias input) (di_RelativePath input) content f s1 s'.
Lemma undone_call s s' : pinned s → mc_log s' = mc_log s → mc_store s' = mc_store s → undone_since s s'.
Proof.
  intros Hp Hl Hs. unfold undone_since, pinned. rewrite Hl, Hs. split; [done|]. split; [done|]. exists []. split; [by rewrite app_nil_r|].
  by intros ??? []%elem_of_nil.
Qed.
Lemma wp_call {A} (m : M R Client.client_error A) (Q : A → mcp_state R → Prop) X s :
  (∀ r' a, m (mc_relay s) = (r', inr a) → Q a (mkMcp (mc_log s) (mc_store s) r')) →
  (∀ e r', X e (mkMcp (mc_log s) (mc_store s) r')) → wp (call m) Q X s.
Proof. intros HQ HX. unfold wp, call. destruct (m (mc_relay s)) as [r' [e|a]]; [apply HX|by apply HQ]. Qed.
Lemma download_wp input s : pinned s → wp (download os input) (λ f s', downloaded input f s s') (λ _, undone_since s) s.
Proof.
  intros Hp. unfold download. apply wp_bind, wp_lift; [intros _ _|intros; by apply undone_call].
  apply wp_bind, wp_lift; [intros _ _|intros; by apply undone_call].
  apply wp_bind, wp_call; [intros r1 request Hget|intros; by apply undone_call].
  apply wp_bind, wp_reject_if; [intros Hst|intros _; by apply undone_call]. apply negb_false_iff, bool_decide_eq_true in Hst.
  destruct (List.find _ _) as [expected|] eqn:Hfind; [|apply wp_throw; by apply undone_call].
  apply find_some in Hfind as [Hin%list_elem_of_In Hid%bool_decide_eq_true].
  apply wp_bind, wp_call; [intros r2 content Hfetch|intros; by apply undone_call]. cbn [mc_relay mc_log mc_store] in *.
  apply wp_bind, wp_reject_if; [intros Hd|intros _; by apply undone_call]. apply negb_false_iff, bool_decide_eq_true in Hd.
  eapply wp_mono; [by apply save_wp|intros f s' [Hk Hs]|intros e s' [(_ & Ha & Hpin) Ht]; by split_and!].
  exists content, (mkMcp (mc_log s) (mc_store s) r2). split_and!; try done. exists r1, request. rewrite Hd, <- Hid.
  destruct Hk as (-> & _). by split_and!.
Qed.
End download.

(** ** The tools *)

Section tools.
Context `{UT : UnicodeTables} {R : Type} `{RL : Relay R}.
Variable os : system.
Variables (TypeByExtension DetectContentType : string → string).
Implicit Types (s : mcp_state R) (t : list os_event).

Inductive tool :=
  | FindTeammates (input : FindTeammatesInput) | RequestHelp (input : RequestHelpInput) | Continue (input : ContinueInput)
  | GetStatus (requestID : string) | CancelTool (requestID : string) | Download (input : DownloadInput).
(** The state a tool leaves. *)
Definition use (x : tool) s : mcp_state R :=
  match x with
  | FindTeammates input => (findTeammates input s).1
  | RequestHelp input => (requestHelp os TypeByExtension DetectContentType input s).1
  | Continue input => (continueConversation os TypeByExtension DetectContentType input s).1
  | GetStatus requestID => (getStatus requestID s).1
  | CancelTool requestID => (cancel requestID s).1
  | Download input => (download os input s).1
  end.
(** A server that started on some workspaces and was used since. *)
Inductive serving : mcp_state R → Prop :=
  | serving_started enabled workspaces s s' : newAttachmentStore os enabled workspaces s = (s', inr ()) → serving s'
  | serving_used x s : serving s → serving (use x s).

Lemma open_workspaces_fresh l : ∀ seen roots s s' roots', (∀ alias w, roots !! alias = Some w → aw_downloadRoot w = None) →
  open_workspaces os seen roots l s = (s', inr roots') → ∀ alias w, roots' !! alias = Some w → aw_downloadRoot w = None.
Proof.
  induction l as [|x l IH]; intros seen roots s s' roots' Hr Hrun; cbn [open_workspaces] in Hrun; [by injection Hrun as <- <-|].
  apply bind_inr in Hrun as (s1 & opened & Ho & Hrun). destruct opened as [e|[seen1 roots1]]; [by apply bind_inr in Hrun as (? & ? & _ & ?)|].
  unfold attempt in Ho. destruct (open_workspace os seen roots x s) as [s2 o2] eqn:Hw. injection Ho as -> ->. unfold open_workspace in Hw. mcp_inv. eapply IH; [|exact Hrun|done]. intros alias' w'.
  rewrite lookup_insert_Some. intros [[_ <-]|[_ Hl]]; [done|by eapply Hr].
Qed.
Lemma guar_pinned {A} (m : M (mcp_state R) mcp_error A) s : guar reads m → pinned s → pinned (m s).1.
Proof. intros Hm Hp. destruct (reads_prepares _ _ (Hm s)) as (_ & _ & _ & H). by apply H. Qed.
Lemma pinned_then {A B} (m : M (mcp_state R) mcp_error A) (f : A → M (mcp_state R) mcp_error B) s :
  pinned (m s).1 → (∀ a s1, pinned s1 → pinned (f a s1).1) → pinned ((m ≫= f) s).1.
Proof. unfold mbind, M_bind. intros Hm Hf. destruct (m s) as [s1 [e|a]]; [done|by apply Hf]. Qed.
Lemma pinned_use x s : pinned s → pinned (use x s).
Proof.
  intros Hp. destruct x as [input|input|input|id|id|input]; cbn [use].
  - unfold findTeammates. apply pinned_then; [apply guar_pinned; [apply guar_reject_if, _|done]|intros _ s1 H1].
    apply pinned_then; [apply guar_pinned; [apply guar_reject_if, _|done]|intros _ s2 H2]. by apply call_pinned.
  - unfold requestHelp. apply pinned_then; [apply guar_pinned; [apply guar_lift, _|done]|intros _ s1 H1].
    apply pinned_then; [apply guar_pinned; [apply reads_buildRequest|done]|intros r s2 H2]. by apply call_pinned.
  - unfold continueConversation. apply pinned_then; [apply guar_pinned; [apply guar_lift, _|done]|intros _ s1 H1].
    apply pinned_then; [apply guar_pinned; [apply reads_buildRequest|done]|intros r s2 H2]. by apply call_pinned.
  - unfold getStatus. apply pinned_then; [apply guar_pinned; [apply guar_lift, _|done]|intros _ s1 H1]. by apply call_pinned.
  - unfold cancel. apply pinned_then; [apply guar_pinned; [apply guar_lift, _|done]|intros _ s1 H1]. by apply call_pinned.
  - pose proof (download_wp os input s Hp) as Hd. unfold wp in Hd.
    destruct (download os input s) as [s' [e|f]]; [by destruct Hd|]. destruct Hd as (content & s1 & _ & _ & _ & (_ & _ & H) & _). exact H.
Qed.
Lemma serving_pinned s : serving s → pinned s.
Proof.
  induction 1 as [enabled workspaces s s' Hrun|x s _ IH]; [|by apply pinned_use]. unfold newAttachmentStore in Hrun.
  apply bind_inr in Hrun as (s1 & roots & Hopen & Hrun). unfold set_store, modify in Hrun. injection Hrun as <-.
  intros alias w d Hw Hd. cbn [mc_store as_roots] in Hw. pose proof (open_workspaces_fresh _ _ _ _ _ _ (λ _ _ He, ltac:(by rewrite lookup_empty in He)) Hopen alias w Hw). congruence.
Qed.

(** C23. What a request for help carries.  Whatever the operating system
    answers, request_help and continue_conversation make no file, and either
    fail without reaching the relay or send it exactly one request, whose
    answer is their answer.  The request has a trimmed title and prompt, times,
    access and key within the limits; its files are those that were asked for,
    in this order, few and small in all, with names that differ also without
    case, and only if the owner allows files to leave.  Each file has a
    portable path in a configured workspace on which no component is
    sensitive, was reached and read whole without following a link, every
    directory and the file being the same object before and after it was
    opened, and is described by the name, size, digest and content that were
    read. *)
Theorem requests_carry_checked_files (help : RequestHelpInput) (continued : ContinueInput) s :
  (let (s', res) := requestHelp os TypeByExtension DetectContentType help s in
   mc_store s' = mc_store s ∧ makes_none (drop (length (mc_log s)) (mc_log s')) ∧
   sends (rh_Attachments help) (with_target (trim_space (rh_TargetAgentID help))) s s' res ∧
   (is_ok res = true → id_ok (trim_space (rh_TargetAgentID help)))) ∧
  (let (s', res) := continueConversation os TypeByExtension DetectContentType continued s in
   mc_store s' = mc_store s ∧ makes_none (drop (length (mc_log s)) (mc_log s')) ∧
   sends (ci_Attachments continued) (with_conversation (trim_space (ci_ConversationID continued))) s s' res ∧
   (is_ok res = true → id_ok (trim_space (ci_ConversationID continued)))).
Proof.
  split.
  - destruct (requestHelp _ _ _ help s) as [s' res] eqn:Hrun. unfold requestHelp in Hrun. by apply sends_run in Hrun.
  - destruct (continueConversation _ _ _ continued s) as [s' res] eqn:Hrun. unfold continueConversation in Hrun. by apply sends_run in Hrun.
Qed.

(** C24. What a download leaves.  A server that started on its workspaces and
    served any calls since answers download_result_file in one of two ways.
    With a file: the relay gave a completed request, the file is one of its
    results, the content came with exactly the descriptor of the request and
    has its size and digest, and it was written whole to a new file of the
    name that was asked for, portable and not sensitive, in the download
    directory of the workspace; that directory was opened as an ordinary
    directory, no link, and still is the same object after the file was
    closed.  Or with an error: every file made on the way was removed again,
    and the workspaces are as before. *)
Theorem download_all_or_nothing input s : serving s →
  let (s', res) := download os input s in
  match res with inr f => downloaded input f s s' | inl _ => undone_since s s' end.
Proof.
  intros Hp%serving_pinned. pose proof (download_wp os input s Hp) as Hd. unfold wp in Hd. by destruct (download os input s) as [s' [e|f]].
Qed.
End tools.
