(* ===== verification/McpAgreement.v ===== *)
(** * The requests of the tools, and the relay

    The relay takes the requests the tools send, but for the differences named
    here; then the tools at a concrete desk. *)

From S2P Require Import Prelude GoString Sha256 GoStringFacts Protocol Redact RedactFacts Artifact.
From S2P Require Import Redis RedisLogic MemRedis ArtifactAgreement Mcp McpProofs.
From S2P Require CollabStore.
From Stdlib Require Import Ascii.

Local Open Scope Z_scope.

(** ** The relay takes them *)

Section taken.
Context `{UT : UnicodeTables}.

Lemma string_of_runes_app l1 l2 : string_of_runes (l1 ++ l2) = string_of_runes l1 +:+ string_of_runes l2.
Proof.
  induction l1 as [|r l1 IH]; [done|]. change (string_of_runes ((r :: l1) ++ l2)) with (encode_rune r +:+ string_of_runes (l1 ++ l2)).
  rewrite IH. change (string_of_runes (r :: l1)) with (encode_rune r +:+ string_of_runes l1). by rewrite string_app_assoc.
Qed.
Lemma lower_slash a b : to_lower (a +:+ String "/" b) = to_lower a +:+ String "/" (to_lower b).
Proof.
  unfold to_lower, runes. rewrite segments_app by done. rewrite segments_ascii by done. rewrite !fmap_app, !fmap_cons, string_of_runes_app. done.
Qed.
(** The last component of a path, and what is before it. *)
Lemma split_shape p : ∃ b, last (split_byte "/"%char p) = Some b ∧ Forall (λ c, c ≠ "/"%char) (bytes b) ∧
  (p = b ∨ ∃ a, p = a +:+ String "/" b).
Proof.
  induction p as [|c p (b & Hb & Hfree & IH)]; [exists ""; split_and!; [done|constructor|by left]|]. cbn [split_byte].
  destruct (Ascii.eqb c "/") eqn:Hc; [apply Ascii.eqb_eq in Hc as ->|apply Ascii.eqb_neq in Hc].
  - exists b. rewrite last_cons, Hb. split_and!; [done|done|]. right. destruct IH as [->|(a & ->)]; [by exists ""|by exists (String "/" a)].
  - destruct IH as [->|(a & ->)].
    + exists (String c b). rewrite split_byte_free by done. split_and!; [done|by constructor|by left].
    + exists b. rewrite split_byte_snoc in Hb |- *. split_and!; [|done|right; by exists (String c a)].
      destruct (split_byte "/"%char a) as [|x l] eqn:Hs; [by destruct (split_byte_ne "/"%char a)|]. cbn [app] in Hb |- *.
      rewrite last_cons in Hb |- *. rewrite split_byte_free in Hb |- * by done. rewrite last_snoc in Hb |- *. done.
Qed.
(** No rune above ASCII has the slash as its lower case. *)
Context (lower_keeps_slash : ∀ r, 128 <= r → uni_lower r ≠ 47).
Lemma lower_free b : Forall (λ c, c ≠ "/"%char) (bytes b) → Forall (λ c, c ≠ "/"%char) (bytes (to_lower b)).
Proof.
  rewrite !Forall_forall. intros Hb c Hc ->. unfold to_lower in Hc.
  assert (∃ r, r ∈ runes b ∧ "/"%char ∈ bytes (encode_rune (rune_lower r))) as (r & Hr & He).
  { clear Hb. induction (runes b) as [|r l IH]; [by apply elem_of_nil in Hc|].
    change (string_of_runes (rune_lower <$> r :: l)) with (encode_rune (rune_lower r) +:+ string_of_runes (rune_lower <$> l)) in Hc.
    rewrite bytes_app in Hc. apply elem_of_app in Hc as [Hc|Hc]; [exists r; split; [left|done]|].
    destruct (IH Hc) as (r' & Hr' & He). exists r'. split; [by right|done]. }
  apply encode_rune_bytes in He; [|done]. unfold rune_lower, in_range in He. destruct (r <? 128) eqn:Hlow.
  - destruct (low_rune_byte b r Hr) as (c & Hc' & Hv); [lia|]. apply (Hb c Hc'). destruct ((65 <=? r) && (r <=? 90)) eqn:Hup.
    + change (byte_val "/") with 47 in He. lia.
    + apply (f_equal byte_of) in Hv. rewrite byte_of_val in Hv. rewrite Hv, <- He. done.
  - apply (lower_keeps_slash r); [lia|done].
Qed.
Lemma sensitivePath_base p : sensitivePath p = false → sensitiveFilename (base_name p) = false.
Proof.
  destruct (split_shape p) as (b & Hlast & Hfree & Hp). unfold base_name. rewrite Hlast. change (default "" (Some b)) with b. intros Hs.
  assert (sensitive_component (to_lower b) = false) as Hc.
  { destruct (sensitive_component (to_lower b)) eqn:Hc; [|done]. rewrite <- Hs. symmetry. unfold sensitivePath. clear Hs.
    apply existsb_exists. exists (to_lower b). split; [|done]. apply list_elem_of_In. pose proof (lower_free b Hfree) as Hl.
    destruct Hp as [->|(a & ->)]; [rewrite split_byte_free by done; set_solver|].
    rewrite lower_slash, split_byte_snoc, (split_byte_free _ (to_lower b)) by done. set_solver. }
  unfold sensitive_component, sensitiveFilename in *. cbn [existsb sensitive_suffixes].
  rewrite !orb_false_iff in Hc. destruct Hc as ((((((Hin & H1) & H2) & H3) & H4) & H5) & H6). rewrite H1, H2, H3, H4, H5, H6.
  rewrite !orb_false_r. apply bool_decide_eq_false in Hin. apply bool_decide_eq_false. intros Hn. apply Hin. unfold sensitive_names, sensitive_components in *. set_solver.
Qed.

Lemma portable_components l : is_ok (validate_components l) = true → Forall (λ c, is_ok (ValidatePortableFilename c) = true) l.
Proof.
  induction l as [|c l IH]; [by constructor|]. cbn [validate_components]. destruct (ValidatePortableFilename c) as [e|[]] eqn:Hc; [done|].
  intros H. constructor; [by rewrite Hc|by apply IH].
Qed.
Lemma portable_base p : is_ok (ValidatePortableRelativePath p) = true → is_ok (ValidatePortableFilename (base_name p)) = true.
Proof.
  unfold ValidatePortableRelativePath. destruct (_ || _); [done|]. intros H%portable_components. rewrite Forall_forall in H. apply H.
  destruct (split_shape p) as (b & Hlast & _ & _). unfold base_name. rewrite Hlast. by apply last_Some_elem_of.
Qed.
Lemma attached_acceptable st input item t : attached st input item t → acceptable item.
Proof.
  intros (w & contents & _ & Hp & Hs & _ & Hn & He & Hd & Hsize & Hmax & Hsha). split.
  { rewrite Hn. apply deliverable_name; [by apply portable_base|by apply sensitivePath_base]. }
  split; [done|]. exists contents. split_and!; try done. lia.
Qed.
Lemma trimmed_label v n : v = trim_space v → v ≠ "" → len v <= n → CollabStore.validLabel v n = negb (existsb is_control (runes v)).
Proof.
  intros Hv Hne Hl. unfold CollabStore.validLabel. rewrite <- Hv, bool_decide_false by done.
  by rewrite (proj2 (Z.ltb_ge n (len v))) by lia.
Qed.
Lemma id_valid id n : id_ok id → CollabStore.validIdentifier id n = (len id <=? n).
Proof.
  intros (Ht & Hne & _ & Hr). unfold CollabStore.validIdentifier. rewrite <- Ht, Hr, bool_decide_false by done. cbn. rewrite andb_true_r.
  destruct (n <? len id) eqn:H, (len id <=? n) eqn:H'; lia || done.
Qed.
(** The aliases the relay takes, beyond [access_ok]. *)
Definition alias_taken (a : RequestedAccess) : bool :=
  (len (trim_space (ra_WorkspaceAlias a)) <=? 100) && negb (existsb is_control (runes (trim_space (ra_WorkspaceAlias a)))).
Lemma access_taken l : ∀ seen, access_ok seen l →
  CollabStore.validate_access seen l = if forallb alias_taken l then inr () else inl CollabStore.ErrInvalid.
Proof.
  induction l as [|a l IH]; intros seen [Hall Hdup]; [done|]. cbn [CollabStore.validate_access forallb].
  apply Forall_cons in Hall as [(Hne & _ & Hmode & Hnew) Hall]. rewrite fmap_cons in Hdup. apply NoDup_cons in Hdup as [Hfresh Hdup].
  unfold CollabStore.validLabel, alias_taken at 1. rewrite bool_decide_false by done.
  assert (negb (bool_decide (ra_Mode a = PermissionReadOnly)) && negb (bool_decide (ra_Mode a = PermissionGuardedWrite)) = false) as ->.
  { destruct Hmode as [-> | ->]; done. }
  rewrite bool_decide_false by done. rewrite IH.
  - destruct (100 <? len _) eqn:H1, (len _ <=? 100) eqn:H2, (existsb _ _); cbn; try lia; done.
  - split; [|done]. rewrite Forall_forall in Hall |- *. intros x Hx. destruct (Hall x Hx) as (? & ? & ? & ?). split_and!; try done.
    rewrite elem_of_union, elem_of_singleton. intros [He|]; [|done]. apply Hfresh. rewrite <- He. by apply list_elem_of_fmap_2 with (f := λ a, to_lower (trim_space (ra_WorkspaceAlias a))).
Qed.

(** What the relay asks of a request that the tools do not. *)
Definition fits (id : string) (r : CreateRequest) : bool :=
  (len id <=? 100) && (len (cr_IdempotencyKey r) <=? 128) && negb (existsb is_control (runes (cr_Title r))) &&
  forallb alias_taken (cr_RequestedAccess r).
Lemma validate_sendable r id target conversation : sendable r → id_ok id → Z.of_nat (length (cr_Attachments r)) <= MaxAttachments →
  (target = id ∧ conversation = "" ∨ target = "" ∧ conversation = id) →
  CollabStore.validateCreate (mkCreateRequest target conversation (cr_Title r) (cr_Prompt r) (cr_RequestedAccess r) (cr_Attachments r)
    (cr_ExpiresInSeconds r) (cr_IdempotencyKey r)) = if fits id r then inr () else inl CollabStore.ErrInvalid.
Proof.
  intros (Hp & Hpne & Hpl & Ht & Htne & Htl & Hexp & Hlen & Hacc & Hkey) Hid Hfiles Hto. unfold CollabStore.validateCreate.
  cbn [cr_ConversationID cr_TargetAgentID cr_Title cr_Prompt cr_RequestedAccess cr_Attachments cr_ExpiresInSeconds cr_IdempotencyKey].
  rewrite trimmed_label, id_valid, access_taken, <- Hp by done. rewrite (bool_decide_false (cr_Prompt r = "")) by done.
  rewrite !(proj2 (Z.ltb_ge _ _)) by lia. unfold fits.
  assert (trim_space "" = "") as He by done. destruct Hid as (Htr & Hne & Hmax & Hr). pose proof (id_valid id 100 (conj Htr (conj Hne (conj Hmax Hr)))) as Hval.
  destruct Hto as [[-> ->]|[-> ->]]; rewrite He, <- Htr, !(bool_decide_false (id = "")), !(bool_decide_true ("" = "")) by done; rewrite Hval; cbn [negb andb orb];
    destruct (len id <=? 100), (len (cr_IdempotencyKey r) <=? 128), (existsb is_control (runes (cr_Title r))); done.
Qed.
End taken.

Section requests_taken.
Context {DB : Type} `{RL : RedisLaws DB} `{UT : UnicodeTables}.

(** C25. The relay takes the requests the tools send.  The checks that the
    relay makes of a request ([validateCreate] and [prepareArtifacts]) hold of
    every request that request_help or continue_conversation sends, but for
    the differences named in the statement: the relay takes identifiers of at
    most 100 bytes, idempotency keys of at most 128, aliases of at most 100,
    and no control character in a title or an alias, and it refuses the
    request exactly when one of these fails; and it takes a file whose type
    is written as a MIME type.  In particular a name that passes the
    requester's list of sensitive files passes the relay's, for which it
    matters that lowering the case of a path does not move its slashes. *)
Theorem sent_requests_taken : (∀ r, 128 <= r → uni_lower r ≠ 47) → ∀ r id st files t,
  sendable r → cr_TargetAgentID r = "" → cr_ConversationID r = "" → files_sent st files (cr_Attachments r) t → id_ok id →
  CollabStore.validateCreate (with_target id r) = (if fits id r then inr () else inl CollabStore.ErrInvalid) ∧
  CollabStore.validateCreate (with_conversation id r) = (if fits id r then inr () else inl CollabStore.ErrInvalid) ∧
  (Forall (λ i, CollabStore.validMIMEType (ai_MIMEType i) = true) (cr_Attachments r) →
   ∀ requestID requester target (w : world DB), ∃ w' prepared,
     CollabStore.prepareArtifacts (cr_Attachments r) requestID requester target "input" w = (w', inr prepared)).
Proof.
  intros Hslash r id st files t Hsend Ht Hc (_ & Hlen & (ts & _ & Hall) & Hnames & Hsum) Hid.
  apply Forall3_length_lm in Hall as Hlen2. 
  unfold with_target, with_conversation. rewrite Ht, Hc.
  split; [apply validate_sendable; auto; lia|]. split; [apply validate_sendable; auto; lia|].
  intros Hmime requestID requester target w. unfold CollabStore.prepareArtifacts. apply prepare_accepts; [|done|done| |lia].
  - clear -Hall Hslash. induction Hall as [|f i u files items ts Hi _ IH]; [constructor|]. constructor; [by eapply attached_acceptable|exact IH].
  - apply Forall_forall. set_solver.
Qed.
End requests_taken.

(** ** A desk

    A workspace with one directory and one file; a relay with one completed
    request; closing a new file may fail. *)

#[local] Instance desk_tables : UnicodeTables := ascii_tables.
Definition desk (close_ok : bool) : system := {|
  os_Abs := λ _ p, Some p;
  os_EvalSymlinks := λ _ p, Some p;
  os_OpenDirectory := λ _ p, if bool_decide (p = "/home/ann/docs") then Some 1%nat else None;
  os_Lstat := λ _ root name,
    if bool_decide (root = 1%nat ∧ name = "plans") then Some (mkFileInfo KindDirectory 493 0 10)
    else if bool_decide (root = 2%nat ∧ name = "q3.txt") then Some (mkFileInfo KindRegular 420 5 11)
    else if bool_decide (root = 1%nat ∧ name = downloadDirectory) then Some (mkFileInfo KindDirectory 448 0 20) else None;
  os_Missing := λ _ _ _, true;
  os_OpenRoot := λ _ _ name, if bool_decide (name = "plans") then Some 2%nat else if bool_decide (name = downloadDirectory) then Some 3%nat else None;
  os_StatRoot := λ _ root, Some (mkFileInfo KindDirectory 448 0 (if bool_decide (root = 2%nat) then 10 else 20));
  os_Mkdir := λ _ _ _, true;
  os_Open := λ _ _ _, Some 4%nat;
  os_Stat := λ _ _, Some (mkFileInfo KindRegular 420 5 11);
  os_ReadAll := λ _ _, Some "hello";
  os_Create := λ _ _ _, Some 5%nat;
  os_Write := λ _ _ _, true;
  os_Close := λ _ _, close_ok |}.
Definition answered : Request :=
  mkRequest "v1" "req_1" "conv_1" "agent_a" "member_a" "Ann" "agent_b" "Plans" "" "Check the plan" 14 "" [] [] [notes]
    StatusCompleted "Done." "" 0 1 2 4.
(** The relay counts what it is asked. *)
#[local] Instance desk_relay : Relay nat := {|
  relay_ListAgents := λ _ n, (S n, inr (mkAgentDirectoryResponse [] 0));
  relay_CreateRequest := λ _ n, (S n, inr (mkMutationResponse "req_1" "conv_1" StatusAwaitingApproval));
  relay_GetRequest := λ _ n, (S n, inr answered);
  relay_CancelRequest := λ _ n, (S n, inr (mkMutationResponse "req_1" "conv_1" StatusCancelled));
  relay_FetchArtifact := λ _ n, (S n, inr (mkArtifactContent notes "base64" "aGVsbG8=")) |}.
Definition desk_start (close_ok : bool) : mcp_state nat * (mcp_error + ()) :=
  newAttachmentStore (desk close_ok) true [("docs", "/home/ann/docs")] (mkMcp [] (mkStore false ∅) 0%nat).
Definition the_plan : RequestHelpInput := mkHelp "agent_b" "Plans" "Check the plan" [] [mkLocal "docs" "plans/q3.txt"] 0 "key_1".
Definition the_plan_sent : CreateRequest :=
  mkCreateRequest "" "" "Plans" "Check the plan" [] [mkAttachmentInput "q3.txt" "text/plain" "base64" 5 (sha256_hex "hello") "aGVsbG8="] 1800 "key_1".
Definition the_notes : DownloadInput := mkDownload "req_1" "art_1" "docs" "answer.txt".

Lemma desk_started close_ok : (desk_start close_ok).2 = inr ().
Proof. by destruct close_ok; vm_compute. Qed.
Lemma desk_serving close_ok : serving (desk close_ok) by_extension by_content (desk_start close_ok).1.
Proof. apply (serving_started _ _ _ true [("docs", "/home/ann/docs")] (mkMcp [] (mkStore false ∅) 0%nat)). rewrite <- (desk_started close_ok). by apply surjective_pairing. Qed.
Definition plan_built := buildRequest (desk true) by_extension by_content "Plans" "Check the plan" [] [mkLocal "docs" "plans/q3.txt"] 0 "key_1" (desk_start true).1.
Lemma plan_sent : plan_built = (plan_built.1, inr the_plan_sent).
Proof. assert (plan_built.2 = inr the_plan_sent) as <- by (vm_compute; reflexivity). apply surjective_pairing. Qed.
Lemma plan_key : validateID "agent_b" = inr ().
Proof. vm_compute. reflexivity. Qed.

Lemma download_all_or_nothing_witness :
  (∃ s' f, download (desk true) the_notes (desk_start true).1 = (s', inr f) ∧ df_RelativePath f = "team-relay-downloads/answer.txt" ∧
     downloaded the_notes f (desk_start true).1 s') ∧
  (∃ s', download (desk false) the_notes (desk_start false).1 = (s', inl ErrClose) ∧ undone_since (desk_start false).1 s').
Proof.
  pose proof (download_all_or_nothing (desk true) by_extension by_content the_notes (desk_start true).1 (desk_serving true)) as Hgood.
  pose proof (download_all_or_nothing (desk false) by_extension by_content the_notes (desk_start false).1 (desk_serving false)) as Hbad.
  assert (match (download (desk true) the_notes (desk_start true).1).2 with inr f => df_RelativePath f = "team-relay-downloads/answer.txt" | inl _ => False end)
    as Hrun by (vm_compute; reflexivity).
  assert ((download (desk false) the_notes (desk_start false).1).2 = inl ErrClose) as Hfail by (vm_compute; reflexivity).
  split.
  - destruct (download (desk true) the_notes (desk_start true).1) as [s' [e|f]]; [destruct Hrun|]. exists s', f. exact (conj eq_refl (conj Hrun Hgood)).
  - destruct (download (desk false) the_notes (desk_start false).1) as [s' [e|f]]; [|discriminate Hfail]. injection Hfail as ->. exists s'. exact (conj eq_refl Hbad).
Defined.
Lemma sent_requests_taken_witness : CollabStore.validateCreate (with_target "agent_b" the_plan_sent) = inr () ∧
  ∃ w' prepared, CollabStore.prepareArtifacts (cr_Attachments the_plan_sent) "req_1" "agent_a" "agent_b" "input" (test_world mem_empty) = (w', inr prepared).
Proof.
  destruct (buildRequest_run (desk true) by_extension by_content "Plans" "Check the plan" [] [mkLocal "docs" "plans/q3.txt"] 0 "key_1" (desk_start true).1
    plan_built.1 the_plan_sent plan_sent) as (t & _ & Hsend & Hfiles).
  destruct (sent_requests_taken (DB := memdb)) with (r := the_plan_sent) (id := "agent_b") (st := mc_store (desk_start true).1) (files := [mkLocal "docs" "plans/q3.txt"]) (t := t)
    as (Hok & _ & Hp).
  - intros r Hr. cbn. lia.
  - exact Hsend.
  - reflexivity.
  - reflexivity.
  - exact Hfiles.
  - exact (validateID_ok "agent_b" () plan_key).
  - split; [exact Hok|]. apply Hp. repeat constructor.
Defined.
